(* ===== verification/_CoqProject ===== *)
-Q . S2P
Prelude.v
RustStr.v
Json.v
StateStore.v
StateBackend.v
StateMachine.v
TwoPhaseCommit.v
Config.v
Expression.v
F64.v
QueryCancel.v
McpSession.v
ListIndex.v
Calibrator.v
D1.v
SqlText.v
SqlSplit.v
SqlGuard.v
TaskSupervisor.v
Batch.v
Wkb.v
TextExport.v
ProductionSafety.v
GridTypes.v
DataCompare.v
DataVerify.v
SqlRisk.v
AgentContext.v
AgentContract.v
Prog.v
AgentTools.v
AgentLoop.v
AgentSafety.v
SqlImport.v
PoolErrors.v
SqlFileImport.v
SqlImportRefines.v
SqlImportStream.v
QueryTypes.v
ManualTxn.v
TxnOwnership.v
Transactions.v
TxAtomic.v
StatementRun.v
StatementReports.v
SqlIdent.v
SqlScan.v
SqlTemporal.v
GridLiteral.v
GridReadBack.v
GridRows.v
GridBatch.v
GridStores.v
GridSave.v
GridSafe.v
GridFilter.v
GridSync.v
TableSelect.v
TableExport.v
StatementRanges.v
QuerySql.v
QueryPages.v
