(* ===== verification/Prelude.v ===== *)
(** * dbx: a verified model of its core

    dbx is a database workbench written in Rust: a library (src/crates/dbx-core),
    an MCP server for agents (src/crates/dbx-mcp), a command line, a web server
    and a desktop shell over the library. This development models the parts of
    the two crates that decide things: who may write, in which order distributed
    work commits, which configuration wins, which task or session is alive, how
    two tables are made equal, what an agent may do and when it stops.
    Everything is an executable function, a program over its environment or a
    step relation translated from the source; file names below are relative to
    src/crates/dbx-core/src unless they start with dbx-mcp.

    ** The files

    Prelude: results, the effect monad [M] (state passing with errors, effects
    before an error stay), 64-bit addition, a stable sort, iteration over a
    HashMap in an unspecified order ([HashIter]). RustStr: strings as UTF-8 bytes
    with the [str] methods used, and what makes a byte list valid UTF-8. Json:
    serde_json values and the codec interface ([Codec], with its round trip
    [CodecOk]). F64: binary64 and binary32 numbers, and the parser of decimals.
    Prog: programs that call their environment, runs of them, and what holds of
    every run.

    StateStore: the state_store table of storage.rs, one function per SQL
    statement, a call may fail. StateBackend: the trait of state_persistence.rs
    as a class, what a backend promises as [BackendSpec] and [Reliable], the
    default compare_and_swap as [NoCas]; LocalBackend is the instance over the
    table. StateMachine: the states, the transition table and every method of
    StateMachine over any backend. TwoPhaseCommit: two_phase_commit.rs over any
    backend and any participants; the [World] of the theorems records each call
    and each log write.

    Config, Expression: config/layer.rs, tag.rs, trace.rs and expression.rs.
    Calibrator: state_calibrator.rs with normalize_definition of schema_diff.rs.
    QueryCancel: query_cancel.rs. TaskSupervisor: task_supervisor.rs, its calls
    interleaved with the runtime. McpSession, Batch, ListIndex:
    dbx-mcp/src/session.rs, batch.rs and list_index.rs.

    SqlText: texts as lists of characters, the database types of
    models/connection.rs, the interfaces [UnicodeCase] and [SqlTokenizer].
    SqlSplit: the statement splitter and the batches of sql.rs. SqlGuard: the
    read-only guard and explain of query_execution_sql.rs, over the splitter.
    ProductionSafety: production_safety.rs, which databases a script or a MongoDB
    pipeline writes to. SqlRisk: sql_risk.rs, the classification of parsed
    scripts and the judgement of WHERE clauses. D1: the SQL files of
    db/cloudflare_d1.

    SqlImport: the import optimiser of sql.rs, which statements of a dump are
    sent, skipped or merged. PoolErrors: what query.rs and db/agent_driver.rs
    read in an error, and the catalog of agent_catalog.rs. SqlFileImport:
    sql_file_import.rs, the import of files as a program over databases, files,
    a clock and the user. SqlImportRefines: that program against a database.
    SqlImportStream: its splitters in chunks, and the throttled progress.

    QueryTypes: results, batch results and error texts of query.rs, the first
    keyword of a statement (sql.rs), the catalogs of db/mysql.rs. ManualTxn: the
    manual transactions of query.rs, each handler and the idle watcher a program,
    and the map of sessions of connection.rs they interleave over; TxnOwnership:
    the invariant of that system. Transactions: lists of statements in one
    transaction, path by path, and the deployment of schema differences;
    TxAtomic: these against a server, and db/turso_driver.rs. StatementRun: one
    statement, batches and lists of statements (query.rs); StatementReports: what
    they send and report.

    Wkb: db/wkb.rs, geometries from bytes to text. TextExport: csv_export.rs and
    text_export.rs, results as CSV, TSV, Markdown and JSON, and the paged export.
    DataCompare: data_compare.rs, the differences of two tables and the statements
    that remove them. DataVerify: how much of two tables that file compares, with
    the confidence levels of risk_metrics.rs.

    AgentContext, AgentContract, AgentLoop: agent_loop.rs, split into the budget
    of the context, the task contract, and the loop with its effects. AgentTools:
    agent_tools.rs, the permissions of a run and every tool. AgentSafety: what an
    agent without permissions sends, by SqlRisk.

    GridTypes: the columns of the data grid (data_grid_sql.rs) and the families of
    databases of sql_dialect/capabilities.rs. SqlIdent: how names and tables are
    quoted and qualified (sql_dialect/identifiers.rs, table_select.rs), and a reader
    of quoted names. SqlScan: a reader of statements by their quotes. SqlTemporal:
    dates and times in SQL (data_grid_sql.rs, sqlserver_temporal.rs). GridLiteral: a
    cell as an SQL literal for every database, with the arrays of transfer.rs;
    GridReadBack: a reader of these literals. GridRows, GridBatch, GridStores,
    GridSave: the predicates of rows, MySQL's batches, Neo4j and TDengine
    (data_grid_neo4j_sql.rs, data_grid_tdengine_sql.rs), and what a save refuses,
    runs and keeps to undo itself; GridSafe: each of these statements is a single
    one. GridFilter: filters, values of a column and copies of rows. GridSync: the
    statements of DataCompare written with the names and literals of the grid.
    TableSelect: the SELECT of a page of a table (sql_dialect/table_select.rs) and
    what its paging clause selects; TableExport: TextExport's export over it.
    StatementRanges: the statements of a script with their offsets, and the one at
    the cursor (sql.rs). QuerySql: how a user's query is paged, counted and sorted
    (query_result_sql.rs); QueryPages: a reader of SQL by its quotes and comments,
    and what a page of a query selects.

    ** How the parts meet

    TwoPhaseCommit logs through a StateBackend and keeps an entry of the
    StateMachine; the StateMachine commits through compare_and_swap of the
    backend; LocalBackend stores both in the table of StateStore. Theorems about
    a client are proved against the class, and the instance discharges it.
    SqlGuard splits with SqlSplit and tests each statement; ProductionSafety
    masks with SqlGuard and splits with SqlSplit. Config feeds Expression; Batch
    takes its default from ListIndex. DataVerify fetches the rows DataCompare
    compares. AgentLoop runs the programs of AgentTools, which ask
    ProductionSafety, SqlGuard and SqlRisk before a statement reaches a database;
    it cuts its messages with AgentContext and checks answers with AgentContract.
    SqlFileImport splits with SqlSplit, plans with SqlImport and reads errors with
    PoolErrors, which asks SqlGuard whether a statement may be replayed. ManualTxn,
    Transactions and StatementRun check statements with SqlGuard and read errors
    with PoolErrors; the deployment in Transactions asks SqlRisk what a statement
    does and reports with the statuses of TwoPhaseCommit. DataCompare is written
    against the interface [SqlWriter] of names and literals; SqlIdent and GridLiteral
    are the writer of the program, and GridSync puts the two together. TextExport
    leaves the SELECT of a page open; TableExport puts TableSelect's there.
    StatementRanges tests statements with SqlSplit; QuerySql takes the statement of a
    query from StatementRanges, its names from SqlIdent and its strategy of paging
    from GridTypes.

    ** What is proved

    - Commit protocol: commits follow unanimous prepares and a durable decision
      and never a rollback; on a backend that answers the stored status is what
      the participants did; recovery for every stored status; and where it
      fails: the state entry that never leaves Created, the mixed outcome that an
      interrupted run forgets.
    - State machine: any interleaving of clients is a sequence of legal
      transitions counted by the version; a transition on a row in step is atomic;
      the life-cycle graph; the two ways in which an entry gets stuck.
    - Read-only guard and production scope: what stripping computes, exactly which
      statements pass, what every explained text satisfies, where the splitter
      cuts, exactly when a script or a pipeline is said to write to production;
      and the scripts that write and pass.
    - SQL risk: what a script may contain that passes without the permission for
      dangerous statements, and that a predicate called unbounded is.
    - Imports: merging is invisible, an import leaves what sending every statement
      alone leaves; every statement is counted once whatever fails; a statement is
      sent once, or twice after a lost connection; a merged INSERT reads back as
      its sources; chunks do not matter, progress is throttled without a loss; and
      the gaps: names merged by lower case, writes that are replayed, tags across
      chunks, errors that only look like lost connections.
    - Transactions: a manual transaction is ended exactly once whatever handlers
      run, they never block each other for ever, and what an execution sends; a
      list of statements is committed as a whole or not at all, and the report of
      a deployment is true of the database; and the gaps: statements sent after
      ROLLBACK, Turso's transactions that are none.
    - Batches: results and progress are those of the statements that were sent,
      in order, up to the first error at which a batch must stop; a write is never
      sent twice; a list of statements counts what it did before an error; and the
      gap: a script that goes on after its transaction was lost.
    - Agent: every statement of an agent that writes to a production database was
      shown to the user and confirmed; every request to the model is well formed
      (each tool result answers a call of the message before it); the calls of a
      run are bounded and every run ends with one of the listed events; what the
      compaction keeps; and the gaps: lost text, reusable confirmations.
    - Data comparison: the differences are exact, the generated statements make
      the target equal to the source, paging fetches every row; and when a
      sampled comparison deletes what it did not look at.
    - Data grid: every statement of a save, of its undoing and of a synchronisation
      is read as one statement whatever cells and names hold; names and text cells
      read back as they were; a row is found by its whole key; MySQL's batches hold
      what the rows change, in order and within their limits; a filter for values
      keeps the rows it names; and the gaps: names that look quoted, backslashes
      that are doubled, dates that are copied, slices that panic, rows that cannot
      be undone.
    - Geometries and text: decoding inverts encoding, decoded values are typed,
      nesting is bounded by the bytes; CSV and TSV read back as written.
    - Pages of a table: the text of a page reads in one way only and shows its slice of
      the rows; an export holds every row once, and the databases for which it
      never ends.
    - Statements and pages of a query: the ranges of a script hold its text at their
      offsets and do not overlap, the statement at a cursor is a piece of the script;
      a page is the statement and a clause that is read as SQL and selects the rows
      asked for; and the gaps: clauses in comments, aliases that collide, slices that
      panic.
    - Registries: a held query can always be cancelled and nothing else is; every
      MCP session is accounted for and the cap holds; no background task is lost,
      a shutdown is final, a panic blocks a one-shot key; a batch returns one item
      per connection whatever the schedule, and no schedule is stuck.
    - Configuration and schema: the winning layer, the tag guard's verdict, the
      trace ring, expressions as a relation; reconciliation, drift and rebase
      against their fingerprints, and the changes they cannot see.
    - D1: splitting loses no text, batches partition and are greedy. List
      indices: what is accepted and with which value.

    ** Fuel and bounds

    Every loop that is not structural takes its fuel from the length of what it
    reads (one character or item per turn), and the theorems about it show that
    this is enough or do not depend on it. The agent loop and its tools are
    inductive programs, so every run of them ends; the polls of several tools
    run together take two turns per call. Handlers of transactions run in any
    interleaving of their calls, with any number of them. A panic (a slice off a
    character boundary) is [None] in the
    grid, in the ranges of statements and in the rewriting of queries. [usize] and [u64] values that can grow
    are kept at 64 bits where they are added, [u32] estimates at 32 and their
    [f32] intermediate values in binary32; list lengths are [nat].

    ** What is a parameter

    Clocks, uuids, SHA-256, the environment, serde's encoding and serde_json's
    printer and parser ([JsonText], [JsonPrinter]), the redis client, Unicode
    case tables, sqlparser's tokenizer, the regex engine, [f64::to_string], chrono
    ([Chrono]), serde_json's numbers ([JsonNumbers]), percent-encoding
    ([PercentDecoder]), the SQL writers of a comparison ([SqlWriter], whose instance
    is in GridSync), the texts of the tools ([ToolText]), sqlparser's parser and syntax tree ([SqlParser], [QueryParser]),
    Unicode's letters and digits ([UnicodeAlphanumeric]), the executor
    of queries, databases ([Database], with the laws of INSERT [InsertLaws];
    [SqlServerModel], which tells transaction control from other statements, with
    [DdlLaw] where DDL takes part in transactions) and connection pools, the
    registry of dialects with its plugins, and the bodies of tasks, participants and batch workers. Each
    comes with the documented behaviour a theorem needs, and each such theorem
    has a concrete witness. What a model, a user or a database answers to an
    agent is not a parameter: the theorems hold for every answer.

    ** What is not modelled

    Network, file and process input and output: drivers, transfers, the import
    of tables, the decoding of SQL files, AI providers and the agents that run as
    external commands, cloud synchronisation, plugins, the web and desktop front
    ends, and the parts of storage.rs, query.rs and sql.rs beyond those named
    above. do_execute and the drivers below it are calls of StatementRun and
    Transactions. Code that is pure and has no model here: the differ of
    schema_diff.rs and the metadata of schema.rs, SQL Server's statement
    at a cursor (sql.rs), parameter binding (dml_binding.rs), osc_probe.rs, correction.rs, masking and
    encrypted payloads (state_persistence.rs), the rest of risk_metrics.rs
    and the editors of table
    structures. *)
From stdpp Require Export base tactics numbers list option gmap strings pretty.
From Stdlib Require Export Ascii String Lia ZArith Sorted.
Open Scope string_scope.
Open Scope list_scope.
Open Scope nat_scope.
#[global] Arguments String.append : simpl nomatch.

Declare Scope dbx_scope.
Delimit Scope dbx_scope with dbx.
Open Scope dbx_scope.

(** ** Results and the effect monad *)

(** Rust's [Result<A, E>]. *)
Inductive result (A E : Type) : Type :=
| Ok (a : A)
| Err (e : E).
Arguments Ok {A E} _.
Arguments Err {A E} _.

#[export] Instance result_eq_dec {A E} `{!EqDecision A, !EqDecision E} : EqDecision (result A E).
Proof. solve_decision. Defined.

Definition is_ok {A E} (r : result A E) : bool := match r with Ok _ => true | Err _ => false end.

Definition result_ok {A E} (r : result A E) : option A := match r with Ok a => Some a | Err _ => None end.

Definition result_bind {A B E} (r : result A E) (f : A → result B E) : result B E :=
  match r with Ok a => f a | Err e => Err e end.

(** An asynchronous fallible method over a world [S]: the effects performed
    before an error stay performed, as with [?] in an [async fn]. *)
Definition M (S A : Type) : Type := S → result A string * S.

Definition m_ret {S A} (a : A) : M S A := λ s, (Ok a, s).
Definition m_err {S A} (e : string) : M S A := λ s, (Err e, s).
Definition m_bind {S A B} (m : M S A) (f : A → M S B) : M S B :=
  λ s, match m s with
       | (Ok a, s') => f a s'
       | (Err e, s') => (Err e, s')
       end.
(** A [Result] already computed, propagated with [?]. *)
Definition m_lift {S A} (r : result A string) : M S A := λ s, (r, s).
(** [match m.await { Ok(..) => .., Err(..) => .. }]: the error is a value. *)
Definition m_try {S A} (m : M S A) : M S (result A string) :=
  λ s, let '(r, s') := m s in (Ok r, s').
(** A read of the world that changes nothing. *)
Definition m_get {S A} (f : S → A) : M S A := λ s, (Ok (f s), s).

#[export] Instance M_ret {S} : MRet (M S) := @m_ret S.
#[export] Instance M_bind {S} : MBind (M S) := λ A B f m, m_bind m f.

Lemma m_bind_ok {S A B} (m : M S A) (f : A → M S B) s a s' :
  m s = (Ok a, s') → m_bind m f s = f a s'.
Proof. unfold m_bind. by intros ->. Qed.

Lemma m_bind_err {S A B} (m : M S A) (f : A → M S B) s e s' :
  m s = (Err e, s') → m_bind m f s = (Err e, s').
Proof. unfold m_bind. by intros ->. Qed.

(** Inversion of a sequence that returned [Ok]. *)
Lemma m_bind_inv_ok {S A B} (m : M S A) (f : A → M S B) s b s'' :
  m_bind m f s = (Ok b, s'') → ∃ a s', m s = (Ok a, s') ∧ f a s' = (Ok b, s'').
Proof. unfold m_bind. destruct (m s) as [[a|e] s'] eqn:E; naive_solver. Qed.

(** ** Machine integers *)

Definition u64_max : Z := 18446744073709551615.
(** [a + b] on [u64] in a release build (two's complement wrap-around). *)
Definition u64_add (a b : Z) : Z := (a + b) `mod` 2 ^ 64.
Definition is_u64 (n : Z) : Prop := (0 ≤ n < 2 ^ 64)%Z.

(** [a + b], [a * b] on [u32], and the subtraction that stops at 0. *)
Definition u32_add (a b : Z) : Z := (a + b) `mod` 2 ^ 32.
Definition u32_mul (a b : Z) : Z := (a * b) `mod` 2 ^ 32.
Definition saturating_sub (a b : Z) : Z := Z.max 0 (a - b).

Lemma u64_add_small a b : (0 ≤ a + b < 2 ^ 64)%Z → u64_add a b = (a + b)%Z.
Proof. intros H. unfold u64_add. by apply Z.mod_small. Qed.

(** ** [slice::sort_by_key]: a stable sort *)

Section sort_by_key.
Context {A : Type} (key : A → Z).

Fixpoint sort_insert (x : A) (l : list A) : list A :=
  match l with
  | [] => [x]
  | y :: l' => if (key x <=? key y)%Z then x :: y :: l' else y :: sort_insert x l'
  end.

Definition sort_by_key (l : list A) : list A := foldr sort_insert [] l.

Lemma sort_insert_Permutation x l : sort_insert x l ≡ₚ x :: l.
Proof.
  induction l as [|y l IH]; simpl; [done|]. case_match; [done|]. rewrite IH. apply Permutation_swap.
Qed.

Lemma sort_by_key_Permutation l : sort_by_key l ≡ₚ l.
Proof. induction l as [|x l IH]; simpl; [done|]. by rewrite sort_insert_Permutation, IH. Qed.

(** Elements of equal keys stay in the order [before] they came in. *)
Context (before : relation A).

Definition key_then (x y : A) : Prop := (key x < key y)%Z ∨ key x = key y ∧ before x y.

Lemma sort_insert_stable x l :
  Forall (before x) l → StronglySorted key_then l → StronglySorted key_then (sort_insert x l).
Proof.
  intros Hx. induction 1 as [|y l Hs IH Hy]; simpl; [by repeat constructor|].
  apply Forall_cons in Hx as [Hxy Hxl]. destruct (Z.leb_spec (key x) (key y)) as [Hle|Hlt].
  - constructor; [by constructor|]. constructor.
    + unfold key_then. destruct (decide (key x = key y)); [by right|left; lia].
    + apply Forall_forall. intros z Hz. rewrite Forall_forall in Hy, Hxl.
      pose proof (Hy z Hz) as [?|[? _]]; unfold key_then;
        destruct (decide (key x = key z)); [by right; auto|left; lia|by right; auto|left; lia].
  - constructor; [by apply IH|]. rewrite sort_insert_Permutation. constructor; [left; lia|done].
Qed.

Lemma sort_by_key_stable l : StronglySorted before l → StronglySorted key_then (sort_by_key l).
Proof.
  induction 1 as [|x l Hs IH Hx]; simpl; [constructor|]. apply sort_insert_stable; [|done].
  by rewrite sort_by_key_Permutation.
Qed.
End sort_by_key.

Lemma sort_by_key_fmap {A B} (key : B → Z) (f : A → B) l :
  f <$> sort_by_key (key ∘ f) l = sort_by_key key (f <$> l).
Proof.
  induction l as [|x l IH]; [done|]. rewrite fmap_cons. unfold sort_by_key in *. cbn [foldr]. rewrite <-IH.
  generalize (foldr (sort_insert (key ∘ f)) [] l). intros k.
  induction k as [|y k IHk]; [done|]. rewrite fmap_cons. cbn [sort_insert]. rewrite <-IHk.
  unfold compose. by destruct (key (f x) <=? key (f y))%Z.
Qed.

(** ** Lists *)

Lemma StronglySorted_filter {A} (R : relation A) (P : A → bool) l :
  StronglySorted R l → StronglySorted R (List.filter P l).
Proof.
  induction 1 as [|x l Hs IH Hx]; simpl; [constructor|]. destruct (P x); [|done]. constructor; [done|].
  apply Forall_forall. intros y [Hy _]%list_elem_of_In%filter_In. rewrite Forall_forall in Hx.
  apply Hx. by apply list_elem_of_In.
Qed.

Lemma filter_fmap {A B} (P : B → bool) (f : A → B) l : List.filter P (f <$> l) = f <$> List.filter (P ∘ f) l.
Proof.
  induction l as [|x l IH]; [done|]. rewrite fmap_cons. cbn [List.filter]. unfold compose at 1. rewrite IH.
  by destruct (P (f x)).
Qed.

Lemma StronglySorted_imap {A} (l : list A) k :
  StronglySorted (λ x y : nat * A, x.1 < y.1) (imap (λ i x, (k + i, x)) l).
Proof.
  revert k. induction l as [|x l IH]; intros k; simpl; [constructor|]. constructor.
  - specialize (IH (S k)). erewrite imap_ext; [exact IH|]. intros i y _. simpl. f_equal. lia.
  - apply Forall_forall. intros [i y] (j & z & [= -> ->] & _)%elem_of_lookup_imap. simpl. lia.
Qed.

(** ** Slices of a list *)

(** [chunks(n)]: slices of [n] items, the last one may be shorter. *)
Fixpoint chunks_fuel {A} (fuel n : nat) (l : list A) : list (list A) :=
  match fuel, l with
  | S fuel', _ :: _ => take n l :: chunks_fuel fuel' n (drop n l)
  | _, _ => []
  end.
Definition chunks {A} (n : nat) (l : list A) : list (list A) := chunks_fuel (List.length l) n l.

Lemma chunks_concat {A} n (l : list A) : 0 < n → List.concat (chunks n l) = l.
Proof.
  intros Hn. unfold chunks. assert (List.length l ≤ List.length l) as Hf by done. revert Hf.
  generalize (List.length l) at 2 3 as fuel. intros fuel. revert l. induction fuel as [|fuel IH]; intros l Hl; [by destruct l; [|cbn in Hl; lia]|].
  destruct l as [|x l]; [done|]. cbn [chunks_fuel List.concat]. rewrite IH; [apply take_drop|].
  rewrite length_drop. cbn in *. lia.
Qed.

Lemma elem_of_chunk {A} n (l : list A) ck x : 0 < n → ck ∈ chunks n l → x ∈ ck → x ∈ l.
Proof.
  intros Hn Hck Hin. rewrite <-(chunks_concat n l Hn). apply list_elem_of_In, in_concat.
  exists ck. by rewrite <-!list_elem_of_In.
Qed.

Lemma chunks_nonempty {A} n (l : list A) : 0 < n → Forall (λ c, c ≠ []) (chunks n l).
Proof.
  intros Hn. unfold chunks. generalize (List.length l) at 1 as fuel. intros fuel. revert l.
  induction fuel as [|fuel IH]; intros l; [constructor|]. destruct l as [|x l]; [constructor|].
  cbn [chunks_fuel]. constructor; [|apply IH]. destruct n; [lia|done].
Qed.

Lemma chunks_width {A} n (l : list A) : Forall (λ c, List.length c ≤ n) (chunks n l).
Proof.
  unfold chunks. generalize (List.length l) at 1 as fuel. intros fuel. revert l.
  induction fuel as [|fuel IH]; intros l; [constructor|]. destruct l as [|x l]; [constructor|].
  cbn [chunks_fuel]. constructor; [|apply IH]. rewrite length_take. lia.
Qed.

(** ** Iteration over a [HashMap] *)

(** A [HashMap] is visited in an order the program does not control. *)
Class HashIter : Type := {
  hm_iter : ∀ {A}, gmap string A → list (string * A);
  hm_iter_perm : ∀ {A} (m : gmap string A), hm_iter m ≡ₚ map_to_list m
}.

Lemma hm_iter_elem `{HashIter} {A} (m : gmap string A) k v : (k, v) ∈ hm_iter m ↔ m !! k = Some v.
Proof. rewrite hm_iter_perm. apply elem_of_map_to_list. Qed.

(** One possible order. *)
Definition key_order : HashIter := {| hm_iter A m := map_to_list m; hm_iter_perm A m := Permutation_refl _ |}.
