(* ===== verification/RustStr.v ===== *)
(** * Rust's [str] and [String]

    A Rust string is its UTF-8 encoding: a Rocq [string], one [ascii] per byte.
    [len] is the byte length, as in Rust; [chars] decodes to Unicode scalar
    values (as [N]) and [from_chars] encodes them.  The functions below are the
    [std] methods the program calls, by the name they have there. *)
From S2P Require Import Prelude.

(** A Unicode scalar value. *)
Abbreviation char := N (only parsing).

Definition bytes_of (s : string) : list ascii := String.list_ascii_of_string s.
Definition string_of (l : list ascii) : string := String.string_of_list_ascii l.

Definition is_empty (s : string) : bool := match s with EmptyString => true | _ => false end.
Definition len (s : string) : nat := String.length s.

(** ** ASCII classification of a byte or a scalar value *)

Definition is_ascii_digit (c : N) : bool := (48 <=? c)%N && (c <=? 57)%N.
Definition is_ascii_lowercase (c : N) : bool := (97 <=? c)%N && (c <=? 122)%N.
Definition is_ascii_uppercase (c : N) : bool := (65 <=? c)%N && (c <=? 90)%N.
Definition is_ascii_alphabetic (c : N) : bool := is_ascii_lowercase c || is_ascii_uppercase c.
Definition is_ascii_alphanumeric (c : N) : bool := is_ascii_alphabetic c || is_ascii_digit c.
Definition is_ascii_whitespace (c : N) : bool :=
  bool_decide (c = 32 ∨ c = 9 ∨ c = 10 ∨ c = 12 ∨ c = 13)%N.
Definition to_ascii_lowercase_c (c : N) : N := if is_ascii_uppercase c then (c + 32)%N else c.
Definition to_ascii_uppercase_c (c : N) : N := if is_ascii_lowercase c then (c - 32)%N else c.

(** Unicode's [White_Space] property ([char::is_whitespace]). *)
Definition is_whitespace (c : N) : bool :=
  ((9 <=? c) && (c <=? 13) || (c =? 32) || (c =? 133) || (c =? 160) || (c =? 5760)
   || (8192 <=? c) && (c <=? 8202) || (c =? 8232) || (c =? 8233) || (c =? 8239)
   || (c =? 8287) || (c =? 12288))%N.

(** The scalar value of an ASCII literal: [ch "-"]. *)
Definition ch (a : ascii) : N := N_of_ascii a.

Fixpoint string_map (f : ascii → ascii) (s : string) : string :=
  match s with EmptyString => EmptyString | String a s' => String (f a) (string_map f s') end.

Definition lower_byte (a : ascii) : ascii := ascii_of_N (to_ascii_lowercase_c (N_of_ascii a)).
Definition upper_byte (a : ascii) : ascii := ascii_of_N (to_ascii_uppercase_c (N_of_ascii a)).
Definition to_ascii_lowercase (s : string) : string := string_map lower_byte s.
Definition to_ascii_uppercase (s : string) : string := string_map upper_byte s.
Definition eq_ignore_ascii_case (s t : string) : bool :=
  String.eqb (to_ascii_lowercase s) (to_ascii_lowercase t).

(** ** UTF-8 *)

(** The scalar values of a string. On the (impossible) malformed byte the
    decoder yields that byte. *)
Fixpoint chars (s : string) : list N :=
  match s with
  | EmptyString => []
  | String a s1 =>
      let b0 := N_of_ascii a in
      if (b0 <? 192)%N then b0 :: chars s1
      else match s1 with
           | EmptyString => [b0]
           | String b s2 =>
               let b1 := (N_of_ascii b - 128)%N in
               if (b0 <? 224)%N then ((b0 - 192) * 64 + b1)%N :: chars s2
               else match s2 with
                    | EmptyString => [b0]
                    | String c s3 =>
                        let b2 := (N_of_ascii c - 128)%N in
                        if (b0 <? 240)%N
                        then ((b0 - 224) * 4096 + b1 * 64 + b2)%N :: chars s3
                        else match s3 with
                             | EmptyString => [b0]
                             | String d s4 =>
                                 let b3 := (N_of_ascii d - 128)%N in
                                 ((b0 - 240) * 262144 + b1 * 4096 + b2 * 64 + b3)%N :: chars s4
                             end
                    end
           end
  end.

(** [char::len_utf8]. *)
Definition len_utf8 (c : N) : nat :=
  if (c <? 128)%N then 1 else if (c <? 2048)%N then 2 else if (c <? 65536)%N then 3 else 4.

Definition encode_utf8 (c : N) : string :=
  let byte (n : N) (s : string) := String (ascii_of_N n) s in
  if (c <? 128)%N then byte c ""
  else if (c <? 2048)%N then byte (192 + c / 64)%N (byte (128 + c mod 64)%N "")
  else if (c <? 65536)%N
  then byte (224 + c / 4096)%N (byte (128 + (c / 64) mod 64)%N (byte (128 + c mod 64)%N ""))
  else byte (240 + c / 262144)%N (byte (128 + (c / 4096) mod 64)%N
         (byte (128 + (c / 64) mod 64)%N (byte (128 + c mod 64)%N ""))).

Definition from_chars (l : list N) : string := String.concat "" (encode_utf8 <$> l).

(** ** Searching and slicing *)

Fixpoint strip_prefix (s p : string) : option string :=
  match p, s with
  | EmptyString, _ => Some s
  | String a p', String b s' => if Ascii.eqb a b then strip_prefix s' p' else None
  | String _ _, EmptyString => None
  end.

Definition starts_with (s p : string) : bool := bool_decide (is_Some (strip_prefix s p)).

(** [s[i..]] and [s[..i]]; Rust panics past the end or inside a character. *)
Definition skip_bytes (i : nat) (s : string) : string := String.substring i (len s - i) s.
Definition take_bytes (i : nat) (s : string) : string := String.substring 0 i s.

Definition ends_with (s p : string) : bool :=
  (len p <=? len s) && String.eqb (skip_bytes (len s - len p) s) p.

Fixpoint contains (s p : string) : bool :=
  starts_with s p || match s with EmptyString => false | String _ s' => contains s' p end.

(** A byte offset is a character boundary when it is an end of the string or
    the byte there is not a UTF-8 continuation byte. *)
Definition is_char_boundary (s : string) (i : nat) : bool :=
  (i =? len s) ||
  match String.get i s with
  | Some a => let b := N_of_ascii a in negb ((128 <=? b)%N && (b <? 192)%N)
  | None => false
  end.

(** [s[..i]]: [None] is the panic. *)
Definition slice_to (s : string) (i : nat) : option string :=
  if is_char_boundary s i then Some (take_bytes i s) else None.

(** [s.split(c)] for an ASCII separator. *)
Fixpoint split_char (c : ascii) (s : string) : list string :=
  match s with
  | EmptyString => [""]
  | String a s' =>
      if Ascii.eqb a c then "" :: split_char c s'
      else match split_char c s' with
           | [] => [String a ""]
           | w :: ws => String a w :: ws
           end
  end.

Definition join (sep : string) (l : list string) : string := String.concat sep l.

(** [s.replace(from, to)] for a non-empty [from]: leftmost, non-overlapping.
    The fuel is the length of the string, one unit per byte examined. *)
Fixpoint replace_fuel (fuel : nat) (from to s : string) : string :=
  match fuel with
  | 0 => s
  | S fuel' =>
      match s with
      | EmptyString => EmptyString
      | String a s' =>
          match strip_prefix s from with
          | Some rest => (to +:+ replace_fuel fuel' from to rest)%string
          | None => String a (replace_fuel fuel' from to s')
          end
      end
  end.
Definition replace (s from to : string) : string := replace_fuel (len s) from to s.

(** ** Trimming *)

Fixpoint drop_while {A} (f : A → bool) (l : list A) : list A :=
  match l with
  | [] => []
  | a :: l' => if f a then drop_while f l' else l
  end.

Definition trim_start_matches_c (f : N → bool) (l : list N) : list N := drop_while f l.
Definition trim_end_matches_c (f : N → bool) (l : list N) : list N := rev (drop_while f (rev l)).
Definition trim_c (l : list N) : list N :=
  trim_end_matches_c is_whitespace (trim_start_matches_c is_whitespace l).

Definition trim (s : string) : string := from_chars (trim_c (chars s)).
Definition trim_start (s : string) : string :=
  from_chars (trim_start_matches_c is_whitespace (chars s)).
Definition trim_end (s : string) : string :=
  from_chars (trim_end_matches_c is_whitespace (chars s)).

(** [s.split_whitespace()]: the maximal runs of non-whitespace characters. *)
Fixpoint split_whitespace_c (l : list N) (word : list N) : list (list N) :=
  match l with
  | [] => match word with [] => [] | _ => [rev word] end
  | c :: l' =>
      if is_whitespace c
      then match word with [] => split_whitespace_c l' [] | _ => rev word :: split_whitespace_c l' [] end
      else split_whitespace_c l' (c :: word)
  end.
Definition split_whitespace (s : string) : list string :=
  from_chars <$> split_whitespace_c (chars s) [].

(** A double quote, the byte 34, which a literal here cannot hold. *)
Definition dquote : string := String (ascii_of_nat 34) "".
Definition newline : string := String (ascii_of_nat 10) "".

Definition carriage_return : string := String (ascii_of_nat 13) "".

(** [s.lines()]: a line ends in LF or CRLF, and the last one may lack it. *)
Definition strip_cr (s : string) : string :=
  if ends_with s carriage_return then take_bytes (len s - 1) s else s.
Fixpoint lines_of (parts : list string) : list string :=
  match parts with
  | [] => []
  | [last] => if is_empty last then [] else [last]
  | line :: parts' => strip_cr line :: lines_of parts'
  end.
Definition lines (s : string) : list string := lines_of (split_char (ascii_of_nat 10) s).

(** [Vec<String>::sort]: by bytes. *)
Fixpoint insert_string (x : string) (l : list string) : list string :=
  match l with
  | [] => [x]
  | y :: l' => if String.leb x y then x :: l else y :: insert_string x l'
  end.
Definition sort_strings (l : list string) : list string := foldr insert_string [] l.

(** ** Lemmas *)

Lemma ascii_eqb_refl a : Ascii.eqb a a = true.
Proof. apply Ascii.eqb_refl. Qed.

Lemma strip_prefix_app p s : strip_prefix (p +:+ s)%string p = Some s.
Proof. induction p as [|a p IH]; simpl; [by destruct s|]. by rewrite ascii_eqb_refl. Qed.

Lemma strip_prefix_Some s p r : strip_prefix s p = Some r → s = (p +:+ r)%string.
Proof.
  revert s. induction p as [|a p IH]; intros [|b s]; simpl; intros H; simplify_eq; try done.
  destruct (Ascii.eqb a b) eqn:E; [|done]. apply Ascii.eqb_eq in E as ->. simpl. f_equal. by apply IH.
Qed.

Lemma starts_with_iff s p : starts_with s p = true ↔ ∃ r, s = (p +:+ r)%string.
Proof.
  unfold starts_with. rewrite bool_decide_eq_true. split.
  - intros [r Hr]. exists r. by apply strip_prefix_Some.
  - intros [r ->]. rewrite strip_prefix_app. eauto.
Qed.

Lemma string_app_nil_r (s : string) : (s +:+ "")%string = s.
Proof. induction s; simpl; congruence. Qed.

Lemma string_app_nil_l (s : string) : ("" +:+ s)%string = s.
Proof. done. Qed.

Lemma string_app_assoc (a b c : string) : (a +:+ (b +:+ c) = (a +:+ b) +:+ c)%string.
Proof. induction a; simpl; congruence. Qed.

Lemma string_app_length (a b : string) : len (a +:+ b)%string = len a + len b.
Proof. unfold len. induction a; simpl; congruence. Qed.

Lemma string_app_inv_head (p a b : string) : (p +:+ a)%string = (p +:+ b)%string → a = b.
Proof. induction p; simpl; [done|]. intros [= H]. auto. Qed.

Create Rewrite HintDb rust_str.
#[export] Hint Rewrite string_app_nil_r string_app_length strip_prefix_app : rust_str.

Lemma substring_skip p n s : String.substring (len p) n (p +:+ s)%string = String.substring 0 n s.
Proof. induction p as [|a p IH]; [done|]. exact IH. Qed.

Lemma substring_take r s : String.substring 0 (len r) (r +:+ s)%string = r.
Proof. induction r as [|a r IH]; [by destruct s|]. cbn. f_equal. exact IH. Qed.

Lemma skip_bytes_app p s : skip_bytes (len p) (p +:+ s)%string = s.
Proof.
  unfold skip_bytes. rewrite substring_skip, string_app_length.
  replace (len p + len s - len p) with (len s) by lia. pose proof (substring_take s "") as H.
  by rewrite string_app_nil_r in H.
Qed.

Lemma take_skip_bytes i s : i ≤ len s → (take_bytes i s +:+ skip_bytes i s)%string = s.
Proof.
  revert s. induction i as [|i IH]; intros s Hi.
  - unfold take_bytes, skip_bytes. rewrite Nat.sub_0_r. pose proof (substring_take s "") as H.
    rewrite string_app_nil_r in H. by destruct s.
  - destruct s as [|a s]; [simpl in Hi; lia|]. unfold take_bytes, skip_bytes, len in *. cbn in *. f_equal. apply IH. simpl in Hi. lia.
Qed.

Lemma take_bytes_len i s : i ≤ len s → len (take_bytes i s) = i.
Proof.
  unfold take_bytes. revert s. induction i as [|i IH]; intros s Hi; [by destruct s|].
  destruct s as [|a s]; simpl in *; [lia|]. f_equal. apply IH. lia.
Qed.

Lemma ends_with_iff s p : ends_with s p = true ↔ ∃ r, s = (r +:+ p)%string.
Proof.
  unfold ends_with. rewrite andb_true_iff, Nat.leb_le. split.
  - intros [Hle H%String.eqb_eq]. exists (take_bytes (len s - len p) s). rewrite <-H at 2.
    symmetry. apply take_skip_bytes. lia.
  - intros [r ->]. rewrite string_app_length. split; [lia|]. apply String.eqb_eq.
    replace (len r + len p - len p) with (len r) by lia. apply skip_bytes_app.
Qed.

Lemma insert_string_Permutation x l : insert_string x l ≡ₚ x :: l.
Proof.
  induction l as [|y l IH]; simpl; [done|]. destruct (String.leb x y); [done|]. rewrite IH. apply Permutation_swap.
Qed.

Lemma sort_strings_Permutation l : sort_strings l ≡ₚ l.
Proof. induction l as [|x l IH]; simpl; [done|]. by rewrite insert_string_Permutation, IH. Qed.

(** ** Well-formed UTF-8 *)

(** Every Rust string is the encoding of scalar values. *)
Definition utf8 (s : string) : bool :=
  String.eqb (from_chars (chars s)) s && forallb (λ x, x <? 1114112)%N (chars s).

Lemma chars_encode_utf8 x s : (x < 1114112)%N → chars (encode_utf8 x +:+ s) = x :: chars s.
Proof.
  intros Hx. unfold encode_utf8.
  destruct (N.ltb_spec x 128); [|destruct (N.ltb_spec x 2048); [|destruct (N.ltb_spec x 65536)]];
    cbn -[N.add N.div N.modulo N.mul N.sub N.ltb N_of_ascii ascii_of_N].
  all: rewrite !N_ascii_embedding by (zify; Z.to_euclidean_division_equations; lia).
  all: repeat match goal with
       | |- context [(?a <? ?b)%N] => destruct (N.ltb_spec a b); [|try (exfalso; zify; Z.to_euclidean_division_equations; lia)]
       end.
  all: first [reflexivity | f_equal; zify; Z.to_euclidean_division_equations; lia
             | exfalso; zify; Z.to_euclidean_division_equations; lia].
Qed.

Lemma from_chars_cons x l : from_chars (x :: l) = (encode_utf8 x +:+ from_chars l)%string.
Proof. unfold from_chars. destruct l; simpl; [by rewrite string_app_nil_r|done]. Qed.

Lemma from_chars_app a b : from_chars (a ++ b) = (from_chars a +:+ from_chars b)%string.
Proof.
  induction a as [|x a IH]; [done|]. rewrite <-app_comm_cons, !from_chars_cons, IH. apply string_app_assoc.
Qed.

Lemma chars_from_chars_app l s :
  Forall (λ x, x < 1114112)%N l → chars (from_chars l +:+ s) = l ++ chars s.
Proof.
  induction 1 as [|x l Hx _ IH]; [done|].
  by rewrite from_chars_cons, <-string_app_assoc, chars_encode_utf8, IH.
Qed.

Lemma chars_from_chars l : Forall (λ x, x < 1114112)%N l → chars (from_chars l) = l.
Proof. intros H. pose proof (chars_from_chars_app l "" H) as E. by rewrite string_app_nil_r, app_nil_r in E. Qed.

Lemma utf8_spec s : utf8 s = true ↔ s = from_chars (chars s) ∧ Forall (λ x, x < 1114112)%N (chars s).
Proof.
  unfold utf8. rewrite andb_true_iff, String.eqb_eq, forallb_forall, Forall_forall.
  setoid_rewrite <-list_elem_of_In. setoid_rewrite N.ltb_lt. naive_solver.
Qed.

Lemma chars_app a b : utf8 a = true → chars (a +:+ b) = chars a ++ chars b.
Proof. intros [Ha Hf]%utf8_spec. rewrite Ha at 1. by apply chars_from_chars_app. Qed.

Lemma utf8_from_chars l : Forall (λ x, x < 1114112)%N l → utf8 (from_chars l) = true.
Proof. intros H. apply utf8_spec. by rewrite chars_from_chars. Qed.

Lemma utf8_app a b : utf8 a = true → utf8 b = true → utf8 (a +:+ b) = true.
Proof.
  intros Ha Hb. pose proof (chars_app a b Ha) as E. apply utf8_spec in Ha as [Ha Ha'], Hb as [Hb Hb'].
  apply utf8_spec. rewrite E, from_chars_app, <-Ha, <-Hb. split; [done|]. by apply Forall_app.
Qed.

(** The digits of [format!("{n}")]. *)
Lemma utf8_pretty (n : nat) : utf8 (pretty n) = true.
Proof.
  assert (∀ x s, utf8 s = true → utf8 (pretty_N_go x s) = true) as Hgo.
  { intros x. induction (N.lt_wf_0 x) as [x _ IH]. intros s Hs. destruct (decide (x = 0)%N) as [->|].
    - by rewrite pretty_N_go_0.
    - rewrite pretty_N_go_step by lia. apply IH; [apply N.div_lt; lia|].
      apply (utf8_app (String _ "") s); [|done]. unfold pretty_N_char. by repeat case_match. }
  unfold pretty, pretty_nat, pretty, pretty_N. case_decide; [done|]. by apply Hgo.
Qed.
