(* ===== verification/Json.v ===== *)
(** * [serde_json::Value] as the program uses it

    [dbx-core] enables serde_json's [arbitrary_precision] and [preserve_order]:
    a number is kept as its token and an object is an insertion-ordered map.
    [Codec] is serde's derived (de)serialisation of a type to JSON bytes; the
    third-party encoder is a parameter and [CodecOk] its documented round trip. *)
From S2P Require Import Prelude.

Abbreviation bytes := (list Byte.byte) (only parsing).

#[export] Instance byte_eq_dec : EqDecision Byte.byte := Byte.byte_eq_dec.

(** ** Values *)

Inductive Value : Type :=
| Null
| Bool (b : bool)
| Number (token : string)
| VString (s : string)
| Array (items : list Value)
| Object (fields : list (string * Value)).

(** [Map::get]. *)
Fixpoint obj_get (m : list (string * Value)) (k : string) : option Value :=
  match m with
  | [] => None
  | (k', v) :: m' => if String.eqb k' k then Some v else obj_get m' k
  end.

(** [Map::insert]: an existing key keeps its position, a new one goes last. *)
Fixpoint obj_insert (m : list (string * Value)) (k : string) (v : Value) : list (string * Value) :=
  match m with
  | [] => [(k, v)]
  | (k', v') :: m' => if String.eqb k' k then (k', v) :: m' else (k', v') :: obj_insert m' k v
  end.

Definition as_str (v : Value) : option string := match v with VString s => Some s | _ => None end.

(** Objects of a document have distinct keys, at every depth. *)
Fixpoint wf_value (v : Value) : Prop :=
  match v with
  | Array l => foldr (λ x P, wf_value x ∧ P) True l
  | Object m => NoDup m.*1 ∧ foldr (λ kv P, wf_value kv.2 ∧ P) True m
  | _ => True
  end.

(** ** Induction with the nested lists *)

Section value_ind.
Variable P : Value → Prop.
Hypothesis HNull : P Null.
Hypothesis HBool : ∀ b, P (Bool b).
Hypothesis HNumber : ∀ t, P (Number t).
Hypothesis HString : ∀ s, P (VString s).
Hypothesis HArray : ∀ l, Forall P l → P (Array l).
Hypothesis HObject : ∀ m, Forall (λ kv, P kv.2) m → P (Object m).

Fixpoint value_ind' (v : Value) : P v :=
  match v with
  | Null => HNull
  | Bool b => HBool b
  | Number t => HNumber t
  | VString s => HString s
  | Array l =>
      HArray l ((fix go l : Forall P l :=
        match l with [] => Forall_nil_2 _ | x :: l' => Forall_cons_2 _ _ _ (value_ind' x) (go l') end) l)
  | Object m =>
      HObject m ((fix go m : Forall (λ kv, P kv.2) m :=
        match m with
        | [] => Forall_nil_2 _
        | kv :: m' => Forall_cons_2 (λ kv, P kv.2) _ _ (value_ind' kv.2) (go m')
        end) m)
  end.
End value_ind.

(** ** Decidable equality and countability, through stdpp's generic trees *)

Fixpoint to_tree (v : Value) : gen_tree (bool + string) :=
  match v with
  | Null => GenNode 0 []
  | Bool b => GenNode 1 [GenLeaf (inl b)]
  | Number t => GenNode 2 [GenLeaf (inr t)]
  | VString s => GenNode 3 [GenLeaf (inr s)]
  | Array l => GenNode 4 (to_tree <$> l)
  | Object m => GenNode 5 ((λ kv, GenNode 6 [GenLeaf (inr kv.1); to_tree kv.2]) <$> m)
  end.

Fixpoint of_tree (t : gen_tree (bool + string)) : Value :=
  match t with
  | GenNode 1 [GenLeaf (inl b)] => Bool b
  | GenNode 2 [GenLeaf (inr t)] => Number t
  | GenNode 3 [GenLeaf (inr s)] => VString s
  | GenNode 4 l => Array (of_tree <$> l)
  | GenNode 5 l =>
      Object ((λ t, match t with
                    | GenNode 6 [GenLeaf (inr k); t'] => (k, of_tree t')
                    | _ => ("", Null)
                    end) <$> l)
  | _ => Null
  end.

Lemma of_to_tree v : of_tree (to_tree v) = v.
Proof.
  induction v as [| | | |l IH|m IH] using value_ind'; simpl; try done; f_equal.
  - rewrite <-list_fmap_compose. induction IH; simpl; [done|]. by f_equal.
  - rewrite <-list_fmap_compose. induction IH as [|[k x] m Hx _ IHm]; simpl in *; [done|].
    f_equal; [by rewrite Hx|exact IHm].
Qed.

#[export] Instance to_tree_inj : Inj (=) (=) to_tree.
Proof. intros x y H. by rewrite <-(of_to_tree x), <-(of_to_tree y), H. Qed.

#[export] Instance value_eq_dec : EqDecision Value.
Proof.
  intros x y. destruct (decide (to_tree x = to_tree y)) as [H|H].
  - left. by apply (inj to_tree).
  - right. congruence.
Defined.

#[export] Program Instance value_countable : Countable Value := inj_countable' to_tree of_tree _.
Next Obligation. apply of_to_tree. Qed.

#[export] Instance value_inhabited : Inhabited Value := populate Null.

(** ** Map lemmas *)

Lemma obj_get_insert m k v k' :
  obj_get (obj_insert m k v) k' = if String.eqb k k' then Some v else obj_get m k'.
Proof.
  induction m as [|[k0 v0] m IH]; simpl.
  - done.
  - destruct (String.eqb k0 k) eqn:E; simpl.
    + apply String.eqb_eq in E as ->. by destruct (String.eqb k k').
    + rewrite IH. destruct (String.eqb k0 k') eqn:E'; [|done].
      apply String.eqb_eq in E' as ->. by rewrite String.eqb_sym, E.
Qed.

Lemma obj_insert_keys m k v : (obj_insert m k v).*1 = if decide (k ∈ m.*1) then m.*1 else m.*1 ++ [k].
Proof.
  induction m as [|[k0 v0] m IH]; [done|].
  change (((k0, v0) :: m).*1) with (k0 :: m.*1). simpl obj_insert.
  destruct (String.eqb k0 k) eqn:E; rewrite ?fmap_cons; simpl.
  - apply String.eqb_eq in E as ->. clear IH. case_decide; set_solver.
  - apply String.eqb_neq in E. rewrite IH. repeat case_decide; set_solver.
Qed.

(** ** Serialisation *)

Class Codec (A : Type) : Type := {
  to_vec : A → result bytes string;
  from_slice : bytes → result A string
}.

(** serde_json's documented behaviour on the program's derived types. *)
Class CodecOk (A : Type) `{!Codec A} : Prop := {
  to_vec_total : ∀ a, ∃ b, to_vec a = Ok b;
  from_to_vec : ∀ a b, to_vec a = Ok b → from_slice b = Ok a
}.

(** A concrete codec, for evaluation: the bits of stdpp's [encode]. *)
Fixpoint pos_bytes (p : positive) : bytes :=
  match p with
  | xH => []
  | xO p' => Byte.x00 :: pos_bytes p'
  | xI p' => Byte.x01 :: pos_bytes p'
  end.

Fixpoint bytes_pos (b : bytes) : positive :=
  match b with
  | [] => xH
  | Byte.x00 :: b' => xO (bytes_pos b')
  | _ :: b' => xI (bytes_pos b')
  end.

Definition countable_codec (A : Type) `{Countable A} : Codec A := {|
  to_vec a := Ok (pos_bytes (encode a));
  from_slice b := match decode (bytes_pos b) with Some a => Ok a | None => Err "decode" end
|}.

Lemma bytes_pos_bytes p : bytes_pos (pos_bytes p) = p.
Proof. induction p; simpl; congruence. Qed.

Lemma countable_codec_ok A `{Countable A} : @CodecOk A (countable_codec A).
Proof.
  constructor; simpl.
  - eauto.
  - intros a b [= <-]. by rewrite bytes_pos_bytes, decode_encode.
Qed.
