(* ===== verification/StateStore.v ===== *)
(** * The [state_store] table (storage.rs)

    The rows of the SQLite table behind [LocalBackend] and the five operations
    of [Storage] on it.  A SQL statement is translated by its meaning on the
    rows; [conn_faults] scripts the calls of [with_conn] that fail (a poisoned
    connection, a full disk): such a call changes no row. *)
From S2P Require Import Prelude Json.

(** ** Data *)

Record StateRow := mk_row {
  row_value : bytes;
  row_content_type : string;
  row_version : Z;
  row_payload : bytes
}.

Record Storage := mk_storage {
  state_store : gmap string StateRow;
  conn_faults : list (option string)
}.

(** ** Operations *)

(** [Storage::with_conn]: runs the closure on the connection, or fails. *)
Definition with_conn {A} (f : gmap string StateRow → result A string * gmap string StateRow)
    : M Storage A := λ s,
  match conn_faults s with
  | Some e :: fs => (Err e, mk_storage (state_store s) fs)
  | None :: fs => let '(r, db) := f (state_store s) in (r, mk_storage db fs)
  | [] => let '(r, db) := f (state_store s) in (r, mk_storage db [])
  end.

Definition save_state (key : string) (value : bytes) (content_type : string) : M Storage unit :=
  with_conn (λ db,
    (Ok tt,
     match db !! key with
     | None => <[key := mk_row value content_type 1 []]> db
     | Some row => <[key := mk_row value content_type (row_version row + 1) []]> db
     end)).

Definition load_state (key : string) : M Storage (option (bytes * string)) :=
  with_conn (λ db, (Ok ((λ row, (row_value row, row_content_type row)) <$> db !! key), db)).

Definition delete_state (key : string) : M Storage unit :=
  with_conn (λ db, (Ok tt, delete key db)).

Definition state_exists (key : string) : M Storage bool :=
  with_conn (λ db, (Ok (bool_decide (is_Some (db !! key))), db)).

Definition get_state_version (key : string) : M Storage (option Z) :=
  with_conn (λ db, (Ok (row_version <$> db !! key), db)).

(** [UPDATE state_store SET .., version = version + 1 WHERE key = ?3 AND
    version = ?4]: the number of rows changed and the new table. *)
Definition update_where_version (key : string) (expected : Z) (new_value : bytes)
    (content_type : string) (db : gmap string StateRow) : nat * gmap string StateRow :=
  match db !! key with
  | Some row =>
      if decide (row_version row = expected)
      then (1, <[key := mk_row new_value content_type (row_version row + 1) (row_payload row)]> db)
      else (0, db)
  | None => (0, db)
  end.

Definition compare_and_swap_state (key : string) (expected_version : option Z)
    (new_value : bytes) (content_type : string) : M Storage bool :=
  with_conn (λ db,
    match row_version <$> db !! key, expected_version with
    | None, None => (Ok true, <[key := mk_row new_value content_type 1 []]> db)
    | Some v, Some expected =>
        if decide (v = expected)
        then let '(rows, db') := update_where_version key expected new_value content_type db in
             (Ok (bool_decide (0 < rows)), db')
        else (Ok false, db)
    | _, _ => (Ok false, db)
    end).

(** ** Behaviour of each operation, faults included *)

(** The outcome of [with_conn]: the closure ran, or a fault left the rows alone. *)
Lemma with_conn_spec {A} (f : gmap string StateRow → result A string * gmap string StateRow) s r s' :
  with_conn f s = (r, s') →
  (f (state_store s) = (r, state_store s')) ∨
  (∃ e, r = Err e ∧ state_store s' = state_store s).
Proof.
  unfold with_conn. destruct (conn_faults s) as [|[e|] fs].
  - destruct (f (state_store s)) as [r' db] eqn:E. intros [= <- <-]. by left.
  - intros [= <- <-]. right. eauto.
  - destruct (f (state_store s)) as [r' db] eqn:E. intros [= <- <-]. by left.
Qed.

Lemma with_conn_no_fault {A} (f : gmap string StateRow → result A string * gmap string StateRow) s :
  conn_faults s = [] →
  with_conn f s = ((f (state_store s)).1, mk_storage (f (state_store s)).2 []).
Proof. unfold with_conn. intros ->. by destruct (f (state_store s)). Qed.

Lemma compare_and_swap_state_spec key expected new ct s r s' :
  compare_and_swap_state key expected new ct s = (r, s') →
  match r with
  | Ok true =>
      row_version <$> state_store s !! key = expected ∧
      ∃ row, state_store s' = <[key := row]> (state_store s) ∧ row_value row = new ∧
             row_version row = match expected with Some v => (v + 1)%Z | None => 1%Z end
  | Ok false => row_version <$> state_store s !! key ≠ expected ∧ state_store s' = state_store s
  | Err _ => state_store s' = state_store s
  end.
Proof.
  intros [H|(e & -> & H)]%with_conn_spec; [|done]. unfold update_where_version in H.
  destruct (state_store s !! key) as [row|] eqn:E, expected as [v|]; simpl in H |- *;
    repeat case_decide; injection H as <- <-; simpl; try done; try naive_solver.
Qed.
