(* ===== verification/StateBackend.v ===== *)
(** * State backends (state_persistence.rs, section 8.2)

    The trait [StateBackend] is the class [StateBackend]; [BackendSpec] is what
    a backend promises to the state machine and to the two-phase-commit log: a
    view of its contents as a map, updated by [save], [delete] and a successful
    [compare_and_swap], and by nothing else, errors included.  [LocalBackend]
    (over the SQLite table) discharges it; [RedisBackend] is written over a
    redis client given as parameters and keeps the trait's default
    [compare_and_swap]. *)
From S2P Require Import Prelude RustStr Json StateStore.

(** ** The trait *)

Class StateBackend (S : Type) : Type := {
  save : string → bytes → M S unit;
  save_with_content_type : string → bytes → string → M S unit;
  load : string → M S (option bytes);
  delete_key : string → M S unit;
  exists_key : string → M S bool;
  compare_and_swap : string → option bytes → bytes → M S bool
}.

(** The trait's default method. *)
Definition default_compare_and_swap {S} (key : string) (old : option bytes) (new : bytes) : M S bool :=
  m_err "CAS not supported by this backend".

(** What a backend promises. *)
Class BackendSpec (S : Type) `{!StateBackend S} : Type := {
  view : S → gmap string bytes;
  save_spec k v s r s' :
    save k v s = (r, s') → view s' = if is_ok r then <[k := v]> (view s) else view s;
  load_spec k s r s' :
    load k s = (r, s') → view s' = view s ∧ (∀ o, r = Ok o → o = view s !! k);
  delete_spec k s r s' :
    delete_key k s = (r, s') → view s' = if is_ok r then delete k (view s) else view s;
  exists_spec k s r s' :
    exists_key k s = (r, s') → view s' = view s ∧ (∀ b, r = Ok b → b = bool_decide (is_Some (view s !! k)));
  cas_spec k old new s r s' :
    compare_and_swap k old new s = (r, s') →
    view s' = match r with Ok true => <[k := new]> (view s) | _ => view s end
}.

(** States in which the backend answers every save and load. *)
Class Reliable (S : Type) `{BackendSpec S} : Type := {
  up : S → Prop;
  up_save k v s : up s → ∃ s', save k v s = (Ok tt, s') ∧ up s';
  up_load k s : up s → ∃ s', load k s = (Ok (view s !! k), s') ∧ up s'
}.

(** A backend that keeps the default method. *)
Class NoCas (S : Type) `{!StateBackend S} : Prop :=
  no_cas k old new : compare_and_swap k old new = default_compare_and_swap (S := S) k old new.

(** ** [StateEntry] *)

Record StateEntry := mk_entry {
  entry_key : string;
  current_state : string;
  version : Z;
  metadata : Value
}.

#[export] Instance state_entry_eq_dec : EqDecision StateEntry.
Proof. solve_decision. Defined.

#[export] Program Instance state_entry_countable : Countable StateEntry :=
  inj_countable' (λ e, (entry_key e, current_state e, version e, metadata e))
                 (λ '(k, c, v, m), mk_entry k c v m) _.
Next Obligation. by intros []. Qed.

(** ** LocalBackend *)

Section LocalBackend.
Context `{!Codec StateEntry}.

(** [LocalBackend::compare_and_swap]: the version the caller expects is read
    out of the [old] entry it sends. *)
Definition local_compare_and_swap (key : string) (old : option bytes) (new : bytes) : M Storage bool :=
  expected_version ←
    match old with
    | Some data =>
        match from_slice data with
        | Ok entry => m_ret (Some (version entry))
        | Err e => m_err ("CAS deserialize error: " +:+ e)
        end
    | None => m_ret None
    end;
  compare_and_swap_state key expected_version new "application/json".

#[export] Instance LocalBackend : StateBackend Storage := {
  save key value := save_state key value "application/octet-stream";
  save_with_content_type := save_state;
  load key := o ← load_state key; m_ret (fst <$> o);
  delete_key := delete_state;
  exists_key := state_exists;
  compare_and_swap := local_compare_and_swap
}.

Definition local_view (s : Storage) : gmap string bytes := row_value <$> state_store s.

End LocalBackend.

(** ** RedisBackend *)

Section RedisBackend.
Context {S : Type}.
(** The redis client's commands on one multiplexed connection. *)
Variable redis_SET : bytes → bytes → M S unit.
Variable redis_GET : bytes → M S (option bytes).
Variable redis_DEL : bytes → M S unit.
Variable redis_EXISTS : bytes → M S Z.
Variable prefix : string.

Definition as_bytes (s : string) : bytes := Ascii.byte_of_ascii <$> bytes_of s.

Definition prefixed (key : string) : string := prefix +:+ ":" +:+ key.

Definition redis_save (key : string) (value : bytes) : M S unit :=
  redis_SET (as_bytes (prefixed key)) value.

Definition RedisBackend : StateBackend S := {|
  save := redis_save;
  save_with_content_type key value _content_type := redis_save key value;
  load key := redis_GET (as_bytes (prefixed key));
  delete_key key := redis_DEL (as_bytes (prefixed key));
  exists_key key := count ← redis_EXISTS (as_bytes (prefixed key)); m_ret (bool_decide (0 < count)%Z);
  compare_and_swap := default_compare_and_swap
|}.

#[export] Instance RedisBackend_no_cas : @NoCas S RedisBackend.
Proof. done. Qed.
End RedisBackend.

(** ** LocalBackend keeps the promise *)

Section LocalBackendSpec.
Context `{!Codec StateEntry}.

Lemma local_view_lookup s k : local_view s !! k = row_value <$> state_store s !! k.
Proof. apply lookup_fmap. Qed.

Lemma local_cas_spec k old new s r s' :
  local_compare_and_swap k old new s = (r, s') →
  local_view s' = match r with Ok true => <[k := new]> (local_view s) | _ => local_view s end.
Proof.
  unfold local_compare_and_swap, mbind, M_bind, m_bind. intros H.
  assert (Hcas : ∀ ex, compare_and_swap_state k ex new "application/json" s = (r, s') →
    local_view s' = match r with Ok true => <[k := new]> (local_view s) | _ => local_view s end).
  { intros ex Hc%compare_and_swap_state_spec. unfold local_view. destruct r as [[]|e].
    - destruct Hc as (_ & row & -> & <- & _). apply fmap_insert.
    - by destruct Hc as [_ ->].
    - by rewrite Hc. }
  destruct old as [data|]; [|by apply (Hcas None)].
  destruct (from_slice data) as [e|e] eqn:E; [by apply (Hcas (Some (version e)))|].
  by injection H as <- <-.
Qed.

#[export] Program Instance LocalBackendSpec : BackendSpec Storage := { view := local_view }.
Next Obligation.
  intros k v s r s' [H|(e & -> & H)]%with_conn_spec; unfold local_view; [|by rewrite H].
  injection H as <- <-. simpl. by destruct (state_store s !! k); rewrite fmap_insert.
Qed.
Next Obligation.
  intros k s r s' H. simpl in H. unfold mbind, M_bind, m_bind in H.
  destruct (load_state k s) as [r1 s1] eqn:E. unfold local_view.
  apply with_conn_spec in E as [E|(e & -> & E)]; [|simplify_eq; by rewrite E].
  injection E as <- E. injection H as <- <-. rewrite <-E. split; [done|].
  intros o [= <-]. rewrite lookup_fmap. by destruct (state_store s !! k).
Qed.
Next Obligation.
  intros k s r s' [H|(e & -> & H)]%with_conn_spec; unfold local_view; [|by rewrite H].
  injection H as <- <-. simpl. apply fmap_delete.
Qed.
Next Obligation.
  intros k s r s' [H|(e & -> & H)]%with_conn_spec; unfold local_view; [|by rewrite H].
  injection H as <- <-. split; [done|]. intros b [= <-].
  apply bool_decide_ext. by rewrite lookup_fmap, fmap_is_Some.
Qed.
Next Obligation. intros k old new s r s' H. exact (local_cas_spec k old new s r s' H). Qed.

(** The table answers as long as no connection fault is due. *)
#[export] Program Instance LocalBackendReliable : Reliable Storage := { up s := conn_faults s = [] }.
Next Obligation. intros k v [db faults]. simpl. intros ->. eexists. split; reflexivity. Qed.
Next Obligation.
  intros k [db faults]. simpl. intros ->. exists (mk_storage db []). split; [|done].
  unfold mbind, M_bind, m_bind, load_state, with_conn, mbind, M_bind, m_bind. simpl.
  rewrite local_view_lookup. simpl. by destruct (db !! k).
Qed.
End LocalBackendSpec.
