(* ===== verification/StateMachine.v ===== *)
(** * The persisted state machine (state_persistence.rs, section 8.4)

    The states and the transition table, and [StateMachine]'s methods over any
    [StateBackend]: [transition] loads the entry, checks the edge, and commits
    with a compare-and-swap on the entry's version, retrying three times. *)
From S2P Require Import Prelude RustStr Json StateStore StateBackend.
From stdpp Require Import relations.

(** ** States and transitions *)

Inductive StateTransition : Type :=
| Created | Running | Paused | OscSyncing | Completed | Failed | Cancelled
| RollingBack | FullyRolledBack | PartiallyRolledBack | RecoveryRequired.

#[export] Instance state_transition_eq_dec : EqDecision StateTransition.
Proof. solve_decision. Defined.

Definition all_states : list StateTransition :=
  [Created; Running; Paused; OscSyncing; Completed; Failed; Cancelled;
   RollingBack; FullyRolledBack; PartiallyRolledBack; RecoveryRequired].

Definition as_str (t : StateTransition) : string :=
  match t with
  | Created => "created"
  | Running => "running"
  | Paused => "paused"
  | OscSyncing => "osc_syncing"
  | Completed => "completed"
  | Failed => "failed"
  | Cancelled => "cancelled"
  | RollingBack => "rolling_back"
  | FullyRolledBack => "fully_rolled_back"
  | PartiallyRolledBack => "partially_rolled_back"
  | RecoveryRequired => "recovery_required"
  end.

Definition from_str (s : string) : option StateTransition :=
  if String.eqb s "created" then Some Created
  else if String.eqb s "running" then Some Running
  else if String.eqb s "paused" then Some Paused
  else if String.eqb s "osc_syncing" then Some OscSyncing
  else if String.eqb s "completed" then Some Completed
  else if String.eqb s "failed" then Some Failed
  else if String.eqb s "cancelled" then Some Cancelled
  else if String.eqb s "rolling_back" then Some RollingBack
  else if String.eqb s "fully_rolled_back" then Some FullyRolledBack
  else if String.eqb s "partially_rolled_back" then Some PartiallyRolledBack
  else if String.eqb s "recovery_required" then Some RecoveryRequired
  else None.

Definition ALLOWED_TRANSITIONS : list (StateTransition * list StateTransition) :=
  [(Created, [Running; Cancelled]);
   (Running, [Paused; OscSyncing; Completed; Failed]);
   (Paused, [Running; Cancelled]);
   (OscSyncing, [Completed; Failed]);
   (Completed, [RollingBack; FullyRolledBack]);
   (Failed, [Running; Cancelled; RollingBack; RecoveryRequired]);
   (Cancelled, []);
   (RollingBack, [FullyRolledBack; PartiallyRolledBack; RecoveryRequired]);
   (FullyRolledBack, []);
   (PartiallyRolledBack, [RecoveryRequired]);
   (RecoveryRequired, [])].

Definition is_valid_transition (from to : StateTransition) : bool :=
  existsb (λ '(state, allowed), bool_decide (state = from) && bool_decide (to ∈ allowed))
    ALLOWED_TRANSITIONS.

(** ** Methods of [StateMachine] *)

Definition STATE_KEY_PREFIX : string := "state:".
Definition state_key (key : string) : string := STATE_KEY_PREFIX +:+ key.

Section StateMachine.
Context {S : Type} `{!StateBackend S} `{!Codec StateEntry}.

Definition create_state (key : string) (meta : Value) : M S StateEntry :=
  let entry := mk_entry key (as_str Created) 1 meta in
  data ← m_lift (to_vec entry);
  _ ← save (state_key key) data;
  m_ret entry.

(** [StateMachine::compare_and_swap_state]: the [old] value it sends carries
    only the expected version. *)
Definition sm_compare_and_swap_state (key : string) (expected_version : Z) (new_state : StateEntry) : M S bool :=
  let old_entry := mk_entry key "" expected_version Null in
  old_data ← m_lift (to_vec old_entry);
  new_data ← m_lift (to_vec new_state);
  compare_and_swap (state_key key) (Some old_data) new_data.

(** The first half of one attempt of [transition]: load, decode, check the
    edge; the expected version and the entry to write. *)
Definition transition_read (key : string) (to : StateTransition) : M S (Z * StateEntry) :=
  raw ← load (state_key key);
  entry ← match raw with
          | Some data => m_lift (from_slice data)
          | None => m_err ("State not found: " +:+ key)
          end;
  current ← match from_str (current_state entry) with
            | Some c => m_ret c
            | None => m_err ("Invalid current state: " +:+ current_state entry)
            end;
  if is_valid_transition current to
  then m_ret (version entry, mk_entry (entry_key entry) (as_str to) (u64_add (version entry) 1) (metadata entry))
  else m_err ("Invalid transition: " +:+ as_str current +:+ " -> " +:+ as_str to).

Definition max_retries : nat := 3.

(** The loop [for attempt in 0..=max_retries], by the attempts left. *)
Fixpoint transition_loop (attempts : nat) (key : string) (to : StateTransition) : M S StateEntry :=
  match attempts with
  | 0 => m_err ("CAS failed after " +:+ pretty max_retries +:+ " retries for state key: " +:+ key)
  | Datatypes.S n =>
      '(expected_version, entry) ← transition_read key to;
      success ← sm_compare_and_swap_state key expected_version entry;
      if (success : bool) then m_ret entry else transition_loop n key to
  end.

Definition transition (key : string) (to : StateTransition) : M S StateEntry :=
  transition_loop (Datatypes.S max_retries) key to.

Definition get_state (key : string) : M S (option StateEntry) :=
  raw ← load (state_key key);
  match raw with
  | Some data => entry ← m_lift (from_slice data); m_ret (Some entry)
  | None => m_ret None
  end.

Definition delete_state (key : string) : M S unit := delete_key (state_key key).

End StateMachine.

(** ** The transition graph *)

Definition edge (a b : StateTransition) : Prop := is_valid_transition a b = true.

#[export] Instance edge_dec a b : Decision (edge a b).
Proof. unfold edge. apply _. Defined.

Lemma from_str_as_str t : from_str (as_str t) = Some t.
Proof. by destruct t. Qed.

Lemma from_str_Some s t : from_str s = Some t → s = as_str t.
Proof.
  unfold from_str. intros H.
  repeat match type of H with
  | (if String.eqb ?a ?b then _ else _) = _ =>
      destruct (String.eqb_spec a b) as [->|?]; [by injection H as <-|]
  end; done.
Qed.

Lemma all_states_complete t : t ∈ all_states.
Proof. destruct t; unfold all_states; set_solver. Qed.

(** A set of states closed under the edges keeps every run inside. *)
Lemma closed_set_run (X : list StateTransition) :
  forallb (λ a, forallb (λ b, implb (is_valid_transition a b) (bool_decide (b ∈ X))) all_states) X = true →
  ∀ a b, rtc edge a b → a ∈ X → b ∈ X.
Proof.
  intros HX a b. induction 1 as [a|a b c Hab _ IH]; [done|]. intros Ha. apply IH.
  rewrite forallb_forall in HX.
  specialize (HX a). rewrite <-list_elem_of_In in HX. specialize (HX Ha).
  rewrite forallb_forall in HX. specialize (HX b).
  rewrite <-list_elem_of_In in HX. specialize (HX (all_states_complete b)).
  rewrite Hab in HX. simpl in HX. by apply bool_decide_eq_true in HX.
Qed.

(** ** One transition on a row in step with its entry *)

Section LocalMachine.
Context `{!Codec StateEntry, !CodecOk StateEntry}.

(** The entry stored under [key] and the version column agree. *)
Definition in_step (db : gmap string StateRow) (key : string) (e : StateEntry) : Prop :=
  ∃ row, db !! state_key key = Some row ∧ from_slice (row_value row) = Ok e ∧ row_version row = version e.

Definition next_entry (e : StateEntry) (to : StateTransition) : StateEntry :=
  mk_entry (entry_key e) (as_str to) (u64_add (version e) 1) (metadata e).

Lemma to_vec_eq (e : StateEntry) : ∃ b, to_vec e = Ok b ∧ from_slice b = Ok e.
Proof. destruct (to_vec_total e) as [b Hb]. eauto using from_to_vec. Qed.

Lemma transition_read_local db key to row e cur :
  db !! state_key key = Some row → from_slice (row_value row) = Ok e →
  from_str (current_state e) = Some cur →
  transition_read key to (mk_storage db []) =
    (if is_valid_transition cur to then Ok (version e, next_entry e to)
     else Err ("Invalid transition: " +:+ as_str cur +:+ " -> " +:+ as_str to), mk_storage db []).
Proof.
  intros Hrow He Hcur. unfold transition_read, mbind, M_bind, m_bind. simpl.
  unfold load_state, with_conn, mbind, M_bind, m_bind. simpl. rewrite Hrow. simpl.
  unfold m_lift. rewrite He, Hcur. simpl. by destruct (is_valid_transition cur to).
Qed.

(** The CAS of the state machine on LocalBackend compares the version column. *)
Lemma sm_cas_local db key v e :
  ∃ data, to_vec e = Ok data ∧
  sm_compare_and_swap_state key v e (mk_storage db []) =
    match db !! state_key key with
    | Some row =>
        if decide (row_version row = v)
        then (Ok true, mk_storage (<[state_key key :=
                mk_row data "application/json" (row_version row + 1) (row_payload row)]> db) [])
        else (Ok false, mk_storage db [])
    | None => (Ok false, mk_storage db [])
    end.
Proof.
  destruct (to_vec_eq e) as (data & Hd & _). exists data. split; [done|].
  destruct (to_vec_eq (mk_entry key "" v Null)) as (old & Ho & Hod).
  unfold sm_compare_and_swap_state, mbind, M_bind, m_bind, m_lift. rewrite Ho, Hd. simpl.
  unfold local_compare_and_swap, mbind, M_bind, m_bind. rewrite Hod. simpl.
  unfold compare_and_swap_state, with_conn, update_where_version. simpl.
  destruct (db !! state_key key) as [row|]; simpl; [|done].
  by case_decide.
Qed.

Lemma transition_loop_fresh db key to row e cur n :
  db !! state_key key = Some row → from_slice (row_value row) = Ok e →
  from_str (current_state e) = Some cur → is_valid_transition cur to = true →
  row_version row = version e →
  ∃ data, to_vec (next_entry e to) = Ok data ∧
  transition_loop (S n) key to (mk_storage db []) =
    (Ok (next_entry e to),
     mk_storage (<[state_key key := mk_row data "application/json" (version e + 1) (row_payload row)]> db) []).
Proof.
  intros Hrow He Hcur Hv Hver.
  destruct (sm_cas_local db key (version e) (next_entry e to)) as (data & Hd & Hcas).
  exists data. split; [done|]. simpl. unfold mbind, M_bind, m_bind.
  rewrite (transition_read_local _ _ _ _ _ _ Hrow He Hcur), Hv, Hcas, Hrow, Hver.
  by rewrite decide_True.
Qed.

(** With the two versions apart every attempt of the loop loses its CAS. *)
Lemma transition_loop_stale db key to row e cur n :
  db !! state_key key = Some row → from_slice (row_value row) = Ok e →
  from_str (current_state e) = Some cur → is_valid_transition cur to = true →
  row_version row ≠ version e →
  transition_loop n key to (mk_storage db []) =
    (Err ("CAS failed after 3 retries for state key: " +:+ key), mk_storage db []).
Proof.
  intros Hrow He Hcur Hv Hver. induction n as [|n IH]; [done|].
  destruct (sm_cas_local db key (version e) (next_entry e to)) as (data & _ & Hcas).
  simpl. unfold mbind, M_bind, m_bind in *.
  rewrite (transition_read_local _ _ _ _ _ _ Hrow He Hcur), Hv, Hcas, Hrow.
  by rewrite decide_False.
Qed.
Lemma load_local_store k s r s' : load k s = (r, s') → state_store s' = state_store s.
Proof.
  simpl. unfold mbind, M_bind, m_bind. destruct (load_state k s) as [o s2] eqn:Eo.
  apply with_conn_spec in Eo as [E|(e & -> & E)].
  - injection E as <- E. intros [= _ <-]. done.
  - intros [= _ <-]. done.
Qed.

(** The read half with faults allowed: it changes no row, and what it returns
    was read from the row. *)
Lemma transition_read_inv key to s v e' s' :
  transition_read key to s = (Ok (v, e'), s') →
  state_store s' = state_store s ∧
  ∃ row e cur, state_store s !! state_key key = Some row ∧ from_slice (row_value row) = Ok e ∧
    from_str (current_state e) = Some cur ∧ edge cur to ∧ v = version e ∧ e' = next_entry e to.
Proof.
  unfold transition_read, mbind, M_bind. intros H.
  apply m_bind_inv_ok in H as (raw & s1 & Hload & H).
  apply load_spec in Hload as Hv. destruct Hv as [_ Hv]. specialize (Hv raw eq_refl).
  apply load_local_store in Hload as Hs1.
  apply m_bind_inv_ok in H as (e & s2 & He & H).
  destruct raw as [data|]; [|done]. unfold m_lift in He. injection He as He <-.
  apply m_bind_inv_ok in H as (cur & s3 & Hc & H).
  destruct (from_str (current_state e)) as [c|] eqn:Ec; [|done]. injection Hc as -> <-.
  destruct (is_valid_transition cur to) eqn:Ev; [|done]. injection H as <- <- <-.
  split; [done|].
  unfold view in Hv. simpl in Hv. rewrite local_view_lookup in Hv.
  destruct (state_store s !! state_key key) as [row|] eqn:Er; simplify_eq/=.
  eauto 10.
Qed.

Lemma transition_read_store key to s r s' :
  transition_read key to s = (r, s') → state_store s' = state_store s.
Proof.
  destruct r as [[v e']|err]; [by intros [? _]%transition_read_inv|].
  unfold transition_read, mbind, M_bind, m_bind at 1.
  destruct (load (state_key key) s) as [ro s1] eqn:El.
  apply load_local_store in El as <-.
  destruct ro as [[data|]|]; [|by intros [= _ <-]..].
  unfold m_bind, m_lift. destruct (from_slice data) as [e|]; [|by intros [= _ <-]].
  destruct (from_str (current_state e)) as [cur|]; [|by intros [= _ <-]].
  destruct (is_valid_transition cur to) eqn:Ev; simpl; rewrite Ev; unfold m_ret, m_err; intros; by simplify_eq.
Qed.

Lemma sm_cas_inv key v e s r s' :
  sm_compare_and_swap_state key v e s = (r, s') →
  match r with
  | Ok true => ∃ row row', state_store s !! state_key key = Some row ∧ row_version row = v ∧
      state_store s' = <[state_key key := row']> (state_store s) ∧
      from_slice (row_value row') = Ok e ∧ row_version row' = (v + 1)%Z
  | _ => state_store s' = state_store s
  end.
Proof.
  destruct (to_vec_eq e) as (data & Hd & Hdd).
  destruct (to_vec_eq (mk_entry key "" v Null)) as (old & Ho & Hod).
  unfold sm_compare_and_swap_state, mbind, M_bind, m_bind, m_lift. rewrite Ho, Hd. simpl.
  unfold local_compare_and_swap, mbind, M_bind, m_bind. rewrite Hod. simpl.
  intros Hc%compare_and_swap_state_spec. destruct r as [[]|]; [|by destruct Hc|done].
  destruct Hc as (Hr & row' & -> & Hval & Hver).
  destruct (state_store s !! state_key key) as [row|] eqn:E; [|done].
  simplify_eq/=. exists row, row'. repeat split; done.
Qed.

(** ** Concurrent clients *)

(** A configuration: the storage, and the reads whose compare-and-swap is
    still to come (one per client between the two halves of an attempt). *)
Record config := mk_config { cfg_storage : Storage; cfg_pending : list (Z * StateEntry) }.

(** One step of any client of [key]: the two halves of an attempt, or an
    operation of somebody else that leaves the row of [key] alone. *)
Inductive client_step (key : string) : config → config → Prop :=
| step_read to s r s' ps :
    transition_read key to s = (r, s') →
    client_step key (mk_config s ps)
      (mk_config s' (match r with Ok p => p :: ps | Err _ => ps end))
| step_cas v e s r s' ps1 ps2 :
    sm_compare_and_swap_state key v e s = (r, s') →
    client_step key (mk_config s (ps1 ++ (v, e) :: ps2)) (mk_config s' (ps1 ++ ps2))
| step_other s s' ps :
    state_store s' !! state_key key = state_store s !! state_key key →
    client_step key (mk_config s ps) (mk_config s' ps).

(** The row of [key] is in step with an entry that some run of [version - 1]
    legal edges from [Created] leads to, and no pending compare-and-swap that
    could still succeed would break that. *)
Definition history_inv (key : string) (meta : Value) (c : config) : Prop :=
  ∃ row, state_store (cfg_storage c) !! state_key key = Some row ∧ (1 ≤ row_version row)%Z ∧
  ((row_version row < 2 ^ 64)%Z → ∃ e t,
    from_slice (row_value row) = Ok e ∧ current_state e = as_str t ∧ version e = row_version row ∧
    metadata e = meta ∧ nsteps edge (Z.to_nat (row_version row - 1)) Created t ∧
    Forall (λ '(v, e'), (v ≤ row_version row)%Z ∧
      (v = row_version row → ∃ to, edge t to ∧ e' = next_entry e to)) (cfg_pending c)).

Lemma history_inv_read key meta to s r s' ps :
  transition_read key to s = (r, s') → history_inv key meta (mk_config s ps) →
  history_inv key meta (mk_config s' (match r with Ok p => p :: ps | Err _ => ps end)).
Proof.
  intros Hr (row & Hrow & H1 & Hinv). simpl in *.
  pose proof (transition_read_store _ _ _ _ _ Hr) as Hs.
  exists row. simpl. rewrite Hs. split; [done|]. split; [done|]. intros Hlt.
  destruct (Hinv Hlt) as (e & t & He & Ht & Hv & Hm & Hpath & Hps).
  exists e, t. repeat (split; [done|]).
  destruct r as [[v e']|]; [|done]. constructor; [|done].
  apply transition_read_inv in Hr as (_ & row0 & e0 & cur & Hrow0 & He0 & Hcur & Hedge & -> & ->).
  simplify_eq. rewrite He in He0. injection He0 as <-. split; [lia|]. intros _. exists to. split; [|done].
  rewrite Ht, from_str_as_str in Hcur. by injection Hcur as <-.
Qed.

Lemma history_inv_cas key meta v e s r s' ps1 ps2 :
  sm_compare_and_swap_state key v e s = (r, s') →
  history_inv key meta (mk_config s (ps1 ++ (v, e) :: ps2)) →
  history_inv key meta (mk_config s' (ps1 ++ ps2)).
Proof.
  intros Hc (row & Hrow & H1 & Hinv). simpl in *. apply sm_cas_inv in Hc.
  assert (state_store s' = state_store s → history_inv key meta (mk_config s' (ps1 ++ ps2))) as Hsame.
  { intros Hs. exists row. simpl. rewrite Hs. split; [done|]. split; [done|]. intros Hlt.
    destruct (Hinv Hlt) as (e0 & t & He & Ht & Hv & Hm & Hpath & Hps).
    exists e0, t. repeat (split; [done|]).
    rewrite Forall_app, Forall_cons in Hps. rewrite Forall_app. tauto. }
  destruct r as [[]|]; [|by auto..]. clear Hsame.
  destruct Hc as (row0 & row' & Hrow0 & Hv0 & Hs & He' & Hv'). simplify_eq.
  exists row'. simpl. rewrite Hs, lookup_insert_eq. split; [done|]. split; [lia|]. intros Hlt.
  destruct Hinv as (e0 & t & He & Ht & Hv & Hm & Hpath & Hps); [lia|].
  rewrite Forall_app, Forall_cons in Hps. destruct Hps as (Hp1 & (_ & Hcur) & Hp2).
  destruct (Hcur eq_refl) as (to & Hedge & ->).
  assert (version (next_entry e0 to) = row_version row')%Z as Hver.
  { simpl. rewrite Hv' , Hv, u64_add_small; lia. }
  exists (next_entry e0 to), to. repeat (split; [done|]). split.
  - replace (Z.to_nat (row_version row' - 1)) with (S (Z.to_nat (row_version row0 - 1))) by lia.
    by eapply nsteps_r.
  - apply Forall_app; split; [eapply Forall_impl; [exact Hp1|]|eapply Forall_impl; [exact Hp2|]];
      intros [v1 e1] [Hle _]; (split; [lia|]); intros; exfalso; lia.
Qed.

Lemma history_inv_step key meta c c' :
  client_step key c c' → history_inv key meta c → history_inv key meta c'.
Proof.
  destruct 1 as [| |s s' ps Hs].
  - by eapply history_inv_read.
  - by eapply history_inv_cas.
  - intros (row & Hrow & H). exists row. simpl in *. by rewrite Hs.
Qed.

Lemma history_inv_create key meta s0 e s :
  state_store s0 !! state_key key = None → create_state key meta s0 = (Ok e, s) →
  history_inv key meta (mk_config s []).
Proof.
  intros Hnone H. unfold create_state, mbind, M_bind in H.
  apply m_bind_inv_ok in H as (data & s1 & Hd & H). injection Hd as Hd <-.
  apply m_bind_inv_ok in H as ([] & s2 & Hsave & [= <- <-]).
  apply with_conn_spec in Hsave as [[= Hs]|(? & [=] & _)]. rewrite Hnone in Hs.
  exists (mk_row data "application/octet-stream" 1 []). simpl.
  rewrite <-Hs, lookup_insert_eq. split; [done|]. split; [done|]. intros _.
  exists (mk_entry key (as_str Created) 1 meta), Created. simpl.
  split; [by apply from_to_vec|]. repeat (split; [done|]). split; constructor.
Qed.

End LocalMachine.

(** ** Properties *)

(** C2: however many clients interleave their reads and compare-and-swaps on
    one key, and whatever storage faults occur, the stored entry is reached
    from [Created] by exactly [version - 1] legal edges: no transition is lost,
    applied twice or applied to a state it is not allowed from. *)
Theorem concurrent_transitions_linearize `{!Codec StateEntry, !CodecOk StateEntry} key meta s0 e s c row :
  state_store s0 !! state_key key = None →
  create_state key meta s0 = (Ok e, s) →
  rtc (client_step key) (mk_config s []) c →
  state_store (cfg_storage c) !! state_key key = Some row →
  (row_version row < 2 ^ 64)%Z →
  ∃ e' t, from_slice (row_value row) = Ok e' ∧ current_state e' = as_str t ∧
    version e' = row_version row ∧ metadata e' = meta ∧
    nsteps edge (Z.to_nat (row_version row - 1)) Created t.
Proof.
  intros Hnone Hcreate Hsteps Hrow Hlt.
  assert (history_inv key meta c) as (row' & Hrow' & _ & Hinv).
  { assert (history_inv key meta (mk_config s [])) as H0 by by eapply history_inv_create.
    clear Hcreate. revert H0. induction Hsteps; [done|]. eauto using history_inv_step. }
  simplify_eq. destruct (Hinv Hlt) as (e' & t & ?). exists e', t. naive_solver.
Qed.

(** On a row in step with its entry, [transition] performs the edge when
    the table allows it (new state, version plus one, other keys untouched) and
    otherwise reports the edge and changes nothing. *)
Theorem transition_local_correct `{!Codec StateEntry, !CodecOk StateEntry} db key to row e cur :
  db !! state_key key = Some row →
  from_slice (row_value row) = Ok e →
  from_str (current_state e) = Some cur →
  row_version row = version e →
  (0 ≤ version e < 2 ^ 64 - 1)%Z →
  if is_valid_transition cur to
  then ∃ db', transition key to (mk_storage db []) = (Ok (next_entry e to), mk_storage db' []) ∧
         in_step db' key (next_entry e to) ∧ version (next_entry e to) = (version e + 1)%Z ∧
         delete (state_key key) db' = delete (state_key key) db
  else transition key to (mk_storage db []) =
         (Err ("Invalid transition: " +:+ as_str cur +:+ " -> " +:+ as_str to), mk_storage db []).
Proof.
  intros Hrow He Hcur Hver Hb. destruct (is_valid_transition cur to) eqn:Hv.
  - destruct (transition_loop_fresh db key to row e cur max_retries Hrow He Hcur Hv Hver)
      as (data & Hd & Hrun).
    eexists. split; [exact Hrun|].
    assert (u64_add (version e) 1 = version e + 1)%Z as Hadd by (apply u64_add_small; lia).
    split; [|split; [done|by rewrite delete_insert_eq]].
    eexists. rewrite lookup_insert_eq. split; [done|]. simpl. rewrite Hadd.
    split; [by apply from_to_vec|done].
  - unfold transition. simpl. unfold mbind, M_bind, m_bind.
    by rewrite (transition_read_local _ _ _ _ _ _ Hrow He Hcur), Hv.
Qed.

(** Calling [create_state] again on an existing key bumps the version
    column but writes an entry of version 1; from then on every [transition] of
    that key fails, whatever the target, and changes nothing. *)
Theorem recreated_state_is_stuck `{!Codec StateEntry, !CodecOk StateEntry} db key meta row to :
  db !! state_key key = Some row → (1 ≤ row_version row)%Z →
  ∃ e db', create_state key meta (mk_storage db []) = (Ok e, mk_storage db' []) ∧
    ∃ err, transition key to (mk_storage db' []) = (Err err, mk_storage db' []).
Proof.
  intros Hrow H1.
  set (e := mk_entry key (as_str Created) 1 meta).
  destruct (to_vec_eq e) as (data & Hd & He).
  set (row' := mk_row data "application/octet-stream" (row_version row + 1) []).
  exists e, (<[state_key key := row']> db). split.
  - unfold create_state, mbind, M_bind, m_bind, m_lift. fold e. rewrite Hd. simpl.
    unfold save_state, with_conn. simpl. by rewrite Hrow.
  - assert (<[state_key key := row']> db !! state_key key = Some row') as Hrow' by apply lookup_insert_eq.
    destruct (is_valid_transition Created to) eqn:Hv.
    + eexists. apply (transition_loop_stale _ key to row' e Created); auto. simpl. lia.
    + eexists. unfold transition. simpl. unfold mbind, M_bind, m_bind.
      by rewrite (transition_read_local _ key to row' e Created), Hv.
Qed.

(** On a backend that keeps the trait's default [compare_and_swap]
    (Redis, SQL, S3) no transition ever succeeds. *)
Theorem no_cas_never_transitions {S} `{!StateBackend S, !NoCas S, !Codec StateEntry} key to (s : S) :
  is_ok (transition key to s).1 = false.
Proof.
  destruct (transition key to s) as [[e|err] s'] eqn:H; [|done]. exfalso.
  unfold transition in H. simpl in H. unfold mbind, M_bind in H.
  apply m_bind_inv_ok in H as ([v e'] & s1 & _ & H).
  apply m_bind_inv_ok in H as (b & s2 & H & _).
  unfold sm_compare_and_swap_state, mbind, M_bind in H.
  apply m_bind_inv_ok in H as (? & ? & _ & H). apply m_bind_inv_ok in H as (? & ? & _ & H).
  by rewrite no_cas in H.
Qed.

(** The stored state names and the states correspond one to one. *)
Theorem state_names_roundtrip s t : from_str s = Some t ↔ s = as_str t.
Proof. split; [apply from_str_Some|]. intros ->. apply from_str_as_str. Qed.

(** The life cycle: exactly [Cancelled], [FullyRolledBack] and
    [RecoveryRequired] are terminal, every state can still reach one of them, and a
    completed task never runs again: only rollback states follow it. *)
Theorem lifecycle_graph :
  (∀ t, (∀ t', ¬ edge t t') ↔ t ∈ [Cancelled; FullyRolledBack; RecoveryRequired]) ∧
  (∀ t, ∃ f, rtc edge t f ∧ f ∈ [Cancelled; FullyRolledBack; RecoveryRequired]) ∧
  (∀ t, rtc edge Completed t →
     t ∈ [Completed; RollingBack; FullyRolledBack; PartiallyRolledBack; RecoveryRequired]).
Proof.
  split; [|split].
  - intros t. split.
    + intros H. destruct t; try set_solver; exfalso;
        first [by apply (H Running)|by apply (H Completed)|by apply (H RollingBack)
              |by apply (H FullyRolledBack)|by apply (H RecoveryRequired)].
    + intros H t'. by destruct t; try set_solver; destruct t'.
  - assert (∀ a b c, edge a b → rtc edge b c → rtc edge a c) as Hs by (intros; by eapply rtc_l).
    intros [];
      first [exists Cancelled; split; [by apply rtc_refl|set_solver]
            |exists FullyRolledBack; split; [by apply rtc_refl|set_solver]
            |exists RecoveryRequired; split; [by apply rtc_refl|set_solver]
            |exists Cancelled; split; [by apply rtc_once|set_solver]
            |exists RecoveryRequired; split; [by apply rtc_once|set_solver]
            |exists FullyRolledBack; split; [by apply rtc_once|set_solver]
            |exists RecoveryRequired; split; [by eapply (Hs _ Failed), rtc_once|set_solver]].
  - intros t H. eapply closed_set_run; [|exact H|set_solver]. by vm_compute.
Qed.

(** ** Witnesses *)

Section Witnesses.
#[local] Instance demo_codec : Codec StateEntry := countable_codec StateEntry.
#[local] Instance demo_codec_ok : CodecOk StateEntry := countable_codec_ok StateEntry.

Definition demo_empty : Storage := mk_storage ∅ [].
Definition demo_created : Storage := (create_state "job" Null demo_empty).2.
Definition demo_running : Storage := (transition "job" Running demo_created).2.
Definition demo_row (s : Storage) : StateRow := default (mk_row [] "" 0 []) (state_store s !! state_key "job").

Lemma concurrent_transitions_linearize_witness :
  ∃ e' t, from_slice (row_value (demo_row demo_running)) = Ok e' ∧ current_state e' = as_str t ∧
    version e' = 2%Z ∧ metadata e' = Null ∧ nsteps edge 1 Created t.
Proof.
  assert (rtc (client_step "job") (mk_config demo_created []) (mk_config demo_running [])) as Hrun.
  { eapply rtc_l; [apply (step_read "job" Running demo_created (Ok (1%Z, mk_entry "job" "running" 2 Null)) demo_created []); vm_compute; reflexivity|].
    eapply rtc_once. apply (step_cas "job" 1 (mk_entry "job" "running" 2 Null) demo_created
      (Ok true) demo_running [] []). vm_compute. reflexivity. }
  exact (concurrent_transitions_linearize "job" Null demo_empty (mk_entry "job" "created" 1 Null)
    demo_created (mk_config demo_running []) (demo_row demo_running)
    ltac:(vm_compute; reflexivity) ltac:(vm_compute; reflexivity) Hrun
    ltac:(vm_compute; reflexivity) ltac:(vm_compute; reflexivity)).
Defined.

Lemma transition_local_correct_witness :
  ∃ db', transition "job" Running demo_created =
    (Ok (mk_entry "job" "running" 2 Null), mk_storage db' []).
Proof.
  destruct (transition_local_correct (state_store demo_created) "job" Running (demo_row demo_created)
    (mk_entry "job" "created" 1 Null) Created
    ltac:(vm_compute; reflexivity) ltac:(vm_compute; reflexivity) ltac:(reflexivity)
    ltac:(vm_compute; reflexivity) ltac:(simpl; lia)) as (db' & H & _).
  exists db'. exact H.
Defined.

Lemma recreated_state_is_stuck_witness :
  ∃ e db', create_state "job" (VString "again") demo_running = (Ok e, mk_storage db' []) ∧
    ∃ err, transition "job" Running (mk_storage db' []) = (Err err, mk_storage db' []).
Proof.
  exact (recreated_state_is_stuck (state_store demo_running) "job" (VString "again") (demo_row demo_running)
    Running ltac:(vm_compute; reflexivity) ltac:(vm_compute; discriminate)).
Defined.

(** A redis keyspace as an association list, newest binding first. *)
Definition demo_redis : StateBackend (list (list Byte.byte * list Byte.byte)) :=
  let find k m := snd <$> List.find (λ kv, bool_decide (kv.1 = k)) m in
  RedisBackend (λ k v m, (Ok tt, (k, v) :: m)) (λ k m, (Ok (find k m), m))
    (λ k m, (Ok tt, List.filter (λ kv, bool_decide (kv.1 ≠ k)) m))
    (λ k m, (Ok (match find k m with Some _ => 1 | None => 0 end)%Z, m)) "dbx".

Lemma no_cas_never_transitions_witness :
  is_ok (@transition _ demo_redis _ "job" Running
    (@create_state _ demo_redis _ "job" Null []).2).1 = false.
Proof. apply (@no_cas_never_transitions _ demo_redis _ _ "job" Running). Defined.
End Witnesses.
