(* ===== verification/TwoPhaseCommit.v ===== *)
(** * Two-phase commit (two_phase_commit.rs)

    [TwoPhaseCommit] drives participants through prepare, commit and rollback,
    and logs its status in a [StateBackend].  The methods are written over any
    world [S] that has a backend; the theorems run them in a [World] whose
    participants answer as an arbitrary oracle of the history says, and which
    records every participant call and every log write. *)
From S2P Require Import Prelude RustStr Json StateStore StateBackend StateMachine.

(** ** Data *)

Module Status.
Inductive TransactionStatus : Type :=
| Preparing | Prepared | Committing | Committed | RollingBack | RolledBack | Mixed | Unknown.

#[export] Instance transaction_status_eq_dec : EqDecision TransactionStatus.
Proof. solve_decision. Defined.

Definition as_str (s : TransactionStatus) : string :=
  match s with
  | Preparing => "preparing"
  | Prepared => "prepared"
  | Committing => "committing"
  | Committed => "committed"
  | RollingBack => "rolling_back"
  | RolledBack => "rolled_back"
  | Mixed => "mixed"
  | Unknown => "unknown"
  end.

Definition from_str (s : string) : TransactionStatus :=
  if String.eqb s "preparing" then Preparing
  else if String.eqb s "prepared" then Prepared
  else if String.eqb s "committing" then Committing
  else if String.eqb s "committed" then Committed
  else if String.eqb s "rolling_back" then RollingBack
  else if String.eqb s "rolled_back" then RolledBack
  else if String.eqb s "mixed" then Mixed
  else Unknown.

Lemma status_from_str_as_str s : from_str (as_str s) = s.
Proof. by destruct s. Qed.
End Status.
Import Status(TransactionStatus, Preparing, Prepared, Committing, Committed, RolledBack, Mixed, Unknown).

Record VoteResult := mk_vote { vote_participant_id : string; vote : bool; reason : option string }.

Record ParticipantCommitResult := mk_commit_result {
  participant_id : string;
  committed : bool;
  error : option string
}.

Record ParticipantInfo := mk_info { info_id : string; info_name : string; info_role : string }.

#[export] Instance participant_info_eq_dec : EqDecision ParticipantInfo.
Proof. solve_decision. Defined.
#[export] Program Instance participant_info_countable : Countable ParticipantInfo :=
  inj_countable' (λ i, (info_id i, info_name i, info_role i)) (λ '(a, b, c), mk_info a b c) _.
Next Obligation. by intros []. Qed.

Record TransactionLog := mk_log {
  transaction_id : string;
  status : string;
  participants : list ParticipantInfo;
  created_at : string;
  updated_at : string;
  log_metadata : Value
}.

#[export] Instance transaction_log_eq_dec : EqDecision TransactionLog.
Proof. solve_decision. Defined.
#[export] Program Instance transaction_log_countable : Countable TransactionLog :=
  inj_countable'
    (λ l, (transaction_id l, status l, participants l, created_at l, updated_at l, log_metadata l))
    (λ '(a, b, c, d, e, f), mk_log a b c d e f) _.
Next Obligation. by intros []. Qed.

(** The trait [Participant]. *)
Record Participant (S : Type) := mk_participant {
  p_id : string;
  p_name : string;
  p_role : string;
  p_prepare : string → M S unit;
  p_commit : string → M S unit;
  p_rollback : string → M S unit
}.
Arguments mk_participant {S}. Arguments p_id {S}. Arguments p_name {S}. Arguments p_role {S}.
Arguments p_prepare {S}. Arguments p_commit {S}. Arguments p_rollback {S}.

(** [FnParticipant::new] with its [Participant] implementation: the closures
    ignore the transaction id. *)
Definition FnParticipant {S} (id name role : string) (prepare_fn commit_fn rollback_fn : M S unit)
    : Participant S :=
  mk_participant id name role (λ _, prepare_fn) (λ _, commit_fn) (λ _, rollback_fn).

(** ** The coordinator *)

Definition log_key (transaction_id : string) : string := "2pc:tx:" +:+ transaction_id.
Definition state_name (transaction_id : string) : string := "2pc_" +:+ transaction_id.

Section TwoPhaseCommit.
Context {S : Type} `{!StateBackend S} `{!Codec StateEntry} `{!Codec TransactionLog}.
(** [chrono::Utc::now().to_rfc3339()], read off the world. *)
Variable utc_now : S → string.

Definition TransactionLog_new (tx : string) (infos : list ParticipantInfo) (meta : Value) : M S TransactionLog :=
  created ← m_get utc_now;
  updated ← m_get utc_now;
  m_ret (mk_log tx (Status.as_str Preparing) infos created updated meta).

Definition save_log (log : TransactionLog) : M S unit :=
  data ← m_lift (to_vec log);
  save (log_key (transaction_id log)) data.

Definition load_log (tx : string) : M S (option TransactionLog) :=
  raw ← load (log_key tx);
  match raw with
  | Some data => log ← m_lift (from_slice data); m_ret (Some log)
  | None => m_ret None
  end.

Definition ok_or {A} (o : option A) (e : string) : M S A :=
  match o with Some a => m_ret a | None => m_err e end.

Definition update_status (tx : string) (st : TransactionStatus) : M S TransactionLog :=
  o ← load_log tx;
  log ← ok_or o ("Transaction not found: " +:+ tx);
  now ← m_get utc_now;
  let log' := mk_log (transaction_id log) (Status.as_str st) (participants log) (created_at log) now
                (log_metadata log) in
  _ ← save_log log';
  m_ret log'.

(** The loop of [prepare_phase]: votes so far; stops at the first refusal. The
    flag says whether the loop ran to its end. *)
Fixpoint prepare_loop (tx : string) (ps : list (Participant S)) (results : list VoteResult)
    : M S (list VoteResult * bool) :=
  match ps with
  | [] => m_ret (results, true)
  | p :: ps' =>
      r ← m_try (p_prepare p tx);
      match r with
      | Ok _ => prepare_loop tx ps' (results ++ [mk_vote (p_id p) true None])
      | Err e => m_ret (results ++ [mk_vote (p_id p) false (Some e)], false)
      end
  end.

Definition prepare_phase (tx : string) (ps : list (Participant S)) : M S (list VoteResult) :=
  _ ← update_status tx Preparing;
  '(results, completed) ← prepare_loop tx ps [];
  if (completed : bool)
  then _ ← update_status tx Prepared; m_ret results
  else m_ret results.

(** One attempt of [commit_phase] over the pending participants: the results
    it adds and the participants left for the next attempt. *)
Fixpoint commit_attempt (tx : string) (retries_left : bool) (pending : list (Participant S))
    (results : list ParticipantCommitResult) (next_pending : list (Participant S))
    : M S (list ParticipantCommitResult * list (Participant S)) :=
  match pending with
  | [] => m_ret (results, next_pending)
  | p :: pending' =>
      r ← m_try (p_commit p tx);
      match r with
      | Ok _ => commit_attempt tx retries_left pending'
                  (results ++ [mk_commit_result (p_id p) true None]) next_pending
      | Err e =>
          if retries_left
          then commit_attempt tx retries_left pending' results (next_pending ++ [p])
          else commit_attempt tx retries_left pending'
                 (results ++ [mk_commit_result (p_id p) false (Some e)]) next_pending
      end
  end.

(** The attempts [max_retries - left ..= max_retries]. *)
Fixpoint commit_attempts (tx : string) (left : nat) (pending : list (Participant S))
    (results : list ParticipantCommitResult) : M S (list ParticipantCommitResult) :=
  '(results, next_pending) ← commit_attempt tx (bool_decide (0 < left)) pending results [];
  match next_pending, left with
  | [], _ => m_ret results
  | _, 0 => m_ret results
  | _, Datatypes.S left' => commit_attempts tx left' next_pending results
  end.

Definition commit_phase (tx : string) (ps : list (Participant S)) (max_retries : nat)
    : M S (list ParticipantCommitResult) :=
  commit_attempts tx max_retries ps [].

Fixpoint rollback_loop (tx : string) (ps : list (Participant S)) (errors : list string) : M S (list string) :=
  match ps with
  | [] => m_ret errors
  | p :: ps' =>
      r ← m_try (p_rollback p tx);
      match r with
      | Ok _ => rollback_loop tx ps' errors
      | Err e => rollback_loop tx ps' (errors ++ [p_id p +:+ ": " +:+ e])
      end
  end.

Definition rollback_phase (tx : string) (ps : list (Participant S)) : M S unit :=
  errors ← rollback_loop tx ps [];
  match errors with [] => m_ret tt | _ => m_err (join "; " errors) end.

Definition all_committed (ps : list (Participant S)) (rs : list ParticipantCommitResult) : bool :=
  match ps with [] => true | _ => false end
  || (match rs with [] => false | _ => true end && forallb committed rs).

(** [failures] of [execute] and [recover], joined. *)
Definition failures (rs : list ParticipantCommitResult) : string :=
  join "; " ((λ r, participant_id r +:+ ": " +:+ default "unknown" (error r))
    <$> List.filter (λ r, negb (committed r)) rs).

Definition rejections (vs : list VoteResult) : string :=
  join ", " ((λ v, vote_participant_id v +:+ ": " +:+ default "no reason" (reason v))
    <$> List.filter (λ v, negb (vote v)) vs).

(** Status of a transaction whose commit phase did not reach everyone. *)
Definition failed_status (rs : list ParticipantCommitResult) : TransactionStatus :=
  if existsb committed rs then Mixed else RolledBack.

Definition execute_commit (tx : string) (ps : list (Participant S)) : M S TransactionLog :=
  _ ← update_status tx Committing;
  commit_results ← commit_phase tx ps 2;
  if all_committed ps commit_results
  then
    log ← update_status tx Committed;
    _ ← m_try (transition (state_name tx) Completed);
    m_ret log
  else
    _ ← update_status tx Status.RollingBack;
    _ ← m_try (rollback_phase tx ps);
    log ← update_status tx (failed_status commit_results);
    _ ← m_try (transition (state_name tx) Failed);
    m_err ("Commit phase failed: " +:+ failures commit_results +:+ ". Status: " +:+ status log).

Definition execute_refused (tx : string) (ps : list (Participant S)) (votes : list VoteResult)
    : M S TransactionLog :=
  _ ← update_status tx Status.RollingBack;
  _ ← m_try (rollback_phase tx ps);
  log ← update_status tx RolledBack;
  _ ← m_try (transition (state_name tx) Failed);
  m_err ("Prepare phase failed: participants did not agree. Rejections: [" +:+ rejections votes
         +:+ "]. Status: " +:+ status log).

Definition execute (tx : string) (ps : list (Participant S)) (meta : Value) : M S TransactionLog :=
  log ← TransactionLog_new tx ((λ p, mk_info (p_id p) (p_name p) (p_role p)) <$> ps) meta;
  _ ← save_log log;
  _ ← create_state (state_name tx) (Object [("phase", VString "begin")]);
  vote_results ← prepare_phase tx ps;
  if forallb vote vote_results then execute_commit tx ps else execute_refused tx ps vote_results.

Definition recover (tx : string) (ps : list (Participant S)) : M S TransactionLog :=
  o ← load_log tx;
  log ← ok_or o ("No transaction log found for: " +:+ tx);
  match Status.from_str (status log) with
  | Preparing | Prepared =>
      _ ← rollback_phase tx ps; update_status tx RolledBack
  | Committing =>
      commit_results ← commit_phase tx ps 2;
      if all_committed ps commit_results
      then update_status tx Committed
      else
        _ ← rollback_phase tx ps;
        _ ← update_status tx (failed_status commit_results);
        m_err ("Recovery failed during commit: " +:+ failures commit_results)
  | Status.RollingBack =>
      _ ← rollback_phase tx ps; update_status tx RolledBack
  | Committed | RolledBack | Mixed => m_ret log
  | Unknown => m_err ("Unknown transaction status for " +:+ tx +:+ ": cannot recover")
  end.

End TwoPhaseCommit.

(** ** Observed runs *)

Inductive Action : Type := APrepare | ACommit | ARollback.

#[export] Instance action_eq_dec : EqDecision Action.
Proof. solve_decision. Defined.

Inductive Event : Type :=
| EvCall (a : Action) (id tx : string) (r : result unit string)
| EvSave (key : string) (value : bytes) (ok : bool).

Record World (B : Type) := mk_world { w_backend : B; w_trace : list Event }.
Arguments mk_world {B}. Arguments w_backend {B}. Arguments w_trace {B}.

(** A backend operation, unrecorded. *)
Definition on_backend {B A} (m : M B A) : M (World B) A :=
  λ w, let '(r, b) := m (w_backend w) in (r, mk_world b (w_trace w)).

(** A save, recorded with whether it succeeded. *)
Definition observed_save {B} `{!StateBackend B} (key : string) (value : bytes) : M (World B) unit :=
  λ w, let '(r, b) := save key value (w_backend w) in
       (r, mk_world b (w_trace w ++ [EvSave key value (is_ok r)])).

#[export] Instance World_backend {B} `{!StateBackend B} : StateBackend (World B) := {
  save := observed_save;
  save_with_content_type k v c := on_backend (save_with_content_type k v c);
  load k := on_backend (load k);
  delete_key k := on_backend (delete_key k);
  exists_key k := on_backend (exists_key k);
  compare_and_swap k o n := on_backend (compare_and_swap k o n)
}.

(** Any behaviour of the participants: the answer to a call may depend on
    everything that happened before. *)
Definition Oracle := list Event → Action → string → result unit string.

Definition call {B} (answer : Oracle) (a : Action) (id tx : string) : M (World B) unit :=
  λ w, let r := answer (w_trace w) a id in (r, mk_world (w_backend w) (w_trace w ++ [EvCall a id tx r])).

Definition observed {B} (answer : Oracle) (i : ParticipantInfo) : Participant (World B) :=
  mk_participant (info_id i) (info_name i) (info_role i)
    (call answer APrepare (info_id i)) (call answer ACommit (info_id i)) (call answer ARollback (info_id i)).

(** ** Reading a trace *)

Definition is_save (e : Event) : Prop := match e with EvSave _ _ _ => True | _ => False end.
Definition is_call (a : Action) (e : Event) : Prop := match e with EvCall a' _ _ _ => a' = a | _ => False end.

(** The calls of one kind, in order. *)
Definition calls (a : Action) (evs : list Event) : list (string * result unit string) :=
  omap (λ e, match e with
             | EvCall a' id _ r => if bool_decide (a' = a) then Some (id, r) else None
             | _ => None
             end) evs.

(** How many calls of one kind a participant received. *)
Definition count_calls (a : Action) (id : string) (evs : list Event) : nat :=
  List.length (List.filter (λ c, String.eqb c.1 id) (calls a evs)).

Definition count_ids (id : string) (infos : list ParticipantInfo) : nat :=
  List.length (List.filter (λ i, String.eqb (info_id i) id) infos).

(** A log with this status reached the backend. *)
Definition logged `{!Codec TransactionLog} (st : TransactionStatus) (e : Event) : Prop :=
  ∃ log data, e = EvSave (log_key (transaction_id log)) data true ∧ to_vec log = Ok data ∧
              status log = Status.as_str st.

(** Calls of one kind to the participants [rs], with their answers. *)
Definition call_events (a : Action) (tx : string) (rs : list (ParticipantInfo * result unit string)) : list Event :=
  (λ '(i, r), EvCall a (info_id i) tx r) <$> rs.

Lemma calls_app a l1 l2 : calls a (l1 ++ l2) = calls a l1 ++ calls a l2.
Proof. apply omap_app. Qed.

Lemma calls_saves a l : Forall is_save l → calls a l = [].
Proof. induction 1 as [|[] l H _ IH]; done. Qed.

Lemma calls_call_events a b tx rs :
  calls a (call_events b tx rs) = if bool_decide (b = a) then prod_map info_id id <$> rs else [].
Proof. induction rs as [|[i r] rs IH]; simpl; [by case_bool_decide|]. rewrite IH. by case_bool_decide. Qed.

Lemma calls_other a b l : a ≠ b → Forall (is_call a) l → calls b l = [].
Proof.
  intros Hab. induction 1 as [|e l H _ IH]; [done|]. destruct e as [a' id tx r|]; [|done].
  simpl in H. subst a'. simpl. by rewrite bool_decide_eq_false_2.
Qed.

Lemma is_call_events a tx rs : Forall (is_call a) (call_events a tx rs).
Proof. apply Forall_fmap, Forall_true. by intros []. Qed.

Lemma call_events_app a tx l1 l2 : call_events a tx (l1 ++ l2) = call_events a tx l1 ++ call_events a tx l2.
Proof. apply fmap_app. Qed.

Lemma calls_elem a id r evs : (id, r) ∈ calls a evs ↔ ∃ tx, EvCall a id tx r ∈ evs.
Proof.
  unfold calls. rewrite list_elem_of_omap. split.
  - intros ([a' id' tx r'|] & He & H); [|done]. case_bool_decide; simplify_eq. eauto.
  - intros [tx H]. exists (EvCall a id tx r). split; [done|]. by rewrite bool_decide_eq_true_2.
Qed.

Lemma count_calls_app a id l1 l2 : count_calls a id (l1 ++ l2) = count_calls a id l1 + count_calls a id l2.
Proof. unfold count_calls. by rewrite calls_app, List.filter_app, List.length_app. Qed.

Lemma count_call_events a tx id rs : count_calls a id (call_events a tx rs) = count_ids id rs.*1.
Proof.
  unfold count_calls, count_ids. rewrite calls_call_events, bool_decide_eq_true_2 by done.
  induction rs as [|[i r] rs IH]; simpl; [done|]. destruct String.eqb; simpl; [f_equal|]; exact IH.
Qed.

(** ** Phases *)

Section Phases.
Context {B : Type} `{!StateBackend B} (answer : Oracle).
Implicit Types (w : World B) (js : list ParticipantInfo).

(** A phase that calls participants and leaves the backend alone. *)
Definition extends w evs w' : Prop := w_backend w' = w_backend w ∧ w_trace w' = w_trace w ++ evs.

Lemma extends_refl w : extends w [] w.
Proof. by split; rewrite ?app_nil_r. Qed.

Lemma extends_trans w1 e1 w2 e2 w3 : extends w1 e1 w2 → extends w2 e2 w3 → extends w1 (e1 ++ e2) w3.
Proof. intros [Hb Ht] [Hb' Ht']. split; [congruence|]. by rewrite Ht', Ht, app_assoc. Qed.

Lemma extends_step a tx i w w' l :
  extends (call answer a (info_id i) tx w).2 l w' →
  extends w (EvCall a (info_id i) tx (answer (w_trace w) a (info_id i)) :: l) w'.
Proof. intros [Hb Ht]. split; [done|]. by rewrite Ht; simpl; rewrite <-app_assoc. Qed.

Lemma prepare_loop_spec tx js : ∀ results w,
  ∃ ans res completed w', prepare_loop tx (observed answer <$> js) results w = (Ok (results ++ res, completed), w') ∧
    extends w (call_events APrepare tx ans) w' ∧ forallb vote res = completed ∧
    if completed then ans = (λ i, (i, Ok tt)) <$> js
    else ∃ js1 i js2 e, js = js1 ++ i :: js2 ∧ ans = ((λ i, (i, Ok tt)) <$> js1) ++ [(i, Err e)].
Proof.
  induction js as [|i js IH]; intros results w; simpl.
  { exists [], [], true, w. rewrite app_nil_r. auto using extends_refl. }
  unfold mbind, M_bind, m_bind, m_try, call.
  pose proof (extends_step APrepare tx i w) as Hx. unfold call in Hx. cbn [fst snd] in Hx.
  destruct (answer (w_trace w) APrepare (info_id i)) as [[]|e] eqn:Ha.
  - edestruct (IH (results ++ [mk_vote (info_id i) true None])) as (ans & res & b & w' & H & Hext & Hv & Hb).
    exists ((i, Ok tt) :: ans), (mk_vote (info_id i) true None :: res), b, w'.
    rewrite <-app_assoc in H. split; [exact H|]. split; [by apply Hx|]. split; [done|].
    destruct b; [by rewrite Hb|]. destruct Hb as (js1 & j & js2 & e & -> & ->).
    exists (i :: js1), j, js2, e. done.
  - exists [(i, Err e)], [mk_vote (info_id i) false (Some e)], false. eexists.
    split; [reflexivity|]. split; [apply Hx, extends_refl|]. split; [done|].
    exists [], i, js, e. done.
Qed.

(** What one attempt of the commit phase records for an answer. *)
Definition commit_result (i : ParticipantInfo) (r : result unit string) : ParticipantCommitResult :=
  match r with
  | Ok _ => mk_commit_result (info_id i) true None
  | Err e => mk_commit_result (info_id i) false (Some e)
  end.

Lemma commit_attempt_spec tx retry js : ∀ results nxt w,
  ∃ ans w', ans.*1 = js ∧ extends w (call_events ACommit tx ans) w' ∧
    commit_attempt tx retry (observed answer <$> js) results nxt w =
      (Ok (results ++ (uncurry commit_result <$> List.filter (λ c, is_ok c.2 || negb retry) ans),
           nxt ++ (observed answer <$> (List.filter (λ c, negb (is_ok c.2) && retry) ans).*1)), w').
Proof.
  induction js as [|i js IH]; intros results nxt w; simpl.
  { exists [], w. simpl. rewrite !app_nil_r. auto using extends_refl. }
  unfold mbind, M_bind, m_bind, m_try, call.
  pose proof (extends_step ACommit tx i w) as Hx. unfold call in Hx. cbn [fst snd] in Hx.
  destruct (answer (w_trace w) ACommit (info_id i)) as [[]|e] eqn:Ha; [|destruct retry].
  - edestruct (IH (results ++ [mk_commit_result (info_id i) true None]) nxt) as (ans & w' & Hi & Hext & H).
    exists ((i, Ok tt) :: ans), w'. split; [by rewrite fmap_cons, Hi|]. split; [by apply Hx|].
    etrans; [exact H|]. simpl. by rewrite <-!app_assoc.
  - edestruct (IH results (nxt ++ [observed answer i])) as (ans & w' & Hi & Hext & H).
    exists ((i, Err e) :: ans), w'. split; [by rewrite fmap_cons, Hi|]. split; [by apply Hx|].
    etrans; [exact H|]. simpl. by rewrite <-!app_assoc.
  - edestruct (IH (results ++ [mk_commit_result (info_id i) false (Some e)]) nxt) as (ans & w' & Hi & Hext & H).
    exists ((i, Err e) :: ans), w'. split; [by rewrite fmap_cons, Hi|]. split; [by apply Hx|].
    etrans; [exact H|]. simpl. by rewrite <-!app_assoc.
Qed.

(** The participants an attempt leaves for the next one. *)
Definition unanswered (ans : list (ParticipantInfo * result unit string)) : list ParticipantInfo :=
  (List.filter (λ c, negb (is_ok c.2)) ans).*1.

Definition ok_ids (evs : list Event) : list string := (List.filter (λ c, is_ok c.2) (calls ACommit evs)).*1.

(** What the commit phase guarantees of its results and of its calls. *)
Record commit_run (tx : string) (attempts : nat) js evs (res : list ParticipantCommitResult) : Prop := {
  cr_calls : Forall (is_call ACommit) evs;
  cr_ids : participant_id <$> res ≡ₚ info_id <$> js;
  cr_ok : participant_id <$> List.filter committed res ≡ₚ ok_ids evs;
  cr_err : Forall (λ r, committed r = true ∨
             ∃ e, error r = Some e ∧ (participant_id r, Err e) ∈ calls ACommit evs) res;
  cr_count id : count_calls ACommit id evs ≤ attempts * count_ids id js
}.

Lemma ok_ids_app l1 l2 : ok_ids (l1 ++ l2) = ok_ids l1 ++ ok_ids l2.
Proof. unfold ok_ids. by rewrite calls_app, List.filter_app, fmap_app. Qed.

Lemma ok_ids_call_events tx ans :
  ok_ids (call_events ACommit tx ans) = info_id <$> (List.filter (λ c, is_ok c.2) ans).*1.
Proof.
  unfold ok_ids. rewrite calls_call_events, bool_decide_eq_true_2 by done.
  induction ans as [|[i [[]|e]] ans IH]; simpl; [done|f_equal; exact IH|exact IH].
Qed.

Lemma commit_result_ids ans : participant_id <$> (uncurry commit_result <$> ans) = info_id <$> ans.*1.
Proof. rewrite <-!list_fmap_compose. apply list_fmap_ext. by intros ? [i [[]|e]]. Qed.

Lemma partition_ids (ans : list (ParticipantInfo * result unit string)) :
  (List.filter (λ c, is_ok c.2) ans).*1 ++ unanswered ans ≡ₚ ans.*1.
Proof.
  unfold unanswered. induction ans as [|[i [[]|e]] ans IH]; simpl; [done|by apply Permutation_skip|].
  rewrite <-Permutation_middle. by apply Permutation_skip.
Qed.

Lemma count_unanswered id ans : count_ids id (unanswered ans) ≤ count_ids id ans.*1.
Proof.
  unfold count_ids, unanswered. induction ans as [|[i [[]|e]] ans IH]; simpl; [done|..];
    destruct String.eqb; simpl in *; (lia || (revert IH; unfold fmap; simpl; lia)).
Qed.

(** The last attempt records every answer. *)
Lemma commit_run_last tx ans :
  commit_run tx 1 ans.*1 (call_events ACommit tx ans) (uncurry commit_result <$> ans).
Proof.
  split.
  - apply is_call_events.
  - by rewrite commit_result_ids.
  - rewrite ok_ids_call_events.
    induction ans as [|[i [[]|e]] ans IH]; simpl; [done|by apply Permutation_skip|done].
  - apply Forall_fmap, Forall_forall. intros [i [[]|e]] Hi; [by left|right]. exists e. split; [done|].
    apply calls_elem. exists tx. apply list_elem_of_fmap. by exists (i, Err e).
  - intros id. rewrite count_call_events. lia.
Qed.

(** An earlier attempt records the agreements and leaves the rest. *)
Lemma commit_run_retry tx n ans evs res :
  commit_run tx n (unanswered ans) evs res →
  commit_run tx (S n) ans.*1 (call_events ACommit tx ans ++ evs)
    ((uncurry commit_result <$> List.filter (λ c, is_ok c.2) ans) ++ res).
Proof.
  intros [Hc Hi Ho He Hn]. split.
  - by apply Forall_app; split; [apply is_call_events|].
  - by rewrite fmap_app, commit_result_ids, Hi, <-fmap_app, partition_ids.
  - rewrite List.filter_app, fmap_app, ok_ids_app, ok_ids_call_events, Ho. apply Permutation_app; [|done].
    clear. induction ans as [|[i [[]|e]] ans IH]; simpl; [done|by apply Permutation_skip|done].
  - apply Forall_app. split.
    + apply Forall_fmap, Forall_forall. intros [i [[]|e]] [_ ?]%list_elem_of_In%filter_In; [by left|done].
    + eapply Forall_impl; [exact He|]. intros r [?|(e & ? & ?)]; [by left|right]. exists e.
      split; [done|]. rewrite calls_app. set_solver.
  - intros id. rewrite count_calls_app, count_call_events. specialize (Hn id).
    pose proof (count_unanswered id ans). nia.
Qed.

Lemma commit_run_nil tx : commit_run tx 0 [] [] [].
Proof. by split. Qed.

Lemma commit_run_more tx n m js evs res : n ≤ m → commit_run tx n js evs res → commit_run tx m js evs res.
Proof. intros H [? ? ? ? Hn]. split; try done. intros id. specialize (Hn id). nia. Qed.

Lemma commit_attempts_spec tx left : ∀ js results w,
  ∃ evs res w', commit_attempts tx left (observed answer <$> js) results w = (Ok (results ++ res), w') ∧
    extends w evs w' ∧ commit_run tx (S left) js evs res.
Proof.
  induction left as [|left IH]; intros js results w; simpl; unfold mbind, M_bind, m_bind.
  - destruct (commit_attempt_spec tx false js results [] w) as (ans & w' & <- & Hext & ->).
    exists (call_events ACommit tx ans), (uncurry commit_result <$> ans), w'.
    assert (List.filter (λ c : ParticipantInfo * result unit string, is_ok c.2 || negb false) ans = ans) as ->.
    { clear. induction ans as [|[i []] ans IH]; simpl in *; [done|..]; f_equal; exact IH. }
    split; [by destruct (_ ++ _)|]. split; [done|]. apply commit_run_last.
  - destruct (commit_attempt_spec tx true js results [] w) as (ans & w' & <- & Hext & ->).
    assert (List.filter (λ c : ParticipantInfo * result unit string, is_ok c.2 || negb true) ans
            = List.filter (λ c, is_ok c.2) ans) as ->.
    { clear. induction ans as [|[i []] ans IH]; simpl in *; [done|f_equal|]; exact IH. }
    assert ((List.filter (λ c : ParticipantInfo * result unit string, negb (is_ok c.2) && true) ans).*1
            = unanswered ans) as ->.
    { unfold unanswered. clear. induction ans as [|[i []] ans IH]; simpl in *; [done| |f_equal]; exact IH. }
    destruct (unanswered ans) as [|j nxt] eqn:Hn.
    + eexists _, _, w'. split; [reflexivity|]. split; [exact Hext|].
      pose proof (commit_run_retry tx 0 ans [] []) as H. rewrite !app_nil_r in H.
      eapply commit_run_more; [|apply H]; [lia|]. rewrite Hn. apply commit_run_nil.
    + destruct (IH (unanswered ans) (results ++ (uncurry commit_result <$> List.filter (λ c, is_ok c.2) ans)) w')
        as (evs & res & w'' & H & Hext' & Hrun).
      rewrite Hn in H. simpl in H |- *. rewrite H, <-app_assoc. eexists _, _, w''. split; [reflexivity|].
      split; [by eapply extends_trans|]. by apply commit_run_retry.
Qed.

Lemma rollback_loop_spec tx js : ∀ errors w,
  ∃ ans errs w', rollback_loop tx (observed answer <$> js) errors w = (Ok (errors ++ errs), w') ∧
    extends w (call_events ARollback tx ans) w' ∧ ans.*1 = js ∧
    (errs = [] ↔ Forall (λ c, is_ok c.2 = true) ans).
Proof.
  induction js as [|i js IH]; intros errors w; simpl.
  { exists [], [], w. rewrite app_nil_r. split; [done|]. split; [apply extends_refl|]. split; [done|].
    by split; intros. }
  unfold mbind, M_bind, m_bind, m_try, call.
  pose proof (extends_step ARollback tx i w) as Hx. unfold call in Hx. cbn [fst snd] in Hx.
  destruct (answer (w_trace w) ARollback (info_id i)) as [[]|e] eqn:Ha.
  - edestruct (IH errors) as (ans & errs & w' & H & Hext & Hi & He).
    exists ((i, Ok tt) :: ans), errs, w'. split; [exact H|]. split; [by apply Hx|].
    split; [by rewrite fmap_cons, Hi|]. rewrite Forall_cons. naive_solver.
  - edestruct (IH (errors ++ [info_id i +:+ ": " +:+ e])) as (ans & errs & w' & H & Hext & Hi & He).
    exists ((i, Err e) :: ans), ((info_id i +:+ ": " +:+ e) :: errs), w'. split.
    + etrans; [exact H|]. by rewrite <-app_assoc.
    + split; [by apply Hx|]. split; [by rewrite fmap_cons, Hi|]. rewrite Forall_cons. naive_solver.
Qed.

Lemma rollback_phase_spec tx js w :
  ∃ ans r w', rollback_phase tx (observed answer <$> js) w = (r, w') ∧
    extends w (call_events ARollback tx ans) w' ∧ ans.*1 = js ∧
    (is_ok r = true ↔ Forall (λ c, is_ok c.2 = true) ans).
Proof.
  unfold rollback_phase, mbind, M_bind, m_bind.
  destruct (rollback_loop_spec tx js [] w) as (ans & errs & w' & -> & Hext & Hi & He). simpl.
  exists ans. destruct errs as [|e errs]; eexists _, w'; (split; [reflexivity|]);
    (split; [done|]); (split; [done|]); simpl; naive_solver.
Qed.

End Phases.

(** ** Steps that only touch the backend *)

Definition quiet {B A} (m : M (World B) A) : Prop :=
  ∀ w r w', m w = (r, w') → ∃ evs, w_trace w' = w_trace w ++ evs ∧ Forall is_save evs.

Section Quiet.
Context {B : Type} `{!StateBackend B}.

Lemma quiet_same {A} (m : M (World B) A) : (∀ w, w_trace (m w).2 = w_trace w) → quiet m.
Proof. intros H w r w' E. exists []. specialize (H w). rewrite E in H. by rewrite app_nil_r. Qed.

Lemma quiet_ret {A} (a : A) : quiet (B := B) (m_ret a).
Proof. by apply quiet_same. Qed.
Lemma quiet_err {A} e : quiet (B := B) (m_err (A := A) e).
Proof. by apply quiet_same. Qed.
Lemma quiet_lift {A} (r : result A string) : quiet (B := B) (m_lift r).
Proof. by apply quiet_same. Qed.
Lemma quiet_get {A} (f : World B → A) : quiet (m_get f).
Proof. by apply quiet_same. Qed.
Lemma quiet_backend {A} (m : M B A) : quiet (on_backend m).
Proof. apply quiet_same. intros w. unfold on_backend. by destruct (m (w_backend w)). Qed.
Lemma quiet_save k v : quiet (save (S := World B) k v).
Proof.
  intros w r w' H. simpl in H. unfold observed_save in H. destruct save as [r' b]. simplify_eq.
  exists [EvSave k v (is_ok r)]. split; [done|by repeat constructor].
Qed.
Lemma quiet_load k : quiet (load (S := World B) k).
Proof. apply quiet_backend. Qed.
Lemma quiet_cas k o n : quiet (compare_and_swap (S := World B) k o n).
Proof. apply quiet_backend. Qed.

Lemma quiet_bind {A A'} (m : M (World B) A) (f : A → M (World B) A') :
  quiet m → (∀ a, quiet (f a)) → quiet (m ≫= f).
Proof.
  intros Hm Hf w r w' H. unfold mbind, M_bind, m_bind in H. destruct (m w) as [[a|e] w1] eqn:E.
  - destruct (Hm _ _ _ E) as (e1 & H1 & S1). destruct (Hf _ _ _ _ H) as (e2 & H2 & S2).
    exists (e1 ++ e2). rewrite H2, H1, app_assoc. split; [done|by apply Forall_app].
  - simplify_eq. by eapply Hm.
Qed.

Lemma quiet_try {A} (m : M (World B) A) : quiet m → quiet (m_try m).
Proof. intros Hm w r w' H. unfold m_try in H. destruct (m w) as [r' w1] eqn:E. simplify_eq. by eapply Hm. Qed.

End Quiet.

Create HintDb quiet_db.
#[export] Hint Resolve quiet_ret quiet_err quiet_lift quiet_get quiet_save quiet_load quiet_cas quiet_try : quiet_db.

(** Follows the text of a method down to its backend calls. *)
Ltac quiet_tac :=
  repeat first
    [ progress intros
    | solve [auto with quiet_db]
    | apply quiet_bind
    | apply quiet_try
    | match goal with
      | |- quiet (match ?x with _ => _ end) => destruct x
      end ].

(** The first step of a sequence failed, or it returned and the rest ran. *)
Lemma bind_cases {S A A'} (m : M S A) (f : A → M S A') w r w' :
  (m ≫= f) w = (r, w') →
  (∃ e, m w = (Err e, w') ∧ r = Err e) ∨ (∃ a w1, m w = (Ok a, w1) ∧ f a w1 = (r, w')).
Proof. unfold mbind, M_bind, m_bind. destruct (m w) as [[a|e] w1]; naive_solver. Qed.

Section Observed.
Context {B : Type} `{!StateBackend B, !Codec StateEntry, !Codec TransactionLog}.
Context (utc_now : World B → string) (answer : Oracle).

Lemma quiet_save_log (log : TransactionLog) : quiet (save_log (S := World B) log).
Proof. unfold save_log. quiet_tac. Qed.
Lemma quiet_load_log tx : quiet (load_log (S := World B) tx).
Proof. unfold load_log. quiet_tac. Qed.
Hint Resolve quiet_save_log quiet_load_log : quiet_db.
Lemma quiet_update_status tx st : quiet (update_status utc_now tx st).
Proof. unfold update_status, ok_or. quiet_tac. Qed.
Lemma quiet_create_state k v : quiet (create_state (S := World B) k v).
Proof. unfold create_state. quiet_tac. Qed.
Lemma quiet_transition k t : quiet (transition (S := World B) k t).
Proof.
  unfold transition. induction (Datatypes.S max_retries) as [|n IH]; simpl; [quiet_tac|].
  unfold transition_read, sm_compare_and_swap_state. quiet_tac.
Qed.
Lemma quiet_new tx infos meta : quiet (TransactionLog_new utc_now tx infos meta).
Proof. unfold TransactionLog_new. quiet_tac. Qed.

Lemma update_status_logged tx st w log w' :
  update_status utc_now tx st w = (Ok log, w') →
  status log = Status.as_str st ∧
  ∃ evs, w_trace w' = w_trace w ++ evs ∧ Forall is_save evs ∧ Exists (logged st) evs.
Proof.
  unfold update_status. intros H.
  apply bind_cases in H as [(? & _ & [=])|(o & w1 & H1 & H)].
  apply quiet_load_log in H1 as (e1 & Ht1 & Hs1).
  apply bind_cases in H as [(? & _ & [=])|(log0 & w2 & H2 & H)].
  assert (w2 = w1) as -> by (destruct o; unfold ok_or, m_ret, m_err in H2; congruence).
  apply bind_cases in H as [(? & _ & [=])|(now & w3 & [= <- <-] & H)].
  apply bind_cases in H as [(? & _ & [=])|([] & w4 & H4 & [= <- <-])].
  split; [done|]. unfold save_log in H4.
  apply bind_cases in H4 as [(? & _ & [=])|(data & w5 & [= Hd <-] & H4)].
  simpl in H4. unfold observed_save in H4. destruct save as [r b]. injection H4 as -> <-. simpl.
  exists (e1 ++ [EvSave (log_key (transaction_id log0)) data true]). rewrite Ht1, app_assoc.
  split; [done|]. split; [by apply Forall_app; repeat constructor|].
  apply Exists_app. right. constructor. eexists _, data. split; [|split; [exact Hd|done]]. done.
Qed.

End Observed.
#[export] Hint Resolve quiet_save_log quiet_load_log quiet_update_status quiet_create_state
  quiet_transition quiet_new : quiet_db.

(** ** The shape of every run of [execute] *)

Section Shape.
Context {B : Type} `{!StateBackend B, !Codec StateEntry, !Codec TransactionLog}.
Context (utc_now : World B → string) (answer : Oracle).

(** Saves, then at most one pass of rollbacks, then saves. *)
Definition rollback_shape (tx : string) (js : list ParticipantInfo) (evs : list Event) : Prop :=
  ∃ s1 rb s2, evs = s1 ++ call_events ARollback tx rb ++ s2 ∧ Forall is_save s1 ∧ Forall is_save s2 ∧
    (rb = [] ∨ rb.*1 = js).

Lemma rollback_shape_saves tx js s : Forall is_save s → rollback_shape tx js s.
Proof. intros H. exists s, [], []. rewrite app_nil_r. by repeat split; auto. Qed.

(** The common end of both failing branches. *)
Lemma fail_shape tx js st (msg : TransactionLog → string) w r w' :
  (update_status utc_now tx Status.RollingBack ≫= λ _,
   m_try (rollback_phase tx (observed answer <$> js)) ≫= λ _,
   update_status utc_now tx st ≫= λ log,
   m_try (transition (state_name tx) Failed) ≫= λ _, m_err (A := TransactionLog) (msg log)) w = (r, w') →
  is_ok r = false ∧ ∃ evs, w_trace w' = w_trace w ++ evs ∧ rollback_shape tx js evs.
Proof.
  intros H. apply bind_cases in H as [(e & H & ->)|(log & w1 & H1 & H)].
  { split; [done|]. apply quiet_update_status in H as (s1 & Ht & Hs).
    exists s1. split; [done|]. by apply rollback_shape_saves. }
  apply quiet_update_status in H1 as (s1 & Ht1 & Hs1).
  destruct (rollback_phase_spec answer tx js w1) as (rb & r1 & w2 & Hr & [_ Ht2] & Hj & _).
  unfold mbind at 1, M_bind, m_bind, m_try at 1 in H. rewrite Hr in H.
  assert (quiet (update_status utc_now tx st ≫= λ log,
    m_try (transition (state_name tx) Failed) ≫= λ _, m_err (A := TransactionLog) (msg log))) as Hq by quiet_tac.
  pose proof (Hq _ _ _ H) as (s2 & Ht3 & Hs2). split.
  - destruct r as [a|]; [exfalso|done]. apply bind_cases in H as [(? & _ & [=])|(? & ? & _ & H)].
    by apply bind_cases in H as [(? & _ & [=])|(? & ? & _ & [=])].
  - exists (s1 ++ call_events ARollback tx rb ++ s2). rewrite Ht3, Ht2, Ht1, <-!app_assoc. split; [done|].
    exists s1, rb, s2. auto.
Qed.

Lemma failed_or_not {A} (r : result A string) : is_ok r = true ∨ is_ok r = false.
Proof. destruct is_ok; auto. Qed.

Lemma all_committed_ids js tx n evs res :
  commit_run tx n js evs res → all_committed (observed (B := B) answer <$> js) res = true →
  ok_ids evs ≡ₚ info_id <$> js.
Proof.
  intros [_ Hi Ho _ _] Hall. unfold all_committed in Hall. apply orb_true_iff in Hall as [H|[_ H]%andb_true_iff].
  - destruct js; [|done]. rewrite <-Ho. apply Permutation_nil_r, fmap_nil_inv in Hi. by rewrite Hi.
  - rewrite <-Ho, <-Hi. assert (List.filter committed res = res) as ->; [|done].
    clear -H. induction res as [|r res IH]; [done|]. simpl in H. apply andb_true_iff in H as [H1 H2].
    simpl. rewrite H1. f_equal. by apply IH.
Qed.

(** What follows the prepares when every participant agreed. *)
Definition commit_shape (tx : string) (js : list ParticipantInfo) (tail : list Event)
    (r : result TransactionLog string) : Prop :=
  ∃ s1 cm evs, tail = s1 ++ cm ++ evs ∧ Forall is_save s1 ∧
    Forall (is_call ACommit) cm ∧ (∀ id, count_calls ACommit id cm ≤ 3 * count_ids id js) ∧
    (cm ≠ [] → Exists (logged Committing) s1) ∧
    match r with
    | Ok log => ok_ids cm ≡ₚ info_id <$> js ∧ status log = Status.as_str Committed ∧
                Forall is_save evs ∧ Exists (logged Committed) evs
    | Err _ => rollback_shape tx js evs
    end.

Lemma execute_commit_shape tx js w r w' :
  execute_commit utc_now tx (observed answer <$> js) w = (r, w') →
  ∃ tail, w_trace w' = w_trace w ++ tail ∧ commit_shape tx js tail r.
Proof.
  unfold execute_commit. intros H. apply bind_cases in H as [(e & H & ->)|(log & w1 & H1 & H)].
  { apply quiet_update_status in H as (s1 & Ht & Hs). exists s1. split; [done|].
    exists s1, [], []. rewrite app_nil_r. do 4 (split; [first [done|by auto using Nat.le_0_l|intros; simpl; lia]|]). split; [done|]. by apply rollback_shape_saves. }
  apply update_status_logged in H1 as (_ & s1 & Ht1 & Hs1 & Hl1).
  destruct (commit_attempts_spec answer tx 2 js [] w1) as (cm & res & w2 & Hc & [_ Ht2] & Hrun).
  apply bind_cases in H as [(e & Hcm & ->)|(res' & w2' & Hcm & H)];
    unfold commit_phase in Hcm; rewrite Hc in Hcm; [done|]. injection Hcm as <- <-. simpl in H.
  pose proof Hrun as [Hcalls _ _ _ Hcount]. destruct (all_committed _ res) eqn:Hall.
  - eapply all_committed_ids in Hall; [|exact Hrun].
    apply bind_cases in H as [(e & H & ->)|(log' & w3 & H3 & H)].
    + apply quiet_update_status in H as (s2 & Ht & Hs). exists (s1 ++ cm ++ s2).
      rewrite Ht, Ht2, Ht1, <-!app_assoc. split; [done|]. exists s1, cm, s2. repeat (split; [by auto|]). by apply rollback_shape_saves.
    + apply update_status_logged in H3 as (Hst & s2 & Ht3 & Hs2 & Hl2).
      apply bind_cases in H as [(e & H & ->)|(r4 & w4 & H4 & [= <- <-])].
      { unfold m_try in H. by destruct (transition _ _ w3). }
      apply quiet_try in H4 as (s3 & Ht4 & Hs3); [|apply quiet_transition].
      exists (s1 ++ cm ++ s2 ++ s3). rewrite Ht4, Ht3, Ht2, Ht1, <-!app_assoc. split; [done|].
      exists s1, cm, (s2 ++ s3). repeat (split; [by auto|]).
      split; [by apply Forall_app|]. apply Exists_app. by left.
  - apply fail_shape in H as (Hr & evs & Ht & Hshape). exists (s1 ++ cm ++ evs).
    rewrite Ht, Ht2, Ht1, <-!app_assoc. split; [done|]. exists s1, cm, evs. repeat (split; [by auto|]). by destruct r.
Qed.

Definition execute_shape (tx : string) (js : list ParticipantInfo) (evs : list Event)
    (r : result TransactionLog string) : Prop :=
  ∃ s0 ans tail, evs = s0 ++ call_events APrepare tx ans ++ tail ∧ Forall is_save s0 ∧
    ((Forall is_save tail ∧ is_ok r = false) ∨
     (is_ok r = false ∧ rollback_shape tx js tail ∧ ∃ i e, (i, Err e) ∈ ans) ∨
     (ans = (λ i, (i, Ok tt)) <$> js ∧ ∃ s1 tail', tail = s1 ++ tail' ∧ Forall is_save s1 ∧
        commit_shape tx js tail' r)).

Lemma execute_shape_early tx js evs r : Forall is_save evs → is_ok r = false → execute_shape tx js evs r.
Proof. intros Hs Hr. exists evs, [], []. rewrite app_nil_r. auto. Qed.

(** Up to the votes. *)
Lemma prepare_phase_shape tx js w r w' :
  prepare_phase utc_now tx (observed answer <$> js) w = (r, w') →
  ∃ s0 ans s1, w_trace w' = w_trace w ++ s0 ++ call_events APrepare tx ans ++ s1 ∧
    Forall is_save s0 ∧ Forall is_save s1 ∧
    match r with
    | Ok votes => if forallb vote votes then ans = (λ i, (i, Ok tt)) <$> js
                  else s1 = [] ∧ ∃ i e, (i, Err e) ∈ ans
    | Err _ => True
    end.
Proof.
  unfold prepare_phase. intros H. apply bind_cases in H as [(e & H & ->)|(log & w1 & H1 & H)].
  { apply quiet_update_status in H as (s0 & Ht & Hs). exists s0, [], []. by rewrite app_nil_r. }
  apply quiet_update_status in H1 as (s0 & Ht1 & Hs1).
  destruct (prepare_loop_spec answer tx js [] w1) as (ans & res & b & w2 & Hl & [_ Ht2] & Hv & Hb).
  unfold mbind at 1, M_bind, m_bind in H. rewrite Hl in H. exists s0, ans. destruct b.
  - apply bind_cases in H as [(e & H & ->)|(log' & w3 & H3 & [= <- <-])].
    + apply quiet_update_status in H as (s1 & Ht & Hs). exists s1. by rewrite Ht, Ht2, Ht1, <-!app_assoc.
    + apply quiet_update_status in H3 as (s1 & Ht & Hs). exists s1.
      rewrite Ht, Ht2, Ht1, <-!app_assoc. simpl. by rewrite Hv.
  - injection H as <- <-. exists []. rewrite app_nil_r, Ht2, Ht1, <-app_assoc. simpl. rewrite Hv.
    repeat (split; [done|]). destruct Hb as (js1 & i & js2 & e & _ & ->). exists i, e. set_solver.
Qed.

Lemma execute_run_shape tx js meta w r w' :
  execute utc_now tx (observed answer <$> js) meta w = (r, w') →
  ∃ evs, w_trace w' = w_trace w ++ evs ∧ execute_shape tx js evs r.
Proof.
  unfold execute. intros H. apply bind_cases in H as [(e & H & ->)|(log & w1 & H1 & H)].
  { apply (quiet_new utc_now) in H as (s & Ht & Hs). exists s. auto using execute_shape_early. }
  apply (quiet_new utc_now) in H1 as (s1 & Ht1 & Hs1).
  apply bind_cases in H as [(e & H & ->)|([] & w2 & H2 & H)].
  { apply quiet_save_log in H as (s & Ht & Hs). exists (s1 ++ s). rewrite Ht, Ht1, <-app_assoc.
    split; [done|]. apply execute_shape_early; [by apply Forall_app|done]. }
  apply quiet_save_log in H2 as (s2 & Ht2 & Hs2).
  apply bind_cases in H as [(e & H & ->)|(entry & w3 & H3 & H)].
  { apply quiet_create_state in H as (s & Ht & Hs). exists (s1 ++ s2 ++ s). rewrite Ht, Ht2, Ht1, <-!app_assoc.
    split; [done|]. apply execute_shape_early; [by rewrite !Forall_app|done]. }
  apply quiet_create_state in H3 as (s3 & Ht3 & Hs3).
  assert (Forall is_save (s1 ++ s2 ++ s3)) as Hs by by rewrite !Forall_app.
  apply bind_cases in H as [(e & H & ->)|(votes & w4 & H4 & H)].
  { apply prepare_phase_shape in H as (s4 & ans & s5 & Ht & Hs4 & Hs5 & _).
    exists ((s1 ++ s2 ++ s3 ++ s4) ++ call_events APrepare tx ans ++ s5).
    rewrite Ht, Ht3, Ht2, Ht1, <-!app_assoc. split; [done|].
    exists (s1 ++ s2 ++ s3 ++ s4), ans, s5. rewrite <-!app_assoc. split; [done|].
    split; [by rewrite !Forall_app in *; intuition|]. by left. }
  apply prepare_phase_shape in H4 as (s4 & ans & s5 & Ht4 & Hs4 & Hs5 & Hans).
  destruct (forallb vote votes) eqn:Hv.
  - apply execute_commit_shape in H as (tail & Ht & Hshape).
    exists ((s1 ++ s2 ++ s3 ++ s4) ++ call_events APrepare tx ans ++ s5 ++ tail).
    rewrite Ht, Ht4, Ht3, Ht2, Ht1, <-!app_assoc. split; [done|].
    exists (s1 ++ s2 ++ s3 ++ s4), ans, (s5 ++ tail). rewrite <-!app_assoc. split; [done|].
    split; [by rewrite !Forall_app in *; intuition|]. right; right. split; [done|]. by exists s5, tail.
  - destruct Hans as [-> Hrefused]. apply fail_shape in H as (Hr & tail & Ht & Hshape).
    exists ((s1 ++ s2 ++ s3 ++ s4) ++ call_events APrepare tx ans ++ tail).
    rewrite Ht, Ht4, Ht3, Ht2, Ht1, app_nil_r, <-!app_assoc. split; [done|].
    exists (s1 ++ s2 ++ s3 ++ s4), ans, tail. rewrite <-!app_assoc. split; [done|].
    split; [by rewrite !Forall_app in *; intuition|]. right; left. auto.
Qed.

End Shape.

(** ** Runs on a reliable backend *)

Section ReliableRuns.
Context {B : Type} `{Reliable B, !Codec StateEntry, !CodecOk StateEntry,
                     !Codec TransactionLog, !CodecOk TransactionLog}.
Context (utc_now : World B → string) (answer : Oracle).
Implicit Types (w : World B) (log : TransactionLog) (js : list ParticipantInfo).

Definition begin_metadata : Value := Object [("phase", VString "begin")].

(** The entry kept under a key. *)
Definition stored {A} `{!Codec A} (key : string) (a : A) w : Prop :=
  ∃ data, view (w_backend w) !! key = Some data ∧ from_slice data = Ok a.

Definition has_log tx log w : Prop :=
  up (w_backend w) ∧ transaction_id log = tx ∧ stored (log_key tx) log w.

(** The world in the middle of a transaction: its log, and its state entry
    still as [create_state] left it. *)
Definition tracked tx log w : Prop :=
  has_log tx log w ∧
  stored (state_key (state_name tx)) (mk_entry (state_name tx) (as_str Created) 1 begin_metadata) w.

Definition with_status log (st : TransactionStatus) (now : string) : TransactionLog :=
  mk_log (transaction_id log) (Status.as_str st) (participants log) (created_at log) now (log_metadata log).

Lemma keys_differ tx : log_key tx ≠ state_key (state_name tx).
Proof. by unfold log_key, state_key, state_name. Qed.

Lemma reliable_save key value w :
  up (w_backend w) → ∃ w', save key value w = (Ok tt, w') ∧ up (w_backend w') ∧
    view (w_backend w') = <[key := value]> (view (w_backend w)) ∧ w_trace w' = w_trace w ++ [EvSave key value true].
Proof.
  intros Hup. destruct (up_save key value (w_backend w) Hup) as (b & Hs & Hup').
  simpl. unfold observed_save. rewrite Hs. eexists. split; [reflexivity|]. split; [done|].
  apply save_spec in Hs. done.
Qed.

Lemma reliable_load key w :
  up (w_backend w) → ∃ w', load key w = (Ok (view (w_backend w) !! key), w') ∧ up (w_backend w') ∧
    view (w_backend w') = view (w_backend w) ∧ w_trace w' = w_trace w.
Proof.
  intros Hup. destruct (up_load key (w_backend w) Hup) as (b & Hs & Hup').
  simpl. unfold on_backend. rewrite Hs. eexists. split; [reflexivity|]. split; [done|].
  apply load_spec in Hs as [Hv _]. done.
Qed.

Lemma stored_view {A} `{!Codec A} key (a : A) w w' :
  view (w_backend w') = view (w_backend w) → stored key a w → stored key a w'.
Proof. intros Hv (data & ? & ?). exists data. by rewrite Hv. Qed.

Lemma has_log_same tx log w w' :
  up (w_backend w') → view (w_backend w') = view (w_backend w) → has_log tx log w → has_log tx log w'.
Proof. intros Hup Hv (_ & Htx & ?). split; [done|]. split; [done|]. by eapply stored_view. Qed.

Lemma has_log_extends tx log w evs w' : extends w evs w' → has_log tx log w → has_log tx log w'.
Proof. intros [Hb _] Hl. eapply has_log_same; [| |exact Hl]; rewrite Hb; [apply Hl|done]. Qed.

Lemma tracked_extends tx log w evs w' : extends w evs w' → tracked tx log w → tracked tx log w'.
Proof.
  intros Hext [Hl Hs]. split; [by eapply has_log_extends|]. destruct Hext as [Hb _].
  eapply stored_view; [|exact Hs]. by rewrite Hb.
Qed.

Lemma load_log_run tx log w :
  up (w_backend w) → stored (log_key tx) log w →
  ∃ w', load_log tx w = (Ok (Some log), w') ∧ up (w_backend w') ∧
    view (w_backend w') = view (w_backend w) ∧ w_trace w' = w_trace w.
Proof.
  intros Hup (data & Hv & Hd). unfold load_log, mbind, M_bind, m_bind.
  destruct (reliable_load (log_key tx) w Hup) as (w1 & -> & Hup1 & Hv1 & Ht1). rewrite Hv.
  unfold m_lift. rewrite Hd. by exists w1.
Qed.

Lemma update_status_log tx log st w :
  has_log tx log w →
  ∃ now s w', update_status utc_now tx st w = (Ok (with_status log st now), w') ∧
    has_log tx (with_status log st now) w' ∧ w_trace w' = w_trace w ++ s ∧ Forall is_save s ∧
    (∀ k, k ≠ log_key tx → view (w_backend w') !! k = view (w_backend w) !! k).
Proof.
  intros (Hup & <- & Hlog). unfold update_status, mbind, M_bind, m_bind.
  destruct (load_log_run _ log w Hup Hlog) as (w1 & -> & Hup1 & Hv1 & Ht1). simpl.
  exists (utc_now w1). set (log' := with_status log st (utc_now w1)).
  destruct (to_vec_total log') as [data Hd]. unfold save_log, mbind, M_bind, m_bind.
  unfold m_lift. unfold log' in Hd. unfold with_status in Hd. rewrite Hd.
  destruct (reliable_save (log_key (transaction_id log)) data w1 Hup1) as (w2 & Hs & Hup2 & Hv2 & Ht2).
  simpl transaction_id. rewrite Hs. eexists [_], w2.
  split; [done|]. split; [|split; [by rewrite Ht2, Ht1|split; [by repeat constructor|]]].
  - split; [done|]. split; [done|].
    exists data. rewrite Hv2, lookup_insert_eq. split; [done|]. by apply from_to_vec.
  - intros k Hk. by rewrite Hv2, lookup_insert_ne, Hv1.
Qed.

Lemma update_status_run tx log st w :
  tracked tx log w →
  ∃ now s w', update_status utc_now tx st w = (Ok (with_status log st now), w') ∧
    tracked tx (with_status log st now) w' ∧ w_trace w' = w_trace w ++ s ∧ Forall is_save s.
Proof.
  intros [Hl (data & Hv & Hd)].
  destruct (update_status_log tx log st w Hl) as (now & s & w' & Hu & Hl' & Ht & Hs & Hother).
  exists now, s, w'. repeat (split; [done|]). split; [|done]. split; [done|].
  exists data. split; [|done]. rewrite Hother; [done|]. apply not_eq_sym, keys_differ.
Qed.

(** The state machine refuses to leave [Created] for a final state. *)
Lemma transition_refused tx log to w :
  tracked tx log w → is_valid_transition Created to = false →
  ∃ e w', transition (state_name tx) to w = (Err e, w') ∧ tracked tx log w' ∧ w_trace w' = w_trace w.
Proof.
  intros Htr Hto. pose proof Htr as [(Hup & Hlog) (data & Hl & Hf)].
  destruct (reliable_load (state_key (state_name tx)) w Hup) as (w1 & Hload & Hup1 & Hv1 & Ht1).
  unfold transition. simpl transition_loop. unfold transition_read, mbind, M_bind, m_bind at 1 2.
  rewrite Hload, Hl. unfold m_bind, m_lift. rewrite Hf. simpl. rewrite Hto. eexists _, w1.
  split; [reflexivity|]. split; [|done]. destruct Htr as [H1 H2].
  split; [by eapply has_log_same|by eapply stored_view].
Qed.

(** The common end of the failing branches. *)
Lemma fail_run tx log js st (msg : TransactionLog → string) w :
  tracked tx log w →
  ∃ e evs now w',
    (update_status utc_now tx Status.RollingBack ≫= λ _,
     m_try (rollback_phase tx (observed answer <$> js)) ≫= λ _,
     update_status utc_now tx st ≫= λ log,
     m_try (transition (state_name tx) Failed) ≫= λ _, m_err (A := TransactionLog) (msg log)) w = (Err e, w') ∧
    w_trace w' = w_trace w ++ evs ∧ tracked tx (with_status log st now) w' ∧
    (calls ARollback evs).*1 = info_id <$> js ∧ calls ACommit evs = [] ∧ calls APrepare evs = [].
Proof.
  intros Htr. unfold mbind, M_bind, m_bind, m_try.
  destruct (update_status_run tx log Status.RollingBack w Htr) as (now1 & s1 & w1 & -> & Htr1 & Ht1 & Hs1).
  destruct (rollback_phase_spec answer tx js w1) as (rb & r & w2 & -> & Hext & Hj & _).
  pose proof (tracked_extends _ _ _ _ _ Hext Htr1) as Htr2.
  destruct (update_status_run tx _ st w2 Htr2) as (now3 & s3 & w3 & -> & Htr3 & Ht3 & Hs3).
  destruct (transition_refused tx _ Failed w3 Htr3) as (e & w4 & -> & Htr4 & Ht4); [done|].
  eexists _, (s1 ++ call_events ARollback tx rb ++ s3), now3, w4. split; [reflexivity|].
  split; [destruct Hext as [_ Ht2]; by rewrite Ht4, Ht3, Ht2, Ht1, <-!app_assoc|]. split; [done|].
  rewrite !calls_app, !calls_call_events, !(calls_saves _ s1), !(calls_saves _ s3) by done. simpl.
  rewrite app_nil_r. split; [|done]. rewrite <-Hj, <-!list_fmap_compose. by apply list_fmap_ext; intros ? [].
Qed.

(** The two writes before the votes. *)
Lemma begin_run tx js meta w (k : M (World B) TransactionLog) :
  up (w_backend w) →
  ∃ log s w', (_ ← TransactionLog_new utc_now tx js meta ≫= save_log;
               _ ← create_state (state_name tx) begin_metadata; k) w = k w' ∧
    tracked tx log w' ∧ participants log = js ∧ log_metadata log = meta ∧
    w_trace w' = w_trace w ++ s ∧ Forall is_save s.
Proof.
  intros Hup. unfold TransactionLog_new, save_log, create_state, mbind, M_bind, m_bind, m_get, m_ret, m_lift.
  set (log := mk_log tx _ _ _ _ _). destruct (to_vec_total log) as [data Hd]. rewrite Hd. simpl transaction_id.
  destruct (reliable_save (log_key tx) data w Hup) as (w1 & -> & Hup1 & Hv1 & Ht1).
  set (entry := mk_entry _ _ _ _). destruct (to_vec_total entry) as [edata He]. rewrite He.
  destruct (reliable_save (state_key (state_name tx)) edata w1 Hup1) as (w2 & -> & Hup2 & Hv2 & Ht2).
  exists log, [EvSave (log_key tx) data true; EvSave (state_key (state_name tx)) edata true], w2.
  split; [done|]. split.
  - split; [split; [done|]; split; [done|]|].
    + exists data. rewrite Hv2, lookup_insert_ne by (symmetry; apply keys_differ).
      rewrite Hv1, lookup_insert_eq. split; [done|by apply from_to_vec].
    + exists edata. rewrite Hv2, lookup_insert_eq. split; [done|by apply from_to_vec].
  - split; [done|]. split; [done|]. rewrite Ht2, Ht1, <-app_assoc. split; [done|by repeat constructor].
Qed.

Lemma execute_begin tx js meta w :
  execute utc_now tx (observed answer <$> js) meta w =
  (_ ← TransactionLog_new utc_now tx js meta ≫= save_log;
   _ ← create_state (state_name tx) begin_metadata;
   vote_results ← prepare_phase utc_now tx (observed answer <$> js);
   if forallb vote vote_results then execute_commit utc_now tx (observed answer <$> js)
   else execute_refused utc_now tx (observed answer <$> js) vote_results) w.
Proof.
  unfold execute. rewrite <-list_fmap_compose.
  assert ((λ p : Participant (World B), mk_info (p_id p) (p_name p) (p_role p)) ∘ observed answer <$> js = js) as ->.
  { etrans; [|apply list_fmap_id]. apply list_fmap_ext. by intros ? []. }
  unfold mbind, M_bind, m_bind. by destruct (TransactionLog_new utc_now tx js meta w) as [[log|e] w1].
Qed.

(** A call of one participant, answered by the oracle. *)
Lemma call_events_ok a tx js : calls a (call_events a tx ((λ i, (i, Ok tt)) <$> js)) = (λ i, (info_id i, Ok tt)) <$> js.
Proof. rewrite calls_call_events, bool_decide_eq_true_2, <-list_fmap_compose by done. done. Qed.

Lemma prepare_phase_run tx log js w :
  tracked tx log w →
  ∃ votes evs log' w', prepare_phase utc_now tx (observed answer <$> js) w = (Ok votes, w') ∧
    tracked tx log' w' ∧ participants log' = participants log ∧ log_metadata log' = log_metadata log ∧
    w_trace w' = w_trace w ++ evs ∧ calls ACommit evs = [] ∧ calls ARollback evs = [].
Proof.
  intros Htr. unfold prepare_phase, mbind, M_bind, m_bind.
  destruct (update_status_run tx log Preparing w Htr) as (now1 & s1 & w1 & -> & Htr1 & Ht1 & Hs1).
  destruct (prepare_loop_spec answer tx js [] w1) as (ans & res & b & w2 & -> & Hext & Hv & Hb).
  pose proof (tracked_extends _ _ _ _ _ Hext Htr1) as Htr2. destruct Hext as [_ Ht2]. simpl.
  destruct b.
  - destruct (update_status_run tx _ Prepared w2 Htr2) as (now3 & s3 & w3 & -> & Htr3 & Ht3 & Hs3).
    exists res, (s1 ++ call_events APrepare tx ans ++ s3). eexists _, w3.
    split; [reflexivity|]. split; [exact Htr3|]. do 2 (split; [done|]).
    split; [by rewrite Ht3, Ht2, Ht1, <-!app_assoc|].
    rewrite !calls_app, !calls_call_events, !(calls_saves _ s1), !(calls_saves _ s3) by done. simpl.
    done.
  - exists res, (s1 ++ call_events APrepare tx ans). eexists _, w2.
    split; [reflexivity|]. split; [exact Htr2|]. do 2 (split; [done|]).
    split; [by rewrite Ht2, Ht1, <-!app_assoc|].
    rewrite !calls_app, !calls_call_events, !(calls_saves _ s1) by done.
    done.
Qed.

(** What the last status of a log says about the calls of the run. *)
Definition truthful (js : list ParticipantInfo) (log : TransactionLog) (evs : list Event)
    (r : result TransactionLog string) : Prop :=
  match r with
  | Ok log' => log' = log ∧ status log = "committed" ∧ ok_ids evs ≡ₚ info_id <$> js ∧ calls ARollback evs = []
  | Err _ => (calls ARollback evs).*1 = info_id <$> js ∧
             (status log = "rolled_back" ∧ ok_ids evs = [] ∨ status log = "mixed" ∧ ok_ids evs ≠ [])
  end.

Lemma failed_status_ids tx n js evs res :
  commit_run tx n js evs res →
  failed_status res = RolledBack ∧ ok_ids evs = [] ∨ failed_status res = Mixed ∧ ok_ids evs ≠ [].
Proof.
  intros [_ _ Ho _ _]. unfold failed_status. destruct (existsb committed res) eqn:Hc; [right|left]; (split; [done|]).
  - apply existsb_exists in Hc as (r & Hin & Hr). intros Hn. rewrite Hn in Ho. symmetry in Ho.
    apply Permutation_nil_l, symmetry, fmap_nil_inv in Ho.
    assert (r ∈ List.filter committed res) as Hf by (apply list_elem_of_In, filter_In; auto).
    rewrite Ho in Hf. set_solver.
  - assert (List.filter committed res = []) as Hf; [|by rewrite Hf in Ho; apply Permutation_nil_l in Ho].
    clear -Hc. induction res as [|r res IH]; [done|]. simpl in *. destruct (committed r); [done|by apply IH].
Qed.

Lemma execute_commit_run tx log js w :
  tracked tx log w →
  ∃ r log' evs w', execute_commit utc_now tx (observed answer <$> js) w = (r, w') ∧
    w_trace w' = w_trace w ++ evs ∧ tracked tx log' w' ∧ participants log' = participants log ∧
    log_metadata log' = log_metadata log ∧ calls APrepare evs = [] ∧ truthful js log' evs r.
Proof.
  intros Htr. unfold execute_commit.
  destruct (update_status_run tx log Committing w Htr) as (now1 & s1 & w1 & Hu1 & Htr1 & Ht1 & Hs1).
  destruct (commit_attempts_spec answer tx 2 js [] w1) as (cm & res & w2 & Hc & Hext & Hrun).
  pose proof (tracked_extends _ _ _ _ _ Hext Htr1) as Htr2. destruct Hext as [_ Ht2].
  unfold mbind at 1 2, M_bind, m_bind. rewrite Hu1. unfold commit_phase. rewrite Hc.
  change ([] ++ res) with res. cbn match.
  pose proof Hrun as [Hcm _ _ _ _]. destruct (all_committed (observed (B := B) answer <$> js) res) eqn:Hall.
  - eapply all_committed_ids in Hall; [|exact Hrun].
    destruct (update_status_run tx _ Committed w2 Htr2) as (now3 & s3 & w3 & Hu3 & Htr3 & Ht3 & Hs3).
    destruct (transition_refused tx _ Completed w3 Htr3) as (e & w4 & Hx & Htr4 & Ht4); [done|].
    unfold mbind, M_bind, m_bind, m_try. rewrite Hu3, Hx. eexists _, _, (s1 ++ cm ++ s3), w4.
    split; [reflexivity|]. split; [by rewrite Ht4, Ht3, Ht2, Ht1, <-!app_assoc|]. split; [exact Htr4|].
    do 2 (split; [done|]). unfold truthful, ok_ids in *.
    rewrite !calls_app, !(calls_saves _ s1), !(calls_saves _ s3) by done.
    rewrite (calls_other ACommit APrepare cm), (calls_other ACommit ARollback cm) by done.
    simpl. rewrite app_nil_r. done.
  - destruct (fail_run tx _ js (failed_status res)
      (λ log, "Commit phase failed: " +:+ failures res +:+ ". Status: " +:+ status log) w2 Htr2)
      as (e & evs & now3 & w3 & Hf & Ht3 & Htr3 & Hrb & Hnc & Hnp).
    eexists _, _, (s1 ++ cm ++ evs), w3. split; [exact Hf|].
    split; [by rewrite Ht3, Ht2, Ht1, <-!app_assoc|]. split; [exact Htr3|].
    do 2 (split; [done|]). unfold truthful, ok_ids. rewrite !calls_app, !(calls_saves _ s1) by done.
    rewrite (calls_other ACommit APrepare cm), (calls_other ACommit ARollback cm), Hnc, Hnp by done. split; [done|]. split; [done|].
    simpl. rewrite app_nil_r.
    destruct (failed_status_ids tx _ js cm res Hrun) as [[-> Hids]|[-> Hids]]; [by left|by right].
Qed.

Lemma execute_refused_run tx log js votes w :
  tracked tx log w →
  ∃ r log' evs w', execute_refused utc_now tx (observed answer <$> js) votes w = (r, w') ∧
    w_trace w' = w_trace w ++ evs ∧ tracked tx log' w' ∧ participants log' = participants log ∧
    log_metadata log' = log_metadata log ∧ calls APrepare evs = [] ∧ truthful js log' evs r.
Proof.
  intros Htr. destruct (fail_run tx log js RolledBack (λ log, "Prepare phase failed: participants did not agree. Rejections: [" +:+ rejections votes
         +:+ "]. Status: " +:+ status log) w Htr)
      as (e & evs & now & w' & Hf & Ht & Htr' & Hrb & Hnc & Hnp).
  eexists _, _, evs, w'. split; [exact Hf|]. split; [done|]. split; [exact Htr'|].
  do 3 (split; [done|]). split; [done|]. left. unfold ok_ids. by rewrite Hnc.
Qed.

(** Everything [execute] does on a reliable backend. *)
Lemma execute_run tx js meta w :
  up (w_backend w) →
  ∃ r log evs w', execute utc_now tx (observed answer <$> js) meta w = (r, w') ∧
    w_trace w' = w_trace w ++ evs ∧ tracked tx log w' ∧ participants log = js ∧ log_metadata log = meta ∧
    truthful js log evs r.
Proof.
  intros Hup. rewrite execute_begin.
  edestruct (begin_run tx js meta w) as (log & s & w1 & -> & Htr & Hp & Hm & Ht & Hs); [done|].
  unfold mbind, M_bind, m_bind.
  destruct (prepare_phase_run tx log js w1 Htr)
    as (votes & evs1 & log1 & w2 & -> & Htr1 & Hp1 & Hm1 & Ht1 & Hc1 & Hr1).
  assert (∀ r log2 evs2 w3, truthful js log2 evs2 r → w_trace w3 = w_trace w2 ++ evs2 →
    w_trace w3 = w_trace w ++ s ++ evs1 ++ evs2 ∧ truthful js log2 (s ++ evs1 ++ evs2) r) as Hglue.
  { intros r log2 evs2 w3 Htruth Ht3. split; [by rewrite Ht3, Ht1, Ht, <-!app_assoc|].
    unfold truthful, ok_ids in *. by rewrite !calls_app, !(calls_saves _ s), Hc1, Hr1 by done. }
  destruct (forallb vote votes);
    [destruct (execute_commit_run tx log1 js w2 Htr1)
       as (r & log2 & evs2 & w3 & -> & Ht2 & Htr2 & Hp2 & Hm2 & _ & Htruth)
    |destruct (execute_refused_run tx log1 js votes w2 Htr1)
       as (r & log2 & evs2 & w3 & -> & Ht2 & Htr2 & Hp2 & Hm2 & _ & Htruth)];
    destruct (Hglue _ _ _ _ Htruth Ht2) as [Ht3 Htruth'];
    exists r, log2, (s ++ evs1 ++ evs2), w3; repeat (split; [done || congruence|]); done.
Qed.


(** [recover], by the status it finds. *)
Definition recovered js log (evs : list Event) (r : result TransactionLog string) log' : Prop :=
  match Status.from_str (status log) with
  | Committed | RolledBack | Mixed => r = Ok log ∧ evs = [] ∧ log' = log
  | Unknown => is_ok r = false ∧ evs = [] ∧ log' = log
  | Preparing | Prepared | Status.RollingBack =>
      calls ACommit evs = [] ∧ (calls ARollback evs).*1 = info_id <$> js ∧
      if forallb (λ c, is_ok c.2) (calls ARollback evs)
      then r = Ok log' ∧ status log' = "rolled_back"
      else is_ok r = false ∧ log' = log
  | Committing =>
      (∀ id, count_calls ACommit id evs ≤ 3 * count_ids id js) ∧
      ((r = Ok log' ∧ status log' = "committed" ∧ ok_ids evs ≡ₚ info_id <$> js ∧ calls ARollback evs = []) ∨
       (is_ok r = false ∧ (calls ARollback evs).*1 = info_id <$> js ∧
        if forallb (λ c, is_ok c.2) (calls ARollback evs)
        then status log' = (if bool_decide (ok_ids evs = []) then "rolled_back" else "mixed")
        else log' = log))
  end.

Lemma calls_rollback tx rb js : rb.*1 = js → (calls ARollback (call_events ARollback tx rb)).*1 = info_id <$> js.
Proof.
  intros <-. rewrite calls_call_events, bool_decide_eq_true_2, <-!list_fmap_compose by done.
  apply list_fmap_ext. by intros ? [].
Qed.

Lemma rollback_answers tx rb (r : result unit string) :
  (is_ok r = true ↔ Forall (λ c : ParticipantInfo * result unit string, is_ok c.2 = true) rb) →
  forallb (λ c, is_ok c.2) (calls ARollback (call_events ARollback tx rb)) = is_ok r.
Proof.
  intros Hr. rewrite calls_call_events, bool_decide_eq_true_2 by done. apply eq_bool_prop_intro.
  rewrite !Is_true_true, Hr. clear Hr. induction rb as [|[i [[]|e]] rb IH]; simpl; [by split|..].
  - rewrite Forall_cons. tauto.
  - rewrite Forall_cons. split; [done|by intros [? _]].
Qed.

(** The rollback branches of [recover]. *)
Lemma recover_rollback tx log js w :
  has_log tx log w →
  ∃ evs r log' w', (_ ← rollback_phase tx (observed answer <$> js); update_status utc_now tx RolledBack) w = (r, w') ∧
    w_trace w' = w_trace w ++ evs ∧ has_log tx log' w' ∧ calls APrepare evs = [] ∧ calls ACommit evs = [] ∧
    (calls ARollback evs).*1 = info_id <$> js ∧
    if forallb (λ c, is_ok c.2) (calls ARollback evs)
    then r = Ok log' ∧ status log' = "rolled_back" else is_ok r = false ∧ log' = log.
Proof.
  intros Hl. unfold mbind, M_bind, m_bind.
  destruct (rollback_phase_spec answer tx js w) as (rb & r & w1 & -> & Hext & Hj & Hr).
  pose proof (has_log_extends _ _ _ _ _ Hext Hl) as Hl1. destruct Hext as [_ Ht1].
  pose proof (rollback_answers tx rb r Hr) as Hall. pose proof (calls_rollback tx rb js Hj) as Hids.
  destruct r as [[]|e].
  - destruct (update_status_log tx log RolledBack w1 Hl1) as (now & s & w2 & -> & Hl2 & Ht2 & Hs & _).
    eexists (call_events ARollback tx rb ++ s), _, _, w2. split; [done|].
    split; [by rewrite Ht2, Ht1, app_assoc|]. split; [exact Hl2|].
    rewrite !calls_app, !(calls_saves _ s), !app_nil_r, Hall by done.
    rewrite (calls_call_events APrepare), (calls_call_events ACommit). done.
  - eexists (call_events ARollback tx rb), _, log, w1. split; [done|]. split; [done|]. split; [done|].
    rewrite Hall, (calls_call_events APrepare), (calls_call_events ACommit). done.
Qed.

(** Its commit branch. *)
Lemma recover_commit tx log js w :
  has_log tx log w →
  ∃ evs r log' w',
    (commit_results ← commit_phase tx (observed answer <$> js) 2;
     if all_committed (observed (B := B) answer <$> js) commit_results then update_status utc_now tx Committed
     else _ ← rollback_phase tx (observed answer <$> js);
          _ ← update_status utc_now tx (failed_status commit_results);
          m_err ("Recovery failed during commit: " +:+ failures commit_results)) w = (r, w') ∧
    w_trace w' = w_trace w ++ evs ∧ has_log tx log' w' ∧ calls APrepare evs = [] ∧
    (∀ id, count_calls ACommit id evs ≤ 3 * count_ids id js) ∧
    ((r = Ok log' ∧ status log' = "committed" ∧ ok_ids evs ≡ₚ info_id <$> js ∧ calls ARollback evs = []) ∨
     (is_ok r = false ∧ (calls ARollback evs).*1 = info_id <$> js ∧
      if forallb (λ c, is_ok c.2) (calls ARollback evs)
      then status log' = (if bool_decide (ok_ids evs = []) then "rolled_back" else "mixed")
      else log' = log)).
Proof.
  intros Hl. unfold mbind, M_bind, m_bind, commit_phase.
  destruct (commit_attempts_spec answer tx 2 js [] w) as (cm & res & w1 & -> & Hext & Hrun).
  pose proof (has_log_extends _ _ _ _ _ Hext Hl) as Hl1. destruct Hext as [_ Ht1].
  pose proof Hrun as [Hcm _ _ _ Hcount]. change ([] ++ res) with res. cbn match.
  pose proof (calls_other ACommit APrepare cm ltac:(done) Hcm) as Hcp.
  pose proof (calls_other ACommit ARollback cm ltac:(done) Hcm) as Hcr.
  destruct (all_committed (observed (B := B) answer <$> js) res) eqn:Hall.
  { eapply all_committed_ids in Hall; [|exact Hrun].
    destruct (update_status_log tx log Committed w1 Hl1) as (now & s & w2 & -> & Hl2 & Ht2 & Hs & _).
    eexists (cm ++ s), _, _, w2. split; [done|]. split; [by rewrite Ht2, Ht1, app_assoc|].
    split; [exact Hl2|]. unfold count_calls, ok_ids in *.
    rewrite !calls_app, !(calls_saves _ s), !app_nil_r by done.
    split; [done|]. split; [done|]. by left. }
  destruct (rollback_phase_spec answer tx js w1) as (rb & r & w2 & -> & Hext2 & Hj & Hr).
  pose proof (has_log_extends _ _ _ _ _ Hext2 Hl1) as Hl2. destruct Hext2 as [_ Ht2].
  pose proof (rollback_answers tx rb r Hr) as Hans. pose proof (calls_rollback tx rb js Hj) as Hids.
  assert (∀ s, Forall is_save s → calls APrepare (cm ++ call_events ARollback tx rb ++ s) = [] ∧
    calls ACommit (cm ++ call_events ARollback tx rb ++ s) = calls ACommit cm ∧
    calls ARollback (cm ++ call_events ARollback tx rb ++ s) = calls ARollback (call_events ARollback tx rb)) as Hcalls.
  { intros s Hs. rewrite !calls_app, !(calls_saves _ s), !app_nil_r, Hcp, Hcr by done.
    rewrite (calls_call_events APrepare), (calls_call_events ACommit). simpl. by rewrite app_nil_r. }
  destruct r as [[]|e].
  - destruct (update_status_log tx log (failed_status res) w2 Hl2) as (now & s & w3 & -> & Hl3 & Ht3 & Hs & _).
    destruct (Hcalls s Hs) as (Hp' & Hc' & Hr').
    eexists (cm ++ call_events ARollback tx rb ++ s), _, _, w3. split; [done|].
    split; [by rewrite Ht3, Ht2, Ht1, <-!app_assoc|]. split; [exact Hl3|]. split; [done|].
    unfold count_calls, ok_ids in *. rewrite Hc', Hr', Hans. split; [done|]. right. split; [done|]. split; [done|].
    destruct (failed_status_ids tx _ js cm res Hrun) as [[-> Ho]|[-> Ho]]; unfold ok_ids in Ho;
      [by rewrite bool_decide_eq_true_2|by rewrite bool_decide_eq_false_2].
  - destruct (Hcalls [] ltac:(done)) as (Hp' & Hc' & Hr'). rewrite app_nil_r in Hp', Hc', Hr'.
    eexists (cm ++ call_events ARollback tx rb), _, log, w2. split; [done|].
    split; [by rewrite Ht2, Ht1, <-!app_assoc|]. split; [done|]. split; [done|].
    unfold count_calls, ok_ids in *. rewrite Hc', Hr', Hans.
    split; [done|]. right. done.
Qed.

Lemma recover_run tx log js w :
  has_log tx log w →
  ∃ evs r log' w', recover utc_now tx (observed answer <$> js) w = (r, w') ∧
    w_trace w' = w_trace w ++ evs ∧ has_log tx log' w' ∧ calls APrepare evs = [] ∧ recovered js log evs r log'.
Proof.
  intros Hl. unfold recover. unfold mbind at 1 2, M_bind at 1 2, m_bind at 1 2.
  destruct Hl as (Hup & Htx & Hlog).
  destruct (load_log_run tx log w Hup Hlog) as (w1 & -> & Hup1 & Hv1 & Ht1). simpl.
  assert (has_log tx log w1) as Hl1 by (split; [done|]; split; [done|]; by eapply stored_view).
  rewrite <-Ht1. unfold recovered.
  destruct (Status.from_str (status log)) eqn:Hst;
    try (destruct (recover_rollback tx log js w1 Hl1) as (evs & r & log' & w2 & H1 & H2 & H3 & H4 & H5);
         exists evs, r, log', w2; auto; done);
    try (eexists [], _, log, w1; rewrite app_nil_r; auto; done).
  destruct (recover_commit tx log js w1 Hl1) as (evs & r & log' & w2 & H1 & H2 & H3 & H4 & H5).
  exists evs, r, log', w2. auto.
Qed.

End ReliableRuns.

(** ** Cutting a trace *)

Lemma app_cut {A} (l r l1 l2 : list A) e :
  l ++ r = l1 ++ e :: l2 →
  (∃ l2', l = l1 ++ e :: l2') ∨ (∃ l1', l1 = l ++ l1' ∧ r = l1' ++ e :: l2).
Proof.
  intros [(k & -> & H)|(k & -> & H)]%app_eq_inv; [|by right; exists k].
  destruct k as [|x k]; [right; exists []; by rewrite !app_nil_r|left]. injection H as <- _. by exists k.
Qed.

Lemma Forall_cut {A} (P : A → Prop) l1 e l2 : Forall P (l1 ++ e :: l2) → Forall P l1 ∧ P e.
Proof. rewrite Forall_app, Forall_cons. tauto. Qed.

Lemma call_not_save a e : is_call a e → ¬ is_save e.
Proof. intros H Hs. by destruct e. Qed.

Lemma call_inj a b e : is_call a e → is_call b e → a = b.
Proof. destruct e; simpl; [|done]. by intros -> ->. Qed.

(** The only calls of a rollback pass are rollbacks. *)
Lemma rollback_shape_only tx js evs e : rollback_shape tx js evs → e ∈ evs → is_save e ∨ is_call ARollback e.
Proof.
  intros (s1 & rb & s2 & -> & H1 & H2 & _). rewrite !elem_of_app.
  pose proof (is_call_events ARollback tx rb) as H3. rewrite Forall_forall in *. intros [?|[?|?]]; auto.
Qed.

Lemma calls_nil a evs : Forall (λ e, ¬ is_call a e) evs → calls a evs = [].
Proof.
  induction 1 as [|e evs He _ IH]; [done|].
  destruct e as [a' i t r|]; [|exact IH]. simpl. rewrite bool_decide_eq_false_2 by done. exact IH.
Qed.

(** Neither a save nor a rollback is a prepare or a commit. *)
Lemma other_call a e : is_save e ∨ is_call ARollback e → a ≠ ARollback → ¬ is_call a e.
Proof. intros [H|H] Ha Hc; [by eapply call_not_save|]. by pose proof (call_inj _ _ _ H Hc). Qed.

Lemma calls_none a evs : Forall (λ e, is_save e ∨ is_call ARollback e) evs → a ≠ ARollback → calls a evs = [].
Proof. intros H Ha. apply calls_nil. eapply Forall_impl; [exact H|]. intros e He. by apply other_call. Qed.

Section CommitShape.
Context `{!Codec TransactionLog}.

Lemma commit_shape_rest tx js evs (r : result TransactionLog string) :
  match r with
  | Ok log => ok_ids evs = [] ∧ Forall is_save evs
  | Err _ => rollback_shape tx js evs
  end → Forall (λ e, is_save e ∨ is_call ARollback e) evs.
Proof.
  destruct r as [log|e].
  - intros [_ H]. eapply Forall_impl; [exact H|]. by left.
  - intros H. apply Forall_forall. intros e'. by eapply rollback_shape_only.
Qed.

Lemma commit_shape_parts tx js tail r :
  commit_shape tx js tail r →
  ∃ s1 cm evs, tail = s1 ++ cm ++ evs ∧ Forall is_save s1 ∧ Forall (is_call ACommit) cm ∧
    (∀ id, count_calls ACommit id cm ≤ 3 * count_ids id js) ∧ (cm ≠ [] → Exists (logged Committing) s1) ∧
    Forall (λ e, is_save e ∨ is_call ARollback e) evs.
Proof.
  intros (s1 & cm & evs & H1 & H2 & H3 & H4 & H5 & H6). exists s1, cm, evs. do 5 (split; [done|]).
  apply (commit_shape_rest tx js evs r). destruct r; [|done]. destruct H6 as (_ & _ & Hs & _).
  split; [|done]. unfold ok_ids. by rewrite (calls_saves _ evs).
Qed.

Lemma commit_shape_cut tx js t1 e l2 r :
  commit_shape tx js (t1 ++ e :: l2) r →
  ¬ is_call APrepare e ∧ (is_call ACommit e → Exists (logged Committing) t1 ∧ calls ARollback t1 = []).
Proof.
  intros (s1 & cm & evs & Ht & Hs & Hc & _ & Hl & He)%commit_shape_parts. symmetry in Ht.
  apply app_cut in Ht as [[l2' ->]|(k & -> & Ht)].
  { apply Forall_cut in Hs as [_ Hs]. split; intros ?; exfalso; by eapply call_not_save. }
  apply app_cut in Ht as [[l2' Hk]|(k' & -> & ->)].
  - rewrite Hk in Hc. apply Forall_cut in Hc as [Hk1 Hce]. split.
    { intros Hp. by pose proof (call_inj _ _ _ Hce Hp). }
    intros _. split; [apply Exists_app; left; apply Hl; rewrite Hk; by destruct k|].
    rewrite calls_app, (calls_saves _ s1), (calls_other ACommit _ k) by done. done.
  - apply Forall_cut in He as [_ He]. split; [by apply other_call|]. intros ?. exfalso. by eapply (other_call ACommit).
Qed.

Lemma commit_shape_count tx js tail r id :
  commit_shape tx js tail r → count_calls ACommit id tail ≤ 3 * count_ids id js.
Proof.
  intros (s1 & cm & evs & -> & Hs & Hc & Hn & _ & He)%commit_shape_parts. rewrite !count_calls_app.
  unfold count_calls at 1 3. rewrite (calls_saves _ s1), (calls_none _ evs) by done. simpl.
  specialize (Hn id). lia.
Qed.

(** The same two facts for the whole run. *)
Lemma execute_shape_count tx js evs r id :
  execute_shape tx js evs r → count_calls ACommit id evs ≤ 3 * count_ids id js.
Proof.
  intros (s0 & ans & tail & -> & Hs0 & Hcases). rewrite !count_calls_app.
  unfold count_calls at 1 2. rewrite (calls_saves _ s0), calls_call_events by done. simpl.
  destruct Hcases as [[Hs _]|[(_ & Hr & _)|(_ & s1 & t & -> & Hs1 & Hc)]].
  - unfold count_calls. rewrite calls_saves by done. simpl. lia.
  - unfold count_calls. rewrite calls_none; [simpl; lia| |done].
    apply Forall_forall. intros e. by eapply rollback_shape_only.
  - rewrite count_calls_app. unfold count_calls at 1. rewrite (calls_saves _ s1) by done. simpl.
    by eapply commit_shape_count.
Qed.

Lemma execute_shape_tail tx js (ans : list (ParticipantInfo * result unit string)) tail t1 e l2 r :
  tail = t1 ++ e :: l2 →
  ((Forall is_save tail ∧ is_ok r = false) ∨
   (is_ok r = false ∧ rollback_shape tx js tail ∧ ∃ i e, (i, Err e) ∈ ans) ∨
   (ans = (λ i, (i, Ok tt)) <$> js ∧ ∃ s1 tail', tail = s1 ++ tail' ∧ Forall is_save s1 ∧
      commit_shape tx js tail' r)) →
  ¬ is_call APrepare e ∧
  (is_call ACommit e → ans = (λ i, (i, Ok tt)) <$> js ∧ Exists (logged Committing) t1 ∧ calls ARollback t1 = []).
Proof.
  intros -> [[Hs _]|[(_ & Hr & _)|(Ha & s1 & t & Ht & Hs1 & Hc)]].
  - apply Forall_cut in Hs as [_ Hs]. split; intros ?; exfalso; by eapply call_not_save.
  - assert (is_save e ∨ is_call ARollback e) as He by (eapply rollback_shape_only; [exact Hr|set_solver]).
    split; [by apply other_call|]. intros ?. exfalso. by eapply (other_call ACommit).
  - symmetry in Ht. apply app_cut in Ht as [[l2' ->]|(k & -> & ->)].
    { apply Forall_cut in Hs1 as [_ Hs]. split; intros ?; exfalso; by eapply call_not_save. }
    apply commit_shape_cut in Hc as [Hp Hc]. split; [done|]. intros He. destruct (Hc He) as [Hl Hr].
    split; [done|]. split; [apply Exists_app; by right|]. by rewrite calls_app, (calls_saves _ s1), Hr.
Qed.
End CommitShape.

(** ** Properties *)

(** C1: whatever the participants answer and however the backend behaves
    (failing saves and loads included), [execute] calls a commit only when every
    participant has already agreed to prepare, the status "committing" has
    reached the backend and no rollback has begun; it calls a prepare only before
    every commit and rollback; and it calls commit at most three times per
    participant. *)
Theorem execute_safety {B} `{!StateBackend B, !Codec StateEntry, !Codec TransactionLog}
    (utc_now : World B → string) (answer : Oracle) tx js meta w r w' :
  execute utc_now tx (observed answer <$> js) meta w = (r, w') →
  ∃ evs, w_trace w' = w_trace w ++ evs ∧
    (∀ l1 e l2, evs = l1 ++ e :: l2 →
      (is_call ACommit e →
         (∀ i, i ∈ js → EvCall APrepare (info_id i) tx (Ok tt) ∈ l1) ∧
         Exists (logged Committing) l1 ∧ calls ARollback l1 = []) ∧
      (is_call APrepare e → calls ACommit l1 = [] ∧ calls ARollback l1 = [])) ∧
    (∀ id, count_calls ACommit id evs ≤ 3 * count_ids id js).
Proof.
  intros Hrun. apply execute_run_shape in Hrun as (evs & Ht & s0 & ans & tail & -> & Hs0 & Hcases).
  eexists. split; [exact Ht|].
  pose proof (is_call_events APrepare tx ans) as Hans.
  assert (∀ l1 e l2, s0 ++ call_events APrepare tx ans ++ tail = l1 ++ e :: l2 →
    (is_save e ∨ is_call APrepare e ∧ Forall (λ e, is_save e ∨ is_call APrepare e) l1) ∨
    ∃ t1, l1 = s0 ++ call_events APrepare tx ans ++ t1 ∧ tail = t1 ++ e :: l2) as Hcut.
  { intros l1 e l2 [[l2' ->]|(k & -> & H)]%app_cut; [by apply Forall_cut in Hs0 as [_ ?]; left; left|].
    apply app_cut in H as [[l2' Hk]|(t1 & -> & ->)]; [left; right|right; by exists t1].
    rewrite Hk in Hans. apply Forall_cut in Hans as [Hk1 He]. split; [done|]. apply Forall_app.
    split; eapply Forall_impl; [exact Hs0|by left|exact Hk1|by right]. }
  split; [|intros id; eapply execute_shape_count; by exists s0, ans, tail].
  intros l1 e l2 Hl. apply Hcut in Hl as [[He|[He Hl1]]|(t1 & -> & Htail)].
  - split; intros Hc; exfalso; by eapply call_not_save.
  - split; intros Hc; [by pose proof (call_inj _ _ _ He Hc)|].
    split; apply calls_nil; eapply Forall_impl; try exact Hl1;
      intros e' [Hs|Hp] Hc'; first [by eapply call_not_save|by pose proof (call_inj _ _ _ Hp Hc')].
  - eapply execute_shape_tail in Hcases as [Hp Hc]; [|exact Htail]. split; [|done].
    intros He. destruct (Hc He) as (-> & Hlog & Hr). split; [|split].
    + intros i Hi. rewrite !elem_of_app. right; left. apply list_elem_of_fmap. exists (i, Ok tt).
      split; [done|]. apply list_elem_of_fmap. by exists i.
    + rewrite !Exists_app. auto.
    + by rewrite !calls_app, (calls_saves _ s0), calls_call_events, Hr.
Qed.


(** C29: [recover] is presumed abort: on a backend that answers, a transaction
    found before its commit decision or in the middle of a rollback is rolled
    back everywhere and never committed; a decided one is committed, or rolled
    back and marked by what did commit; a finished one is returned unchanged
    without a call; no participant is asked to prepare again. *)
Theorem recover_correct {B} `{Reliable B, !Codec StateEntry, !CodecOk StateEntry,
    !Codec TransactionLog, !CodecOk TransactionLog}
    (utc_now : World B → string) (answer : Oracle) tx js log w :
  up (w_backend w) → transaction_id log = tx → stored (log_key tx) log w →
  ∃ r log' evs w', recover utc_now tx (observed answer <$> js) w = (r, w') ∧
    w_trace w' = w_trace w ++ evs ∧ stored (log_key tx) log' w' ∧ calls APrepare evs = [] ∧
    recovered js log evs r log'.
Proof.
  intros Hup Htx Hlog. destruct (recover_run utc_now answer tx log js w) as (evs & r & log' & w' & ? & ? & Hl & ? & ?).
  { by split. }
  exists r, log', evs, w'. repeat (split; [done|]). split; [apply Hl|done].
Qed.

(** The state machine of a transaction is never moved: on a backend that
    answers, whatever the outcome, the entry "2pc_<id>" is still "created"
    at version 1 when [execute] returns, since the two transitions it attempts
    are not edges and their errors are dropped. *)
Theorem execute_leaves_state_created {B} `{Reliable B, !Codec StateEntry, !CodecOk StateEntry,
    !Codec TransactionLog, !CodecOk TransactionLog}
    (utc_now : World B → string) (answer : Oracle) tx js meta w :
  up (w_backend w) →
  stored (state_key (state_name tx)) (mk_entry (state_name tx) "created" 1 begin_metadata)
    (execute utc_now tx (observed answer <$> js) meta w).2.
Proof.
  intros Hup. destruct (execute_run utc_now answer tx js meta w Hup)
    as (r & log & evs & w' & -> & _ & [_ Htr] & _). exact Htr.
Qed.

(** the stored names of transaction statuses read back as the statuses,
    and only the eight names do not read as [Unknown]. *)
Lemma status_names_roundtrip st s :
  Status.from_str (Status.as_str st) = st ∧
  (Status.from_str s ≠ Unknown → s = Status.as_str (Status.from_str s)).
Proof.
  split; [apply Status.status_from_str_as_str|]. unfold Status.from_str.
  repeat match goal with
  | |- context [String.eqb s ?b] => destruct (String.eqb_spec s b) as [->|_]; [done|]
  end. done.
Qed.

(** ** Concrete runs *)

Section ConcreteRuns.
#[local] Instance run_entry_codec : Codec StateEntry := countable_codec StateEntry.
#[local] Instance run_entry_codec_ok : CodecOk StateEntry := countable_codec_ok StateEntry.
#[local] Instance run_log_codec : Codec TransactionLog := countable_codec TransactionLog.
#[local] Instance run_log_codec_ok : CodecOk TransactionLog := countable_codec_ok TransactionLog.

Definition demo_clock (w : World Storage) : string := "2025-01-01T00:00:00+00:00".
Definition demo_infos : list ParticipantInfo := [mk_info "a" "A" "worker"; mk_info "b" "B" "worker"].

(** Everyone agrees; "b" cannot commit. *)
Definition b_fails : Oracle := λ _ a id, if bool_decide (a = ACommit ∧ id = "b") then Err "disk full" else Ok tt.

Definition demo_world (faults : list (option string)) : World Storage := mk_world (mk_storage ∅ faults) [].

(** The twelfth call on the connection, the save of the final status, fails. *)
Definition interrupted : World Storage := demo_world (replicate 11 None ++ [Some "database is locked"]).

(** A transaction in which a participant committed, interrupted between
    "rolling_back" and "mixed", is recovered as "rolled_back". *)
Theorem interrupted_mixed_is_forgotten :
  let run1 := execute demo_clock "t" (observed b_fails <$> demo_infos) Null interrupted in
  let run2 := recover demo_clock "t" (observed b_fails <$> demo_infos) run1.2 in
  run1.1 = Err "database is locked" ∧
  calls ACommit (w_trace run1.2) =
    [("a", Ok tt); ("b", Err "disk full"); ("b", Err "disk full"); ("b", Err "disk full")] ∧
  status <$> result_ok run2.1 = Some "rolled_back".
Proof. split; [|split]; vm_compute; reflexivity. Qed.

Lemma demo_up faults : faults = [] → up (w_backend (demo_world faults)).
Proof. done. Qed.

Lemma execute_safety_witness :
  ∃ evs, w_trace (execute demo_clock "t" (observed b_fails <$> demo_infos) Null (demo_world [])).2 = evs ∧
    count_calls ACommit "b" evs ≤ 3.
Proof.
  destruct (execute_safety demo_clock b_fails "t" demo_infos Null (demo_world []) _ _ (surjective_pairing _))
    as (evs & Ht & _ & Hc).
  exists evs. split; [exact Ht|]. exact (Hc "b").
Defined.


Definition demo_log : TransactionLog := mk_log "t" "committing" demo_infos "" "" Null.
Definition demo_logged : World Storage := (save_log demo_log (demo_world [])).2.

Lemma demo_logged_up : up (w_backend demo_logged).
Proof. vm_compute. reflexivity. Qed.

Lemma recover_correct_witness :
  ∃ r log' evs w', recover demo_clock "t" (observed b_fails <$> demo_infos) demo_logged = (r, w') ∧
    recovered demo_infos demo_log evs r log'.
Proof.
  destruct (recover_correct demo_clock b_fails "t" demo_infos demo_log demo_logged demo_logged_up eq_refl)
    as (r & log' & evs & w' & H1 & _ & _ & _ & H2).
  { eexists. split; vm_compute; reflexivity. }
  exists r, log', evs, w'. auto.
Defined.

Lemma execute_leaves_state_created_witness :
  stored (state_key "2pc_t") (mk_entry "2pc_t" "created" 1 begin_metadata)
    (execute demo_clock "t" (observed b_fails <$> demo_infos) Null (demo_world [])).2.
Proof.
  exact (execute_leaves_state_created demo_clock b_fails "t" demo_infos Null (demo_world []) (demo_up [] eq_refl)).
Defined.

Lemma status_names_roundtrip_witness : "mixed" = Status.as_str (Status.from_str "mixed").
Proof. exact (proj2 (status_names_roundtrip Mixed "mixed") ltac:(done)). Defined.
End ConcreteRuns.
