(* ===== verification/Config.v ===== *)
(** * Layered configuration (config/layer.rs, config/tag.rs, config/trace.rs)

    [ConfigTree] merges enabled layers from the lowest priority to the highest;
    [TagGuard] checks the merged business tags against a whitelist and keeps
    statistics of every check; [TraceRingBuffer] keeps the last entries of a
    trace. The mutex of [TagGuard] is its state, passed explicitly. *)
From S2P Require Import Prelude RustStr Json.
From stdpp Require Import sorting.

(** ** Layers *)

Inductive ConfigLayer : Type := Global | Team | Project | Env | Task.

#[export] Instance config_layer_eq_dec : EqDecision ConfigLayer.
Proof. solve_decision. Defined.

Definition priority (l : ConfigLayer) : Z :=
  match l with Global => 0 | Team => 1 | Project => 2 | Env => 3 | Task => 4 end.

Definition label (l : ConfigLayer) : string :=
  match l with
  | Global => "global" | Team => "team" | Project => "project" | Env => "env" | Task => "task"
  end.

Definition all : list ConfigLayer := [Global; Team; Project; Env; Task].

Record LayerConfig := mk_layer {
  layer : ConfigLayer;
  layer_name : string;
  description : string;
  values : gmap string Value;
  tags : gmap string string;
  enabled : bool;
  priority_override : option Z;
  layer_metadata : gmap string string
}.

(** [LayerConfig::default]. *)
Definition LayerConfig_default : LayerConfig := mk_layer Global "" "" ∅ ∅ true None ∅.

Definition effective_priority (l : LayerConfig) : Z := default (priority (layer l)) (priority_override l).

Record MergedConfig := mk_merged {
  merged_values : gmap string Value;
  merged_tags : gmap string string;
  provenance : gmap string ConfigLayer
}.

Record ConfigTree := mk_tree { layers : list LayerConfig }.

Definition ConfigTree_new : ConfigTree := mk_tree [].

Definition add_layer (t : ConfigTree) (l : LayerConfig) : ConfigTree := mk_tree (layers t ++ [l]).

(** One iteration of [merge]: every entry of the layer is inserted. *)
Definition merge_layer (m : MergedConfig) (l : LayerConfig) : MergedConfig :=
  mk_merged (values l ∪ merged_values m) (tags l ∪ merged_tags m)
    (((λ _, layer l) <$> values l) ∪ provenance m).

Definition merge (t : ConfigTree) : MergedConfig :=
  foldl merge_layer (mk_merged ∅ ∅ ∅) (sort_by_key effective_priority (List.filter enabled (layers t))).

(** ** Tags *)

Inductive TagPolicy : Type := Allow | Block | Strict.

Record BusinessTag := mk_tag {
  tag_key : string;
  tag_value : string;
  tag_description : string;
  immutable : bool
}.

Record TagInheritanceWhitelist := mk_whitelist { allowed_keys : gset string; default_policy : TagPolicy }.

Definition TagInheritanceWhitelist_new (allowed : list string) (policy : TagPolicy) : TagInheritanceWhitelist :=
  mk_whitelist (list_to_set allowed) policy.

Definition is_allowed (w : TagInheritanceWhitelist) (key : string) : bool :=
  match default_policy w with
  | Allow => true
  | Block => bool_decide (key ∈ allowed_keys w)
  | Strict => bool_decide (key ∈ allowed_keys w)
  end.

Record TagValidationResult := mk_validation {
  allowed : list BusinessTag;
  blocked : list BusinessTag;
  violations : list string
}.

Record TagValidator := mk_validator { whitelist : TagInheritanceWhitelist; strict_mode : bool }.

(** The loop of [validate_tags], by the result so far. *)
Fixpoint validate_loop (v : TagValidator) (base_tags : gmap string string) (ts : list BusinessTag)
    (acc : TagValidationResult) : TagValidationResult :=
  match ts with
  | [] => acc
  | tag :: ts' =>
      if negb (is_allowed (whitelist v) (tag_key tag)) then
        let msg := if strict_mode v
                   then "BLOCKED: Tag '" +:+ tag_key tag +:+ "'='" +:+ tag_value tag
                        +:+ "' is not in whitelist (strict mode)"
                   else "BLOCKED: Tag '" +:+ tag_key tag +:+ "'='" +:+ tag_value tag
                        +:+ "' is not in whitelist" in
        validate_loop v base_tags ts'
          (mk_validation (allowed acc) (blocked acc ++ [tag]) (violations acc ++ [msg]))
      else
        let extra := match base_tags !! tag_key tag with
                     | Some base_val =>
                         if negb (String.eqb (tag_value tag) base_val) && strict_mode v
                         then ["STRICT VIOLATION: Tag '" +:+ tag_key tag +:+ "'='" +:+ tag_value tag
                               +:+ "' differs from base value '" +:+ base_val +:+ "'"]
                         else []
                     | None => []
                     end in
        validate_loop v base_tags ts'
          (mk_validation (allowed acc ++ [tag]) (blocked acc) (violations acc ++ extra))
  end.

Definition validate_tags (v : TagValidator) (ts : list BusinessTag) (base_tags : gmap string string)
    : TagValidationResult :=
  validate_loop v base_tags ts (mk_validation [] [] []).

Definition has_blocking_violations (v : TagValidator) (r : TagValidationResult) : bool :=
  if strict_mode v then negb (bool_decide (violations r = [])) else negb (bool_decide (List.length (blocked r) = 0)).

Record BlockStats := mk_stats {
  total_tags : nat;
  blocked_count : nat;
  violation_count : nat;
  by_key : gmap string nat;
  stats_strict_mode : bool
}.

(** [*map.entry(key).or_insert(0) += 1]. *)
Definition count_key (m : gmap string nat) (key : string) : gmap string nat :=
  <[key := S (default 0 (m !! key))]> m.

Definition from_validation (r : TagValidationResult) (strict : bool) : BlockStats :=
  mk_stats (List.length (allowed r) + List.length (blocked r)) (List.length (blocked r))
    (List.length (violations r)) (foldl count_key ∅ (tag_key <$> blocked r)) strict.

Record TagGuard := mk_guard { validator : TagValidator; stats : list BlockStats }.

Definition TagGuard_new (v : TagValidator) : TagGuard := mk_guard v [].

Definition validate_and_collect (g : TagGuard) (ts : list BusinessTag) (base_tags : gmap string string)
    : TagValidationResult * TagGuard :=
  let result := validate_tags (validator g) ts base_tags in
  (result, mk_guard (validator g) (stats g ++ [from_validation result (strict_mode (validator g))])).

Definition accumulated_stats (g : TagGuard) : list BlockStats := stats g.

Definition blocking_summary (g : TagGuard) : nat * nat * nat :=
  let ss := accumulated_stats g in
  (sum_list_with blocked_count ss, sum_list_with violation_count ss, sum_list_with total_tags ss).

Section WithIteration.
Context `{HashIter}.

Definition merge_with_guard (t : ConfigTree) (g : TagGuard) : result MergedConfig string * TagGuard :=
  let merged := merge t in
  let ts := (λ kv, mk_tag kv.1 kv.2 "" false) <$> hm_iter (merged_tags merged) in
  let base_tags : gmap string string := ∅ in
  let '(r, g') := validate_and_collect g ts base_tags in
  if has_blocking_violations (validator g') r
  then
    let '(n_blocked, n_violations, _total) := blocking_summary g' in
    (Err ("Tag guard blocked config merge: " +:+ pretty n_blocked +:+ " tags blocked, "
          +:+ pretty n_violations +:+ " violations"), g')
  else (Ok merged, g').

(** The keys of one layer in [ConfigTree::validate]. *)
Fixpoint validate_keys (i : nat) (keys : list string) (seen : gmap string nat) (errors : list string)
    : gmap string nat * list string :=
  match keys with
  | [] => (seen, errors)
  | key :: keys' =>
      let errors' := match seen !! key with
                     | Some prev => errors ++ ["Key '" +:+ key +:+ "' defined in multiple layers (index "
                                               +:+ pretty prev +:+ " and " +:+ pretty i +:+ ")"]
                     | None => errors
                     end in
      let seen' := match seen !! key with Some _ => seen | None => <[key := i]> seen end in
      validate_keys i keys' seen' errors'
  end.

Fixpoint validate_layers (i : nat) (ls : list LayerConfig) (seen : gmap string nat) (errors : list string)
    : list string :=
  match ls with
  | [] => errors
  | l :: ls' =>
      let errors1 := if is_empty (layer_name l)
                     then errors ++ ["Layer at index " +:+ pretty i +:+ " has empty name"] else errors in
      let errors2 := if bool_decide (values l = ∅) && bool_decide (tags l = ∅)
                     then errors1 ++ ["Layer '" +:+ layer_name l +:+ "' (" +:+ label (layer l)
                                      +:+ ") has no values or tags"] else errors1 in
      let '(seen', errors3) := validate_keys i (hm_iter (values l)).*1 seen errors2 in
      validate_layers (S i) ls' seen' errors3
  end.

Definition validate (t : ConfigTree) : result unit (list string) :=
  match validate_layers 0 (layers t) ∅ [] with [] => Ok tt | errors => Err errors end.
End WithIteration.

(** ** The trace *)

Record TraceEntry := mk_trace_entry {
  timestamp : string;
  trace_layer : ConfigLayer;
  trace_key : string;
  action : string;
  detail : string
}.

Record TraceRingBuffer := mk_ring { capacity : nat; entries : list TraceEntry }.

Definition TraceRingBuffer_new (capacity : nat) : TraceRingBuffer := mk_ring capacity [].
Definition TraceRingBuffer_default : TraceRingBuffer := TraceRingBuffer_new 1000.

Definition ring_push (b : TraceRingBuffer) (e : TraceEntry) : TraceRingBuffer :=
  let es := if capacity b <=? List.length (entries b) then List.tl (entries b) else entries b in
  mk_ring (capacity b) (es ++ [e]).

Definition record (now : string) (b : TraceRingBuffer) (l : ConfigLayer) (key action detail : string)
    : TraceRingBuffer :=
  ring_push b (mk_trace_entry now l key action detail).

Definition ring_len (b : TraceRingBuffer) : nat := List.length (entries b).
Definition clear (b : TraceRingBuffer) : TraceRingBuffer := mk_ring (capacity b) [].
Definition filter_by_layer (b : TraceRingBuffer) (l : ConfigLayer) : list TraceEntry :=
  List.filter (λ e, bool_decide (trace_layer e = l)) (entries b).
Definition filter_by_action (b : TraceRingBuffer) (a : string) : list TraceEntry :=
  List.filter (λ e, String.eqb (action e) a) (entries b).
Definition recent (b : TraceRingBuffer) (n : nat) : list TraceEntry :=
  take (n `min` List.length (entries b)) (reverse (entries b)).

Record TraceStats := mk_trace_stats {
  total_entries : nat;
  stats_capacity : nat;
  action_counts : gmap string nat;
  layer_counts : gmap string nat
}.

Definition ring_stats (b : TraceRingBuffer) : TraceStats :=
  mk_trace_stats (List.length (entries b)) (capacity b)
    (foldl count_key ∅ (action <$> entries b)) (foldl count_key ∅ ((λ e, label (trace_layer e)) <$> entries b)).

(** ** Which layer wins *)

(** The layer [l] at index [i] decides [P]: enabled, and no enabled layer with
    [P] has a higher priority, or the same priority and a later position. *)
Definition decides (t : ConfigTree) (P : LayerConfig → bool) (i : nat) (l : LayerConfig) : Prop :=
  layers t !! i = Some l ∧ enabled l = true ∧ P l = true ∧
  ∀ j l', layers t !! j = Some l' → enabled l' = true → P l' = true →
    (effective_priority l' < effective_priority l)%Z ∨
    effective_priority l' = effective_priority l ∧ j ≤ i.

Definition defines {A} (f : LayerConfig → gmap string A) (k : string) (l : LayerConfig) : bool :=
  bool_decide (is_Some (f l !! k)).

Lemma foldl_union_lookup {A} (f : LayerConfig → gmap string A) ls acc k :
  foldl (λ a l, f l ∪ a) acc ls !! k =
    match last (List.filter (defines f k) ls) with Some l => f l !! k | None => acc !! k end.
Proof.
  induction ls as [|l ls IH] using rev_ind; [done|].
  rewrite foldl_app, List.filter_app. cbn [foldl List.filter]. unfold defines at 2. case_bool_decide as Hd.
  - rewrite last_snoc. destruct Hd as [v Hv]. rewrite Hv. by apply lookup_union_Some_l.
  - rewrite app_nil_r, <-IH, lookup_union_r; [done|]. by apply eq_None_not_Some.
Qed.

Lemma merge_layers ls m :
  foldl merge_layer m ls =
    mk_merged (foldl (λ a l, values l ∪ a) (merged_values m) ls) (foldl (λ a l, tags l ∪ a) (merged_tags m) ls)
      (foldl (λ a l, ((λ _, layer l) <$> values l) ∪ a) (provenance m) ls).
Proof. revert m. induction ls as [|l ls IH]; intros m; simpl; [by destruct m|]. by rewrite IH. Qed.

(** The layers in merge order, with their positions. *)
Definition ordered (t : ConfigTree) : list (nat * LayerConfig) :=
  sort_by_key (effective_priority ∘ snd) (List.filter (enabled ∘ snd) (imap pair (layers t))).

Lemma ordered_snd t : snd <$> ordered t = sort_by_key effective_priority (List.filter enabled (layers t)).
Proof.
  unfold ordered. rewrite sort_by_key_fmap. f_equal. rewrite <-filter_fmap. f_equal.
  rewrite fmap_imap. apply (list_eq _ _). intros i. rewrite list_lookup_imap. simpl. by destruct (layers t !! i).
Qed.

Lemma elem_of_ordered t i l : (i, l) ∈ ordered t ↔ layers t !! i = Some l ∧ enabled l = true.
Proof.
  unfold ordered. rewrite sort_by_key_Permutation, list_elem_of_In, filter_In, <-list_elem_of_In, elem_of_lookup_imap.
  unfold compose. simpl. naive_solver.
Qed.

Lemma ordered_sorted t :
  StronglySorted (key_then (effective_priority ∘ snd) (λ x y : nat * LayerConfig, x.1 < y.1)) (ordered t).
Proof.
  apply sort_by_key_stable, StronglySorted_filter. exact (StronglySorted_imap (layers t) 0).
Qed.

Lemma last_decides t P :
  match last (List.filter P (sort_by_key effective_priority (List.filter enabled (layers t)))) with
  | Some l => ∃ i, decides t P i l
  | None => ∀ l, l ∈ layers t → enabled l = true → P l = false
  end.
Proof.
  rewrite <-ordered_snd, filter_fmap, fmap_last.
  pose proof (StronglySorted_filter _ (P ∘ snd) _ (ordered_sorted t)) as Hs.
  assert (∀ i l, (i, l) ∈ List.filter (P ∘ snd) (ordered t) ↔ layers t !! i = Some l ∧ enabled l = true ∧ P l = true) as He.
  { intros i l. rewrite list_elem_of_In, filter_In, <-list_elem_of_In, elem_of_ordered. unfold compose. simpl. tauto. }
  destruct (List.filter (P ∘ snd) (ordered t)) as [|x0 r0] eqn:Hf using rev_ind; simpl; [|clear IHr0].
  - intros l [i Hi]%list_elem_of_lookup Hen. destruct (P l) eqn:HP; [|done].
    assert ((i, l) ∈ []) as Hin by (apply He; auto). set_solver.
  - rewrite last_snoc. simpl. destruct x0 as [i l]. exists i.
    assert (layers t !! i = Some l ∧ enabled l = true ∧ P l = true) as (Hi & Hen & HP) by (apply He; set_solver).
    split; [done|]. split; [done|]. split; [done|]. intros j l' Hj Hen' HP'.
    assert ((j, l') ∈ r0 ++ [(i, l)]) as [Hin|Hin]%elem_of_app by (apply He; auto).
    + apply StronglySorted_app_1_elem_of with (x1 := (j, l')) (x2 := (i, l)) in Hs; [|done|set_solver].
      destruct Hs as [Hs|[Hs1 Hs2]]; [by left|right]. simpl in *. split; [done|lia].
    + apply list_elem_of_singleton in Hin as [= -> ->]. right. split; [done|lia].
Qed.

(** ** Tag checks *)

Definition tag_error (v : TagValidator) (base_tags : gmap string string) (tag : BusinessTag) : bool :=
  negb (is_allowed (whitelist v) (tag_key tag)) ||
  match base_tags !! tag_key tag with
  | Some b => negb (String.eqb (tag_value tag) b) && strict_mode v
  | None => false
  end.

Lemma validate_loop_spec v base_tags ts acc :
  let r := validate_loop v base_tags ts acc in
  allowed r = allowed acc ++ List.filter (λ t, is_allowed (whitelist v) (tag_key t)) ts ∧
  blocked r = blocked acc ++ List.filter (λ t, negb (is_allowed (whitelist v) (tag_key t))) ts ∧
  List.length (violations r) = List.length (violations acc) + List.length (List.filter (tag_error v base_tags) ts).
Proof.
  revert acc. induction ts as [|tag ts IH]; intros acc; [simpl; by rewrite !app_nil_r|].
  cbn [validate_loop List.filter]. unfold tag_error at 1.
  destruct (is_allowed (whitelist v) (tag_key tag)); cbn [negb orb]; cbv zeta;
    match goal with |- context [validate_loop v base_tags ts ?a] => destruct (IH a) as (H1 & H2 & H3) end;
    rewrite H1, H2, H3; cbn [allowed blocked violations]; rewrite List.length_app, <-app_assoc;
    (split; [done|]); (split; [done|]); [|simpl; lia].
  destruct (base_tags !! tag_key tag) as [b|]; [|simpl; lia]. case_match; simpl; lia.
Qed.

Lemma filter_length_0 {A} (P : A → bool) l : List.length (List.filter P l) = 0 ↔ ∀ x, x ∈ l → P x = false.
Proof.
  induction l as [|x l IH]; simpl.
  - split; [|done]. intros _ x Hx. by apply elem_of_nil in Hx.
  - setoid_rewrite elem_of_cons. destruct (P x) eqn:Hx; simpl.
    + split; [done|]. intros H. specialize (H x (or_introl eq_refl)). congruence.
    + rewrite IH. naive_solver.
Qed.

(** With an empty base only the keys count. *)
Lemma validate_empty_base v ts :
  let r := validate_tags v ts ∅ in
  List.length (violations r) = List.length (blocked r) ∧
  List.length (allowed r) + List.length (blocked r) = List.length ts ∧
  has_blocking_violations v r = negb (bool_decide (List.length (blocked r) = 0)) ∧
  blocked r = List.filter (λ t, negb (is_allowed (whitelist v) (tag_key t))) ts.
Proof.
  unfold validate_tags. destruct (validate_loop_spec v ∅ ts (mk_validation [] [] [])) as (Ha & Hb & Hv).
  set (r := validate_loop v ∅ ts (mk_validation [] [] [])) in *. cbn [allowed blocked violations List.length app] in *.
  assert (∀ tag, tag_error v ∅ tag = negb (is_allowed (whitelist v) (tag_key tag))) as Herr.
  { intros tag. unfold tag_error. rewrite lookup_empty. by rewrite orb_false_r. }
  rewrite (List.filter_ext _ _ Herr) in Hv.
  assert (List.length (violations r) = List.length (blocked r)) as Hvb by by rewrite Hv, Hb.
  split; [done|]. split; [rewrite Ha, Hb; apply List.filter_length|]. split; [|done].
  unfold has_blocking_violations. destruct (strict_mode v); [|done]. f_equal. apply bool_decide_ext.
  rewrite <-Hvb. by destruct (violations r).
Qed.

Definition tags_of `{HashIter} (m : gmap string string) : list BusinessTag :=
  (λ kv, mk_tag kv.1 kv.2 "" false) <$> hm_iter m.

Lemma tags_of_length `{HashIter} m : List.length (tags_of m) = size m.
Proof. unfold tags_of. rewrite length_fmap, hm_iter_perm. apply length_map_to_list. Qed.

Lemma tags_of_keys `{HashIter} m k : (∃ t, t ∈ tags_of m ∧ tag_key t = k) ↔ is_Some (m !! k).
Proof.
  unfold tags_of. split.
  - intros (t & ([k' v] & -> & Hin%hm_iter_elem)%list_elem_of_fmap & <-). by exists v.
  - intros [v Hv]. exists (mk_tag k v "" false). split; [|done]. apply list_elem_of_fmap. exists (k, v).
    split; [done|]. by apply hm_iter_elem.
Qed.

(** ** Validation of the tree *)

Section Validate.
Context `{HashIter}.

Lemma validate_keys_spec i keys seen errors seen' errors' :
  validate_keys i keys seen errors = (seen', errors') →
  (∀ k, is_Some (seen' !! k) ↔ is_Some (seen !! k) ∨ k ∈ keys) ∧
  (NoDup keys → errors' = [] ↔ errors = [] ∧ ∀ k, k ∈ keys → seen !! k = None).
Proof.
  revert seen errors. induction keys as [|k keys IH]; intros seen errors Hv; simpl in Hv.
  { simplify_eq. split; [set_solver|]. intros _. split; [|naive_solver]. intros ->. split; [done|]. set_solver. }
  apply IH in Hv as [Hs He]. destruct (seen !! k) as [prev|] eqn:Hk.
  - split; [intros k'; rewrite Hs, elem_of_cons; naive_solver|].
    intros [_ Hnd]%NoDup_cons. rewrite (He Hnd). split.
    + intros [Hnil _]. by apply app_nil in Hnil as [_ ?].
    + intros [-> Hall]. specialize (Hall k). rewrite Hk in Hall. set_solver.
  - split.
    + intros k'. rewrite Hs, elem_of_cons. destruct (decide (k' = k)) as [->|Hne].
      * rewrite lookup_insert_eq. naive_solver.
      * rewrite lookup_insert_ne by done. naive_solver.
    + intros [Hnin Hnd]%NoDup_cons. rewrite (He Hnd). split.
      * intros [-> Hall]. split; [done|]. intros k' [->|Hin]%elem_of_cons; [done|].
        specialize (Hall k' Hin). by apply lookup_insert_None in Hall as [? _].
      * intros [-> Hall]. split; [done|]. intros k' Hin. rewrite lookup_insert_ne by set_solver.
        apply Hall. set_solver.
Qed.

Definition layer_ok (l : LayerConfig) : Prop :=
  layer_name l ≠ "" ∧ (values l ≠ ∅ ∨ tags l ≠ ∅).

Lemma hm_iter_keys {A} (m : gmap string A) : NoDup (hm_iter m).*1 ∧ ∀ k, k ∈ (hm_iter m).*1 ↔ is_Some (m !! k).
Proof.
  split.
  - rewrite hm_iter_perm. apply NoDup_fst_map_to_list.
  - intros k. rewrite list_elem_of_fmap. split.
    + intros ([k' v] & -> & Hin%hm_iter_elem). by exists v.
    + intros [v Hv]. exists (k, v). split; [done|]. by apply hm_iter_elem.
Qed.

Lemma validate_layers_spec i ls seen errors :
  validate_layers i ls seen errors = [] ↔
    errors = [] ∧ Forall layer_ok ls ∧
    (∀ l k, l ∈ ls → is_Some (values l !! k) → seen !! k = None) ∧
    (∀ a b la lb k, ls !! a = Some la → ls !! b = Some lb →
       is_Some (values la !! k) → is_Some (values lb !! k) → a = b).
Proof.
  revert i seen errors. induction ls as [|l ls IH]; intros i seen errors.
  { simpl. split; [intros ->; split; [done|]; split; [done|]; split; set_solver|naive_solver]. }
  cbn [validate_layers]. destruct (validate_keys _ _ _ _) as [seen' errors3] eqn:Hk.
  rewrite IH. apply validate_keys_spec in Hk as [Hs He]. destruct (hm_iter_keys (values l)) as [Hnd Hkeys].
  rewrite (He Hnd). rewrite Forall_cons.
  assert ((if bool_decide (values l = ∅) && bool_decide (tags l = ∅)
     then (if is_empty (layer_name l) then errors ++ ["Layer at index " +:+ pretty i +:+ " has empty name"] else errors)
          ++ ["Layer '" +:+ layer_name l +:+ "' (" +:+ label (layer l) +:+ ") has no values or tags"]
     else if is_empty (layer_name l) then errors ++ ["Layer at index " +:+ pretty i +:+ " has empty name"] else errors) = []
    ↔ errors = [] ∧ layer_ok l) as ->.
  { unfold layer_ok. assert (is_empty (layer_name l) = true ↔ layer_name l = "") as Hn by (by destruct (layer_name l)).
    assert (∀ (x y : list string), x ++ y = [] ↔ x = [] ∧ y = []) as Happ.
    { intros x y. split; [by intros ?%app_nil|by intros [-> ->]]. }
    destruct (is_empty (layer_name l)); repeat case_bool_decide; simpl; rewrite ?Happ; naive_solver. }
  assert (∀ k, is_Some (seen' !! k) ↔ is_Some (seen !! k) ∨ is_Some (values l !! k)) as Hs'.
  { intros k. by rewrite Hs, Hkeys. }
  split.
  - intros [[[-> Hl] Hfresh] (Hls & Hseen & Hdist)]. split; [done|]. split; [done|]. split.
    + intros l' k [->|Hin]%elem_of_cons Hk; [by apply Hfresh, Hkeys|].
      apply eq_None_not_Some. intros Hss. specialize (Hseen l' k Hin Hk).
      apply eq_None_not_Some in Hseen. apply Hseen, Hs'. by left.
    + assert (∀ b lb k, ls !! b = Some lb → is_Some (values l !! k) → is_Some (values lb !! k) → False) as Hx.
      { intros b lb k Hb Hk1 Hk2. specialize (Hseen lb k (list_elem_of_lookup_2 _ _ _ Hb) Hk2).
        apply eq_None_not_Some in Hseen. apply Hseen, Hs'. by right. }
      intros [|a] [|b] la lb k Ha Hb; simpl in *; [done|..]; simplify_eq.
      * intros. exfalso. by eapply (Hx b).
      * intros. exfalso. by eapply (Hx a).
      * intros. f_equal. by eapply Hdist.
  - intros (-> & [Hl Hls] & Hseen & Hdist). split; [split; [done|]|split; [done|]; split].
    + intros k Hk. apply (Hseen l); [set_solver|]. by apply Hkeys.
    + intros l' k Hin Hk. apply eq_None_not_Some. intros [Hss|Hss]%Hs'.
      * specialize (Hseen l' k ltac:(set_solver) Hk). rewrite Hseen in Hss. by destruct Hss.
      * apply list_elem_of_lookup in Hin as [b Hb]. by pose proof (Hdist 0 (S b) l l' k eq_refl Hb Hss Hk).
    + intros a b la lb k Ha Hb H1 H2. by pose proof (Hdist (S a) (S b) la lb k Ha Hb H1 H2) as [= ->].
Qed.
End Validate.

(** ** The ring *)

Lemma ring_push_last b e :
  List.length (entries b) ≤ Nat.max 1 (capacity b) →
  entries (ring_push b e) =
    drop (List.length (entries b ++ [e]) - Nat.max 1 (capacity b)) (entries b ++ [e]).
Proof.
  intros Hlen. unfold ring_push. cbn [entries]. rewrite List.length_app. cbn [List.length].
  destruct (Nat.leb_spec (capacity b) (List.length (entries b))) as [Hle|Hlt].
  - destruct (entries b) as [|x l] eqn:Hb; cbn [List.tl List.length] in *.
    + replace (0 + 1 - Nat.max 1 (capacity b)) with 0 by lia. done.
    + replace (S (List.length l) + 1 - Nat.max 1 (capacity b)) with 1 by lia. done.
  - replace (List.length (entries b) + 1 - Nat.max 1 (capacity b)) with 0 by lia. done.
Qed.

Lemma ring_run c es :
  entries (foldl ring_push (TraceRingBuffer_new c) es) = drop (List.length es - Nat.max 1 c) es ∧
  capacity (foldl ring_push (TraceRingBuffer_new c) es) = c.
Proof.
  induction es as [|e es [IH IHc]] using rev_ind; [done|]. rewrite foldl_app. cbn [foldl].
  set (b := foldl ring_push (TraceRingBuffer_new c) es) in *. split; [|done].
  rewrite ring_push_last; rewrite IH, IHc; [|rewrite length_drop; lia].
  rewrite !List.length_app, length_drop. cbn [List.length].
  set (n := List.length es - Nat.max 1 c). rewrite <-(drop_app_le es [e] n), drop_drop by lia. f_equal. lia.
Qed.

(** ** Properties *)

(** A merged value, its provenance and a merged tag come from the enabled
    layer of the highest effective priority that defines the key, the later one
    on equal priorities; a key no enabled layer defines is absent. *)
Theorem merge_highest_priority_wins t k :
  (match merged_values (merge t) !! k with
   | Some v => ∃ i l, decides t (defines values k) i l ∧ values l !! k = Some v ∧
                      provenance (merge t) !! k = Some (layer l)
   | None => provenance (merge t) !! k = None ∧
             ∀ l, l ∈ layers t → enabled l = true → values l !! k = None
   end) ∧
  match merged_tags (merge t) !! k with
  | Some v => ∃ i l, decides t (defines tags k) i l ∧ tags l !! k = Some v
  | None => ∀ l, l ∈ layers t → enabled l = true → tags l !! k = None
  end.
Proof.
  unfold merge. rewrite merge_layers. cbn [merged_values merged_tags provenance].
  rewrite !foldl_union_lookup. split.
  - assert (∀ l, defines (λ l, (λ _, layer l) <$> values l) k l = defines values k l) as Hd.
    { intros l. unfold defines. apply bool_decide_ext. by rewrite lookup_fmap, fmap_is_Some. }
    rewrite (List.filter_ext _ _ Hd).
    pose proof (last_decides t (defines values k)) as Hl. destruct (last _) as [l|].
    + destruct Hl as [i Hi]. pose proof Hi as (_ & _ & [v Hv]%bool_decide_eq_true & _). rewrite Hv. exists i, l.
      by rewrite lookup_fmap, Hv.
    + rewrite !lookup_empty. split; [done|]. intros l Hin Hen. specialize (Hl l Hin Hen).
      apply bool_decide_eq_false in Hl. by apply eq_None_not_Some.
  - pose proof (last_decides t (defines tags k)) as Hl. destruct (last _) as [l|].
    + destruct Hl as [i Hi]. pose proof Hi as (_ & _ & [v Hv]%bool_decide_eq_true & _). rewrite Hv. by exists i, l.
    + rewrite lookup_empty. intros l Hin Hen. specialize (Hl l Hin Hen).
      apply bool_decide_eq_false in Hl. by apply eq_None_not_Some.
Qed.

(** [merge_with_guard] accepts a tree exactly when the whitelist lets
    every merged tag key through, records one more check in the guard, and
    reports the counts accumulated over every check so far; since it compares
    with an empty base, no tag value and no strict mode can change the decision. *)
Theorem merge_with_guard_decision `{HashIter} t g :
  let '(r, g') := merge_with_guard t g in
  (r = Ok (merge t) ∧ (∀ k, is_Some (merged_tags (merge t) !! k) → is_allowed (whitelist (validator g)) k = true) ∨
   is_ok r = false ∧ ∃ k, is_Some (merged_tags (merge t) !! k) ∧ is_allowed (whitelist (validator g)) k = false) ∧
  ∃ st, stats g' = stats g ++ [st] ∧ validator g' = validator g ∧
    blocking_summary g' = (let '(b, v, n) := blocking_summary g in
                           (b + blocked_count st, v + violation_count st, n + total_tags st)) ∧
    total_tags st = size (merged_tags (merge t)) ∧ blocked_count st = violation_count st.
Proof.
  unfold merge_with_guard, validate_and_collect. fold (tags_of (merged_tags (merge t))).
  set (ts := tags_of (merged_tags (merge t))).
  destruct (validate_empty_base (validator g) ts) as (Hvb & Htot & Hblock & Hb).
  set (r := validate_tags (validator g) ts ∅) in *. cbn [validator stats]. rewrite Hblock.
  assert (∃ st, stats g ++ [from_validation r (strict_mode (validator g))] = stats g ++ [st] ∧
    validator g = validator g ∧
    blocking_summary (mk_guard (validator g) (stats g ++ [from_validation r (strict_mode (validator g))])) =
      (let '(b, v, n) := blocking_summary g in
       (b + blocked_count st, v + violation_count st, n + total_tags st)) ∧
    total_tags st = size (merged_tags (merge t)) ∧ blocked_count st = violation_count st) as Hst.
  { eexists. split; [reflexivity|]. split; [done|]. split; [|split; [|done]].
    - unfold blocking_summary, accumulated_stats. cbn [stats]. rewrite !sum_list_with_app. simpl. by rewrite !Nat.add_0_r.
    - simpl. by rewrite Htot, <-tags_of_length. }
  case_bool_decide as H0; cbn [negb].
  - split; [left; split; [done|]|exact Hst]. intros k (tag & Hin & <-)%tags_of_keys.
    rewrite Hb, filter_length_0 in H0. by apply negb_false_iff, H0.
  - split; [right|exact Hst]. split; [done|]. destruct (blocked r) as [|tag l] eqn:Hr; [done|].
    assert (tag ∈ List.filter (λ t, negb (is_allowed (whitelist (validator g)) (tag_key t))) ts) as Hin.
    { rewrite <-Hb. left. }
    apply list_elem_of_In, filter_In in Hin as [Hin Hk]. apply list_elem_of_In in Hin. apply negb_true_iff in Hk.
    exists (tag_key tag). split; [|done]. apply tags_of_keys. by exists tag.
Qed.

(** [validate] accepts exactly the trees whose layers have a name and
    some value or tag, and of which no two define the same value key. *)
Lemma validate_accepts `{HashIter} t :
  validate t = Ok tt ↔
    Forall layer_ok (layers t) ∧
    (∀ a b la lb k, layers t !! a = Some la → layers t !! b = Some lb →
       is_Some (values la !! k) → is_Some (values lb !! k) → a = b).
Proof.
  unfold validate. pose proof (validate_layers_spec 0 (layers t) ∅ []) as H0.
  destruct (validate_layers 0 (layers t) ∅ []) as [|e es].
  - destruct (proj1 H0 eq_refl) as (_ & H1 & _ & H2). done.
  - split; [done|]. intros [H1 H2]. exfalso.
    assert (e :: es = []) as [=]. apply H0. done.
Qed.

(** After any pushes the ring holds exactly the last entries pushed, in
    order: [capacity] of them, but one when the capacity is zero. *)
Theorem ring_keeps_last c es :
  entries (foldl ring_push (TraceRingBuffer_new c) es) = drop (List.length es - Nat.max 1 c) es.
Proof. apply ring_run. Qed.

(** ** Concrete trees *)

Definition demo_layer (l : ConfigLayer) (k v : string) (p : option Z) : LayerConfig :=
  mk_layer l "demo" "" {[k := VString v]} {[k := v]} true p ∅.

Definition demo_tree : ConfigTree :=
  mk_tree [demo_layer Task "k" "task" None; demo_layer Global "k" "global" (Some 4%Z);
           demo_layer Team "k" "team" None].

Example demo_merge :
  merged_values (merge demo_tree) !! "k" = Some (VString "global") ∧
  provenance (merge demo_tree) !! "k" = Some Global.
Proof. vm_compute. done. Qed.

Section Witnesses.
#[local] Existing Instance key_order.

Definition demo_guard (strict : bool) : TagGuard :=
  TagGuard_new (mk_validator (TagInheritanceWhitelist_new ["other"] Block) strict).

Lemma merge_with_guard_decision_witness :
  is_ok (merge_with_guard demo_tree (demo_guard true)).1 = false ∧
  List.length (stats (merge_with_guard demo_tree (demo_guard true)).2) = 1.
Proof.
  pose proof (merge_with_guard_decision demo_tree (demo_guard true)) as H.
  destruct (merge_with_guard demo_tree (demo_guard true)) as [r g'] eqn:E. split.
  - by vm_compute in E; injection E as <- _.
  - destruct H as (_ & st & Hs & _). cbn [snd]. by rewrite Hs.
Defined.

Lemma validate_accepts_witness : validate (mk_tree [demo_layer Task "k" "v" None]) = Ok tt.
Proof.
  apply (validate_accepts (mk_tree [demo_layer Task "k" "v" None])). split.
  - constructor; [|constructor]. split; [done|]. left. by apply insert_non_empty.
  - intros [|a] [|b] la lb k Ha Hb; done.
Defined.
End Witnesses.
