(* ===== verification/Expression.v ===== *)
(** * Configuration expressions (config/expression.rs)

    A string of a configuration is a literal or one of [${env:..}], [${ref:..}]
    and [${eval:..}]; [resolve_all_expressions_in_value] replaces every string
    of a JSON value by what its expression denotes. *)
From S2P Require Import Prelude RustStr Json.

Inductive Expression : Type :=
| EnvVar (name : string)
| Ref (path : string)
| Eval (expr : string)
| Literal (text : string).

(** [&trimmed[a..trimmed.len() - 1]]. *)
Definition inner (a : nat) (s : string) : string := String.substring a (len s - 1 - a) s.

Definition parse_expression (input : string) : Expression :=
  let trimmed := trim input in
  if starts_with trimmed "${env:" && ends_with trimmed "}" then EnvVar (inner 6 trimmed)
  else if starts_with trimmed "${ref:" && ends_with trimmed "}" then Ref (inner 6 trimmed)
  else if starts_with trimmed "${eval:" && ends_with trimmed "}" then Eval (inner 7 trimmed)
  else Literal input.

(** [str::parse::<i64>]: an optional sign, at least one digit, in range. *)
Fixpoint parse_digits (acc : Z) (s : string) : option Z :=
  match s with
  | EmptyString => Some acc
  | String a s' =>
      if is_ascii_digit (ch a) then parse_digits (acc * 10 + (Z.of_N (ch a) - 48))%Z s' else None
  end.

Definition parse_i64 (s : string) : option Z :=
  let '(sign, digits) :=
    match s with
    | String "+" r => (1%Z, r)
    | String "-" r => ((-1)%Z, r)
    | _ => (1%Z, s)
    end in
  if is_empty digits then None
  else match parse_digits 0 digits with
       | Some n => let v := (sign * n)%Z in
                   if (- 2 ^ 63 <=? v)%Z && (v <? 2 ^ 63)%Z then Some v else None
       | None => None
       end.

Section Resolve.
(** [std::env::var], [None] when it fails. *)
Variable env_var : string → option string.
(** The token of [Number::from_f64] of [str::parse::<f64>], when both succeed. *)
Variable f64_number : string → option string.

Definition resolve_env_var (name : string) : result string string :=
  match env_var name with
  | Some v => Ok v
  | None => Err ("Environment variable '$" +:+ name +:+ "' not set")
  end.

(** The walk of [resolve_ref] below the first key. *)
Fixpoint resolve_path (path : string) (parts : list string) (current : Value) : result Value string :=
  match parts with
  | [] => Ok current
  | part :: parts' =>
      match current with
      | Object map =>
          match obj_get map part with
          | Some next => resolve_path path parts' next
          | None => Err ("Config reference '$" +:+ path +:+ "': key '" +:+ part +:+ "' not found")
          end
      | _ => Err ("Config reference '$" +:+ path +:+ "': intermediate value is not an object")
      end
  end.

Definition resolve_ref (path : string) (merged : gmap string Value) : result Value string :=
  let parts := split_char "." path in
  match merged !! hd "" parts with
  | Some value => resolve_path path (List.tl parts) value
  | None => Err ("Config reference '$" +:+ path +:+ "' not found in merged config")
  end.

Definition eval_simple (text : string) : result Value string :=
  let expr := trim text in
  match parse_i64 expr with
  | Some v => Ok (Number (pretty v))
  | None =>
      match f64_number expr with
      | Some token => Ok (Number token)
      | None =>
          if String.eqb expr "true" then Ok (Bool true)
          else if String.eqb expr "false" then Ok (Bool false)
          else if String.eqb expr "null" then Ok Null
          else if starts_with expr dquote && ends_with expr dquote && (2 <=? len expr)
          then Ok (VString (String.substring 1 (len expr - 2) expr))
          else Err ("Cannot evaluate expression: '" +:+ expr +:+ "'")
      end
  end.

Definition resolve_expression (e : Expression) (merged : gmap string Value) : result Value string :=
  match e with
  | EnvVar name => match resolve_env_var name with Ok v => Ok (VString v) | Err err => Err err end
  | Ref path => resolve_ref path merged
  | Eval expr => eval_simple expr
  | Literal val => Ok (VString val)
  end.

Fixpoint resolve_all_expressions_in_value (v : Value) (merged : gmap string Value) : result Value string :=
  match v with
  | VString s => resolve_expression (parse_expression s) merged
  | Object m =>
      (fix fields (m : list (string * Value)) (resolved : list (string * Value)) : result Value string :=
         match m with
         | [] => Ok (Object resolved)
         | (k, x) :: m' =>
             match resolve_all_expressions_in_value x merged with
             | Ok x' => fields m' (obj_insert resolved k x')
             | Err e => Err e
             end
         end) m []
  | Array l =>
      (fix items (l : list Value) (resolved : list Value) : result Value string :=
         match l with
         | [] => Ok (Array resolved)
         | x :: l' =>
             match resolve_all_expressions_in_value x merged with
             | Ok x' => items l' (resolved ++ [x'])
             | Err e => Err e
             end
         end) l []
  | other => Ok other
  end.

Section Apply.
Context `{HashIter}.

Fixpoint resolve_entries (kvs : list (string * Value)) (merged resolved : gmap string Value)
    : result (gmap string Value) string :=
  match kvs with
  | [] => Ok resolved
  | (k, v) :: kvs' =>
      match resolve_all_expressions_in_value v merged with
      | Ok v' => resolve_entries kvs' merged (<[k := v']> resolved)
      | Err e => Err e
      end
  end.

(** The result and the configuration left behind. *)
Definition apply_expression_resolution (config merged : gmap string Value)
    : result unit string * gmap string Value :=
  match resolve_entries (hm_iter config) merged ∅ with
  | Ok resolved => (Ok tt, resolved ∪ config)
  | Err e => (Err e, config)
  end.
End Apply.

(** ** What a value resolves to *)

(** The source of an expression. *)
Definition expression_text (e : Expression) : string :=
  match e with
  | EnvVar name => "${env:" +:+ name +:+ "}"
  | Ref path => "${ref:" +:+ path +:+ "}"
  | Eval expr => "${eval:" +:+ expr +:+ "}"
  | Literal text => text
  end.

(** [v] and [v'] have the same shape, keys and order; each string of [v] is
    replaced by its resolution and everything else is kept. *)
Inductive resolves (merged : gmap string Value) : Value → Value → Prop :=
| resolves_string s v : resolve_expression (parse_expression s) merged = Ok v → resolves merged (VString s) v
| resolves_null : resolves merged Null Null
| resolves_bool b : resolves merged (Bool b) (Bool b)
| resolves_number t : resolves merged (Number t) (Number t)
| resolves_array l l' : Forall2 (resolves merged) l l' → resolves merged (Array l) (Array l')
| resolves_object m m' :
    Forall2 (λ kv kv', kv.1 = kv'.1 ∧ resolves merged kv.2 kv'.2) m m' → resolves merged (Object m) (Object m').

Lemma obj_insert_fresh m k v : k ∉ m.*1 → obj_insert m k v = m ++ [(k, v)].
Proof.
  induction m as [|[k' v'] m IH]; [done|]. cbn [obj_insert]. intros [Hk Hm]%not_elem_of_cons.
  destruct (String.eqb_spec k' k) as [->|_]; [done|]. by rewrite IH.
Qed.

Lemma items_spec (f : Value → result Value string) (R : Value → Value → Prop) v' l :
  Forall (λ x, ∀ y, f x = Ok y ↔ R x y) l → ∀ acc,
  (fix items (l : list Value) (resolved : list Value) : result Value string :=
     match l with
     | [] => Ok (Array resolved)
     | x :: l' => match f x with Ok x' => items l' (resolved ++ [x']) | Err e => Err e end
     end) l acc = Ok v' ↔ ∃ l', v' = Array (acc ++ l') ∧ Forall2 R l l'.
Proof.
  induction 1 as [|x l Hx _ IHl]; intros acc.
  - split; [intros [= <-]; exists []; by rewrite app_nil_r|].
    intros (l' & -> & ->%Forall2_nil_inv_l). by rewrite app_nil_r.
  - destruct (f x) as [x'|e].
    + rewrite IHl. assert (R x x') as Hr by by apply Hx. split.
      * intros (l' & -> & Hl). exists (x' :: l'). rewrite <-app_assoc. split; [done|by constructor].
      * intros (l' & -> & (y & l'' & Hy & Hl & ->)%Forall2_cons_inv_l).
        apply Hx in Hy as [= <-]. exists l''. by rewrite <-app_assoc.
    + split; [done|]. intros (l' & -> & (y & l'' & Hy & _)%Forall2_cons_inv_l). by apply Hx in Hy.
Qed.

Lemma fields_spec (f : Value → result Value string) (R : Value → Value → Prop) v' m :
  Forall (λ kv : string * Value, ∀ y, f kv.2 = Ok y ↔ R kv.2 y) m → ∀ acc, NoDup (acc.*1 ++ m.*1) →
  (fix fields (m : list (string * Value)) (resolved : list (string * Value)) : result Value string :=
     match m with
     | [] => Ok (Object resolved)
     | (k, x) :: m' => match f x with Ok x' => fields m' (obj_insert resolved k x') | Err e => Err e end
     end) m acc = Ok v' ↔
  ∃ m', v' = Object (acc ++ m') ∧ Forall2 (λ kv kv', kv.1 = kv'.1 ∧ R kv.2 kv'.2) m m'.
Proof.
  induction 1 as [|[k x] m Hx _ IHm]; intros acc Hnd.
  - split; [intros [= <-]; exists []; by rewrite app_nil_r|].
    intros (l' & -> & ->%Forall2_nil_inv_l). by rewrite app_nil_r.
  - cbn [snd] in Hx. destruct (f x) as [x'|e].
    + rewrite fmap_cons in Hnd. cbn [fst] in Hnd.
      assert (k ∉ acc.*1) as Hk by (apply NoDup_app in Hnd as (_ & Hd & _); intros Hin; apply (Hd k Hin); left).
      rewrite obj_insert_fresh by done. rewrite IHm.
      2: { rewrite fmap_app. cbn. rewrite <-app_assoc. exact Hnd. }
      assert (R x x') as Hr by by apply Hx. split.
      * intros (l' & -> & Hl). exists ((k, x') :: l'). rewrite <-app_assoc. split; [done|by constructor].
      * intros (l' & -> & ([k' y] & l'' & [Hk' Hy] & Hl & ->)%Forall2_cons_inv_l). simpl in *. subst k'.
        apply Hx in Hy as [= <-]. exists l''. by rewrite <-app_assoc.
    + split; [done|]. intros (l' & -> & (y & l'' & [_ Hy] & _)%Forall2_cons_inv_l). by apply Hx in Hy.
Qed.

Lemma resolve_all_spec merged v : wf_value v → ∀ v',
  resolve_all_expressions_in_value v merged = Ok v' ↔ resolves merged v v'.
Proof.
  induction v as [| | | |l IH|m IH] using value_ind'; intros Hwf v'; cbn [resolve_all_expressions_in_value].
  - split; [intros [= <-]; constructor|by inversion 1].
  - split; [intros [= <-]; constructor|by inversion 1].
  - split; [intros [= <-]; constructor|by inversion 1].
  - split; [by constructor|by inversion 1].
  - assert (Forall (λ x, ∀ y, resolve_all_expressions_in_value x merged = Ok y ↔ resolves merged x y) l) as Hall.
    { simpl in Hwf. induction IH as [|x l Hx _ IHl]; [constructor|]. destruct Hwf as [Hwx Hwl].
      constructor; [by apply Hx|by apply IHl]. }
    etrans; [exact (items_spec _ _ _ _ Hall [])|].
    split; [intros (l' & -> & ?); by constructor|]. inversion 1; subst. eauto.
  - simpl in Hwf. destruct Hwf as [Hnd Hwf].
    assert (Forall (λ kv : string * Value, ∀ y, resolve_all_expressions_in_value kv.2 merged = Ok y
              ↔ resolves merged kv.2 y) m) as Hall.
    { clear Hnd. induction IH as [|[k x] m Hx _ IHm]; [constructor|]. destruct Hwf as [Hwx Hwm].
      constructor; [by apply Hx|by apply IHm]. }
    etrans; [exact (fields_spec (λ x, resolve_all_expressions_in_value x merged) _ _ _ Hall [] Hnd)|].
    split; [intros (l' & -> & ?); by constructor|]. inversion 1; subst. eauto.
Qed.
End Resolve.

Lemma inner_app p r : inner (len p) (p +:+ r +:+ "}")%string = r.
Proof.
  unfold inner. rewrite substring_skip, !string_app_length. cbn.
  replace (len p + (len r + 1) - 1 - len p) with (len r) by lia. apply substring_take.
Qed.

(** A string that starts with [p] and ends with a brace [p] lacks. *)
Lemma framed p t :
  (∀ r, p ≠ (r +:+ "}")%string) → starts_with t p = true → ends_with t "}" = true →
  t = (p +:+ inner (len p) t +:+ "}")%string.
Proof.
  intros Hp [r ->]%starts_with_iff [q Hq]%ends_with_iff.
  assert (∃ r', r = (r' +:+ "}")%string) as [r' ->]; [|by rewrite inner_app].
  revert r q Hp Hq. induction p as [|a p IH]; intros r q Hp Hq; [by exists q|].
  destruct q as [|b q]; simpl in Hq.
  - injection Hq as -> Hq. destruct p; [|done]. exfalso. by apply (Hp "").
  - injection Hq as -> Hq. apply (IH r q); [|exact Hq]. intros r0 ->. by apply (Hp (String b r0)).
Qed.

Lemma no_brace (p : string) : ends_with p "}" = false → ∀ r, p ≠ (r +:+ "}")%string.
Proof. intros H r ->. assert (ends_with (r +:+ "}") "}" = true) by (apply ends_with_iff; by exists r). congruence. Qed.

Lemma starts_app p r : starts_with (p +:+ r)%string p = true.
Proof. apply starts_with_iff. by exists r. Qed.

Lemma ends_app p r : ends_with (p +:+ r +:+ "}")%string "}" = true.
Proof. apply ends_with_iff. exists (p +:+ r)%string. by rewrite string_app_assoc. Qed.

Lemma starts_differ p q r : strip_prefix p q = None → len q ≤ len p → starts_with (p +:+ r)%string q = false.
Proof.
  intros Hn Hl. unfold starts_with. apply bool_decide_eq_false. intros [x Hx].
  revert p Hn Hl Hx. induction q as [|a q IH]; intros p Hn Hl Hx; [by destruct p|].
  destruct p as [|b p]; [simpl in Hl; lia|]. simpl in *. destruct (Ascii.eqb a b); [|done].
  apply (IH p); [done|lia|done].
Qed.

Section ResolveLemmas.
Context (env_var f64_number : string → option string) `{HashIter}.

Lemma resolve_entries_spec kvs merged acc :
  NoDup kvs.*1 →
  match resolve_entries env_var f64_number kvs merged acc with
  | Ok res => ∀ k, (k ∉ kvs.*1 → res !! k = acc !! k) ∧
      ∀ v, (k, v) ∈ kvs → ∃ v', res !! k = Some v' ∧
        resolve_all_expressions_in_value env_var f64_number v merged = Ok v'
  | Err e => ∃ k v, (k, v) ∈ kvs ∧ resolve_all_expressions_in_value env_var f64_number v merged = Err e
  end.
Proof.
  revert acc. induction kvs as [|[k v] kvs IH]; intros acc Hnd.
  { simpl. intros k. split; [done|]. intros v Hv. by apply elem_of_nil in Hv. }
  rewrite fmap_cons in Hnd. apply NoDup_cons in Hnd as [Hk Hnd]. cbn [resolve_entries fst] in *.
  destruct (resolve_all_expressions_in_value env_var f64_number v merged) as [v'|e] eqn:Hv.
  - specialize (IH (<[k := v']> acc) Hnd). destruct (resolve_entries _ _ _ _ _) as [res|e].
    + intros k0. destruct (IH k0) as [IH1 IH2]. rewrite fmap_cons. split.
      * intros [Hne Hin]%not_elem_of_cons. rewrite IH1 by done. by apply lookup_insert_ne.
      * intros v0 [[= -> ->]|Hin]%elem_of_cons; [|by apply IH2]. exists v'. split; [|done].
        rewrite IH1 by done. apply lookup_insert_eq.
    + destruct IH as (k0 & v0 & Hin & He). exists k0, v0. split; [by right|done].
  - exists k, v. split; [by left|done].
Qed.
End ResolveLemmas.

(** ** Properties *)

(** Resolution returns a value exactly when every expression in it
    resolves, and then the value of the same shape, keys and order with each
    string replaced. *)
Theorem resolve_all_exact env_var f64_number merged v v' :
  wf_value v →
  resolve_all_expressions_in_value env_var f64_number v merged = Ok v' ↔ resolves env_var f64_number merged v v'.
Proof. intros Hwf. by apply resolve_all_spec. Qed.

(** [apply_expression_resolution] is all or nothing: either every entry
    is replaced by its resolution and no key appears or disappears, or some entry
    fails, its error is returned and the configuration is unchanged. *)
Theorem apply_resolution_atomic env_var f64_number `{HashIter} config merged :
  let '(r, config') := apply_expression_resolution env_var f64_number config merged in
  match r with
  | Ok _ => dom config' = dom config ∧
      ∀ k v, config !! k = Some v → ∃ v', config' !! k = Some v' ∧
        resolve_all_expressions_in_value env_var f64_number v merged = Ok v'
  | Err e => config' = config ∧
      ∃ k v, config !! k = Some v ∧ resolve_all_expressions_in_value env_var f64_number v merged = Err e
  end.
Proof.
  unfold apply_expression_resolution.
  assert (NoDup (hm_iter config).*1) as Hnd by (rewrite hm_iter_perm; apply NoDup_fst_map_to_list).
  pose proof (resolve_entries_spec env_var f64_number (hm_iter config) merged ∅ Hnd) as Hspec.
  destruct (resolve_entries env_var f64_number (hm_iter config) merged ∅) as [res|e].
  - assert (∀ k v, config !! k = Some v → ∃ v', res !! k = Some v' ∧
      resolve_all_expressions_in_value env_var f64_number v merged = Ok v') as Hres.
    { intros k v Hk. destruct (Hspec k) as [_ Hin]. by apply Hin, hm_iter_elem. }
    split.
    + rewrite dom_union_L. apply set_eq. intros k. rewrite elem_of_union, !elem_of_dom. split; [|tauto].
      intros [[v' Hv']|?]; [|done]. destruct (config !! k) as [v|] eqn:Hk; [done|].
      destruct (Hspec k) as [Hnin _]. rewrite Hnin in Hv'; [by rewrite lookup_empty in Hv'|].
      rewrite list_elem_of_fmap. intros ([k0 v0] & -> & Hin%hm_iter_elem). simpl in Hk. congruence.
    + intros k v Hk. destruct (Hres k v Hk) as (v' & Hv' & Hr). exists v'. split; [|done].
      by apply lookup_union_Some_l.
  - split; [done|]. destruct Hspec as (k & v & Hin%hm_iter_elem & He). by exists k, v.
Qed.

(** Parsing loses nothing: a literal is kept verbatim, blanks included,
    and any other expression spells out its trimmed source (so the slices are
    within bounds); and the spelling of an expression parses back to it. *)
Theorem parse_expression_roundtrip s e :
  match parse_expression s with
  | Literal text => text = s
  | e' => trim s = expression_text e'
  end ∧
  (trim (expression_text e) = expression_text e → (∀ t, e ≠ Literal t) → parse_expression (expression_text e) = e).
Proof.
  unfold parse_expression. split.
  - destruct (starts_with (trim s) "${env:" && ends_with (trim s) "}") eqn:H1;
      [|destruct (starts_with (trim s) "${ref:" && ends_with (trim s) "}") eqn:H2;
        [|destruct (starts_with (trim s) "${eval:" && ends_with (trim s) "}") eqn:H3; [|done]]];
      match goal with Hx : _ && _ = true |- _ => apply andb_true_iff in Hx as [Hs He] end.
    + apply (framed "${env:"); [by apply no_brace|done|done].
    + apply (framed "${ref:"); [by apply no_brace|done|done].
    + apply (framed "${eval:"); [by apply no_brace|done|done].
  - intros Ht Hlit. cbv zeta. rewrite Ht. destruct e as [n|p|x|t]; unfold expression_text; [| | |by destruct (Hlit t)].
    + rewrite starts_app, ends_app. cbn [andb]. f_equal. apply (inner_app "${env:").
    + rewrite (starts_differ "${ref:" "${env:") by (reflexivity || (simpl; lia)).
      rewrite starts_app, ends_app. cbn [andb]. f_equal. apply (inner_app "${ref:").
    + rewrite (starts_differ "${eval:" "${env:"), (starts_differ "${eval:" "${ref:") by (reflexivity || (simpl; lia)).
      rewrite starts_app, ends_app. cbn [andb]. f_equal. apply (inner_app "${eval:").
Qed.

(** ** Concrete runs *)

Definition demo_env (n : string) : option string := if String.eqb n "HOME" then Some "/root" else None.

Lemma resolve_all_exact_witness :
  resolves demo_env (λ _, None) {["db" := Object [("port", Number "5432")]]}
    (Object [("h", VString " ${env:HOME} "); ("p", VString "${ref:db.port}"); ("n", Array [VString "${eval: -7 }"])])
    (Object [("h", VString "/root"); ("p", Number "5432"); ("n", Array [Number "-7"])]).
Proof.
  apply (resolve_all_exact demo_env (λ _, None) {["db" := Object [("port", Number "5432")]]}).
  - simpl. repeat split; apply (bool_decide_unpack _); vm_compute; exact I.
  - vm_compute. reflexivity.
Defined.

Lemma apply_resolution_atomic_witness :
  (@apply_expression_resolution demo_env (λ _, None) key_order {["k" := VString "${env:NOPE}"]} ∅).2 =
  {["k" := VString "${env:NOPE}"]}.
Proof.
  pose proof (@apply_resolution_atomic demo_env (λ _, None) key_order {["k" := VString "${env:NOPE}"]} ∅) as H.
  destruct (@apply_expression_resolution _ _ _ _ _) as [[r|e] c] eqn:E; [by vm_compute in E|]. by destruct H as [H _].
Defined.

Lemma parse_expression_roundtrip_witness : parse_expression "${ref:a.b}" = Ref "a.b".
Proof. apply (parse_expression_roundtrip "" (Ref "a.b")); [by vm_compute|done]. Defined.
