(* ===== verification/F64.v ===== *)
(** * [f64] and [f32] (IEEE 754 binary64 and binary32)

    Floating-point numbers as the Standard Library's [spec_float], rounded to 53
    or 24 bits: the literals of the program, the operations it uses and
    the parser of decimal texts. *)
From S2P Require Import Prelude.
From Stdlib Require Export Floats.SpecFloat.

Definition f64 : Type := spec_float.

Definition f64_add (a b : f64) : f64 := SFadd 53 1024 a b.
Definition f64_sub (a b : f64) : f64 := SFsub 53 1024 a b.
Definition f64_mul (a b : f64) : f64 := SFmul 53 1024 a b.
Definition f64_div (a b : f64) : f64 := SFdiv 53 1024 a b.
(** [a < b], [a <= b], [a == b]: false on NaN. *)
Definition f64_ltb (a b : f64) : bool := SFltb a b.
Definition f64_leb (a b : f64) : bool := SFleb a b.
Definition f64_eqb (a b : f64) : bool := SFeqb a b.

(** [n as f64]. *)
Definition f64_of_Z (n : Z) : f64 := binary_normalize 53 1024 n 0 false.

(** The double nearest to [n / 10 ^ d], as a literal of the source reads. *)
Definition f64_lit (n : Z) (d : Z) : f64 := f64_div (f64_of_Z n) (f64_of_Z (10 ^ d)).

Definition f64_zero : f64 := S754_zero false.

(** [iter.sum::<f64>()] from [-0.0], as the standard library sums. *)
Definition f64_sum (l : list f64) : f64 := fold_left f64_add l (S754_zero true).
Definition f64_max (a b : f64) : f64 :=
  match a, b with
  | S754_nan, _ => b
  | _, S754_nan => a
  | _, _ => if f64_ltb a b then b else a
  end.
Definition f64_min (a b : f64) : f64 :=
  match a, b with
  | S754_nan, _ => b
  | _, S754_nan => a
  | _, _ => if f64_ltb b a then b else a
  end.

Example lit_03 : f64_lit 3 1 = S754_finite false 5404319552844595 (-54).
Proof. vm_compute. reflexivity. Qed.
Example lit_066 : f64_lit 66 2 = S754_finite false 5944751508129055 (-53).
Proof. vm_compute. reflexivity. Qed.

(** ** Decimal text to [f64] *)

(** The double nearest to [m * 10 ^ e]. Below the point the quotient is taken
    with at least 55 bits and one more bit that says whether there is a rest,
    so the one rounding is the rounding of the exact value. *)
Definition f64_of_decimal (negative : bool) (m e : Z) : f64 :=
  let sign (z : Z) := if negative then (- z)%Z else z in
  if (m =? 0)%Z then S754_zero negative
  else if (0 <=? e)%Z then binary_normalize 53 1024 (sign (m * 10 ^ e)%Z) 0 negative
  else
    let d := (10 ^ (- e))%Z in
    let s := Z.max 0 (Z.log2 d - Z.log2 m + 56) in
    let q := (m * 2 ^ s / d)%Z in
    let rest := if ((m * 2 ^ s) mod d =? 0)%Z then 0%Z else 1%Z in
    binary_normalize 53 1024 (sign (2 * q + rest)%Z) (- s - 1) negative.

(** The leading digits of [l]: their value after [acc], how many they are, and
    the rest. *)
Fixpoint take_digits (l : list N) (acc : Z) (n : nat) : Z * nat * list N :=
  match l with
  | x :: l' =>
      if ((48 <=? x) && (x <=? 57))%N then take_digits l' (acc * 10 + (Z.of_N x - 48))%Z (S n) else (acc, n, l)
  | [] => (acc, n, [])
  end.

Definition take_sign (l : list N) : bool * list N :=
  match l with 43%N :: l' => (false, l') | 45%N :: l' => (true, l') | _ => (false, l) end.

(** The exponent part, to the end of the text. *)
Definition parse_exponent (l : list N) : option Z :=
  match l with
  | [] => Some 0%Z
  | x :: l' =>
      if ((x =? 101) || (x =? 69))%N then
        let '(negative, l') := take_sign l' in
        let '(e, n, rest) := take_digits l' 0 0 in
        match n, rest with
        | S _, [] => Some (if negative then (- e)%Z else e)
        | _, _ => None
        end
      else None
  end.

Definition ascii_lower (x : N) : N := if ((65 <=? x) && (x <=? 90))%N then (x + 32)%N else x.

(** [str::parse::<f64>()] on the characters of the text; [None] is an error. *)
Definition f64_parse (l : list N) : option f64 :=
  let '(negative, l) := take_sign l in
  match ascii_lower <$> l with
  | [105; 110; 102]%N | [105; 110; 102; 105; 110; 105; 116; 121]%N => Some (S754_infinity negative)
  | [110; 97; 110]%N => Some S754_nan
  | _ =>
      let '(i, ni, l) := take_digits l 0 0 in
      let '(m, nf, l) := match l with 46%N :: l' => take_digits l' i 0 | _ => (i, 0, l) end in
      match ni + nf with
      | 0 => None
      | _ => e ← parse_exponent l; Some (f64_of_decimal negative m (e - Z.of_nat nf))
      end
  end.

Example parse_03 : f64_parse [48; 46; 51]%N = Some (f64_lit 3 1).
Proof. vm_compute. reflexivity. Qed.
Example parse_1e2 : f64_parse [49; 46; 69; 43; 50]%N = Some (f64_of_Z 100).
Proof. vm_compute. reflexivity. Qed.
Example parse_not_a_number : f64_parse [46]%N = None ∧ f64_parse [48; 120; 49]%N = None ∧ f64_parse [49; 101]%N = None.
Proof. split_and!; vm_compute; reflexivity. Qed.

(** ** [f32] *)

Definition f32 : Type := spec_float.

Definition f32_add (a b : f32) : f32 := SFadd 24 128 a b.
Definition f32_sub (a b : f32) : f32 := SFsub 24 128 a b.
Definition f32_mul (a b : f32) : f32 := SFmul 24 128 a b.
Definition f32_div (a b : f32) : f32 := SFdiv 24 128 a b.
(** [n as f32]. *)
Definition f32_of_Z (n : Z) : f32 := binary_normalize 24 128 n 0 false.
(** The float nearest to [n / 10 ^ d]. *)
Definition f32_lit (n : Z) (d : Z) : f32 := f32_div (f32_of_Z n) (f32_of_Z (10 ^ d)).

(** The least integer that is not below a finite value [±m * 2 ^ e]. *)
Definition ceil_Z (negative : bool) (m : positive) (e : Z) : Z :=
  let m := (if negative then - Zpos m else Zpos m)%Z in
  if (0 <=? e)%Z then (m * 2 ^ e)%Z else (- ((- m) / 2 ^ (- e)))%Z.
(** [a.ceil()]; the sign of a zero is kept. *)
Definition f32_ceil (a : f32) : f32 :=
  match a with S754_finite s m e => binary_normalize 24 128 (ceil_Z s m e) 0 s | _ => a end.
(** [a as u32]: truncates, saturates, and is 0 for NaN. *)
Definition f32_to_u32 (a : f32) : Z :=
  match a with
  | S754_finite false m e => Z.min (2 ^ 32 - 1) (if (0 <=? e)%Z then Zpos m * 2 ^ e else Zpos m / 2 ^ (- e))
  | S754_infinity false => 2 ^ 32 - 1
  | _ => 0
  end%Z.

Example lit_12 : f32_lit 12 1 = S754_finite false 10066330 (-23).
Proof. vm_compute. reflexivity. Qed.
Example ceil_12 : f32_to_u32 (f32_ceil (f32_lit 12 1)) = 2%Z.
Proof. vm_compute. reflexivity. Qed.
