(* ===== verification/QueryCancel.v ===== *)
(** * Running queries (query_cancel.rs)

    The registry of running executions: who can be cancelled, by execution,
    connection, client session or owner scope. A [CancellationToken] is an
    identity with a cancelled flag and an interrupt callback an identity that is
    fired at most once; both live in the registry state. *)
From S2P Require Import Prelude RustStr.
From stdpp Require Import relations.

(** ** Data *)

Inductive RunningTaskKind : Type := Query | Count | Explain | Export | Unknown.

#[export] Instance running_task_kind_eq_dec : EqDecision RunningTaskKind.
Proof. solve_decision. Defined.

Record RunningTaskMetadata := mk_metadata {
  kind : RunningTaskKind;
  connection_id : option string;
  database : option string;
  client_session_id : option string;
  owner_scope : option string
}.

Definition RunningTaskMetadata_default : RunningTaskMetadata := mk_metadata Unknown None None None None.

Definition task_kind_from_client_session_id (client_session_id : option string) : RunningTaskKind :=
  match client_session_id with
  | None => Query
  | Some session_id =>
      let session_id := to_ascii_lowercase (trim session_id) in
      if ends_with session_id ":count" then Count
      else if ends_with session_id ":explain" then Explain
      else if ends_with session_id ":export" then Export
      else Query
  end.

Definition owner_scope_from_client_session_id (client_session_id : string) : option string :=
  match split_char ":" (trim client_session_id) with
  | [] => None
  | first :: _ => let owner := trim first in if is_empty owner then None else Some owner
  end.

Definition RunningTaskMetadata_query (connection_id database : string) (client_session_id : option string)
    : RunningTaskMetadata :=
  mk_metadata (task_kind_from_client_session_id client_session_id) (Some connection_id) (Some database)
    client_session_id (client_session_id ≫= owner_scope_from_client_session_id).

Definition with_owner_scope (m : RunningTaskMetadata) (scope : string) : RunningTaskMetadata :=
  mk_metadata (kind m) (connection_id m) (database m) (client_session_id m) (Some scope).

Record RunningTask := mk_task {
  task_registration_id : Z;
  task_token : nat;
  task_metadata : RunningTaskMetadata;
  pool_key : option string
}.

(** The registry, the tokens created so far and their flags, and the
    interrupts fired so far, latest last. *)
Record RunningQueries := mk_queries {
  inner : gmap string RunningTask;
  interrupts : gmap string nat;
  next_registration_id : Z;
  next_token : nat;
  cancelled : gset nat;
  fired : list nat
}.

Definition RunningQueries_default : RunningQueries := mk_queries ∅ ∅ 0 0 ∅ [].

Record RegisteredQuery := mk_registered {
  execution_id : string;
  registration_id : Z;
  token : nat
}.

Record RunningQueryDiagnostics := mk_diagnostics {
  active_execution_ids : list string;
  active_by_connection : gmap string nat;
  interrupt_registrations : nat
}.

(** ** Operations *)

Definition token_cancel (t : nat) (q : RunningQueries) : RunningQueries :=
  mk_queries (inner q) (interrupts q) (next_registration_id q) (next_token q) ({[t]} ∪ cancelled q) (fired q).

(** [interrupts.remove(id)] followed by the call of what it returned. *)
Definition take_interrupt (id : string) (q : RunningQueries) : RunningQueries :=
  mk_queries (inner q) (delete id (interrupts q)) (next_registration_id q) (next_token q) (cancelled q)
    (fired q ++ match interrupts q !! id with Some i => [i] | None => [] end).

Definition register_task (execution_id : string) (metadata : RunningTaskMetadata) (q : RunningQueries)
    : RegisteredQuery * RunningQueries :=
  let token := next_token q in
  let registration_id := u64_add (next_registration_id q) 1 in
  let previous := inner q !! execution_id in
  let q1 := mk_queries (<[execution_id := mk_task registration_id token metadata None]> (inner q)) (interrupts q)
              registration_id (S token) (cancelled q) (fired q) in
  let q2 := match previous with
            | Some task => take_interrupt execution_id (token_cancel (task_token task) q1)
            | None => q1
            end in
  (mk_registered execution_id registration_id token, q2).

Definition register (execution_id : string) (q : RunningQueries) : RegisteredQuery * RunningQueries :=
  register_task execution_id RunningTaskMetadata_default q.

Definition register_interrupt (execution_id : string) (interrupt : nat) (q : RunningQueries) : RunningQueries :=
  mk_queries (inner q) (<[execution_id := interrupt]> (interrupts q)) (next_registration_id q) (next_token q)
    (cancelled q) (fired q).

Definition cancel (execution_id : string) (q : RunningQueries) : bool * RunningQueries :=
  let token := task_token <$> inner q !! execution_id in
  let q1 := take_interrupt execution_id q in
  match token with
  | Some t => (true, token_cancel t q1)
  | None => (false, q1)
  end.

(** [execution_ids.iter().filter(cancel).count()]. *)
Fixpoint cancel_each (ids : list string) (q : RunningQueries) : nat * RunningQueries :=
  match ids with
  | [] => (0, q)
  | id :: ids' =>
      let '(b, q1) := cancel id q in
      let '(n, q2) := cancel_each ids' q1 in
      ((if (b : bool) then 1 else 0) + n, q2)
  end.

Section Matching.
Context `{HashIter}.

Definition cancel_matching (predicate : RunningTask → bool) (q : RunningQueries) : nat * RunningQueries :=
  let execution_ids := (List.filter (λ kv, predicate kv.2) (hm_iter (inner q))).*1 in
  cancel_each execution_ids q.

Definition cancel_connection (id : string) : RunningQueries → nat * RunningQueries :=
  cancel_matching (λ task, bool_decide (connection_id (task_metadata task) = Some id)).
Definition cancel_client_session (id : string) : RunningQueries → nat * RunningQueries :=
  cancel_matching (λ task, bool_decide (client_session_id (task_metadata task) = Some id)).
Definition cancel_owner_scope (scope : string) : RunningQueries → nat * RunningQueries :=
  cancel_matching (λ task, bool_decide (owner_scope (task_metadata task) = Some scope)).
Definition cancel_all : RunningQueries → nat * RunningQueries := cancel_matching (λ _, true).

Definition count_connection (m : gmap string nat) (task : RunningTask) : gmap string nat :=
  match connection_id (task_metadata task) with
  | Some c => <[c := S (default 0 (m !! c))]> m
  | None => m
  end.

Definition diagnostics (q : RunningQueries) : RunningQueryDiagnostics :=
  mk_diagnostics (sort_strings (hm_iter (inner q)).*1)
    (foldl count_connection ∅ (hm_iter (inner q)).*2) (size (interrupts q)).

Definition is_pool_active (key : string) (q : RunningQueries) : bool :=
  existsb (λ kv : string * RunningTask, bool_decide (pool_key kv.2 = Some key)) (hm_iter (inner q)).
End Matching.

Definition set_pool_key (execution_id key : string) (q : RunningQueries) : RunningQueries :=
  mk_queries
    (alter (λ t, mk_task (task_registration_id t) (task_token t) (task_metadata t) (Some key)) execution_id (inner q))
    (interrupts q) (next_registration_id q) (next_token q) (cancelled q) (fired q).

(** [RunningQueries::remove], the drop of a [RegisteredQuery]. *)
Definition remove (execution_id : string) (registration_id : Z) (q : RunningQueries) : RunningQueries :=
  match inner q !! execution_id with
  | Some task =>
      if (task_registration_id task =? registration_id)%Z
      then mk_queries (delete execution_id (inner q)) (delete execution_id (interrupts q))
             (next_registration_id q) (next_token q) (cancelled q) (fired q)
      else q
  | None => q
  end.

(** ** Runs *)

(** The registry and the guards still held. *)
Record Held := mk_held { queries : RunningQueries; guards : list RegisteredQuery }.

Inductive step `{HashIter} : Held → Held → Prop :=
| step_register id meta q gs :
    step (mk_held q gs) (mk_held (register_task id meta q).2 ((register_task id meta q).1 :: gs))
| step_interrupt id i q gs : step (mk_held q gs) (mk_held (register_interrupt id i q) gs)
| step_cancel id q gs : step (mk_held q gs) (mk_held (cancel id q).2 gs)
| step_cancel_matching p q gs : step (mk_held q gs) (mk_held (cancel_matching p q).2 gs)
| step_pool id key q gs : step (mk_held q gs) (mk_held (set_pool_key id key q) gs)
| step_drop g gs1 gs2 q :
    step (mk_held q (gs1 ++ g :: gs2)) (mk_held (remove (execution_id g) (registration_id g) q) (gs1 ++ gs2)).

(** Every held guard that was not cancelled is the one registered, and every
    registration was made by a call still accounted for. *)
Record registry_ok (h : Held) : Prop := {
  rk_next : next_registration_id (queries h) = (Z.of_nat (next_token (queries h)) `mod` 2 ^ 64)%Z;
  rk_task id task : inner (queries h) !! id = Some task →
    task_token task < next_token (queries h) ∧
    task_registration_id task = (Z.of_nat (S (task_token task)) `mod` 2 ^ 64)%Z;
  rk_guard g : g ∈ guards h →
    token g < next_token (queries h) ∧ registration_id g = (Z.of_nat (S (token g)) `mod` 2 ^ 64)%Z ∧
    (token g ∈ cancelled (queries h) ∨
     ∃ task, inner (queries h) !! execution_id g = Some task ∧ task_token task = token g);
  rk_distinct : NoDup (token <$> guards h)
}.

(** ** Cancelling *)

(** What a cancellation may change: flags, interrupts and the log. *)
Definition grows (q q' : RunningQueries) : Prop :=
  inner q' = inner q ∧ next_registration_id q' = next_registration_id q ∧ next_token q' = next_token q ∧
  cancelled q ⊆ cancelled q'.

Lemma grows_trans q1 q2 q3 : grows q1 q2 → grows q2 q3 → grows q1 q3.
Proof. intros (?&?&?&?) (?&?&?&?). repeat split; [congruence..|set_solver]. Qed.

Lemma cancel_grows id q : grows q (cancel id q).2.
Proof. unfold cancel. destruct (inner q !! id); repeat split; set_solver. Qed.

Lemma cancel_each_grows ids q : grows q (cancel_each ids q).2.
Proof.
  revert q. induction ids as [|id ids IH]; intros q; simpl; [by repeat split|].
  pose proof (cancel_grows id q) as H1. destruct (cancel id q) as [b q1]. simpl in H1.
  specialize (IH q1). destruct (cancel_each ids q1) as [n q2]. by eapply grows_trans.
Qed.

(** The interrupts held by the named executions, in order. *)
Definition interrupts_of (ids : list string) (q : RunningQueries) : list nat := omap (λ id, interrupts q !! id) ids.

Lemma cancel_each_spec ids q :
  NoDup ids → (∀ id, id ∈ ids → is_Some (inner q !! id)) →
  let '(n, q') := cancel_each ids q in
  n = List.length ids ∧ grows q q' ∧
  (∀ t, t ∈ cancelled q' ↔ t ∈ cancelled q ∨ ∃ id, id ∈ ids ∧ task_token <$> inner q !! id = Some t) ∧
  (∀ id, interrupts q' !! id = if bool_decide (id ∈ ids) then None else interrupts q !! id) ∧
  fired q' = fired q ++ interrupts_of ids q.
Proof.
  revert q. induction ids as [|id ids IH]; intros q Hnd Hin; simpl.
  { split; [done|]. split; [by repeat split|]. split; [set_solver|]. split; [done|]. by rewrite app_nil_r. }
  apply NoDup_cons in Hnd as [Hid Hnd]. destruct (Hin id ltac:(by left)) as [task Htask].
  unfold cancel. rewrite Htask. cbn [fmap option_fmap option_map].
  set (q1 := token_cancel (task_token task) (take_interrupt id q)).
  specialize (IH q1 Hnd (λ id' H', Hin id' (list_elem_of_further _ _ _ H'))).
  destruct (cancel_each ids q1) as [n q2]. destruct IH as (-> & Hg & Hc & Hi & Hf).
  split; [done|]. split.
  { eapply grows_trans; [|exact Hg]. repeat split. simpl. set_solver. }
  split; [|split].
  - intros t. rewrite Hc. simpl. rewrite elem_of_union, elem_of_singleton. split.
    + intros [[->|?]|(id' & ? & ?)]; [right; exists id; rewrite Htask; split; [by left|done]|by left|].
      right. exists id'. split; [by right|done].
    + intros [?|(id' & [->|?]%elem_of_cons & Ht)]; [by left; right| |by right; exists id'].
      rewrite Htask in Ht. injection Ht as <-. by left; left.
  - intros id'. rewrite Hi. simpl. destruct (decide (id' ∈ ids)) as [Hx|Hx].
    + by rewrite !bool_decide_eq_true_2 by (try right; done).
    + rewrite (bool_decide_eq_false_2 (id' ∈ ids)) by done. destruct (decide (id' = id)) as [->|Hne].
      * rewrite lookup_delete_eq, bool_decide_eq_true_2 by left. done.
      * rewrite lookup_delete_ne, bool_decide_eq_false_2; [done| |done].
        by intros [?|?]%elem_of_cons.
  - rewrite Hf. unfold q1, interrupts_of, token_cancel, take_interrupt. cbn [fired interrupts].
    assert (omap (λ id0, delete id (interrupts q) !! id0) ids = omap (λ id0, interrupts q !! id0) ids) as ->.
    { clear -Hid. induction ids as [|x ids IH]; [done|]. apply not_elem_of_cons in Hid as [Hx Hid].
      cbn. rewrite lookup_delete_ne by done. destruct (interrupts q !! x); [f_equal|]; by apply IH. }
    rewrite <-app_assoc. f_equal. cbn. by destruct (interrupts q !! id).
Qed.

Lemma NoDup_filter_fst {A} (p : string * A → bool) (l : list (string * A)) :
  NoDup l.*1 → NoDup (List.filter p l).*1.
Proof.
  induction l as [|x l IH]; [done|]. rewrite fmap_cons. intros [Hx Hl]%NoDup_cons. cbn [List.filter].
  destruct (p x); [|by apply IH]. rewrite fmap_cons. apply NoDup_cons. split; [|by apply IH].
  intros (y & Hy & Hin)%list_elem_of_fmap. apply Hx. rewrite Hy. apply list_elem_of_fmap_2.
  apply list_elem_of_In, filter_In in Hin as [Hin _]. by apply list_elem_of_In.
Qed.

(** ** The invariant *)

Section Invariant.
Context `{HashIter}.

Lemma registry_ok_grows q q' gs : grows q q' → registry_ok (mk_held q gs) → registry_ok (mk_held q' gs).
Proof.
  intros (Hi & Hr & Ht & Hc) [H1 H2 H3 H4]. split; simpl in *.
  - congruence.
  - rewrite Hi, Ht. done.
  - rewrite Hi, Ht. intros g Hg. destruct (H3 g Hg) as (? & ? & [?|?]); (split; [done|]); (split; [done|]); [left; set_solver|by right].
  - done.
Qed.

Lemma u64_succ n : u64_add (Z.of_nat n `mod` 2 ^ 64) 1 = (Z.of_nat (S n) `mod` 2 ^ 64)%Z.
Proof. unfold u64_add. rewrite Zplus_mod_idemp_l. f_equal. lia. Qed.

Lemma registry_ok_register id meta q gs :
  registry_ok (mk_held q gs) →
  registry_ok (mk_held (register_task id meta q).2 ((register_task id meta q).1 :: gs)).
Proof.
  intros [H1 H2 H3 H4]. simpl in *.
  set (q1 := mk_queries (<[id := mk_task (u64_add (next_registration_id q) 1) (next_token q) meta None]> (inner q))
               (interrupts q) (u64_add (next_registration_id q) 1) (S (next_token q)) (cancelled q) (fired q)).
  set (q2 := match inner q !! id with
             | Some task => mk_queries (inner q1) (interrupts q1) (next_registration_id q1) (next_token q1)
                              ({[task_token task]} ∪ cancelled q1) (fired q1)
             | None => q1 end).
  apply (registry_ok_grows q2).
  { unfold q2, register_task. simpl. fold q1. destruct (inner q !! id); repeat split; simpl; set_solver. }
  assert (inner q2 = inner q1 ∧ next_registration_id q2 = next_registration_id q1 ∧ next_token q2 = S (next_token q))
    as (Hi & Hr & Ht) by (unfold q2; by destruct (inner q !! id)).
  split; simpl; rewrite ?Hi, ?Hr, ?Ht.
  - simpl. rewrite H1. apply u64_succ.
  - simpl. intros id' task [[<- <-]|[Hne Hl]]%lookup_insert_Some.
    + simpl. rewrite H1, u64_succ. split; [lia|done].
    + destruct (H2 id' task Hl). split; [lia|done].
  - intros g [->|Hg]%elem_of_cons; simpl.
    + rewrite H1, u64_succ. split; [lia|]. split; [done|]. right. rewrite lookup_insert_eq. by eexists.
    + destruct (H3 g Hg) as (Hlt & Hreg & Hc). split; [lia|]. split; [done|].
      destruct Hc as [Hc|(task & Hl & Htok)]; [left; unfold q2; destruct (inner q !! id); simpl; set_solver|].
      destruct (decide (execution_id g = id)) as [He|Hne].
      * left. unfold q2. rewrite <-He, Hl. simpl. rewrite Htok. set_solver.
      * right. exists task. by rewrite lookup_insert_ne.
  - constructor; [|done]. intros (g & Heq & Hg)%list_elem_of_fmap. destruct (H3 g Hg) as [Hlt _]. lia.
Qed.

Lemma registry_ok_drop g gs1 gs2 q :
  (Z.of_nat (next_token q) < 2 ^ 64)%Z → registry_ok (mk_held q (gs1 ++ g :: gs2)) →
  registry_ok (mk_held (remove (execution_id g) (registration_id g) q) (gs1 ++ gs2)).
Proof.
  intros Hb [H1 H2 H3 H4]. simpl in *.
  assert (∀ g', g' ∈ gs1 ++ gs2 → g' ∈ gs1 ++ g :: gs2 ∧ token g' ≠ token g) as Hin.
  { intros g' Hg'. split; [set_solver|]. rewrite fmap_app, fmap_cons in H4.
    apply NoDup_app in H4 as (_ & Hd & [Hn _]%NoDup_cons). intros Heq. apply elem_of_app in Hg' as [Hg'|Hg'].
    - apply (Hd (token g')); [by apply list_elem_of_fmap_2|]. rewrite Heq. by left.
    - apply Hn. rewrite <-Heq. by apply list_elem_of_fmap_2. }
  assert (NoDup (token <$> gs1 ++ gs2)) as Hnd.
  { rewrite fmap_app, fmap_cons in H4. rewrite fmap_app. rewrite <-Permutation_middle in H4.
    by apply NoDup_cons in H4 as [_ ?]. }
  unfold remove. destruct (inner q !! execution_id g) as [task|] eqn:Hl; [destruct (Z.eqb_spec (task_registration_id task) (registration_id g)) as [He|He]|].
  2, 3: split; simpl; [done|done| |done]; intros g' [Hg' _]%Hin; by apply H3.
  split; simpl; [done| | |done].
  - intros id' task' [_ Hl']%lookup_delete_Some. by apply H2 in Hl'.
  - intros g' [Hg' Hne]%Hin. destruct (H3 g' Hg') as (Hlt & Hreg & Hc). split; [done|]. split; [done|].
    destruct Hc as [Hc|(task' & Hl' & Htok)]; [by left|right]. exists task'. split; [|done].
    rewrite lookup_delete_ne; [done|]. intros Heq. rewrite <-Heq, Hl in Hl'. injection Hl' as <-.
    destruct (H3 g) as (Hltg & Hregg & _); [set_solver|]. destruct (H2 _ _ Hl) as [Hltt Hregt].
    apply Hne. rewrite <-Htok. rewrite Hregt, Hregg in He. rewrite !Z.mod_small in He by lia. lia.
Qed.

Lemma step_next h h' : step h h' → next_token (queries h) ≤ next_token (queries h').
Proof.
  destruct 1 as [id meta q gs| |id q gs|p q gs| |g gs1 gs2 q]; simpl; [destruct (inner q !! id); simpl; lia|lia|..].
  - destruct (cancel_grows id q) as (_ & _ & -> & _). lia.
  - destruct (cancel_each_grows (List.filter (λ kv, p kv.2) (hm_iter (inner q))).*1 q) as (_ & _ & Ht & _).
    unfold cancel_matching. lia.
  - lia.
  - unfold remove. destruct (inner q !! _); [case_match|]; simpl; lia.
Qed.

Lemma registry_ok_step h h' :
  (Z.of_nat (next_token (queries h')) < 2 ^ 64)%Z → step h h' → registry_ok h → registry_ok h'.
Proof.
  intros Hb Hs. pose proof (step_next h h' Hs) as Hn. destruct Hs as [id meta q gs|id i q gs|id q gs|p q gs|id key q gs|g gs1 gs2 q].
  - apply registry_ok_register.
  - by intros [? ? ? ?].
  - apply registry_ok_grows, cancel_grows.
  - apply registry_ok_grows, cancel_each_grows.
  - intros [H1 H2 H3 H4]. split; simpl in *; [done| | |done].
    + intros id' task Hl. destruct (decide (id' = id)) as [->|Hne].
      * rewrite lookup_alter_eq in Hl. destruct (inner q !! id) as [t|] eqn:Ht; [|done]. injection Hl as <-.
        by apply (H2 id t).
      * rewrite lookup_alter_ne in Hl by done. by apply (H2 id').
    + intros g Hg. destruct (H3 g Hg) as (? & ? & [?|(task & Hl & Ht)]); (split; [done|]); (split; [done|]); [by left|right].
      destruct (decide (execution_id g = id)) as [He|Hne].
      * rewrite He, lookup_alter_eq, <-He, Hl. by eexists.
      * rewrite lookup_alter_ne by done. by exists task.
  - apply registry_ok_drop. simpl in *. lia.
Qed.

Lemma registry_ok_run h h' :
  (Z.of_nat (next_token (queries h')) < 2 ^ 64)%Z → rtc step h h' → registry_ok h → registry_ok h'.
Proof.
  intros Hb Hr. induction Hr as [h|h1 h2 h3 Hs Hr IH]; [done|]. intros Hok. apply (IH Hb).
  eapply registry_ok_step; [|exact Hs|exact Hok]. assert (next_token (queries h2) ≤ next_token (queries h3)) as Hn; [|lia].
  clear -Hr. induction Hr as [|? ? ? Hs Hr IH]; [done|]. apply step_next in Hs. lia.
Qed.

Lemma registry_ok_initial : registry_ok (mk_held RunningQueries_default []).
Proof. split; simpl; [done|by intros ? ?|by intros ? ?%elem_of_nil|constructor]. Qed.
End Invariant.

(** ** Properties *)

(** C32: however executions are registered, replaced, cancelled and dropped, a
    guard still held and not cancelled is the registered one: cancelling its
    execution reports success, cancels exactly its token, and fires and forgets
    its interrupt; so dropping a stale guard never unregisters a newer one, and
    two held guards of one execution cannot both be live. *)
Theorem live_query_cancellable `{HashIter} h g :
  rtc step (mk_held RunningQueries_default []) h →
  (Z.of_nat (next_token (queries h)) < 2 ^ 64)%Z →
  g ∈ guards h → token g ∉ cancelled (queries h) →
  (let '(b, q') := cancel (execution_id g) (queries h) in
   b = true ∧ cancelled q' = {[token g]} ∪ cancelled (queries h) ∧
   fired q' = fired (queries h) ++ option_list (interrupts (queries h) !! execution_id g) ∧
   interrupts q' !! execution_id g = None) ∧
  ∀ g', g' ∈ guards h → execution_id g' = execution_id g → token g' ∉ cancelled (queries h) → token g' = token g.
Proof.
  intros Hrun Hb Hg Hlive.
  pose proof (registry_ok_run _ _ Hb Hrun registry_ok_initial) as [_ _ Hgs _].
  destruct (Hgs g Hg) as (_ & _ & [?|(task & Hl & Ht)]); [done|]. split.
  - unfold cancel. rewrite Hl. simpl. rewrite Ht, lookup_delete_eq. by destruct (interrupts (queries h) !! _).
  - intros g' Hg' He Hlive'. destruct (Hgs g' Hg') as (_ & _ & [?|(task' & Hl' & Ht')]); [done|].
    rewrite He in Hl'. congruence.
Qed.

(** [cancel_connection], [cancel_client_session], [cancel_owner_scope]
    and [cancel_all] (all [cancel_matching]) return the number of registered tasks
    that match, cancel the tokens of exactly those, fire exactly their interrupts,
    and leave every other task, token and interrupt alone. *)
Theorem cancel_matching_exact `{HashIter} p q :
  let '(n, q') := cancel_matching p q in
  n = size (filter (λ kv : string * RunningTask, p kv.2 = true) (inner q)) ∧ inner q' = inner q ∧
  (∀ t, t ∈ cancelled q' ↔
     t ∈ cancelled q ∨ ∃ id task, inner q !! id = Some task ∧ p task = true ∧ task_token task = t) ∧
  (∀ id, interrupts q' !! id =
     match inner q !! id with Some task => if p task then None else interrupts q !! id | None => interrupts q !! id end) ∧
  ∃ l, fired q' = fired q ++ l ∧ ∀ i, i ∈ l ↔
    ∃ id task, inner q !! id = Some task ∧ p task = true ∧ interrupts q !! id = Some i.
Proof.
  unfold cancel_matching. set (ids := (List.filter (λ kv : string * RunningTask, p kv.2) (hm_iter (inner q))).*1).
  assert (∀ id, id ∈ ids ↔ ∃ task, inner q !! id = Some task ∧ p task = true) as Hids.
  { intros id. unfold ids. rewrite list_elem_of_fmap. split.
    - intros ([k task] & -> & [Hin Hp]%list_elem_of_In%filter_In). exists task.
      by apply list_elem_of_In, hm_iter_elem in Hin.
    - intros (task & Hl & Hp). exists (id, task). split; [done|].
      apply list_elem_of_In, filter_In. split; [|done]. by apply list_elem_of_In, hm_iter_elem. }
  assert (ids ≡ₚ (map_to_list (filter (λ kv : string * RunningTask, p kv.2 = true) (inner q))).*1) as Hperm.
  { apply NoDup_Permutation.
    - apply NoDup_filter_fst. rewrite hm_iter_perm. apply NoDup_fst_map_to_list.
    - apply NoDup_fst_map_to_list.
    - intros id. rewrite Hids, list_elem_of_fmap. split.
      + intros (task & Hl & Hp). exists (id, task). split; [done|]. by apply elem_of_map_to_list, map_lookup_filter_Some.
      + intros ([k task] & -> & [Hl Hp]%elem_of_map_to_list%map_lookup_filter_Some). by exists task. }
  pose proof (cancel_each_spec ids q) as Hspec. destruct (cancel_each ids q) as [n q'].
  destruct Hspec as (-> & (Hi & _) & Hc & Hint & Hf).
  { rewrite Hperm. apply NoDup_fst_map_to_list. }
  { intros id (task & Hl & _)%Hids. by exists task. }
  split; [by rewrite Hperm, length_fmap, length_map_to_list|]. split; [done|]. split; [|split].
  - intros t. rewrite Hc. f_equiv. split.
    + intros (id & (task & Hl & Hp)%Hids & Ht). rewrite Hl in Ht. injection Ht as <-. by exists id, task.
    + intros (id & task & Hl & Hp & <-). exists id. rewrite Hids, Hl. split; [by exists task|done].
  - intros id. rewrite Hint. case_bool_decide as Hd.
    + apply Hids in Hd as (task & -> & ->). done.
    + destruct (inner q !! id) as [task|] eqn:Hl; [|done]. destruct (p task) eqn:Hp; [|done].
      exfalso. apply Hd, Hids. by exists task.
  - exists (interrupts_of ids q). split; [done|]. intros i. unfold interrupts_of. rewrite list_elem_of_omap. split.
    + intros (id & (task & Hl & Hp)%Hids & Hi'). by exists id, task.
    + intros (id & task & Hl & Hp & Hi'). exists id. rewrite Hids. split; [by exists task|done].
Qed.

(** ** Concrete runs *)

Section Witnesses.
#[local] Existing Instance key_order.

Definition demo_meta : RunningTaskMetadata := RunningTaskMetadata_query "c1" "db" (Some "tab-7:export").
Definition demo_replaced : Held :=
  let '(g1, q1) := register_task "exec" demo_meta RunningQueries_default in
  let '(g2, q2) := register_task "exec" demo_meta q1 in
  mk_held q2 [g2; g1].

Lemma live_query_cancellable_witness :
  cancelled (cancel "exec" (queries demo_replaced)).2 = {[1]} ∪ cancelled (queries demo_replaced).
Proof.
  assert (rtc step (mk_held RunningQueries_default []) demo_replaced) as Hrun.
  { eapply rtc_l; [apply (step_register "exec" demo_meta)|].
    apply rtc_once. exact (step_register "exec" demo_meta (register_task "exec" demo_meta RunningQueries_default).2
      [(register_task "exec" demo_meta RunningQueries_default).1]). }
  destruct (live_query_cancellable demo_replaced (mk_registered "exec" 2 1) Hrun) as [H _].
  - vm_compute. done.
  - left.
  - apply (bool_decide_unpack _). vm_compute. exact I.
  - change (execution_id (mk_registered "exec" 2 1)) with "exec" in H.
    destruct (cancel "exec" (queries demo_replaced)) as [b q']. by destruct H as (_ & H & _).
Defined.

Lemma cancel_matching_exact_witness : (cancel_owner_scope "tab-7" (queries demo_replaced)).1 = 1.
Proof.
  pose proof (cancel_matching_exact (λ task, bool_decide (owner_scope (task_metadata task) = Some "tab-7"))
    (queries demo_replaced)) as H.
  unfold cancel_owner_scope. destruct (cancel_matching _ _) as [n q']. destruct H as [-> _]. by vm_compute.
Defined.
End Witnesses.
