(* ===== verification/McpSession.v ===== *)
(** * MCP sessions (dbx-mcp/src/session.rs)

    Sessions pin a backend pool. Every operation first sweeps the sessions idle
    for [SESSION_IDLE_TTL] out of the active table and hands them to its caller;
    a session being closed stays counted until its pool is closed. The clock
    and the uuid are arguments; the mutex makes each operation one step. *)
From S2P Require Import Prelude RustStr.
From stdpp Require Import relations.

(** Nanoseconds. *)
Definition SESSION_IDLE_TTL : Z := 1800000000000.
Definition MAX_SESSIONS : nat := 32.

Record McpSession := mk_session {
  id : string;
  connection_id : string;
  database : string;
  client_session_id : string;
  last_used : Z
}.

Record McpSessionState := mk_state { active : gmap string McpSession; closing : gmap string McpSession }.

Definition McpSessionStore_new : McpSessionState := mk_state ∅ ∅.

(** [now.duration_since(last_used)] saturates at zero. *)
Definition duration_since (now earlier : Z) : Z := Z.max 0 (now - earlier).

Definition is_idle (now : Z) (s : McpSession) : bool := (SESSION_IDLE_TTL <=? duration_since now (last_used s))%Z.

Section Operations.
Context `{HashIter}.
Implicit Types (st : McpSessionState).

(** What [retain] keeps, and the sessions it pushes to [expired]. *)
Definition sweep_expired (now : Z) (sessions : gmap string McpSession) : list McpSession * gmap string McpSession :=
  (List.filter (is_idle now) (hm_iter sessions).*2,
   filter (λ kv : string * McpSession, is_idle now kv.2 = false) sessions).

Definition open (now : Z) (uuid connection_id database : string) st
    : (result McpSession string * list McpSession) * McpSessionState :=
  let '(expired, act) := sweep_expired now (active st) in
  if MAX_SESSIONS <=? size act + size (closing st) then
    ((Err ("Too many open MCP sessions (max " +:+ pretty MAX_SESSIONS
           +:+ "). Close unused sessions with dbx_close_session."), expired), mk_state act (closing st))
  else
    let id := "mcp-session-" +:+ uuid in
    let session := mk_session id connection_id database ("mcp:" +:+ id) now in
    ((Ok session, expired), mk_state (<[id := session]> act) (closing st)).

Definition touch (now : Z) (s : McpSession) : McpSession :=
  mk_session (id s) (connection_id s) (database s) (client_session_id s) now.

Definition resolve (now : Z) (session_id : string) st : (option McpSession * list McpSession) * McpSessionState :=
  let '(expired, act) := sweep_expired now (active st) in
  let act' := alter (touch now) session_id act in
  ((act' !! session_id, expired), mk_state act' (closing st)).

Definition begin_close (now : Z) (session_id : string) st : (option McpSession * list McpSession) * McpSessionState :=
  let '(expired, act) := sweep_expired now (active st) in
  match act !! session_id with
  | Some session => ((Some session, expired), mk_state (delete session_id act) (<[id session := session]> (closing st)))
  | None => ((None, expired), mk_state act (closing st))
  end.

Definition finish_close (session_id : string) st : McpSessionState :=
  mk_state (active st) (delete session_id (closing st)).

Definition restore_after_failed_close (now : Z) (session : McpSession) st : McpSessionState :=
  match closing st !! id session with
  | Some _ => mk_state (<[id session := touch now session]> (active st)) (delete (id session) (closing st))
  | None => st
  end.

(** ** Runs *)

(** The store, every session id issued, and those handed back to a caller
    because they expired or because their close finished. *)
Record Store := mk_store { state : McpSessionState; issued : gset string; expired_ids : gset string; closed_ids : gset string }.

Definition ids_of (l : list McpSession) : gset string := list_to_set (id <$> l).

Inductive step : Store → Store → Prop :=
| step_open now uuid c d st i e f r ex st' :
    "mcp-session-" +:+ uuid ∉ i →
    open now uuid c d st = ((r, ex), st') →
    step (mk_store st i e f)
      (mk_store st' (match r with Ok s => {[id s]} | Err _ => ∅ end ∪ i) (ids_of ex ∪ e) f)
| step_resolve now sid st i e f r ex st' :
    resolve now sid st = ((r, ex), st') → step (mk_store st i e f) (mk_store st' i (ids_of ex ∪ e) f)
| step_begin_close now sid st i e f r ex st' :
    begin_close now sid st = ((r, ex), st') → step (mk_store st i e f) (mk_store st' i (ids_of ex ∪ e) f)
| step_finish_close sid st i e f :
    step (mk_store st i e f)
      (mk_store (finish_close sid st) i e (match closing st !! sid with Some _ => {[sid]} | None => ∅ end ∪ f))
| step_restore now s st i e f :
    step (mk_store st i e f) (mk_store (restore_after_failed_close now s st) i e f).

Record store_ok (x : Store) : Prop := {
  so_active k s : active (state x) !! k = Some s → id s = k;
  so_closing k s : closing (state x) !! k = Some s → id s = k;
  so_cap : size (active (state x)) + size (closing (state x)) ≤ MAX_SESSIONS;
  so_all : issued x = dom (active (state x)) ∪ dom (closing (state x)) ∪ expired_ids x ∪ closed_ids x;
  so_apart : dom (active (state x)) ## dom (closing (state x)) ∧
             dom (active (state x)) ∪ dom (closing (state x)) ## expired_ids x ∪ closed_ids x ∧
             expired_ids x ## closed_ids x
}.

(** ** The sweep *)

Lemma sweep_expired_spec now m :
  let '(ex, act) := sweep_expired now m in
  (∀ k s, act !! k = Some s ↔ m !! k = Some s ∧ is_idle now s = false) ∧
  (∀ s, s ∈ ex ↔ (∃ k, m !! k = Some s) ∧ is_idle now s = true) ∧ size act ≤ size m.
Proof.
  simpl. split; [|split].
  - intros k s. by rewrite map_lookup_filter_Some.
  - intros s. rewrite list_elem_of_In, filter_In, <-list_elem_of_In. f_equiv. rewrite list_elem_of_fmap. split.
    + intros ([k s'] & -> & Hin%hm_iter_elem). by exists k.
    + intros [k Hk]. exists (k, s). split; [done|]. by apply hm_iter_elem.
  - apply map_subseteq_size, map_filter_subseteq.
Qed.

(** Sweeping moves the idle ids from the active table to the expired ones. *)
Lemma sweep_ids now m :
  (∀ k s, m !! k = Some s → id s = k) →
  let '(ex, act) := sweep_expired now m in
  dom m = dom act ∪ ids_of ex ∧ dom act ## ids_of ex ∧ (∀ k s, act !! k = Some s → id s = k) ∧ size act ≤ size m.
Proof.
  intros Hid. pose proof (sweep_expired_spec now m) as Hs. destruct (sweep_expired now m) as [ex act].
  destruct Hs as (Ha & He & Hsz).
  assert (∀ k, k ∈ ids_of ex ↔ ∃ s, m !! k = Some s ∧ is_idle now s = true) as Hex.
  { intros k. unfold ids_of. rewrite elem_of_list_to_set, list_elem_of_fmap. split.
    - intros (s & -> & [[k' Hk'] Hi]%He). exists s. by rewrite (Hid _ _ Hk').
    - intros (s & Hk & Hi). exists s. split; [by rewrite (Hid _ _ Hk)|]. apply He. eauto. }
  split; [|split; [|split; [|done]]].
  - apply set_eq. intros k. rewrite elem_of_union, Hex, !elem_of_dom. split.
    + intros [s Hs]. destruct (is_idle now s) eqn:Hi; [right; by exists s|left; exists s; by apply Ha].
    + intros [[s [Hs _]%Ha]|(s & Hs & _)]; by exists s.
  - intros k [s [Hs Hi]%Ha]%elem_of_dom (s' & Hs' & Hi')%Hex. congruence.
  - intros k s [Hs _]%Ha. by apply Hid.
Qed.
End Operations.

(** ** Preservation *)

Section Invariant.
Context `{HashIter}.

Lemma store_ok_swept now st i e f ex act :
  store_ok (mk_store st i e f) → sweep_expired now (active st) = (ex, act) →
  store_ok (mk_store (mk_state act (closing st)) i (ids_of ex ∪ e) f).
Proof.
  intros [H1 H2 H3 H4 (H5 & H6 & H7)] Hs. pose proof (sweep_ids now (active st) H1) as Hsw. rewrite Hs in Hsw.
  destruct Hsw as (Hd & Hap & Hid & Hsz). simpl in *. rewrite Hd in *. split; simpl; [done|done|lia|set_solver|].
  split; [set_solver|split; set_solver].
Qed.

Lemma store_ok_insert k s act cl i e f :
  id s = k → k ∉ i → size act + size cl < MAX_SESSIONS →
  store_ok (mk_store (mk_state act cl) i e f) → store_ok (mk_store (mk_state (<[k := s]> act) cl) ({[k]} ∪ i) e f).
Proof.
  intros Hk Hi Hsz [H1 H2 H3 H4 (H5 & H6 & H7)]. simpl in *. split; simpl.
  - intros k' s' [[<- <-]|[_ ?]]%lookup_insert_Some; [done|by apply H1].
  - done.
  - rewrite map_size_insert. destruct (act !! k); simpl; lia.
  - rewrite dom_insert_L. set_solver.
  - rewrite dom_insert_L. split; [|split]; set_solver.
Qed.

Lemma store_ok_touch now sid act cl i e f :
  store_ok (mk_store (mk_state act cl) i e f) → store_ok (mk_store (mk_state (alter (touch now) sid act) cl) i e f).
Proof.
  intros [H1 H2 H3 H4 H5]. simpl in *.
  assert (dom (alter (touch now) sid act) = dom act) as Hd by apply dom_alter_L.
  split; simpl; rewrite ?Hd; [|done| |done|done].
  - intros k s. destruct (decide (k = sid)) as [->|Hne].
    + rewrite lookup_alter_eq. intros (s' & Hs' & ->)%fmap_Some. simpl. by apply H1.
    + rewrite lookup_alter_ne by done. apply H1.
  - rewrite <-(size_dom (D := gset string) (alter _ _ _)), Hd, size_dom. done.
Qed.

(** Moving a session between the two tables. *)
Lemma store_ok_close sid s act cl i e f :
  act !! sid = Some s → store_ok (mk_store (mk_state act cl) i e f) →
  store_ok (mk_store (mk_state (delete sid act) (<[id s := s]> cl)) i e f).
Proof.
  intros Hs [H1 H2 H3 H4 (H5 & H6 & H7)]. simpl in *. pose proof (H1 _ _ Hs) as <-.
  assert (id s ∈ dom act) as Hin by by eapply elem_of_dom_2.
  assert (size act ≠ 0) as Hpos by (intros Hz; apply map_size_empty_inv in Hz; subst; by rewrite lookup_empty in Hs).
  split; simpl.
  - intros k s' [_ ?]%lookup_delete_Some. by apply H1.
  - intros k s' [[<- <-]|[_ ?]]%lookup_insert_Some; [done|by apply H2].
  - rewrite map_size_delete, map_size_insert, Hs. destruct (cl !! id s); simpl; lia.
  - rewrite dom_delete_L, dom_insert_L, H4. apply set_eq. intros k.
    destruct (decide (k = id s)); set_solver.
  - rewrite dom_delete_L, dom_insert_L. split; [|split]; set_solver.
Qed.

Lemma store_ok_restore now s s' act cl i e f :
  cl !! id s = Some s' → store_ok (mk_store (mk_state act cl) i e f) →
  store_ok (mk_store (mk_state (<[id s := touch now s]> act) (delete (id s) cl)) i e f).
Proof.
  intros Hs [H1 H2 H3 H4 (H5 & H6 & H7)]. simpl in *.
  assert (id s ∈ dom cl) as Hin by by eapply elem_of_dom_2.
  assert (size cl ≠ 0) as Hpos by (intros Hz; apply map_size_empty_inv in Hz; subst; by rewrite lookup_empty in Hs).
  split; simpl.
  - intros k s0 [[<- <-]|[_ ?]]%lookup_insert_Some; [done|by apply H1].
  - intros k s0 [_ ?]%lookup_delete_Some. by apply H2.
  - rewrite map_size_delete, map_size_insert, Hs. destruct (act !! id s); simpl; lia.
  - rewrite dom_delete_L, dom_insert_L, H4. apply set_eq. intros k.
    destruct (decide (k = id s)); set_solver.
  - rewrite dom_delete_L, dom_insert_L. split; [|split]; set_solver.
Qed.

Lemma store_ok_finish sid s act cl i e f :
  cl !! sid = Some s → store_ok (mk_store (mk_state act cl) i e f) →
  store_ok (mk_store (mk_state act (delete sid cl)) i e ({[sid]} ∪ f)).
Proof.
  intros Hs [H1 H2 H3 H4 (H5 & H6 & H7)]. simpl in *.
  assert (sid ∈ dom cl) as Hin by by eapply elem_of_dom_2.
  split; simpl.
  - done.
  - intros k s0 [_ ?]%lookup_delete_Some. by apply H2.
  - rewrite map_size_delete, Hs. simpl. lia.
  - rewrite dom_delete_L, H4. apply set_eq. intros k. destruct (decide (k = sid)); set_solver.
  - rewrite dom_delete_L. split; [|split]; set_solver.
Qed.

Lemma store_ok_step x x' : step x x' → store_ok x → store_ok x'.
Proof.
  destruct 1 as [now uuid c d st i e f r ex st' Hfresh Ho|now sid st i e f r ex st' Hr
                |now sid st i e f r ex st' Hc|sid st i e f|now s st i e f]; intros Hok.
  - unfold open in Ho. destruct (sweep_expired now (active st)) as [ex' act] eqn:Hs.
    pose proof (store_ok_swept _ _ _ _ _ _ _ Hok Hs) as Hok'.
    destruct (Nat.leb_spec MAX_SESSIONS (size act + size (closing st))); injection Ho as <- <- <-.
    + by rewrite union_empty_l_L.
    + simpl. by apply store_ok_insert.
  - unfold resolve in Hr. destruct (sweep_expired now (active st)) as [ex' act] eqn:Hs.
    injection Hr as _ <- <-. by eapply store_ok_touch, store_ok_swept.
  - unfold begin_close in Hc. destruct (sweep_expired now (active st)) as [ex' act] eqn:Hs.
    pose proof (store_ok_swept _ _ _ _ _ _ _ Hok Hs) as Hok'.
    destruct (act !! sid) as [s|] eqn:Hl; injection Hc as _ <- <-; [by apply store_ok_close|done].
  - unfold finish_close. destruct st as [act cl]. simpl. destruct (cl !! sid) as [s|] eqn:Hl.
    + by eapply store_ok_finish.
    + rewrite union_empty_l_L, delete_id by done. done.
  - unfold restore_after_failed_close. destruct (closing st !! id s) as [s'|] eqn:Hl; [|done].
    destruct st as [act cl]. by eapply store_ok_restore.
Qed.
End Invariant.

(** ** Properties *)

(** C33: in every run, with fresh uuids, at most [MAX_SESSIONS] sessions hold
    a pool, and no session is lost or counted twice: each id ever issued is in
    exactly one of the active table, the closing table, the sessions handed back
    as expired, and the sessions whose close finished. *)
Theorem sessions_accounted `{HashIter} x :
  rtc step (mk_store McpSessionStore_new ∅ ∅ ∅) x →
  size (active (state x)) + size (closing (state x)) ≤ MAX_SESSIONS ∧
  issued x = dom (active (state x)) ∪ dom (closing (state x)) ∪ expired_ids x ∪ closed_ids x ∧
  dom (active (state x)) ## dom (closing (state x)) ∧
  dom (active (state x)) ∪ dom (closing (state x)) ## expired_ids x ∪ closed_ids x ∧
  expired_ids x ## closed_ids x.
Proof.
  intros Hrun.
  assert (store_ok (mk_store McpSessionStore_new ∅ ∅ ∅)) as H0.
  { split; simpl; [by intros ? ?|by intros ? ?|rewrite !map_size_empty; unfold MAX_SESSIONS; lia|set_solver|set_solver]. }
  assert (store_ok x) as [_ _ H3 H4 H5]; [|done].
  clear -Hrun H0. induction Hrun; [done|]. eauto using store_ok_step.
Qed.

(** [resolve] answers with a session exactly when it is active and was
    used less than [SESSION_IDLE_TTL] ago, refreshes it so that it stays for
    another full period, and hands back exactly the active sessions idle longer,
    none of which remains. *)
Theorem resolve_idle `{HashIter} now sid st :
  (∀ k s, active st !! k = Some s → id s = k) →
  let '((r, ex), st') := resolve now sid st in
  (∀ s', r = Some s' ↔ ∃ s, active st !! sid = Some s ∧ is_idle now s = false ∧ s' = touch now s) ∧
  (∀ later s', r = Some s' → (later - now < SESSION_IDLE_TTL)%Z → is_idle later s' = false) ∧
  (∀ s, s ∈ ex ↔ active st !! id s = Some s ∧ is_idle now s = true) ∧
  (∀ k s, active st' !! k = Some s → is_idle now s = false) ∧ closing st' = closing st.
Proof.
  intros Hid. unfold resolve. pose proof (sweep_expired_spec now (active st)) as Hs.
  destruct (sweep_expired now (active st)) as [ex act]. destruct Hs as (Ha & He & _).
  assert (∀ s, is_idle now (touch now s) = false) as Ht.
  { intros s. unfold is_idle, duration_since, SESSION_IDLE_TTL. simpl. apply Z.leb_gt. lia. }
  rewrite lookup_alter_eq. split; [|split; [|split; [|split; [|done]]]].
  - intros s'. rewrite fmap_Some. setoid_rewrite Ha. naive_solver.
  - intros later s' (s & Hs & ->)%fmap_Some Hl. unfold is_idle, duration_since, SESSION_IDLE_TTL in *. simpl.
    apply Z.leb_gt. lia.
  - intros s. rewrite He. split.
    + intros [[k Hk] Hi]. by rewrite (Hid _ _ Hk).
    + intros [Hk Hi]. eauto.
  - intros k s. simpl. destruct (decide (k = sid)) as [->|Hne].
    + rewrite lookup_alter_eq. intros (s0 & _ & ->)%fmap_Some. done.
    + rewrite lookup_alter_ne by done. by intros [_ ?]%Ha.
Qed.

(** ** Concrete runs *)

Section Witnesses.
#[local] Existing Instance key_order.

Definition demo_open : (result McpSession string * list McpSession) * McpSessionState :=
  open 5 "u1" "c" "d" McpSessionStore_new.
Definition demo_store : Store := mk_store demo_open.2 {["mcp-session-u1"]} ∅ ∅.

Lemma sessions_accounted_witness : size (active (state demo_store)) + size (closing (state demo_store)) ≤ MAX_SESSIONS.
Proof.
  apply (sessions_accounted demo_store). apply rtc_once.
  pose proof (step_open 5 "u1" "c" "d" McpSessionStore_new ∅ ∅ ∅ demo_open.1.1 [] demo_open.2) as H.
  unfold demo_store. rewrite <-(union_empty_r_L {["mcp-session-u1"]}). apply H; [set_solver|]. reflexivity.
Defined.

Lemma resolve_idle_witness : (resolve 1800000000005 "mcp-session-u1" (state demo_store)).1.1 = None.
Proof.
  pose proof (resolve_idle 1800000000005 "mcp-session-u1" (state demo_store)) as H.
  destruct (resolve 1800000000005 "mcp-session-u1" (state demo_store)) as [[r ex] st']. destruct H as [H _].
  - assert (active (state demo_store) = {["mcp-session-u1" := mk_session "mcp-session-u1" "c" "d" "mcp:mcp-session-u1" 5]})
      as -> by reflexivity.
    by intros k s [<- <-]%lookup_singleton_Some.
  - destruct r as [s|]; [|done]. exfalso. destruct (proj1 (H s) eq_refl) as (s0 & Hl & Hi & _).
    vm_compute in Hl. injection Hl as <-. by vm_compute in Hi.
Defined.
End Witnesses.
