(* ===== verification/ListIndex.v ===== *)
(** * List indices and ranges (list_index.rs)

    [1], [#2], [1-15], [1..15], [#1:#15]: the scanner works on the bytes of the
    trimmed text; [usize] values are 64-bit. *)
From S2P Require Import Prelude RustStr.

Definition DEFAULT_PARALLEL_CONCURRENCY : nat := 15.
Definition MAX_LIST_INDEX_RANGE_WARN_SIZE : nat := 100.

(** [str::parse::<usize>] on a string of digits. *)
Fixpoint digits_value (acc : Z) (s : string) : Z :=
  match s with
  | EmptyString => acc
  | String a s' => digits_value (acc * 10 + (Z.of_N (ch a) - 48)) s'
  end.

Definition parse_usize (digits : string) : option Z :=
  let v := digits_value 0 digits in if (v <=? u64_max)%Z then Some v else None.

Fixpoint all_digits (s : string) : bool :=
  match s with EmptyString => true | String a s' => is_ascii_digit (ch a) && all_digits s' end.

Definition strip_hash (s : string) : string :=
  match s with String "#" s' => s' | _ => s end.

Definition parse_list_index (value : string) : option Z :=
  let trimmed := trim value in
  if is_empty trimmed then None
  else
    let digits := strip_hash trimmed in
    if negb (all_digits digits) || is_empty digits then None
    else match parse_usize digits with
         | Some index => if (1 <=? index)%Z then Some index else None
         | None => None
         end.

(** The two byte loops of the scanner. *)
Fixpoint span_digits (s : string) : string * string :=
  match s with
  | String a s' => if is_ascii_digit (ch a) then let '(d, r) := span_digits s' in (String a d, r) else ("", s)
  | EmptyString => ("", "")
  end.

Fixpoint skip_ws (s : string) : string :=
  match s with
  | String a s' => if is_ascii_whitespace (ch a) then skip_ws s' else s
  | EmptyString => ""
  end.

Definition strip_sep (s : string) : option string :=
  match s with
  | String "." (String "." r) => Some r
  | String "-" r => Some r
  | String ":" r => Some r
  | _ => None
  end.

Definition regex_lite_range (trimmed : string) : option (Z * Z) :=
  let '(d1, r1) := span_digits (strip_hash trimmed) in
  if is_empty d1 then None
  else
    start ← parse_usize d1;
    r2 ← strip_sep (skip_ws r1);
    let '(d2, r3) := span_digits (strip_hash (skip_ws r2)) in
    if is_empty d2 || negb (is_empty r3) then None
    else end_ ← parse_usize d2; Some (start, end_).

Definition parse_list_index_range (value : string) : result (option (list Z)) string :=
  let trimmed := trim value in
  if is_empty trimmed then Ok None
  else
    match parse_list_index trimmed with
    | Some single => Ok (Some [single])
    | None =>
        match regex_lite_range trimmed with
        | None => Ok None
        | Some (start, end_) =>
            if (start <? 1)%Z then Err ("Range start must be >= 1. Got " +:+ pretty start +:+ ".")
            else if (end_ <? start)%Z
            then Err ("Invalid range: start (" +:+ pretty start +:+ ") must be <= end (" +:+ pretty end_ +:+ ").")
            else Ok (Some (seqZ start (end_ - start + 1)))
        end
    end.

Definition item_at_list_index {A} (items : list A) (index : nat) : option A :=
  if (index <? 1) || (List.length items <? index) then None else items !! (index - 1).

(** ** Lemmas *)

Lemma digits_value_ge s acc : (0 ≤ acc)%Z → all_digits s = true → (acc ≤ digits_value acc s)%Z.
Proof.
  revert acc. induction s as [|a s IH]; intros acc Hacc Hd; [done|]. cbn [digits_value all_digits] in *.
  apply andb_true_iff in Hd as [Ha Hd]. unfold is_ascii_digit in Ha. apply andb_true_iff in Ha as [H1%N.leb_le H2%N.leb_le].
  etrans; [|apply IH; [lia|done]]. lia.
Qed.

Lemma span_digits_spec s : let '(d, r) := span_digits s in s = (d +:+ r)%string ∧ all_digits d = true.
Proof.
  induction s as [|a s IH]; [done|]. cbn [span_digits]. destruct (is_ascii_digit (ch a)) eqn:Ha; [|done].
  destruct (span_digits s) as [d r]. destruct IH as [-> Hd]. cbn. by rewrite Ha, Hd.
Qed.

(** The digits end where a non-digit begins. *)
Definition no_digit (s : string) : Prop := match s with String a _ => is_ascii_digit (ch a) = false | EmptyString => True end.

Lemma span_digits_app d r : all_digits d = true → no_digit r → span_digits (d +:+ r)%string = (d, r).
Proof.
  induction d as [|a d IH]; intros Hd Hr.
  - destruct r as [|a r]; [done|]. cbn in *. by rewrite Hr.
  - cbn in *. apply andb_true_iff in Hd as [Ha Hd]. by rewrite Ha, IH.
Qed.

Definition no_ws (s : string) : Prop := match s with String a _ => is_ascii_whitespace (ch a) = false | EmptyString => True end.

Fixpoint all_ws (s : string) : bool :=
  match s with EmptyString => true | String a s' => is_ascii_whitespace (ch a) && all_ws s' end.

Lemma skip_ws_app w r : all_ws w = true → no_ws r → skip_ws (w +:+ r)%string = r.
Proof.
  induction w as [|a w IH]; intros Hw Hr.
  - destruct r as [|a r]; [done|]. cbn in *. by rewrite Hr.
  - cbn in *. apply andb_true_iff in Hw as [Ha Hw]. rewrite Ha. by apply IH.
Qed.

Lemma digit_not a : is_ascii_digit (ch a) = true → a ≠ "#"%char ∧ is_ascii_whitespace (ch a) = false.
Proof. destruct a as [[] [] [] [] [] [] [] []]; by vm_compute. Qed.

Lemma ws_not_digit a : is_ascii_whitespace (ch a) = true → is_ascii_digit (ch a) = false.
Proof. destruct a as [[] [] [] [] [] [] [] []]; by vm_compute. Qed.

Lemma strip_hash_digits d r : all_digits d = true → d ≠ "" → strip_hash (d +:+ r)%string = (d +:+ r)%string.
Proof.
  intros Hd Hne. destruct d as [|a d]; [done|]. cbn in *. apply andb_true_iff in Hd as [[Ha _]%digit_not _].
  destruct a as [[] [] [] [] [] [] [] []]; try done.
Qed.

(** ** Properties *)

(** Every range the scanner accepts is a non-empty run of consecutive
    indices, all at least 1 and within [usize]; it reports an error exactly for a
    well-formed range that starts at 0 or runs backwards; and indexing with a
    returned index is 1-based and bounds-checked. *)
Theorem parse_range_sound value :
  match parse_list_index_range value with
  | Ok (Some l) => ∃ a b, (1 ≤ a ≤ b)%Z ∧ (b ≤ u64_max)%Z ∧ l = seqZ a (b - a + 1)
  | Ok None => parse_list_index (trim value) = None ∧ (trim value ≠ "" → regex_lite_range (trim value) = None)
  | Err _ => ∃ a b, regex_lite_range (trim value) = Some (a, b) ∧ (a < 1 ∨ b < a)%Z
  end ∧
  ∀ (A : Type) (items : list A) i x, item_at_list_index items i = Some x ↔ 1 ≤ i ∧ items !! (i - 1) = Some x.
Proof.
  split.
  - unfold parse_list_index_range.
    assert (∀ s v, parse_usize s = Some v → (v ≤ u64_max)%Z) as Hu.
    { intros s v. unfold parse_usize. destruct (Z.leb_spec (digits_value 0 s) u64_max); naive_solver. }
    destruct (is_empty (trim value)) eqn:He.
    { assert (trim value = "") as -> by (by destruct (trim value)). done. }
    destruct (parse_list_index (trim value)) as [n|] eqn:Hn.
    { unfold parse_list_index in Hn. destruct (is_empty (trim (trim value))); [done|].
      destruct (negb _ || _); [done|]. destruct (parse_usize _) as [v|] eqn:Hv; [|done].
      destruct (Z.leb_spec 1 v); [|done]. injection Hn as <-. exists v, v. split; [lia|]. split; [by eapply Hu|].
      replace (v - v + 1)%Z with 1%Z by lia. done. }
    destruct (regex_lite_range (trim value)) as [[a b]|] eqn:Hr; [|done].
    destruct (Z.ltb_spec a 1); [exists a, b; split; [done|by left]|].
    destruct (Z.ltb_spec b a); [exists a, b; split; [done|by right]|].
    exists a, b. split; [lia|]. split; [|done]. unfold regex_lite_range in Hr.
    destruct (span_digits _) as [d1 r1]. destruct (is_empty d1); [done|].
    destruct (parse_usize d1); [|done]. simpl in Hr. destruct (strip_sep _) as [r2|]; [|done]. simpl in Hr.
    destruct (span_digits _) as [d2 r3]. destruct (is_empty d2 || negb (is_empty r3)); [done|].
    destruct (parse_usize d2) as [e|] eqn:Hd2; [|done]. simpl in Hr. injection Hr as _ <-. by eapply Hu.
  - intros A items i x. unfold item_at_list_index.
    destruct (Nat.ltb_spec i 1); [|destruct (Nat.ltb_spec (List.length items) i)]; simpl.
    + split; [done|]. intros [? _]. lia.
    + split; [done|]. intros [_ Hx%lookup_lt_Some]. lia.
    + split; [done|]. by intros [_ ?].
Qed.

(** The scanner accepts every written range: an optional '#', a
    run of digits, blanks, one of "-", ":" and "..", blanks, an optional '#' and
    a run of digits, with both values read in decimal. *)
Theorem regex_lite_range_accepts h1 d1 w1 sep w2 h2 d2 v1 v2 :
  h1 ∈ [""; "#"] → h2 ∈ [""; "#"] → sep ∈ ["-"; ":"; ".."] →
  all_digits d1 = true → all_digits d2 = true → d1 ≠ "" → d2 ≠ "" → all_ws w1 = true → all_ws w2 = true →
  parse_usize d1 = Some v1 → parse_usize d2 = Some v2 →
  regex_lite_range (h1 +:+ d1 +:+ w1 +:+ sep +:+ w2 +:+ h2 +:+ d2) = Some (v1, v2).
Proof.
  intros Hh1 Hh2 Hsep Hd1 Hd2 Hne1 Hne2 Hw1 Hw2 Hv1 Hv2.
  assert (∀ h d r, h ∈ [""; "#"] → all_digits d = true → d ≠ "" → strip_hash (h +:+ d +:+ r)%string = (d +:+ r)%string) as Hstrip.
  { intros h d r [->|[->|Hx]%elem_of_cons]%elem_of_cons Hd Hne; [exact (strip_hash_digits d r Hd Hne)|done|by apply elem_of_nil in Hx]. }
  assert (∀ w r, all_ws w = true → no_digit r → no_digit (w +:+ r)%string) as Hwd.
  { intros [|a w] r Hw Hr; [done|]. cbn in *. apply andb_true_iff in Hw as [Hw _]. by apply ws_not_digit. }
  assert (no_digit (sep +:+ w2 +:+ h2 +:+ d2) ∧ no_ws (sep +:+ w2 +:+ h2 +:+ d2) ∧
    strip_sep (sep +:+ w2 +:+ h2 +:+ d2) = Some (w2 +:+ h2 +:+ d2)%string) as (Hs1 & Hs2 & Hs3).
  { apply elem_of_cons in Hsep as [->|[->|[->|Hx]%elem_of_cons]%elem_of_cons]; [done..|by apply elem_of_nil in Hx]. }
  assert (no_ws (h2 +:+ d2)) as Hh2w.
  { apply elem_of_cons in Hh2 as [->|[->|Hx]%elem_of_cons]; [|done|by apply elem_of_nil in Hx].
    destruct d2 as [|a d2]; [done|]. cbn in *. apply andb_true_iff in Hd2 as [[_ ?]%digit_not _]. done. }
  assert (∀ s, s ≠ "" → is_empty s = false) as Hemp by (by intros []).
  unfold regex_lite_range. rewrite Hstrip by done. rewrite span_digits_app by (try done; by apply Hwd).
  rewrite Hemp, Hv1 by done. cbn [mbind option_bind]. rewrite skip_ws_app, Hs3 by done. cbn [mbind option_bind].
  rewrite skip_ws_app by done. pose proof (Hstrip h2 d2 "" Hh2 Hd2 Hne2) as Hst. rewrite !string_app_nil_r in Hst.
  rewrite Hst. pose proof (span_digits_app d2 "" Hd2 I) as Hsp. rewrite string_app_nil_r in Hsp.
  rewrite Hsp, Hemp, Hv2 by done. done.
Qed.

(** ** Concrete inputs *)

Example range_dots : parse_list_index_range " #3 .. 5 " = Ok (Some [3; 4; 5]%Z).
Proof. vm_compute. reflexivity. Qed.

Example range_backwards : is_ok (parse_list_index_range "5-3") = false.
Proof. vm_compute. reflexivity. Qed.

Lemma regex_lite_range_accepts_witness : regex_lite_range "#1 ..#15" = Some (1, 15)%Z.
Proof.
  apply (regex_lite_range_accepts "#" "1" " " ".." "" "#" "15" 1 15); try reflexivity; try done;
    apply (bool_decide_unpack _); vm_compute; exact I.
Defined.
