(* ===== verification/Calibrator.v ===== *)
(** * Schema state calibration (state_calibrator.rs, normalize_definition of
    schema_diff.rs)

    Three-way reconciliation of schema objects by the fingerprints of their
    normalised definitions, drift detection against a snapshot, and the rebase
    plan built on the reconciliation. SHA-256 in hex, the clock and the uuids are
    parameters; maps built from lists keep the last object of a key. *)
From S2P Require Import Prelude RustStr F64.

(** ** Data *)

Definition DRIFT_NONE : f64 := f64_zero.
Definition DRIFT_NEW_OBJECT : f64 := f64_lit 3 1.
Definition DRIFT_SINGLE_SIDE : f64 := f64_lit 33 2.
Definition DRIFT_IDENTICAL_CHANGE : f64 := f64_lit 5 1.
Definition DRIFT_DELETED : f64 := f64_lit 66 2.
Definition DRIFT_STALE_BASELINE : f64 := f64_lit 8 1.
Definition DRIFT_CONFLICT : f64 := f64_lit 1 0.
Definition DRIFT_PSEUDO : f64 := f64_zero.

Inductive ObjectKind : Type := Table | View | Function_ | Sequence | Rule | Permission.

Definition as_str (k : ObjectKind) : string :=
  match k with
  | Table => "table" | View => "view" | Function_ => "function"
  | Sequence => "sequence" | Rule => "rule" | Permission => "permission"
  end.

Record ObjectDefinition := mk_object {
  kind : ObjectKind;
  name : string;
  schema : option string;
  definition : string
}.

Definition key (o : ObjectDefinition) : string :=
  match schema o with
  | Some s => as_str (kind o) +:+ "." +:+ s +:+ "." +:+ name o
  | None => as_str (kind o) +:+ "." +:+ name o
  end.

Definition normalize_definition (def : string) : string :=
  join newline ((λ line, join " " (split_whitespace line)) <$>
    split_char (ascii_of_nat 10) (replace def (carriage_return +:+ newline) newline)).

Record SemanticFingerprint := mk_fingerprint {
  fingerprint : string;
  object_fingerprints : gmap string string
}.

Record StateSnapshot := mk_snapshot {
  id : string;
  timestamp : string;
  snapshot_label : string;
  objects : list ObjectDefinition;
  snapshot_fingerprint : SemanticFingerprint
}.

Inductive ObjectReconciliationStatus : Type :=
| Synced | SourceDrifted | TargetDrifted | BothDriftedIdentical | BothDriftedConflict
| DeletedInSource | DeletedInTarget | NewInSource | NewInTarget | NewInBoth | BaselineOnly.

#[export] Instance status_eq_dec : EqDecision ObjectReconciliationStatus.
Proof. solve_decision. Defined.

Record ObjectReconciliation := mk_reconciliation {
  object_key : string;
  rec_kind : ObjectKind;
  rec_name : string;
  status : ObjectReconciliationStatus;
  baseline_fingerprint : option string;
  source_fingerprint : option string;
  target_fingerprint : option string;
  source_definition : option string;
  target_definition : option string;
  drift_score : f64
}.

Record ReconciliationResult := mk_result {
  baseline_id : string;
  source_id : string;
  target_id : string;
  result_timestamp : string;
  total_objects : nat;
  synced_count : nat;
  drifted_count : nat;
  conflict_count : nat;
  object_reconciliations : list ObjectReconciliation
}.

Record DriftedObject := mk_drifted {
  drifted_key : string;
  drifted_baseline : string;
  drifted_current : string;
  is_pseudo_drift : bool;
  score : f64
}.

Record DriftReport := mk_report {
  has_drift : bool;
  drifted_objects : list DriftedObject;
  pseudo_drift_count : nat;
  real_drift_count : nat;
  overall_drift_score : f64
}.

Inductive RebaseResolution : Type := AcceptSource | AcceptTarget | AcceptBaseline | ManualReview.

Record ConflictItem := mk_conflict {
  conflict_key : string;
  resolution : RebaseResolution;
  conflict_baseline : option string;
  conflict_source : option string;
  conflict_target : option string
}.

Record RebasePlan := mk_plan {
  conflicts : list ConflictItem;
  proposed_objects : list ObjectDefinition;
  requires_manual_review : bool
}.

(** ** Classification *)

Definition classify_reconciliation (b_fp s_fp t_fp : option string) : ObjectReconciliationStatus * f64 :=
  match b_fp, s_fp, t_fp with
  | Some b, Some s, Some t =>
      if String.eqb b s && String.eqb s t then (Synced, DRIFT_NONE)
      else if String.eqb b s && negb (String.eqb s t) then (TargetDrifted, DRIFT_SINGLE_SIDE)
      else if String.eqb b t && negb (String.eqb s t) then (SourceDrifted, DRIFT_SINGLE_SIDE)
      else if String.eqb s t && negb (String.eqb b s) then (BothDriftedIdentical, DRIFT_IDENTICAL_CHANGE)
      else (BothDriftedConflict, DRIFT_CONFLICT)
  | Some _, None, Some _ => (DeletedInSource, DRIFT_DELETED)
  | Some _, Some _, None => (DeletedInTarget, DRIFT_DELETED)
  | Some _, None, None => (BaselineOnly, DRIFT_STALE_BASELINE)
  | None, Some s, Some t => if String.eqb s t then (NewInBoth, DRIFT_NONE) else (BothDriftedConflict, DRIFT_CONFLICT)
  | None, Some _, None => (NewInSource, DRIFT_NONE)
  | None, None, Some _ => (NewInTarget, DRIFT_NONE)
  | None, None, None => (Synced, DRIFT_NONE)
  end.

(** [iter().map(|o| (o.key(), o)).collect()]. *)
Definition by_key (objs : list ObjectDefinition) : gmap string ObjectDefinition :=
  foldl (λ m o, <[key o := o]> m) ∅ objs.

Definition strip_sql_comments (sql : string) : string :=
  join newline (List.filter (λ line, let trimmed := trim line in
    negb (starts_with trimmed "--" || starts_with trimmed "//" || starts_with trimmed "#")) (lines sql)).

Definition filter_pseudo_drift (baseline_def : string) (current_def : option string) : bool :=
  match current_def with
  | None => false
  | Some cur_def =>
      let b_norm := normalize_definition baseline_def in
      let c_norm := normalize_definition cur_def in
      if String.eqb b_norm c_norm then true
      else String.eqb (strip_sql_comments b_norm) (strip_sql_comments c_norm)
  end.

Section Calibrator.
Context `{HashIter}.
(** [hex(Sha256::digest(s.as_bytes()))]. *)
Variable sha256_hex : string → string.

Definition object_fingerprint (def : string) : string := sha256_hex (normalize_definition def).

Definition compute_objects (objs : list ObjectDefinition) : gmap string string :=
  foldl (λ m o, <[key o := object_fingerprint (definition o)]> m) ∅ objs.

Definition compute (objs : list ObjectDefinition) : SemanticFingerprint :=
  let object_fingerprints := compute_objects objs in
  let all_keys := sort_strings (hm_iter object_fingerprints).*1 in
  mk_fingerprint
    (sha256_hex (String.concat "" ((λ k, k +:+ ":" +:+ default "" (object_fingerprints !! k) +:+ ";") <$> all_keys)))
    object_fingerprints.

Definition StateSnapshot_new (uuid now label : string) (objs : list ObjectDefinition) : StateSnapshot :=
  mk_snapshot uuid now label objs (compute objs).

(** ** Reconciliation *)

(** The keys not seen before, in order. *)
Fixpoint push_unseen (keys : list string) (seen : gset string) (out : list string) : gset string * list string :=
  match keys with
  | [] => (seen, out)
  | k :: keys' =>
      if bool_decide (k ∈ seen) then push_unseen keys' seen out
      else push_unseen keys' ({[k]} ∪ seen) (out ++ [k])
  end.

Definition all_keys (b s t : gmap string ObjectDefinition) : list string :=
  sort_strings
    (push_unseen ((hm_iter b).*1 ++ (hm_iter s).*1 ++ (hm_iter t).*1) ∅ []).2.

Definition reconcile_key (b s t : gmap string ObjectDefinition) (k : string) : ObjectReconciliation :=
  let b_obj := b !! k in
  let s_obj := s !! k in
  let t_obj := t !! k in
  let b_fp := (λ o, object_fingerprint (definition o)) <$> b_obj in
  let s_fp := (λ o, object_fingerprint (definition o)) <$> s_obj in
  let t_fp := (λ o, object_fingerprint (definition o)) <$> t_obj in
  let '(st, drift) := classify_reconciliation b_fp s_fp t_fp in
  let first := match b_obj with Some o => Some o | None => match s_obj with Some o => Some o | None => t_obj end end in
  mk_reconciliation k (default Table (kind <$> first)) (default "" (name <$> first)) st b_fp s_fp t_fp
    (definition <$> s_obj) (definition <$> t_obj) drift.

(** The counters [(synced, drifted, conflicts)] after a status. *)
Definition count_status (c : nat * nat * nat) (st : ObjectReconciliationStatus) : nat * nat * nat :=
  let '(synced, drifted, conflicts) := c in
  match st with
  | Synced | NewInBoth => (S synced, drifted, conflicts)
  | BothDriftedConflict => (synced, S drifted, S conflicts)
  | _ => (synced, S drifted, conflicts)
  end.

Definition reconcile_three_way (now : string) (baseline : StateSnapshot) (source_id : string)
    (source : list ObjectDefinition) (target_id : string) (target : list ObjectDefinition) : ReconciliationResult :=
  let b := by_key (objects baseline) in
  let s := by_key source in
  let t := by_key target in
  let keys := all_keys b s t in
  let recs := reconcile_key b s t <$> keys in
  let '(synced, drifted, n_conflicts) := foldl count_status (0, 0, 0) (status <$> recs) in
  mk_result (id baseline) source_id target_id now (List.length keys) synced drifted n_conflicts recs.

(** ** Drift *)

Definition drift_of (baseline : StateSnapshot) (current_fp : SemanticFingerprint)
    (current_map : gmap string ObjectDefinition) (obj : ObjectDefinition) : option DriftedObject :=
  let b_fp := default "" (object_fingerprints (snapshot_fingerprint baseline) !! key obj) in
  let c_fp := default "" (object_fingerprints current_fp !! key obj) in
  if String.eqb b_fp c_fp then None
  else
    let is_pseudo := filter_pseudo_drift (definition obj) (definition <$> current_map !! key obj) in
    Some (mk_drifted (key obj) b_fp c_fp is_pseudo (if is_pseudo then DRIFT_PSEUDO else DRIFT_IDENTICAL_CHANGE)).

Definition new_drift (baseline : StateSnapshot) (current_fp : SemanticFingerprint) (obj : ObjectDefinition)
    : option DriftedObject :=
  match object_fingerprints (snapshot_fingerprint baseline) !! key obj with
  | Some _ => None
  | None => Some (mk_drifted (key obj) "" (default "" (object_fingerprints current_fp !! key obj)) false DRIFT_NEW_OBJECT)
  end.

Definition detect_drift (baseline : StateSnapshot) (current : list ObjectDefinition) : DriftReport :=
  let current_fp := compute current in
  let overall_has_drift := negb (String.eqb (fingerprint (snapshot_fingerprint baseline)) (fingerprint current_fp)) in
  let old := omap (drift_of baseline current_fp (by_key current)) (objects baseline) in
  let new := omap (new_drift baseline current_fp) current in
  let drifted := old ++ new in
  let total := List.length drifted in
  mk_report (overall_has_drift || negb (total =? 0)) drifted
    (List.length (List.filter is_pseudo_drift old))
    (List.length (List.filter (λ d, negb (is_pseudo_drift d)) old) + List.length new)
    (if total =? 0 then f64_zero else f64_div (f64_sum (score <$> drifted)) (f64_of_Z (Z.of_nat total))).

(** ** Rebase *)

Definition conflict_item (rec : ObjectReconciliation) (r : RebaseResolution) : ConflictItem :=
  mk_conflict (object_key rec) r (baseline_fingerprint rec) (source_fingerprint rec) (target_fingerprint rec).

(** One iteration of the loop of [build_rebase_plan]. *)
Definition rebase_step (s t : gmap string ObjectDefinition) (auto_resolve : bool) (p : RebasePlan)
    (rec : ObjectReconciliation) : RebasePlan :=
  let propose (o : option ObjectDefinition) := proposed_objects p ++ option_list o in
  let src := s !! object_key rec in
  let tgt := t !! object_key rec in
  match status rec with
  | Synced | BothDriftedIdentical =>
      mk_plan (conflicts p) (propose (match src with Some o => Some o | None => tgt end)) (requires_manual_review p)
  | TargetDrifted =>
      if auto_resolve
      then mk_plan (conflicts p ++ [conflict_item rec AcceptTarget]) (propose tgt) (requires_manual_review p)
      else mk_plan (conflicts p ++ [conflict_item rec ManualReview]) (proposed_objects p) true
  | SourceDrifted =>
      if auto_resolve
      then mk_plan (conflicts p ++ [conflict_item rec AcceptSource]) (propose src) (requires_manual_review p)
      else mk_plan (conflicts p ++ [conflict_item rec ManualReview]) (proposed_objects p) true
  | BothDriftedConflict => mk_plan (conflicts p ++ [conflict_item rec ManualReview]) (proposed_objects p) true
  | NewInBoth | NewInSource => mk_plan (conflicts p) (propose src) (requires_manual_review p)
  | NewInTarget => mk_plan (conflicts p) (propose tgt) (requires_manual_review p)
  | DeletedInSource | DeletedInTarget | BaselineOnly => p
  end.

Definition build_rebase_plan (now : string) (baseline : StateSnapshot) (source target : list ObjectDefinition)
    (auto_resolve : bool) : RebasePlan :=
  let res := reconcile_three_way now baseline "" source "" target in
  foldl (rebase_step (by_key source) (by_key target) auto_resolve) (mk_plan [] [] false) (object_reconciliations res).
End Calibrator.

Record RebaseHistoryEntry := mk_history {
  history_id : string;
  history_timestamp : string;
  previous_baseline_id : string;
  new_baseline_id : string;
  object_count : nat;
  history_conflict_count : nat;
  auto_resolved : bool;
  notes : string
}.

Definition RebaseHistoryEntry_new (uuid now previous_baseline_id new_baseline_id : string)
    (object_count conflict_count : nat) (auto_resolved : bool) (notes : string) : RebaseHistoryEntry :=
  mk_history uuid now previous_baseline_id new_baseline_id object_count conflict_count auto_resolved notes.

(** ** Maps and keys *)

Lemma by_key_snoc objs o : by_key (objs ++ [o]) = <[key o := o]> (by_key objs).
Proof. unfold by_key. by rewrite foldl_app. Qed.

(** The last object of a key wins. *)
Lemma by_key_Some objs k o : by_key objs !! k = Some o → o ∈ objs ∧ key o = k.
Proof.
  induction objs as [|x objs IH] using rev_ind; [done|]. rewrite by_key_snoc.
  intros [[<- <-]|[_ H]]%lookup_insert_Some; [set_solver|]. set_solver.
Qed.

Lemma by_key_is_Some objs k : is_Some (by_key objs !! k) ↔ k ∈ key <$> objs.
Proof.
  induction objs as [|x objs IH] using rev_ind.
  { split; [by intros []|]. intros H. by apply elem_of_nil in H. }
  rewrite by_key_snoc, fmap_app, elem_of_app, <-IH. cbn. rewrite list_elem_of_singleton.
  destruct (decide (key x = k)) as [<-|Hne]; [rewrite lookup_insert_eq; naive_solver|].
  rewrite lookup_insert_ne by done. naive_solver.
Qed.

Lemma push_unseen_spec keys seen out :
  NoDup out → (∀ k, k ∈ seen ↔ k ∈ out) →
  let '(seen', out') := push_unseen keys seen out in
  NoDup out' ∧ ∀ k, k ∈ out' ↔ k ∈ out ∨ k ∈ keys.
Proof.
  revert seen out. induction keys as [|k keys IH]; intros seen out Hnd Hs; cbn [push_unseen].
  { split; [done|]. intros k. rewrite elem_of_nil. tauto. }
  case_bool_decide as Hk.
  - specialize (IH seen out Hnd Hs). destruct (push_unseen keys seen out) as [seen' out'].
    destruct IH as [H1 H2]. split; [done|]. intros k'. rewrite H2, elem_of_cons, <-!Hs. naive_solver.
  - specialize (IH ({[k]} ∪ seen) (out ++ [k])). destruct (push_unseen keys ({[k]} ∪ seen) (out ++ [k])) as [seen' out'].
    destruct IH as [H1 H2].
    + apply NoDup_app. split; [done|]. split; [|apply NoDup_singleton].
      intros x Hx ->%list_elem_of_singleton. by apply Hk, Hs.
    + intros k'. rewrite elem_of_union, elem_of_singleton, elem_of_app, list_elem_of_singleton, Hs. tauto.
    + split; [done|]. intros k'. rewrite H2, elem_of_cons, elem_of_app, list_elem_of_singleton. tauto.
Qed.

Definition string_le (a b : string) : Prop := String.leb a b = true.

Lemma insert_string_sorted x l : Sorted string_le l → Sorted string_le (insert_string x l).
Proof.
  induction 1 as [|y l Hs IH Hhd]; simpl; [by repeat constructor|].
  destruct (String.leb x y) eqn:Hxy; [by repeat constructor|]. constructor; [done|].
  assert (string_le y x) as Hyx by (destruct (String.leb_total x y); unfold string_le; congruence).
  destruct l as [|z l]; simpl; [by constructor|]. destruct (String.leb x z); constructor; [done|].
  by inversion Hhd.
Qed.

Lemma sort_strings_sorted l : Sorted string_le (sort_strings l).
Proof. induction l as [|x l IH]; simpl; [constructor|]. by apply insert_string_sorted. Qed.

Section Lemmas.
Context `{HashIter}.

Lemma all_keys_spec b s t :
  NoDup (all_keys b s t) ∧ Sorted string_le (all_keys b s t) ∧
  ∀ k, k ∈ all_keys b s t ↔ is_Some (b !! k) ∨ is_Some (s !! k) ∨ is_Some (t !! k).
Proof.
  unfold all_keys. pose proof (push_unseen_spec ((hm_iter b).*1 ++ (hm_iter s).*1 ++ (hm_iter t).*1) ∅ []) as Hp.
  destruct (push_unseen _ ∅ []) as [seen out]. destruct Hp as [H1 H2]; [constructor|set_solver|].
  split; [by rewrite sort_strings_Permutation|]. split; [apply sort_strings_sorted|].
  assert (∀ (m : gmap string ObjectDefinition) k, k ∈ (hm_iter m).*1 ↔ is_Some (m !! k)) as Hk.
  { intros m k. rewrite list_elem_of_fmap. split.
    - intros ([k' v] & -> & Hin%hm_iter_elem). by exists v.
    - intros [v Hv]. exists (k, v). split; [done|]. by apply hm_iter_elem. }
  intros k. simpl. rewrite sort_strings_Permutation, H2, !elem_of_app, !Hk, elem_of_nil. tauto.
Qed.

Context (sha256_hex : string → string).

(** The fingerprints of a key in the three maps. *)
Definition fp_of (m : gmap string ObjectDefinition) (k : string) : option string :=
  (λ o, object_fingerprint sha256_hex (definition o)) <$> m !! k.

Lemma reconcile_key_spec b s t k :
  let r := reconcile_key sha256_hex b s t k in
  object_key r = k ∧ (status r, drift_score r) = classify_reconciliation (fp_of b k) (fp_of s k) (fp_of t k) ∧
  baseline_fingerprint r = fp_of b k ∧ source_fingerprint r = fp_of s k ∧ target_fingerprint r = fp_of t k ∧
  source_definition r = definition <$> s !! k ∧ target_definition r = definition <$> t !! k.
Proof. unfold reconcile_key, fp_of. by destruct (classify_reconciliation _ _ _). Qed.

Lemma count_status_spec sts c :
  foldl count_status c sts =
  (c.1.1 + List.length (List.filter (λ st, bool_decide (st = Synced ∨ st = NewInBoth)) sts),
   c.1.2 + List.length (List.filter (λ st, negb (bool_decide (st = Synced ∨ st = NewInBoth))) sts),
   c.2 + List.length (List.filter (λ st, bool_decide (st = BothDriftedConflict)) sts)).
Proof.
  revert c. induction sts as [|st sts IH]; intros [[x y] z]; simpl; [by rewrite !Nat.add_0_r|].
  rewrite IH. destruct st; simpl; repeat f_equal; lia.
Qed.

(** ** The rebase loop *)

(** What the plan keeps of one key when it resolves what it can. *)
Definition proposal (b s t : gmap string ObjectDefinition) (k : string) : option ObjectDefinition :=
  if decide (fp_of s k = fp_of t k) then s !! k
  else if decide (fp_of b k = fp_of s k) then t !! k
  else if decide (fp_of b k = fp_of t k) then s !! k
  else None.

(** Both sides hold the object and changed it differently. *)
Definition clash (b s t : gmap string ObjectDefinition) (k : string) : Prop :=
  is_Some (s !! k) ∧ is_Some (t !! k) ∧ fp_of s k ≠ fp_of t k ∧ fp_of b k ≠ fp_of s k ∧ fp_of b k ≠ fp_of t k.

Lemma rebase_step_auto b s t k p :
  let p' := rebase_step s t true p (reconcile_key sha256_hex b s t k) in
  proposed_objects p' = proposed_objects p ++ option_list (proposal b s t k) ∧
  (requires_manual_review p' = true ↔ requires_manual_review p = true ∨ clash b s t k).
Proof.
  unfold rebase_step, reconcile_key, proposal, clash, fp_of.
  destruct (b !! k) as [ob|] eqn:Hb, (s !! k) as [os|] eqn:Hs, (t !! k) as [ot|] eqn:Ht;
    cbn [fmap option_fmap option_map classify_reconciliation];
    repeat match goal with |- context [String.eqb ?x ?y] => destruct (String.eqb_spec x y) end;
    cbn [andb negb]; cbn [object_key status]; rewrite ?Hs, ?Ht; repeat case_decide; try (exfalso; congruence); simplify_eq/=;
    rewrite ?app_nil_r; (split; [done|]);
    (split; [by left|intros [?|(Hx & Hy & Hz & Hw & Hv)]; [done|exfalso; first [by destruct Hx|by destruct Hy|congruence]]])
    || (split; [intros _; right; repeat split; try (by eexists); congruence|done]).
Qed.

Lemma rebase_run b s t ks p :
  let p' := foldl (rebase_step s t true) p (reconcile_key sha256_hex b s t <$> ks) in
  proposed_objects p' = proposed_objects p ++ omap (proposal b s t) ks ∧
  (requires_manual_review p' = true ↔ requires_manual_review p = true ∨ ∃ k, k ∈ ks ∧ clash b s t k).
Proof.
  revert p. induction ks as [|k ks IH]; intros p.
  { simpl. rewrite app_nil_r. split; [done|]. split; [by left|]. intros [?|(k & Hk & _)]; [done|]. by apply elem_of_nil in Hk. }
  rewrite fmap_cons. cbn [foldl]. cbv zeta. destruct (rebase_step_auto b s t k p) as [H1 H2].
  destruct (IH (rebase_step s t true p (reconcile_key sha256_hex b s t k))) as [H3 H4]. split.
  - rewrite H3, H1, <-app_assoc. f_equal. cbn. by destruct (proposal b s t k).
  - rewrite H4, H2. setoid_rewrite elem_of_cons. naive_solver.
Qed.

(** ** Fingerprint maps *)

Lemma compute_objects_snoc objs o :
  compute_objects sha256_hex (objs ++ [o]) =
    <[key o := object_fingerprint sha256_hex (definition o)]> (compute_objects sha256_hex objs).
Proof. unfold compute_objects. by rewrite foldl_app. Qed.

Lemma compute_objects_lookup objs k : compute_objects sha256_hex objs !! k = fp_of (by_key objs) k.
Proof.
  induction objs as [|o objs IH] using rev_ind; [done|]. rewrite compute_objects_snoc. unfold fp_of in *.
  rewrite by_key_snoc. destruct (decide (key o = k)) as [->|Hne]; [by rewrite !lookup_insert_eq|].
  by rewrite !lookup_insert_ne.
Qed.

Lemma omap_nil {A B} (f : A → option B) l : omap f l = [] ↔ ∀ x, x ∈ l → f x = None.
Proof.
  induction l as [|x l IH]; cbn.
  - split; [intros _ x Hx; by apply elem_of_nil in Hx|done].
  - setoid_rewrite elem_of_cons. destruct (f x) as [y|] eqn:Hx.
    + split; [done|]. intros Hall. specialize (Hall x (or_introl eq_refl)). congruence.
    + fold (omap f l). rewrite IH. naive_solver.
Qed.

(** No object is reported exactly when the two sides hold the same keys with
    the same fingerprints. *)
Lemma no_drift_iff uuid now lab objs current :
  (∀ x, sha256_hex x ≠ "") →
  drifted_objects (detect_drift sha256_hex (StateSnapshot_new sha256_hex uuid now lab objs) current) = [] ↔
  compute_objects sha256_hex objs = compute_objects sha256_hex current.
Proof.
  intros Hsha. unfold detect_drift. cbn [drifted_objects objects StateSnapshot_new]. split.
  - intros [Hold Hnew]%app_nil. apply map_eq. intros k.
    destruct (compute_objects sha256_hex objs !! k) as [f|] eqn:Hk.
    + rewrite compute_objects_lookup in Hk. unfold fp_of in Hk. apply fmap_Some in Hk as (o & Ho & ->).
      apply by_key_Some in Ho as Hin. destruct Hin as [Hin <-].
      rewrite omap_nil in Hold. specialize (Hold o Hin). unfold drift_of in Hold.
      cbn [object_fingerprints snapshot_fingerprint StateSnapshot_new compute] in Hold.
      destruct (String.eqb_spec (default "" (compute_objects sha256_hex objs !! key o))
                  (default "" (compute_objects sha256_hex current !! key o))) as [He|]; [|done].
      rewrite compute_objects_lookup in He at 1. unfold fp_of in He. rewrite Ho in He. simpl in He.
      destruct (compute_objects sha256_hex current !! key o) as [g|]; simpl in He; [by rewrite He|].
      by destruct (Hsha (normalize_definition (definition o))).
    + destruct (compute_objects sha256_hex current !! k) as [g|] eqn:Hc; [|done]. exfalso.
      rewrite compute_objects_lookup in Hc. unfold fp_of in Hc. apply fmap_Some in Hc as (o & Ho & ->).
      apply by_key_Some in Ho as [Hin <-]. rewrite omap_nil in Hnew. specialize (Hnew o Hin).
      unfold new_drift in Hnew. cbn [object_fingerprints snapshot_fingerprint StateSnapshot_new compute] in Hnew.
      by rewrite Hk in Hnew.
  - intros Heq. apply app_nil. rewrite !omap_nil. split; intros o Hin.
    + unfold drift_of. cbn [object_fingerprints snapshot_fingerprint StateSnapshot_new compute].
      by rewrite Heq, String.eqb_refl.
    + unfold new_drift. cbn [object_fingerprints snapshot_fingerprint StateSnapshot_new compute].
      rewrite Heq, compute_objects_lookup. unfold fp_of.
      assert (is_Some (by_key current !! key o)) as [o' ->] by (apply by_key_is_Some, list_elem_of_fmap_2, Hin).
      done.
Qed.

End Lemmas.

(** ** Properties *)

(** The reconciliation lists, in sorted order and once each, exactly the
    keys held by the baseline or a side; each with the status, score and
    fingerprints of its objects; and the counters split the keys: every key is
    synced or drifted, and conflicts are among the drifted. *)
Theorem reconcile_exact `{HashIter} sha256_hex now baseline sid source tid target :
  let b := by_key (objects baseline) in let s := by_key source in let t := by_key target in
  let r := reconcile_three_way sha256_hex now baseline sid source tid target in
  let recs := object_reconciliations r in
  NoDup (object_key <$> recs) ∧ Sorted string_le (object_key <$> recs) ∧
  (∀ k, k ∈ object_key <$> recs ↔ k ∈ key <$> (objects baseline ++ source ++ target)) ∧
  Forall (λ rec, (status rec, drift_score rec) =
      classify_reconciliation (fp_of sha256_hex b (object_key rec)) (fp_of sha256_hex s (object_key rec))
        (fp_of sha256_hex t (object_key rec)) ∧
    source_definition rec = definition <$> s !! object_key rec ∧
    target_definition rec = definition <$> t !! object_key rec) recs ∧
  total_objects r = List.length recs ∧ synced_count r + drifted_count r = total_objects r ∧
  conflict_count r = List.length (List.filter (λ rec, bool_decide (status rec = BothDriftedConflict)) recs) ∧
  conflict_count r ≤ drifted_count r.
Proof.
  cbv zeta. unfold reconcile_three_way.
  set (b := by_key (objects baseline)). set (s := by_key source). set (t := by_key target).
  destruct (all_keys_spec b s t) as (Hnd & Hsort & Hin). rewrite count_status_spec. cbn [object_reconciliations
    total_objects synced_count drifted_count conflict_count fst snd Nat.add].
  assert (object_key <$> (reconcile_key sha256_hex b s t <$> all_keys b s t) = all_keys b s t) as ->.
  { rewrite <-list_fmap_compose. etrans; [|apply list_fmap_id]. apply list_fmap_ext. intros i k _. unfold compose.
    apply reconcile_key_spec. }
  split; [done|]. split; [done|]. split; [|split; [|split; [|split; [|split]]]].
  - intros k. rewrite Hin, !fmap_app, !elem_of_app. unfold b, s, t. by rewrite !by_key_is_Some.
  - apply Forall_fmap, Forall_forall. intros k _. unfold compose.
    destruct (reconcile_key_spec sha256_hex b s t k) as (Hk & Hst & _ & _ & _ & Hs & Ht). by rewrite Hk.
  - by rewrite length_fmap.
  - rewrite List.filter_length, !length_fmap. done.
  - generalize (reconcile_key sha256_hex b s t <$> all_keys b s t). intros l. rewrite filter_fmap, length_fmap. done.
  - generalize (status <$> (reconcile_key sha256_hex b s t <$> all_keys b s t)). intros l.
    induction l as [|st l IH]; simpl; [lia|]. destruct st; simpl; lia.
Qed.

(** With [auto_resolve], the proposed objects are, key by key, the
    three-way merge of the fingerprints: what both sides agree on, or the side
    that changed when the other equals the baseline, and nothing otherwise.
    Manual review is required exactly when some key is held by both sides with
    two different changes: so an object deleted on one side and changed on the
    other is dropped without review. *)
Theorem rebase_three_way `{HashIter} sha256_hex now baseline source target :
  let b := by_key (objects baseline) in let s := by_key source in let t := by_key target in
  let p := build_rebase_plan sha256_hex now baseline source target true in
  (∀ o, o ∈ proposed_objects p ↔ ∃ k, proposal sha256_hex b s t k = Some o) ∧
  (requires_manual_review p = true ↔ ∃ k, clash sha256_hex b s t k) ∧
  (∀ k ob ot, b !! k = Some ob → s !! k = None → t !! k = Some ot →
     fp_of sha256_hex b k ≠ fp_of sha256_hex t k → proposal sha256_hex b s t k = None ∧ ¬ clash sha256_hex b s t k).
Proof.
  cbv zeta. unfold build_rebase_plan, reconcile_three_way.
  set (b := by_key (objects baseline)). set (s := by_key source). set (t := by_key target).
  rewrite count_status_spec. cbn [object_reconciliations].
  destruct (rebase_run sha256_hex b s t (all_keys b s t) (mk_plan [] [] false)) as [Hp Hm].
  destruct (all_keys_spec b s t) as (_ & _ & Hin). rewrite Hp. cbn [proposed_objects requires_manual_review app] in *.
  split; [|split].
  - intros o. rewrite list_elem_of_omap. split; [naive_solver|]. intros [k Hk]. exists k. split; [|done].
    apply Hin. unfold proposal in Hk. repeat case_decide; try done; [right; left|right; right|right; left]; by eexists.
  - rewrite Hm. split; [naive_solver|]. intros (k & Hk). right. exists k. split; [|done]. apply Hin.
    right; left. apply Hk.
  - intros k ob ot Hb Hs Ht Hne. unfold proposal, clash. split.
    + assert (fp_of sha256_hex s k = None) as Hsk by (unfold fp_of; by rewrite Hs). rewrite Hsk.
      assert (is_Some (fp_of sha256_hex b k) ∧ is_Some (fp_of sha256_hex t k)) as [[x Hx] [y Hy]].
      { unfold fp_of. rewrite Hb, Ht. split; by eexists. }
      rewrite Hx, Hy in *. repeat case_decide; simplify_eq; done.
    + rewrite Hs. by intros [[] _].
Qed.

(** Against a snapshot the program took, [detect_drift] reports no drift
    exactly when both sides hold the same keys with the same fingerprints, and
    its two counters add up to the objects it lists. *)
Theorem detect_drift_exact `{HashIter} sha256_hex uuid now lab objs current :
  (∀ x, sha256_hex x ≠ "") →
  let r := detect_drift sha256_hex (StateSnapshot_new sha256_hex uuid now lab objs) current in
  (has_drift r = false ↔ compute_objects sha256_hex objs = compute_objects sha256_hex current) ∧
  pseudo_drift_count r + real_drift_count r = List.length (drifted_objects r) ∧
  (List.length (drifted_objects r) = 0 → overall_drift_score r = f64_zero).
Proof.
  intros Hsha. cbv zeta.
  pose proof (no_drift_iff sha256_hex uuid now lab objs current Hsha) as Hd. split; [|split].
  - assert (has_drift (detect_drift sha256_hex (StateSnapshot_new sha256_hex uuid now lab objs) current) =
      negb (String.eqb (fingerprint (compute sha256_hex objs)) (fingerprint (compute sha256_hex current))) ||
      negb (List.length (drifted_objects (detect_drift sha256_hex (StateSnapshot_new sha256_hex uuid now lab objs) current)) =? 0))
      as -> by done.
    rewrite orb_false_iff, !negb_false_iff, Nat.eqb_eq, length_zero_iff_nil, Hd. split; [by intros [_ ?]|].
    intros Heq. split; [|done]. apply String.eqb_eq. unfold compute. by rewrite Heq.
  - unfold detect_drift. cbn [pseudo_drift_count real_drift_count drifted_objects].
    rewrite List.length_app, Nat.add_assoc, List.filter_length. done.
  - unfold detect_drift. cbn [drifted_objects overall_drift_score]. by intros ->.
Qed.

(** Real changes the calibrator cannot see: a changed JSON path on a line
    starting with the operator "#>" counts as a comment, blanks inside a string
    literal are collapsed before fingerprinting, and a dot in a name makes two
    different objects share a key. *)
Theorem calibration_blind_spots :
  (let def path := "SELECT body" +:+ newline +:+ "#> '{" +:+ path +:+ "}' FROM t" in
   filter_pseudo_drift (def "a") (Some (def "b")) = true) ∧
  (∀ sha256_hex, object_fingerprint sha256_hex "SELECT 'a  b'" = object_fingerprint sha256_hex "SELECT 'a b'") ∧
  (key (mk_object Table "a.b" None "") = key (mk_object Table "b" (Some "a") "")).
Proof. split; [|split]; [vm_compute; reflexivity|intros; vm_compute; reflexivity|vm_compute; reflexivity]. Qed.

Lemma detect_drift_exact_witness :
  has_drift (@detect_drift key_order (λ s, "h" +:+ s) (@StateSnapshot_new key_order (λ s, "h" +:+ s) "" "" ""
    [mk_object View "v" None "SELECT  1"]) [mk_object View "v" None "SELECT 1"]) = false.
Proof.
  apply (@detect_drift_exact key_order (λ s, "h" +:+ s)); [done|]. vm_compute. reflexivity.
Defined.
