(* ===== verification/D1.v ===== *)
(** * Cloudflare D1 (db/cloudflare_d1/sql_lexer.rs, sql_limits.rs, sql_guard.rs,
    trigger.rs)

    The byte lexer, the split of a script into statements that keeps trigger
    bodies whole, the guard over each statement, and the batches that keep a
    rendered statement under the size limit. *)
From S2P Require Import Prelude RustStr.

(** ** Lexer *)

Inductive SqlLexeme : Type :=
| Word (w : string)
| Number (n : string)
| Symbol (b : ascii)
| Semicolon (position : nat).

(** The loops of [lex_sql]: each returns what is left after it. *)
Fixpoint skip_line_comment (s : string) : string :=
  match s with
  | String a s' => if (ch a =? 10)%N then s else skip_line_comment s'
  | EmptyString => ""
  end.

Fixpoint skip_block_comment (s : string) : string :=
  match s with
  | String "*" (String "/" r) => r
  | String _ s' => skip_block_comment s'
  | EmptyString => ""
  end.

(** Past the closing quote; a doubled quote is content. *)
Fixpoint skip_quoted (quote : ascii) (s : string) : string :=
  match s with
  | String a s' =>
      if Ascii.eqb a quote then
        match s' with
        | String b s'' => if Ascii.eqb b quote then skip_quoted quote s'' else s'
        | EmptyString => s'
        end
      else skip_quoted quote s'
  | EmptyString => ""
  end.

Fixpoint span (f : ascii → bool) (s : string) : string * string :=
  match s with
  | String a s' => if f a then let '(w, r) := span f s' in (String a w, r) else ("", s)
  | EmptyString => ("", "")
  end.

Definition is_digit (a : ascii) : bool := is_ascii_digit (ch a).
Definition is_word_start (a : ascii) : bool := is_ascii_alphabetic (ch a) || Ascii.eqb a "_".
Definition is_word_byte (a : ascii) : bool := is_ascii_alphanumeric (ch a) || Ascii.eqb a "_" || Ascii.eqb a "$".
Definition is_symbol (a : ascii) : bool := existsb (Ascii.eqb a) ["("; ")"; "="; "."; ","; "-"; "+"]%char.
Definition squote : ascii := ascii_of_nat 39.
Definition dquote_byte : ascii := ascii_of_nat 34.
Definition is_quote (a : ascii) : bool := Ascii.eqb a squote || Ascii.eqb a dquote_byte || Ascii.eqb a "`".

(** One iteration on a non-empty rest: the lexeme, if any, and what is left.
    [total] is [sql.len()], so the position is [total - len s]. *)
Definition lex_step (total : nat) (a : ascii) (s' : string) : option SqlLexeme * string :=
  let s := String a s' in
  match s with
  | String "-" (String "-" r) => (None, skip_line_comment r)
  | String "/" (String "*" r) => (None, skip_block_comment r)
  | _ =>
      if is_quote a then (None, skip_quoted a s')
      else if Ascii.eqb a "[" then (None, skip_quoted "]" s')
      else if Ascii.eqb a ";" then (Some (Semicolon (total - len s)), s')
      else if is_digit a then let '(n, r) := span is_digit s' in (Some (Number (String a n)), r)
      else if is_word_start a then let '(w, r) := span is_word_byte s' in (Some (Word (String a w)), r)
      else if is_symbol a then (Some (Symbol a), s')
      else (None, s')
  end.

(** [while index < bytes.len()]; every iteration consumes a byte, so the length
    of the input is enough fuel. *)
Fixpoint lex_loop (fuel total : nat) (s : string) : list SqlLexeme :=
  match fuel, s with
  | S n, String a s' =>
      let '(l, r) := lex_step total a s' in
      option_list l ++ lex_loop n total r
  | _, _ => []
  end.

Definition lex_sql (sql : string) : list SqlLexeme := lex_loop (len sql) (len sql) sql.

(** ** Statements *)

Definition word_is (w : option string) (kw : string) : bool :=
  match w with Some x => eq_ignore_ascii_case x kw | None => false end.

Definition is_create_trigger_prefix (words : list string) : bool :=
  word_is (words !! 0) "CREATE" &&
  (word_is (words !! 1) "TRIGGER" ||
   ((word_is (words !! 1) "TEMP" || word_is (words !! 1) "TEMPORARY") && word_is (words !! 2) "TRIGGER")).

Definition slice (start end_ : nat) (sql : string) : string := String.substring start (end_ - start) sql.

Definition push_statement (sql : string) (start end_ : nat) (statements : list string) : list string :=
  let statement := trim (slice start end_ sql) in
  if is_empty statement then statements else statements ++ [statement].

Record SplitState := mk_split {
  statement_start : nat;
  prefix : list string;
  is_trigger : bool;
  trigger_body_started : bool;
  trigger_depth : nat;
  statements : list string
}.

Definition split_step (sql : string) (st : SplitState) (lexeme : SqlLexeme) : SplitState :=
  match lexeme with
  | Word word =>
      let '(pre, trig) := if List.length (prefix st) <? 3
                          then let p := prefix st ++ [word] in (p, is_create_trigger_prefix p)
                          else (prefix st, is_trigger st) in
      let '(started, depth) :=
        if negb trig then (trigger_body_started st, trigger_depth st)
        else if negb (trigger_body_started st) && eq_ignore_ascii_case word "BEGIN" then (true, 1)
        else if trigger_body_started st && (eq_ignore_ascii_case word "BEGIN" || eq_ignore_ascii_case word "CASE")
        then (trigger_body_started st, S (trigger_depth st))
        else if trigger_body_started st && eq_ignore_ascii_case word "END"
        then (trigger_body_started st, trigger_depth st - 1)
        else (trigger_body_started st, trigger_depth st) in
      mk_split (statement_start st) pre trig started depth (statements st)
  | Semicolon position =>
      if is_trigger st && trigger_body_started st && (0 <? trigger_depth st) then st
      else mk_split (position + 1) [] false false 0 (push_statement sql (statement_start st) position (statements st))
  | Number _ | Symbol _ => st
  end.

Definition complete_sql_statements (sql : string) : list string :=
  let st := foldl (split_step sql) (mk_split 0 [] false false 0 []) (lex_sql sql) in
  push_statement sql (statement_start st) (len sql) (statements st).

(** ** Guard *)

Definition SUPPORTED_PRAGMAS : list string :=
  ["case_sensitive_like"; "defer_foreign_keys"; "foreign_key_check"; "foreign_key_list"; "foreign_keys";
   "ignore_check_constraints"; "index_info"; "index_list"; "index_xinfo"; "legacy_alter_table"; "optimize";
   "quick_check"; "recursive_triggers"; "reverse_unordered_selects"; "table_info"; "table_list"; "table_xinfo"].

Definition words_of (lexemes : list SqlLexeme) : list string :=
  omap (λ l, match l with Word w => Some w | _ => None end) lexemes.

Fixpoint contains_negative_one (lexemes : list SqlLexeme) : bool :=
  match lexemes with
  | Symbol s :: ((Number n :: _) as rest) =>
      (Ascii.eqb s "-" && String.eqb n "1") || contains_negative_one rest
  | _ :: rest => contains_negative_one rest
  | [] => false
  end.

(** [iter().position(f)]. *)
Fixpoint position {A} (f : A → bool) (l : list A) : option nat :=
  match l with
  | [] => None
  | x :: l' => if f x then Some 0 else S <$> position f l'
  end.

Definition validate_create_statement (words : list string) : result unit string :=
  if word_is (words !! 1) "TEMP" || word_is (words !! 1) "TEMPORARY"
  then Err "Cloudflare D1 does not support temporary tables, indexes, views, or triggers. Create a persistent object instead."
  else if negb (word_is (words !! 1) "VIRTUAL" && word_is (words !! 2) "TABLE") then Ok tt
  else
    let module := position (λ w, eq_ignore_ascii_case w "USING") words ≫= λ index, words !! (index + 1) in
    if word_is module "fts5" || word_is module "fts5vocab" then Ok tt
    else Err "Cloudflare D1 only supports FTS5 and fts5vocab virtual table modules.".

Definition validate_pragma (words : list string) (lexemes : list SqlLexeme) : result unit string :=
  let pragma := words !! 1 in
  let pragma := if word_is pragma "main" || word_is pragma "temp" then words !! 2 else pragma in
  match pragma with
  | None => Err "Cloudflare D1 requires a supported PRAGMA name."
  | Some pragma =>
      if negb (existsb (eq_ignore_ascii_case pragma) SUPPORTED_PRAGMAS)
      then Err ("Cloudflare D1 does not support PRAGMA " +:+ pragma
                +:+ ". Use one of the documented D1-compatible PRAGMA statements.")
      else if eq_ignore_ascii_case pragma "optimize" && contains_negative_one lexemes
      then Err "Cloudflare D1 does not support PRAGMA optimize(-1); use PRAGMA optimize instead."
      else Ok tt
  end.

Definition TRANSACTION_KEYWORDS : list string :=
  ["BEGIN"; "COMMIT"; "END"; "ROLLBACK"; "SAVEPOINT"; "RELEASE"; "START"].

Definition validate_statement (statement : string) : result unit string :=
  let lexemes := lex_sql statement in
  let words := words_of lexemes in
  match words with
  | [] => Ok tt
  | first :: _ =>
      if existsb (eq_ignore_ascii_case first) TRANSACTION_KEYWORDS
      then Err "Cloudflare D1 does not support explicit transaction or savepoint statements. Submit the SQL statements together without BEGIN, COMMIT, ROLLBACK, SAVEPOINT, or RELEASE."
      else if eq_ignore_ascii_case first "ATTACH" || eq_ignore_ascii_case first "DETACH"
      then Err "Cloudflare D1 does not support ATTACH or DETACH. Each connection targets one provider-managed D1 database."
      else
        match (if eq_ignore_ascii_case first "CREATE" then validate_create_statement words else Ok tt) with
        | Err e => Err e
        | Ok _ => if eq_ignore_ascii_case first "PRAGMA" then validate_pragma words lexemes else Ok tt
        end
  end.

Fixpoint validate_each (sts : list string) : result unit string :=
  match sts with
  | [] => Ok tt
  | st :: sts' => match validate_statement st with Ok _ => validate_each sts' | Err e => Err e end
  end.

Definition validate_sql (sql : string) : result unit string := validate_each (complete_sql_statements sql).

(** ** Trigger metadata *)

Record TriggerMetadata := mk_trigger { timing : string; event : string }.

Fixpoint instead_of (words : list string) : bool :=
  match words with
  | a :: ((b :: _) as rest) => (eq_ignore_ascii_case a "INSTEAD" && eq_ignore_ascii_case b "OF") || instead_of rest
  | _ => false
  end.

Fixpoint first_event (words : list string) : option string :=
  match words with
  | [] => None
  | w :: words' =>
      match List.find (eq_ignore_ascii_case w) ["DELETE"; "INSERT"; "UPDATE"] with
      | Some e => Some e
      | None => first_event words'
      end
  end.

Definition metadata_from_sql (sql : string) : TriggerMetadata :=
  let words := words_of (lex_sql sql) in
  let declaration_start := match position (λ w, eq_ignore_ascii_case w "TRIGGER") words with Some i => i + 1 | None => 0 end in
  let rest := drop declaration_start words in
  let declaration :=
    match position (λ w, eq_ignore_ascii_case w "ON" || eq_ignore_ascii_case w "BEGIN") rest with
    | Some i => take i rest
    | None => rest
    end in
  mk_trigger
    (if instead_of declaration then "INSTEAD OF"
     else if existsb (λ w, eq_ignore_ascii_case w "AFTER") declaration then "AFTER" else "BEFORE")
    (default "UNKNOWN" (first_event declaration)).

(** ** Limits *)

Definition MAX_SQL_STATEMENT_BYTES : nat := 100 * 1000.

Record SqlBatch := mk_batch { batch_sql : string; item_count : nat }.

Section Batches.
(** [render(start..end)]. *)
Variable render : nat → nat → string.

(** The inner loop: the largest accepted end, with its text. *)
Fixpoint extend (fuel item_count max_items start end_ : nat) (accepted : string) : nat * string :=
  match fuel with
  | 0 => (end_, accepted)
  | S n =>
      if (end_ <? item_count) && (end_ - start <? max_items) then
        let candidate := render start (end_ + 1) in
        if MAX_SQL_STATEMENT_BYTES <? len candidate then (end_, accepted)
        else extend n item_count max_items start (end_ + 1) candidate
      else (end_, accepted)
  end.

Fixpoint batches_from (fuel item_count max_items : nat) (item_label : string) (start : nat) (batches : list SqlBatch)
    : result (list SqlBatch) string :=
  match fuel with
  | 0 => Ok batches
  | S n =>
      if start <? item_count then
        let first := render start (start + 1) in
        if MAX_SQL_STATEMENT_BYTES <? len first then
          Err ("Cloudflare D1 " +:+ item_label +:+ " " +:+ pretty (start + 1) +:+ " generates a " +:+ pretty (len first)
               +:+ "-byte SQL statement; the maximum is " +:+ pretty MAX_SQL_STATEMENT_BYTES
               +:+ " bytes. Reduce the value size because a single item cannot be split safely.")
        else
          let '(end_, accepted) := extend item_count item_count max_items start (start + 1) first in
          batches_from n item_count max_items item_label end_
            (if is_empty (trim accepted) then batches else batches ++ [mk_batch accepted (end_ - start)])
      else Ok batches
  end.

(** Each iteration of either loop advances, so [item_count] is enough fuel. *)
Definition build_sql_batches (item_count max_items : nat) (item_label : string) : result (list SqlBatch) string :=
  batches_from item_count item_count (Nat.max max_items 1) item_label 0 [].
End Batches.

Definition statement_size_error (index byte_len : nat) : string :=
  "Cloudflare D1 SQL statement " +:+ pretty index +:+ " is " +:+ pretty byte_len +:+ " bytes; the maximum is "
  +:+ pretty MAX_SQL_STATEMENT_BYTES +:+ " bytes. Split the statement or reduce the batch/value size.".

Fixpoint validate_sizes (index : nat) (sts : list string) : result unit string :=
  match sts with
  | [] => Ok tt
  | st :: sts' =>
      if MAX_SQL_STATEMENT_BYTES <? len st then Err (statement_size_error (index + 1) (len st))
      else validate_sizes (S index) sts'
  end.

Definition validate_statement_sizes (sql : string) : result unit string :=
  validate_sizes 0 (complete_sql_statements sql).

(** ** What the lexer consumes *)

Definition suffix (r s : string) : Prop := ∃ c, s = (c +:+ r)%string.

Lemma suffix_refl s : suffix s s.
Proof. by exists "". Qed.

Lemma suffix_cons r a s : suffix r s → suffix r (String a s).
Proof. intros [c ->]. by exists (String a c). Qed.

Create HintDb suffix_db.
#[local] Hint Resolve suffix_refl suffix_cons : suffix_db.

Lemma skip_line_suffix s : suffix (skip_line_comment s) s.
Proof. induction s as [|a s IH]; simpl; [by exists ""|]. case_match; auto with suffix_db. Qed.

Lemma skip_block_suffix s : suffix (skip_block_comment s) s.
Proof.
  enough (∀ n s, len s ≤ n → suffix (skip_block_comment s) s) as H by by eapply H.
  clear s. induction n as [|n IH]; intros [|a s] Hn; try (by exists ""); [unfold len in Hn; simpl in Hn; lia|].
  assert (suffix (skip_block_comment s) (String a s)) as Hs by (apply suffix_cons, IH; unfold len in *; simpl in Hn; lia).
  destruct (Ascii.eqb_spec a "*") as [->|Ha].
  - destruct s as [|b s]; [exact Hs|]. destruct (Ascii.eqb_spec b "/") as [->|Hb]; [by exists "*/"|].
    destruct b as [[] [] [] [] [] [] [] []]; first [exact Hs|done].
  - destruct a as [[] [] [] [] [] [] [] []]; first [exact Hs|done].
Qed.

Lemma skip_quoted_suffix q s : suffix (skip_quoted q s) s.
Proof.
  enough (∀ n s, len s ≤ n → suffix (skip_quoted q s) s) as H by by eapply H.
  clear s. induction n as [|n IH]; intros [|a s] Hn; try (by exists ""); [unfold len in Hn; simpl in Hn; lia|].
  unfold len in Hn. simpl in Hn. cbn [skip_quoted]. destruct (Ascii.eqb a q); [|by apply suffix_cons, IH; unfold len; lia].
  destruct s as [|b s]; [auto with suffix_db|]. simpl in Hn.
  destruct (Ascii.eqb b q); [|auto with suffix_db]. apply suffix_cons, suffix_cons, IH. unfold len. lia.
Qed.

Lemma span_app f s : let '(w, r) := span f s in s = (w +:+ r)%string.
Proof.
  induction s as [|a s IH]; simpl; [done|]. destruct (f a); [|done]. destruct (span f s) as [w r]. by rewrite IH.
Qed.

Lemma lex_step_spec total a s' :
  let '(l, r) := lex_step total a s' in
  suffix r s' ∧ ∀ p, l = Some (Semicolon p) → a = ";"%char ∧ r = s' ∧ p = total - len (String a s').
Proof.
  assert (let '(l, r) :=
      (if is_quote a then (None, skip_quoted a s')
      else if Ascii.eqb a "[" then (None, skip_quoted "]" s')
      else if Ascii.eqb a ";" then (Some (Semicolon (total - len (String a s'))), s')
      else if is_digit a then let '(n, r) := span is_digit s' in (Some (Number (String a n)), r)
      else if is_word_start a then let '(w, r) := span is_word_byte s' in (Some (Word (String a w)), r)
      else if is_symbol a then (Some (Symbol a), s')
      else (None, s')) in
    suffix r s' ∧ ∀ p, l = Some (Semicolon p) → a = ";"%char ∧ r = s' ∧ p = total - len (String a s')) as Hmain.
  { pose proof (span_app is_digit s') as Hd. pose proof (span_app is_word_byte s') as Hw.
    destruct (is_quote a); [split; [apply skip_quoted_suffix|done]|].
    destruct (Ascii.eqb a "["); [split; [apply skip_quoted_suffix|done]|].
    destruct (Ascii.eqb_spec a ";") as [->|_].
    { split; [apply suffix_refl|]. by intros p [= <-]. }
    destruct (is_digit a); [destruct (span is_digit s') as [n r]; split; [by exists n|done]|].
    destruct (is_word_start a); [destruct (span is_word_byte s') as [w r]; split; [by exists w|done]|].
    destruct (is_symbol a); (split; [apply suffix_refl|done]). }
  unfold lex_step. destruct (Ascii.eqb_spec a "-") as [->|Ha1].
  { destruct s' as [|b s'']; [exact Hmain|]. destruct (Ascii.eqb_spec b "-") as [->|Hb].
    - split; [apply suffix_cons, skip_line_suffix|done].
    - destruct b as [[] [] [] [] [] [] [] []]; first [exact Hmain|done]. }
  destruct (Ascii.eqb_spec a "/") as [->|Ha2].
  { destruct s' as [|b s'']; [exact Hmain|]. destruct (Ascii.eqb_spec b "*") as [->|Hb].
    - split; [apply suffix_cons, skip_block_suffix|done].
    - destruct b as [[] [] [] [] [] [] [] []]; first [exact Hmain|done]. }
  destruct a as [[] [] [] [] [] [] [] []]; first [exact Hmain|done].
Qed.

(** ** Splitting loses nothing *)

Definition keep_statement (piece : string) : option string :=
  let st := trim piece in if is_empty st then None else Some st.

Lemma push_statement_piece pre piece rest sts i j :
  i = len pre → j = len (pre +:+ piece) →
  push_statement (pre +:+ piece +:+ rest)%string i j sts = sts ++ option_list (keep_statement piece).
Proof.
  intros -> ->. unfold push_statement, slice, keep_statement. rewrite substring_skip, string_app_length.
  replace (len pre + len piece - len pre) with (len piece) by lia. rewrite substring_take.
  destruct (is_empty (trim piece)); [by rewrite app_nil_r|done].
Qed.

Lemma split_step_word sql st w :
  statement_start (split_step sql st (Word w)) = statement_start st ∧
  statements (split_step sql st (Word w)) = statements st.
Proof. unfold split_step. by repeat case_match. Qed.

(** At the end of the script the statement under way is pushed. *)
Lemma split_end sql pre mid st : sql = (pre +:+ mid)%string → statement_start st = len pre →
  ∃ pieces, String.concat ";" pieces = mid ∧ pieces ≠ [] ∧
    push_statement sql (statement_start st) (len sql) (statements st) = statements st ++ omap keep_statement pieces.
Proof.
  intros Hsql Hst. exists [mid]. split; [done|]. split; [done|]. 
  rewrite <-(string_app_nil_r mid) in Hsql. rewrite Hst, Hsql.
  rewrite (push_statement_piece pre mid "") by (rewrite ?string_app_nil_r; done).
  cbn. by destruct (keep_statement mid).
Qed.

(** The run of the splitter from the middle of a script: [pre] was cut off,
    [mid] is the statement so far, [s] is still to be read. *)
Lemma split_run sql fuel : ∀ pre mid s st,
  sql = (pre +:+ mid +:+ s)%string → statement_start st = len pre → len s ≤ fuel →
  ∃ pieces, String.concat ";" pieces = (mid +:+ s)%string ∧ pieces ≠ [] ∧
    (let st' := foldl (split_step sql) st (lex_loop fuel (len sql) s) in
     push_statement sql (statement_start st') (len sql) (statements st')) =
    statements st ++ omap keep_statement pieces.
Proof.
  induction fuel as [|fuel IH]; intros pre mid s st Hsql Hst Hlen.
  { destruct s as [|a s]; [|unfold len in Hlen; simpl in Hlen; lia]. rewrite !string_app_nil_r in *. by apply (split_end sql pre). }
  destruct s as [|a s']; [rewrite !string_app_nil_r in *; by apply (split_end sql pre)|].
  cbn [lex_loop]. pose proof (lex_step_spec (len sql) a s') as Hstep.
  destruct (lex_step (len sql) a s') as [l r]. destruct Hstep as [[c Hc] Hsemi].
  assert (len r ≤ fuel) as Hr.
  { simpl in Hlen. rewrite Hc in Hlen. change (String.length (c +:+ r)) with (len (c +:+ r)) in Hlen.
    rewrite string_app_length in Hlen. lia. }
  assert (∀ st1, statement_start st1 = len pre → statements st1 = statements st →
    ∃ pieces, String.concat ";" pieces = (mid +:+ String a s')%string ∧ pieces ≠ [] ∧
      (let st' := foldl (split_step sql) st1 (lex_loop fuel (len sql) r) in
       push_statement sql (statement_start st') (len sql) (statements st')) =
      statements st ++ omap keep_statement pieces) as Hgo.
  { intros st1 H1 H2. destruct (IH pre (mid +:+ String a c)%string r st1) as (ps & Hps & Hne & Hrun); [|done|done|].
    - rewrite Hsql, Hc, <-!string_app_assoc. done.
    - exists ps. split; [rewrite Hps, <-string_app_assoc; cbn; by rewrite <-Hc|]. split; [done|]. by rewrite <-H2. }
  destruct l as [l|]; [|by apply Hgo]. cbn [option_list app foldl].
  destruct l as [w|n|b|p].
  - destruct (split_step_word sql st w). apply Hgo; congruence.
  - by apply Hgo.
  - by apply Hgo.
  - change (option_list (Some (Semicolon p)) ++ lex_loop fuel (len sql) r) with (Semicolon p :: lex_loop fuel (len sql) r).
    cbn [foldl split_step]. destruct (Hsemi p eq_refl) as (-> & -> & ->).
    destruct (is_trigger st && trigger_body_started st && (0 <? trigger_depth st)); [exact (Hgo st Hst eq_refl)|].
    assert (len sql - len (String ";" s') = len (pre +:+ mid)) as Hp.
    { rewrite Hsql, !string_app_length. lia. }
    rewrite Hp.
    destruct (IH (pre +:+ mid +:+ ";")%string "" s'
      (mk_split (len (pre +:+ mid) + 1) [] false false 0 (push_statement sql (statement_start st) (len (pre +:+ mid)) (statements st))))
      as (ps & Hps & Hne & Hrun).
    + rewrite Hsql, <-!string_app_assoc. done.
    + cbn [statement_start]. rewrite !string_app_length. cbn. lia.
    + done.
    + exists (mid :: ps). split; [|split; [done|]].
      * destruct ps as [|p0 ps]; [done|]. cbn [String.concat]. cbn in Hps. rewrite <-Hps. done.
      * etrans; [exact Hrun|]. cbn [statements]. rewrite Hst, Hsql.
        rewrite (push_statement_piece pre mid (String ";" s')) by done.
        rewrite <-app_assoc. f_equal. cbn. by destruct (keep_statement mid).
Qed.

(** ** Batches *)

Section BatchLemmas.
Context (render : nat → nat → string) (n max_items : nat).

(** Consecutive ranges from one index to another. *)
Inductive ranges : nat → nat → list (nat * nat) → Prop :=
| ranges_nil i : ranges i i []
| ranges_cons i j k l : i < j → ranges j k l → ranges i k ((i, j) :: l).

(** A range within the limits that could not be one item longer. *)
Definition full_range (r : nat * nat) : Prop :=
  r.2 ≤ n ∧ r.2 - r.1 ≤ max_items ∧ len (render r.1 r.2) ≤ MAX_SQL_STATEMENT_BYTES ∧
  (r.2 = n ∨ r.2 - r.1 = max_items ∨ MAX_SQL_STATEMENT_BYTES < len (render r.1 (r.2 + 1))).

Definition batch_of (r : nat * nat) : option SqlBatch :=
  let sql := render r.1 r.2 in if is_empty (trim sql) then None else Some (mk_batch sql (r.2 - r.1)).

Lemma extend_spec fuel start end_ :
  start < end_ → end_ ≤ n → end_ - start ≤ max_items → len (render start end_) ≤ MAX_SQL_STATEMENT_BYTES →
  n - end_ ≤ fuel →
  let '(e, acc) := extend render fuel n max_items start end_ (render start end_) in
  start < e ∧ acc = render start e ∧ full_range (start, e).
Proof.
  revert end_. induction fuel as [|fuel IH]; intros end_ H1 H2 H3 H4 H5; cbn [extend].
  - split; [done|]. split; [done|]. repeat split; simpl; auto. left. lia.
  - destruct (Nat.ltb_spec end_ n) as [Hn|Hn]; [destruct (Nat.ltb_spec (end_ - start) max_items) as [Hm|Hm]|]; cbn [andb].
    + destruct (Nat.ltb_spec MAX_SQL_STATEMENT_BYTES (len (render start (end_ + 1)))) as [Hl|Hl].
      * split; [done|]. split; [done|]. repeat split; simpl; auto.
      * apply IH; [lia..|done|lia].
    + split; [done|]. split; [done|]. repeat split; simpl; auto. right; left. lia.
    + split; [done|]. split; [done|]. repeat split; simpl; auto. left. lia.
Qed.

Lemma batches_from_spec fuel label start acc :
  1 ≤ max_items → start ≤ n → n - start ≤ fuel →
  match batches_from render fuel n max_items label start acc with
  | Ok bs => ∃ l, ranges start n l ∧ Forall full_range l ∧ bs = acc ++ omap batch_of l
  | Err _ => ∃ i, start ≤ i < n ∧ MAX_SQL_STATEMENT_BYTES < len (render i (i + 1))
  end.
Proof.
  intros Hmax. revert start acc. induction fuel as [|fuel IH]; intros start acc H1 H2; cbn [batches_from].
  { assert (start = n) as -> by lia. exists []. rewrite app_nil_r. repeat constructor. }
  destruct (Nat.ltb_spec start n) as [Hn|Hn].
  2: { assert (start = n) as -> by lia. exists []. rewrite app_nil_r. repeat constructor. }
  destruct (Nat.ltb_spec MAX_SQL_STATEMENT_BYTES (len (render start (start + 1)))) as [Hl|Hl]; [by exists start|].
  pose proof (extend_spec n start (start + 1) ltac:(lia) ltac:(lia) ltac:(lia) Hl ltac:(lia)) as He.
  destruct (extend render n n max_items start (start + 1) (render start (start + 1))) as [e a].
  destruct He as (Hse & -> & Hfull). pose proof Hfull as (Hen & _). cbn [snd] in Hen.
  specialize (IH e (if is_empty (trim (render start e)) then acc else acc ++ [mk_batch (render start e) (e - start)])
    Hen ltac:(lia)).
  destruct (batches_from render fuel n max_items label e _) as [bs|err].
  - destruct IH as (l & Hr & Hf & ->). exists ((start, e) :: l). split; [by constructor|]. split; [by constructor|].
    cbn. unfold batch_of at 2. cbn [fst snd]. destruct (is_empty (trim (render start e))); [done|]. by rewrite <-app_assoc.
  - destruct IH as (i & Hi & Hx). exists i. split; [lia|done].
Qed.
End BatchLemmas.

(** ** Properties *)

(** Splitting loses nothing: the pieces between the semicolons the
    splitter cuts at, joined again by semicolons, are the script, and the
    statements are those pieces trimmed, the blank ones left out. *)
Theorem statements_cover_script sql :
  ∃ pieces, String.concat ";" pieces = sql ∧ complete_sql_statements sql = omap keep_statement pieces.
Proof.
  destruct (split_run sql (len sql) "" "" sql (mk_split 0 [] false false 0 []) eq_refl eq_refl ltac:(done))
    as (ps & Hps & _ & Hrun).
  exists ps. split; [exact Hps|exact Hrun].
Qed.

(** The batches cut the items into consecutive ranges from first to last,
    none over the item or byte limit and none that could take one more item; each
    batch is the rendering of its range, blank ones left out; and the only error
    is an item too large on its own. *)
Theorem batches_partition render n max_items label :
  match build_sql_batches render n max_items label with
  | Ok bs => ∃ l, ranges 0 n l ∧ Forall (full_range render n (Nat.max max_items 1)) l ∧ bs = omap (batch_of render) l
  | Err _ => ∃ i, i < n ∧ MAX_SQL_STATEMENT_BYTES < len (render i (i + 1))
  end.
Proof.
  unfold build_sql_batches.
  pose proof (batches_from_spec render n (Nat.max max_items 1) n label 0 [] ltac:(lia) ltac:(lia) ltac:(lia)) as H.
  destruct (batches_from _ _ _ _ _ _ _) as [bs|e]; [exact H|]. destruct H as (i & Hi & Hl). exists i. split; [lia|done].
Qed.

(** ** Concrete scripts *)

Example trigger_kept_whole :
  complete_sql_statements "CREATE TRIGGER t AFTER INSERT ON a BEGIN UPDATE b SET c = CASE WHEN 1 THEN 2 END; END; SELECT ';'" =
  ["CREATE TRIGGER t AFTER INSERT ON a BEGIN UPDATE b SET c = CASE WHEN 1 THEN 2 END; END"; "SELECT ';'"].
Proof. vm_compute. reflexivity. Qed.

Example begin_refused : is_ok (validate_sql "SELECT 1; begin; SELECT 2") = false.
Proof. vm_compute. reflexivity. Qed.

Example fts_accepted : validate_sql "CREATE VIRTUAL TABLE t USING fts5(a); PRAGMA main.table_info(t)" = Ok tt.
Proof. vm_compute. reflexivity. Qed.
