(* ===== verification/SqlText.v ===== *)
(** * SQL text

    What the modules that read SQL share: texts as lists of Unicode scalar values
    with the [str] methods they use, the database types of models/connection.rs,
    and the interfaces to Unicode case mapping and to the third-party tokenizer. *)
From S2P Require Import Prelude RustStr.

Abbreviation text := (list N) (only parsing).

(** ** Interfaces *)

(** [str::to_uppercase] and [str::to_lowercase]: on ASCII they are the ASCII
    mappings. *)
Class UnicodeCase : Type := {
  to_uppercase : text → text;
  to_lowercase : text → text;
  to_uppercase_ascii l : Forall (λ c, c < 128)%N l → to_uppercase l = to_ascii_uppercase_c <$> l;
  to_lowercase_ascii l : Forall (λ c, c < 128)%N l → to_lowercase l = to_ascii_lowercase_c <$> l
}.

(** The tables restricted to ASCII. *)
Definition ascii_case : UnicodeCase :=
  {| to_uppercase l := to_ascii_uppercase_c <$> l; to_lowercase l := to_ascii_lowercase_c <$> l;
     to_uppercase_ascii _ _ := eq_refl; to_lowercase_ascii _ _ := eq_refl |}.

(** [DatabaseType] of models/connection.rs. *)
Inductive DatabaseType : Type :=
| Mysql | Postgres | Sqlite | Rqlite | Redis | DuckDb | ClickHouse | SqlServer | MongoDb | Oracle
| Elasticsearch | Easysearch | Hbase | Qdrant | Milvus | Weaviate | ChromaDb | Doris | StarRocks
| ManticoreSearch | Databend | Redshift | Dameng | Kingbase | Highgo | Uxdb | Vastbase | Goldendb
| Gaussdb | Kwdb | Yashandb | Databricks | SapHana | Teradata | Vertica | Firebird | Exasol | OpenGauss
| OceanbaseOracle | Gbase | Access | H2 | Snowflake | Trino | PrestoSql | Hive | Spark | Db2 | Informix
| Neo4j | Cassandra | Bigquery | Kylin | Sundb | Oscar | Tdengine | Xugu | Iotdb | Etcd | ZooKeeper
| Nacos | Iris | Turso | CloudflareD1 | InfluxDb | Questdb | Jdbc | MessageQueue.

#[export] Instance database_type_eq_dec : EqDecision DatabaseType.
Proof. solve_decision. Defined.

(** The derived [Debug] of a database type. *)
Definition database_type_debug (d : DatabaseType) : string :=
  match d with
  | Mysql => "Mysql" | Postgres => "Postgres" | Sqlite => "Sqlite" | Rqlite => "Rqlite" | Redis => "Redis"
  | DuckDb => "DuckDb" | ClickHouse => "ClickHouse" | SqlServer => "SqlServer" | MongoDb => "MongoDb"
  | Oracle => "Oracle" | Elasticsearch => "Elasticsearch" | Easysearch => "Easysearch" | Hbase => "Hbase"
  | Qdrant => "Qdrant" | Milvus => "Milvus" | Weaviate => "Weaviate" | ChromaDb => "ChromaDb" | Doris => "Doris"
  | StarRocks => "StarRocks" | ManticoreSearch => "ManticoreSearch" | Databend => "Databend" | Redshift => "Redshift"
  | Dameng => "Dameng" | Kingbase => "Kingbase" | Highgo => "Highgo" | Uxdb => "Uxdb" | Vastbase => "Vastbase"
  | Goldendb => "Goldendb" | Gaussdb => "Gaussdb" | Kwdb => "Kwdb" | Yashandb => "Yashandb"
  | Databricks => "Databricks" | SapHana => "SapHana" | Teradata => "Teradata" | Vertica => "Vertica"
  | Firebird => "Firebird" | Exasol => "Exasol" | OpenGauss => "OpenGauss" | OceanbaseOracle => "OceanbaseOracle"
  | Gbase => "Gbase" | Access => "Access" | H2 => "H2" | Snowflake => "Snowflake" | Trino => "Trino"
  | PrestoSql => "PrestoSql" | Hive => "Hive" | Spark => "Spark" | Db2 => "Db2" | Informix => "Informix"
  | Neo4j => "Neo4j" | Cassandra => "Cassandra" | Bigquery => "Bigquery" | Kylin => "Kylin" | Sundb => "Sundb"
  | Oscar => "Oscar" | Tdengine => "Tdengine" | Xugu => "Xugu" | Iotdb => "Iotdb" | Etcd => "Etcd"
  | ZooKeeper => "ZooKeeper" | Nacos => "Nacos" | Iris => "Iris" | Turso => "Turso" | CloudflareD1 => "CloudflareD1"
  | InfluxDb => "InfluxDb" | Questdb => "Questdb" | Jdbc => "Jdbc" | MessageQueue => "MessageQueue"
  end.

(** Dialects and tokens of the third-party sqlparser, as far as the program looks
    at them: a word, with its value and whether it is quoted, and a semicolon. *)
Inductive Dialect : Type := PostgreSqlDialect | MsSqlDialect | OracleDialect.
Inductive Token : Type := TokenWord (value : text) (quoted : bool) | TokenSemiColon | TokenOther.

(** [Tokenizer::new(dialect, sql).tokenize()]; [None] is an error. *)
Class SqlTokenizer : Type := { tokenize : Dialect → text → option (list Token) }.

(** ** Characters *)

Definition c (s : string) : text := chars s.

Definition text_eqb (a b : text) : bool := bool_decide (a = b).
Definition text_eq_ignore_ascii_case (a b : text) : bool :=
  bool_decide (to_ascii_lowercase_c <$> a = to_ascii_lowercase_c <$> b).

Fixpoint strip_prefix_t (l p : text) : option text :=
  match p, l with
  | [], _ => Some l
  | x :: p', y :: l' => if (x =? y)%N then strip_prefix_t l' p' else None
  | _ :: _, [] => None
  end.
Definition starts_with_t (l p : text) : bool := match strip_prefix_t l p with Some _ => true | None => false end.
Definition ends_with_t (l p : text) : bool := starts_with_t (rev l) (rev p).
Fixpoint contains_t (l p : text) : bool :=
  starts_with_t l p || match l with [] => false | _ :: l' => contains_t l' p end.
(** [join]. *)
Fixpoint join_t (separator : text) (l : list text) : text :=
  match l with [] => [] | [x] => x | x :: l' => x ++ separator ++ join_t separator l' end.

Definition trim_start_t (l : text) : text := drop_while is_whitespace l.
Definition trim_end_t (l : text) : text := rev (drop_while is_whitespace (rev l)).
Definition trim_t (l : text) : text := trim_end_t (trim_start_t l).
(** [trim_end_matches(c)]. *)
Definition trim_end_char (x : N) (l : text) : text := rev (drop_while (N.eqb x) (rev l)).

(** [split(f)]: at every character that satisfies [f]. *)
Fixpoint split_t (f : N → bool) (l : text) (word : text) : list text :=
  match l with
  | [] => [rev word]
  | x :: l' => if f x then rev word :: split_t f l' [] else split_t f l' (x :: word)
  end.

Definition is_word_char (x : N) : bool := is_ascii_alphanumeric x || (x =? 95)%N.

Definition SQ : N := 39.
Definition DQ : N := 34.
Definition BT : N := 96.

Fixpoint span_t (f : N → bool) (l : text) : text * text :=
  match l with
  | x :: l' => if f x then let '(a, b) := span_t f l' in (x :: a, b) else ([], l)
  | [] => ([], [])
  end.

