(* ===== verification/SqlSplit.v ===== *)
(** * The statement splitter (sql.rs)

    [SqlStatementSplitter] cuts a script into statements as it reads it, with
    quotes, comments, dollar quoting, custom delimiters, slash lines and the
    routine blocks of MySQL, Oracle and HANA; [split_sql_batches] cuts a SQL
    Server script at GO lines. A cursor into [chars] is the rest of the text.
    Where the code slices the script by byte offsets, the slice itself is kept. *)
From S2P Require Import Prelude RustStr SqlText.

(** ** Dialect profiles *)

Record SqlDialectProfile := mk_profile {
  supports_hash_line_comments : bool;
  supports_oracle_plsql_blocks : bool;
  supports_slash_line_block_delimiter : bool;
  supports_custom_delimiter_commands : bool;
  supports_mysql_routine_blocks : bool;
  supports_dollar_quoted_strings : bool;
  supports_postgres_dollar_quoted_routines : bool;
  supports_hana_do_blocks : bool;
  supports_go_batch_separator : bool;
  keeps_sqlserver_module_batch_at_cursor : bool
}.

Definition SqlDialectProfile_default : SqlDialectProfile :=
  mk_profile false false false true false true false false false false.
Definition mysql_compatible : SqlDialectProfile := mk_profile true false false true true true false false false false.
Definition oracle_like : SqlDialectProfile := mk_profile false true true true false true false false false false.
Definition gaussdb : SqlDialectProfile := mk_profile false true true true false true true false false false.
Definition sql_server : SqlDialectProfile := mk_profile false false false true false true false false true true.
Definition sap_hana : SqlDialectProfile := mk_profile false false false true false true false true false false.

Definition is_mysql_compatible_database (d : DatabaseType) : bool :=
  bool_decide (d ∈ [Mysql; Doris; StarRocks; ManticoreSearch; Goldendb]).
Definition is_oracle_like_database (d : DatabaseType) : bool :=
  bool_decide (d ∈ [Oracle; Dameng; Gaussdb; Yashandb; Oscar; OceanbaseOracle; Xugu]).

Definition for_database_type (d : DatabaseType) : SqlDialectProfile :=
  if bool_decide (d = Gaussdb) then gaussdb
  else if is_oracle_like_database d then oracle_like
  else if bool_decide (d = SqlServer) then sql_server
  else if is_mysql_compatible_database d then mysql_compatible
  else if bool_decide (d = SapHana) then sap_hana
  else SqlDialectProfile_default.

(** ** Leading comments and executable text *)

Fixpoint skip_to_newline (l : text) : text :=
  match l with [] => [] | x :: l' => if (x =? 10)%N then l else skip_to_newline l' end.

(** What follows the first end of a block comment. *)
Fixpoint after_block_comment (l : text) : option text :=
  match l with
  | [] => None
  | x :: l1 =>
      match l1 with
      | y :: l2 => if (x =? 42)%N && (y =? 47)%N then Some l2 else after_block_comment l1
      | [] => None
      end
  end.

(** The text after the opening of a comment makes it executable. *)
Definition is_mysql_executable_comment_start (l : text) : bool :=
  match l with
  | 33%N :: _ => true
  | 77%N :: 33%N :: _ => true
  | _ => false
  end.

(** Every turn drops a comment, so the length is enough fuel. *)
Fixpoint leading_loop (fuel : nat) (hash : bool) (l : text) : text :=
  let l := drop_while is_ascii_whitespace l in
  match fuel with
  | 0 => l
  | S n =>
      match l with
      | 45%N :: 45%N :: r => leading_loop n hash (skip_to_newline r)
      | 35%N :: r => if hash then leading_loop n hash (skip_to_newline r) else l
      | 47%N :: 42%N :: r =>
          if is_mysql_executable_comment_start r then l
          else match after_block_comment r with
               | Some r' => leading_loop n hash r'
               | None => []
               end
      | _ => l
      end
  end.
Definition leading_executable_sql_with_options (sql : text) (p : SqlDialectProfile) : text :=
  leading_loop (List.length sql) (supports_hash_line_comments p) sql.

(** The text between the bounds. *)
Definition executable_sql_bounds (statement : text) (p : SqlDialectProfile) : option text :=
  match leading_executable_sql_with_options (trim_end_t statement) p with
  | [] => None
  | executable => Some executable
  end.

Inductive CommentMode : Type := NoComment | InLine | InBlock.

Fixpoint has_executable (hash : bool) (m : CommentMode) (previous : option N) (l : text) : bool :=
  match l with
  | [] => false
  | x :: l1 =>
      match m with
      | InLine => has_executable hash (if (x =? 10)%N then NoComment else InLine) (Some x) l1
      | InBlock =>
          has_executable hash
            (if bool_decide (previous = Some 42%N) && (x =? 47)%N then NoComment else InBlock) (Some x) l1
      | NoComment =>
          let next := head l1 in
          if (x =? 45)%N && bool_decide (next = Some 45%N) then has_executable hash InLine (Some x) l1
          else if hash && (x =? 35)%N then has_executable hash InLine (Some x) l1
          else if (x =? 47)%N && bool_decide (next = Some 42%N) then
            if is_mysql_executable_comment_start (List.tl l1) then true
            else has_executable hash InBlock (Some x) l1
          else if negb (is_whitespace x) then true
          else has_executable hash NoComment (Some x) l1
      end
  end.
Definition has_executable_sql_with_options (statement : text) (p : SqlDialectProfile) : bool :=
  has_executable (supports_hash_line_comments p) NoComment None statement.

(** ** MySQL routines *)

Definition is_sql_ident_char (x : N) : bool := (x =? 95)%N || (x =? 36)%N || is_ascii_alphanumeric x.

Inductive LexMode : Type := LexCode | LexLine | LexBlock | LexSingle | LexDouble | LexBacktick.

(** The loop of [mysql_routine_tokens]; each turn reads at least one character. *)
Fixpoint mysql_tokens (fuel : nat) (m : LexMode) (l : text) : list text :=
  match fuel, l with
  | S n, x :: l1 =>
      let next := head l1 in
      let quoted (q : N) (backslash : bool) :=
        if backslash && (x =? 92)%N && bool_decide (is_Some next) then mysql_tokens n m (List.tl l1)
        else if (x =? q)%N then
          if bool_decide (next = Some q) then mysql_tokens n m (List.tl l1) else mysql_tokens n LexCode l1
        else mysql_tokens n m l1 in
      match m with
      | LexLine => mysql_tokens n (if (x =? 10)%N then LexCode else LexLine) l1
      | LexBlock => if (x =? 42)%N && bool_decide (next = Some 47%N) then mysql_tokens n LexCode (List.tl l1)
                    else mysql_tokens n LexBlock l1
      | LexSingle => quoted SQ true
      | LexDouble => quoted DQ true
      | LexBacktick => quoted BT false
      | LexCode =>
          if (x =? 45)%N && bool_decide (next = Some 45%N) then mysql_tokens n LexLine (List.tl l1)
          else if (x =? 35)%N then mysql_tokens n LexLine l1
          else if (x =? 47)%N && bool_decide (next = Some 42%N) then mysql_tokens n LexBlock (List.tl l1)
          else if (x =? SQ)%N then mysql_tokens n LexSingle l1
          else if (x =? DQ)%N then mysql_tokens n LexDouble l1
          else if (x =? BT)%N then mysql_tokens n LexBacktick l1
          else if (x =? 59)%N then [59%N] :: mysql_tokens n LexCode l1
          else if (x =? 95)%N || is_ascii_alphabetic x then
            let '(word, r) := span_t is_sql_ident_char l1 in
            (to_ascii_uppercase_c <$> x :: word) :: mysql_tokens n LexCode r
          else mysql_tokens n LexCode l1
      end
  | _, _ => []
  end.
Definition mysql_routine_tokens (sql : text) : list text := mysql_tokens (List.length sql) LexCode sql.

Definition first_sql_tokens (sql : text) (limit : nat) : list text :=
  take limit (List.filter (λ w, negb (text_eqb w [])) (split_t (λ x, negb (is_word_char x)) sql [])).

Definition is_keyword (token : text) (keyword : string) : bool := text_eq_ignore_ascii_case token (c keyword).
Definition is_any_keyword (token : text) (keywords : list string) : bool := existsb (is_keyword token) keywords.

Definition ROUTINE_OBJECTS : list string := ["PROCEDURE"; "FUNCTION"; "TRIGGER"; "EVENT"].
Definition OTHER_OBJECTS : list string :=
  ["DATABASE"; "INDEX"; "LOGFILE"; "ROLE"; "SCHEMA"; "SERVER"; "SPATIAL"; "TABLE"; "TEMPORARY"; "UNIQUE"; "USER"; "VIEW"].

Fixpoint first_object_is_routine (tokens : list text) : bool :=
  match tokens with
  | [] => false
  | t :: tokens' =>
      if is_any_keyword t ROUTINE_OBJECTS then true
      else if is_any_keyword t OTHER_OBJECTS then false
      else first_object_is_routine tokens'
  end.

Definition is_mysql_routine_ddl_start (sql : text) : bool :=
  match first_sql_tokens (leading_executable_sql_with_options sql mysql_compatible) 16 with
  | first :: tokens => if is_keyword first "CREATE" then first_object_is_routine tokens else false
  | [] => false
  end.

Definition starts_with_mysql_routine_block (sql : text) : bool :=
  is_mysql_routine_ddl_start sql && existsb (λ t, is_keyword t "BEGIN") (mysql_routine_tokens sql).

Definition is_mysql_control_block_suffix (token : text) : bool :=
  is_any_keyword token ["IF"; "LOOP"; "CASE"; "REPEAT"; "WHILE"].

(** The next or, on the reversed tokens, the previous word. *)
Definition mysql_routine_word (tokens : list text) : option text :=
  List.find (λ t, negb (text_eqb t [59%N])) tokens.

(** The loop of [mysql_routine_block_is_complete], [before] reversed. *)
Fixpoint mysql_depth (before tokens : list text) (saw_begin : bool) (begin_depth : nat) : bool * nat :=
  match tokens with
  | [] => (saw_begin, begin_depth)
  | t :: rest =>
      let continue := mysql_depth (t :: before) rest in
      if text_eqb t [59%N] then continue saw_begin begin_depth
      else if is_keyword t "BEGIN" then
        if match mysql_routine_word before with Some p => is_keyword p "END" | None => false end
        then continue saw_begin begin_depth
        else continue true (S begin_depth)
      else if is_keyword t "END" && saw_begin then
        if match mysql_routine_word rest with Some w => is_mysql_control_block_suffix w | None => false end
        then continue saw_begin begin_depth
        else continue saw_begin (begin_depth - 1)
      else continue saw_begin begin_depth
  end.

Definition mysql_routine_block_is_complete (sql : text) : bool :=
  if negb (starts_with_mysql_routine_block sql) then false
  else
    let tokens := mysql_routine_tokens sql in
    let '(saw_begin, begin_depth) := mysql_depth [] tokens false 0 in
    saw_begin && (begin_depth =? 0) && match last tokens with Some t => text_eqb t [59%N] | None => false end.

(** ** Oracle and HANA blocks *)

Inductive OraclePlSqlToken : Type := Word (value : text) | Semicolon.

#[export] Instance oracle_token_eq_dec : EqDecision OraclePlSqlToken.
Proof. solve_decision. Defined.

Definition is_word (t : OraclePlSqlToken) (expected : string) : bool :=
  match t with Word v => text_eqb v (c expected) | Semicolon => false end.
Definition is_any_word (t : OraclePlSqlToken) (expected : list string) : bool := existsb (is_word t) expected.
Definition as_word (t : OraclePlSqlToken) : option text := match t with Word v => Some v | Semicolon => None end.
Definition is_semicolon (t : OraclePlSqlToken) : bool := match t with Semicolon => true | _ => false end.

Fixpoint find_word (tokens : list OraclePlSqlToken) : option text :=
  match tokens with
  | [] => None
  | Word v :: _ => Some v
  | Semicolon :: tokens' => find_word tokens'
  end.

(** What follows a block comment, [previous] being the character before. *)
Fixpoint fallback_comment (previous : N) (l : text) : text :=
  match l with
  | [] => []
  | x :: l' => if (previous =? 42)%N && (x =? 47)%N then l' else fallback_comment x l'
  end.
Fixpoint after_single_quote (l : text) : text :=
  match l with
  | [] => []
  | x :: l1 =>
      if (x =? SQ)%N then
        match l1 with
        | y :: l2 => if (y =? SQ)%N then after_single_quote l2 else l1
        | [] => []
        end
      else after_single_quote l1
  end.
Fixpoint after_char (a : N) (l : text) : text :=
  match l with [] => [] | x :: l' => if (x =? a)%N then l' else after_char a l' end.

(** The loop of [oracle_plsql_tokens_fallback]. *)
Fixpoint fallback_tokens (fuel : nat) (l : text) : list OraclePlSqlToken :=
  match fuel, l with
  | S n, x :: l1 =>
      let next := head l1 in
      if is_whitespace x then fallback_tokens n l1
      else if (x =? 45)%N && bool_decide (next = Some 45%N) then fallback_tokens n (after_char 10 (List.tl l1))
      else if (x =? 47)%N && bool_decide (next = Some 42%N) then fallback_tokens n (fallback_comment 0 (List.tl l1))
      else if (x =? SQ)%N then fallback_tokens n (after_single_quote l1)
      else if (x =? DQ)%N then fallback_tokens n (after_char DQ l1)
      else if (x =? 59)%N then Semicolon :: fallback_tokens n l1
      else if is_ascii_alphabetic x || (x =? 95)%N then
        let '(word, r) := span_t (λ y, is_ascii_alphanumeric y || (y =? 95)%N || (y =? 36)%N || (y =? 35)%N) l1 in
        Word (to_ascii_uppercase_c <$> x :: word) :: fallback_tokens n r
      else fallback_tokens n l1
  | _, _ => []
  end.
Definition oracle_plsql_tokens_fallback (sql : text) : list OraclePlSqlToken := fallback_tokens (List.length sql) sql.

Definition from_sqlparser_token (t : Token) : option OraclePlSqlToken :=
  match t with
  | TokenWord value false => Some (Word (to_ascii_uppercase_c <$> value))
  | TokenSemiColon => Some Semicolon
  | _ => None
  end.

Fixpoint skip_create_modifiers (tokens : list OraclePlSqlToken) : list OraclePlSqlToken :=
  match tokens with
  | [] => []
  | a :: tail1 =>
      if is_any_word a ["FORCE"; "NOFORCE"; "EDITIONABLE"; "NONEDITIONABLE"] then skip_create_modifiers tail1
      else match tail1 with
           | b :: tail => if is_word a "OR" && is_word b "REPLACE" then skip_create_modifiers tail else tokens
           | [] => tokens
           end
  end.

Definition starts_create_plsql_object (tokens : list OraclePlSqlToken) : bool :=
  match skip_create_modifiers tokens with
  | [] => false
  | object :: rest =>
      if is_any_word object ["PACKAGE"; "TYPE"] && match rest with body :: _ => is_word body "BODY" | [] => false end
      then true
      else if is_word object "TYPE" then false
      else is_any_word object ["FUNCTION"; "PROCEDURE"; "TRIGGER"; "PACKAGE"]
  end.

Definition is_transaction_begin_tail (t : OraclePlSqlToken) : bool :=
  is_semicolon t || is_any_word t ["TRANSACTION"; "WORK"].

Definition oracle_starts_block (tokens : list OraclePlSqlToken) : bool :=
  match tokens with
  | [] => false
  | first :: rest =>
      if is_word first "DECLARE" then true
      else if is_word first "BEGIN" && match rest with second :: _ => negb (is_transaction_begin_tail second) | [] => false end
      then true
      else if is_word first "CREATE" then starts_create_plsql_object rest
      else false
  end.

Inductive OraclePlSqlCreateObjectKind : Type := Spec | Body.
Inductive OraclePlSqlScope : Type := ScopeObject | ScopeBlock | ScopeCase.

Definition create_object_kind (tokens : list OraclePlSqlToken) : option OraclePlSqlCreateObjectKind :=
  match tokens with
  | first :: rest =>
      if negb (is_word first "CREATE") then None
      else match skip_create_modifiers rest with
           | object :: rest' =>
               if is_any_word object ["PACKAGE"; "TYPE"] && match rest' with b :: _ => is_word b "BODY" | [] => false end
               then Some Body
               else if is_word object "PACKAGE" then Some Spec else None
           | [] => None
           end
  | [] => None
  end.

(** The loop of [OraclePlSqlBlock::is_complete]; [before] is reversed, the top of
    [scopes] comes first. *)
Fixpoint oracle_scopes (before tokens : list OraclePlSqlToken) (scopes : list OraclePlSqlScope)
    (saw_begin complete : bool) : bool * bool :=
  match tokens with
  | [] => (saw_begin, complete)
  | t :: rest =>
      let continue := oracle_scopes (t :: before) rest in
      if is_semicolon t then continue scopes saw_begin complete
      else if is_word t "BEGIN" then continue (ScopeBlock :: scopes) true false
      else if is_word t "CASE" then
        if bool_decide (find_word before = Some (c "END")) then continue scopes saw_begin complete
        else continue (ScopeCase :: scopes) saw_begin complete
      else if is_word t "END" then
        let next := head rest ≫= as_word in
        if bool_decide (next = Some (c "IF")) || bool_decide (next = Some (c "LOOP")) then continue scopes saw_begin complete
        else if bool_decide (next = Some (c "CASE")) && match scopes with ScopeCase :: _ => false | _ => true end
        then continue scopes saw_begin complete
        else match scopes with
             | [] => continue [] saw_begin complete
             | _ :: scopes' => continue scopes' saw_begin (match scopes' with [] => true | _ => false end)
             end
      else continue scopes saw_begin complete
  end.

Definition oracle_is_complete (tokens : list OraclePlSqlToken) : bool :=
  if negb (oracle_starts_block tokens) then false
  else
    let object_kind := create_object_kind tokens in
    let scopes := match object_kind with Some _ => [ScopeObject] | None => [] end in
    let '(saw_begin, complete) := oracle_scopes [] tokens scopes false false in
    match object_kind with
    | Some Spec => complete
    | _ => saw_begin && complete
    end.

Definition hana_starts_block (tokens : list OraclePlSqlToken) : bool :=
  match tokens with t :: _ => is_word t "DO" | [] => false end.

(** The loop of [HanaDoBlock::is_complete]; the top of [stack] comes first. *)
Fixpoint hana_stack (before tokens : list OraclePlSqlToken) (stack : list text) (saw_begin : bool) : bool * list text :=
  match tokens with
  | [] => (saw_begin, stack)
  | t :: rest =>
      let continue := hana_stack (t :: before) rest in
      let after_end := bool_decide (find_word before = Some (c "END")) in
      if is_word t "BEGIN" then if after_end then continue stack saw_begin else continue (c "BLOCK" :: stack) true
      else if is_any_word t ["IF"; "FOR"; "WHILE"; "CASE"] then
        if after_end then continue stack saw_begin
        else continue (default (c "BLOCK") (as_word t) :: stack) saw_begin
      else if is_word t "END" then
        let top := head stack in
        let target :=
          match find_word rest with
          | Some keyword =>
              if text_eqb keyword (c "IF") || text_eqb keyword (c "FOR") || text_eqb keyword (c "WHILE") then keyword
              else if bool_decide (top = Some (c "CASE")) then c "CASE" else c "BLOCK"
          | None => if bool_decide (top = Some (c "CASE")) then c "CASE" else c "BLOCK"
          end in
        continue (if bool_decide (top = Some target) then List.tl stack else stack) saw_begin
      else continue stack saw_begin
  end.

Definition hana_is_complete (tokens : list OraclePlSqlToken) : bool :=
  if negb (hana_starts_block tokens) then false
  else
    let '(saw_begin, stack) := hana_stack [] tokens [] false in
    saw_begin && match stack with [] => true | _ => false end
    && match last tokens with Some t => is_semicolon t | None => false end.

(** ** The splitter *)

Record SqlStatementSplitter := mk_splitter {
  buffer : text;
  in_single_quote : bool;
  in_double_quote : bool;
  in_backtick : bool;
  in_line_comment : bool;
  in_block_comment : bool;
  dollar_quote_tag : option text;
  postgres_dollar_quoted_routine : bool;
  previous : option N;
  custom_delimiter : option text;
  profile : SqlDialectProfile
}.

Definition with_options (p : SqlDialectProfile) : SqlStatementSplitter :=
  mk_splitter [] false false false false false None false None None p.

Definition set_buffer (b : text) (s : SqlStatementSplitter) : SqlStatementSplitter :=
  mk_splitter b (in_single_quote s) (in_double_quote s) (in_backtick s) (in_line_comment s) (in_block_comment s)
    (dollar_quote_tag s) (postgres_dollar_quoted_routine s) (previous s) (custom_delimiter s) (profile s).
Definition set_quotes (sq dq bt : bool) (s : SqlStatementSplitter) : SqlStatementSplitter :=
  mk_splitter (buffer s) sq dq bt (in_line_comment s) (in_block_comment s)
    (dollar_quote_tag s) (postgres_dollar_quoted_routine s) (previous s) (custom_delimiter s) (profile s).
Definition set_comments (line block : bool) (s : SqlStatementSplitter) : SqlStatementSplitter :=
  mk_splitter (buffer s) (in_single_quote s) (in_double_quote s) (in_backtick s) line block
    (dollar_quote_tag s) (postgres_dollar_quoted_routine s) (previous s) (custom_delimiter s) (profile s).
Definition set_tag (tag : option text) (s : SqlStatementSplitter) : SqlStatementSplitter :=
  mk_splitter (buffer s) (in_single_quote s) (in_double_quote s) (in_backtick s) (in_line_comment s)
    (in_block_comment s) tag (postgres_dollar_quoted_routine s) (previous s) (custom_delimiter s) (profile s).
Definition set_routine (r : bool) (s : SqlStatementSplitter) : SqlStatementSplitter :=
  mk_splitter (buffer s) (in_single_quote s) (in_double_quote s) (in_backtick s) (in_line_comment s)
    (in_block_comment s) (dollar_quote_tag s) r (previous s) (custom_delimiter s) (profile s).
Definition set_previous (x : option N) (s : SqlStatementSplitter) : SqlStatementSplitter :=
  mk_splitter (buffer s) (in_single_quote s) (in_double_quote s) (in_backtick s) (in_line_comment s)
    (in_block_comment s) (dollar_quote_tag s) (postgres_dollar_quoted_routine s) x (custom_delimiter s) (profile s).
Definition set_delimiter (d : option text) (s : SqlStatementSplitter) : SqlStatementSplitter :=
  mk_splitter (buffer s) (in_single_quote s) (in_double_quote s) (in_backtick s) (in_line_comment s)
    (in_block_comment s) (dollar_quote_tag s) (postgres_dollar_quoted_routine s) (previous s) d (profile s).

Definition push (x : N) (s : SqlStatementSplitter) : SqlStatementSplitter := set_buffer (buffer s ++ [x]) s.
(** Push and remember. *)
Definition push_char (x : N) (s : SqlStatementSplitter) : SqlStatementSplitter := set_previous (Some x) (push x s).

Definition has_odd_trailing_backslashes (sql : text) : bool :=
  Nat.odd (List.length (span_t (N.eqb 92) (rev sql)).1).

(** The last line, and what comes before it, its newline included. *)
Definition last_line (l : text) : text := rev (span_t (λ x, negb (x =? 10)%N) (rev l)).1.
Definition before_last_line (l : text) : text := rev (span_t (λ x, negb (x =? 10)%N) (rev l)).2.

Definition on_delimiter_line (buffer : text) : bool :=
  let line := trim_start_t (last_line buffer) in
  text_eqb (to_ascii_lowercase_c <$> take 9 line) (c "delimiter").

Definition parse_delimiter_command (line : text) : option text :=
  if (10 <? List.length line)
     && (text_eqb (to_ascii_lowercase_c <$> take 10 line) (c "delimiter ")
         || text_eqb (to_ascii_lowercase_c <$> take 10 line) (c "delimiter" ++ [9%N]))
  then match trim_t (drop 10 line) with [] => None | r => Some r end
  else None.

Fixpoint dollar_tag_end (l acc : text) : option text :=
  match l with
  | [] => None
  | x :: l' =>
      if (x =? 36)%N then Some (acc ++ [36%N])
      else if is_word_char x then dollar_tag_end l' (acc ++ [x]) else None
  end.
Definition dollar_quote_tag_at (l : text) : option text :=
  match l with
  | 36%N :: y :: r =>
      if (y =? 36)%N then Some [36%N; 36%N]
      else if is_ascii_alphabetic y || (y =? 95)%N then dollar_tag_end r [36%N; y] else None
  | _ => None
  end.

(** [statements.push] of a text that holds something to execute. *)
Definition emit (statement : text) (p : SqlDialectProfile) : list text :=
  if has_executable_sql_with_options statement p then [statement] else [].

Definition forget (s : SqlStatementSplitter) : SqlStatementSplitter :=
  set_previous None (set_routine false (set_buffer [] s)).

Definition push_current_statement (s : SqlStatementSplitter) : SqlStatementSplitter * list text :=
  (forget s, emit (trim_t (buffer s)) (profile s)).

Definition unquoted (s : SqlStatementSplitter) : bool :=
  negb (in_single_quote s) && negb (in_double_quote s) && negb (in_backtick s).

Section Splitter.
Context `{SqlTokenizer}.

Definition oracle_plsql_tokens (sql : text) : list OraclePlSqlToken :=
  match tokenize OracleDialect sql with
  | Some tokens => omap from_sqlparser_token tokens
  | None => oracle_plsql_tokens_fallback sql
  end.

Definition starts_with_oracle_plsql_block (sql : text) : bool := oracle_starts_block (oracle_plsql_tokens sql).
Definition oracle_plsql_block_is_complete (sql : text) : bool := oracle_is_complete (oracle_plsql_tokens sql).
Definition starts_with_hana_do_block (sql : text) : bool := hana_starts_block (oracle_plsql_tokens sql).
Definition hana_do_block_is_complete (sql : text) : bool := hana_is_complete (oracle_plsql_tokens sql).

Definition starts_with_postgres_dollar_quoted_routine_prefix (sql : text) : bool :=
  let tokens := oracle_plsql_tokens sql in
  match tokens with
  | [] => false
  | first :: rest =>
      if negb (is_word first "CREATE") then false
      else match skip_create_modifiers rest with t :: _ => is_any_word t ["FUNCTION"; "PROCEDURE"] | [] => false end
           && bool_decide (find_word (rev tokens) = Some (c "AS"))
  end.

(** A semicolon outside quotes. *)
Definition push_semicolon (s : SqlStatementSplitter) : SqlStatementSplitter * list text :=
  let p := profile s in
  let ch := 59%N in
  if (supports_custom_delimiter_commands p && on_delimiter_line (buffer s))
     || match custom_delimiter s with Some _ => true | None => false end
  then (push ch s, [])
  else if supports_mysql_routine_blocks p && starts_with_mysql_routine_block (buffer s) then
    if mysql_routine_block_is_complete (buffer s ++ [ch]) then push_current_statement s else (push ch s, [])
  else if supports_oracle_plsql_blocks p && negb (postgres_dollar_quoted_routine s)
          && starts_with_oracle_plsql_block (buffer s) then
    let s := push ch s in
    if oracle_plsql_block_is_complete (buffer s) then push_current_statement s else (s, [])
  else if supports_hana_do_blocks p && starts_with_hana_do_block (buffer s) then
    let s := push ch s in
    if hana_do_block_is_complete (buffer s) then push_current_statement s else (s, [])
  else push_current_statement s.

(** The [match ch] of [push_chunk]. *)
Definition push_plain (ch : N) (s : SqlStatementSplitter) : SqlStatementSplitter * list text :=
  let '(sq, dq, bt) := (in_single_quote s, in_double_quote s, in_backtick s) in
  if (ch =? SQ)%N && negb dq && negb bt && negb (has_odd_trailing_backslashes (buffer s))
  then (push ch (set_quotes (negb sq) dq bt s), [])
  else if (ch =? DQ)%N && negb sq && negb bt && negb (has_odd_trailing_backslashes (buffer s))
  then (push ch (set_quotes sq (negb dq) bt s), [])
  else if (ch =? BT)%N && negb sq && negb dq then (push ch (set_quotes sq dq (negb bt) s), [])
  else if (ch =? 59)%N && negb sq && negb dq && negb bt then push_semicolon s
  else (push ch s, []).

(** At the end of a line: a slash line or a DELIMITER command ends what came
    before it. [None]: the line is neither. *)
Definition end_of_line (s : SqlStatementSplitter) : option (SqlStatementSplitter * list text) :=
  let p := profile s in
  let body := removelast (buffer s) in
  let line := trim_t (last_line body) in
  let before := trim_t (before_last_line body) in
  if supports_slash_line_block_delimiter p && text_eqb line (c "/") then Some (forget s, emit before p)
  else match (if supports_custom_delimiter_commands p then parse_delimiter_command line else None) with
       | Some new_delim =>
           Some (forget (set_delimiter (if text_eqb new_delim (c ";") then None else Some new_delim) s),
                 match before_last_line body with [] => [] | _ => emit before p end)
       | None => None
       end.

(** A statement ends at the custom delimiter. *)
Definition end_of_delimiter (s : SqlStatementSplitter) : SqlStatementSplitter * list text :=
  match custom_delimiter s with
  | Some delim =>
      if ends_with_t (buffer s) delim
      then push_current_statement (set_buffer (take (List.length (buffer s) - List.length delim) (buffer s)) s)
      else (s, [])
  | None => (s, [])
  end.

(** A character outside comments and dollar quotes that opens neither. *)
Definition plain_step (ch : N) (s : SqlStatementSplitter) : SqlStatementSplitter * list text :=
  let '(s1, out1) := push_plain ch s in
  if negb (unquoted s1) then (set_previous (Some ch) s1, out1)
  else
    match (if (ch =? 10)%N then end_of_line s1 else None) with
    | Some (s2, out2) => (s2, out1 ++ out2)
    | None =>
        let '(s2, out2) := end_of_delimiter s1 in
        (set_previous (Some ch) s2, out1 ++ out2)
    end.

(** One turn of the loop of [push_chunk]: the rest of the characters too. *)
Definition push_step (s : SqlStatementSplitter) (ch : N) (l1 : text) : (SqlStatementSplitter * list text) * text :=
  let p := profile s in
  let next := head l1 in
  match dollar_quote_tag s with
  | Some tag =>
      match strip_prefix_t (ch :: l1) tag with
      | Some r => ((set_tag None (foldl (λ s x, push_char x s) s tag), []), r)
      | None => ((push_char ch s, []), l1)
      end
  | None =>
      if in_line_comment s
      then ((push_char ch (if (ch =? 10)%N then set_comments false (in_block_comment s) s else s), []), l1)
      else if in_block_comment s
      then ((push_char ch (if bool_decide (previous s = Some 42%N) && (ch =? 47)%N
                           then set_comments false false s else s), []), l1)
      else if unquoted s &&
              (bool_decide (previous s = Some 45%N) && (ch =? 45)%N)
      then ((push_char ch (set_comments true false s), []), l1)
      else if unquoted s && (bool_decide (previous s = Some 47%N) && (ch =? 42)%N)
      then ((push_char ch (set_comments false true s), []), l1)
      else if unquoted s && ((ch =? 45)%N && bool_decide (next = Some 45%N))
      then ((push_char ch (set_comments true false s), []), l1)
      else if unquoted s && (supports_hash_line_comments p && (ch =? 35)%N)
      then ((push_char ch (set_comments true false s), []), l1)
      else if unquoted s && ((ch =? 47)%N && bool_decide (next = Some 42%N))
      then ((push_char ch (set_comments false true s), []), l1)
      else
        match (if unquoted s && supports_dollar_quoted_strings p then dollar_quote_tag_at (ch :: l1) else None) with
        | Some tag =>
            if match custom_delimiter s with None => true | Some _ => false end && negb (on_delimiter_line (buffer s))
            then
              let s := if supports_postgres_dollar_quoted_routines p
                          && starts_with_postgres_dollar_quoted_routine_prefix (buffer s)
                       then set_routine true s else s in
              ((set_tag (Some tag) (foldl (λ s x, push_char x s) s tag), []), drop (List.length tag) (ch :: l1))
            else (plain_step ch s, l1)
        | None => (plain_step ch s, l1)
        end
  end.

(** Each turn reads at least one character, so the length is enough fuel. *)
Fixpoint push_loop (fuel : nat) (s : SqlStatementSplitter) (l : text) (statements : list text)
    : SqlStatementSplitter * list text :=
  match fuel, l with
  | S n, ch :: l1 => let '((s', out), rest) := push_step s ch l1 in push_loop n s' rest (statements ++ out)
  | _, _ => (s, statements)
  end.
Definition push_chunk (s : SqlStatementSplitter) (chunk : text) : SqlStatementSplitter * list text :=
  push_loop (List.length chunk) s chunk [].

(** [trimmed.rsplit_once('\n')]: what comes before the last newline, if any. *)
Definition rsplit_before (l : text) : text := removelast (before_last_line l).

Definition finish (s : SqlStatementSplitter) : list text :=
  let p := profile s in
  let trimmed := trim_t (buffer s) in
  let line := trim_t (last_line trimmed) in
  let before := trim_t (rsplit_before trimmed) in
  let '(s', out) :=
    if supports_custom_delimiter_commands p
       && match parse_delimiter_command line with Some _ => true | None => false end
    then (set_buffer [] s, emit before p)
    else if supports_slash_line_block_delimiter p && text_eqb line (c "/") then (set_buffer [] s, emit before p)
    else match custom_delimiter s with
         | Some delim =>
             if ends_with_t (buffer s) delim
             then (set_buffer (take (List.length (buffer s) - List.length delim) (buffer s)) s, []) else (s, [])
         | None => (s, [])
         end in
  out ++ (push_current_statement s').2.

Definition split_sql_statements_with_options (sql : text) (p : SqlDialectProfile) : list text :=
  let '(s, statements) := push_chunk (with_options p) sql in statements ++ finish s.
Definition split_sql_statements (sql : text) : list text :=
  split_sql_statements_with_options sql SqlDialectProfile_default.
Definition split_sql_statements_for_database (sql : text) (d : DatabaseType) : list text :=
  split_sql_statements_with_options sql (for_database_type d).
End Splitter.

(** ** SQL Server batches *)

Record SqlScanner := mk_scanner {
  sc_single : bool;
  sc_double : bool;
  sc_backtick : bool;
  sc_line : bool;
  sc_block : bool;
  sc_tag : option text;
  sc_previous : option N
}.

Definition SqlScanner_new : SqlScanner := mk_scanner false false false false false None None.

(** Up to the next dollar sign; the name between must be a word. *)
Definition dollar_quote_tag_at_str (l : text) : option text :=
  match l with
  | 36%N :: r =>
      let '(name, r') := span_t (λ x, negb (x =? 36)%N) r in
      match r' with
      | [] => None
      | _ => if forallb is_word_char name then Some (36%N :: name ++ [36%N]) else None
      end
  | _ => None
  end.

(** [l] starts at the character [ch] that the scanner reads. *)
Definition scanner_step (p : SqlDialectProfile) (s : SqlScanner) (l : text) : SqlScanner :=
  match l with
  | [] => s
  | ch :: l1 =>
      let next := head l1 in
      let remember (sq dq bt line block : bool) (tag : option text) := mk_scanner sq dq bt line block tag (Some ch) in
      let '(sq, dq, bt) := (sc_single s, sc_double s, sc_backtick s) in
      match sc_tag s with
      | Some tag => remember sq dq bt (sc_line s) (sc_block s) (if starts_with_t l tag then None else Some tag)
      | None =>
          if sc_line s then remember sq dq bt (negb (ch =? 10)%N) (sc_block s) None
          else if sc_block s
          then remember sq dq bt false (negb (bool_decide (sc_previous s = Some 42%N) && (ch =? 47)%N)) None
          else
            let open := negb sq && negb dq && negb bt in
            let line := open && ((ch =? 45)%N && bool_decide (next = Some 45%N)
                                 || supports_hash_line_comments p && (ch =? 35)%N) in
            let block := open && negb line && ((ch =? 47)%N && bool_decide (next = Some 42%N)) in
            let tag := if open && negb line && negb block && supports_dollar_quoted_strings p
                       then dollar_quote_tag_at_str l else None in
            let escaped := bool_decide (sc_previous s = Some 92%N) in
            if (ch =? SQ)%N && negb dq && negb bt && negb escaped then remember (negb sq) dq bt line block tag
            else if (ch =? DQ)%N && negb sq && negb bt && negb escaped then remember sq (negb dq) bt line block tag
            else if (ch =? BT)%N && negb sq && negb dq then remember sq dq (negb bt) line block tag
            else remember sq dq bt line block tag
      end
  end.

Definition is_masked (s : SqlScanner) : bool :=
  sc_single s || sc_double s || sc_backtick s || sc_line s || sc_block s
  || match sc_tag s with Some _ => true | None => false end.

(** The scanner reads the first [n] characters of [l]. *)
Fixpoint scan (p : SqlDialectProfile) (n : nat) (s : SqlScanner) (l : text) : SqlScanner :=
  match n, l with
  | S n', _ :: l1 => scan p n' (scanner_step p s l) l1
  | _, _ => s
  end.

Definition is_go_line (line : text) : bool :=
  let trimmed := trim_t line in
  text_eq_ignore_ascii_case trimmed (c "go")
  || starts_with_t (to_ascii_lowercase_c <$> trimmed) (c "go ") && text_eqb (trim_t (drop 2 trimmed)) [].

Definition batch (current : text) : list text :=
  match executable_sql_bounds current SqlDialectProfile_default with Some t => [t] | None => [] end.

(** The lines of [l]; [current] is the batch under way. One more turn than lines
    is enough fuel. *)
Fixpoint batch_loop (fuel : nat) (p : SqlDialectProfile) (l current : text) (s : SqlScanner) (batches : list text)
    : list text :=
  match fuel with
  | 0 => batches
  | S n =>
      let '(line, after) := span_t (λ x, negb (x =? 10)%N) l in
      let separator := supports_go_batch_separator p && negb (is_masked s) && is_go_line line in
      let s1 := if separator then s else scan p (List.length line) s l in
      let batches1 := if separator then batches ++ batch current else batches in
      match after with
      | nl :: l' =>
          batch_loop n p l' (if separator then [] else current ++ line ++ [nl]) (scanner_step p s1 after) batches1
      | [] => batches1 ++ batch (if separator then [] else current ++ line)
      end
  end.
Definition split_sql_batch_ranges (sql : text) (p : SqlDialectProfile) : list text :=
  batch_loop (S (List.length sql)) p sql [] SqlScanner_new [].

Definition split_sql_batches (sql : text) : list text :=
  match split_sql_batch_ranges sql sql_server with
  | [] => match trim_t sql with [] => [] | trimmed => [trimmed] end
  | batches => batches
  end.

(** ** What skipping leaves *)

Lemma skip_to_newline_suffix l : skip_to_newline l `suffix_of` l.
Proof. induction l as [|x l IH]; [done|]. simpl. destruct (_ =? _)%N; [done|]. by apply suffix_cons_r. Qed.

Lemma after_block_comment_suffix l r : after_block_comment l = Some r → r `suffix_of` l.
Proof.
  induction l as [|x l IH]; [done|]. cbn [after_block_comment]. destruct l as [|y l2]; [done|].
  destruct (_ && _); [intros [= <-]; by do 2 apply suffix_cons_r|]. intros H%IH. by apply suffix_cons_r.
Qed.

Lemma drop_while_suffix (f : N → bool) l : drop_while f l `suffix_of` l.
Proof. induction l as [|x l IH]; [done|]. simpl. destruct (f x); [by apply suffix_cons_r|done]. Qed.

Lemma leading_loop_suffix fuel hash l : leading_loop fuel hash l `suffix_of` l.
Proof.
  revert l. induction fuel as [|fuel IH]; intros l; cbn [leading_loop]; [apply drop_while_suffix|].
  etrans; [|apply (drop_while_suffix is_ascii_whitespace)]. destruct (drop_while is_ascii_whitespace l) as [|x r]; [done|].
  assert (Hsub : ∀ a : text, a `suffix_of` r → leading_loop fuel hash a `suffix_of` x :: r)
    by (intros a Ha; etrans; [apply IH|]; by apply suffix_cons_r).
  repeat (case_match; try done); simplify_eq; try apply suffix_nil;
    first [apply Hsub; done | apply Hsub, skip_to_newline_suffix
          | apply Hsub; etrans; [apply skip_to_newline_suffix|by apply suffix_cons_r]
          | apply Hsub; etrans; [by eapply after_block_comment_suffix|by apply suffix_cons_r]].
Qed.

(** ** Scripts of plain statements *)

(** A statement cut into characters, quoted texts and comments, as a database
    without special rules reads it. *)
Inductive Piece : Type :=
| Char (x : N)
| Quoted (q : N) (body : text)
| LineComment (body : text)
| BlockComment (body : text).

Definition spell_piece (p : Piece) : text :=
  match p with
  | Char x => [x]
  | Quoted q b => q :: b ++ [q]
  | LineComment b => 45%N :: 45%N :: b ++ [10%N]
  | BlockComment b => 47%N :: 42%N :: b ++ [42%N; 47%N]
  end.
Definition spell (ps : list Piece) : text := ps ≫= spell_piece.

(** No end of a block comment. *)
Fixpoint open_comment (l : text) : bool :=
  match l with
  | x :: l1 => negb (match l1 with y :: _ => (x =? 42)%N && (y =? 47)%N | [] => false end) && open_comment l1
  | [] => true
  end.

(** The character [x] between [pre] and [post] is no quote and no semicolon, takes
    part in no comment or dollar tag, and ends no DELIMITER line. *)
Definition plain_char (pre : text) (x : N) (post : text) : bool :=
  bool_decide (x ∉ [SQ; DQ; BT; 59%N])
  && negb ((x =? 45)%N && (bool_decide (last pre = Some 45%N) || bool_decide (head post = Some 45%N)))
  && negb ((x =? 42)%N && bool_decide (last pre = Some 47%N))
  && negb ((x =? 47)%N && bool_decide (head post = Some 42%N))
  && bool_decide (dollar_quote_tag_at (x :: post) = None)
  && (negb (x =? 10)%N || bool_decide (parse_delimiter_command (trim_t (last_line pre)) = None)).

(** [ps] after [pre] and before [post]. Inside quotes there is neither the quote
    nor a backslash, and none stands before them. *)
Fixpoint well_cut (pre : text) (ps : list Piece) (post : text) : bool :=
  match ps with
  | [] => true
  | p :: ps' =>
      match p with
      | Char x => plain_char pre x (spell ps' ++ post)
      | Quoted q b => bool_decide (q ∈ [SQ; DQ; BT]) && bool_decide (last pre ≠ Some 92%N)
                      && bool_decide (q ∉ b) && bool_decide ((92%N : N) ∉ b)
      | LineComment b => bool_decide ((10%N : N) ∉ b)
      | BlockComment b => open_comment (42%N :: b)
      end && well_cut (pre ++ spell_piece p) ps' post
  end.

(** The statement [ps], to be followed by its semicolon. *)
Definition plain_statement (ps : list Piece) : bool :=
  well_cut [] ps [59%N] && negb (on_delimiter_line (spell ps)).

Section SplitLemmas.
Context `{HT : SqlTokenizer}.

(** The splitter between two pieces of a statement, and within one. *)
Definition between (b : text) (pv : option N) : SqlStatementSplitter :=
  mk_splitter b false false false false false None false pv None SqlDialectProfile_default.
Definition in_line (b : text) (pv : option N) : SqlStatementSplitter :=
  mk_splitter b false false false true false None false pv None SqlDialectProfile_default.
Definition in_block (b : text) (pv : option N) : SqlStatementSplitter :=
  mk_splitter b false false false false true None false pv None SqlDialectProfile_default.
Definition in_quotes (q : N) (b : text) (pv : option N) : SqlStatementSplitter :=
  mk_splitter b (q =? SQ)%N (q =? DQ)%N (q =? BT)%N false false None false pv None SqlDialectProfile_default.

(** [pv] agrees with the buffer: after a statement it is its delimiter. *)
Definition agrees (b : text) (pv : option N) : Prop :=
  match last b with Some x => pv = Some x | None => pv = None ∨ pv = Some 59%N end.

Lemma agrees_snoc b x : agrees (b ++ [x]) (Some x).
Proof. unfold agrees. by rewrite last_snoc. Qed.

Lemma push_loop_step n s ch l1 out s' o r : push_step s ch l1 = ((s', o), r) →
  push_loop (S n) s (ch :: l1) out = push_loop n s' r (out ++ o).
Proof. cbn [push_loop]. by intros ->. Qed.

(** [s] reads [l] and becomes [s'], whatever comes next and with the fuel for it. *)
Definition reads (s : SqlStatementSplitter) (l post : text) (s' : SqlStatementSplitter) (o : list text) : Prop :=
  ∀ n out, List.length (l ++ post) ≤ n → ∃ n', List.length post ≤ n' ∧
    push_loop n s (l ++ post) out = push_loop n' s' post (out ++ o).

Lemma reads_nil s post : reads s [] post s [].
Proof. intros n out Hn. exists n. by rewrite app_nil_r. Qed.

Lemma reads_app s l1 l2 post s1 s2 o1 o2 :
  reads s l1 (l2 ++ post) s1 o1 → reads s1 l2 post s2 o2 → reads s (l1 ++ l2) post s2 (o1 ++ o2).
Proof.
  intros H1 H2 n out Hn. rewrite <-app_assoc in Hn |- *. destruct (H1 n out Hn) as (n1 & Hn1 & ->).
  destruct (H2 n1 (out ++ o1) Hn1) as (n2 & Hn2 & ->). exists n2. by rewrite app_assoc.
Qed.

Lemma reads_one s ch post s' o : push_step s ch post = ((s', o), post) → reads s [ch] post s' o.
Proof.
  intros Hs n out Hn. destruct n as [|n]; [simpl in Hn; lia|]. exists n. split; [simpl in Hn; lia|].
  by apply push_loop_step.
Qed.

Lemma reads_char s ch l post s1 s2 o : push_step s ch (l ++ post) = ((s1, []), l ++ post) →
  reads s1 l post s2 o → reads s (ch :: l) post s2 o.
Proof.
  intros Hs H2. pose proof (reads_app s [ch] l post s1 s2 [] o (reads_one _ _ _ _ _ Hs) H2) as Hr. exact Hr.
Qed.

Lemma step_in_line b pv ch l : push_step (in_line b pv) ch l =
  ((if (ch =? 10)%N then between (b ++ [ch]) (Some ch) else in_line (b ++ [ch]) (Some ch), []), l).
Proof. unfold push_step. cbn. by destruct (ch =? 10)%N. Qed.

Lemma step_in_block b pv ch l : push_step (in_block b pv) ch l =
  ((if bool_decide (pv = Some 42%N) && (ch =? 47)%N then between (b ++ [ch]) (Some ch)
    else in_block (b ++ [ch]) (Some ch), []), l).
Proof. unfold push_step. cbn. by destruct (bool_decide _ && _). Qed.

Lemma no_odd_backslashes b : last b ≠ Some 92%N → has_odd_trailing_backslashes b = false.
Proof.
  unfold has_odd_trailing_backslashes. destruct b as [|x b _] using rev_ind; [done|]. rewrite last_snoc, rev_app_distr.
  intros Hx. cbn [rev app span_t]. destruct (N.eqb_spec 92 x) as [<-|]; [done|done].
Qed.

Lemma step_in_quotes q b pv ch l : q ∈ [SQ; DQ; BT] → last b ≠ Some 92%N →
  push_step (in_quotes q b pv) ch l =
  ((if (ch =? q)%N then between (b ++ [ch]) (Some ch) else in_quotes q (b ++ [ch]) (Some ch), []), l).
Proof.
  intros Hq Hb. pose proof (no_odd_backslashes b Hb) as Ho.
  rewrite !elem_of_cons in Hq. destruct Hq as [->|[->|[->|Hn]]]; [| | |by inversion Hn];
    unfold push_step, plain_step, push_plain, in_quotes; cbn -[N.eqb has_odd_trailing_backslashes];
    rewrite ?andb_false_r; cbn -[N.eqb has_odd_trailing_backslashes]; rewrite ?Ho;
    repeat match goal with |- context [(ch =? ?k)%N] => destruct (N.eqb_spec ch k); simplify_eq end; reflexivity.
Qed.

Lemma line_body_reads body post : (10%N : N) ∉ body → ∀ b pv,
  reads (in_line b pv) (body ++ [10%N]) post (between (b ++ body ++ [10%N]) (Some 10%N)) [].
Proof.
  induction body as [|x body IH]; intros Hb b pv.
  - apply reads_one. by rewrite step_in_line.
  - apply not_elem_of_cons in Hb as [Hx Hb]. apply (reads_char _ _ _ _ (in_line (b ++ [x]) (Some x))).
    + rewrite step_in_line. by assert ((x =? 10)%N = false) as -> by (apply N.eqb_neq; congruence).
    + specialize (IH Hb (b ++ [x]) (Some x)). by rewrite <-app_assoc in IH.
Qed.

Lemma line_comment_reads b pv body post : (10%N : N) ∉ body → reads (between b pv) (spell_piece (LineComment body)) post
  (between (b ++ spell_piece (LineComment body)) (Some 10%N)) [].
Proof.
  intros Hb. cbn [spell_piece]. apply (reads_char _ _ _ _ (in_line (b ++ [45%N]) (Some 45%N))).
  { unfold push_step. cbn. by destruct (bool_decide (pv = Some 45%N)), (bool_decide (pv = Some 47%N)). }
  apply (reads_char _ _ _ _ (in_line (b ++ [45%N; 45%N]) (Some 45%N))).
  { rewrite step_in_line. cbn. by rewrite <-app_assoc. }
  replace (b ++ 45%N :: 45%N :: body ++ [10%N]) with ((b ++ [45%N; 45%N]) ++ body ++ [10%N]) by (by rewrite <-app_assoc).
  by apply line_body_reads.
Qed.

Lemma block_body_reads body post : ∀ y b, open_comment (y :: body) = true →
  reads (in_block b (Some y)) (body ++ [42%N; 47%N]) post (between (b ++ body ++ [42%N; 47%N]) (Some 47%N)) [].
Proof.
  induction body as [|x body IH]; intros y b Hb.
  - apply (reads_char _ _ _ _ (in_block (b ++ [42%N]) (Some 42%N))).
    + rewrite step_in_block. by rewrite andb_false_r.
    + apply reads_one. rewrite step_in_block. cbn. by rewrite <-app_assoc.
  - cbn [open_comment] in Hb. apply andb_true_iff in Hb as [Hx%negb_true_iff Hb].
    apply (reads_char _ _ _ _ (in_block (b ++ [x]) (Some x))).
    + rewrite step_in_block. destruct (bool_decide_reflect (Some y = Some 42%N)) as [[= ->]|]; [|done].
      rewrite N.eqb_refl in Hx. cbn [andb] in *. by rewrite Hx.
    + specialize (IH x (b ++ [x]) Hb). by rewrite <-app_assoc in IH.
Qed.

Lemma block_comment_reads b pv body post : open_comment (42%N :: body) = true →
  reads (between b pv) (spell_piece (BlockComment body)) post
    (between (b ++ spell_piece (BlockComment body)) (Some 47%N)) [].
Proof.
  intros Hb. cbn [spell_piece]. apply (reads_char _ _ _ _ (in_block (b ++ [47%N]) (Some 47%N))).
  { unfold push_step. cbn. by destruct (bool_decide (pv = Some 45%N)), (bool_decide (pv = Some 47%N)). }
  apply (reads_char _ _ _ _ (in_block (b ++ [47%N; 42%N]) (Some 42%N))).
  { rewrite step_in_block. cbn. by rewrite <-app_assoc. }
  replace (b ++ 47%N :: 42%N :: body ++ [42%N; 47%N]) with ((b ++ [47%N; 42%N]) ++ body ++ [42%N; 47%N])
    by (by rewrite <-app_assoc).
  by apply block_body_reads.
Qed.

Lemma quoted_body_reads q body post : q ∈ [SQ; DQ; BT] → q ∉ body → (92%N : N) ∉ body → ∀ b pv, last b ≠ Some 92%N →
  reads (in_quotes q b pv) (body ++ [q]) post (between (b ++ body ++ [q]) (Some q)) [].
Proof.
  intros Hq. induction body as [|x body IH]; intros Hqb Hbs b pv Hb.
  - apply reads_one. rewrite step_in_quotes by done. by rewrite N.eqb_refl.
  - apply not_elem_of_cons in Hqb as [Hx Hqb], Hbs as [Hx2 Hbs].
    apply (reads_char _ _ _ _ (in_quotes q (b ++ [x]) (Some x))).
    + rewrite step_in_quotes by done. by assert ((x =? q)%N = false) as -> by (apply N.eqb_neq; congruence).
    + specialize (IH Hqb Hbs (b ++ [x]) (Some x)). rewrite <-app_assoc in IH. apply IH. rewrite last_snoc. congruence.
Qed.

Lemma quoted_reads q b pv body post : q ∈ [SQ; DQ; BT] → last b ≠ Some 92%N → q ∉ body → (92%N : N) ∉ body →
  reads (between b pv) (spell_piece (Quoted q body)) post (between (b ++ spell_piece (Quoted q body)) (Some q)) [].
Proof.
  intros Hq Hb Hqb Hbs. cbn [spell_piece]. apply (reads_char _ _ _ _ (in_quotes q (b ++ [q]) (Some q))).
  { pose proof (no_odd_backslashes b Hb) as Ho. rewrite !elem_of_cons in Hq.
    destruct Hq as [->|[->|[->|Hn]]]; [| | |by inversion Hn];
      unfold push_step, plain_step, push_plain; cbn -[has_odd_trailing_backslashes];
      rewrite ?andb_false_r; cbn -[has_odd_trailing_backslashes]; by rewrite ?Ho. }
  replace (b ++ q :: body ++ [q]) with ((b ++ [q]) ++ body ++ [q]) by (by rewrite <-app_assoc).
  assert (last (b ++ [q]) ≠ Some 92%N) as Hlast.
  { rewrite last_snoc. intros [= ->]. rewrite !elem_of_cons in Hq. destruct Hq as [?|[?|[?|Hn]]]; [done..|by inversion Hn]. }
  by apply quoted_body_reads.
Qed.

Lemma plain_char_reads b pv x post : agrees b pv → plain_char b x post = true →
  reads (between b pv) [x] post (between (b ++ [x]) (Some x)) [].
Proof.
  unfold plain_char, agrees. rewrite !andb_true_iff, !negb_true_iff, orb_true_iff, negb_true_iff.
  intros Hpv [[[[[Hx Hd] Hs] Hc] Ht] Hn]. apply bool_decide_eq_true in Hx, Ht.
  assert (bool_decide (pv = Some 45%N) && (x =? 45)%N = false ∧ bool_decide (pv = Some 47%N) && (x =? 42)%N = false
    ∧ (x =? 45)%N && bool_decide (head post = Some 45%N) = false) as (H1 & H2 & H3).
  { destruct (x =? 45)%N, (x =? 42)%N; cbn [andb] in *; rewrite ?andb_true_r, ?andb_false_r in *;
      try apply orb_false_iff in Hd as [Hd1 Hd2]; repeat split; try done; destruct (last b); subst; try done;
      destruct Hpv as [->| ->]; done. }
  apply reads_one. unfold push_step. cbn [dollar_quote_tag in_line_comment in_block_comment between]. 
  change (unquoted (between b pv)) with true. cbn [andb previous between].
  rewrite H1, H2, H3, Hc. cbn [profile between supports_hash_line_comments SqlDialectProfile_default andb].
  cbn [supports_dollar_quoted_strings]. rewrite Ht.
  rewrite !not_elem_of_cons in Hx. destruct Hx as (Q1 & Q2 & Q3 & Q4 & _).
  apply N.eqb_neq in Q1, Q2, Q3, Q4. unfold plain_step, push_plain. rewrite Q1, Q2, Q3, Q4. cbn [andb].
  change (unquoted (push x (between b pv))) with true. cbn [negb].
  assert ((if (x =? 10)%N then end_of_line (push x (between b pv)) else None) = None) as ->; [|reflexivity].
  destruct (x =? 10)%N; [|done]. destruct Hn as [Hn|Hn%bool_decide_eq_true]; [done|].
  unfold end_of_line. cbn [buffer push set_buffer between profile]. rewrite removelast_last.
  cbn [supports_slash_line_block_delimiter supports_custom_delimiter_commands SqlDialectProfile_default andb].
  by rewrite Hn.
Qed.

Lemma pieces_read ps : ∀ b pv post, agrees b pv → well_cut b ps post = true →
  ∃ pv', agrees (b ++ spell ps) pv' ∧ reads (between b pv) (spell ps) post (between (b ++ spell ps) pv') [].
Proof.
  induction ps as [|p ps IH]; intros b pv post Hag Hw.
  { exists pv. unfold spell. cbn. rewrite app_nil_r. split; [done|apply reads_nil]. }
  cbn [well_cut] in Hw. apply andb_true_iff in Hw as [Hp Hw].
  assert (∃ x, agrees (b ++ spell_piece p) (Some x) ∧
    reads (between b pv) (spell_piece p) (spell ps ++ post) (between (b ++ spell_piece p) (Some x)) []) as (x & Hag' & Hr).
  { destruct p as [x|q body|body|body].
    - exists x. split; [apply agrees_snoc|]. by apply plain_char_reads.
    - rewrite !andb_true_iff, !bool_decide_eq_true in Hp. destruct Hp as [[[Hq Hb] Hqb] Hbs].
      exists q. split; [|by apply quoted_reads]. cbn [spell_piece].
      replace (b ++ q :: body ++ [q]) with ((b ++ q :: body) ++ [q]) by (by rewrite <-app_assoc). apply agrees_snoc.
    - exists 10%N. split; [|apply line_comment_reads; by apply bool_decide_eq_true in Hp]. cbn [spell_piece].
      replace (b ++ 45%N :: 45%N :: body ++ [10%N]) with ((b ++ 45%N :: 45%N :: body) ++ [10%N]) by (by rewrite <-app_assoc).
      apply agrees_snoc.
    - exists 47%N. split; [|by apply block_comment_reads]. cbn [spell_piece].
      replace (b ++ 47%N :: 42%N :: body ++ [42%N; 47%N]) with ((b ++ 47%N :: 42%N :: body ++ [42%N]) ++ [47%N]).
      + apply agrees_snoc.
      + rewrite <-app_assoc. cbn. by rewrite <-app_assoc. }
  destruct (IH _ _ post Hag' Hw) as (pv' & Hag2 & Hr2). exists pv'. unfold spell in *. cbn [mbind list_bind].
  rewrite app_assoc. split; [done|]. exact (reads_app _ _ _ _ _ _ [] [] Hr Hr2).
Qed.

(** The semicolon after a statement. *)
Lemma semicolon_reads b pv post : on_delimiter_line b = false → agrees b pv →
  reads (between b pv) [59%N] post (between [] (Some 59%N)) (emit (trim_t b) SqlDialectProfile_default).
Proof.
  intros Hd _. apply reads_one. unfold push_step. cbn -[emit trim_t on_delimiter_line].
  rewrite !andb_false_r. unfold plain_step, push_plain. cbn -[emit trim_t on_delimiter_line].
  unfold push_semicolon. cbn -[emit trim_t on_delimiter_line]. rewrite Hd.
  cbn -[emit trim_t]. by rewrite app_nil_r.
Qed.

(** After the semicolon, what follows does not matter. *)
Lemma dollar_tag_end_tail l r : ∀ acc, dollar_tag_end (l ++ 59%N :: r) acc = dollar_tag_end (l ++ [59%N]) acc.
Proof.
  induction l as [|z l IH]; intros acc; cbn [app dollar_tag_end]; [done|].
  destruct (z =? 36)%N; [done|]. destruct (is_word_char z); [apply IH|done].
Qed.

Lemma dollar_quote_tag_tail x l r : dollar_quote_tag_at (x :: l ++ 59%N :: r) = dollar_quote_tag_at (x :: l ++ [59%N]).
Proof.
  unfold dollar_quote_tag_at. destruct (N.eq_dec x 36) as [->|Hx]; [|by repeat case_match; simplify_eq].
  destruct l as [|y l]; [done|]. cbn [app]. by rewrite dollar_tag_end_tail.
Qed.

Lemma plain_char_tail pre x l r : plain_char pre x (l ++ 59%N :: r) = plain_char pre x (l ++ [59%N]).
Proof. unfold plain_char. rewrite dollar_quote_tag_tail. by destruct l. Qed.

Lemma well_cut_tail ps r : ∀ pre, well_cut pre ps [59%N] = true → well_cut pre ps (59%N :: r) = true.
Proof.
  induction ps as [|p ps IH]; intros pre; [done|]. cbn [well_cut]. rewrite !andb_true_iff. intros [Hp Hw].
  split; [|by apply IH]. destruct p as [x|q b|b|b]; [|done..]. by rewrite plain_char_tail.
Qed.

Lemma statements_read sts : ∀ pv, (pv = None ∨ pv = Some 59%N) → Forall (λ ps, plain_statement ps = true) sts →
  ∃ pv', (pv' = None ∨ pv' = Some 59%N) ∧
  reads (between [] pv) (sts ≫= λ ps, spell ps ++ [59%N]) [] (between [] pv')
    (sts ≫= λ ps, emit (trim_t (spell ps)) SqlDialectProfile_default).
Proof.
  induction sts as [|ps sts IH]; intros pv Hpv Hs; [exists pv; split; [done|apply reads_nil]|].
  apply Forall_cons in Hs as [Hp Hs]. apply andb_true_iff in Hp as [Hw Hd%negb_true_iff].
  destruct (IH (Some 59%N) (or_intror eq_refl) Hs) as (pv' & Hpv' & Hr). exists pv'. split; [done|].
  cbn [mbind list_bind]. eapply reads_app; [|exact Hr]. clear IH Hr. rewrite app_nil_r.
  assert (well_cut [] ps (59%N :: (sts ≫= λ ps, spell ps ++ [59%N])) = true) as Hw'.
  { by apply well_cut_tail. }
  assert (agrees [] pv) as Hag by done. destruct (pieces_read ps [] pv _ Hag Hw') as (pv1 & Hag1 & Hr1).
  exact (reads_app _ (spell ps) [59%N] _ _ _ [] _ Hr1 (semicolon_reads _ _ _ Hd Hag1)).
Qed.
End SplitLemmas.

(** C34: The splitter cuts exactly at the statements' own semicolons: a script of
    statements that are cut into plain characters, quoted texts and comments,
    each ended by a semicolon, comes back as those statements in order, trimmed,
    without the ones that hold nothing to execute. A semicolon, dash or slash
    inside quotes or a comment splits nothing. This holds for every database
    without special rules (the default profile, PostgreSQL and SQLite included). *)
Theorem split_statements_exact `{SqlTokenizer} d sts
    (Hd : for_database_type d = SqlDialectProfile_default) (Hs : Forall (λ ps, plain_statement ps = true) sts) :
  split_sql_statements_for_database (sts ≫= λ ps, spell ps ++ [59%N]) d
  = sts ≫= λ ps, emit (trim_t (spell ps)) SqlDialectProfile_default.
Proof.
  unfold split_sql_statements_for_database, split_sql_statements_with_options, push_chunk. rewrite Hd.
  destruct (statements_read sts None (or_introl eq_refl) Hs) as (pv' & _ & Hr). set (script := sts ≫= _) in *.
  destruct (Hr (List.length script) []) as (n' & _ & Hrun); [by rewrite app_nil_r|]. rewrite app_nil_r in Hrun.
  change (with_options SqlDialectProfile_default) with (between [] None). rewrite Hrun.
  assert (∀ s out, push_loop n' s [] out = (s, out)) as -> by (by intros; destruct n').
  cbn [app]. change (finish (between [] pv')) with (@nil text). apply app_nil_r.
Qed.

(** ** Witness *)

(** [SELECT ';' /* ; */ ;] and [-- a;b] before [DELETE]. *)
Definition script_demo : list (list Piece) :=
  [(Char <$> c "SELECT ") ++ [Quoted SQ (c ";"); BlockComment (c " ; ")];
   LineComment (c " a;b") :: (Char <$> c "DELETE FROM t"); [Char 32]].

Lemma split_statements_exact_witness :
  @split_sql_statements_for_database {| tokenize _ _ := None |} (script_demo ≫= λ ps, spell ps ++ [59%N]) Postgres
  = [c "SELECT ';'/* ; */"; c "-- a;b" ++ [10%N] ++ c "DELETE FROM t"].
Proof.
  etrans; [apply (@split_statements_exact {| tokenize _ _ := None |} Postgres script_demo)|vm_compute; reflexivity].
  - vm_compute. reflexivity.
  - repeat constructor; vm_compute; reflexivity.
Defined.
