(* ===== verification/SqlGuard.v ===== *)
(** * The read-only guard (query_execution_sql.rs)

    Which SQL is safe to explain, and which is a write: comment and literal
    stripping, the keyword tests on what is left, the search-engine requests and
    the per-dialect rules. Texts are lists of Unicode scalar values, as the code
    walks [chars()]; the byte tests of the code only ask for ASCII letters, which
    are the same bytes and characters. *)
From S2P Require Import Prelude RustStr SqlText SqlSplit.

(** ** Comments and literals *)

Inductive Mode : Type := Code | LineComment | BlockComment | Quoted (q : N).

(** [is_mysql_executable_comment_start]: [!] or [M!] comes next. *)
Definition is_mysql_executable_comment_start (l : text) : bool :=
  match l with
  | 33%N :: _ => true
  | 77%N :: 33%N :: _ => true
  | _ => false
  end.

(** The loop of [strip_sql_comments_and_literals_with_metadata]. *)
Fixpoint strip_meta (detect : bool) (m : Mode) (l : text) : text * bool :=
  match l with
  | [] => ([], false)
  | x :: l1 =>
      let emit (y : N) (r : text * bool) := (y :: r.1, r.2) in
      match m with
      | LineComment => if (x =? 10)%N then emit 32%N (strip_meta detect Code l1) else strip_meta detect LineComment l1
      | BlockComment =>
          match l1 with
          | y :: l2 => if (x =? 42)%N && (y =? 47)%N then emit 32%N (strip_meta detect Code l2)
                       else strip_meta detect BlockComment l1
          | [] => strip_meta detect BlockComment l1
          end
      | Quoted q =>
          if (x =? q)%N then
            match l1 with
            | y :: l2 => if (y =? q)%N then emit 32%N (strip_meta detect (Quoted q) l2)
                         else emit 32%N (strip_meta detect Code l1)
            | [] => emit 32%N (strip_meta detect Code l1)
            end
          else emit 32%N (strip_meta detect (Quoted q) l1)
      | Code =>
          let plain :=
            if (x =? 35)%N then strip_meta detect LineComment l1
            else if (x =? SQ)%N then emit 32%N (strip_meta detect (Quoted SQ) l1)
            else if (x =? DQ)%N then emit 32%N (strip_meta detect (Quoted DQ) l1)
            else if (x =? BT)%N then emit 32%N (strip_meta detect (Quoted BT) l1)
            else emit x (strip_meta detect Code l1) in
          match l1 with
          | y :: l2 =>
              if (x =? 45)%N && (y =? 45)%N then strip_meta detect LineComment l2
              else if (x =? 47)%N && (y =? 42)%N then
                let r := strip_meta detect BlockComment l2 in
                (r.1, detect && is_mysql_executable_comment_start l2 || r.2)
              else plain
          | [] => plain
          end
      end
  end.

Definition strip_sql_comments_and_literals_with_metadata (sql : text) (detect : bool) : text * bool :=
  strip_meta detect Code sql.
Definition strip_sql_comments_and_literals (sql : text) : text :=
  (strip_sql_comments_and_literals_with_metadata sql false).1.

(** [read_mysql_executable_comment_body]: the body, if it is one, and what the
    iterator has left. *)
Fixpoint read_body (skipping : bool) (l body : text) : text * text :=
  match l with
  | [] => (body, [])
  | x :: l1 =>
      let next :=
        if skipping && (is_ascii_digit x || is_whitespace x) then read_body skipping l1 body
        else read_body false l1 (body ++ [x]) in
      match l1 with
      | y :: l2 => if (x =? 42)%N && (y =? 47)%N then (body, l2) else next
      | [] => next
      end
  end.

Definition read_mysql_executable_comment_body (l : text) : option text * text :=
  match l with
  | 33%N :: l1 => let '(b, r) := read_body true l1 [] in (Some b, r)
  | 77%N :: 33%N :: l2 => let '(b, r) := read_body true l2 [] in (Some b, r)
  | 77%N :: l1 => (None, l1)
  | _ => (None, l)
  end.

(** [strip_sql_comments]; the body of an executable comment is stripped in turn.
    Both recursive calls are on shorter texts, so the length is enough fuel. *)
Fixpoint strip_comments (fuel : nat) (m : Mode) (l : text) : text :=
  match fuel, l with
  | S n, x :: l1 =>
      match m with
      | LineComment => if (x =? 10)%N then 32%N :: strip_comments n Code l1 else strip_comments n LineComment l1
      | BlockComment =>
          match l1 with
          | y :: l2 => if (x =? 42)%N && (y =? 47)%N then 32%N :: strip_comments n Code l2
                       else strip_comments n BlockComment l1
          | [] => []
          end
      | _ =>
          let plain := if (x =? 35)%N then strip_comments n LineComment l1 else x :: strip_comments n Code l1 in
          match l1 with
          | y :: l2 =>
              if (x =? 45)%N && (y =? 45)%N then strip_comments n LineComment l2
              else if (x =? 47)%N && (y =? 42)%N then
                match read_mysql_executable_comment_body l2 with
                | (Some body, r) => 32%N :: strip_comments n Code body ++ 32%N :: strip_comments n Code r
                | (None, r) => strip_comments n BlockComment r
                end
              else plain
          | [] => plain
          end
      end
  | _, _ => []
  end.

Definition strip_sql_comments (sql : text) : text := strip_comments (List.length sql) Code sql.

(** ** Keyword tests *)

Definition is_identifier_byte (b : option N) : bool := match b with Some x => is_word_char x | None => false end.

(** [contains_word], from the position after [before]. *)
Fixpoint contains_word_from (before : option N) (source word : text) : bool :=
  match strip_prefix_t source word with
  | Some after => negb (is_identifier_byte before) && negb (is_identifier_byte (head after))
  | None => false
  end ||
  match source with
  | [] => false
  | x :: source' => contains_word_from (Some x) source' word
  end.

Definition contains_word (source word : text) : bool :=
  match word with [] => false | _ => contains_word_from None source word end.

Definition DANGEROUS : list string :=
  ["drop"; "delete"; "truncate"; "alter"; "update"; "merge"; "replace"; "insert"; "create"].

Definition READ_SQL_KEYWORDS : list string := ["SELECT"; "WITH"; "SHOW"; "DESCRIBE"; "DESC"; "EXPLAIN"; "FROM"].

Definition SAFE_READ_PRAGMA_NAMES : list string :=
  ["TABLE_INFO"; "TABLE_XINFO"; "INDEX_LIST"; "INDEX_INFO"; "FOREIGN_KEY_LIST"; "DATABASE_LIST";
   "COMPILE_OPTIONS"; "DATA_VERSION"].

Definition starts_with_keyword (upper : text) (keyword : string) : bool :=
  match strip_prefix_t upper (c keyword) with
  | Some [] => true
  | Some (x :: _) => negb (is_ascii_alphanumeric x)
  | None => false
  end.

Definition starts_with_show_create (upper : text) : bool :=
  match strip_prefix_t upper (c "SHOW") with
  | None => false
  | Some after_show =>
      if match after_show with x :: _ => is_ascii_alphanumeric x | [] => false end then false
      else starts_with_keyword (trim_start_t after_show) "CREATE"
  end.

(** The loop of [select_contains_top_level_into]; the caller appends a blank. *)
Fixpoint into_loop (l token : text) (depth : nat) (saw_select : bool) : bool :=
  match l with
  | [] => false
  | x :: l' =>
      if is_word_char x then into_loop l' (token ++ [x]) depth saw_select
      else
        let top := negb (text_eqb token []) && (depth =? 0) in
        if top && negb (text_eqb token (c "SELECT")) && saw_select && text_eqb token (c "INTO") then true
        else
          let saw_select' := if top && text_eqb token (c "SELECT") then true else saw_select in
          let depth' := if (x =? 40)%N then S depth else if (x =? 41)%N then depth - 1 else depth in
          into_loop l' [] depth' saw_select'
  end.

Definition select_contains_top_level_into (upper : text) : bool := into_loop (upper ++ [32%N]) [] 0 false.

Definition is_safe_read_pragma (upper_stripped : text) : bool :=
  let rest := trim_start_t (default [] (strip_prefix_t upper_stripped (c "PRAGMA"))) in
  match rest with
  | [] => false
  | _ =>
      let '(pragma_name, after) := span_t is_word_char rest in
      if negb (existsb (λ n, text_eqb (c n) pragma_name) SAFE_READ_PRAGMA_NAMES) then false
      else match trim_start_t after with
           | [] => true
           | x :: _ => (x =? 40)%N
           end
  end.

Fixpoint keyword_sequence (words : list text) (first second : string) (previous_matches : bool) : bool :=
  match words with
  | [] => false
  | w :: words' =>
      if previous_matches && text_eq_ignore_ascii_case w (c second) then true
      else keyword_sequence words' first second (text_eq_ignore_ascii_case w (c first))
  end.

Definition contains_keyword_sequence (sql : text) (first second : string) : bool :=
  keyword_sequence (List.filter (λ w, negb (text_eqb w [])) (split_t (λ x, negb (is_word_char x)) sql []))
    first second false.

Definition is_mysql_compatible_database (d : DatabaseType) : bool :=
  bool_decide (d ∈ [Mysql; Doris; StarRocks; ManticoreSearch; Goldendb]).
Definition is_postgresql_family_database (d : DatabaseType) : bool :=
  bool_decide (d ∈ [Postgres; Redshift; Gaussdb; OpenGauss; Kingbase; Highgo; Uxdb; Vastbase; Kwdb]).

(** ** Search-engine requests *)

Inductive SearchEngineQueryRisk : Type := ReadOnly | Write | Dangerous.

#[export] Instance search_risk_eq_dec : EqDecision SearchEngineQueryRisk.
Proof. solve_decision. Defined.

(** [split_once('\n')] and [split_once("*/")]: what remains after the first
    occurrence, empty if there is none. *)
Fixpoint after_newline (l : text) : text :=
  match l with [] => [] | x :: l' => if (x =? 10)%N then l' else after_newline l' end.
Fixpoint after_close (l : text) : text :=
  match l with
  | 42%N :: 47%N :: r => r
  | _ :: l' => after_close l'
  | [] => []
  end.

(** Every turn of the loop drops a comment, so the length is enough fuel. *)
Fixpoint strip_leading (fuel : nat) (input : text) : text :=
  let rest := trim_start_t input in
  match fuel with
  | 0 => trim_t rest
  | S n =>
      match rest with
      | 35%N :: l => strip_leading n (after_newline l)
      | 47%N :: 47%N :: l => strip_leading n (after_newline l)
      | 47%N :: 42%N :: l => strip_leading n (after_close l)
      | _ => trim_t rest
      end
  end.
Definition strip_leading_search_engine_comments (input : text) : text := strip_leading (List.length input) input.

(** [lines().next()]. *)
Definition first_line (l : text) : option text :=
  match l with
  | [] => None
  | _ =>
      let '(line, rest) := span_t (λ x, negb (x =? 10)%N) l in
      match rest with
      | [] => Some line
      | _ => Some (match rev line with 13%N :: r => rev r | _ => line end)
      end
  end.

(** [split_whitespace()]. *)
Definition words_t (l : text) : list text := List.filter (λ w, negb (text_eqb w [])) (split_t is_whitespace l []).

Definition READ_ENDPOINTS : list string :=
  ["_search"; "_count"; "_sql"; "_msearch"; "_field_caps"; "_terms_enum"; "_validate"; "_explain"; "_rank_eval";
   "_search_shards"].
Definition WRITE_ENDPOINTS : list string := ["_doc"; "_create"; "_update"; "_bulk"].

Definition has_segment (segments : list text) (candidate : string) : bool :=
  existsb (λ s, text_eq_ignore_ascii_case s (c candidate)) segments.

(** The first such segment has a successor (segments are not empty). *)
Fixpoint has_document_id (segments : list text) (candidate : string) : bool :=
  match segments with
  | [] => false
  | s :: rest =>
      if text_eq_ignore_ascii_case s (c candidate)
      then match rest with v :: _ => negb (text_eqb v []) | [] => false end
      else has_document_id rest candidate
  end.

Definition classify_search_engine_query_risk (source : text) (database_type : DatabaseType)
    : option SearchEngineQueryRisk :=
  if negb (bool_decide (database_type ∈ [Elasticsearch; Easysearch])) then None
  else
    line ← first_line (strip_leading_search_engine_comments source);
    match words_t (trim_t line) with
    | method :: path :: _ =>
        let method := to_ascii_uppercase_c <$> method in
        let path := trim_end_char 47 (hd path (split_t (λ x, (x =? 63)%N) path [])) in
        let segments := List.filter (λ s, negb (text_eqb s [])) (split_t (λ x, (x =? 47)%N) path []) in
        let meth (m : string) := text_eqb method (c m) in
        if meth "GET" || meth "HEAD" || meth "OPTIONS" then Some ReadOnly
        else if meth "POST" && existsb (has_segment segments) READ_ENDPOINTS then Some ReadOnly
        else if meth "POST" && existsb (has_segment segments) WRITE_ENDPOINTS then Some Write
        else if meth "PUT" && (has_document_id segments "_doc" || has_document_id segments "_create") then Some Write
        else if meth "DELETE" && has_document_id segments "_doc" then Some Write
        else if meth "POST" || meth "PUT" || meth "PATCH" || meth "DELETE" then Some Dangerous
        else None
    | _ => None
    end.

(** ** The guard *)

Inductive ExplainFormat : Type := Json | Standard.

#[export] Instance explain_format_eq_dec : EqDecision ExplainFormat.
Proof. solve_decision. Defined.

Record ExplainSqlOptions := mk_explain_options {
  database_type : option DatabaseType;
  format : option ExplainFormat;
  sql : text
}.

Record ExplainSqlBuildResult := mk_explain_result { ok : bool; explain_sql : option text; reason : option string }.

Record DroppedFilePreviewSqlOptions := mk_preview_options { path : text; limit : option Z }.

Section Guard.
Context `{UnicodeCase, SqlTokenizer}.

Definition contains_dangerous_sql_keyword (sql : text) : bool :=
  let source := to_lowercase (strip_sql_comments_and_literals sql) in
  existsb (λ keyword, contains_word source (c keyword)) DANGEROUS.

Definition is_write_sql_statement (sql : text) (detect_mysql_executable_comments detect_select_into : bool) : bool :=
  let '(cleaned, has_mysql_executable_comment) :=
    strip_sql_comments_and_literals_with_metadata sql detect_mysql_executable_comments in
  if has_mysql_executable_comment then true
  else
    let trimmed := trim_start_t cleaned in
    match trimmed with
    | [] => false
    | _ =>
        let upper := to_uppercase trimmed in
        let starts_with_read := existsb (starts_with_keyword upper) READ_SQL_KEYWORDS in
        if negb starts_with_read && starts_with_keyword upper "PRAGMA" then negb (is_safe_read_pragma upper)
        else if starts_with_show_create upper then false
        else if detect_select_into && starts_with_keyword upper "SELECT" && select_contains_top_level_into upper
        then true
        else negb starts_with_read || contains_dangerous_sql_keyword sql
    end.

Definition contains_unquoted_keyword (sql : text) (dialect : Dialect) (keyword : string) : bool :=
  match tokenize dialect sql with
  | Some tokens =>
      existsb (λ t, match t with
                    | TokenWord value quoted => negb quoted && text_eq_ignore_ascii_case value (c keyword)
                    | _ => false
                    end) tokens
  | None => false
  end.

Definition has_dialect_specific_write_statement (sql : text) (d : DatabaseType) : bool :=
  if is_mysql_compatible_database d then
    let '(cleaned, has_executable_comment) := strip_sql_comments_and_literals_with_metadata sql true in
    has_executable_comment || contains_keyword_sequence cleaned "INTO" "OUTFILE"
    || contains_keyword_sequence cleaned "INTO" "DUMPFILE"
  else if is_postgresql_family_database d then contains_unquoted_keyword sql PostgreSqlDialect "INTO"
  else match d with
       | SqlServer => contains_unquoted_keyword sql MsSqlDialect "INTO"
       | _ => false
       end.

Definition has_dialect_specific_write (sql : text) (d : DatabaseType) : bool :=
  existsb (λ st, has_dialect_specific_write_statement st d) (split_sql_statements_for_database sql d).

Definition is_sqlserver_showplan_xml_set (sql : text) : bool :=
  match (λ part, to_ascii_uppercase_c <$> trim_end_char 59 part) <$> words_t (strip_sql_comments sql) with
  | [set; showplan; value] =>
      text_eqb set (c "SET") && text_eqb showplan (c "SHOWPLAN_XML")
      && (text_eqb value (c "ON") || text_eqb value (c "OFF"))
  | _ => false
  end.

Definition is_write_sql_with_database_type (sql : text) (d : option DatabaseType) : bool :=
  if bool_decide (d = Some SqlServer) && is_sqlserver_showplan_xml_set sql then false
  else if match d with Some d => has_dialect_specific_write sql d | None => false end then true
  else
    let untyped := match d with None => true | Some _ => false end in
    let statements := match d with
                      | Some d => split_sql_statements_for_database sql d
                      | None => split_sql_statements sql
                      end in
    existsb (λ st, is_write_sql_statement st untyped untyped) statements.

Definition is_write_sql (sql : text) : bool := is_write_sql_with_database_type sql None.

Definition is_write_sql_for_database (sql : text) (d : DatabaseType) : bool :=
  match classify_search_engine_query_risk sql d with
  | Some risk => negb (bool_decide (risk = ReadOnly))
  | None => is_write_sql_with_database_type sql (Some d)
  end.

Definition check_read_only (sql : text) (connection_name : string) (d : DatabaseType) : result unit string :=
  if is_write_sql_for_database sql d
  then Err ("Read-only mode: connection '" +:+ connection_name
            +:+ "' has read-only protection enabled. Write operation (including stored procedure calls) blocked.")
  else Ok tt.

(** ** Explain *)

Definition strip_trailing_semicolons (sql : text) : text := trim_end_t (trim_end_char 59 (trim_end_t sql)).

Definition has_extra_statement_after_semicolon (sql : text) : bool :=
  existsb (λ part, negb (text_eqb (trim_t part) []))
    (List.tl (split_t (λ x, (x =? 59)%N) (strip_sql_comments_and_literals sql) [])).

Definition is_safe_explain_source (sql : text) : bool :=
  let source := to_lowercase (trim_start_t (strip_sql_comments sql)) in
  existsb (λ keyword, text_eqb source (c keyword) || starts_with_t source (c keyword ++ [32%N])
                      || starts_with_t source (c keyword ++ [10%N])) ["select"; "with"; "table"; "values"].

Definition is_safe_explain_sql (sql : text) : bool :=
  let source := strip_trailing_semicolons (trim_t sql) in
  negb (text_eqb source []) && negb (has_extra_statement_after_semicolon source)
  && is_safe_explain_source source && negb (contains_dangerous_sql_keyword source).

Definition is_safe_dameng_autotrace_sql (sql : text) : bool :=
  let source := strip_trailing_semicolons (trim_t sql) in
  if text_eqb source [] || has_extra_statement_after_semicolon source then false
  else is_safe_explain_source source && negb (contains_dangerous_sql_keyword source).

Definition supports_explain_plan (d : option DatabaseType) : bool :=
  match d with Some d => bool_decide (d ∈ [Mysql; Postgres; Questdb; Dameng; Oracle; SqlServer]) | None => false end.

Definition supports_sql_query (d : DatabaseType) : bool :=
  negb (bool_decide (d ∈ [Redis; MongoDb; Elasticsearch; Easysearch; Qdrant; Milvus; Weaviate; ChromaDb; InfluxDb;
                          Neo4j; Etcd])).

Definition explain_err (reason : string) : ExplainSqlBuildResult := mk_explain_result false None (Some reason).

Definition build_explain_sql (options : ExplainSqlOptions) : ExplainSqlBuildResult :=
  if negb (supports_explain_plan (database_type options)) then explain_err "unsupported"
  else
    let source := strip_trailing_semicolons (trim_t (sql options)) in
    if text_eqb source [] then explain_err "empty"
    else if negb (is_safe_explain_sql source) then explain_err "unsafe"
    else if bool_decide (database_type options = Some SqlServer) && negb (List.length (split_sql_batches source) =? 1)
    then explain_err "unsafe"
    else
      let sql :=
        match database_type options with
        | Some (Postgres | MongoDb) => c "EXPLAIN (FORMAT JSON) " ++ source
        | Some (Dameng | Questdb) => c "EXPLAIN " ++ source
        | Some Oracle => c "EXPLAIN PLAN FOR " ++ source
        | Some SqlServer =>
            c "SET SHOWPLAN_XML ON;" ++ [10%N] ++ c "GO" ++ [10%N] ++ source ++ [10%N] ++ c "GO" ++ [10%N]
            ++ c "SET SHOWPLAN_XML OFF;"
        | Some Mysql => if bool_decide (format options = Some Standard)
                        then c "EXPLAIN FORMAT=TRADITIONAL " ++ source else c "EXPLAIN FORMAT=JSON " ++ source
        | _ => c "EXPLAIN FORMAT=JSON " ++ source
        end in
      mk_explain_result true (Some sql) None.

(** [replace('\'', "''")]. *)
Definition escape_quotes (l : text) : text := l ≫= λ x, if (x =? SQ)%N then [SQ; SQ] else [x].

Definition build_dropped_file_preview_sql (options : DroppedFilePreviewSqlOptions) : option text :=
  let lower := to_lowercase (path options) in
  let escaped := escape_quotes (path options) in
  let limit := c (pretty (Z.max (default 1000%Z (limit options)) 1)) in
  if ends_with_t lower (c ".parquet") then Some (c "SELECT * FROM read_parquet('" ++ escaped ++ c "') LIMIT " ++ limit)
  else if ends_with_t lower (c ".csv") then Some (c "SELECT * FROM read_csv('" ++ escaped ++ c "') LIMIT " ++ limit)
  else if ends_with_t lower (c ".tsv")
  then Some (c "SELECT * FROM read_csv('" ++ escaped ++ c "', delim='\t') LIMIT " ++ limit)
  else if ends_with_t lower (c ".json") then Some (c "SELECT * FROM read_json('" ++ escaped ++ c "') LIMIT " ++ limit)
  else None.
End Guard.

(** ** What stripping does *)

(** A script cut into plain characters, comments and quoted texts. *)
Inductive Segment : Type :=
| Plain (x : N)
| DashComment (body : text)
| HashComment (body : text)
| StarComment (body : text)
| Literal (q : N) (body : text).

(** A quote inside a literal is doubled. *)
Definition double_quote (q : N) (body : text) : text := body ≫= λ x, if (x =? q)%N then [q; q] else [x].

Definition render_segment (s : Segment) : text :=
  match s with
  | Plain x => [x]
  | DashComment b => 45%N :: 45%N :: b ++ [10%N]
  | HashComment b => 35%N :: b ++ [10%N]
  | StarComment b => 47%N :: 42%N :: b ++ [42%N; 47%N]
  | Literal q b => q :: double_quote q b ++ [q]
  end.
Definition render (ss : list Segment) : text := ss ≫= render_segment.

(** What the stripped script holds for it: a comment becomes one blank, a literal
    as many as it has characters. *)
Definition blank_segment (s : Segment) : text :=
  match s with
  | Plain x => [x]
  | Literal _ b => repeat 32%N (S (S (List.length b)))
  | _ => [32%N]
  end.
Definition blank (ss : list Segment) : text := ss ≫= blank_segment.

(** A comment or a literal begins here. *)
Definition opens (l : text) : bool :=
  match l with
  | [] => false
  | x :: l1 =>
      (x =? 35)%N || (x =? SQ)%N || (x =? DQ)%N || (x =? BT)%N
      || match l1 with
         | y :: _ => (x =? 45)%N && (y =? 45)%N || (x =? 47)%N && (y =? 42)%N
         | [] => false
         end
  end.

Fixpoint has_close (l : text) : bool :=
  match l with
  | x :: l1 => match l1 with y :: _ => (x =? 42)%N && (y =? 47)%N | [] => false end || has_close l1
  | [] => false
  end.

(** [ss] is the cut of the script before [rest]. *)
Fixpoint segmented (ss : list Segment) (rest : text) : bool :=
  match ss with
  | [] => true
  | s :: ss' =>
      match s with
      | Plain x => negb (opens (x :: render ss' ++ rest))
      | DashComment b | HashComment b => bool_decide ((10%N : N) ∉ b)
      | StarComment b => negb (has_close b)
      | Literal q b => bool_decide (q ∈ [SQ; DQ; BT]) && bool_decide (head (render ss' ++ rest) ≠ Some q)
      end && segmented ss' rest
  end.

Definition executable (s : Segment) : bool :=
  match s with StarComment b => is_mysql_executable_comment_start (b ++ [42%N; 47%N]) | _ => false end.

Lemma strip_line d b r : (10%N : N) ∉ b →
  strip_meta d LineComment (b ++ 10%N :: r) = (32%N :: (strip_meta d Code r).1, (strip_meta d Code r).2).
Proof.
  induction b as [|x b IH]; intros Hb; [done|]. apply not_elem_of_cons in Hb as [Hx Hb].
  change ((x :: b) ++ 10%N :: r) with (x :: (b ++ 10%N :: r)). cbn [strip_meta].
  assert ((x =? 10)%N = false) as -> by (apply N.eqb_neq; congruence). by apply IH.
Qed.

Lemma strip_block d b r : has_close b = false →
  strip_meta d BlockComment (b ++ 42%N :: 47%N :: r) = (32%N :: (strip_meta d Code r).1, (strip_meta d Code r).2).
Proof.
  induction b as [|x b IH]; intros Hb; [done|]. cbn [has_close] in Hb. apply orb_false_iff in Hb as [Hx Hb].
  specialize (IH Hb). destruct b as [|y b].
  - cbn [app] in *. cbn [strip_meta]. destruct (x =? 42)%N; exact IH.
  - cbn [app] in *. cbn [strip_meta] in *. rewrite Hx. exact IH.
Qed.

Lemma strip_literal d q b r : head r ≠ Some q →
  strip_meta d (Quoted q) (double_quote q b ++ q :: r)
  = (repeat 32%N (S (List.length b)) ++ (strip_meta d Code r).1, (strip_meta d Code r).2).
Proof.
  intros Hr. induction b as [|x b IH].
  - cbn. rewrite N.eqb_refl. destruct r as [|y r]; [done|].
    assert ((y =? q)%N = false) as -> by (apply N.eqb_neq; intros ->; done). done.
  - unfold double_quote in *. cbn [mbind list_bind]. destruct (x =? q)%N eqn:E.
    + cbn [app strip_meta]. rewrite !N.eqb_refl. rewrite IH. done.
    + cbn [app strip_meta]. rewrite E, IH. done.
Qed.

Lemma strip_plain d x l : opens (x :: l) = false →
  strip_meta d Code (x :: l) = (x :: (strip_meta d Code l).1, (strip_meta d Code l).2).
Proof.
  cbn [opens]. intros Ho. apply orb_false_iff in Ho as [Ho Hl]. rewrite !orb_false_iff in Ho.
  destruct Ho as [[[H1 H2] H3] H4]. cbn [strip_meta]. rewrite H1, H2, H3, H4.
  destruct l as [|y l]; [done|]. apply orb_false_iff in Hl as [-> ->]. done.
Qed.

Lemma executable_start b r : is_mysql_executable_comment_start (b ++ 42%N :: 47%N :: r)
  = is_mysql_executable_comment_start (b ++ [42%N; 47%N]).
Proof. destruct b as [|x [|y b]]; [done| |done]. cbn. by destruct x as [|[]]. Qed.

Lemma strip_segments d ss rest : segmented ss rest = true →
  strip_meta d Code (render ss ++ rest)
  = (blank ss ++ (strip_meta d Code rest).1, existsb (λ s, d && executable s) ss || (strip_meta d Code rest).2).
Proof.
  induction ss as [|s ss IH]; intros Hs; [by apply surjective_pairing|].
  cbn [segmented] in Hs. apply andb_true_iff in Hs as [Hseg Hss]. specialize (IH Hss). unfold render, blank in *. cbn [mbind list_bind existsb].
  rewrite <-!app_assoc.
  destruct s as [x|b|b|b|q b]; cbn [render_segment blank_segment executable].
  - apply negb_true_iff in Hseg. cbn [app]. rewrite strip_plain by done. rewrite IH. by rewrite andb_false_r.
  - apply bool_decide_eq_true in Hseg. cbn [app]. rewrite <-app_assoc. cbn [app strip_meta].
    rewrite !N.eqb_refl. cbn [andb].
    etrans; [by apply strip_line|]. rewrite IH. by rewrite andb_false_r.
  - apply bool_decide_eq_true in Hseg. cbn [app]. rewrite <-app_assoc. cbn [app]. rewrite andb_false_r.
    etrans; [|etrans; [by apply (strip_line d b)|by rewrite IH]].
    match goal with |- strip_meta _ _ (_ :: ?l) = _ => destruct l end; reflexivity.
  - apply negb_true_iff in Hseg. cbn [app]. rewrite <-app_assoc. cbn [app strip_meta]. cbn [andb N.eqb Pos.eqb].
    etrans; [apply f_equal2; [|apply f_equal2; [reflexivity|]];
      [by rewrite (strip_block d b)|by rewrite (strip_block d b)]|].
    rewrite IH. cbn [fst snd app]. by rewrite executable_start, orb_assoc.
  - apply andb_true_iff in Hseg as [Hq%bool_decide_eq_true Hr%bool_decide_eq_true]. cbn [app]. rewrite <-app_assoc. cbn [app]. rewrite andb_false_r.
    pose proof (strip_literal d q b _ Hr) as HL. unfold render in HL. rewrite IH in HL. cbn [fst snd] in HL.
    etrans; [|cbn [repeat app orb]; reflexivity].
    assert (strip_meta d Code (q :: double_quote q b ++ q :: (ss ≫= render_segment) ++ rest)
            = (32%N :: (strip_meta d (Quoted q) (double_quote q b ++ q :: (ss ≫= render_segment) ++ rest)).1,
               (strip_meta d (Quoted q) (double_quote q b ++ q :: (ss ≫= render_segment) ++ rest)).2)) as ->.
    { cbn [strip_meta]. rewrite !elem_of_cons in Hq.
      destruct Hq as [->|[->|[->|Hn]]]; [| | |inversion Hn];
        match goal with |- context [strip_meta _ (Quoted _) ?l] => destruct l end; reflexivity. }
    rewrite HL. reflexivity.
Qed.

(** ** Words *)

(** [word] occurs in [l] between characters that are no identifier characters. *)
Definition word_in (word l : text) : Prop :=
  ∃ pre post, l = pre ++ word ++ post ∧ is_identifier_byte (last pre) = false ∧ is_identifier_byte (head post) = false.

Lemma strip_prefix_t_Some l p r : strip_prefix_t l p = Some r ↔ l = p ++ r.
Proof.
  revert l. induction p as [|x p IH]; intros l; [destruct l; simpl; split; congruence|].
  destruct l as [|y l]; [by split|]. simpl. destruct (N.eqb_spec x y) as [->|Hn].
  - rewrite IH. split; [by intros ->|]. intros H. by simplify_eq.
  - split; [done|]. intros H. simplify_eq.
Qed.

Definition last_or (before : option N) (l : text) : option N := match last l with Some x => Some x | None => before end.

Lemma last_or_cons b x l : last_or b (x :: l) = last_or (Some x) l.
Proof. unfold last_or. rewrite last_cons. by destruct (last l). Qed.

Lemma contains_word_from_spec b l w :
  contains_word_from b l w = true ↔
  ∃ pre post, l = pre ++ w ++ post ∧ is_identifier_byte (last_or b pre) = false ∧ is_identifier_byte (head post) = false.
Proof.
  revert b. induction l as [|x l IH]; intros b.
  - cbn [contains_word_from]. rewrite orb_false_r. split.
    + destruct (strip_prefix_t [] w) as [r|] eqn:E; [|done]. apply strip_prefix_t_Some in E.
      intros [H1%negb_true_iff H2%negb_true_iff]%andb_true_iff. by exists [], r.
    + intros (pre & post & E & H1 & H2). symmetry in E.
      apply app_nil in E as [-> E]. pose proof (proj2 (strip_prefix_t_Some [] w post) (eq_sym E)) as ->.
      change (last_or b []) with b in H1. by rewrite H1, H2.
  - cbn [contains_word_from]. rewrite orb_true_iff, IH. split.
    + intros [H|(pre & post & -> & H1 & H2)].
      * destruct (strip_prefix_t (x :: l) w) as [r|] eqn:E; [|done]. apply strip_prefix_t_Some in E.
        apply andb_true_iff in H as [H1%negb_true_iff H2%negb_true_iff]. by exists [], r.
      * exists (x :: pre), post. by rewrite last_or_cons.
    + intros (pre & post & E & H1 & H2). destruct pre as [|y pre].
      * left. cbn [app] in E. apply (strip_prefix_t_Some _ w) in E as ->. change (last_or b []) with b in H1. by rewrite H1, H2.
      * right. cbn [app] in E. injection E as <- ->. exists pre, post. by rewrite last_or_cons in H1.
Qed.

Lemma contains_word_spec l w : w ≠ [] → contains_word l w = true ↔ word_in w l.
Proof.
  intros Hw. destruct w as [|x w]; [done|]. unfold contains_word. rewrite contains_word_from_spec. unfold word_in.
  split; intros (pre & post & Hl & H1 & H2); exists pre, post; (split; [done|]); split; try done;
    unfold last_or in *; by destruct (last pre).
Qed.

Lemma dangerous_nonempty : Forall (λ k, c k ≠ []) DANGEROUS.
Proof. repeat constructor; done. Qed.

Section GuardTheorems.
Context `{HU : UnicodeCase}.

Lemma contains_dangerous_spec sql :
  contains_dangerous_sql_keyword sql = false ↔
  Forall (λ k, ¬ word_in (c k) (to_lowercase (strip_sql_comments_and_literals sql))) DANGEROUS.
Proof.
  unfold contains_dangerous_sql_keyword. set (l := to_lowercase _). clearbody l.
  rewrite <-not_true_iff_false, existsb_exists, Forall_forall. split.
  - intros Hn k Hk Hw. apply Hn. exists k. rewrite <-list_elem_of_In. split; [done|].
    apply contains_word_spec; [|done]. by apply (proj1 (Forall_forall _ _) dangerous_nonempty).
  - intros Hall (k & Hk%list_elem_of_In & Hw). apply (Hall k Hk). apply contains_word_spec; [|done].
    by apply (proj1 (Forall_forall _ _) dangerous_nonempty).
Qed.

Lemma starts_with_keyword_head u k x k' : c k = x :: k' → starts_with_keyword u k = true → head u = Some x.
Proof.
  intros Hk. unfold starts_with_keyword. rewrite Hk. destruct u as [|y u]; [done|]. cbn.
  destruct (N.eqb_spec x y) as [->|]; done.
Qed.

Lemma pragma_is_no_read u :
  starts_with_keyword u "PRAGMA" = true → existsb (starts_with_keyword u) READ_SQL_KEYWORDS = false.
Proof.
  intros Hp. pose proof (starts_with_keyword_head u "PRAGMA" 80%N _ eq_refl Hp) as Hh.
  apply not_true_iff_false. rewrite existsb_exists. intros (k & Hk & Hs). unfold READ_SQL_KEYWORDS in Hk. cbn [In] in Hk.
  repeat (destruct Hk as [<-|Hk];
    [eapply starts_with_keyword_head in Hs; [|reflexivity]; rewrite Hh in Hs; discriminate|]). done.
Qed.

Lemma show_create_is_read u :
  starts_with_show_create u = true → existsb (starts_with_keyword u) READ_SQL_KEYWORDS = true.
Proof.
  unfold starts_with_show_create. intros Hs. apply existsb_exists. exists "SHOW"%string.
  split; [unfold READ_SQL_KEYWORDS; cbn; tauto|]. unfold starts_with_keyword.
  destruct (strip_prefix_t u (c "SHOW")) as [[|x r]|]; [done| |done].
  by destruct (is_ascii_alphanumeric x).
Qed.

Lemma strip_flag_off l m : (strip_meta false m l).2 = false.
Proof.
  enough (∀ n l m, List.length l ≤ n → (strip_meta false m l).2 = false) as Hs by by eapply Hs.
  clear. induction n as [|n IH]; intros [|x l] m Hl; cbn [List.length] in Hl; [done|lia|done|]. cbn [strip_meta].
  destruct l as [|y l]; cbn [List.length] in Hl;
    destruct m; repeat match goal with |- context [if ?b then _ else _] => destruct b end;
    cbn [fst snd andb orb]; apply IH; cbn [List.length]; lia.
Qed.

(** The verdict as a decision on the stripped text. *)
Lemma statement_verdict sql :
  is_write_sql_statement sql false false = false ↔
  let code := strip_sql_comments_and_literals sql in
  let upper := to_uppercase (trim_start_t code) in
  trim_start_t code = []
  ∨ (starts_with_keyword upper "PRAGMA" = true ∧ is_safe_read_pragma upper = true)
  ∨ starts_with_show_create upper = true
  ∨ (existsb (starts_with_keyword upper) READ_SQL_KEYWORDS = true ∧
     Forall (λ k, ¬ word_in (c k) (to_lowercase code)) DANGEROUS).
Proof.
  unfold is_write_sql_statement. cbv zeta. rewrite <-contains_dangerous_spec.
  change (strip_sql_comments_and_literals sql) with (strip_sql_comments_and_literals_with_metadata sql false).1.
  pose proof (strip_flag_off sql Code) as Hm. fold (strip_sql_comments_and_literals_with_metadata sql false) in Hm.
  destruct (strip_sql_comments_and_literals_with_metadata sql false) as [code flag]. cbn [snd] in Hm. subst flag. cbn [fst snd]. cbv beta iota.
  destruct (trim_start_t code) as [|x l] eqn:E; [tauto|]. rewrite <-E. set (u := to_uppercase _). clearbody u.
  destruct (starts_with_keyword u "PRAGMA") eqn:Hp.
  - rewrite (pragma_is_no_read u Hp). cbn [negb andb]. rewrite negb_false_iff. split; [tauto|].
    intros [He|[[_ Hs]|[Hc|[Hr _]]]]; [congruence|done| |done].
    apply show_create_is_read in Hc. by rewrite (pragma_is_no_read u Hp) in Hc.
  - rewrite andb_false_r. destruct (starts_with_show_create u) eqn:Hc; [tauto|].
    cbn [andb]. rewrite orb_false_iff, negb_false_iff. split; [tauto|].
    intros [He|[[Hp' _]|[Hc'|[Hr Hd]]]]; [congruence|congruence|congruence|done].
Qed.
End GuardTheorems.

Lemma drop_while_Forall {A} (P : A → Prop) f l : Forall P l → Forall P (drop_while f l).
Proof. induction 1 as [|x l Hx Hl IH]; simpl; [constructor|]. destruct (f x); [done|by constructor]. Qed.

Lemma strip_render ss : segmented ss [] = true → strip_sql_comments_and_literals (render ss) = blank ss.
Proof.
  intros Hs. unfold strip_sql_comments_and_literals, strip_sql_comments_and_literals_with_metadata.
  rewrite <-(app_nil_r (render ss)), (strip_segments false ss []) by done. apply app_nil_r.
Qed.

Section Ascii.
Context `{HU : UnicodeCase}.
Implicit Type (sql : text).

Lemma to_uppercase_trimmed l : Forall (λ c, c < 128)%N l →
  to_uppercase (trim_start_t l) = to_ascii_uppercase_c <$> trim_start_t l.
Proof. intros Hl. apply to_uppercase_ascii. by apply drop_while_Forall. Qed.

(** On a statement whose code is ASCII the Unicode tables do not matter. *)
Lemma statement_case sql d i : Forall (λ c, c < 128)%N (strip_sql_comments_and_literals sql) →
  Forall (λ c, c < 128)%N (strip_sql_comments_and_literals_with_metadata sql d).1 →
  is_write_sql_statement sql d i = @is_write_sql_statement ascii_case sql d i.
Proof.
  intros Hl Hm. unfold is_write_sql_statement, contains_dangerous_sql_keyword.
  destruct (strip_sql_comments_and_literals_with_metadata sql d) as [code flag]. cbn [fst] in Hm.
  rewrite to_uppercase_trimmed, to_lowercase_ascii by done. reflexivity.
Qed.
End Ascii.

(** What stripping computes, for every script: cut it into plain characters,
    comments and quoted texts (a prefix, before any rest). Plain characters are
    kept in place, a comment leaves one blank and a quoted text only blanks, and
    the flag says whether some block comment is a MySQL or MariaDB executable
    one. No text of a comment or of a literal ever reaches the keyword tests. *)
Theorem stripping_blanks detect ss rest (Hs : segmented ss rest = true) :
  strip_sql_comments_and_literals_with_metadata (render ss ++ rest) detect
  = (blank ss ++ (strip_sql_comments_and_literals_with_metadata rest detect).1,
     existsb (λ s, detect && executable s) ss || (strip_sql_comments_and_literals_with_metadata rest detect).2).
Proof. by apply strip_segments. Qed.


(** ** Witnesses *)

(** [SELECT 'drop' /* x */] and [UPDATE]. *)
Definition quoted_drop : list Segment := (Plain <$> c "SELECT ") ++ [Literal SQ (c "drop"); StarComment (c "x")].
Definition hidden_delete : list Segment := (Plain <$> c "WITH a AS (DELETE FROM t) SELECT 1").

Lemma stripping_blanks_witness :
  strip_sql_comments_and_literals_with_metadata (render quoted_drop ++ c ";") true = (c "SELECT        ;", false).
Proof.
  assert (segmented quoted_drop (c ";") = true) as Hs by (vm_compute; reflexivity).
  pose proof (stripping_blanks true quoted_drop (c ";") Hs) as HT. etrans; [exact HT|]. vm_compute. reflexivity.
Defined.


Lemma split_t_word f l w : ∃ hd tl, split_t f l w = hd :: tl.
Proof. revert w. induction l as [|x l IH]; intros w; simpl; [eauto|]. destruct (f x); eauto. Qed.

Lemma trim_blank l : trim_t l = [] → Forall (λ x, is_whitespace x = true) l.
Proof.
  unfold trim_t, trim_end_t, trim_start_t. intros Ht.
  assert (∀ l : text, drop_while is_whitespace l = [] → Forall (λ x, is_whitespace x = true) l) as Hd.
  { clear. induction l as [|x l IH]; simpl; [constructor|]. destruct (is_whitespace x) eqn:E; [|done].
    intros Hl. constructor; auto. }
  apply (f_equal (@rev N)) in Ht. rewrite rev_involutive in Ht. apply Hd in Ht.
  destruct (drop_while is_whitespace l) as [|x r] eqn:E; [by apply Hd|].
  assert (is_whitespace x = true) as Hx.
  { apply (proj1 (Forall_forall _ _) Ht). apply list_elem_of_In, in_rev. rewrite rev_involutive. by left. }
  exfalso. clear -E Hx. induction l as [|y l IH]; [done|]. simpl in E.
  destruct (is_whitespace y) eqn:Ey; [by apply IH|congruence].
Qed.

Definition has_text_part (parts : list text) : bool := existsb (λ part, negb (text_eqb (trim_t part) [])) parts.

(** What is already in the word under way ends up in a part. *)
Lemma blank_word x l v : x ∈ v → has_text_part (split_t (λ x, (x =? 59)%N) l v) = false → is_whitespace x = true.
Proof.
  assert (∀ v : text, x ∈ v → negb (text_eqb (trim_t (rev v)) []) = false → is_whitespace x = true) as Hw.
  { clear. intros v Hv Ht%negb_false_iff%bool_decide_eq_true%trim_blank. apply (proj1 (Forall_forall _ _) Ht).
    apply list_elem_of_In, in_rev. rewrite rev_involutive. by apply list_elem_of_In. }
  revert v. induction l as [|z l IH]; intros v Hv; cbn [split_t]; unfold has_text_part in *.
  - cbn [existsb]. rewrite orb_false_r. by apply Hw.
  - destruct (z =? 59)%N; [|apply IH; by right]. cbn [existsb]. intros [Ht _]%orb_false_iff. by apply (Hw v).
Qed.

(** Parts that are all blank come from a text of blanks and separators. *)
Lemma blank_parts l w : has_text_part (split_t (λ x, (x =? 59)%N) l w) = false →
  Forall (λ x, is_whitespace x = true ∨ x = 59%N) l.
Proof.
  revert w. induction l as [|x l IH]; intros w; [constructor|]. cbn [split_t]. destruct (N.eqb_spec x 59) as [->|Hx].
  - unfold has_text_part in *. cbn [existsb]. intros [_ Hl]%orb_false_iff. constructor; [by right|]. by eapply IH.
  - intros Hl. constructor; [|by eapply IH]. left. apply (blank_word x l (x :: w)); [by left|done].
Qed.

Lemma no_extra_statement source : has_extra_statement_after_semicolon source = false →
  ∀ pre post, strip_sql_comments_and_literals source = pre ++ 59%N :: post →
  Forall (λ x, is_whitespace x = true ∨ x = 59%N) post.
Proof.
  unfold has_extra_statement_after_semicolon. generalize (strip_sql_comments_and_literals source) as l. clear.
  assert (∀ l w pre post, has_text_part (List.tl (split_t (λ x, (x =? 59)%N) l w)) = false →
    l = pre ++ 59%N :: post → Forall (λ x, is_whitespace x = true ∨ x = 59%N) post) as Hgen; [|intros; eapply Hgen; eassumption].
  intros l w pre post Hl ->. revert w Hl. induction pre as [|x pre IH]; intros w; cbn [app split_t].
  - cbn [N.eqb Pos.eqb List.tl]. apply blank_parts.
  - destruct (x =? 59)%N; [|apply IH]. cbn [List.tl]. intros Hl. apply (IH []).
    destruct (split_t_word (λ x, (x =? 59)%N) (pre ++ 59%N :: post) []) as (hd & tl & E). rewrite E in Hl |- *.
    unfold has_text_part in *. cbn [existsb List.tl] in *. apply orb_false_iff in Hl as [_ Hl]. exact Hl.
Qed.

(** ** Statements that write and are let through *)

Definition postgres_hash_delete : text :=
  c "WITH x AS (SELECT 1 # 2), y AS (DELETE FROM t RETURNING id) SELECT id FROM y".
Definition postgres_star_grant : text := c "SELECT 2/**/*3; GRANT ALL ON t TO u".
Definition postgres_backslash_grant : text := c "SELECT '\'; GRANT ALL ON t TO u; --'".
Definition mysql_minus_outfile : text := c "SELECT 1--1 INTO OUTFILE '/tmp/x'".
Definition mysql_escaped_outfile : text := c "SELECT '\'' INTO OUTFILE '/tmp/x'".

(** Five scripts that write pass the read-only check, whatever the Unicode
    tables, provided only that the tokenizer sees no INTO in the first three
    (they have none). In PostgreSQL # is the XOR operator, here it hides the rest
    of the line; the slash that ends a comment and a star after it are read as
    the start of another comment by the splitter alone, so that what follows the
    semicolon is not a statement of its own and GRANT is no write keyword; a
    backslash escapes a quote for the splitter and not for the server. In MySQL
    -- opens a comment only before a blank, here it always does, and a backslash
    escapes a quote, here it does not. *)
Theorem read_only_bypass `{UnicodeCase, SqlTokenizer} name
    (Hi : Forall (λ sql, contains_unquoted_keyword sql PostgreSqlDialect "INTO" = false)
            [postgres_hash_delete; postgres_star_grant; postgres_backslash_grant]) :
  Forall (λ '(sql, d), check_read_only sql name d = Ok tt)
    [(postgres_hash_delete, Postgres); (postgres_star_grant, Postgres); (postgres_backslash_grant, Postgres);
     (mysql_minus_outfile, Mysql); (mysql_escaped_outfile, Mysql)].
Proof.
  assert (∀ sql d, classify_search_engine_query_risk sql d = None → bool_decide (d = SqlServer) = false →
            split_sql_statements_for_database sql d = [sql] → has_dialect_specific_write_statement sql d = false →
            forallb (λ c, c <? 128)%N (strip_sql_comments_and_literals sql) = true →
            @is_write_sql_statement ascii_case sql false false = false →
            check_read_only sql name d = Ok tt) as Hpass.
  { intros sql d Hc Hd Hsplit Hw Ha Hg. unfold check_read_only, is_write_sql_for_database. rewrite Hc.
    unfold is_write_sql_with_database_type, has_dialect_specific_write. rewrite Hsplit. cbn [existsb]. rewrite Hw.
    assert (bool_decide (Some d = Some SqlServer) = false) as ->.
    { apply bool_decide_eq_false in Hd. apply bool_decide_eq_false. congruence. }
    cbn [andb orb]. assert (Forall (λ c, c < 128)%N (strip_sql_comments_and_literals sql)) as Hf.
    { apply Forall_forall. intros x Hx. apply N.ltb_lt. by apply (proj1 (forallb_forall _ _) Ha), list_elem_of_In. }
    by rewrite statement_case, Hg by done. }
  apply Forall_cons in Hi as [H1 Hi]. apply Forall_cons in Hi as [H2 Hi]. apply Forall_cons in Hi as [H3 _].
  repeat apply Forall_cons_2; [| | | | |constructor].
  - apply Hpass; [vm_compute; reflexivity|vm_compute; reflexivity|vm_compute; reflexivity|exact H1
      |vm_compute; reflexivity|vm_compute; reflexivity].
  - apply Hpass; [vm_compute; reflexivity|vm_compute; reflexivity|vm_compute; reflexivity|exact H2
      |vm_compute; reflexivity|vm_compute; reflexivity].
  - apply Hpass; [vm_compute; reflexivity|vm_compute; reflexivity|vm_compute; reflexivity|exact H3
      |vm_compute; reflexivity|vm_compute; reflexivity].
  - apply Hpass; vm_compute; reflexivity.
  - apply Hpass; vm_compute; reflexivity.
Qed.

(** ** Explain *)

(** Whatever text the builder hands out to be explained was accepted: the
    database supports it, and the statement inside it (the input without
    surrounding blanks and trailing semicolons) is not empty, starts with
    SELECT, WITH, TABLE or VALUES after its comments, has no write keyword as a
    word outside comments and literals and nothing but blanks and semicolons
    after a semicolon in its code. The text is that statement behind an EXPLAIN
    prefix, or between the SQL Server batches that turn plans on and off. *)
Theorem explain_is_safe `{UnicodeCase} options sql'
    (Hok : explain_sql (build_explain_sql options) = Some sql') :
  let source := strip_trailing_semicolons (trim_t (sql options)) in
  let checked := strip_trailing_semicolons (trim_t source) in
  supports_explain_plan (database_type options) = true ∧ checked ≠ []
  ∧ is_safe_explain_source checked = true
  ∧ Forall (λ k, ¬ word_in (c k) (to_lowercase (strip_sql_comments_and_literals checked))) DANGEROUS
  ∧ (∀ pre post, strip_sql_comments_and_literals checked = pre ++ 59%N :: post →
       Forall (λ x, is_whitespace x = true ∨ x = 59%N) post)
  ∧ ∃ prefix suffix, sql' = prefix ++ source ++ suffix
      ∧ (starts_with_t prefix (c "EXPLAIN ") = true ∧ suffix = []
         ∨ database_type options = Some SqlServer ∧ List.length (split_sql_batches source) = 1
           ∧ prefix = c "SET SHOWPLAN_XML ON;" ++ [10%N] ++ c "GO" ++ [10%N]
           ∧ suffix = [10%N] ++ c "GO" ++ [10%N] ++ c "SET SHOWPLAN_XML OFF;").
Proof.
  cbv zeta. unfold build_explain_sql in Hok. set (source := strip_trailing_semicolons (trim_t (sql options))) in *.
  destruct (supports_explain_plan (database_type options)); [|done].
  destruct (text_eqb source []); [done|]. destruct (is_safe_explain_sql source) eqn:Hsafe; [|done].
  cbn [negb] in Hok. unfold is_safe_explain_sql in Hsafe.
  set (checked := strip_trailing_semicolons (trim_t source)) in *. rewrite !andb_true_iff, !negb_true_iff in Hsafe.
  destruct Hsafe as [[[Hne Hextra] Hsrc] Hdan]. split; [done|]. split; [by apply bool_decide_eq_false in Hne|].
  split; [done|]. split; [by apply contains_dangerous_spec|]. split; [by apply no_extra_statement|].
  clearbody source. clear - Hok. destruct (bool_decide (_ = Some SqlServer)) eqn:Hd.
  - apply bool_decide_eq_true in Hd. rewrite Hd in *. cbn [andb] in Hok.
    destruct (List.length (split_sql_batches source) =? 1) eqn:Hb; [|done]. apply Nat.eqb_eq in Hb.
    cbn [negb explain_sql] in Hok. apply (inj Some) in Hok as <-.
    exists (c "SET SHOWPLAN_XML ON;" ++ [10%N] ++ c "GO" ++ [10%N]), ([10%N] ++ c "GO" ++ [10%N] ++ c "SET SHOWPLAN_XML OFF;").
    rewrite <-!app_assoc. split; [reflexivity|]. right. repeat split; exact Hb.
  - cbn [andb explain_sql] in Hok. apply (inj Some) in Hok as <-.
    match goal with |- ∃ _ _, ?t = _ ∧ _ =>
      assert (∃ prefix, t = prefix ++ source ∧ starts_with_t prefix (c "EXPLAIN ") = true) as (prefix & E & Hp) end.
    { destruct (database_type options) as [[]|]; try discriminate Hd;
        repeat match goal with |- context [if ?b then _ else _] => destruct b end;
        (eexists; split; [reflexivity|vm_compute; reflexivity]). }
    exists prefix, []. rewrite app_nil_r. split; [exact E|]. left. by split.
Qed.

(** A tokenizer that finds no word. *)
Definition wordless_tokenizer : SqlTokenizer := {| tokenize _ _ := Some [] |}.

Lemma read_only_bypass_witness :
  @check_read_only ascii_case wordless_tokenizer postgres_star_grant "prod" Postgres = Ok tt.
Proof.
  pose proof (@read_only_bypass ascii_case wordless_tokenizer "prod"%string) as HT.
  assert (Forall (λ sql, @contains_unquoted_keyword wordless_tokenizer sql PostgreSqlDialect "INTO" = false)
            [postgres_hash_delete; postgres_star_grant; postgres_backslash_grant]) as Hi by (repeat constructor).
  specialize (HT Hi). apply Forall_cons in HT as [_ HT]. apply Forall_cons in HT as [HT _]. exact HT.
Defined.

Definition explain_delete_string : ExplainSqlOptions :=
  mk_explain_options (Some Postgres) None (c " select 'delete' ; ").

Lemma explain_is_safe_witness :
  explain_sql (@build_explain_sql ascii_case explain_delete_string)
    = Some (c "EXPLAIN (FORMAT JSON) select 'delete'")
  ∧ is_safe_explain_source (H := ascii_case) (c "select 'delete'") = true.
Proof.
  assert (explain_sql (@build_explain_sql ascii_case explain_delete_string)
            = Some (c "EXPLAIN (FORMAT JSON) select 'delete'")) as Hok by (vm_compute; reflexivity).
  split; [exact Hok|]. pose proof (@explain_is_safe ascii_case _ _ Hok) as (_ & _ & Hs & _).
  refine (eq_ind _ (λ l, @is_safe_explain_source ascii_case l = true) Hs _ _). vm_compute. reflexivity.
Defined.
