(* ===== verification/TaskSupervisor.v ===== *)
(** * The task supervisor (task_supervisor.rs)

    Background tasks kept by key: at most one handle per key, replaced, started
    once, stopped, drained at shutdown. A method that works under the lock of the
    task map is one step; [shutdown] is three (the flag, the cancellation, the
    drain); the runtime polls, suspends, completes, panics or drops tasks in
    between. A task id stands for a [JoinHandle], the bodies are left open. *)
From S2P Require Import Prelude RustStr.
From stdpp Require Import relations.

(** What the runtime knows of a task. [AfterBody]: the body of a one-shot task
    has returned and its wrapper is about to remove its key, in the same poll. *)
Inductive Phase : Type := Suspended | Polling | AfterBody | Completed | Panicked | Aborted.

#[export] Instance phase_eq_dec : EqDecision Phase.
Proof. solve_decision. Defined.

Record Task := mk_task { task_key : string; once : bool; phase : Phase; abort_requested : bool }.

(** [pool] is the runtime, by task id; [drained] the handles [shutdown] took. *)
Record TaskSupervisor := mk_supervisor {
  accepting : bool;
  cancelled : bool;
  tasks : gmap string nat;
  pool : list Task;
  drained : list nat
}.

Definition TaskSupervisor_new : TaskSupervisor := mk_supervisor true false ∅ [] [].
(** The derived [Default]: [AtomicBool::default()] is false. *)
Definition TaskSupervisor_default : TaskSupervisor := mk_supervisor false false ∅ [] [].

Definition set_tasks (t : gmap string nat) (s : TaskSupervisor) : TaskSupervisor :=
  mk_supervisor (accepting s) (cancelled s) t (pool s) (drained s).
Definition set_pool (p : list Task) (s : TaskSupervisor) : TaskSupervisor :=
  mk_supervisor (accepting s) (cancelled s) (tasks s) p (drained s).

(** [JoinHandle::abort]: takes effect when the task is next scheduled. *)
Definition request_abort (t : Task) : Task := mk_task (task_key t) (once t) (phase t) true.
Definition abort (id : nat) (s : TaskSupervisor) : TaskSupervisor := set_pool (alter request_abort id (pool s)) s.

(** [tokio::spawn]. *)
Definition spawn (key : string) (one_shot : bool) (s : TaskSupervisor) : nat * TaskSupervisor :=
  (List.length (pool s), set_pool (pool s ++ [mk_task key one_shot Suspended false]) s).

Definition spawn_replace (key : string) (s : TaskSupervisor) : bool * TaskSupervisor :=
  if negb (accepting s) then (false, s)
  else
    let '(handle, s1) := spawn key false s in
    let s2 := set_tasks (<[key := handle]> (tasks s1)) s1 in
    match tasks s !! key with
    | Some previous => (true, abort previous s2)
    | None => (true, s2)
    end.

Definition spawn_once (key : string) (s : TaskSupervisor) : bool * TaskSupervisor :=
  if negb (accepting s) || bool_decide (is_Some (tasks s !! key)) then (false, s)
  else
    let '(handle, s1) := spawn key true s in
    (true, set_tasks (<[key := handle]> (tasks s1)) s1).

Definition stop (key : string) (s : TaskSupervisor) : TaskSupervisor :=
  match tasks s !! key with
  | Some task => abort task (set_tasks (delete key (tasks s)) s)
  | None => s
  end.

Definition stop_many (keys : list string) (s : TaskSupervisor) : TaskSupervisor := foldl (λ s k, stop k s) s keys.

Definition active_count (s : TaskSupervisor) : nat := size (tasks s).

Definition remove_completed (key : string) (s : TaskSupervisor) : TaskSupervisor :=
  set_tasks (delete key (tasks s)) s.

(** [shutdown]: the flag, the cancellation, the drain, the abort of whatever is
    left when the deadline passes. *)
Definition refuse_tasks (s : TaskSupervisor) : TaskSupervisor :=
  mk_supervisor false (cancelled s) (tasks s) (pool s) (drained s).
Definition cancel_tasks (s : TaskSupervisor) : TaskSupervisor :=
  mk_supervisor (accepting s) true (tasks s) (pool s) (drained s).
Definition drain (s : TaskSupervisor) : TaskSupervisor :=
  mk_supervisor (accepting s) (cancelled s) ∅ (pool s) (drained s ++ (map_to_list (tasks s)).*2).
Definition deadline_passed (s : TaskSupervisor) : TaskSupervisor := foldr abort s (drained s).

(** ** Interleaving *)

Definition set_phase (p : Phase) (t : Task) : Task := mk_task (task_key t) (once t) p (abort_requested t).
Definition move (id : nat) (p : Phase) (s : TaskSupervisor) : TaskSupervisor :=
  set_pool (alter (set_phase p) id (pool s)) s.

(** The keys of connection.rs come in two kinds: session cleanups are only ever
    spawned once, keepalives and activity updates are replaced and stopped. *)
Section Steps.
Context (one_shot : string → bool).

Inductive step : TaskSupervisor → TaskSupervisor → Prop :=
| step_spawn_replace s key : one_shot key = false → step s (spawn_replace key s).2
| step_spawn_once s key : one_shot key = true → step s (spawn_once key s).2
| step_stop s key : one_shot key = false → step s (stop key s)
| step_refuse s : step s (refuse_tasks s)
| step_cancel s : accepting s = false → step s (cancel_tasks s)
| step_drain s : accepting s = false → cancelled s = true → step s (drain s)
| step_deadline s : step s (deadline_passed s)
| step_schedule s id t : pool s !! id = Some t → phase t = Suspended →
    step s (move id (if abort_requested t then Aborted else Polling) s)
| step_suspend s id t : pool s !! id = Some t → phase t = Polling → step s (move id Suspended s)
| step_panic s id t : pool s !! id = Some t → phase t = Polling → step s (move id Panicked s)
| step_return s id t : pool s !! id = Some t → phase t = Polling →
    step s (move id (if once t then AfterBody else Completed) s)
| step_remove s id t : pool s !! id = Some t → phase t = AfterBody →
    step s (move id Completed (remove_completed (task_key t) s)).

Definition reachable (s : TaskSupervisor) : Prop := rtc step TaskSupervisor_new s.

(** ** Every task is accounted for *)

(** Why nobody loses task [id]: its handle is registered under its key, or a
    shutdown took it, or it is a replaced or stopped one, or a one-shot task that
    removed itself. *)
Definition supervised (s : TaskSupervisor) (id : nat) (t : Task) : Prop :=
  tasks s !! task_key t = Some id ∨ id ∈ drained s
  ∨ (once t = false ∧ abort_requested t = true) ∨ (once t = true ∧ phase t = Completed).

Record Inv (s : TaskSupervisor) : Prop := mk_inv {
  inv_handles k id : tasks s !! k = Some id → ∃ t, pool s !! id = Some t ∧ task_key t = k;
  inv_once id t : pool s !! id = Some t → once t = one_shot (task_key t);
  inv_after id t : pool s !! id = Some t → phase t = AfterBody → once t = true;
  inv_supervised id t : pool s !! id = Some t → supervised s id t;
  inv_drained : drained s ≠ [] → tasks s = ∅ ∧ accepting s = false
}.

Lemma alter_inv (f : Task → Task) (i : nat) (p : list Task) (id : nat) t' : alter f i p !! id = Some t' →
  ∃ t, p !! id = Some t ∧ (id ≠ i ∧ t' = t ∨ id = i ∧ t' = f t).
Proof.
  destruct (decide (id = i)) as [->|Hne].
  - rewrite list_lookup_alter_eq. intros (t & Ht & ->)%fmap_Some. eauto.
  - rewrite list_lookup_alter_ne by congruence. eauto.
Qed.

(** A change of phases and abort requests only. *)
Definition same_task (t t' : Task) : Prop :=
  task_key t' = task_key t ∧ once t' = once t ∧ (abort_requested t = true → abort_requested t' = true)
  ∧ (phase t = Completed → phase t' = Completed) ∧ (phase t' = AfterBody → phase t = AfterBody ∨ once t = true).

Lemma inv_pool s (p : list Task) : Inv s →
  (∀ (id : nat) t', p !! id = Some t' → ∃ t, pool s !! id = Some t ∧ same_task t t') →
  (∀ id : nat, is_Some (pool s !! id) → is_Some (p !! id)) → Inv (set_pool p s).
Proof.
  intros HI Hback Hfwd. constructor; simpl.
  - intros k id Hk. destruct (inv_handles _ HI k id Hk) as (t & Ht & Hkey).
    destruct (Hfwd id) as [t' Ht']; [by eauto|]. destruct (Hback id t' Ht') as (t2 & Ht2 & Hs).
    exists t'. split; [done|]. destruct Hs as [-> _]. congruence.
  - intros id t' Ht'. destruct (Hback id t' Ht') as (t & Ht & -> & -> & _). by eapply inv_once.
  - intros id t' Ht' Hp. destruct (Hback id t' Ht') as (t & Ht & _ & -> & _ & _ & Ha).
    destruct (Ha Hp) as [Hq|Hq]; [by eapply inv_after|done].
  - intros id t' Ht'. destruct (Hback id t' Ht') as (t & Ht & Hk & Ho & Hb & Hc & _). unfold supervised. simpl.
    rewrite Hk, Ho. destruct (inv_supervised _ HI id t Ht) as [?|[?|[[? ?]|[? ?]]]]; auto 6.
  - apply (inv_drained _ HI).
Qed.

Lemma same_task_refl t : same_task t t.
Proof. repeat split; auto. Qed.

Lemma inv_alter s (f : Task → Task) i : Inv s → (∀ t, pool s !! i = Some t → same_task t (f t)) →
  Inv (set_pool (alter f i (pool s)) s).
Proof.
  intros HI Hf. apply inv_pool; [done| |].
  - intros id t' (t & Ht & [[_ ->]|[-> ->]])%alter_inv; eauto using same_task_refl.
  - intros id [t Ht]. destruct (decide (id = i)) as [->|Hne].
    + rewrite list_lookup_alter_eq, Ht. eauto.
    + rewrite list_lookup_alter_ne by congruence. eauto.
Qed.

Lemma inv_abort s i : Inv s → Inv (abort i s).
Proof. intros HI. apply inv_alter; [done|]. intros t _. by repeat split; auto. Qed.

Lemma inv_move s i p t : Inv s → pool s !! i = Some t → phase t ≠ Completed →
  (p = AfterBody → once t = true) → Inv (move i p s).
Proof.
  intros HI Ht Hn Hp. apply inv_alter; [done|]. intros t0 Ht0. assert (t0 = t) as -> by congruence.
  repeat split; auto; done.
Qed.

Lemma inv_spawn s key o : Inv s → accepting s = true → o = one_shot key →
  (∀ (id : nat) t, pool s !! id = Some t → task_key t = key → tasks s !! key = Some id →
     once t = false ∧ abort_requested t = true) →
  Inv (let '(handle, s1) := spawn key o s in set_tasks (<[key := handle]> (tasks s1)) s1).
Proof.
  intros HI Hacc Ho Hold. simpl.
  assert (drained s = []) as Hd.
  { destruct (drained s) eqn:E; [done|]. destruct (inv_drained _ HI) as [_ Hf]; [by rewrite E|congruence]. }
  assert (∀ (id : nat) t, (pool s ++ [mk_task key o Suspended false]) !! id = Some t →
            pool s !! id = Some t ∨ id = List.length (pool s) ∧ t = mk_task key o Suspended false) as Hpool.
  { intros id t [Ht|[Hlen Ht]]%lookup_app_Some; [by left|]. right.
    apply list_lookup_singleton_Some in Ht as [Hz <-]. split; [lia|done]. }
  constructor; simpl.
  - intros k id. destruct (decide (k = key)) as [->|Hne].
    + rewrite lookup_insert_eq. intros [= <-]. eexists. rewrite lookup_app_r, Nat.sub_diag by lia. by split.
    + rewrite lookup_insert_ne by congruence. intros Hk. destruct (inv_handles _ HI k id Hk) as (t & Ht & Hkey).
      exists t. by rewrite lookup_app_l by (by eapply lookup_lt_Some).
  - intros id t [Ht|[_ ->]]%Hpool; [by eapply inv_once|done].
  - intros id t [Ht|[_ ->]]%Hpool; [by eapply inv_after|done].
  - intros id t [Ht|[-> ->]]%Hpool; unfold supervised; simpl; [|left; by rewrite lookup_insert_eq].
    destruct (inv_supervised _ HI id t Ht) as [Hm|[Hm|Hm]]; [|auto..].
    destruct (decide (task_key t = key)) as [Hk|Hk].
    + rewrite Hk in Hm. right. right. left. by eapply Hold.
    + left. by rewrite lookup_insert_ne by congruence.
  - by rewrite Hd.
Qed.

Lemma inv_spawn_replace s key : Inv s → one_shot key = false → Inv (spawn_replace key s).2.
Proof.
  intros HI Ho.
  unfold spawn_replace. destruct (accepting s) eqn:Ha; [|exact HI]. simpl.
  destruct (tasks s !! key) as [previous|] eqn:Hk.
  - destruct (inv_handles _ HI _ _ Hk) as (tp & Htp & Hkey).
    pose proof (inv_spawn (abort previous s) key false (inv_abort s previous HI) Ha (eq_sym Ho)) as Hsp.
    simpl in Hsp. unfold abort, set_tasks, set_pool in *. simpl in *.
    rewrite length_alter, <-alter_app_l in Hsp by (by eapply lookup_lt_Some). apply Hsp.
    intros id t (t0 & Ht0 & [[Hne ->]|[-> ->]])%alter_inv Htk Hid; [congruence|]. simpl. split; [|done].
    rewrite (inv_once _ HI _ _ Ht0). simpl in Htk. by rewrite Htk.
  - apply (inv_spawn s key false HI Ha (eq_sym Ho)). intros id t _ _ Hid. congruence.
Qed.

Lemma inv_stop s key : Inv s → one_shot key = false → Inv (stop key s).
Proof.
  intros HI Ho.
  unfold stop. destruct (tasks s !! key) as [i|] eqn:Hk; [|exact HI].
  constructor; simpl.
  - intros k id (Hne & Hid)%lookup_delete_Some. destruct (inv_handles _ HI k id Hid) as (t & Ht & Hkey).
    destruct (decide (id = i)) as [->|Hn].
    + rewrite list_lookup_alter_eq, Ht. simpl. eauto.
    + rewrite list_lookup_alter_ne by congruence. eauto.
  - intros id t' (t & Ht & [[_ ->]|[_ ->]])%alter_inv; exact (inv_once _ HI id t Ht).
  - intros id t' (t & Ht & [[_ ->]|[_ ->]])%alter_inv; exact (inv_after _ HI id t Ht).
  - intros id t' (t & Ht & Hc)%alter_inv. unfold supervised. simpl.
    destruct (decide (id = i)) as [->|Hn].
    + destruct Hc as [[? _]|[_ ->]]; [done|]. right. right. left. simpl. split; [|done].
      destruct (inv_handles _ HI _ _ Hk) as (t0 & Ht0 & Hkey). rewrite (inv_once _ HI _ _ Ht). congruence.
    + destruct Hc as [[_ ->]|[? _]]; [|done]. destruct (inv_supervised _ HI id t Ht) as [Hm|Hm]; [left|by right].
      rewrite lookup_delete_ne; [done|]. intros E. rewrite <-E in Hm. congruence.
  - intros Hd. destruct (inv_drained _ HI Hd) as [He ?]. by rewrite He, lookup_empty in Hk.
Qed.

Lemma inv_drain s : Inv s → accepting s = false → Inv (drain s).
Proof.
  intros HI Hacc.
  constructor; simpl; try apply HI.
  - intros k id. by rewrite lookup_empty.
  - intros id t Ht. unfold supervised. simpl. rewrite elem_of_app.
    destruct (inv_supervised _ HI id t Ht) as [Hm|[Hm|Hm]]; [|auto..]. right. left. right.
    apply list_elem_of_fmap. exists (task_key t, id). split; [done|]. by apply elem_of_map_to_list.
  - by intros _.
Qed.

Lemma inv_remove s id t : Inv s → pool s !! id = Some t → phase t = AfterBody →
  Inv (move id Completed (remove_completed (task_key t) s)).
Proof.
  intros HI Ht Hp.
  pose proof (inv_after _ HI _ _ Ht Hp) as Honce.
  assert (tasks s !! task_key t = Some id ∨ tasks s = ∅) as Hreg.
  { destruct (inv_supervised _ HI id t Ht) as [Hm|[Hm|[[? _]|[_ ?]]]]; [by left| |congruence..].
    right. apply (inv_drained _ HI). intros He. rewrite He in Hm. by inversion Hm. }
  constructor; simpl.
  - intros k id' (Hne & Hid)%lookup_delete_Some. destruct (inv_handles _ HI k id' Hid) as (t0 & Ht0 & Hkey).
    destruct (decide (id' = id)) as [->|Hn].
    + rewrite list_lookup_alter_eq, Ht0. simpl. eauto.
    + rewrite list_lookup_alter_ne by congruence. eauto.
  - intros i t' (t0 & Ht0 & [[_ ->]|[_ ->]])%alter_inv; exact (inv_once _ HI i t0 Ht0).
  - intros i t' (t0 & Ht0 & [[_ ->]|[_ ->]])%alter_inv; [exact (inv_after _ HI i t0 Ht0)|done].
  - intros i t' (t0 & Ht0 & [[Hn ->]|[-> ->]])%alter_inv; unfold supervised; simpl.
    + destruct (inv_supervised _ HI i t0 Ht0) as [Hm|Hm]; [left|by right].
      destruct Hreg as [Hreg|He]; [|by rewrite He, lookup_empty in Hm].
      rewrite lookup_delete_ne; [done|]. intros E. rewrite E in Hreg. congruence.
    + right. right. right. split; [|done]. congruence.
  - intros Hd. destruct (inv_drained _ HI Hd) as [He ?]. split; [|done]. by rewrite He, delete_empty.
Qed.

Lemma inv_step s s' : Inv s → step s s' → Inv s'.
Proof.
  intros HI. destruct 1 as [s key Ho|s key Ho|s key Ho|s|s Hacc|s Hacc Hc|s|s id t Ht Hp|s id t Ht Hp|s id t Ht Hp
    |s id t Ht Hp|s id t Ht Hp].
  - by apply inv_spawn_replace.
  - unfold spawn_once. destruct (accepting s) eqn:Ha; [|exact HI]. simpl.
    destruct (bool_decide (is_Some (tasks s !! key))) eqn:Hk; [exact HI|]. apply bool_decide_eq_false in Hk.
    apply (inv_spawn s key true HI Ha (eq_sym Ho)). intros id t _ _ Hid. destruct Hk. eauto.
  - by apply inv_stop.
  - destruct HI. constructor; simpl; try done. intros Hd. destruct (inv_drained0 Hd) as [? _]. by split.
  - destruct HI. by constructor.
  - by apply inv_drain.
  - unfold deadline_passed. induction (drained s) as [|i l IH]; simpl; [done|by apply inv_abort].
  - apply (inv_move s id _ t); [done..|congruence|]. by destruct (abort_requested t).
  - apply (inv_move s id _ t); [done..|congruence|done].
  - apply (inv_move s id _ t); [done..|congruence|done].
  - apply (inv_move s id _ t); [done..|congruence|]. by destruct (once t).
  - by apply inv_remove.
Qed.

Lemma inv_reachable s : reachable s → Inv s.
Proof.
  intros Hr. unfold reachable in Hr. assert (Inv TaskSupervisor_new) as H0.
  { constructor; simpl; intros; try done. }
  revert H0. induction Hr as [s|s1 s2 s3 Hs _ IH]; [done|]. intros H1. apply IH. by eapply inv_step.
Qed.

(** ** What a step keeps *)

Definition kept (t t' : Task) : Prop :=
  task_key t' = task_key t ∧ once t' = once t ∧ (abort_requested t = true → abort_requested t' = true)
  ∧ (phase t = Panicked → phase t' = Panicked) ∧ (phase t = Completed → phase t' = Completed).

#[local] Instance kept_preorder : PreOrder kept.
Proof. split; [by repeat split|]. unfold kept. intros t1 t2 t3 (?&?&?&?&?) (?&?&?&?&?). repeat split; try congruence; auto. Qed.

Definition keeps (s s' : TaskSupervisor) : Prop := ∀ (id : nat) t, pool s !! id = Some t → ∃ t', pool s' !! id = Some t' ∧ kept t t'.

#[local] Instance keeps_preorder : PreOrder keeps.
Proof.
  split; [intros s id t Ht; by exists t|]. intros s1 s2 s3 H1 H2 id t Ht. destruct (H1 _ _ Ht) as (t2 & Ht2 & K1).
  destruct (H2 _ _ Ht2) as (t3 & Ht3 & K2). exists t3. split; [done|]. by etrans.
Qed.

Lemma keeps_alter (f : Task → Task) i s p : p = pool s → (∀ t, p !! i = Some t → kept t (f t)) →
  keeps s (set_pool (alter f i p) s).
Proof.
  intros -> Hf id t Ht. simpl. destruct (decide (id = i)) as [->|Hne].
  - rewrite list_lookup_alter_eq, Ht. simpl. eauto.
  - rewrite list_lookup_alter_ne by congruence. exists t. by split.
Qed.

Lemma keeps_abort i s : keeps s (abort i s).
Proof. apply keeps_alter; [done|]. intros t _. by repeat split. Qed.

Lemma keeps_move i p s t : pool s !! i = Some t → phase t ≠ Panicked → phase t ≠ Completed → keeps s (move i p s).
Proof. intros Ht H1 H2. apply keeps_alter; [done|]. intros t0 Ht0. assert (t0 = t) as -> by congruence. by repeat split. Qed.

Lemma keeps_same_pool s s' : pool s' = pool s → keeps s s'.
Proof. intros E id t Ht. rewrite E. exists t. by split. Qed.

Lemma keeps_deadline s : keeps s (deadline_passed s).
Proof. unfold deadline_passed. induction (drained s) as [|i l IH]; simpl; [done|]. etrans; [exact IH|apply keeps_abort]. Qed.

Lemma keeps_spawn s key o : keeps s (spawn key o s).2.
Proof. intros id t Ht. exists t. split; [|done]. simpl. by rewrite lookup_app_l by (by eapply lookup_lt_Some). Qed.

Lemma step_keeps s s' : step s s' → keeps s s'.
Proof.
  destruct 1; try (by apply keeps_same_pool); try (eapply keeps_move; [done|congruence..]).
  - unfold spawn_replace. destruct (accepting s); [|done]. cbn [negb].
    pose proof (keeps_spawn s key false) as Hsp. destruct (spawn key false s) as [handle s1]. cbn [snd] in *.
    destruct (tasks s !! key) as [previous|]; cbn [snd]; [|done]. etrans; [|apply keeps_abort]. exact Hsp.
  - unfold spawn_once. case_match; [done|]. apply (keeps_spawn s key true).
  - unfold stop. destruct (tasks s !! key); [|done]. etrans; [|apply keeps_abort]. by apply keeps_same_pool.
  - apply keeps_deadline.
  - etrans; [by apply (keeps_same_pool _ (remove_completed (task_key t) s))|]. eapply keeps_move; [done|congruence..].
Qed.

Lemma steps_keep s s' : rtc step s s' → keeps s s'.
Proof. induction 1; [done|]. etrans; [by apply step_keeps|done]. Qed.

Lemma deadline_fields s : accepting (deadline_passed s) = accepting s ∧ tasks (deadline_passed s) = tasks s
  ∧ drained (deadline_passed s) = drained s ∧ List.length (pool (deadline_passed s)) = List.length (pool s).
Proof.
  unfold deadline_passed. generalize (drained s) at 1 2 3 5. intros l.
  induction l as [|i l (H1 & H2 & H3 & H4)]; simpl; rewrite ?length_alter; by split_and!.
Qed.

(** Nothing new starts once the flag is down. *)
Lemma step_refused s s' : step s s' → accepting s = false →
  accepting s' = false ∧ List.length (pool s') = List.length (pool s).
Proof.
  intros Hs Ha. destruct Hs; try (simpl; by rewrite ?length_alter).
  - unfold spawn_replace. by rewrite Ha.
  - unfold spawn_once. by rewrite Ha.
  - unfold stop. destruct (tasks s !! key); [|done]. simpl. by rewrite length_alter.
  - destruct (deadline_fields s) as (-> & _ & _ & ->). done.
Qed.

Lemma steps_refused s s' : rtc step s s' → accepting s = false →
  accepting s' = false ∧ List.length (pool s') = List.length (pool s).
Proof.
  induction 1 as [|s1 s2 s3 Hs _ IH]; [done|]. intros Ha. destruct (step_refused _ _ Hs Ha) as [Ha' <-]. auto.
Qed.

Lemma deadline_aborts s (id : nat) t : id ∈ drained s → pool (deadline_passed s) !! id = Some t → abort_requested t = true.
Proof.
  unfold deadline_passed. induction (drained s) as [|i l IH]; simpl; [by inversion 1|].
  intros Hin (t0 & Ht0 & [[Hne ->]|[-> ->]])%alter_inv; [|done].
  apply elem_of_cons in Hin as [->|Hin]; [done|]. by apply IH.
Qed.
End Steps.

(** No task is lost, in any interleaving of the supervisor's calls with the
    runtime. In every reachable state a task that did not finish by removing its
    own key is registered under its key, or was taken by a shutdown, or was
    replaced or stopped and has its abort requested; so before a shutdown two
    live tasks never share a key, and after one the map stays empty. *)
Theorem tasks_supervised one_shot s (Hr : reachable one_shot s) :
  (∀ id t, pool s !! id = Some t →
     tasks s !! task_key t = Some id ∨ id ∈ drained s
     ∨ (one_shot (task_key t) = false ∧ abort_requested t = true)
     ∨ (one_shot (task_key t) = true ∧ phase t = Completed))
  ∧ (∀ id1 id2 t1 t2, drained s = [] → pool s !! id1 = Some t1 → pool s !! id2 = Some t2 → task_key t1 = task_key t2 →
       phase t1 ≠ Completed → phase t2 ≠ Completed → abort_requested t1 = false → abort_requested t2 = false → id1 = id2)
  ∧ (drained s ≠ [] → tasks s = ∅ ∧ accepting s = false).
Proof.
  apply inv_reachable in Hr as HI. split_and!; [| |by apply HI].
  - intros id t Ht. rewrite <-(inv_once _ _ HI _ _ Ht). by apply HI.
  - intros id1 id2 t1 t2 Hd H1 H2 Hk P1 P2 A1 A2.
    assert (∀ id t, pool s !! id = Some t → phase t ≠ Completed → abort_requested t = false →
      tasks s !! task_key t = Some id) as Hreg.
    { intros id t Ht Hp Ha. destruct (inv_supervised _ _ HI id t Ht) as [?|[Hin|[[_ ?]|[_ ?]]]]; [done| |congruence..].
      rewrite Hd in Hin. by inversion Hin. }
    pose proof (Hreg _ _ H1 P1 A1). pose proof (Hreg _ _ H2 P2 A2). congruence.
Qed.

(** After a first shutdown has run to its deadline, nothing survives it: the
    map is empty, every task either removed itself or has its abort requested,
    and from then on no call ever starts a task, no matter what else happens. *)
Theorem shutdown_is_final one_shot s s' (Hr : reachable one_shot s) (Hd : drained s = [])
    (Hl : rtc (step one_shot) (deadline_passed (drain (cancel_tasks (refuse_tasks s)))) s') :
  accepting s' = false ∧ List.length (pool s') = List.length (pool s)
  ∧ (∀ key, spawn_replace key s' = (false, s') ∧ spawn_once key s' = (false, s'))
  ∧ ∀ id t, pool s' !! id = Some t → abort_requested t = true ∨ one_shot (task_key t) = true ∧ phase t = Completed.
Proof.
  set (s0 := drain (cancel_tasks (refuse_tasks s))) in *. destruct (deadline_fields s0) as (Ha & _ & _ & Hlen).
  pose proof (steps_refused _ _ _ Hl Ha) as [Ha' Hlen']. rewrite Hlen in Hlen'.
  split; [done|]. split; [done|]. split.
  { intros key. unfold spawn_replace, spawn_once. by rewrite Ha'. }
  intros id t Ht. pose proof (steps_keep _ _ _ Hl) as Hk.
  destruct (pool (deadline_passed s0) !! id) as [t1|] eqn:E1.
  2: { apply lookup_ge_None in E1. apply lookup_lt_Some in Ht. rewrite Hlen in E1. lia. }
  destruct (Hk _ _ E1) as (t2 & Ht2 & Hkey & Honce & Hab & _ & Hcomp). assert (t2 = t) as -> by congruence. clear Ht2.
  destruct (pool s !! id) as [t0|] eqn:E0.
  2: { apply lookup_ge_None in E0. apply lookup_lt_Some in E1. rewrite Hlen in E1. simpl in E1. lia. }
  destruct (keeps_deadline s0 id t0 E0) as (t2 & Ht2 & Hkey0 & Honce0 & Hab0 & _ & Hcomp0).
  assert (t2 = t1) as -> by congruence. clear Ht2. apply inv_reachable in Hr as HI.
  destruct (inv_supervised _ _ HI id t0 E0) as [Hm|[Hin|[[_ ?]|[Ho Hc]]]].
  - left. apply Hab. apply (deadline_aborts s0 id t1); [|done]. simpl. apply elem_of_app. right.
    apply list_elem_of_fmap. exists (task_key t0, id). split; [done|]. by apply elem_of_map_to_list.
  - rewrite Hd in Hin. by inversion Hin.
  - left. auto.
  - right. split; [|auto]. rewrite Hkey, Hkey0, <-(inv_once _ _ HI _ _ E0). done.
Qed.

(** A one-shot task that panics blocks its key for good: it never removes
    itself, and until a shutdown every later attempt to start that one-shot task
    is refused and counted as still running. *)
Theorem panic_blocks_one_shot one_shot s s' id t (Hr : reachable one_shot s) (Ht : pool s !! id = Some t)
    (Ho : one_shot (task_key t) = true) (Hp : phase t = Panicked)
    (Hl : rtc (step one_shot) s s') (Hd : drained s' = []) :
  spawn_once (task_key t) s' = (false, s') ∧ 0 < active_count s'.
Proof.
  destruct (steps_keep _ _ _ Hl id t Ht) as (t' & Ht' & Hk & Ho' & _ & Hp' & _).
  assert (reachable one_shot s') as Hr' by (unfold reachable in *; by etrans). apply inv_reachable in Hr' as HI, Hr as HI0.
  assert (tasks s' !! task_key t = Some id) as Hm.
  { rewrite <-Hk. destruct (inv_supervised _ _ HI id t' Ht') as [?|[Hin|[[? _]|[_ ?]]]]; [done| | |].
    - rewrite Hd in Hin. by inversion Hin.
    - pose proof (inv_once _ _ HI _ _ Ht'). congruence.
    - rewrite (Hp' Hp) in *. congruence. }
  split.
  - unfold spawn_once. rewrite bool_decide_eq_true_2 by eauto. by rewrite orb_true_r.
  - unfold active_count. enough (size (tasks s') ≠ 0) by lia. intros Hz%map_size_empty_inv.
    by rewrite Hz, lookup_empty in Hm.
Qed.

(** ** Witnesses *)

Definition cleanup_once (k : string) : bool := bool_decide (k = "cleanup"%string).
Definition panicked : TaskSupervisor := move 0 Panicked (move 0 Polling (spawn_once "cleanup" TaskSupervisor_new).2).

Lemma panicked_reachable : reachable cleanup_once panicked.
Proof.
  eapply rtc_l; [by apply (step_spawn_once _ _ "cleanup")|].
  eapply rtc_l; [by apply (step_schedule _ _ 0 (mk_task "cleanup" true Suspended false))|].
  eapply rtc_l; [by apply (step_panic _ _ 0 (mk_task "cleanup" true Polling false))|]. apply rtc_refl.
Qed.

Lemma tasks_supervised_witness : tasks panicked !! "cleanup"%string = Some 0.
Proof.
  destruct (tasks_supervised cleanup_once panicked panicked_reachable) as [Hs _].
  destruct (Hs 0 (mk_task "cleanup" true Panicked false) eq_refl) as [Hm|[Hm|[[Hm _]|[_ Hm]]]];
    [exact Hm|by inversion Hm|discriminate Hm|discriminate Hm].
Defined.

Lemma shutdown_is_final_witness :
  (spawn_once "other" (deadline_passed (drain (cancel_tasks (refuse_tasks panicked))))).1 = false.
Proof.
  destruct (shutdown_is_final cleanup_once panicked _ panicked_reachable eq_refl (rtc_refl _ _)) as (_ & _ & Hs & _).
  by rewrite (proj2 (Hs "other"%string)).
Defined.

Lemma panic_blocks_one_shot_witness : spawn_once "cleanup" panicked = (false, panicked).
Proof.
  apply (panic_blocks_one_shot cleanup_once panicked panicked 0 (mk_task "cleanup" true Panicked false));
    [exact panicked_reachable|reflexivity|reflexivity|reflexivity|apply rtc_refl|reflexivity].
Defined.
