(* ===== verification/Batch.v ===== *)
(** * Batches over connections (dbx-mcp/src/batch.rs)

    One worker per connection, in sequence or as tasks behind a semaphore. A
    worker's outcome is a function of its connection and index ([None]: it
    panics); the interleaving of the tasks is a step relation of its own, so that
    what does not depend on it is stated apart from what does. *)
From S2P Require Import Prelude RustStr ListIndex.
From stdpp Require Import relations.

Inductive BatchItem (T : Type) : Type :=
| ItemOk (index : nat) (value : T)
| ItemErr (index : nat) (name code message : string)
| Skipped (index : nat) (name code message : string).
Arguments ItemOk {T}.
Arguments ItemErr {T}.
Arguments Skipped {T}.

Definition item_index {T} (item : BatchItem T) : nat :=
  match item with ItemOk index _ | ItemErr index _ _ _ | Skipped index _ _ _ => index end.

Definition batch_summary (total ok skipped failures : nat) : string :=
  "---" +:+ newline +:+ "Batch summary: " +:+ pretty total +:+ " connection(s), " +:+ pretty ok +:+ " ok, "
  +:+ pretty skipped +:+ " skipped, " +:+ pretty failures +:+ " failed.".

Definition count_item {T} (counts : nat * nat * nat) (item : BatchItem T) : nat * nat * nat :=
  let '(ok, skipped, failures) := counts in
  match item with
  | ItemOk _ _ => (S ok, skipped, failures)
  | Skipped _ _ _ _ => (ok, S skipped, failures)
  | ItemErr _ _ _ _ => (ok, skipped, S failures)
  end.
Definition count_batch {T} (items : list (BatchItem T)) : nat * nat * nat := foldl count_item (0, 0, 0) items.

(** How many tasks may run at once; [configs] is not empty. *)
Definition concurrency (parallel : option nat) (configs : nat) : nat :=
  Nat.min (Nat.max (default DEFAULT_PARALLEL_CONCURRENCY parallel) 1) configs.

Section Batch.
Context {ConnectionConfig T : Type} (name : ConnectionConfig → string).
Context (worker : ConnectionConfig → nat → option (result T (string * string * bool))).
(** [JoinError::to_string] of the task that panicked. *)
Context (join_error : nat → string).

Definition batch_heading (config : ConnectionConfig) (index total : nat) : string :=
  if total <=? 1 then "" else "## #" +:+ pretty index +:+ " " +:+ name config +:+ newline +:+ newline.

Definition run_one (config : ConnectionConfig) (index : nat) : option (BatchItem T) :=
  outcome ← worker config index;
  Some (match outcome with
        | Ok value => ItemOk index value
        | Err (code, message, true) => Skipped index (name config) code message
        | Err (code, message, false) => ItemErr index (name config) code message
        end).

(** A panic of the worker ends the sequential loop and its caller. *)
Fixpoint run_sequential (configs : list ConnectionConfig) (index : nat) (results : list (BatchItem T))
    : option (list (BatchItem T)) :=
  match configs with
  | [] => Some results
  | config :: configs' => item ← run_one config index; run_sequential configs' (S index) (results ++ [item])
  end.

(** The handles are joined in the order of the connections. *)
Fixpoint join_all (handles : list (option (BatchItem T))) (results : list (BatchItem T)) : list (BatchItem T) :=
  match handles with
  | [] => results
  | Some item :: handles' => join_all handles' (results ++ [item])
  | None :: handles' =>
      let i := List.length results in
      join_all handles' (results ++ [ItemErr i "" "JOIN_ERROR" (join_error i)])
  end.

Definition run_connection_batch (configs : list ConnectionConfig) (parallel : option nat)
    : option (list (BatchItem T)) :=
  match configs with
  | [] => Some []
  | _ =>
      if (List.length configs =? 1) || match parallel with None => true | Some _ => false end
      then run_sequential configs 0 []
      else
        let handles := imap (λ index config, run_one config index) configs in
        Some (sort_by_key (λ item, Z.of_nat (item_index item)) (join_all handles []))
  end.
End Batch.

(** ** The semaphore *)

Inductive TaskPhase : Type := Waiting | Working | Joined.

#[export] Instance task_phase_eq_dec : EqDecision TaskPhase.
Proof. solve_decision. Defined.

Record Schedule := mk_schedule { permits : nat; phases : list TaskPhase }.

Definition spawned (permits n : nat) : Schedule := mk_schedule permits (replicate n Waiting).

(** A task acquires a permit before its worker starts and drops it when the task
    ends, by a return or a panic. *)
Inductive sched : Schedule → Schedule → Prop :=
| sched_acquire p ts i : ts !! i = Some Waiting → sched (mk_schedule (S p) ts) (mk_schedule p (<[i := Working]> ts))
| sched_finish p ts i : ts !! i = Some Working → sched (mk_schedule p ts) (mk_schedule (S p) (<[i := Joined]> ts)).

Definition working (s : Schedule) : nat := List.length (List.filter (λ t, bool_decide (t = Working)) (phases s)).
Definition finished (s : Schedule) : Prop := Forall (eq Joined) (phases s).

(** ** Theorems *)

Definition outcome_item {C T} (name : C → string) (join_error : nat → string)
    (worker : C → nat → option (result T (string * string * bool))) (i : nat) (config : C) : BatchItem T :=
  match worker config i with
  | Some (Ok value) => ItemOk i value
  | Some (Err (code, message, skipped)) =>
      if skipped then Skipped i (name config) code message else ItemErr i (name config) code message
  | None => ItemErr i "" "JOIN_ERROR" (join_error i)
  end.

Section Lemmas.
Context {C T : Type} (name : C → string) (worker : C → nat → option (result T (string * string * bool))).
Context (join_error : nat → string).

Lemma run_one_item c i : is_Some (worker c i) → run_one name worker c i = Some (outcome_item name join_error worker i c).
Proof. unfold run_one, outcome_item. intros [r ->]. simpl. destruct r as [v|[[code msg] []]]; reflexivity. Qed.

Lemma run_one_None c i : worker c i = None → run_one name worker c i = None.
Proof. unfold run_one. by intros ->. Qed.

Lemma run_sequential_spec cs : ∀ k acc,
  (∀ i c, cs !! i = Some c → is_Some (worker c (k + i))) →
  run_sequential name worker cs k acc = Some (acc ++ imap (λ i, outcome_item name join_error worker (k + i)) cs).
Proof.
  induction cs as [|c cs IH]; intros k acc Hw; cbn [run_sequential]; [by rewrite app_nil_r|].
  rewrite (run_one_item c k) by (rewrite <-(Nat.add_0_r k); by apply (Hw 0)). simpl.
  rewrite IH by (intros i c' Hi; replace (S k + i) with (k + S i) by lia; by apply (Hw (S i))).
  rewrite <-app_assoc, Nat.add_0_r. simpl. do 3 f_equal. apply imap_ext. intros i x _. simpl. f_equal. lia.
Qed.

Lemma join_all_spec cs : ∀ acc,
  join_all join_error (imap (λ i c, run_one name worker c (List.length acc + i)) cs) acc
  = acc ++ imap (λ i, outcome_item name join_error worker (List.length acc + i)) cs.
Proof.
  induction cs as [|c cs IH]; intros acc; cbn [imap join_all]; [by rewrite app_nil_r|].
  assert (∀ item, join_all join_error
            (imap ((λ i c0, run_one name worker c0 (List.length acc + i)) ∘ S) cs) (acc ++ [item])
          = acc ++ item :: imap ((λ i, outcome_item name join_error worker (List.length acc + i)) ∘ S) cs) as Hstep.
  { intros item. specialize (IH (acc ++ [item])). rewrite length_app, <-app_assoc in IH. simpl in IH.
    etrans; [|etrans; [exact IH|]].
    - f_equal. apply imap_ext. intros i x _. simpl. f_equal. lia.
    - do 2 f_equal. apply imap_ext. intros i x _. simpl. f_equal. lia. }
  rewrite Nat.add_0_r. destruct (worker c (List.length acc)) as [r|] eqn:E.
  - rewrite run_one_item by (by rewrite E). apply Hstep.
  - rewrite run_one_None by done. unfold outcome_item at 1. rewrite E. apply Hstep.
Qed.

Lemma outcome_item_index i c : item_index (outcome_item name join_error worker i c) = i.
Proof. unfold outcome_item. by destruct (worker c i) as [[|[[] []]]|]. Qed.
End Lemmas.

Lemma sort_by_key_sorted {A} (key : A → Z) l : StronglySorted (λ x y, key x ≤ key y)%Z l → sort_by_key key l = l.
Proof.
  induction 1 as [|x l Hs IH Hx]; [done|]. unfold sort_by_key in *. cbn [foldr]. rewrite IH.
  destruct l as [|y l]; [done|]. cbn [sort_insert]. apply Forall_cons in Hx as [Hxy _]. by apply Z.leb_le in Hxy as ->.
Qed.

Lemma outcome_items_sorted {C T} (name : C → string) join_error (worker : C → nat → option (result T _)) cs : ∀ k,
  StronglySorted (λ x y, Z.of_nat (item_index x) ≤ Z.of_nat (item_index y))%Z
    (imap (λ i, outcome_item name join_error worker (k + i)) cs).
Proof.
  induction cs as [|c cs IH]; intros k; cbn [imap]; constructor.
  - erewrite imap_ext; [exact (IH (S k))|]. intros i x _. simpl. f_equal. lia.
  - apply Forall_forall. intros item (i & x & -> & _)%elem_of_lookup_imap. simpl. rewrite !outcome_item_index. lia.
Qed.

(** What a batch returns, whatever the interleaving of its tasks: one item
    per connection, in the order of the connections and with its index. A
    parallel batch always returns, and a panic becomes the JOIN_ERROR item of its
    own connection only; a sequential one (one connection, or no parallelism)
    returns the same items when no worker panics. *)
Theorem batch_result {C T} (name : C → string) (worker : C → nat → option (result T (string * string * bool)))
    join_error configs parallel
    (Hw : (parallel = None ∨ List.length configs ≤ 1) → ∀ i c, configs !! i = Some c → is_Some (worker c i)) :
  run_connection_batch name worker join_error configs parallel
  = Some (imap (outcome_item name join_error worker) configs).
Proof.
  destruct configs as [|c cs]; [done|]. unfold run_connection_batch. set (l := c :: cs) in *.
  destruct ((List.length l =? 1) || _) eqn:Hseq.
  - rewrite (run_sequential_spec _ _ join_error) by
      (simpl; apply Hw; apply orb_true_iff in Hseq as [H%Nat.eqb_eq|H]; [right; lia|left; by destruct parallel]).
    done.
  - f_equal. etrans; [apply f_equal; exact (join_all_spec name worker join_error l [])|].
    apply sort_by_key_sorted. apply (outcome_items_sorted name join_error worker l 0).
Qed.

Lemma working_insert ts i t t' : ts !! i = Some t →
  List.length (List.filter (λ t, bool_decide (t = Working)) (<[i := t']> ts)) + (if bool_decide (t = Working) then 1 else 0)
  = List.length (List.filter (λ t, bool_decide (t = Working)) ts) + (if bool_decide (t' = Working) then 1 else 0).
Proof.
  revert i. induction ts as [|u ts IH]; intros [|i] Hi; simplify_eq/=.
  - destruct (bool_decide (t = Working)), (bool_decide (t' = Working)); simpl; lia.
  - specialize (IH _ Hi). destruct (bool_decide (u = Working)); simpl; lia.
Qed.

Lemma sched_permits s s' : sched s s' → permits s' + working s' = permits s + working s.
Proof.
  destruct 1 as [p ts i Hi|p ts i Hi]; unfold working; simpl;
    [pose proof (working_insert ts i _ Working Hi) as Hc|pose proof (working_insert ts i _ Joined Hi) as Hc];
    simpl in Hc; lia.
Qed.

Definition weight (t : TaskPhase) : nat := match t with Waiting => 2 | Working => 1 | Joined => 0 end.
Definition remaining (s : Schedule) : nat := sum_list (weight <$> phases s).

Lemma weight_insert ts i t t' : ts !! i = Some t →
  sum_list (weight <$> <[i := t']> ts) + weight t = sum_list (weight <$> ts) + weight t'.
Proof.
  revert i. induction ts as [|u ts IH]; intros [|i] Hi; simplify_eq/=; [lia|]. specialize (IH _ Hi). lia.
Qed.

Lemma sched_remaining s s' : sched s s' → S (remaining s') = remaining s.
Proof.
  destruct 1 as [p ts i Hi|p ts i Hi]; unfold remaining; simpl;
    [pose proof (weight_insert ts i _ Working Hi) as Hc|pose proof (weight_insert ts i _ Joined Hi) as Hc];
    simpl in Hc; lia.
Qed.

Lemma sched_progress s : 0 < permits s + working s → finished s ∨ ∃ s', sched s s'.
Proof.
  destruct s as [p ts]. unfold working, finished. simpl. intros Hp.
  destruct (decide (Working ∈ ts)) as [[i Hi]%list_elem_of_lookup|Hnw].
  { right. eexists. by eapply sched_finish. }
  destruct (decide (Waiting ∈ ts)) as [[i Hi]%list_elem_of_lookup|Hnt].
  - right. destruct p as [|p]; [|eexists; by eapply sched_acquire]. exfalso.
    destruct (List.filter _ ts) as [|x r] eqn:E; [simpl in Hp; lia|]. apply Hnw.
    assert (x ∈ List.filter (λ t, bool_decide (t = Working)) ts) as Hx by (rewrite E; by left).
    apply list_elem_of_In, filter_In in Hx as [Hx Hw%bool_decide_eq_true]. subst x. by apply list_elem_of_In.
  - left. apply Forall_forall. intros [] Hx; done.
Qed.

(** The semaphore's promises, for every number of connections and every
    requested parallelism (0 included): at any moment at most that many workers
    run, never more than [max 1 n]; no schedule is ever stuck before every task
    has ended, and every schedule ends after two steps per connection. *)
Theorem batch_schedule parallel n s (Hn : 0 < n)
    (Hr : rtc sched (spawned (concurrency parallel n) n) s) :
  working s ≤ Nat.max (default DEFAULT_PARALLEL_CONCURRENCY parallel) 1
  ∧ (finished s ∨ ∃ s', sched s s')
  ∧ (∀ k s', nsteps sched k s s' → k ≤ remaining s)
  ∧ remaining s ≤ 2 * n.
Proof.
  set (s0 := spawned _ n) in *.
  assert (permits s0 + working s0 = concurrency parallel n) as H0.
  { unfold s0, working, spawned. simpl. enough (List.filter (λ t, bool_decide (t = Working)) (replicate n Waiting) = []) as ->
      by (simpl; lia). clear. induction n; done. }
  assert (remaining s0 = 2 * n) as R0.
  { unfold s0, remaining, spawned. cbn [phases]. clear. induction n as [|n IH]; [done|].
    rewrite replicate_S, fmap_cons. change (2 + sum_list (weight <$> replicate n Waiting) = 2 * S n).
    rewrite IH. lia. }
  assert (permits s + working s = concurrency parallel n ∧ remaining s ≤ 2 * n) as [Hs Hrem].
  { clearbody s0. revert H0 R0. generalize (concurrency parallel n) as p. intros p H0 R0.
    assert (remaining s0 ≤ 2 * n) as R by lia. clear R0. revert H0 R.
    induction Hr as [|s1 s2 s3 Hs _ IH]; [done|]. intros H0 R. apply sched_permits in Hs as Hp.
    apply sched_remaining in Hs. apply IH; lia. }
  assert (1 ≤ concurrency parallel n ≤ Nat.max (default DEFAULT_PARALLEL_CONCURRENCY parallel) 1) as Hc
    by (unfold concurrency; lia).
  split_and!; [lia|apply sched_progress; lia| |done].
  clear. intros k s'. induction 1 as [|k s1 s2 s3 Hs _ IH]; [lia|]. apply sched_remaining in Hs. lia.
Qed.

(** ** Witnesses *)

Definition demo_worker (c : string) (i : nat) : option (result nat (string * string * bool)) :=
  if bool_decide (c = "down"%string) then None
  else if bool_decide (c = "redis"%string) then Some (Err ("UNSUPPORTED", "no SQL", true)) else Some (Ok i).

Lemma batch_result_witness :
  run_connection_batch id demo_worker (λ _, "panicked") ["a"; "redis"; "down"; "b"] (Some 2)
  = Some [ItemOk 0 0; Skipped 1 "redis" "UNSUPPORTED" "no SQL"; ItemErr 2 "" "JOIN_ERROR" "panicked"; ItemOk 3 3].
Proof.
  refine (eq_trans (batch_result id demo_worker (λ _, "panicked"%string) _ (Some 2) _) _); [|vm_compute; reflexivity].
  intros [Hp|Hl]; [discriminate Hp|simpl in Hl; lia].
Defined.

Lemma batch_schedule_witness : ∃ s', sched (spawned (concurrency (Some 0) 3) 3) s'.
Proof.
  destruct (batch_schedule (Some 0) 3 _ (Nat.lt_0_succ 2) (rtc_refl _ _)) as (_ & [Hf|Hs] & _).
  - exfalso. unfold finished, spawned in Hf. simpl in Hf. apply Forall_cons in Hf as [Hf _]. discriminate Hf.
  - exact Hs.
Defined.
