(* ===== verification/Wkb.v ===== *)
(** * Well-known binary geometries (db/wkb.rs)

    The reader over the bytes, the parser of WKB and EWKB, and the text it is
    shown as. A byte is a [Z] in [0, 256), a [u32] a [Z] in [0, 2^32), a double
    its 64-bit pattern: the code only tests it for NaN and prints it
    ([f64::to_string], a parameter). The nesting of calls is the fuel. *)
From S2P Require Import Prelude RustStr.

Record WkbDimensions : Type := { has_z : bool; has_m : bool }.

#[export] Instance WkbDimensions_eq_dec : EqDecision WkbDimensions.
Proof. solve_decision. Defined.

Definition suffix (d : WkbDimensions) : string :=
  match has_z d, has_m d with
  | false, false => ""
  | true, false => " Z"
  | false, true => " M"
  | true, true => " ZM"
  end.

Definition coordinate_len (d : WkbDimensions) : nat := 2 + Nat.b2n (has_z d) + Nat.b2n (has_m d).

(** A [Vec<f64>] of one point. *)
Abbreviation coordinates := (list Z) (only parsing).

Inductive WkbGeometry : Type :=
| Point (dims : WkbDimensions) (coords : option coordinates)
| LineString (dims : WkbDimensions) (points : list coordinates)
| Polygon (dims : WkbDimensions) (rings : list (list coordinates))
| MultiPoint (dims : WkbDimensions) (points : list (option coordinates))
| MultiLineString (dims : WkbDimensions) (lines : list (list coordinates))
| MultiPolygon (dims : WkbDimensions) (polygons : list (list (list coordinates)))
| GeometryCollection (dims : WkbDimensions) (geometries : list WkbGeometry).

Record DecodedGeometry : Type := { wkt : string; srid : option Z }.

(** ** The text *)

Section text.
(** [f64::to_string]. *)
Context (f64_to_string : Z → string).

Definition format_wkb_coordinate (coords : coordinates) : string := join " " (f64_to_string <$> coords).
Definition format_wkb_coordinate_sequence (points : list coordinates) : string :=
  join "," (format_wkb_coordinate <$> points).

(** ["NAME{suffix}({body})"], or ["NAME{suffix} EMPTY"] without items. *)
Definition tagged (name : string) (dims : WkbDimensions) (empty : bool) (body : string) : string :=
  (if empty then name +:+ suffix dims +:+ " EMPTY" else name +:+ suffix dims +:+ "(" +:+ body +:+ ")")%string.
Definition parens (s : string) : string := ("(" +:+ s +:+ ")")%string.
Definition no_items {A} (l : list A) : bool := match l with [] => true | _ => false end.
Definition rings_text (rings : list (list coordinates)) : string :=
  join "," ((λ ring, parens (format_wkb_coordinate_sequence ring)) <$> rings).

Fixpoint to_wkt (g : WkbGeometry) : string :=
  match g with
  | Point dims coords =>
      match coords with
      | Some c => tagged "POINT" dims false (format_wkb_coordinate c)
      | None => tagged "POINT" dims true ""
      end
  | LineString dims points =>
      tagged "LINESTRING" dims (no_items points) (format_wkb_coordinate_sequence points)
  | Polygon dims rings => tagged "POLYGON" dims (no_items rings) (rings_text rings)
  | MultiPoint dims points =>
      tagged "MULTIPOINT" dims (no_items points)
        (join "," ((λ p, match p with Some c => parens (format_wkb_coordinate c) | None => "EMPTY" end) <$> points))
  | MultiLineString dims lines => tagged "MULTILINESTRING" dims (no_items lines) (rings_text lines)
  | MultiPolygon dims polygons =>
      tagged "MULTIPOLYGON" dims (no_items polygons)
        (join "," ((λ polygon, parens (rings_text polygon)) <$> polygons))
  | GeometryCollection dims geometries =>
      tagged "GEOMETRYCOLLECTION" dims (no_items geometries) (join "," (to_wkt <$> geometries))
  end.
End text.

(** ** The reader *)

Inductive WkbEndian : Type := Big | Little.

Record WkbReader : Type := Reader { raw : list Z; pos : nat }.

(** A method of the reader returning [Option<A>]: a failed read leaves the
    reader where it was. *)
Definition Parser (A : Type) : Type := WkbReader → option (A * WkbReader).

#[export] Instance Parser_ret : MRet Parser := λ A a r, Some (a, r).
#[export] Instance Parser_bind : MBind Parser := λ A B f p r, p r ≫= λ '(a, r'), f a r'.
Definition stop {A} : Parser A := λ _, None.

Definition read_array (n : nat) : Parser (list Z) := λ r,
  if pos r + n <=? List.length (raw r)
  then Some (take n (drop (pos r) (raw r)), Reader (raw r) (pos r + n))
  else None.

Definition read_u8 : Parser Z := λ r,
  match raw r !! pos r with Some value => Some (value, Reader (raw r) (pos r + 1)) | None => None end.

Definition from_le_bytes (bytes : list Z) : Z := foldr (λ b acc, b + 256 * acc)%Z 0%Z bytes.
Definition from_be_bytes (bytes : list Z) : Z := from_le_bytes (rev bytes).
Definition from_bytes (endian : WkbEndian) (bytes : list Z) : Z :=
  match endian with Big => from_be_bytes bytes | Little => from_le_bytes bytes end.

Definition read_u32 (endian : WkbEndian) : Parser Z := bytes ← read_array 4; mret (from_bytes endian bytes).
Definition read_f64 (endian : WkbEndian) : Parser Z := bytes ← read_array 8; mret (from_bytes endian bytes).

(** [(0..n).map(|_| p).collect::<Option<Vec<_>>>()]. *)
Fixpoint repeat_parse {A} (n : nat) (p : Parser A) : Parser (list A) :=
  match n with
  | 0 => mret []
  | S n' => a ← p; l ← repeat_parse n' p; mret (a :: l)
  end.

(** A count read from the bytes, then as many items. *)
Definition counted {A} (endian : WkbEndian) (p : Parser A) : Parser (list A) :=
  count ← read_u32 endian; repeat_parse (Z.to_nat count) p.

(** [f64::is_nan] on the bits: all exponent bits set, some fraction bit set. *)
Definition is_nan (bits : Z) : bool :=
  (Z.land (Z.shiftr bits 52) 2047 =? 2047)%Z && negb (Z.land bits (2 ^ 52 - 1) =? 0)%Z.

(** ** The parser *)

Definition parse_wkb_dimensions (type_word : Z) : Z * WkbDimensions * bool :=
  let base_type := Z.land type_word 0x1FFFFFFF in
  let z := negb (Z.land type_word 0x80000000 =? 0)%Z in
  let m := negb (Z.land type_word 0x40000000 =? 0)%Z in
  let has_srid := negb (Z.land type_word 0x20000000 =? 0)%Z in
  if (3000 <=? base_type)%Z then (base_type - 3000, {| has_z := true; has_m := true |}, has_srid)%Z
  else if (2000 <=? base_type)%Z then (base_type - 2000, {| has_z := z; has_m := true |}, has_srid)%Z
  else if (1000 <=? base_type)%Z then (base_type - 1000, {| has_z := true; has_m := m |}, has_srid)%Z
  else (base_type, {| has_z := z; has_m := m |}, has_srid).

Definition read_endian : Parser WkbEndian :=
  b ← read_u8;
  if (b =? 0)%Z then mret Big else if (b =? 1)%Z then mret Little else stop.

Definition read_coords (endian : WkbEndian) (dims : WkbDimensions) : Parser coordinates :=
  repeat_parse (coordinate_len dims) (read_f64 endian).

(** A point of NaNs only is the empty point. *)
Definition point_of (coords : coordinates) : option coordinates :=
  if forallb is_nan coords then None else Some coords.

Definition read_wkb_point_coords (dims : WkbDimensions) : Parser (option coordinates) :=
  endian ← read_endian;
  type_word ← read_u32 endian;
  let '(base_type, parsed_dims, has_srid) := parse_wkb_dimensions type_word in
  if negb (base_type =? 1)%Z || negb (bool_decide (parsed_dims = dims)) then stop
  else
    _ ← (if has_srid : bool then read_u32 endian else mret 0%Z);
    coords ← read_coords endian parsed_dims;
    mret (point_of coords).

Definition parse_wkb_points (endian : WkbEndian) (dims : WkbDimensions) : Parser (list coordinates) :=
  counted endian (read_coords endian dims).

(** [has_srid.then(|| reader.read_u32(endian)).flatten().filter(|v| *v != 0)]:
    a missing SRID is not an error here. *)
Definition read_srid (endian : WkbEndian) (has_srid : bool) : Parser (option Z) := λ r,
  if has_srid then
    match read_u32 endian r with
    | Some (v, r') => Some (if (v =? 0)%Z then None else Some v, r')
    | None => Some (None, r)
    end
  else Some (None, r).

Definition as_line (g : WkbGeometry * option Z) : Parser (list coordinates) :=
  match g.1 with LineString _ points => mret points | _ => stop end.
Definition as_polygon (g : WkbGeometry * option Z) : Parser (list (list coordinates)) :=
  match g.1 with Polygon _ rings => mret rings | _ => stop end.

(** The [match base_type]; [nested] is the recursive call. *)
Definition parse_body (nested : Parser (WkbGeometry * option Z)) (endian : WkbEndian) (base_type : Z)
    (dims : WkbDimensions) : Parser WkbGeometry :=
  match base_type with
  | 1%Z => coords ← read_coords endian dims; mret (Point dims (point_of coords))
  | 2%Z => points ← parse_wkb_points endian dims; mret (LineString dims points)
  | 3%Z => rings ← counted endian (parse_wkb_points endian dims); mret (Polygon dims rings)
  | 4%Z => points ← counted endian (read_wkb_point_coords dims); mret (MultiPoint dims points)
  | 5%Z => lines ← counted endian (g ← nested; as_line g); mret (MultiLineString dims lines)
  | 6%Z => polygons ← counted endian (g ← nested; as_polygon g); mret (MultiPolygon dims polygons)
  | 7%Z => geometries ← counted endian (g ← nested; mret g.1); mret (GeometryCollection dims geometries)
  | _ => stop
  end.

(** The call itself, with [fuel] the number of nested calls still allowed. *)
Fixpoint parse_wkb_geometry (fuel : nat) : Parser (WkbGeometry * option Z) :=
  match fuel with
  | 0 => stop
  | S fuel' =>
      endian ← read_endian;
      type_word ← read_u32 endian;
      let '(base_type, dims, has_srid) := parse_wkb_dimensions type_word in
      srid ← read_srid endian has_srid;
      geometry ← parse_body (parse_wkb_geometry fuel') endian base_type dims;
      mret (geometry, srid)
  end.

(** Enough calls for the bytes: every one of them reads nine. *)
Definition wkb_fuel (bytes : list Z) : nat := List.length bytes / 9.

Definition decode_wkb_geometry (f64_to_string : Z → string) (bytes : list Z) : option DecodedGeometry :=
  match parse_wkb_geometry (wkb_fuel bytes) (Reader bytes 0) with
  | Some ((geometry, s), reader) =>
      if negb (pos reader =? List.length bytes) then None
      else Some {| wkt := to_wkt f64_to_string geometry; srid := s |}
  | None => None
  end.

Definition wkb_to_wkt (f64_to_string : Z → string) (bytes : list Z) : option string :=
  wkt <$> decode_wkb_geometry f64_to_string bytes.

(** ** What is written: a reference encoder *)

(** The two ways to mark the dimensions. *)
Inductive Flavor : Type := Iso | Ewkb.

Fixpoint le_bytes (k : nat) (n : Z) : list Z :=
  match k with 0 => [] | S k' => (n mod 256)%Z :: le_bytes k' (n / 256)%Z end.
Definition to_bytes (endian : WkbEndian) (k : nat) (n : Z) : list Z :=
  match endian with Big => rev (le_bytes k n) | Little => le_bytes k n end.

Definition type_word (flavor : Flavor) (base : Z) (dims : WkbDimensions) (with_srid : bool) : Z :=
  let flag (b : bool) (v : Z) := if b then v else 0%Z in
  (base + flag with_srid 0x20000000
   + match flavor with
     | Iso => flag (has_z dims) 1000 + flag (has_m dims) 2000
     | Ewkb => flag (has_z dims) 0x80000000 + flag (has_m dims) 0x40000000
     end)%Z.

Section encoder.
Context (endian : WkbEndian) (flavor : Flavor).

Definition u32_bytes (n : Z) : list Z := to_bytes endian 4 n.
Definition count_bytes (n : nat) : list Z := u32_bytes (Z.of_nat n).
Definition header (base : Z) (dims : WkbDimensions) (s : option Z) : list Z :=
  [match endian with Big => 0 | Little => 1 end]%Z
    ++ u32_bytes (type_word flavor base dims (bool_decide (is_Some s)))
    ++ match s with Some v => u32_bytes v | None => [] end.

Definition enc_coords (c : coordinates) : list Z := List.concat (to_bytes endian 8 <$> c).
Definition enc_list {A} (f : A → list Z) (l : list A) : list Z := count_bytes (List.length l) ++ List.concat (f <$> l).
Definition enc_points (points : list coordinates) : list Z := enc_list enc_coords points.
(** A quiet NaN for every coordinate of the empty point. *)
Definition enc_point (dims : WkbDimensions) (p : option coordinates) : list Z :=
  enc_coords (default (replicate (coordinate_len dims) 0x7FF8000000000000%Z) p).

Fixpoint encode (s : option Z) (g : WkbGeometry) : list Z :=
  match g with
  | Point dims p => header 1 dims s ++ enc_point dims p
  | LineString dims points => header 2 dims s ++ enc_points points
  | Polygon dims rings => header 3 dims s ++ enc_list enc_points rings
  | MultiPoint dims points => header 4 dims s ++ enc_list (λ p, header 1 dims None ++ enc_point dims p) points
  | MultiLineString dims lines => header 5 dims s ++ enc_list (λ l, header 2 dims None ++ enc_points l) lines
  | MultiPolygon dims polygons =>
      header 6 dims s ++ enc_list (λ p, header 3 dims None ++ enc_list enc_points p) polygons
  | GeometryCollection dims gs =>
      header 7 dims s ++ count_bytes (List.length gs) ++ List.concat (encode None <$> gs)
  end.
End encoder.

(** The geometries that can be written: coordinates of the right number, of 64
    bits, not all NaN in a point that is there, and counts of 32 bits. *)
Definition fits_u32 (n : nat) : bool := (Z.of_nat n <? 2 ^ 32)%Z.
Definition coords_ok (dims : WkbDimensions) (c : coordinates) : bool :=
  (List.length c =? coordinate_len dims) && forallb (λ b, (0 <=? b)%Z && (b <? 2 ^ 64)%Z) c.
Definition list_ok {A} (ok : A → bool) (l : list A) : bool := fits_u32 (List.length l) && forallb ok l.
Definition point_ok (dims : WkbDimensions) (p : option coordinates) : bool :=
  match p with Some c => coords_ok dims c && negb (forallb is_nan c) | None => true end.
Definition points_ok (dims : WkbDimensions) : list coordinates → bool := list_ok (coords_ok dims).

Fixpoint geometry_ok (g : WkbGeometry) : bool :=
  match g with
  | Point dims p => point_ok dims p
  | LineString dims points => points_ok dims points
  | Polygon dims rings | MultiLineString dims rings => list_ok (points_ok dims) rings
  | MultiPoint dims points => list_ok (point_ok dims) points
  | MultiPolygon dims polygons => list_ok (list_ok (points_ok dims)) polygons
  | GeometryCollection dims gs => fits_u32 (List.length gs) && forallb geometry_ok gs
  end.

(** ** Reading what was written *)

(** [p] turns the bytes [bs], wherever they stand, into [a] and stops behind
    them. *)
Definition reads {A} (p : Parser A) (bs : list Z) (a : A) : Prop :=
  ∀ bytes i tl, drop i bytes = bs ++ tl → p (Reader bytes i) = Some (a, Reader bytes (i + List.length bs)).

Lemma reads_bind {A B} (p : Parser A) (f : A → Parser B) b1 b2 a c :
  reads p b1 a → reads (f a) b2 c → reads (p ≫= f) (b1 ++ b2) c.
Proof.
  intros H1 H2 bytes i tl Hd. rewrite <-app_assoc in Hd. unfold mbind, Parser_bind. rewrite (H1 _ _ _ Hd). cbn.
  rewrite (H2 _ _ tl).
  - by rewrite length_app, Nat.add_assoc.
  - rewrite <-drop_drop, Hd. apply drop_app_length.
Qed.

Lemma reads_ret {A} (a : A) : reads (mret a) [] a.
Proof. intros bytes i tl _. cbn. by rewrite Nat.add_0_r. Qed.

(** The last step of a block. *)
Lemma reads_map {A B} (p : Parser A) (f : A → B) b a : reads p b a → reads (x ← p; mret (f x)) b (f a).
Proof. intros H. rewrite <-(app_nil_r b). apply reads_bind with a; [done|]. apply reads_ret. Qed.

Lemma reads_repeat {A B} (p : Parser A) (enc : B → list Z) (g : B → A) l :
  Forall (λ x, reads p (enc x) (g x)) l →
  reads (repeat_parse (List.length l) p) (List.concat (enc <$> l)) (g <$> l).
Proof.
  induction 1 as [|x l Hx _ IH]; [apply reads_ret|]. cbn.
  apply reads_bind with (g x); [done|]. by apply (reads_map _ (cons (g x))).
Qed.

Lemma reads_array bs : bs ≠ [] → reads (read_array (List.length bs)) bs bs.
Proof.
  intros Hne bytes i tl Hd. unfold read_array. cbn. rewrite Hd, take_app_length.
  pose proof (f_equal List.length Hd) as Hl. rewrite length_drop, length_app in Hl.
  assert (List.length bs ≠ 0) by (by destruct bs). by rewrite (proj2 (Nat.leb_le _ _)) by lia.
Qed.

Lemma reads_u8 b : reads read_u8 [b] b.
Proof.
  intros bytes i tl Hd. unfold read_u8. cbn. pose proof (f_equal (lookup 0) Hd) as Hl.
  rewrite lookup_drop, Nat.add_0_r in Hl. by rewrite Hl.
Qed.

(** ** Numbers *)

Lemma length_le_bytes k n : List.length (le_bytes k n) = k.
Proof. revert n. induction k as [|k IH]; intros n; cbn; [done|]. by rewrite IH. Qed.

Lemma length_to_bytes endian k n : List.length (to_bytes endian k n) = k.
Proof. destruct endian; cbn; rewrite ?length_rev; apply length_le_bytes. Qed.

Lemma from_le_bytes_spec k n : (0 ≤ n < 256 ^ Z.of_nat k)%Z → from_le_bytes (le_bytes k n) = n.
Proof.
  revert n. induction k as [|k IH]; intros n Hn; [cbn in *; lia|].
  rewrite Nat2Z.inj_succ, Z.pow_succ_r in Hn by lia. cbn. unfold from_le_bytes in IH. rewrite IH.
  - pose proof (Z.div_mod n 256). lia.
  - split; [apply Z.div_pos; lia|apply Z.div_lt_upper_bound; lia].
Qed.

Lemma from_bytes_spec endian k n :
  (0 ≤ n < 256 ^ Z.of_nat k)%Z → from_bytes endian (to_bytes endian k n) = n.
Proof.
  intros Hn. destruct endian; cbn; unfold from_be_bytes; rewrite ?rev_involutive; by apply from_le_bytes_spec.
Qed.

Lemma reads_number endian k n :
  0 < k → (0 ≤ n < 256 ^ Z.of_nat k)%Z →
  reads (bytes ← read_array k; mret (from_bytes endian bytes)) (to_bytes endian k n) n.
Proof.
  intros Hk Hn. rewrite <-(from_bytes_spec endian k n Hn) at 2. apply reads_map.
  pose proof (length_to_bytes endian k n) as Hl. rewrite <-Hl at 1. apply reads_array.
  intros E. rewrite E in Hl. cbn in Hl. lia.
Qed.

Lemma reads_u32 endian n : (0 ≤ n < 2 ^ 32)%Z → reads (read_u32 endian) (u32_bytes endian n) n.
Proof. intros Hn. apply reads_number; [lia|exact Hn]. Qed.

Lemma reads_f64 endian n : (0 ≤ n < 2 ^ 64)%Z → reads (read_f64 endian) (to_bytes endian 8 n) n.
Proof. intros Hn. apply reads_number; [lia|exact Hn]. Qed.

Lemma reads_count endian n : fits_u32 n = true → reads (read_u32 endian) (count_bytes endian n) (Z.of_nat n).
Proof. intros Hn%Z.ltb_lt. apply reads_u32. lia. Qed.

(** ** Lists, coordinates and points *)

Lemma reads_counted {A B} endian (p : Parser A) (enc : B → list Z) (g : B → A) ok l :
  (∀ x, x ∈ l → ok x = true → reads p (enc x) (g x)) → fits_u32 (List.length l) && forallb ok l = true →
  reads (counted endian p) (count_bytes endian (List.length l) ++ List.concat (enc <$> l)) (g <$> l).
Proof.
  intros Hp [Hn Hl]%andb_true_iff. eapply reads_bind; [by apply reads_count|]. rewrite Nat2Z.id.
  apply reads_repeat. rewrite forallb_forall in Hl. apply Forall_forall. intros x Hx.
  apply Hp; [done|]. apply Hl. by apply list_elem_of_In.
Qed.

Lemma reads_counted_id {A} endian (p : Parser A) (enc : A → list Z) ok l :
  (∀ x, ok x = true → reads p (enc x) x) → list_ok ok l = true →
  reads (counted endian p) (enc_list endian enc l) l.
Proof. intros Hp Hl. pose proof (reads_counted endian p enc id ok l) as H. rewrite list_fmap_id in H. apply H; auto. Qed.

Lemma reads_coords endian dims c :
  coords_ok dims c = true → reads (read_coords endian dims) (enc_coords endian c) c.
Proof.
  intros [Hn%Nat.eqb_eq Hc]%andb_true_iff. unfold read_coords. rewrite <-Hn.
  pose proof (reads_repeat (read_f64 endian) (to_bytes endian 8) id c) as H. rewrite list_fmap_id in H. apply H.
  rewrite forallb_forall in Hc. apply Forall_forall. intros b Hb.
  apply list_elem_of_In, Hc, andb_true_iff in Hb as [?%Z.leb_le ?%Z.ltb_lt]. by apply reads_f64.
Qed.

Lemma reads_points endian dims l :
  points_ok dims l = true → reads (parse_wkb_points endian dims) (enc_points endian l) l.
Proof. intros Hl. apply (reads_counted_id endian _ _ (coords_ok dims)); [|done]. intros c. apply reads_coords. Qed.

Lemma reads_rings endian dims l :
  list_ok (points_ok dims) l = true →
  reads (counted endian (parse_wkb_points endian dims)) (enc_list endian (enc_points endian) l) l.
Proof. apply reads_counted_id. intros ps. apply reads_points. Qed.

Lemma reads_point endian dims p :
  point_ok dims p = true →
  ∃ c, reads (read_coords endian dims) (enc_point endian dims p) c ∧ point_of c = p.
Proof.
  unfold enc_point. destruct p as [c|]; cbn [point_ok default].
  - intros [Hc Hn%negb_true_iff]%andb_true_iff. exists c. split; [by apply reads_coords|].
    unfold point_of. by rewrite Hn.
  - intros _. eexists. split; [apply reads_coords|]; by destruct dims as [[] []].
Qed.

(** ** Headers *)

Lemma reads_endian endian : reads read_endian [match endian with Big => 0 | Little => 1 end]%Z endian.
Proof.
  rewrite <-(app_nil_r [_]). eapply reads_bind; [apply reads_u8|]. destruct endian; apply reads_ret.
Qed.

Definition base_ok (base : Z) : Prop := (1 ≤ base ≤ 7)%Z.

Lemma type_word_spec flavor base dims b :
  base_ok base →
  parse_wkb_dimensions (type_word flavor base dims b) = (base, dims, b) ∧
    (0 ≤ type_word flavor base dims b < 2 ^ 32)%Z.
Proof.
  intros Hb. assert (base ∈ [1; 2; 3; 4; 5; 6; 7]%Z) as Hin.
  { unfold base_ok in Hb. rewrite !list_elem_of_In. cbn. lia. }
  clear Hb. revert base Hin. apply Forall_forall.
  destruct flavor, dims as [[] []], b; repeat constructor; vm_compute; congruence.
Qed.

Definition srid_ok (s : option Z) : Prop := match s with Some v => (0 < v < 2 ^ 32)%Z | None => True end.

Lemma reads_srid endian s :
  srid_ok s →
  reads (read_srid endian (bool_decide (is_Some s))) (match s with Some v => u32_bytes endian v | None => [] end) s.
Proof.
  destruct s as [v|]; cbn; intros Hs bytes i tl Hd; unfold read_srid; cbn.
  - rewrite (reads_u32 endian v ltac:(lia) _ _ _ Hd). by rewrite (proj2 (Z.eqb_neq _ _)) by lia.
  - by rewrite Nat.add_0_r.
Qed.

(** A geometry is read when its body is. *)
Lemma reads_geometry fuel endian flavor base dims s body g :
  base_ok base → srid_ok s →
  reads (parse_body (parse_wkb_geometry fuel) endian base dims) body g →
  reads (parse_wkb_geometry (S fuel)) (header endian flavor base dims s ++ body) (g, s).
Proof.
  intros Hbase Hs Hbody. destruct (type_word_spec flavor base dims (bool_decide (is_Some s)) Hbase) as [Hw Hr].
  cbn [parse_wkb_geometry]. unfold header. rewrite <-!app_assoc.
  eapply reads_bind; [apply reads_endian|]. eapply reads_bind; [by apply reads_u32|]. rewrite Hw.
  eapply reads_bind; [by apply reads_srid|]. by apply (reads_map _ (λ g, (g, s))).
Qed.

Lemma reads_member endian flavor dims p :
  point_ok dims p = true →
  reads (read_wkb_point_coords dims) (header endian flavor 1 dims None ++ enc_point endian dims p) p.
Proof.
  intros Hp. destruct (reads_point endian dims p Hp) as (c & Hc & <-).
  destruct (type_word_spec flavor 1 dims false ltac:(unfold base_ok; lia)) as [Hw Hr].
  unfold header. rewrite bool_decide_false, <-!app_assoc by (intros [? ?]; done).
  eapply reads_bind; [apply reads_endian|]. eapply reads_bind; [by apply reads_u32|]. rewrite Hw.
  rewrite (bool_decide_true (dims = dims)) by done. cbn [negb orb Z.eqb Pos.eqb].
  eapply reads_bind; [apply reads_ret|]. by apply (reads_map _ point_of).
Qed.

(** ** The round trip *)

Section geometry_ind.
Context (P : WkbGeometry → Prop).
Context (Ppoint : ∀ d p, P (Point d p)) (Pline : ∀ d l, P (LineString d l)) (Ppoly : ∀ d l, P (Polygon d l)).
Context (Pmpoint : ∀ d l, P (MultiPoint d l)) (Pmline : ∀ d l, P (MultiLineString d l)).
Context (Pmpoly : ∀ d l, P (MultiPolygon d l)).
Context (Pcoll : ∀ d l, Forall P l → P (GeometryCollection d l)).

Fixpoint geometry_ind (g : WkbGeometry) : P g :=
  match g with
  | Point d p => Ppoint d p
  | LineString d l => Pline d l
  | Polygon d l => Ppoly d l
  | MultiPoint d l => Pmpoint d l
  | MultiLineString d l => Pmline d l
  | MultiPolygon d l => Pmpoly d l
  | GeometryCollection d l =>
      Pcoll d l ((fix all (l : list WkbGeometry) : Forall P l :=
        match l with
        | [] => List.Forall_nil P
        | x :: l' => @List.Forall_cons _ P x l' (geometry_ind x) (all l')
        end) l)
  end.
End geometry_ind.

Lemma header_length endian flavor base dims s : 5 ≤ List.length (header endian flavor base dims s).
Proof. unfold header, u32_bytes. cbn. rewrite length_app, length_to_bytes. lia. Qed.

Lemma concat_length_elem {A} (f : A → list Z) x l :
  x ∈ l → List.length (f x) ≤ List.length (List.concat (f <$> l)).
Proof.
  intros (l1 & l2 & ->)%list_elem_of_split. rewrite fmap_app, fmap_cons, concat_app. cbn.
  rewrite !length_app. lia.
Qed.

(** A nested geometry is at least nine bytes shorter. *)
Lemma nested_shorter {A} endian flavor base dims s (f : A → list Z) x l :
  x ∈ l → List.length (f x) + 9 ≤ List.length (header endian flavor base dims s ++ enc_list endian f l).
Proof.
  intros Hx. unfold enc_list, count_bytes, u32_bytes. rewrite !length_app, length_to_bytes.
  pose proof (header_length endian flavor base dims s). pose proof (concat_length_elem f x l Hx). lia.
Qed.

Lemma reads_encode endian flavor g : ∀ fuel s,
  List.length (encode endian flavor s g) < 9 * fuel → geometry_ok g = true → srid_ok s →
  reads (parse_wkb_geometry fuel) (encode endian flavor s g) (g, s).
Proof.
  assert (∀ {A} (f : A → WkbGeometry) (enc : A → list Z) (h : WkbGeometry * option Z → Parser A) ok base dims s l fuel,
    List.length (header endian flavor base dims s ++ enc_list endian enc l) < 9 * S fuel →
    (∀ x, x ∈ l → ok x = true → List.length (enc x) < 9 * fuel → reads (parse_wkb_geometry fuel) (enc x) (f x, None)) →
    (∀ x, h (f x, None) = mret x) → list_ok ok l = true →
    reads (counted endian (parse_wkb_geometry fuel ≫= h)) (enc_list endian enc l) l) as Hnest.
  { intros A f enc h ok base dims s l fuel Hlen Hx Hh Hok.
    pose proof (reads_counted endian (parse_wkb_geometry fuel ≫= h) enc id ok l) as H.
    rewrite list_fmap_id in H. apply H; [|done]. intros x Hin Hokx. rewrite <-(app_nil_r (enc x)).
    eapply reads_bind.
    - apply Hx; [done..|]. pose proof (nested_shorter endian flavor base dims s enc x l Hin). lia.
    - rewrite Hh. apply reads_ret. }
  induction g as [d p|d l|d l|d l|d l|d l|d l IH] using geometry_ind; intros [|fuel] s Hlen Hok Hs; try lia;
    cbn [encode] in *; (apply reads_geometry; [unfold base_ok; lia|done|]); cbn [parse_body].
  - destruct (reads_point endian d p Hok) as (c & Hc & <-). by apply (reads_map _ (λ c, Point d (point_of c))).
  - apply (reads_map _ (LineString d)). by apply reads_points.
  - apply (reads_map _ (Polygon d)). by apply reads_rings.
  - apply (reads_map _ (MultiPoint d)). apply (reads_counted_id _ _ _ (point_ok d)); [|done]. intros p. apply reads_member.
  - apply (reads_map _ (MultiLineString d)).
    eapply (Hnest _ (LineString d) _ as_line (points_ok d)); [exact Hlen| |done|done].
    intros x _ Hx Hf. destruct fuel; [lia|]. apply reads_geometry; [unfold base_ok; lia|done|].
    apply (reads_map _ (LineString d)). by apply reads_points.
  - apply (reads_map _ (MultiPolygon d)).
    eapply (Hnest _ (Polygon d) _ as_polygon (list_ok (points_ok d))); [exact Hlen| |done|done].
    intros x _ Hx Hf. destruct fuel; [lia|]. apply reads_geometry; [unfold base_ok; lia|done|].
    apply (reads_map _ (Polygon d)). by apply reads_rings.
  - apply (reads_map _ (GeometryCollection d)).
    eapply (Hnest _ id _ (λ g, mret g.1) geometry_ok); [exact Hlen| |done|done].
    intros x Hin Hx Hf. rewrite Forall_forall in IH. by apply IH.
Qed.

(** ** Where a parser stops *)

(** A parser that succeeds moves forward over the same bytes, and does the
    same whatever stands behind them. *)
Definition local {A} (p : Parser A) : Prop :=
  ∀ bytes i a r', p (Reader bytes i) = Some (a, r') →
    raw r' = bytes ∧ i ≤ pos r' ∧ ∀ x, p (Reader (bytes ++ x) i) = Some (a, Reader (bytes ++ x) (pos r')).

Lemma parser_bind_Some {A B} (p : Parser A) (f : A → Parser B) r b r'' :
  (p ≫= f) r = Some (b, r'') → ∃ a r', p r = Some (a, r') ∧ f a r' = Some (b, r'').
Proof. unfold mbind, Parser_bind. intros ([a r'] & H1 & H2)%bind_Some. eauto. Qed.

Lemma parser_bind_eq {A B} (p : Parser A) (f : A → Parser B) r a r' :
  p r = Some (a, r') → (p ≫= f) r = f a r'.
Proof. unfold mbind, Parser_bind. by intros ->. Qed.

Lemma local_ret {A} (a : A) : local (mret a).
Proof. intros bytes i a' r' [= <- <-]. cbn. auto. Qed.

Lemma local_stop {A} : local (@stop A).
Proof. done. Qed.

Lemma local_bind {A B} (p : Parser A) (f : A → Parser B) : local p → (∀ a, local (f a)) → local (p ≫= f).
Proof.
  intros Hp Hf bytes i b r'' (a & [bytes' j] & H1 & H2)%parser_bind_Some.
  destruct (Hp _ _ _ _ H1) as (Hr & Hi & Hx). cbn in Hr, Hi, Hx. subst bytes'.
  destruct (Hf _ _ _ _ _ H2) as (? & ? & Hx'). split_and!; [done|lia|]. intros x.
  by rewrite (parser_bind_eq _ _ _ _ _ (Hx x)).
Qed.

Lemma local_array n : local (read_array n).
Proof.
  intros bytes i a r'. unfold read_array. cbn. destruct (Nat.leb_spec (i + n) (List.length bytes)); [|done].
  intros [= <- <-]. cbn. split_and!; [done|lia|]. intros x.
  rewrite length_app, (proj2 (Nat.leb_le _ _)) by lia. rewrite drop_app_le, take_app_le; [done|..|lia].
  rewrite length_drop. lia.
Qed.

Lemma local_u8 : local read_u8.
Proof.
  intros bytes i a r'. unfold read_u8. cbn. destruct (bytes !! i) as [v|] eqn:E; [|done]. intros [= <- <-].
  cbn. split_and!; [done|lia|]. intros x. by rewrite (lookup_app_l_Some _ _ _ _ E).
Qed.

Lemma local_repeat {A} n (p : Parser A) : local p → local (repeat_parse n p).
Proof.
  intros Hp. induction n as [|n IH]; cbn; [apply local_ret|]. apply local_bind; [done|]. intros a.
  apply local_bind; [done|]. intros l. apply local_ret.
Qed.

#[local] Hint Resolve local_ret local_stop local_bind local_array local_u8 local_repeat : wkb.

Lemma local_u32 endian : local (read_u32 endian).
Proof. unfold read_u32. auto with wkb. Qed.
#[local] Hint Resolve local_u32 : wkb.

Lemma local_counted {A} endian (p : Parser A) : local p → local (counted endian p).
Proof. unfold counted. auto with wkb. Qed.

Lemma local_coords endian dims : local (read_coords endian dims).
Proof. unfold read_coords, read_f64. auto with wkb. Qed.

Lemma local_endian : local read_endian.
Proof. unfold read_endian. apply local_bind; [auto with wkb|]. intros b. repeat case_match; auto with wkb. Qed.
#[local] Hint Resolve local_counted local_coords local_endian : wkb.

Lemma local_points endian dims : local (parse_wkb_points endian dims).
Proof. unfold parse_wkb_points. auto with wkb. Qed.

Lemma local_member dims : local (read_wkb_point_coords dims).
Proof.
  unfold read_wkb_point_coords. apply local_bind; [auto with wkb|]. intros endian.
  apply local_bind; [auto with wkb|]. intros w. destruct (parse_wkb_dimensions w) as [[b d] s].
  case_match; [auto with wkb|]. apply local_bind; [case_match; auto with wkb|]. auto with wkb.
Qed.
#[local] Hint Resolve local_points local_member : wkb.

Lemma local_body nested endian base dims : local nested → local (parse_body nested endian base dims).
Proof.
  intros Hn. unfold parse_body. repeat case_match; auto 7 with wkb.
  - apply local_bind; [|auto with wkb]. apply local_counted, local_bind; [done|]. intros g. unfold as_line.
    case_match; auto with wkb.
  - apply local_bind; [|auto with wkb]. apply local_counted, local_bind; [done|]. intros g. unfold as_polygon.
    case_match; auto with wkb.
Qed.

(** Every body starts with four bytes or more. *)
Definition needs (n : nat) {A} (p : Parser A) : Prop := ∀ r, List.length (raw r) < pos r + n → p r = None.

Lemma needs_bind n {A B} (p : Parser A) (f : A → Parser B) : needs n p → needs n (p ≫= f).
Proof. intros Hp r Hr. unfold mbind, Parser_bind. by rewrite (Hp r Hr). Qed.

Lemma needs_array n m : n ≤ m → needs n (read_array m).
Proof. intros Hn r Hr. unfold read_array. by rewrite (proj2 (Nat.leb_gt _ _)) by lia. Qed.

Lemma needs_u32 endian : needs 4 (read_u32 endian).
Proof. apply needs_bind, needs_array. lia. Qed.

Lemma needs_body nested endian base dims : needs 4 (parse_body nested endian base dims).
Proof.
  unfold parse_body, parse_wkb_points, counted. repeat case_match; try done;
    repeat apply needs_bind; first [apply needs_array; lia|done].
Qed.

Lemma local_srid_body {A} endian b (f : option Z → Parser A) :
  (∀ s, local (f s)) → (∀ s, needs 4 (f s)) → local (read_srid endian b ≫= f).
Proof.
  intros Hf Hneeds bytes i a r''. unfold mbind, Parser_bind, read_srid. destruct b; cbn; [|apply Hf].
  destruct (read_u32 endian (Reader bytes i)) as [[v r']|] eqn:E; cbn; intros H.
  - destruct (local_u32 _ _ _ _ _ E) as (Hr & Hi & Hx). destruct r' as [bytes' j]. cbn in Hr, Hi, Hx. subst bytes'.
    destruct (Hf _ _ _ _ _ H) as (? & ? & Hx'). split_and!; [done|lia|]. intros x. rewrite Hx. apply Hx'.
  - assert (List.length bytes < i + 4) as Hlt.
    { unfold read_u32, mbind, Parser_bind, read_array in E. cbn in E.
      destruct (Nat.leb_spec (i + 4) (List.length bytes)); [done|lia]. }
    by rewrite Hneeds in H.
Qed.

Lemma local_parse fuel : local (parse_wkb_geometry fuel).
Proof.
  induction fuel as [|fuel IH]; cbn [parse_wkb_geometry]; [done|].
  apply local_bind; [auto with wkb|]. intros endian. apply local_bind; [auto with wkb|]. intros w.
  destruct (parse_wkb_dimensions w) as [[b d] s]. apply local_srid_body.
  - intros s'. apply local_bind; [by apply local_body|]. auto with wkb.
  - intros s'. apply needs_bind, needs_body.
Qed.

(** ** How deep the calls nest *)

(** [p] and [q] do the same when less than [n] bytes are left. *)
Definition agree (n : nat) {A} (p q : Parser A) : Prop :=
  ∀ r, List.length (raw r) < pos r + n → p r = q r.

Lemma agree_refl n {A} (p : Parser A) : agree n p p.
Proof. done. Qed.

Lemma agree_le n m {A} (p q : Parser A) : n ≤ m → agree m p q → agree n p q.
Proof. intros Hn H r Hr. apply H. lia. Qed.

(** The first part reads [k] bytes. *)
Definition skips (k : nat) {A} (p : Parser A) : Prop :=
  ∀ r a r', p r = Some (a, r') → raw r' = raw r ∧ pos r + k ≤ pos r'.

Lemma agree_bind k n {A B} (p : Parser A) (f g : A → Parser B) :
  skips k p → (∀ a, agree n (f a) (g a)) → agree (n + k) (p ≫= f) (p ≫= g).
Proof.
  intros Hp Hf r Hr. unfold mbind, Parser_bind. destruct (p r) as [[a r']|] eqn:E; [|done]. cbn.
  destruct (Hp _ _ _ E) as [Hraw Hpos]. apply Hf. rewrite Hraw. lia.
Qed.

Lemma agree_bind_l n {A B} (p q : Parser A) (f : A → Parser B) : agree n p q → agree n (p ≫= f) (q ≫= f).
Proof. intros H r Hr. unfold mbind, Parser_bind. by rewrite (H r Hr). Qed.

Lemma local_skips {A} (p : Parser A) : local p → skips 0 p.
Proof. intros Hp [bytes i] a r' H. destruct (Hp _ _ _ _ H) as (? & ? & _). cbn. split; [done|lia]. Qed.

Lemma skips_u32 endian : skips 4 (read_u32 endian).
Proof.
  intros [bytes i] a r' (b & r & H & Hm)%parser_bind_Some. unfold read_array in H. cbn in *.
  destruct (i + 4 <=? List.length bytes); [|done]. injection H as <- <-. by injection Hm as _ <-.
Qed.

Lemma skips_endian : skips 1 read_endian.
Proof.
  intros [bytes i] a r' (b & r & H & Hm)%parser_bind_Some. unfold read_u8 in H. cbn in *.
  destruct (bytes !! i); [|done]. injection H as -> <-.
  destruct (b =? 0)%Z; [by injection Hm as _ <-|]. destruct (b =? 1)%Z; by inversion Hm.
Qed.

Lemma skips_srid endian b : skips 0 (read_srid endian b).
Proof.
  intros r a r'. unfold read_srid. destruct b; [|intros [= _ <-]; split; [done|lia]].
  destruct (read_u32 endian r) as [[v r1]|] eqn:E; intros [= _ <-]; [|split; [done|lia]].
  apply skips_u32 in E as [? ?]. split; [done|lia].
Qed.

Lemma agree_repeat k n {A} (p q : Parser A) : local p → agree n p q → agree n (repeat_parse k p) (repeat_parse k q).
Proof.
  intros Hp H. induction k as [|k IH]; cbn; [done|]. intros r Hr. transitivity ((a ← p; l ← repeat_parse k q; mret (a :: l)) r).
  - pose proof (agree_bind 0 n p (λ a, l ← repeat_parse k p; mret (a :: l)) (λ a, l ← repeat_parse k q; mret (a :: l))) as Hb.
    apply Hb; [by apply local_skips| |lia]. intros a. by apply agree_bind_l.
  - by apply (agree_bind_l n p q).
Qed.

Lemma agree_counted n {A} endian (p q : Parser A) :
  local p → agree n p q → agree (n + 4) (counted endian p) (counted endian q).
Proof. intros Hp H. apply agree_bind; [apply skips_u32|]. intros c. by apply agree_repeat. Qed.

Lemma agree_body n p q endian base dims :
  local p → agree n p q → agree (n + 4) (parse_body p endian base dims) (parse_body q endian base dims).
Proof.
  intros Hp H. unfold parse_body. repeat case_match; try apply agree_refl;
    apply agree_bind_l, agree_counted; try (by apply agree_bind_l);
    (apply local_bind; [done|]); intros g; unfold as_line, as_polygon; repeat case_match; auto with wkb.
Qed.

(** The header, then a part that may depend on the fuel. *)
Lemma agree_header n {A} (f g : WkbEndian → Z → option Z → Parser A) (srid_of : Z → bool) :
  (∀ e w s, agree n (f e w s) (g e w s)) →
  agree (n + 5) (e ← read_endian; w ← read_u32 e; s ← read_srid e (srid_of w); f e w s)
                (e ← read_endian; w ← read_u32 e; s ← read_srid e (srid_of w); g e w s).
Proof.
  intros H. replace (n + 5) with (n + 0 + 4 + 1) by lia. apply agree_bind; [apply skips_endian|]. intros e.
  apply agree_bind; [apply skips_u32|]. intros w. apply agree_bind; [apply skips_srid|]. auto.
Qed.

(** What follows the header. *)
Definition parse_rest (nested : Parser (WkbGeometry * option Z)) (e : WkbEndian) (w : Z) (s : option Z)
    : Parser (WkbGeometry * option Z) :=
  g ← parse_body nested e (parse_wkb_dimensions w).1.1 (parse_wkb_dimensions w).1.2; mret (g, s).

Lemma parse_unfold fuel r :
  parse_wkb_geometry (S fuel) r =
    (e ← read_endian; w ← read_u32 e; s ← read_srid e (parse_wkb_dimensions w).2;
     parse_rest (parse_wkb_geometry fuel) e w s) r.
Proof.
  cbn [parse_wkb_geometry]. unfold mbind, Parser_bind, parse_rest.
  destruct (read_endian r) as [[e r1]|]; [|done]. cbn. destruct (read_u32 e r1) as [[w r2]|]; [|done]. cbn.
  by destruct (parse_wkb_dimensions w) as [[b d] s].
Qed.

Lemma parse_step n f f' :
  agree n (parse_wkb_geometry f) (parse_wkb_geometry f') →
  agree (n + 9) (parse_wkb_geometry (S f)) (parse_wkb_geometry (S f')).
Proof.
  intros H r Hr. rewrite !parse_unfold.
  pose proof (agree_header (n + 4) (parse_rest (parse_wkb_geometry f)) (parse_rest (parse_wkb_geometry f'))
    (λ w, (parse_wkb_dimensions w).2)) as Hh.
  apply Hh; [|lia]. intros e w s. apply agree_bind_l, agree_body; [apply local_parse|done].
Qed.

Lemma parse_needs f : agree 9 (parse_wkb_geometry f) stop.
Proof.
  destruct f as [|f]; [apply agree_refl|]. intros r Hr. rewrite parse_unfold.
  pose proof (agree_header 4 (parse_rest (parse_wkb_geometry f)) (λ e w s, stop)
    (λ w, (parse_wkb_dimensions w).2)) as Hh.
  rewrite Hh; [| |lia].
  - unfold mbind, Parser_bind, stop. destruct (read_endian r) as [[e r1]|]; [|done]. cbn.
    destruct (read_u32 e r1) as [[w r2]|]; [|done]. cbn. by destruct (read_srid e _ r2) as [[]|].
  - intros e w s r' Hr'. by apply (needs_bind 4 _ _ (needs_body _ _ _ _)).
Qed.

(** [S f] nested calls are enough for less than [9 * (f + 2)] bytes. *)
Lemma parse_more_fuel f f' : f ≤ f' → agree (9 * S f) (parse_wkb_geometry f) (parse_wkb_geometry f').
Proof.
  revert f'. induction f as [|f IH]; intros f' Hf.
  - intros r Hr. rewrite (parse_needs f') by lia. done.
  - destruct f' as [|f']; [lia|]. replace (9 * S (S f)) with (9 * S f + 9) by lia. apply parse_step, IH. lia.
Qed.

(** ** Dimensions of what is read *)

Definition dims_of (g : WkbGeometry) : WkbDimensions :=
  match g with
  | Point d _ | LineString d _ | Polygon d _ | MultiPoint d _ | MultiLineString d _ | MultiPolygon d _
  | GeometryCollection d _ => d
  end.

(** Points of [n] coordinates each. *)
Definition of_len (n : nat) (c : coordinates) : Prop := List.length c = n.
Definition uniform (d : WkbDimensions) : list coordinates → Prop := Forall (of_len (coordinate_len d)).
Definition member_typed (d : WkbDimensions) (p : option coordinates) : Prop :=
  match p with Some c => of_len (coordinate_len d) c ∧ forallb is_nan c = false | None => True end.

(** What a parsed geometry satisfies: the dimensions bind the points of a
    point, a line, a polygon and a multipoint; a line of a MULTILINESTRING and a
    polygon of a MULTIPOLYGON are uniform in dimensions of their own. *)
Inductive typed : WkbGeometry → Prop :=
| typed_point d p : member_typed d p → typed (Point d p)
| typed_line d l : uniform d l → typed (LineString d l)
| typed_polygon d l : Forall (uniform d) l → typed (Polygon d l)
| typed_mpoint d l : Forall (member_typed d) l → typed (MultiPoint d l)
| typed_mline d l : Forall (λ ps, ∃ d', uniform d' ps) l → typed (MultiLineString d l)
| typed_mpolygon d l : Forall (λ rs, ∃ d', Forall (uniform d') rs) l → typed (MultiPolygon d l)
| typed_collection d l : Forall typed l → typed (GeometryCollection d l).

(** [Q] holds of every value [p] returns. *)
Definition returns {A} (p : Parser A) (Q : A → Prop) : Prop := ∀ r a r', p r = Some (a, r') → Q a.

Lemma returns_bind {A B} (p : Parser A) (f : A → Parser B) P Q :
  returns p P → (∀ a, P a → returns (f a) Q) → returns (p ≫= f) Q.
Proof. intros Hp Hf r b r'' (a & r' & H1 & H2)%parser_bind_Some. eapply Hf; [by eapply Hp|done]. Qed.

Lemma returns_any {A} (p : Parser A) : returns p (λ _, True).
Proof. done. Qed.

Lemma returns_ret {A} (a : A) (Q : A → Prop) : Q a → returns (mret a) Q.
Proof. by intros H r a' r' [= <- _]. Qed.

Lemma returns_map {A B} (p : Parser A) (f : A → B) P (Q : B → Prop) :
  returns p P → (∀ a, P a → Q (f a)) → returns (x ← p; mret (f x)) Q.
Proof. intros Hp Hf. eapply returns_bind; [done|]. intros a Ha. by apply returns_ret, Hf. Qed.

Lemma returns_repeat {A} n (p : Parser A) P :
  returns p P → returns (repeat_parse n p) (λ l, Forall P l ∧ List.length l = n).
Proof.
  intros Hp. induction n as [|n IH]; cbn; [by apply returns_ret|].
  eapply returns_bind; [done|]. intros a Ha. eapply returns_map; [done|]. intros l [Hl Hn]. split; [by constructor|].
  cbn. by rewrite Hn.
Qed.

Lemma returns_counted {A} endian (p : Parser A) P : returns p P → returns (counted endian p) (Forall P).
Proof.
  intros Hp. eapply returns_bind; [apply returns_any|]. intros c _ r l r' H.
  by apply (returns_repeat _ _ _ Hp) in H as [? _].
Qed.

Lemma returns_coords endian dims : returns (read_coords endian dims) (of_len (coordinate_len dims)).
Proof. intros r c r' H. by apply (returns_repeat _ _ _ (returns_any _)) in H as [_ ?]. Qed.

Lemma member_point_of d c : of_len (coordinate_len d) c → member_typed d (point_of c).
Proof. intros Hc. unfold point_of. by destruct (forallb is_nan c) eqn:E. Qed.

Lemma returns_member d : returns (read_wkb_point_coords d) (member_typed d).
Proof.
  unfold read_wkb_point_coords. eapply returns_bind; [apply returns_any|]. intros endian _.
  eapply returns_bind; [apply returns_any|]. intros w _. destruct (parse_wkb_dimensions w) as [[b d'] s].
  destruct (negb (b =? 1)%Z || negb (bool_decide (d' = d))) eqn:E; [done|].
  apply orb_false_iff in E as [_ ->%negb_false_iff%bool_decide_eq_true].
  eapply returns_bind; [apply returns_any|]. intros _ _.
  eapply returns_map; [apply returns_coords|]. apply member_point_of.
Qed.

Lemma returns_points endian d : returns (parse_wkb_points endian d) (uniform d).
Proof. apply returns_counted, returns_coords. Qed.

Lemma returns_nested {A} (p : Parser (WkbGeometry * option Z)) (h : WkbGeometry * option Z → Parser A) Q :
  returns p (λ g, typed g.1) → (∀ g, typed g.1 → returns (h g) Q) → returns (p ≫= h) Q.
Proof. apply returns_bind. Qed.

Lemma returns_body nested endian base dims :
  returns nested (λ g, typed g.1) →
  returns (parse_body nested endian base dims) (λ g, typed g ∧ dims_of g = dims).
Proof.
  intros Hn. unfold parse_body. repeat case_match; try done.
  - eapply returns_map.
    + apply (returns_counted _ _ typed). eapply returns_nested; [done|]. intros g Hg. by apply returns_ret.
    + intros l Hl. split; [by constructor|done].
  - eapply returns_map.
    + apply (returns_counted _ _ (λ ps, ∃ d', uniform d' ps)). eapply returns_nested; [done|]. intros [g s] Hg.
      unfold as_line. destruct g; try done. apply returns_ret. inversion Hg. eauto.
    + intros l Hl. split; [by constructor|done].
  - eapply returns_map; [apply returns_counted, returns_points|]. intros l Hl. split; [by constructor|done].
  - eapply returns_map.
    + apply (returns_counted _ _ (λ ps, ∃ d', Forall (uniform d') ps)). eapply returns_nested; [done|]. intros [g s] Hg.
      unfold as_polygon. destruct g; try done. apply returns_ret. inversion Hg. eauto.
    + intros l Hl. split; [by constructor|done].
  - eapply returns_map; [apply returns_counted, returns_member|]. intros l Hl. split; [by constructor|done].
  - eapply returns_map; [apply returns_points|]. intros l Hl. split; [by constructor|done].
  - eapply returns_map; [apply returns_coords|]. intros c Hc. split; [|done]. constructor. by apply member_point_of.
Qed.

Lemma returns_parse fuel : returns (parse_wkb_geometry fuel) (λ g, typed g.1).
Proof.
  induction fuel as [|fuel IH]; [done|]. intros r g r'. rewrite parse_unfold. revert r g r'.
  change (returns (e ← read_endian; w ← read_u32 e; s ← read_srid e (parse_wkb_dimensions w).2;
     parse_rest (parse_wkb_geometry fuel) e w s) (λ g, typed g.1)).
  do 3 (eapply returns_bind; [apply returns_any|]; intros ? _).
  eapply returns_map; [by apply returns_body|]. by intros g [? _].
Qed.

(** ** The theorems *)

Lemma wkb_fuel_enough bytes fuel :
  wkb_fuel bytes ≤ fuel →
  parse_wkb_geometry fuel (Reader bytes 0) = parse_wkb_geometry (wkb_fuel bytes) (Reader bytes 0).
Proof.
  intros Hf. symmetry. apply parse_more_fuel; [done|]. cbn [raw pos]. unfold wkb_fuel.
  pose proof (Nat.div_mod (List.length bytes) 9). pose proof (Nat.mod_upper_bound (List.length bytes) 9). lia.
Qed.

Lemma decode_parse fmt bytes d :
  decode_wkb_geometry fmt bytes = Some d ↔
  ∃ fuel g s, parse_wkb_geometry fuel (Reader bytes 0) = Some ((g, s), Reader bytes (List.length bytes)) ∧
    wkb_fuel bytes ≤ fuel ∧ d = {| wkt := to_wkt fmt g; srid := s |}.
Proof.
  unfold decode_wkb_geometry. split.
  - destruct (parse_wkb_geometry _ _) as [[[g s] r]|] eqn:E; [|done].
    destruct (local_parse _ _ _ _ _ E) as (Hr & _). destruct r as [b i]. cbn [raw pos] in *. subst b.
    destruct (Nat.eqb_spec i (List.length bytes)) as [->|]; [|done]. cbn [negb]. intros [= <-].
    exists (wkb_fuel bytes), g, s. by rewrite E.
  - intros (fuel & g & s & H & Hf & ->). rewrite wkb_fuel_enough in H by done. rewrite H. cbn [pos].
    by rewrite Nat.eqb_refl.
Qed.

(** C9: what any writer produces from a geometry, in either byte order and
    with either marking of the dimensions, decodes to that geometry's text and
    to its SRID. *)
Theorem decode_encode endian flavor s g fmt :
  geometry_ok g = true → srid_ok s →
  decode_wkb_geometry fmt (encode endian flavor s g) = Some {| wkt := to_wkt fmt g; srid := s |}.
Proof.
  intros Hg Hs. apply decode_parse. set (bytes := encode endian flavor s g).
  exists (S (List.length bytes)), g, s. split_and!; [|unfold wkb_fuel; pose proof (Nat.div_le_upper_bound (List.length bytes) 9 (List.length bytes)); lia|done].
  pose proof (reads_encode endian flavor g (S (List.length bytes)) s) as H. fold bytes in H.
  assert (List.length bytes < 9 * S (List.length bytes)) as Hl by lia.
  specialize (H Hl Hg Hs bytes 0 []). rewrite app_nil_r in H. by apply H.
Qed.

Definition d2 : WkbDimensions := {| has_z := false; has_m := false |}.
Definition d3 : WkbDimensions := {| has_z := true; has_m := false |}.
(** 1.0 *)
Definition one : Z := 0x3FF0000000000000.
Definition sample_geometry : WkbGeometry :=
  GeometryCollection d3 [Point d2 None; MultiLineString d3 [[[one; 0; one]; [0; 0; 0]]]; MultiPoint d2 [Some [one; one]; None]]%Z.

Lemma decode_encode_witness :
  geometry_ok sample_geometry = true ∧ srid_ok (Some 4326%Z) ∧
  decode_wkb_geometry pretty (encode Big Ewkb (Some 4326%Z) sample_geometry)
  = Some {| wkt := to_wkt pretty sample_geometry; srid := Some 4326%Z |}.
Proof.
  split; [vm_compute; reflexivity|]. split; [cbn; lia|].
  apply (decode_encode Big Ewkb (Some 4326%Z) sample_geometry pretty); [vm_compute; reflexivity|cbn; lia].
Defined.

(** ** The nesting of calls *)

Definition fails {A} (p : Parser A) (bs : list Z) : Prop :=
  ∀ bytes i tl, drop i bytes = bs ++ tl → p (Reader bytes i) = None.

Lemma fails_bind {A B} (p : Parser A) (f : A → Parser B) b1 b2 a :
  reads p b1 a → fails (f a) b2 → fails (p ≫= f) (b1 ++ b2).
Proof.
  intros H1 H2 bytes i tl Hd. rewrite <-app_assoc in Hd. unfold mbind, Parser_bind. rewrite (H1 _ _ _ Hd). cbn.
  apply (H2 _ _ tl). rewrite <-drop_drop, Hd. apply drop_app_length.
Qed.

Lemma fails_bind_l {A B} (p : Parser A) (f : A → Parser B) b : fails p b → fails (p ≫= f) b.
Proof. intros H bytes i tl Hd. unfold mbind, Parser_bind. by rewrite (H _ _ _ Hd). Qed.

(** [n] collections around an empty one. *)
Fixpoint nest (n : nat) : WkbGeometry :=
  GeometryCollection d2 (match n with 0 => [] | S n' => [nest n'] end).
Definition nested_bytes (n : nat) : list Z := encode Little Iso None (nest n).

Lemma nested_bytes_length n : List.length (nested_bytes n) = 9 * S n.
Proof.
  unfold nested_bytes. induction n as [|n IH]; [done|]. cbn [nest encode list_fmap fmap].
  rewrite !length_app. cbn [List.concat]. rewrite app_nil_r, IH. cbn. lia.
Qed.

Lemma nest_fails n : fails (parse_wkb_geometry n) (nested_bytes n).
Proof.
  unfold nested_bytes. induction n as [|n IH]; [done|]. intros bytes i tl Hd. rewrite parse_unfold.
  revert bytes i tl Hd. change (fails (e ← read_endian; w ← read_u32 e; s ← read_srid e (parse_wkb_dimensions w).2;
     parse_rest (parse_wkb_geometry n) e w s) (encode Little Iso None (nest (S n)))).
  destruct (type_word_spec Iso 7 d2 false ltac:(unfold base_ok; lia)) as [Hw Hr].
  cbn [nest encode]. unfold header. rewrite bool_decide_false, <-!app_assoc by (intros [? ?]; done).
  eapply fails_bind; [apply (reads_endian Little)|]. eapply fails_bind; [by apply reads_u32|]. rewrite Hw.
  eapply fails_bind; [apply (reads_srid Little None); done|]. unfold parse_rest. rewrite Hw. apply fails_bind_l.
  cbn [parse_body]. apply fails_bind_l. unfold counted. eapply fails_bind; [by apply reads_count|].
  change (Z.to_nat (Z.of_nat (List.length [nest n]))) with 1. cbn [repeat_parse list_fmap fmap List.concat].
  rewrite app_nil_r. by do 2 apply fails_bind_l.
Qed.

Lemma nest_ok n : geometry_ok (nest n) = true.
Proof. induction n as [|n IH]; [done|]. cbn [nest geometry_ok forallb List.length]. by rewrite IH. Qed.

(** A call per nine bytes is enough whatever the bytes are, so decoding
    always ends; and for every depth there are bytes that need exactly that
    many nested calls, which nothing in the code limits. *)
Theorem nesting_bound :
  (∀ bytes fuel, List.length bytes / 9 ≤ fuel →
     parse_wkb_geometry fuel (Reader bytes 0) = parse_wkb_geometry (List.length bytes / 9) (Reader bytes 0)) ∧
  (∀ n, ∃ bytes, List.length bytes = 9 * S n ∧ parse_wkb_geometry n (Reader bytes 0) = None ∧
     parse_wkb_geometry (S n) (Reader bytes 0) = Some ((nest n, None), Reader bytes (9 * S n))).
Proof.
  split; [apply wkb_fuel_enough|]. intros n. exists (nested_bytes n). pose proof (nested_bytes_length n) as Hl.
  split_and!; [done|by apply (nest_fails n _ _ []); rewrite app_nil_r|].
  transitivity (parse_wkb_geometry (S (S n)) (Reader (nested_bytes n) 0)).
  - apply parse_more_fuel; [lia|]. cbn [raw pos]. lia.
  - pose proof (reads_encode Little Iso (nest n) (S (S n)) None) as H. unfold nested_bytes in *. rewrite <-Hl.
    apply (λ a b c, H a b c _ 0 []); [lia|apply nest_ok|done|by rewrite app_nil_r].
Qed.

Lemma nesting_bound_witness :
  parse_wkb_geometry 7 (Reader (nested_bytes 1) 0) = parse_wkb_geometry 2 (Reader (nested_bytes 1) 0) ∧
  parse_wkb_geometry 2 (Reader (nested_bytes 1) 0) = Some ((nest 1, None), Reader (nested_bytes 1) 18).
Proof.
  split; [|vm_compute; reflexivity]. apply (proj1 nesting_bound (nested_bytes 1) 7). vm_compute. lia.
Defined.



(** Bytes that decode are a whole geometry: no proper extension of them
    decodes, and so no proper prefix does. *)
Theorem decode_whole fmt bytes x d :
  decode_wkb_geometry fmt bytes = Some d → x ≠ [] → decode_wkb_geometry fmt (bytes ++ x) = None.
Proof.
  intros (fuel & g & s & H & Hf & ->)%decode_parse Hx.
  destruct (decode_wkb_geometry fmt (bytes ++ x)) as [d'|] eqn:E; [|done]. exfalso.
  apply decode_parse in E as (fuel' & g' & s' & H' & Hf' & _).
  rewrite wkb_fuel_enough in H by done. rewrite <-(wkb_fuel_enough bytes (fuel `max` fuel')) in H by lia.
  rewrite wkb_fuel_enough in H' by done. rewrite <-(wkb_fuel_enough (bytes ++ x) (fuel `max` fuel')) in H' by lia.
  apply local_parse in H as (_ & _ & H). rewrite H in H'. injection H' as _ _ Hl. cbn in Hl.
  rewrite length_app in Hl. destruct x; [done|]. cbn in Hl. lia.
Qed.

Lemma decode_whole_witness :
  decode_wkb_geometry pretty (nested_bytes 1) = Some {| wkt := "GEOMETRYCOLLECTION(GEOMETRYCOLLECTION EMPTY)"; srid := None |} ∧
  decode_wkb_geometry pretty (nested_bytes 1 ++ [0]%Z) = None.
Proof.
  split; [vm_compute; reflexivity|].
  apply (decode_whole pretty (nested_bytes 1) [0]%Z
    {| wkt := "GEOMETRYCOLLECTION(GEOMETRYCOLLECTION EMPTY)"; srid := None |}); [vm_compute; reflexivity|done].
Defined.

(** Two-dimensional lines may have three coordinates. *)
Lemma mixed_dimensions :
  decode_wkb_geometry pretty
    (header Little Iso 5 d2 None ++ count_bytes Little 1 ++ encode Little Iso None (LineString d3 [[0; 0; 0]]%Z))
  = Some {| wkt := "MULTILINESTRING((0 0 0))"; srid := None |} ∧
  decode_wkb_geometry pretty
    (header Little Iso 4 d2 None ++ count_bytes Little 1 ++ encode Little Iso None (Point d3 (Some [0; 0; 0]%Z)))
  = None.
Proof. by split; vm_compute. Qed.

(** The SRID 0 is not told from no SRID. *)
Lemma zero_srid :
  decode_wkb_geometry pretty (encode Little Ewkb (Some 0%Z) (LineString d2 []))
  = decode_wkb_geometry pretty (encode Little Ewkb None (LineString d2 [])).
Proof. by vm_compute. Qed.
