(* ===== verification/TextExport.v ===== *)
(** * Results as text (csv_export.rs, text_export.rs)

    CSV, TSV, Markdown and JSON of a query result, and the paged export of a
    table into a file. Text is bytes: every character the writers look for is
    ASCII. The output buffer is the accumulator [out]. *)
From S2P Require Import Prelude RustStr Json.

(** [String::find] of an ASCII character: the byte offset of the first one. *)
Fixpoint find_char (c : ascii) (s : string) : option nat :=
  match s with
  | EmptyString => None
  | String a s' => if Ascii.eqb a c then Some 0 else S <$> find_char c s'
  end.

Definition quote_char : ascii := ascii_of_nat 34.
Definition newline_char : ascii := ascii_of_nat 10.
Definition tab_char : ascii := ascii_of_nat 9.
Definition contains_char (c : ascii) (s : string) : bool := bool_decide (is_Some (find_char c s)).

Section export.
(** [Display] of an array or object: the pieces serde_json writes. *)
Context (json_pieces : Value → list string).
Definition json_text (v : Value) : string := join "" (json_pieces v).

(** ** CSV and TSV values *)

(** [while let Some(pos) = rest.find(..)]: a quote per turn. *)
Fixpoint escape_loop (fuel : nat) (out rest : string) : string :=
  match fuel with
  | 0 => (out +:+ rest)%string
  | S fuel' =>
      match find_char quote_char rest with
      | Some pos =>
          escape_loop fuel' (out +:+ take_bytes (pos + 1) rest +:+ dquote)%string (skip_bytes (pos + 1) rest)
      | None => (out +:+ rest)%string
      end
  end.
Definition push_csv_escaped_content (out value : string) : string := escape_loop (len value) out value.

Definition push_csv_escaped (out value : string) : string :=
  (push_csv_escaped_content (out +:+ dquote) value +:+ dquote)%string.

Definition bool_text (b : bool) : string := if b then "true" else "false".

Definition push_csv_text_value (out : string) (value : Value) : string :=
  let out := (out +:+ dquote)%string in
  ((match value with
    | Null => out
    | VString s => push_csv_escaped_content out s
    | Bool b => out +:+ bool_text b
    | Number token => out +:+ token
    | other => fold_left push_csv_escaped_content (json_pieces other) out
    end) +:+ dquote)%string.

Definition is_null (v : Value) : bool := match v with Null => true | _ => false end.
Definition push_csv_value (out : string) (value : Value) : string :=
  if is_null value then out else push_csv_text_value out value.

Definition push_tsv_escaped (out value : string) : string :=
  if contains_char tab_char value || contains_char newline_char value
     || contains_char (ascii_of_nat 13) value || contains_char quote_char value
  then push_csv_escaped out value else (out +:+ value)%string.

Definition push_tsv_value (out : string) (value : Value) : string :=
  match value with
  | Null => out
  | VString s => push_tsv_escaped out s
  | Bool b => (out +:+ bool_text b)%string
  | Number token => (out +:+ token)%string
  | other => push_tsv_escaped out (json_text other)
  end.

Definition escape_csv (value : string) : string := push_csv_escaped "" value.
Definition escape_tsv (value : string) : string := push_tsv_escaped "" value.
Definition format_csv_value (value : Value) : string := push_csv_value "" value.

(** ** Rows *)

(** [for (index, x) in l.iter().enumerate() { if index > 0 { push sep } .. }]. *)
Definition push_separated {A} (sep : string) (push : string → A → string) (out : string) (l : list A) : string :=
  (fold_left (λ '(index, out) x,
     (S index, push (if 0 <? index then (out +:+ sep)%string else out) x)) l (0, out)).2.

Definition push_tsv_rows (out : string) (rows : list (list Value)) : string :=
  push_separated newline (push_separated (String tab_char "") push_tsv_value) out rows.
Definition format_tsv_rows (rows : list (list Value)) : string := push_tsv_rows "" rows.
Definition format_tsv (columns : list string) (rows : list (list Value)) : string :=
  push_tsv_rows (push_separated (String tab_char "") push_tsv_escaped "" columns +:+ newline)%string rows.

Definition push_query_result_csv_rows (out : string) (rows : list (list Value)) : string :=
  push_separated newline (push_separated "," push_csv_value) out rows.
Definition format_query_result_csv_rows (rows : list (list Value)) : string := push_query_result_csv_rows "" rows.
Definition format_csv_with_value_formatter (columns : list string) (rows : list (list Value)) : string :=
  push_query_result_csv_rows (push_separated "," push_csv_escaped "" columns +:+ newline)%string rows.
Definition format_csv (columns : list string) (rows : list (list Value)) : string :=
  format_csv_with_value_formatter columns rows.
Definition format_query_result_csv (columns : list string) (rows : list (list Value)) : string :=
  format_csv columns rows.

(** [usize::saturating_add], [saturating_mul]. *)
Definition usize_max : Z := (2 ^ 64 - 1)%Z.
Definition saturating (n : Z) : Z := Z.min n usize_max.
Definition ROWS_CAPACITY_ESTIMATE_MAX : Z := (16 * 1024 * 1024)%Z.
Definition estimated_rows_capacity (rows : list (list Value)) : Z :=
  let cells := fold_left (λ acc row, saturating (acc + Z.of_nat (List.length row))) rows 0%Z in
  Z.min (saturating (cells * 12)) ROWS_CAPACITY_ESTIMATE_MAX.

(** ** The export of a table into a file *)

(** The file behind the writer: what it holds, and what the next writes do
    (a write past the script succeeds). *)
Record Disk : Type := { content : string; faults : list (option string) }.

Definition write_all (s : string) : M Disk unit := λ d,
  match faults d with
  | Some e :: fs => (Err e, {| content := content d; faults := fs |})
  | None :: fs => (Ok tt, {| content := content d +:+ s; faults := fs |})
  | [] => (Ok tt, {| content := content d +:+ s; faults := [] |})
  end.

Fixpoint write_row {A} (text : A → string) (first : bool) (values : list A) : M Disk unit :=
  match values with
  | [] => mret tt
  | v :: values' =>
      _ ← (if first then mret tt else write_all ",");
      _ ← write_all (text v);
      write_row text false values'
  end.
Definition write_csv_text_row (values : list string) : M Disk unit := write_row escape_csv true values.
Definition write_csv_value_row (values : list Value) : M Disk unit := write_row format_csv_value true values.

Record TableCsvExportOptions : Type := {
  file_path : string; connection_id : string; database : string; schema : option string;
  table_name : string; columns : list string; page_size : option nat; timeout_secs : option Z
}.
Definition TABLE_DATA_EXPORT_PAGE_SIZE : nat := 10 * (10 * (10 * 10)).

Section table.
(** The connections known to the application, creating the file (or
    the reason why it cannot be), and one page of the table, which
    the dialect's SELECT and the connection's driver produce. *)
Context {DatabaseType : Type} (configs : gmap string DatabaseType) (create : string → result Disk string).
Context (select_page : TableCsvExportOptions → DatabaseType → nat → nat → result (list string * list (list Value)) string).

Definition connection_database_type (id : string) : result DatabaseType string :=
  match configs !! id with
  | Some t => Ok t
  | None => Err ("Connection config not found: " +:+ id)%string
  end.

Fixpoint write_rows (rows : list (list Value)) : M Disk unit :=
  match rows with
  | [] => mret tt
  | row :: rows' => _ ← write_all newline; _ ← write_csv_value_row row; write_rows rows'
  end.

(** One turn of the loop per page; [None] is a loop that is still running.
    The result is the number of exported rows. *)
Fixpoint export_pages (fuel : nat) (o : TableCsvExportOptions) (t : DatabaseType) (size offset exported : nat)
    (wrote_header : bool) (d : Disk) : option (result nat string * Disk) :=
  match fuel with
  | 0 => None
  | S fuel' =>
      match select_page o t size offset with
      | Err e => Some (Err e, d)
      | Ok (cols, rows) =>
          match (_ ← (if wrote_header then mret tt else write_csv_text_row cols); mret tt) d with
          | (Err e, d) => Some (Err e, d)
          | (Ok _, d) =>
              let fetched := List.length rows in
              if fetched =? 0 then Some (Ok exported, d)
              else
                match write_rows rows d with
                | (Err e, d) => Some (Err e, d)
                | (Ok _, d) =>
                    let exported := exported + fetched in
                    if fetched <? size then Some (Ok exported, d)
                    else export_pages fuel' o t size (offset + fetched) exported true d
                end
          end
      end
  end.

(** The byte order mark, U+FEFF in UTF-8. *)
Definition bom : string := encode_utf8 65279%N.

Definition export_table_data_csv_core (fuel : nat) (o : TableCsvExportOptions)
    : option (result nat string * option Disk) :=
  match connection_database_type (connection_id o) with
  | Err e => Some (Err e, None)
  | Ok t =>
      let size := Nat.max (default TABLE_DATA_EXPORT_PAGE_SIZE (page_size o)) 1 in
      match create (file_path o) with
      | Err e => Some (Err ("Failed to write CSV file: " +:+ e)%string, None)
      | Ok d =>
          match write_all bom d with
          | (Err e, d) => Some (Err e, Some d)
          | (Ok _, d) =>
              '(r, d) ← export_pages fuel o t size 0 0 false d;
              match r with
              | Err e => Some (Err e, Some d)
              | Ok n =>
                  match (if n =? 0 then write_all newline d else (Ok tt, d)) with
                  | (Err e, d) => Some (Err e, Some d)
                  | (Ok _, d) => Some (Ok n, Some d)
                  end
              end
          end
      end
  end.
End table.

(** ** JSON and Markdown *)

Definition row_object (columns : list string) (row : list Value) : list (string * Value) :=
  fold_left (λ object '(index, column),
    match row !! index with Some value => obj_insert object column value | None => object end)
    (imap pair columns) [].

Definition format_json (to_string_pretty : Value → result string string) (columns : list string)
    (rows : list (list Value)) : result string string :=
  to_string_pretty (Array ((λ row, Object (row_object columns row)) <$> rows)).

Definition display_cell (value : Value) : string :=
  match value with
  | Null => "NULL"
  | Bool b => bool_text b
  | Number token => token
  | VString s => s
  | other => json_text other
  end.

Definition crlf : string := (carriage_return +:+ newline)%string.
Definition markdown_cell (value : string) : string :=
  replace (replace (replace value "|" "\|") crlf "<br>") newline "<br>".

Definition chars_count (s : string) : nat := List.length (chars s).
Fixpoint repeat_string (s : string) (n : nat) : string :=
  match n with 0 => "" | S n' => (s +:+ repeat_string s n')%string end.
Definition pad (value : string) (width : nat) : string :=
  if width <=? chars_count value then value else (value +:+ repeat_string " " (width - chars_count value))%string.

Definition max_list (l : list nat) : nat := foldr Nat.max 0 l.
Definition widths (cols : list string) (rows : list (list string)) : list nat :=
  imap (λ index column,
    Nat.max (Nat.max (chars_count column) (max_list ((λ row, from_option chars_count 0 (row !! index)) <$> rows))) 3)
    cols.
Definition markdown_line (cells : list string) : string := ("| " +:+ join " | " cells +:+ " |")%string.

Definition format_markdown (columns : list string) (rows : list (list Value)) : string :=
  let cols := markdown_cell <$> columns in
  let rows := (λ row, (λ cell, markdown_cell (display_cell cell)) <$> row) <$> rows in
  let ws := widths cols rows in
  let header := markdown_line (imap (λ i c, pad c (default 0 (ws !! i))) cols) in
  let separator := markdown_line (repeat_string "-" <$> ws) in
  let body := join newline
    ((λ row, markdown_line (imap (λ i c, pad c (default 3 (ws !! i))) row)) <$> rows) in
  (join newline (List.filter (λ part, negb (is_empty part)) [header; separator; body]) +:+ newline)%string.
End export.

(** ** What the writers append *)

Fixpoint doubled (s : string) : string :=
  match s with
  | EmptyString => EmptyString
  | String a s' => if Ascii.eqb a quote_char then String a (String a (doubled s')) else String a (doubled s')
  end.

Lemma find_char_Some c s pos :
  find_char c s = Some pos →
  ∃ a b, s = (a +:+ String c b)%string ∧ len a = pos ∧ find_char c a = None.
Proof.
  revert pos. induction s as [|x s IH]; intros pos; [done|]. cbn.
  destruct (Ascii.eqb_spec x c) as [->|Hne]; [intros [= <-]; by exists "", s|].
  intros (p & Hp & ->)%fmap_Some. destruct (IH p Hp) as (a & b & -> & <- & Ha).
  exists (String x a), b. split; [done|]. split; [done|]. cbn.
  rewrite (proj2 (Ascii.eqb_neq _ _) Hne). by rewrite Ha.
Qed.

Lemma doubled_app a b : doubled (a +:+ b)%string = (doubled a +:+ doubled b)%string.
Proof. induction a as [|x a IH]; [done|]. cbn. rewrite IH. by destruct (Ascii.eqb x quote_char). Qed.

Lemma doubled_none a : find_char quote_char a = None → doubled a = a.
Proof.
  induction a as [|x a IH]; [done|]. cbn. destruct (Ascii.eqb x quote_char); [done|].
  intros H%fmap_None. by rewrite IH.
Qed.

Lemma escape_loop_spec fuel out s : len s ≤ fuel → escape_loop fuel out s = (out +:+ doubled s)%string.
Proof.
  revert out s. induction fuel as [|fuel IH]; intros out s Hl.
  { destruct s; [done|unfold len in Hl; cbn in Hl; lia]. }
  cbn [escape_loop].
  destruct (find_char quote_char s) as [pos|] eqn:E; [|by rewrite doubled_none].
  apply find_char_Some in E as (a & b & -> & <- & Ha).
  assert ((a +:+ String quote_char b)%string = ((a +:+ dquote) +:+ b)%string) as Heq
    by (by rewrite <-string_app_assoc).
  assert (len a + 1 = len (a +:+ dquote)%string) as Hla by (by rewrite string_app_length).
  rewrite Hla, Heq, skip_bytes_app. unfold take_bytes. rewrite substring_take, IH.
  - rewrite !doubled_app, (doubled_none a Ha). by rewrite <-!string_app_assoc.
  - rewrite string_app_length in Hl. unfold len in *. cbn in Hl. lia.
Qed.

Lemma push_csv_escaped_content_spec out s : push_csv_escaped_content out s = (out +:+ doubled s)%string.
Proof. by apply escape_loop_spec. Qed.

Definition quoted (s : string) : string := (dquote +:+ doubled s +:+ dquote)%string.

Lemma push_csv_escaped_spec out s : push_csv_escaped out s = (out +:+ quoted s)%string.
Proof. unfold push_csv_escaped, quoted. by rewrite push_csv_escaped_content_spec, <-!string_app_assoc. Qed.

Lemma join_cons (sep x : string) (l : list string) :
  join sep (x :: l) = (x +:+ match l with [] => "" | _ => sep +:+ join sep l end)%string.
Proof. destruct l; [by rewrite string_app_nil_r|done]. Qed.

Lemma join_empty_cons (x : string) (l : list string) : join "" (x :: l) = (x +:+ join "" l)%string.
Proof. rewrite join_cons. by destruct l. Qed.

(** A writer that only appends, and the separators between its items. *)
Lemma push_separated_spec {A} sep (push : string → A → string) (f : A → string) l :
  Forall (λ x, ∀ out, push out x = (out +:+ f x)%string) l →
  ∀ out, push_separated sep push out l = (out +:+ join sep (f <$> l))%string.
Proof.
  intros Hp out. unfold push_separated. destruct Hp as [|x l Hx Hp]; [cbn; by rewrite string_app_nil_r|].
  cbn [fold_left Nat.ltb Nat.leb]. rewrite Hx.
  assert (∀ n out, (fold_left (λ '(index, out) x,
      (S index, push (if 0 <? index then (out +:+ sep)%string else out) x)) l (S n, out)).2
    = (out +:+ String.concat "" ((λ x, sep +:+ f x) <$> l))%string) as H.
  { clear out. induction Hp as [|y l Hy _ IH]; intros n out; [cbn; by rewrite string_app_nil_r|].
    cbn [fold_left Nat.ltb Nat.leb]. rewrite IH, Hy, fmap_cons. change (String.concat "") with (join "").
    by rewrite join_empty_cons, <-!string_app_assoc. }
  rewrite H, fmap_cons, <-string_app_assoc. f_equal. clear.
  revert x. induction l as [|y l IH]; intros x; rewrite join_cons; [done|].
  rewrite !fmap_cons, <-IH. change (String.concat "") with (join "").
  by rewrite join_empty_cons, <-string_app_assoc.
Qed.

Section spec.
Context (json_pieces : Value → list string).

Lemma fold_escaped out l : fold_left push_csv_escaped_content l out = (out +:+ doubled (join "" l))%string.
Proof.
  revert out. induction l as [|x l IH]; intros out; [cbn; by rewrite string_app_nil_r|].
  cbn [fold_left]. by rewrite IH, push_csv_escaped_content_spec, join_empty_cons, doubled_app, string_app_assoc.
Qed.

(** Tokens of numbers hold none of the characters the formats reserve. *)
Definition bare (sep : ascii) (s : string) : bool :=
  negb (contains_char quote_char s) && negb (contains_char sep s) && negb (contains_char newline_char s).
Definition tokens_ok (sep : ascii) (v : Value) : bool :=
  match v with Number token => bare sep token | _ => true end.

Lemma contains_char_false c s : contains_char c s = false ↔ find_char c s = None.
Proof. unfold contains_char. rewrite bool_decide_eq_false. by rewrite <-eq_None_not_Some. Qed.

Lemma bare_spec sep s :
  bare sep s = true ↔ find_char quote_char s = None ∧ find_char sep s = None ∧ find_char newline_char s = None.
Proof. unfold bare. rewrite !andb_true_iff, !negb_true_iff, !contains_char_false. tauto. Qed.

Lemma push_csv_text_value_spec out v sep :
  tokens_ok sep v = true → v ≠ Null →
  push_csv_text_value json_pieces out v = (out +:+ quoted (display_cell json_pieces v))%string.
Proof.
  unfold push_csv_text_value, quoted. rewrite string_app_assoc. intros Ht Hn.
  destruct v as [|b|t|s|l|m]; cbn [display_cell]; rewrite string_app_assoc; f_equal; try done.
  - f_equal. by destruct b.
  - apply bare_spec in Ht as (Ht & _). by rewrite doubled_none.
  - apply push_csv_escaped_content_spec.
  - apply fold_escaped.
  - apply fold_escaped.
Qed.

Definition csv_text (v : Value) : string := if is_null v then "" else quoted (display_cell json_pieces v).

Lemma push_csv_value_spec sep out v :
  tokens_ok sep v = true → push_csv_value json_pieces out v = (out +:+ csv_text v)%string.
Proof.
  intros Ht. unfold push_csv_value, csv_text. destruct (is_null v) eqn:E; [by rewrite string_app_nil_r|].
  apply (push_csv_text_value_spec out v sep Ht). by intros ->.
Qed.

(** [contains] of tab, newline, carriage return or quote. *)
Definition special (s : string) : bool :=
  contains_char tab_char s || contains_char newline_char s
  || contains_char (ascii_of_nat 13) s || contains_char quote_char s.
Definition tsv_string (s : string) : string := if special s then quoted s else s.
Definition tsv_text (v : Value) : string :=
  match v with
  | Null => ""
  | Bool _ | Number _ => display_cell json_pieces v
  | v => tsv_string (display_cell json_pieces v)
  end.

Lemma push_tsv_escaped_spec out s : push_tsv_escaped out s = (out +:+ tsv_string s)%string.
Proof.
  unfold push_tsv_escaped, tsv_string. fold (special s). destruct (special s); [apply push_csv_escaped_spec|done].
Qed.

Lemma push_tsv_value_spec out v : push_tsv_value json_pieces out v = (out +:+ tsv_text v)%string.
Proof.
  destruct v; cbn [push_tsv_value tsv_text display_cell]; rewrite ?push_tsv_escaped_spec, ?string_app_nil_r; done.
Qed.
End spec.

(** ** A reader of separated values (RFC 4180) *)

(** A cell, with or without quotes around it. *)
Inductive cell : Type := Bare (s : string) | Quoted (s : string).

Inductive reading : Type :=
| Plain (acc : string)
| InQuotes (acc : string)
| Closed (acc : string).

Definition finished (st : reading) : cell :=
  match st with Plain acc => Bare acc | InQuotes acc | Closed acc => Quoted acc end.
Definition snoc (s : string) (a : ascii) : string := (s +:+ String a "")%string.

(** [None] when a quote is left open or stands where it may not. *)
Fixpoint read_cells (sep : ascii) (st : reading) (row : list cell) (s : string) : option (list (list cell)) :=
  match s with
  | EmptyString => match st with InQuotes _ => None | _ => Some [row ++ [finished st]] end
  | String a s' =>
      let next :=
        if Ascii.eqb a sep then read_cells sep (Plain "") (row ++ [finished st]) s'
        else if Ascii.eqb a newline_char
        then cons (row ++ [finished st]) <$> read_cells sep (Plain "") [] s'
        else match st with Plain acc => read_cells sep (Plain (snoc acc a)) row s' | _ => None end in
      match st with
      | InQuotes acc =>
          if Ascii.eqb a quote_char then read_cells sep (Closed acc) row s'
          else read_cells sep (InQuotes (snoc acc a)) row s'
      | Closed acc => if Ascii.eqb a quote_char then read_cells sep (InQuotes (snoc acc a)) row s' else next
      | Plain acc =>
          if Ascii.eqb a quote_char
          then if is_empty acc then read_cells sep (InQuotes "") row s' else None
          else next
      end
  end.
Definition read_table (sep : ascii) (s : string) : option (list (list cell)) := read_cells sep (Plain "") [] s.

Lemma snoc_app acc a s : (snoc acc a +:+ s = acc +:+ String a s)%string.
Proof. unfold snoc. by rewrite <-string_app_assoc. Qed.

Lemma read_doubled sep v : ∀ acc row rest,
  read_cells sep (InQuotes acc) row (doubled v +:+ dquote +:+ rest)%string
  = read_cells sep (Closed (acc +:+ v)%string) row rest.
Proof.
  induction v as [|a v IH]; intros acc row rest; [by rewrite string_app_nil_r|]. cbn [doubled].
  destruct (Ascii.eqb a quote_char) eqn:E; cbn [String.append read_cells]; rewrite ?E; cbn [read_cells]; rewrite ?E.
  - change (doubled v ++ dquote ++ rest)%string with (doubled v +:+ dquote +:+ rest)%string.
    by rewrite IH, snoc_app.
  - by rewrite IH, snoc_app.
Qed.

Lemma read_quoted sep v row rest :
  read_cells sep (Plain "") row (quoted v +:+ rest)%string = read_cells sep (Closed v) row rest.
Proof.
  unfold quoted. rewrite <-!string_app_assoc. cbn [dquote String.append read_cells]. apply read_doubled.
Qed.

Lemma read_bare sep v : bare sep v = true → ∀ acc row rest,
  read_cells sep (Plain acc) row (v +:+ rest)%string = read_cells sep (Plain (acc +:+ v)%string) row rest.
Proof.
  intros (H1 & H2 & H3)%bare_spec. induction v as [|a v IH]; intros acc row rest; [by rewrite string_app_nil_r|].
  cbn in H1, H2, H3. cbn [String.append read_cells].
  destruct (Ascii.eqb a quote_char); [done|]. destruct (Ascii.eqb a sep); [done|].
  destruct (Ascii.eqb a newline_char); [done|]. apply fmap_None in H1, H2, H3.
  rewrite <-snoc_app. by apply IH.
Qed.

(** The reader behind a cell. *)
Definition behind (c : cell) : reading := match c with Bare s => Plain s | Quoted s => Closed s end.

Lemma finished_behind c : finished (behind c) = c.
Proof. by destruct c. Qed.

Section rows.
Context (sep : ascii) (Hq : Ascii.eqb sep quote_char = false) (Hn : Ascii.eqb newline_char sep = false).
Context {A : Type} (text : A → string) (cell_of : A → cell) (ok : A → bool).
Context (Hcell : ∀ x row rest, ok x = true →
  read_cells sep (Plain "") row (text x +:+ rest)%string = read_cells sep (behind (cell_of x)) row rest).

Lemma read_sep c row s :
  read_cells sep (behind c) row (String sep s) = read_cells sep (Plain "") (row ++ [c]) s.
Proof. cbn. rewrite Hq, Ascii.eqb_refl, finished_behind. by destruct c. Qed.

Lemma read_newline c row s :
  read_cells sep (behind c) row (newline +:+ s)%string = cons (row ++ [c]) <$> read_cells sep (Plain "") [] s.
Proof.
  unfold newline. change (ascii_of_nat 10) with newline_char. cbn [String.append read_cells].
  rewrite Hn, Ascii.eqb_refl, finished_behind. by destruct c.
Qed.

Lemma read_end c row : read_cells sep (behind c) row "" = Some [row ++ [c]].
Proof. by destruct c. Qed.

(** A row of cells, then [rest], which ends the row. *)
Lemma read_row l rest K : l ≠ [] → forallb ok l = true →
  (∀ c row, read_cells sep (behind c) row rest = K (row ++ [c])) →
  ∀ row, read_cells sep (Plain "") row (join (String sep "") (text <$> l) +:+ rest)%string
         = K (row ++ (cell_of <$> l)).
Proof.
  intros Hne Hok HK. induction l as [|x l IH]; [done|]. cbn [forallb] in Hok. apply andb_true_iff in Hok as [Hx Hl].
  intros row. rewrite !fmap_cons, join_cons, <-string_app_assoc, Hcell by done.
  destruct l as [|y l]; [apply HK|]. specialize (IH ltac:(done) Hl).
  rewrite fmap_cons in IH |- *. cbv iota beta. rewrite <-string_app_assoc. cbn [String.append]. rewrite read_sep, IH. by rewrite <-app_assoc.
Qed.

Lemma read_rows (rows : list (list A)) : rows ≠ [] → Forall (λ l : list A, l ≠ [] ∧ forallb ok l = true) rows →
  read_cells sep (Plain "") [] (join newline ((λ l : list A, join (String sep "") (text <$> l)) <$> rows))
  = Some ((λ l : list A, cell_of <$> l) <$> rows).
Proof.
  intros Hne. induction 1 as [|l rows [Hl Hok] _ IH]; [done|]. rewrite !fmap_cons, join_cons.
  destruct rows as [|l' rows].
  - by rewrite (read_row l "" (λ row, Some [row]) Hl Hok (λ c row, read_end c row)).
  - specialize (IH ltac:(done)). rewrite fmap_cons in IH |- *.
    set (tail := join newline _) in *.
    rewrite (read_row l (newline +:+ tail) (λ row, cons row <$> read_cells sep (Plain "") [] tail) Hl Hok
      (λ c row, read_newline c row tail)).
    by rewrite IH.
Qed.
End rows.

(** ** The cells a result is read back as *)

Section cells.
Context (json_pieces : Value → list string).
Let json_display := display_cell json_pieces.

(** NULL is the empty cell without quotes. *)
Definition csv_cell (v : Value) : cell := if is_null v then Bare "" else Quoted (display_cell json_pieces v).
Definition tsv_string_cell (s : string) : cell := if special s then Quoted s else Bare s.
Definition tsv_cell (v : Value) : cell :=
  match v with
  | Null => Bare ""
  | Bool _ | Number _ => Bare (display_cell json_pieces v)
  | v => tsv_string_cell (display_cell json_pieces v)
  end.

Lemma read_csv_cell x row rest :
  read_cells "," (Plain "") row (csv_text json_pieces x +:+ rest)%string
  = read_cells "," (behind (csv_cell x)) row rest.
Proof. unfold csv_text, csv_cell. destruct (is_null x); [done|]. apply read_quoted. Qed.

Lemma read_tsv_string s row rest :
  read_cells tab_char (Plain "") row (tsv_string s +:+ rest)%string
  = read_cells tab_char (behind (tsv_string_cell s)) row rest.
Proof.
  unfold tsv_string, tsv_string_cell. destruct (special s) eqn:E; [apply read_quoted|]. apply read_bare.
  unfold special in E. rewrite !orb_false_iff in E. destruct E as [[[E1 E2] _] E4].
  unfold bare. by rewrite E1, E2, E4.
Qed.

Lemma read_tsv_cell x row rest : tokens_ok tab_char x = true →
  read_cells tab_char (Plain "") row (tsv_text json_pieces x +:+ rest)%string
  = read_cells tab_char (behind (tsv_cell x)) row rest.
Proof.
  intros Hx. destruct x as [|b|t|s|l|m]; cbn [tsv_text tsv_cell]; try apply read_tsv_string.
  - done.
  - apply (read_bare tab_char). by destruct b.
  - by apply (read_bare tab_char).
Qed.

(** A table that can be read back: columns, rows, and a cell in every row. *)
Definition table_ok (sep : ascii) (columns : list string) (rows : list (list Value)) : bool :=
  negb (bool_decide (columns = [])) && negb (bool_decide (rows = [])) &&
  forallb (λ row, negb (bool_decide (row = [])) && forallb (tokens_ok sep) row) rows.

Lemma table_ok_spec sep columns rows : table_ok sep columns rows = true →
  columns ≠ [] ∧ rows ≠ [] ∧ Forall (λ row, row ≠ [] ∧ forallb (tokens_ok sep) row = true) rows.
Proof.
  unfold table_ok. rewrite !andb_true_iff, !negb_true_iff, !bool_decide_eq_false, forallb_forall.
  intros ((Hc & Hr) & H). split_and!; [done..|]. apply Forall_forall. intros row Hin%list_elem_of_In.
  apply H, andb_true_iff in Hin as [Hne Hok]. by apply negb_true_iff, bool_decide_eq_false in Hne.
Qed.

Lemma push_rows_spec (sep : ascii) (push : string → Value → string) (text : Value → string) out rows :
  (∀ out v, tokens_ok sep v = true → push out v = (out +:+ text v)%string) →
  Forall (λ row, forallb (tokens_ok sep) row = true) rows →
  push_separated newline (push_separated (String sep "") push) out rows
  = (out +:+ join newline ((λ row, join (String sep "") (text <$> row)) <$> rows))%string.
Proof.
  intros Hp Hrows. apply (push_separated_spec newline _ (λ row, join (String sep "") (text <$> row))).
  eapply Forall_impl; [exact Hrows|]. cbn. intros row Hrow out'. apply push_separated_spec.
  rewrite forallb_forall in Hrow. apply Forall_forall. intros v Hv out''. apply Hp, Hrow. by apply list_elem_of_In.
Qed.

Lemma push_columns_spec sep (push : string → string → string) (text : string → string) (columns : list string) out :
  (∀ out s, push out s = (out +:+ text s)%string) →
  push_separated sep push out columns = (out +:+ join sep (text <$> columns))%string.
Proof. intros Hp. apply push_separated_spec, Forall_forall. auto. Qed.

(** The header and the rows, as one list of lines. *)
Lemma read_header_rows (sep : ascii) (htext : string → string) (hcell : string → cell) (text : Value → string)
    (cell_of : Value → cell) columns rows :
  Ascii.eqb sep quote_char = false → Ascii.eqb newline_char sep = false →
  (∀ x row rest, read_cells sep (Plain "") row (htext x +:+ rest)%string = read_cells sep (behind (hcell x)) row rest) →
  (∀ x row rest, tokens_ok sep x = true →
    read_cells sep (Plain "") row (text x +:+ rest)%string = read_cells sep (behind (cell_of x)) row rest) →
  table_ok sep columns rows = true →
  read_table sep (join (String sep "") (htext <$> columns) +:+ newline
    +:+ join newline ((λ row, join (String sep "") (text <$> row)) <$> rows))%string
  = Some ((hcell <$> columns) :: ((λ row, cell_of <$> row) <$> rows)).
Proof.
  intros Hq Hn Hh Hc (Hcols & Hne & Hrows)%table_ok_spec. unfold read_table.
  set (tail := join newline _).
  rewrite (read_row sep Hq htext hcell (λ _, true) (λ x row rest _, Hh x row rest) columns (newline +:+ tail)
    (λ row, cons row <$> read_cells sep (Plain "") [] tail) Hcols); [|by apply forallb_forall|].
  - unfold tail. rewrite (read_rows sep Hq Hn text cell_of (tokens_ok sep) Hc rows Hne Hrows). done.
  - intros c row. by apply read_newline.
Qed.

Lemma columns_text sep (htext : string → string) columns rows (push : string → string → string) (pushv : string → Value → string) text :
  (∀ out s, push out s = (out +:+ htext s)%string) →
  (∀ out v, tokens_ok sep v = true → pushv out v = (out +:+ text v)%string) →
  table_ok sep columns rows = true →
  push_separated newline (push_separated (String sep "") pushv)
    (push_separated (String sep "") push "" columns +:+ newline)%string rows
  = (join (String sep "") (htext <$> columns) +:+ newline
     +:+ join newline ((λ row, join (String sep "") (text <$> row)) <$> rows))%string.
Proof.
  intros Hp Hv (_ & _ & Hrows)%table_ok_spec. rewrite (push_rows_spec sep _ text), (push_columns_spec _ _ htext);
    [by rewrite <-string_app_assoc|done..|]. eapply Forall_impl; [done|]. by intros row [_ ?].
Qed.

(** C24: a table of at least one column, one row and one cell per row is read
    back from its CSV and from its TSV: the header and every cell, whatever
    separators, quotes and line breaks its text has. In CSV a NULL is the only
    cell without quotes. *)
Theorem separated_values_roundtrip columns rows :
  (table_ok "," columns rows = true →
     read_table "," (format_csv json_pieces columns rows)
     = Some ((Quoted <$> columns) :: ((λ row, csv_cell <$> row) <$> rows))) ∧
  (table_ok tab_char columns rows = true →
     read_table tab_char (format_tsv json_pieces columns rows)
     = Some ((tsv_string_cell <$> columns) :: ((λ row, tsv_cell <$> row) <$> rows))).
Proof.
  split; intros Hok.
  - unfold format_csv, format_csv_with_value_formatter, push_query_result_csv_rows.
    rewrite (columns_text "," quoted _ _ _ _ (csv_text json_pieces)); [|apply push_csv_escaped_spec|apply push_csv_value_spec|done].
    apply read_header_rows; [done..| | |done].
    + intros x row rest. apply read_quoted.
    + intros x row rest _. apply read_csv_cell.
  - unfold format_tsv, push_tsv_rows.
    rewrite (columns_text tab_char tsv_string _ _ _ _ (tsv_text json_pieces)); [|apply push_tsv_escaped_spec|intros; apply push_tsv_value_spec|done].
    apply read_header_rows; [done..| | |done].
    + intros x row rest. apply read_tsv_string.
    + apply read_tsv_cell.
Qed.
End cells.

(** A piece per value, for evaluation. *)
Definition sample_pieces (v : Value) : list string := match v with Array _ => ["["; dquote; "]"] | _ => ["{}"] end.
Definition sample_rows : list (list Value) :=
  [[Number "1"; VString ("a" +:+ dquote +:+ ",b"); Null]; [Bool true; Array []; VString newline]].

Lemma separated_values_roundtrip_witness :
  table_ok "," ["x"; "y,"; dquote] sample_rows = true ∧
  read_table "," (format_csv sample_pieces ["x"; "y,"; dquote] sample_rows)
  = Some ((Quoted <$> ["x"; "y,"; dquote]) :: ((λ row, csv_cell sample_pieces <$> row) <$> sample_rows)).
Proof.
  split; [vm_compute; reflexivity|].
  apply (separated_values_roundtrip sample_pieces ["x"; "y,"; dquote] sample_rows). vm_compute. reflexivity.
Defined.

(** What the formats do not tell apart: a last row that is a single NULL and
    no row at all, and in TSV also NULL and the empty string. *)
Lemma formats_lose_nulls :
  format_csv sample_pieces ["a"] [[Null]] = format_csv sample_pieces ["a"] [] ∧
  format_tsv sample_pieces ["a"; "b"] [[Null; Null]] = format_tsv sample_pieces ["a"; "b"] [[VString ""; Null]].
Proof. by split; vm_compute. Qed.


(** ** The export of a table *)

Section export_table.
Context (json_pieces : Value → list string).

Lemma write_all_ok s c : write_all s {| content := c; faults := [] |} = (Ok tt, {| content := c +:+ s; faults := [] |}).
Proof. done. Qed.

Lemma m_bind_step {A B} (m : M Disk A) (f : A → M Disk B) d a d' : m d = (Ok a, d') → (x ← m; f x) d = f a d'.
Proof. apply m_bind_ok. Qed.

Lemma write_row_ok {A} (text : A → string) l c : ∀ first,
  write_row text first l {| content := c; faults := [] |}
  = (Ok tt, {| content := c +:+ match l with [] => "" | _ => (if first : bool then "" else ",") +:+ join "," (text <$> l) end;
               faults := [] |}).
Proof.
  revert c. induction l as [|x l IH]; intros c first; [cbn; by rewrite string_app_nil_r|]. cbn [write_row].
  assert (((if first then mret tt else write_all ",") : M Disk unit) {| content := c; faults := [] |}
    = (Ok tt, {| content := c +:+ (if first then "" else ","); faults := [] |})) as Hsep.
  { destruct first; [cbn; by rewrite string_app_nil_r|done]. }
  rewrite (m_bind_step _ _ _ _ _ Hsep), (m_bind_step _ _ _ _ _ (write_all_ok _ _)), IH, fmap_cons, join_cons.
  destruct l; by rewrite ?string_app_nil_r, <-?string_app_assoc.
Qed.

(** The lines of the rows, each behind its line break. *)
Definition row_line (row : list Value) : string := (newline +:+ join "," (csv_text json_pieces <$> row))%string.
Definition rows_lines (rows : list (list Value)) : string := join "" (row_line <$> rows).

Lemma rows_lines_cons row rows : rows_lines (row :: rows) = (row_line row +:+ rows_lines rows)%string.
Proof. unfold rows_lines. by rewrite fmap_cons, join_empty_cons. Qed.

Lemma rows_lines_app a b : rows_lines (a ++ b) = (rows_lines a +:+ rows_lines b)%string.
Proof. induction a as [|r a IH]; [done|]. by rewrite <-app_comm_cons, !rows_lines_cons, IH, string_app_assoc. Qed.

Definition rows_ok (rows : list (list Value)) : bool := forallb (forallb (tokens_ok ",")) rows.

Lemma row_texts row : forallb (tokens_ok ",") row = true → format_csv_value json_pieces <$> row = csv_text json_pieces <$> row.
Proof.
  rewrite forallb_forall. intros H. apply list_fmap_ext. intros i v Hv%list_elem_of_lookup_2.
  apply (push_csv_value_spec json_pieces "," ""), H. by apply list_elem_of_In.
Qed.

Lemma write_rows_ok rows c : rows_ok rows = true →
  write_rows json_pieces rows {| content := c; faults := [] |}
  = (Ok tt, {| content := c +:+ rows_lines rows; faults := [] |}).
Proof.
  revert c. induction rows as [|row rows IH]; intros c; [cbn; by rewrite string_app_nil_r|].
  cbn [rows_ok forallb]. intros [Hr Hrs]%andb_true_iff. cbn [write_rows].
  rewrite (m_bind_step _ _ _ _ _ (write_all_ok _ _)). unfold write_csv_value_row.
  rewrite (m_bind_step _ _ _ _ _ (write_row_ok _ _ _ _)), IH by done. rewrite row_texts, rows_lines_cons by done.
  unfold row_line. by destruct row; rewrite <-!string_app_assoc, ?string_app_nil_r.
Qed.

Lemma csv_lines cols rows : rows_ok rows = true →
  format_csv json_pieces cols rows
  = (join "," (quoted <$> cols) +:+ match rows with [] => newline | _ => rows_lines rows end)%string.
Proof.
  intros Hok. unfold format_csv, format_csv_with_value_formatter, push_query_result_csv_rows.
  rewrite (push_rows_spec "," _ (csv_text json_pieces)).
  - rewrite (push_columns_spec "," _ quoted) by apply push_csv_escaped_spec. rewrite <-string_app_assoc.
    cbn [String.append]. f_equal. destruct rows as [|row rows]; [done|]. clear Hok. revert row.
    induction rows as [|row' rows IH]; intros row; rewrite rows_lines_cons; unfold row_line at 1.
    + cbn. by rewrite string_app_nil_r.
    + rewrite fmap_cons, join_cons, fmap_cons, <-string_app_assoc. do 2 f_equal. apply IH.
  - apply push_csv_value_spec.
  - unfold rows_ok in Hok. rewrite forallb_forall in Hok. apply Forall_forall. intros r Hr.
    apply Hok. by apply list_elem_of_In.
Qed.

Definition header_line (cols : list string) (wrote_header : bool) : string := if wrote_header then "" else join "," (quoted <$> cols).

Lemma write_header cols wrote c :
  (_ ← (if wrote : bool then mret tt else write_csv_text_row cols); mret tt : M Disk unit) {| content := c; faults := [] |}
  = (Ok tt, {| content := c +:+ header_line cols wrote; faults := [] |}).
Proof.
  destruct wrote; [cbn; by rewrite string_app_nil_r|]. unfold write_csv_text_row.
  rewrite (m_bind_step _ _ _ _ _ (write_row_ok _ _ _ _)). unfold header_line.
  assert (escape_csv <$> cols = quoted <$> cols) as ->.
  { apply list_fmap_ext. intros i s _. apply (push_csv_escaped_spec ""). }
  by destruct cols.
Qed.

Context {DatabaseType : Type}.
Context (select_page : TableCsvExportOptions → DatabaseType → nat → nat → result (list string * list (list Value)) string).
Context (o : TableCsvExportOptions) (t : DatabaseType) (cols : list string) (table : list (list Value)) (size : nat).
Context (Hpage : ∀ offset, select_page o t size offset = Ok (cols, take size (drop offset table))).
Context (Hok : rows_ok table = true) (Hsize : 0 < size).

Lemma rows_ok_Forall rows : rows_ok rows = true ↔ Forall (λ row, forallb (tokens_ok ",") row = true) rows.
Proof.
  unfold rows_ok. rewrite forallb_forall, Forall_forall. by setoid_rewrite list_elem_of_In.
Qed.

Lemma rows_ok_part offset : rows_ok (take size (drop offset table)) = true.
Proof. apply rows_ok_Forall, Forall_take, Forall_drop. by apply rows_ok_Forall. Qed.

Lemma export_pages_spec fuel offset exported wrote c :
  List.length table - offset < size * fuel →
  export_pages json_pieces select_page fuel o t size offset exported wrote {| content := c; faults := [] |}
  = Some (Ok (exported + (List.length table - offset)),
          {| content := c +:+ header_line cols wrote +:+ rows_lines (drop offset table); faults := [] |}).
Proof.
  revert offset exported wrote c. induction fuel as [|fuel IH]; intros offset exported wrote c Hf; [lia|].
  cbn [export_pages]. rewrite Hpage, write_header. rewrite length_take, length_drop.
  destruct (Nat.eqb_spec (size `min` (List.length table - offset)) 0) as [H0|H0].
  - rewrite drop_ge by lia. change (rows_lines []) with "". rewrite string_app_nil_r. by match goal with |- Some (Ok ?a, _) = Some (Ok ?b, _) => replace b with a by lia end.
  - rewrite write_rows_ok by apply rows_ok_part.
    destruct (Nat.ltb_spec (size `min` (List.length table - offset)) size) as [Hlt|Hge].
    + rewrite take_ge by (rewrite length_drop; lia). rewrite <-string_app_assoc. by match goal with |- Some (Ok ?a, _) = Some (Ok ?b, _) => replace b with a by lia end.
    + rewrite IH by lia. rewrite <-!string_app_assoc.
      assert (rows_lines (drop offset table) = rows_lines (take size (drop offset table)) +:+ rows_lines (drop (offset + size) table))%string as ->.
      { by rewrite <-rows_lines_app, <-drop_drop, take_drop. }
      replace (offset + size `min` (List.length table - offset)) with (offset + size) by lia.
      rewrite <-?string_app_assoc. by match goal with |- Some (Ok ?a, _) = Some (Ok ?b, _) => replace b with a by lia end.
Qed.
End export_table.

(** Exporting a table page by page, from a database whose pages are the
    slices of one list of rows, writes the byte order mark and exactly the CSV
    text of all rows at once, whatever the page size, and reports their
    number. *)
Theorem export_is_one_csv json_pieces {DatabaseType} (configs : gmap string DatabaseType) create select_page
    o t cols table fuel :
  configs !! connection_id o = Some t → create (file_path o) = Ok {| content := ""; faults := [] |} →
  (let size := Nat.max (default TABLE_DATA_EXPORT_PAGE_SIZE (page_size o)) 1 in
   ∀ offset, select_page o t size offset = Ok (cols, take size (drop offset table))) →
  rows_ok table = true → List.length table < fuel →
  export_table_data_csv_core json_pieces configs create select_page fuel o
  = Some (Ok (List.length table),
          Some {| content := bom +:+ format_csv json_pieces cols table; faults := [] |}).
Proof.
  intros Hc Hcr Hpage Hok Hf. unfold export_table_data_csv_core, connection_database_type. rewrite Hc, Hcr, write_all_ok.
  set (size := _ `max` 1). rewrite (export_pages_spec json_pieces select_page o t cols table size).
  - change (drop 0 table) with table. rewrite csv_lines by done. cbn [mbind option_bind Nat.add header_line].
    rewrite Nat.sub_0_r. destruct table as [|row rows]; [|done]. cbn [List.length Nat.eqb]. rewrite write_all_ok.
    unfold rows_lines. cbn [list_fmap fmap join String.concat]. by rewrite string_app_nil_r, <-!string_app_assoc.
  - intros offset. apply Hpage.
  - done.
  - unfold size. lia.
  - unfold size. rewrite Nat.sub_0_r. nia.
Qed.

Definition sample_options : TableCsvExportOptions :=
  {| file_path := "f"; connection_id := "c"; database := "d"; schema := None; table_name := "t"; columns := [];
     page_size := Some 2; timeout_secs := None |}.
Definition sample_page (_ : TableCsvExportOptions) (_ : unit) (size offset : nat) :
    result (list string * list (list Value)) string :=
  Ok (["a"; "b"; "c"], take size (drop offset (sample_rows ++ sample_rows))).

Lemma export_is_one_csv_witness :
  export_table_data_csv_core sample_pieces {["c" := tt]} (λ _, Ok {| content := ""; faults := [] |}) sample_page 5 sample_options
  = Some (Ok 4, Some {| content := bom +:+ format_csv sample_pieces ["a"; "b"; "c"] (sample_rows ++ sample_rows); faults := [] |}).
Proof.
  apply (export_is_one_csv sample_pieces {["c" := tt]} (λ _, Ok {| content := ""; faults := [] |}) sample_page
    sample_options tt ["a"; "b"; "c"] (sample_rows ++ sample_rows) 5).
  - vm_compute. reflexivity.
  - reflexivity.
  - intros size offset. reflexivity.
  - vm_compute. reflexivity.
  - vm_compute. lia.
Defined.

(** ** JSON *)

Lemma obj_insert_new m k v : k ∉ m.*1 → obj_insert m k v = m ++ [(k, v)].
Proof.
  induction m as [|[k' v'] m IH]; [done|]. rewrite fmap_cons, not_elem_of_cons. cbn. intros [Hne Hm].
  destruct (String.eqb_spec k' k) as [->|]; [done|]. by rewrite IH.
Qed.

Lemma fold_row row cols : ∀ k object, NoDup cols → (∀ c, c ∈ cols → c ∉ object.*1) →
  fold_left (λ object '(index, column),
    match row !! index with Some value => obj_insert object column value | None => object end)
    (imap (λ i c, (k + i, c)) cols) object
  = object ++ zip cols (drop k row).
Proof.
  induction cols as [|c cols IH]; intros k object Hnd Hnew; [cbn; by rewrite app_nil_r|].
  apply NoDup_cons in Hnd as [Hc Hnd]. cbn [imap fold_left]. rewrite Nat.add_0_r.
  rewrite (imap_ext _ (λ i c, (S k + i, c))) by (intros i x _; cbn; f_equal; lia).
  destruct (row !! k) as [v|] eqn:E.
  - rewrite obj_insert_new by (apply Hnew; by left). rewrite IH; [|done|].
    + rewrite (drop_S _ _ _ E). cbn. by rewrite <-app_assoc.
    + intros c' Hc'. rewrite fmap_app, not_elem_of_app. split; [apply Hnew; by right|].
      cbn. rewrite list_elem_of_singleton. by intros ->.
  - rewrite IH; [|done|intros c' Hc'; apply Hnew; by right]. apply lookup_ge_None in E.
    rewrite !drop_ge by lia. by destruct cols.
Qed.

(** A row becomes the object of its cells under the column names, in
    their order, when the names differ; a column named like an earlier one
    takes over its place in the object, whose cell is lost. *)
Theorem json_rows :
  (∀ to_string_pretty columns rows, NoDup columns →
     format_json to_string_pretty columns rows
     = to_string_pretty (Array ((λ row, Object (zip columns row)) <$> rows))) ∧
  (∀ c x y, row_object [c; c] [x; y] = [(c, y)]).
Proof.
  split.
  - intros pr columns rows Hnd. unfold format_json. do 2 f_equal. apply list_fmap_ext. intros i row _. f_equal.
    apply (fold_row row columns 0 [] Hnd). by intros c _ ?%elem_of_nil.
  - intros c x y. cbn. by rewrite String.eqb_refl.
Qed.

Lemma json_rows_witness :
  format_json (λ v, Ok (bool_text (bool_decide (v = Array [Object [("a", Bool true); ("b", Null)]])))) ["a"; "b"] [[Bool true; Null]]
  = Ok "true".
Proof.
  rewrite (proj1 json_rows (λ v, Ok (bool_text (bool_decide (v = Array [Object [("a", Bool true); ("b", Null)]])))) ["a"; "b"] [[Bool true; Null]]).
  - vm_compute. reflexivity.
  - apply (bool_decide_unpack _). vm_compute. exact I.
Defined.

(** ** Markdown *)

(** The cells of a table line as GitHub reads it: a backslash takes the next
    character with it, any other pipe separates. *)
Fixpoint pipes (s : string) : nat :=
  match s with
  | String a s' =>
      if Ascii.eqb a "\" then match s' with String _ s'' => pipes s'' | EmptyString => 0 end
      else if Ascii.eqb a "|" then S (pipes s') else pipes s'
  | EmptyString => 0
  end.

(** A backslash before a pipe in a value undoes its escape: the line has a cell
    more than the table. *)
Lemma markdown_backslash :
  pipes (markdown_cell "a|b") = 0 ∧ pipes (markdown_cell "a\|b") = 1.
Proof. by split; vm_compute. Qed.
