(* ===== verification/ProductionSafety.v ===== *)
(** * Production scope (production_safety.rs)

    Whether a script or a MongoDB pipeline writes to a database marked as
    production: the text the targets are looked for in, the targets of each
    statement under the database a USE selected, and the verdict. The patterns
    of the file run on the third-party regex engine and are a parameter: for a
    pattern and a text, the groups of each match. *)
From S2P Require Import Prelude RustStr Json SqlText SqlSplit SqlGuard.

(** What the assessment reads of a [ConnectionConfig]. *)
Record ProductionConfig : Type := {
  is_production : bool;
  production_databases : list text;
  db_type : DatabaseType
}.

(** [trim_matches] of the quoting characters. *)
Definition is_quoting (x : N) : bool := (x =? BT)%N || (x =? DQ)%N || (x =? 91)%N || (x =? 93)%N.
Definition trim_matches (f : N → bool) (l : text) : text := rev (drop_while f (rev (drop_while f l))).
Definition normalize_database_name (value : text) : text :=
  to_ascii_lowercase_c <$> trim_matches is_quoting (trim_t value).

Definition text_is_empty (l : text) : bool := match l with [] => true | _ => false end.

Definition is_production_database (config : ProductionConfig) (database : text) : bool :=
  is_production config
  || (negb (text_is_empty (trim_t database))
      && existsb (λ name, text_eqb (normalize_database_name name) (normalize_database_name database))
           (production_databases config)).

(** ** MongoDB pipelines *)

Record MongoTargets : Type := { has_write_stage : bool; uncertain_target : bool; targets : gset text }.

Definition add_mongo_current_database (active : text) (s : MongoTargets) : MongoTargets :=
  if text_is_empty (trim_t active)
  then {| has_write_stage := has_write_stage s; uncertain_target := true; targets := targets s |}
  else {| has_write_stage := has_write_stage s; uncertain_target := uncertain_target s; targets := {[active]} ∪ targets s |}.

Definition mongo_uncertain (s : MongoTargets) : MongoTargets :=
  {| has_write_stage := has_write_stage s; uncertain_target := true; targets := targets s |}.
Definition mongo_write (s : MongoTargets) : MongoTargets :=
  {| has_write_stage := true; uncertain_target := uncertain_target s; targets := targets s |}.
Definition mongo_target (database : text) (s : MongoTargets) : MongoTargets :=
  {| has_write_stage := has_write_stage s; uncertain_target := uncertain_target s; targets := {[database]} ∪ targets s |}.

(** [target.get("db")] of an object that names a collection. *)
Definition add_object_target (fields : list (string * Value)) (s : MongoTargets) : MongoTargets :=
  match obj_get fields "db" ≫= as_str with
  | Some database => if text_is_empty (trim_t (c database)) then mongo_uncertain s else mongo_target (c database) s
  | None => mongo_uncertain s
  end.

Definition out_target (active : text) (target : Value) (s : MongoTargets) : MongoTargets :=
  match target with
  | VString _ => add_mongo_current_database active s
  | Object fields => add_object_target fields s
  | _ => mongo_uncertain s
  end.

Definition merge_target (active : text) (target : Value) (s : MongoTargets) : MongoTargets :=
  match target with
  | VString _ => add_mongo_current_database active s
  | Object fields =>
      match obj_get fields "into" with
      | Some (VString _) => add_mongo_current_database active s
      | Some (Object into) => add_object_target into s
      | _ => mongo_uncertain s
      end
  | _ => mongo_uncertain s
  end.

Definition mongo_stage (active : text) (s : MongoTargets) (stage : Value) : MongoTargets :=
  match stage with
  | Object document =>
      let s := match obj_get document "$out" with Some target => out_target active target (mongo_write s) | None => s end in
      match obj_get document "$merge" with Some target => merge_target active target (mongo_write s) | None => s end
  | _ => s
  end.

(** [from_str] is serde_json's parser. *)
Definition mongo_pipeline_targets_production_database (from_str : text → option Value)
    (config : ProductionConfig) (active_database pipeline_json : text) : bool :=
  if is_production_database config active_database then true
  else
    match from_str pipeline_json with
    | Some (Array stages) =>
        let s := fold_left (mongo_stage active_database) stages
                   {| has_write_stage := false; uncertain_target := false; targets := ∅ |} in
        has_write_stage s
        && (uncertain_target s || existsb (is_production_database config) (elements (targets s)))
    | _ => true
    end.

(** ** The text targets are looked for in *)

Record SqlTargetSafetyText : Type := { safety_text : text; quoted_identifiers : gmap text text }.

Definition push_text (x : text) (r : SqlTargetSafetyText) : SqlTargetSafetyText :=
  {| safety_text := safety_text r ++ x; quoted_identifiers := quoted_identifiers r |}.
Definition push_blank : SqlTargetSafetyText → SqlTargetSafetyText := push_text [32%N].

Definition is_line_end (x : N) : bool := (x =? 10)%N || (x =? 13)%N.
Definition next_is (l : text) (x : N) : bool := match l with y :: _ => (y =? x)%N | [] => false end.

(** The text up to the closing star and slash, and what follows them. *)
Fixpoint until_close (l : text) : text * text :=
  match l with
  | [] => ([], [])
  | x :: l' =>
      if (x =? 42)%N && next_is l' 47 then ([], List.tl l')
      else let '(body, rest) := until_close l' in (x :: body, rest)
  end.

(** From behind the slash and star of a comment: the body of one MySQL
    executes, and the text behind it. *)
Definition mysql_executable_comment_body (l : text) : option (text * text) :=
  let version l := drop_while (λ x, is_ascii_digit x || is_whitespace x) l in
  match l with
  | 33%N :: l' => Some (until_close (version l'))
  | 77%N :: 33%N :: l' => Some (until_close (version l'))
  | _ => None
  end.

(** A dollar quote opens here: its tag, with both dollars. *)
Definition dollar_quote_tag_at (l : text) : option text :=
  match l with
  | 36%N :: 36%N :: _ => Some [36; 36]%N
  | 36%N :: x :: l' =>
      if is_ascii_alphabetic x || (x =? 95)%N then
        let '(name, rest) := span_t is_word_char l' in
        if next_is rest 36 then Some (36%N :: x :: name ++ [36%N]) else None
      else None
  | _ => None
  end.

(** The text behind the first occurrence of [tag], nothing when there is none. *)
Fixpoint after_tag (tag l : text) : text :=
  match strip_prefix_t l tag with
  | Some rest => rest
  | None => match l with [] => [] | _ :: l' => after_tag tag l' end
  end.

(** The text behind a single-quoted literal; [escaped] is set behind a
    backslash, whose next character is skipped. *)
Fixpoint skip_string_literal (escaped : bool) (close : N) (l : text) : text :=
  match l with
  | [] => []
  | x :: l' =>
      if escaped then skip_string_literal false close l'
      else if (x =? 92)%N && ((close =? SQ)%N || (close =? DQ)%N) then skip_string_literal true close l'
      else if (x =? close)%N then
        match l' with
        | y :: l'' => if (y =? close)%N then skip_string_literal false close l'' else l'
        | [] => []
        end
      else skip_string_literal false close l'
  end.

(** The name inside quotes, a doubled quote standing for one and a semicolon
    for a blank, and what follows it. *)
Fixpoint quoted_identifier (close : N) (l : text) : text * text :=
  match l with
  | [] => ([], [])
  | x :: l' =>
      if (x =? close)%N then
        match l' with
        | y :: l'' => if (y =? close)%N then let '(i, r) := quoted_identifier close l'' in (close :: i, r) else ([], l')
        | [] => ([], [])
        end
      else let '(i, r) := quoted_identifier close l' in ((if (x =? 59)%N then 32%N else x) :: i, r)
  end.

(** [format!("__dbxq{}__", n)]. *)
Definition identifier_token (n : nat) : text := c "__dbxq" ++ c (pretty n) ++ c "__".

Definition append_quoted_identifier_token (close : N) (l : text) (r : SqlTargetSafetyText) : SqlTargetSafetyText * text :=
  let '(identifier, rest) := quoted_identifier close l in
  let token := identifier_token (size (quoted_identifiers r)) in
  (push_blank (push_text token (push_blank
     {| safety_text := safety_text r;
        quoted_identifiers := <[to_ascii_lowercase_c <$> token := identifier]> (quoted_identifiers r) |})), rest).

(** A turn per character, comment or quoted text; a turn reads at least one
    character, the body of an executable comment being a part of the text. *)
Fixpoint append_sql_target_safety_text (fuel : nat) (l : text) (r : SqlTargetSafetyText) : SqlTargetSafetyText :=
  match fuel, l with
  | 0, _ | _, [] => r
  | S fuel', ch :: rest =>
      if (ch =? 45)%N && next_is rest 45 then
        append_sql_target_safety_text fuel' (drop_while (negb ∘ is_line_end) (List.tl rest)) (push_blank r)
      else if (ch =? 35)%N then
        append_sql_target_safety_text fuel' (drop_while (negb ∘ is_line_end) rest) (push_blank r)
      else if (ch =? 47)%N && next_is rest 42 then
        match mysql_executable_comment_body (List.tl rest) with
        | Some (body, behind) =>
            append_sql_target_safety_text fuel' behind
              (push_blank (append_sql_target_safety_text fuel' body (push_blank r)))
        | None => append_sql_target_safety_text fuel' (until_close (List.tl rest)).2 (push_blank r)
        end
      else
        match dollar_quote_tag_at l with
        | Some tag => append_sql_target_safety_text fuel' (after_tag tag (drop (List.length tag) l)) (push_blank r)
        | None =>
            if (ch =? SQ)%N then append_sql_target_safety_text fuel' (skip_string_literal false SQ rest) (push_blank r)
            else if (ch =? DQ)%N || (ch =? BT)%N || (ch =? 91)%N then
              let '(r', rest') := append_quoted_identifier_token (if (ch =? 91)%N then 93%N else ch) rest r in
              append_sql_target_safety_text fuel' rest' r'
            else append_sql_target_safety_text fuel' rest (push_text [ch] r)
        end
  end.

Definition sql_target_safety_text (sql : text) : SqlTargetSafetyText :=
  append_sql_target_safety_text (List.length sql) sql {| safety_text := []; quoted_identifiers := ∅ |}.

(** ** Names and database types *)

Definition normalize_target_database_name (value : text) (quoted : gmap text text) : text :=
  let normalized := normalize_database_name value in
  match quoted !! normalized with Some identifier => normalize_database_name identifier | None => normalized end.

Definition catalog_type (d : DatabaseType) : bool :=
  match d with SqlServer | Snowflake | Trino | PrestoSql | Databricks | Bigquery => true | _ => false end.

Definition schema_first_qualifier_type (d : DatabaseType) : bool :=
  match d with
  | Postgres | Redshift | Gaussdb | Kwdb | OpenGauss | Kingbase | Highgo | Uxdb | Vastbase | Yashandb | Oracle
  | OceanbaseOracle | Dameng | Firebird | Exasol | Teradata | Vertica | Db2 | Informix | H2 | Iris | Xugu | Oscar
  | Gbase | SapHana | SqlServer | Snowflake | Trino | PrestoSql | Databricks | Bigquery => true
  | _ => false
  end.

Definition qualified_first_part_is_database (d : DatabaseType) (part_count : nat) : bool :=
  if (3 <=? part_count) && catalog_type d then true
  else if schema_first_qualifier_type d then false
  else 2 <=? part_count.

Definition database_target_kind_means_database (kind : text) (d : DatabaseType) : bool :=
  text_eq_ignore_ascii_case kind (c "database") || text_eq_ignore_ascii_case kind (c "catalog")
  || text_eq_ignore_ascii_case kind (c "schema") && negb (schema_first_qualifier_type d).

Definition non_empty (l : text) : option text := if text_is_empty l then None else Some l.

Definition database_from_qualified_name (qualified_name : text) (d : DatabaseType) (quoted : gmap text text)
    (current : text) : option text :=
  let parts := List.filter (λ part, negb (text_is_empty part))
    ((λ part, normalize_target_database_name part quoted) <$> split_t (N.eqb 46) qualified_name []) in
  if List.length parts <? 2 then non_empty current
  else if qualified_first_part_is_database d (List.length parts) then head parts
  else non_empty current.

Definition is_transaction_keyword (keyword : text) : bool :=
  existsb (λ k, text_eqb keyword (c k)) ["begin"; "start"; "commit"; "rollback"; "abort"; "savepoint"; "release"].

(** ** Targets *)

(** The patterns of the file. *)
Inductive Pattern : Type :=
| DML_TARGET_RE | DDL_OBJECT_TARGET_RE | INDEX_ON_TARGET_RE | DATABASE_TARGET_RE | USE_RE | COPY_TARGET_RE
| TRUNCATE_TARGET_RE | RENAME_TABLE_TARGET_RE | MAINTENANCE_TABLE_TARGET_RE | COMMENT_TARGET_RE
| ROUTINE_CALL_TARGET_RE | PRIVILEGE_TARGET_RE | PRIVILEGE_DATABASE_TARGET_RE | GLOBAL_PRIVILEGE_TARGET_RE
| GLOBAL_DDL_TARGET_RE | MULTI_TARGET_MUTATION_RE | FIRST_KEYWORD_RE.

(** The matches of a pattern from left to right, each with its groups, the
    whole match first. *)
Class RegexEngine : Type := { captures_iter : Pattern → text → list (list (option text)) }.

Section Targets.
Context `{HU : UnicodeCase, HT : SqlTokenizer, HR : RegexEngine}.

Definition group (capture : list (option text)) (i : nat) : option text := mjoin (capture !! i).
Definition captures (p : Pattern) (statement : text) : option (list (option text)) := head (captures_iter p statement).
Definition is_match (p : Pattern) (statement : text) : bool :=
  match captures_iter p statement with [] => false | _ => true end.

Definition first_keyword (statement : text) : option text :=
  fmap (M := list) to_ascii_lowercase_c <$> (captures FIRST_KEYWORD_RE statement ≫= λ m, group m 0).

Definition is_ambiguous_production_target_statement (statement : text) (has_resolved_target : bool) : bool :=
  if negb (is_write_sql statement) then false
  else
    match first_keyword statement with
    | None => true
    | Some keyword =>
        if is_transaction_keyword keyword then false
        else is_match GLOBAL_DDL_TARGET_RE statement || negb has_resolved_target
    end.

(** [HashSet::insert] of a value that is there. *)
Definition insert_some (o : option text) (s : gset text) : gset text :=
  match o with Some x => {[x]} ∪ s | None => s end.

Section Statement.
Context (d : DatabaseType) (quoted : gmap text text) (current : text).

Definition collect_qualified_target_database_groups (statement : text) (p : Pattern) (indexes : list nat)
    (databases : gset text) : gset text :=
  fold_left (λ databases capture,
    fold_left (λ databases i,
      insert_some (group capture i ≫= λ target, database_from_qualified_name target d quoted current ≫= non_empty) databases)
      indexes databases)
    (captures_iter p statement) databases.

Definition collect_qualified_target_databases (statement : text) (patterns : list Pattern) (databases : gset text)
    : gset text :=
  fold_left (λ databases p, collect_qualified_target_database_groups statement p [1] databases) patterns databases.

Definition QUALIFIED_PATTERNS : list Pattern :=
  [DML_TARGET_RE; DDL_OBJECT_TARGET_RE; INDEX_ON_TARGET_RE; TRUNCATE_TARGET_RE; MAINTENANCE_TABLE_TARGET_RE;
   COMMENT_TARGET_RE; ROUTINE_CALL_TARGET_RE; PRIVILEGE_TARGET_RE].

Definition database_capture (capture : list (option text)) : option text :=
  group capture 1 ≫= λ kind,
  if database_target_kind_means_database kind d
  then group capture 2 ≫= λ value, non_empty (normalize_target_database_name value quoted)
  else None.

(** The databases a mutation names, in the order the code collects them. *)
Definition statement_targets (statement : text) : gset text :=
  let databases := collect_qualified_target_databases statement QUALIFIED_PATTERNS ∅ in
  let databases := collect_qualified_target_database_groups statement RENAME_TABLE_TARGET_RE [1; 2] databases in
  let databases := fold_left (λ s capture, insert_some (database_capture capture) s)
                     (captures_iter DATABASE_TARGET_RE statement) databases in
  let databases := fold_left (λ s capture, insert_some
                       (group capture 1 ≫= λ value, non_empty (normalize_target_database_name value quoted)) s)
                     (captures_iter PRIVILEGE_DATABASE_TARGET_RE statement) databases in
  insert_some (captures COPY_TARGET_RE statement ≫= λ m, group m 1 ≫= λ target,
                 database_from_qualified_name target d quoted current ≫= non_empty) databases.
End Statement.

Record ReferencedDatabaseAssessment : Type := { databases : gset text; uncertain : bool }.

Definition use_target (quoted : gmap text text) (statement : text) : option text :=
  captures USE_RE statement ≫= λ m, group m 1 ≫= λ value, non_empty (normalize_target_database_name value quoted).

(** One turn of the loop: the database of the last USE, and the assessment. *)
Definition assess (d : DatabaseType) (quoted : gmap text text) (active : text)
    (st : text * ReferencedDatabaseAssessment) (statement : text) : text * ReferencedDatabaseAssessment :=
  let '(use_database, a) := st in
  let statement_is_mutation := is_write_sql statement in
  match use_target quoted statement with
  | Some database => (database, {| databases := {[database]} ∪ databases a; uncertain := uncertain a |})
  | None =>
      if negb statement_is_mutation then (use_database, a)
      else
        let current := if text_is_empty use_database then active else use_database in
        let found := statement_targets d quoted current statement in
        let has_resolved_target := negb (bool_decide (found = ∅)) in
        (use_database,
         {| databases := databases a ∪ found;
            uncertain := uncertain a || is_match GLOBAL_PRIVILEGE_TARGET_RE statement
                         || is_match MULTI_TARGET_MUTATION_RE statement
                         || is_ambiguous_production_target_statement statement has_resolved_target |})
  end.

Definition statements_of (cleaned : text) : list text :=
  List.filter (λ s, negb (text_is_empty s)) (trim_t <$> split_t (N.eqb 59) cleaned []).

Definition referenced_databases (sql : text) (d : DatabaseType) (active_database : text) : ReferencedDatabaseAssessment :=
  let cleaned := sql_target_safety_text sql in
  (fold_left (assess d (quoted_identifiers cleaned) (normalize_database_name active_database))
     (statements_of (safety_text cleaned)) ([], {| databases := ∅; uncertain := false |})).2.

Definition targets_production_database (config : ProductionConfig) (active_database sql : text) : bool :=
  if is_production_database config active_database then true
  else
    let marked : gset text := list_to_set (normalize_database_name <$> production_databases config) in
    if bool_decide (marked = ∅) then false
    else
      let assessment := referenced_databases sql (db_type config) active_database in
      existsb (λ database, bool_decide (database ∈ marked)) (elements (databases assessment)) || uncertain assessment.
End Targets.

(** ** What a statement names *)

Lemma non_empty_Some l x : non_empty l = Some x ↔ l = x ∧ x ≠ [].
Proof. unfold non_empty, text_is_empty. destruct l; naive_solver. Qed.

Section spec.
Context `{HU : UnicodeCase, HT : SqlTokenizer, HR : RegexEngine}.

Lemma elem_of_insert_some (x : text) (o : option text) (s : gset text) : x ∈ insert_some o s ↔ o = Some x ∨ x ∈ s.
Proof. destruct o as [y|]; cbn; [|naive_solver]. set_solver. Qed.

(** A loop of such insertions collects what any turn finds. *)
Lemma elem_of_fold_insert {A} (f : A → option text) (l : list A) (x : text) (s : gset text) :
  x ∈ fold_left (λ s a, insert_some (f a) s) l s ↔ x ∈ s ∨ ∃ a, a ∈ l ∧ f a = Some x.
Proof.
  revert s. induction l as [|a l IH]; intros s; cbn [fold_left]; [set_solver|].
  rewrite IH, elem_of_insert_some. setoid_rewrite elem_of_cons. naive_solver.
Qed.

Section Names.
Context (d : DatabaseType) (quoted : gmap text text) (current statement : text).

(** The database a qualified name stands for. *)
Definition resolves (target db : text) : Prop :=
  database_from_qualified_name target d quoted current = Some db ∧ db ≠ [].

(** [db] is a database the statement names. *)
Inductive names (db : text) : Prop :=
| names_qualified p capture target : p ∈ QUALIFIED_PATTERNS → capture ∈ captures_iter p statement →
    group capture 1 = Some target → resolves target db → names db
| names_renamed capture i target : capture ∈ captures_iter RENAME_TABLE_TARGET_RE statement → i ∈ [1; 2] →
    group capture i = Some target → resolves target db → names db
| names_database capture kind value : capture ∈ captures_iter DATABASE_TARGET_RE statement →
    group capture 1 = Some kind → database_target_kind_means_database kind d = true →
    group capture 2 = Some value → normalize_target_database_name value quoted = db → db ≠ [] → names db
| names_privilege capture value : capture ∈ captures_iter PRIVILEGE_DATABASE_TARGET_RE statement →
    group capture 1 = Some value → normalize_target_database_name value quoted = db → db ≠ [] → names db
| names_copy capture target : captures COPY_TARGET_RE statement = Some capture →
    group capture 1 = Some target → resolves target db → names db.

Lemma resolves_bind (o : option text) db :
  o ≫= (λ target, database_from_qualified_name target d quoted current ≫= non_empty) = Some db
  ↔ ∃ target, o = Some target ∧ resolves target db.
Proof.
  unfold resolves. split.
  - intros (t & -> & (x & Hx & [-> Hne]%non_empty_Some)%bind_Some)%bind_Some. eauto.
  - intros (t & -> & H & Hne). cbn [mbind option_bind]. rewrite H. by apply non_empty_Some.
Qed.

Lemma elem_of_groups p indexes s db :
  db ∈ collect_qualified_target_database_groups d quoted current statement p indexes s
  ↔ db ∈ s ∨ ∃ capture i target, capture ∈ captures_iter p statement ∧ i ∈ indexes ∧
      group capture i = Some target ∧ resolves target db.
Proof.
  unfold collect_qualified_target_database_groups. revert s.
  induction (captures_iter p statement) as [|m ms IH]; intros s; cbn [fold_left]; [set_solver|].
  rewrite IH, elem_of_fold_insert. setoid_rewrite resolves_bind. setoid_rewrite elem_of_cons. naive_solver.
Qed.

Lemma elem_of_patterns patterns s db :
  db ∈ collect_qualified_target_databases d quoted current statement patterns s
  ↔ db ∈ s ∨ ∃ p capture target, p ∈ patterns ∧ capture ∈ captures_iter p statement ∧
      group capture 1 = Some target ∧ resolves target db.
Proof.
  unfold collect_qualified_target_databases. revert s.
  induction patterns as [|p ps IH]; intros s; cbn [fold_left]; [set_solver|].
  rewrite IH, elem_of_groups. setoid_rewrite elem_of_cons. setoid_rewrite elem_of_nil.
  split; [intros [[?|(? & ? & ? & ? & [->|[]] & ?)]|?]; naive_solver|].
  intros [?|(p' & m & t & [->|?] & ?)]; [auto|left; right; exists m, 1, t; tauto|naive_solver].
Qed.

Lemma elem_of_statement_targets db : db ∈ statement_targets d quoted current statement ↔ names db.
Proof.
  unfold statement_targets. rewrite elem_of_insert_some, !elem_of_fold_insert, elem_of_groups, elem_of_patterns. split.
  - intros [H|[[[[H|H]|H]|H]|H]].
    + apply bind_Some in H as (m & Hm & H). apply resolves_bind in H as (t & Ht & Hr). by eapply names_copy.
    + by apply elem_of_empty in H.
    + destruct H as (p & m & t & ? & ? & ? & ?). by eapply names_qualified.
    + destruct H as (m & i & t & ? & ? & ? & ?). by eapply names_renamed.
    + destruct H as (m & Hm & (k & Hk & H)%bind_Some). destruct (database_target_kind_means_database k d) eqn:E; [|done].
      apply bind_Some in H as (v & Hv & [Hn Hne]%non_empty_Some). by eapply names_database.
    + destruct H as (m & Hm & (v & Hv & [Hn Hne]%non_empty_Some)%bind_Some). by eapply names_privilege.
  - intros [p m t|m i t|m k v Hm Hk Hd Hv Hn Hne|m v Hm Hv Hn Hne|m t Hm Ht Hr].
    + right. left. left. left. right. eauto 10.
    + right. left. left. right. eauto 10.
    + right. left. right. exists m. split; [done|]. unfold database_capture. rewrite Hk. cbn. rewrite Hd, Hv. cbn.
      by apply non_empty_Some.
    + right. right. exists m. split; [done|]. rewrite Hv. cbn. by apply non_empty_Some.
    + left. rewrite Hm. cbn. apply resolves_bind. eauto.
Qed.
End Names.

(** ** The verdict *)

(** The database in force behind the statements [before]: that of the last USE
    of a name, else the active one. *)
Definition current_database (quoted : gmap text text) (active : text) (before : list text) : text :=
  let used := fold_left (λ u s, default u (use_target quoted s)) before [] in
  if text_is_empty used then normalize_database_name active else used.

(** A statement behind [before] that makes the verdict: a USE of a marked
    database, or a write that names one or whose target cannot be told. *)
Definition hits (config : ProductionConfig) (quoted : gmap text text) (active : text) (before : list text)
    (statement : text) : Prop :=
  let marked := normalize_database_name <$> production_databases config in
  let current := current_database quoted active before in
  match use_target quoted statement with
  | Some db => db ∈ marked
  | None =>
      is_write_sql statement = true ∧
      ((∃ db, names (db_type config) quoted current statement db ∧ db ∈ marked)
       ∨ is_match GLOBAL_PRIVILEGE_TARGET_RE statement = true
       ∨ is_match MULTI_TARGET_MUTATION_RE statement = true
       ∨ match first_keyword statement with
         | None => True
         | Some keyword =>
             is_transaction_keyword keyword = false ∧
             (is_match GLOBAL_DDL_TARGET_RE statement = true
              ∨ ¬ ∃ db, names (db_type config) quoted current statement db)
         end)
  end.

Lemma is_ambiguous_spec statement found :
  is_write_sql statement = true →
  is_ambiguous_production_target_statement statement found = true ↔
  match first_keyword statement with
  | None => True
  | Some keyword =>
      is_transaction_keyword keyword = false ∧ (is_match GLOBAL_DDL_TARGET_RE statement = true ∨ found = false)
  end.
Proof.
  intros Hw. unfold is_ambiguous_production_target_statement. rewrite Hw. cbn [negb].
  destruct (first_keyword statement) as [k|]; [|done]. destruct (is_transaction_keyword k); [split; [intros [=]|intros [[=] _]]|].
  rewrite orb_true_iff, negb_true_iff. tauto.
Qed.

(** The verdict on the assessment so far. *)
Definition flagged (marked : list text) (a : ReferencedDatabaseAssessment) : Prop :=
  uncertain a = true ∨ ∃ db, db ∈ databases a ∧ db ∈ marked.

Lemma assess_step config quoted active before a statement :
  let st := assess (db_type config) quoted (normalize_database_name active)
              (fold_left (λ u s, default u (use_target quoted s)) before [], a) statement in
  st.1 = fold_left (λ u s, default u (use_target quoted s)) (before ++ [statement]) [] ∧
  (flagged (normalize_database_name <$> production_databases config) st.2
   ↔ flagged (normalize_database_name <$> production_databases config) a ∨ hits config quoted active before statement).
Proof.
  rewrite fold_left_app. cbn [fold_left]. unfold assess, hits, flagged.
  destruct (use_target quoted statement) as [db|]; cbn [fst snd databases uncertain].
  { split; [done|]. generalize (normalize_database_name <$> production_databases config). intros marked.
    setoid_rewrite elem_of_union. setoid_rewrite elem_of_singleton. naive_solver. }
  destruct (is_write_sql statement) eqn:E; cbn [negb fst snd databases uncertain].
  2: { split; [done|]. split; [auto|]. by intros [?|[? _]]. }
  split; [done|]. fold (current_database quoted active before).
  set (found := statement_targets _ _ _ _).
  assert (∀ db, db ∈ found ↔ names (db_type config) quoted (current_database quoted active before) statement db) as Hf
    by apply elem_of_statement_targets.
  rewrite !orb_true_iff, is_ambiguous_spec by done. setoid_rewrite elem_of_union. setoid_rewrite Hf.
  assert (negb (bool_decide (found = ∅)) = false
    ↔ ¬ ∃ db, names (db_type config) quoted (current_database quoted active before) statement db) as Hr.
  { setoid_rewrite <-Hf. rewrite negb_false_iff, bool_decide_eq_true. set_solver. }
  revert Hr. generalize (negb (bool_decide (found = ∅))). clear E Hf found. intros b Hr.
  generalize (normalize_database_name <$> production_databases config). intros marked.
  destruct (first_keyword statement) as [k|]; [rewrite Hr|]; clear Hr; naive_solver.
Qed.

Lemma assess_fold config quoted active rest : ∀ before a,
  flagged (normalize_database_name <$> production_databases config)
    (fold_left (assess (db_type config) quoted (normalize_database_name active)) rest
       (fold_left (λ u s, default u (use_target quoted s)) before [], a)).2
  ↔ flagged (normalize_database_name <$> production_databases config) a
    ∨ ∃ l s after, rest = l ++ s :: after ∧ hits config quoted active (before ++ l) s.
Proof.
  induction rest as [|s rest IH]; intros before a; cbn [fold_left].
  { split; [auto|]. intros [?|(l & s & after & H & _)]; [done|]. by destruct l. }
  destruct (assess_step config quoted active before a s) as [H1 H2].
  destruct (assess _ _ _ _ _) as [u a'] eqn:E. cbn in H1, H2. subst u. rewrite IH, H2. split.
  - intros [[?|?]|(l & s' & after & -> & Hh)]; [by left|right; exists [], s, rest; by rewrite app_nil_r|].
    right. exists (s :: l), s', after. split; [done|]. by rewrite <-app_assoc in Hh.
  - intros [?|(l & s' & after & Hl & Hh)]; [auto|]. destruct l as [|x l]; injection Hl as -> ->.
    + rewrite app_nil_r in Hh. auto.
    + right. exists l, s', after. by rewrite <-app_assoc.
Qed.

End spec.

(** ** Pipelines *)

(** The database a write stage names, [None] when it cannot be told. *)
Definition named (database : text) : option text := if text_is_empty (trim_t database) then None else Some database.
Definition object_dest (fields : list (string * Value)) : option text :=
  match obj_get fields "db" ≫= as_str with Some database => named (c database) | None => None end.
Definition out_dest (active : text) (target : Value) : option text :=
  match target with VString _ => named active | Object fields => object_dest fields | _ => None end.
Definition merge_dest (active : text) (target : Value) : option text :=
  match target with
  | Object fields =>
      match obj_get fields "into" with
      | Some (Object into) => object_dest into
      | Some (VString _) => named active
      | _ => None
      end
  | _ => out_dest active target
  end.

(** Where a stage writes: [$out] and [$merge], in this order. *)
Definition stage_dests (active : text) (stage : Value) : list (option text) :=
  match stage with
  | Object document =>
      from_option (λ v, [out_dest active v]) [] (obj_get document "$out")
      ++ from_option (λ v, [merge_dest active v]) [] (obj_get document "$merge")
  | _ => []
  end.

(** The loop's state after the destinations [ds]. *)
Definition collected (ds : list (option text)) (s : MongoTargets) : Prop :=
  (has_write_stage s = true ↔ ds ≠ []) ∧ (uncertain_target s = true ↔ None ∈ ds) ∧
  (∀ db, db ∈ targets s ↔ Some db ∈ ds).

Definition add_dest (dest : option text) (s : MongoTargets) : MongoTargets :=
  match dest with Some db => mongo_target db s | None => mongo_uncertain s end.

Lemma add_current_dest active s : add_mongo_current_database active s = add_dest (named active) s.
Proof. unfold add_mongo_current_database, named. by destruct (text_is_empty _). Qed.

Lemma add_object_dest fields s : add_object_target fields s = add_dest (object_dest fields) s.
Proof.
  unfold add_object_target, object_dest. destruct (obj_get fields "db" ≫= as_str) as [db|]; [|done]. cbn.
  unfold named. by destruct (text_is_empty _).
Qed.

Lemma out_target_dest active v s : out_target active v s = add_dest (out_dest active v) s.
Proof. destruct v; try done; [apply add_current_dest|apply add_object_dest]. Qed.

Lemma merge_target_dest active v s : merge_target active v s = add_dest (merge_dest active v) s.
Proof.
  destruct v as [| | | | |fields]; try done; [apply add_current_dest|]. cbn.
  destruct (obj_get fields "into") as [[]|]; try done; [apply add_current_dest|apply add_object_dest].
Qed.

Lemma collected_add ds dest s : collected ds s → collected (ds ++ [dest]) (add_dest dest (mongo_write s)).
Proof.
  intros (Hw & Hu & Ht). unfold collected. destruct dest as [db|]; cbn; setoid_rewrite elem_of_app;
    setoid_rewrite list_elem_of_singleton; split_and!; try (by destruct ds).
  - rewrite Hu. naive_solver.
  - intros db'. rewrite elem_of_union, elem_of_singleton, Ht. naive_solver.
  - naive_solver.
  - intros db'. rewrite Ht. naive_solver.
Qed.

Lemma collected_stage active ds s stage :
  collected ds s → collected (ds ++ stage_dests active stage) (mongo_stage active s stage).
Proof.
  intros Hs. destruct stage as [| | | | |document]; try (by rewrite app_nil_r). cbn.
  destruct (obj_get document "$out") as [o|]; cbn; destruct (obj_get document "$merge") as [v|]; cbn;
    rewrite ?out_target_dest, ?merge_target_dest, ?app_nil_r; try done; try (by apply collected_add).
  change [out_dest active o; merge_dest active v] with ([out_dest active o] ++ [merge_dest active v]).
  rewrite app_assoc. by apply collected_add, collected_add.
Qed.

Lemma collected_fold active stages : ∀ ds s,
  collected ds s → collected (ds ++ (stages ≫= stage_dests active)) (fold_left (mongo_stage active) stages s).
Proof.
  induction stages as [|stage stages IH]; intros ds s Hs; [by rewrite app_nil_r|].
  cbn [fold_left]. rewrite bind_cons, app_assoc. by apply IH, collected_stage.
Qed.

(** A pipeline counts as production exactly when the active database is
    marked, or its text is no JSON array, or one of its stages writes ($out,
    $merge) to a marked database or to one that cannot be told. *)
Theorem mongo_pipeline_iff from_str config active json :
  mongo_pipeline_targets_production_database from_str config active json = true ↔
  is_production_database config active = true ∨
  match from_str json with
  | Some (Array stages) =>
      ∃ stage dest, stage ∈ stages ∧ dest ∈ stage_dests active stage ∧
        match dest with Some db => is_production_database config db = true | None => True end
  | _ => True
  end.
Proof.
  unfold mongo_pipeline_targets_production_database. destruct (is_production_database config active); [tauto|].
  destruct (from_str json) as [[| | | |stages|]|]; try tauto.
  set (s := fold_left _ _ _). set (ds := stages ≫= stage_dests active).
  assert (collected ds s) as (Hw & Hu & Ht).
  { apply (collected_fold active stages [] {| has_write_stage := false; uncertain_target := false; targets := ∅ |}).
    unfold collected. cbn. split_and!; [naive_solver|split; [done|by intros ?%elem_of_nil]|].
    intros db. split; [by intros ?%elem_of_empty|by intros ?%elem_of_nil]. }
  rewrite andb_true_iff, orb_true_iff, Hw, Hu, existsb_exists. setoid_rewrite <-list_elem_of_In.
  setoid_rewrite elem_of_elements. setoid_rewrite Ht. unfold ds. setoid_rewrite list_elem_of_bind. split.
  - intros (_ & [(x & ? & ?)|(db & (x & ? & ?) & ?)]); right; [by exists x, None|by exists x, (Some db)].
  - intros [|(x & dest & Hx & Hd & Hp)]; [done|]. split.
    + intros E. assert (dest ∈ stages ≫= stage_dests active) as Hin by (apply list_elem_of_bind; eauto).
      rewrite E in Hin. by apply elem_of_nil in Hin.
    + destruct dest as [db|]; [right|left]; eauto.
Qed.

(** ** The cleaned text *)

Lemma length_drop_while {A} (f : A → bool) l : List.length (drop_while f l) ≤ List.length l.
Proof. induction l as [|x l IH]; cbn; [done|]. case_match; cbn; lia. Qed.

Lemma length_until_close l :
  List.length (until_close l).1 ≤ List.length l ∧ List.length (until_close l).2 ≤ List.length l.
Proof.
  induction l as [|x l IH]; [done|]. cbn. case_match; [cbn; destruct l; cbn; lia|].
  destruct (until_close l) as [b r]. cbn in *. lia.
Qed.

Lemma length_executable l body rest : mysql_executable_comment_body l = Some (body, rest) →
  List.length body ≤ List.length l ∧ List.length rest ≤ List.length l.
Proof.
  unfold mysql_executable_comment_body. intros H.
  assert (∃ l', List.length l' ≤ List.length l ∧ until_close l' = (body, rest)) as (l' & Hl & E).
  { repeat case_match; try done; injection H as H; eexists; (split; [|exact H]);
      (etrans; [apply length_drop_while|cbn; lia]). }
  pose proof (length_until_close l') as H'. rewrite E in H'. cbn in H'. lia.
Qed.

Lemma length_after_tag tag l : List.length (after_tag tag l) ≤ List.length l.
Proof.
  assert (∀ tag l r, strip_prefix_t l tag = Some r → List.length r ≤ List.length l) as Hp.
  { clear. induction tag as [|x tag IH]; intros [|y l] r; cbn; intros H; simplify_eq; try done; try lia.
    destruct (x =? y)%N; [|done]. apply IH in H. lia. }
  induction l as [|x l IH]; cbn [after_tag]; destruct (strip_prefix_t _ tag) as [r|] eqn:E;
    try (by apply Hp in E); cbn in *; lia.
Qed.

Lemma length_skip_literal close l : ∀ escaped, List.length (skip_string_literal escaped close l) ≤ List.length l.
Proof.
  induction l as [l IH] using (induction_ltof1 _ (@List.length N)). unfold ltof in IH.
  intros escaped. destruct l as [|x l]; [done|]. cbn [skip_string_literal]. destruct escaped.
  { etrans; [apply IH; cbn; lia|cbn; lia]. }
  case_match; [etrans; [apply IH; cbn; lia|cbn; lia]|]. case_match.
  - destruct l as [|y l]; [cbn; lia|]. case_match; [|cbn; lia]. etrans; [apply IH; cbn; lia|cbn; lia].
  - etrans; [apply IH; cbn; lia|cbn; lia].
Qed.

Lemma length_quoted_identifier close l : List.length (quoted_identifier close l).2 ≤ List.length l.
Proof.
  induction l as [l IH] using (induction_ltof1 _ (@List.length N)). unfold ltof in IH.
  destruct l as [|x l]; [done|]. cbn [quoted_identifier]. case_match.
  - destruct l as [|y l]; [cbn; lia|]. case_match; [|cbn; lia].
    specialize (IH l ltac:(cbn; lia)). destruct (quoted_identifier close l). cbn in *. lia.
  - specialize (IH l ltac:(cbn; lia)). destruct (quoted_identifier close l). cbn in *. lia.
Qed.

Lemma dollar_tag_cons l tag : dollar_quote_tag_at l = Some tag → tag ≠ [].
Proof.
  unfold dollar_quote_tag_at. intros H. repeat case_match; simplify_eq; done.
Qed.

(** The length of the text is enough fuel. *)
Lemma safety_text_fuel f1 : ∀ f2 l r, List.length l ≤ f1 → List.length l ≤ f2 →
  append_sql_target_safety_text f1 l r = append_sql_target_safety_text f2 l r.
Proof.
  induction f1 as [|f1 IH]; intros f2 l r H1 H2; [destruct l; [by destruct f2|cbn in H1; lia]|].
  destruct l as [|ch rest]; [by destruct f2|]. destruct f2 as [|f2]; [cbn in H2; lia|]. cbn in H1, H2.
  assert (∀ l' r, List.length l' ≤ List.length rest →
    append_sql_target_safety_text f1 l' r = append_sql_target_safety_text f2 l' r) as Hrec by (intros; apply IH; lia).
  assert (List.length (List.tl rest) ≤ List.length rest) as Htl by (destruct rest; cbn; lia).
  cbn [append_sql_target_safety_text].
  case_match; [apply Hrec; etrans; [apply length_drop_while|done]|].
  case_match; [apply Hrec, length_drop_while|].
  case_match.
  { destruct (mysql_executable_comment_body (List.tl rest)) as [[body behind]|] eqn:E.
    - apply length_executable in E as [??]. rewrite (Hrec body) by lia. apply Hrec. lia.
    - apply Hrec. etrans; [apply length_until_close|done]. }
  destruct (dollar_quote_tag_at (ch :: rest)) as [tag|] eqn:E.
  { apply dollar_tag_cons in E. apply Hrec. etrans; [apply length_after_tag|]. destruct tag; [done|].
    cbn. rewrite length_drop. lia. }
  case_match; [apply Hrec, length_skip_literal|].
  case_match; [|by apply Hrec]. unfold append_quoted_identifier_token.
  set (close := if (ch =? 91)%N then 93%N else ch). pose proof (length_quoted_identifier close rest) as Hq.
  destruct (quoted_identifier close rest) as [i rest']. by apply Hrec.
Qed.

(** ** Scripts that write to production and are not seen *)

Definition mssql_hash_table : text := c "SELECT * FROM #t; DELETE FROM prod.dbo.users".
Definition mssql_backslash : text := c "SELECT '\'; DELETE FROM prod.dbo.users; --'".
Definition mysql_minus_delete : text := c "SELECT 1--1; DELETE FROM prod.users".
Definition mysql_dollar_name : text := c "SELECT a$$ FROM t; DELETE FROM prod.users".

Definition prod_config (d : DatabaseType) : ProductionConfig :=
  {| is_production := false; production_databases := [c "prod"]; db_type := d |}.

(** Four scripts that delete from a marked database and do not count as
    production, whatever the Unicode tables and the tokenizer, provided only
    that the USE pattern does not match their SELECT. A hash opens a comment
    here in every dialect, in SQL Server it starts the name of a temporary
    table; a backslash escapes a quote here and not in SQL Server; in MySQL two
    minus signs open a comment only before a blank, and two dollars may be part
    of a name. *)
Theorem production_bypass `{HU : UnicodeCase, HT : SqlTokenizer, HR : RegexEngine}
    (Huse : Forall (λ s, captures_iter USE_RE (c s) = [])
              ["SELECT * FROM"; "SELECT"; "SELECT 1"; "SELECT a"]) :
  Forall (λ '(sql, d), targets_production_database (prod_config d) (c "staging") sql = false)
    [(mssql_hash_table, SqlServer); (mssql_backslash, SqlServer);
     (mysql_minus_delete, Mysql); (mysql_dollar_name, Mysql)].
Proof.
  assert (∀ sql d s, statements_of (safety_text (sql_target_safety_text sql)) = [c s] →
    captures_iter USE_RE (c s) = [] → split_sql_statements (c s) = [c s] →
    forallb (λ c, c <? 128)%N (strip_sql_comments_and_literals (c s)) = true →
    forallb (λ c, c <? 128)%N (strip_sql_comments_and_literals_with_metadata (c s) true).1 = true →
    @is_write_sql_statement ascii_case (c s) true true = false →
    targets_production_database (prod_config d) (c "staging") sql = false) as Hpass.
  { intros sql d s Hs Hu Hsplit Ha Hm Hg. unfold targets_production_database.
    replace (is_production_database (prod_config d) (c "staging")) with false by (vm_compute; reflexivity).
    rewrite bool_decide_false by (cbn; set_solver). unfold referenced_databases. rewrite Hs. cbn [fold_left].
    assert (is_write_sql (c s) = false) as Hw.
    { unfold is_write_sql, is_write_sql_with_database_type. rewrite bool_decide_false by done. cbn [andb].
      rewrite Hsplit. cbn [existsb]. rewrite statement_case, Hg; [done|..];
        apply Forall_forall; intros x Hx%list_elem_of_In; apply N.ltb_lt;
        [by apply (proj1 (forallb_forall _ _) Ha)|by apply (proj1 (forallb_forall _ _) Hm)]. }
    unfold assess, use_target, captures. rewrite Hu, Hw. cbn. done. }
  apply Forall_cons in Huse as [U1 Huse]. apply Forall_cons in Huse as [U2 Huse].
  apply Forall_cons in Huse as [U3 Huse]. apply Forall_cons in Huse as [U4 _].
  repeat apply Forall_cons_2; [| | | |constructor].
  - apply (Hpass _ _ "SELECT * FROM"); [vm_compute; reflexivity|exact U1|vm_compute; reflexivity..].
  - apply (Hpass _ _ "SELECT"); [vm_compute; reflexivity|exact U2|vm_compute; reflexivity..].
  - apply (Hpass _ _ "SELECT 1"); [vm_compute; reflexivity|exact U3|vm_compute; reflexivity..].
  - apply (Hpass _ _ "SELECT a"); [vm_compute; reflexivity|exact U4|vm_compute; reflexivity..].
Qed.

(** ** Witnesses *)

(** An engine whose only pattern is a target behind FROM or USE: enough for the
    examples. *)
Definition word_after (keyword : string) (statement : text) : list (list (option text)) :=
  match words_t statement with
  | k :: w :: _ => if text_eqb k (c keyword) then [[Some statement; Some w]] else []
  | _ => []
  end.
Definition sample_engine : RegexEngine := {|
  captures_iter p statement :=
    match p with
    | USE_RE => word_after "USE" statement
    | TRUNCATE_TARGET_RE => word_after "TRUNCATE" statement
    | FIRST_KEYWORD_RE => match words_t statement with w :: _ => [[Some w]] | [] => [] end
    | _ => []
    end
|}.
Definition no_tokenizer : SqlTokenizer := {| tokenize _ _ := None |}.

Lemma production_bypass_witness :
  @targets_production_database ascii_case no_tokenizer sample_engine (prod_config SqlServer) (c "staging") mssql_hash_table = false.
Proof.
  pose proof (@production_bypass ascii_case no_tokenizer sample_engine) as H.
  assert (Forall (λ s, @captures_iter sample_engine USE_RE (c s) = [])
    ["SELECT * FROM"; "SELECT"; "SELECT 1"; "SELECT a"]) as Hu.
  { repeat constructor; vm_compute; reflexivity. }
  specialize (H Hu). apply Forall_cons in H as [H _]. exact H.
Defined.

(** USE decides for the statements behind it. *)
Example use_then_truncate :
  @targets_production_database ascii_case no_tokenizer sample_engine (prod_config Mysql) (c "staging") (c "TRUNCATE t") = false ∧
  @targets_production_database ascii_case no_tokenizer sample_engine (prod_config Mysql) (c "staging")
    (c "USE `prod`; TRUNCATE t") = true.
Proof. split; vm_compute; reflexivity. Qed.
