(* ===== verification/GridTypes.v ===== *)
(** * Columns of the data grid (data_grid_sql.rs)

    What the grid knows of a table and its columns, the tests on the type and the
    extra attributes of a column that the SQL writers make, and the slices of a
    text by byte offsets, which panic off a character boundary. *)
From S2P Require Import Prelude RustStr Json F64 SqlText.

(** ** Texts *)

(** [&s[a..b]] and [&s[a..]]: [None] is the panic. *)
Definition slice (s : string) (a b : nat) : option string :=
  if (a <=? b) && is_char_boundary s a && is_char_boundary s b then Some (String.substring a (b - a) s) else None.
Definition slice_from (s : string) (a : nat) : option string :=
  if is_char_boundary s a then Some (skip_bytes a s) else None.

(** [bytes.get(i) == Some(&a)]. *)
Definition byte_is (s : string) (i : nat) (a : ascii) : bool := bool_decide (String.get i s = Some a).
(** [bytes[i].is_ascii_digit()], false past the end. *)
Definition digit_at (s : string) (i : nat) : bool :=
  match String.get i s with Some a => is_ascii_digit (N_of_ascii a) | None => false end.

(** [s.replace(a, r)] for a [char] pattern in ASCII. *)
Fixpoint replace_char (a : ascii) (r s : string) : string :=
  match s with
  | EmptyString => ""
  | String b s' => if Ascii.eqb b a then (r +:+ replace_char a r s')%string else String b (replace_char a r s')
  end.

(** [s.split(f).any(..)] reads these parts. *)
Definition split_chars (f : N → bool) (s : string) : list string := from_chars <$> split_t f (chars s) [].
(** [s.split([..]).next().unwrap_or("")]. *)
Definition before_any (separators : list N) (s : string) : string :=
  from_chars (span_t (λ x, negb (bool_decide (x ∈ separators))) (chars s)).1.
(** [trim_matches(c)]. *)
Definition trim_matches (x : N) (s : string) : string :=
  from_chars (trim_end_char x (drop_while (N.eqb x) (chars s))).
Definition one_of (l : list string) (s : string) : bool := bool_decide (s ∈ l).

(** [is_ascii_hexdigit]. *)
Definition hexdigit (x : N) : bool :=
  is_ascii_digit x || ((97 <=? x) && (x <=? 102))%N || ((65 <=? x) && (x <=? 70))%N.

(** [s.chars().all(f)] for an [f] that holds of ASCII characters only: on the bytes. *)
Definition bytes_all (f : N → bool) (s : string) : bool := forallb (λ a, f (N_of_ascii a)) (bytes_of s).

Definition not_alphanumeric (x : N) : bool := negb (is_ascii_alphanumeric x).
Definition not_word (x : N) : bool := negb (is_ascii_alphanumeric x) && negb (x =? 95)%N.

(** ** Tables and columns *)

Record DataGridColumnInfo : Type := {
  ci_name : string; data_type : string; is_nullable : bool; is_primary_key : bool;
  column_default : option string; extra : option string
}.

(** [name.to_ascii_uppercase()]. *)
Definition normalize_column_name (name : string) : string := to_ascii_uppercase name.

Definition column_info_for (columns : list DataGridColumnInfo) (name : string) : option DataGridColumnInfo :=
  List.find (λ column, String.eqb (normalize_column_name (ci_name column)) (normalize_column_name name)) columns.

(** ** The type of a column *)

Definition is_bit_column_type (data_type : string) : bool :=
  existsb (one_of ["bit"; "bitn"]) (split_chars not_alphanumeric (to_ascii_lowercase data_type)).

Definition is_mysql_binary_column_type (data_type : string) : bool :=
  let lower := to_ascii_lowercase (trim data_type) in
  let base := trim (before_any [40; 58; 32]%N lower) in
  one_of ["binary"; "varbinary"; "blob"; "tinyblob"; "mediumblob"; "longblob"] base.

Definition is_oracle_raw_column_type (data_type : string) : bool :=
  eq_ignore_ascii_case (before_any [40; 58; 32]%N (trim data_type)) "raw".

Definition is_geometry_column_type (data_type : string) : bool :=
  let lower := to_ascii_lowercase data_type in
  let base := trim (before_any [40]%N lower) in
  one_of ["geometry"; "point"; "linestring"; "polygon"; "multipoint"; "multilinestring"; "multipolygon";
          "geometrycollection"] base.

Definition is_textual_column_type (data_type : string) : bool :=
  let lower := to_ascii_lowercase (trim data_type) in
  let base := trim (before_any [40; 58; 32]%N lower) in
  one_of ["char"; "character"; "varchar"; "varchar2"; "nvarchar"; "nvarchar2"; "nchar"; "string"; "text"; "tinytext";
          "mediumtext"; "longtext"; "ntext"; "clob"; "nclob"; "enum"; "set"] base
  || starts_with lower "character varying" || starts_with lower "national character varying".

Definition is_oracle_lob_type (data_type : string) : bool :=
  let lower := to_ascii_lowercase (trim_matches 34 (trim data_type)) in
  let base := before_any [40; 58; 32]%N lower in
  one_of ["blob"; "clob"; "nclob"; "bfile"; "lob"] base
  || starts_with lower "binary large object" || starts_with lower "character large object".

Definition is_postgres_tsvector_type (data_type : string) : bool :=
  let normalized := to_ascii_lowercase (trim_matches 34 (trim data_type)) in
  String.eqb normalized "tsvector" || ends_with normalized ".tsvector".

Definition numeric_types : list string :=
  ["int"; "integer"; "bigint"; "smallint"; "tinyint"; "mediumint"; "serial"; "number"; "numeric"; "decimal"; "float";
   "double"; "real"; "money"].
Definition is_numeric_type (data_type : string) : bool :=
  let lower := to_ascii_lowercase data_type in
  existsb (λ part, existsb (λ token, String.eqb token part) (split_chars not_alphanumeric lower)) numeric_types.

Definition is_boolean_type (data_type : string) (database_type : option DatabaseType) : bool :=
  let lower := to_ascii_lowercase data_type in
  existsb (λ token, one_of ["bool"; "boolean"] token ||
                    (one_of ["bit"; "bitn"] token && negb (bool_decide (database_type = Some Postgres))))
    (split_chars not_alphanumeric lower).

Definition is_numeric_char (x : N) : bool :=
  is_ascii_digit x || (x =? 43)%N || (x =? 45)%N || (x =? 46)%N || (x =? 101)%N || (x =? 69)%N.
(** [f64::is_finite]. *)
Definition f64_is_finite (x : f64) : bool := match x with S754_infinity _ | S754_nan => false | _ => true end.
Definition is_numeric_literal (text : string) : bool :=
  if negb (String.eqb (trim text) text) || is_empty text then false
  else match f64_parse (chars text) with
       | Some x => f64_is_finite x && forallb is_numeric_char (chars text) && existsb is_ascii_digit (chars text)
       | None => false
       end.

(** ** The attributes of a column *)

Definition DBX_ROWID_COLUMN : string := "__DBX_ROWID".
Definition DBX_NEO4J_ELEMENT_ID_COLUMN : string := "__DBX_ELEMENT_ID".
Definition DBX_TDENGINE_TBNAME_COLUMN : string := "tbname".

(** sql_dialect/capabilities.rs. *)
Definition uses_oracle_row_id (database_type : option DatabaseType) : bool :=
  match database_type with Some (Oracle | OceanbaseOracle) => true | _ => false end.

Definition is_oracle_row_id (database_type : option DatabaseType) (name : option string) : bool :=
  uses_oracle_row_id database_type &&
  match name with Some name => eq_ignore_ascii_case name DBX_ROWID_COLUMN | None => false end.

Definition is_neo4j_element_id (database_type : option DatabaseType) (name : option string) : bool :=
  bool_decide (database_type = Some Neo4j) && bool_decide (name = Some DBX_NEO4J_ELEMENT_ID_COLUMN).

Definition is_auto_generated_column (column : DataGridColumnInfo) : bool :=
  existsb (one_of ["auto_increment"; "autoincrement"; "identity"])
    (split_chars not_word (to_ascii_lowercase (default "" (extra column)))).

Definition is_clickhouse_partition_key_column (database_type : option DatabaseType)
    (column_info : option DataGridColumnInfo) : bool :=
  bool_decide (database_type = Some ClickHouse) &&
  match column_info ≫= extra with
  | Some extra => existsb (String.eqb "partition_key") (split_chars not_word extra)
  | None => false
  end.

Definition is_clickhouse_key_column (database_type : option DatabaseType) (column_info : option DataGridColumnInfo)
    (name : option string) (primary_key_set : list string) : bool :=
  if bool_decide (database_type ≠ Some ClickHouse) then false
  else match column_info with Some column => is_primary_key column | None => false end
       || is_clickhouse_partition_key_column database_type column_info
       || match name with Some name => bool_decide (normalize_column_name name ∈ primary_key_set) | None => false end.

Definition is_postgres_tsvector_column (database_type : option DatabaseType)
    (column_info : option DataGridColumnInfo) : bool :=
  bool_decide (database_type = Some Postgres) &&
  match column_info with Some column => is_postgres_tsvector_type (data_type column) | None => false end.

Definition is_non_identity_generated_column (column_info : option DataGridColumnInfo) : bool :=
  let extra := to_ascii_lowercase (default "" (column_info ≫= extra)) in
  contains extra "generated always as" && negb (contains extra "identity").

Definition is_grid_insert_omitted_column (database_type : option DatabaseType)
    (column_info : option DataGridColumnInfo) (name : option string) (include_computed_columns : bool) : bool :=
  is_oracle_row_id database_type name
  || is_postgres_tsvector_column database_type column_info
  || (negb include_computed_columns && is_non_identity_generated_column column_info).

Definition is_grid_update_omitted_column (database_type : option DatabaseType)
    (column_info : option DataGridColumnInfo) (name : option string) (primary_key_set : list string) : bool :=
  is_oracle_row_id database_type name
  || is_clickhouse_key_column database_type column_info name primary_key_set
  || is_non_identity_generated_column column_info.

(** ** Paging (sql_dialect/capabilities.rs) *)

Inductive TablePaginationStrategy : Type :=
| LimitOffset | FetchFirst | Db2FetchFirst | SqlServerTop | IrisTop | InformixFirst | FirebirdRows | Rownum
| QuestDbLimit | Unbounded | AgentMaxRows.
Inductive PaginationContext : Type := TablePreview | BoundedRead | UserQuery.

Definition pagination_strategy (d : option DatabaseType) (context : PaginationContext) : TablePaginationStrategy :=
  match d with
  | Some Jdbc => AgentMaxRows
  | Some Oracle => match context with TablePreview => Rownum | BoundedRead => FetchFirst | UserQuery => Unbounded end
  | Some Oscar => match context with TablePreview | BoundedRead => Rownum | UserQuery => Unbounded end
  | Some Dameng => FetchFirst
  | Some Db2 => Db2FetchFirst
  | Some SqlServer => SqlServerTop
  | Some Iris => IrisTop
  | Some Informix => InformixFirst
  | Some Firebird => FirebirdRows
  | Some OceanbaseOracle => Rownum
  | Some Questdb => QuestDbLimit
  | _ => LimitOffset
  end.

Definition firebird_rows_clause (limit offset : nat) : string :=
  if 0 <? offset then ("ROWS " +:+ pretty (offset + 1) +:+ " TO " +:+ pretty (offset + limit))%string
  else ("ROWS " +:+ pretty limit)%string.

(** ** Families of databases *)

Definition is_oracle_temporal_literal_database (database_type : option DatabaseType) : bool :=
  match database_type with Some (Oracle | OceanbaseOracle) => true | _ => false end.
Definition is_sqlite_literal_database (database_type : option DatabaseType) : bool :=
  match database_type with Some (Sqlite | Rqlite | Turso | CloudflareD1) => true | _ => false end.
Definition is_mysql_geometry_literal_database (database_type : option DatabaseType) : bool :=
  match database_type with Some (Mysql | Doris | StarRocks | Goldendb | Sundb) => true | _ => false end.
Definition is_mysql_datetime_literal_database (database_type : option DatabaseType) : bool :=
  match database_type with Some (Mysql | Doris | StarRocks | Goldendb | Sundb) => true | _ => false end.
Definition is_postgres_like_pattern_database (database_type : option DatabaseType) : bool :=
  match database_type with
  | Some (Postgres | Redshift | Gaussdb | Kwdb | Kingbase | Highgo | Uxdb | Vastbase | OpenGauss) => true
  | _ => false
  end.
Definition uses_keyless_row_predicate (database_type : option DatabaseType) : bool :=
  match database_type with
  | Some (Mysql | ManticoreSearch | Postgres | Sqlite | Rqlite | Turso | CloudflareD1 | DuckDb | SqlServer | Oracle
         | Doris | StarRocks | Redshift | Dameng | Gaussdb | Kwdb | Kingbase | Highgo | Uxdb | Vastbase | Goldendb
         | Yashandb | Oscar | Databricks | SapHana | Teradata | Vertica | Firebird | Exasol | OpenGauss | Questdb
         | OceanbaseOracle | Gbase | Access | H2 | Snowflake | Db2 | Informix | Bigquery | Sundb | Databend | Hive
         | Iris) => true
  | _ => false
  end.

Definition is_mysql_bit_literal_column (database_type : option DatabaseType)
    (column_info : option DataGridColumnInfo) : bool :=
  is_mysql_datetime_literal_database database_type &&
  match column_info with Some column => is_bit_column_type (data_type column) | None => false end.
Definition is_bit_literal_column (database_type : option DatabaseType)
    (column_info : option DataGridColumnInfo) : bool :=
  negb (bool_decide (database_type = Some Postgres)) &&
  match column_info with Some column => is_bit_column_type (data_type column) | None => false end.
Definition is_mysql_binary_literal_column (database_type : option DatabaseType)
    (column_info : option DataGridColumnInfo) : bool :=
  bool_decide (database_type = Some Mysql) &&
  match column_info with Some column => is_mysql_binary_column_type (data_type column) | None => false end.
Definition is_oracle_raw_literal_column (database_type : option DatabaseType)
    (column_info : option DataGridColumnInfo) : bool :=
  is_oracle_temporal_literal_database database_type &&
  match column_info with Some column => is_oracle_raw_column_type (data_type column) | None => false end.

(** [Some a = Some b -> P b] to [P a], without unfolding the texts in [a]. *)
Ltac some_is := let E := fresh in intros E; apply (inj Some) in E; rewrite <- E; clear E.

(** ** Bytes of ASCII texts *)

(** The bytes of a text of ASCII characters. *)
Lemma bytes_of_from_chars l :
  Forall (λ x, x < 128)%N l → bytes_of (from_chars l) = ascii_of_N <$> l.
Proof.
  induction 1 as [|x l Hx _ IH]; [done|]. rewrite from_chars_cons. unfold encode_utf8.
  apply N.ltb_lt in Hx as ->. cbn. f_equal. exact IH.
Qed.

Lemma ascii_bytes s (f : N → bool) :
  utf8 s = true → (∀ x, f x = true → x < 128)%N → forallb f (chars s) = true →
  forallb (λ a, f (N_of_ascii a)) (bytes_of s) = true.
Proof.
  intros [Hs _]%utf8_spec Hf Hall.
  assert (Forall (λ x, f x = true) (chars s)) as H.
  { apply Forall_forall. intros x Hx. rewrite forallb_forall in Hall. apply Hall. by apply list_elem_of_In. }
  rewrite Hs, bytes_of_from_chars by (eapply Forall_impl; [exact H | exact Hf]).
  clear Hs Hall. induction H as [|x l Hx _ IH]; [done|]. cbn. rewrite IH, andb_true_r.
  by rewrite N_ascii_embedding by (apply Hf in Hx; lia).
Qed.

Lemma ascii_chars s (f : N → bool) :
  utf8 s = true → (∀ x, f x = true → x < 128)%N → forallb f (chars s) = true → chars s = N_of_ascii <$> bytes_of s.
Proof.
  intros [Hs _]%utf8_spec Hf Hall.
  assert (Forall (λ x, x < 128)%N (chars s)) as H.
  { apply Forall_forall. intros x Hx. rewrite forallb_forall in Hall. apply Hf, Hall. by apply list_elem_of_In. }
  rewrite Hs at 2. rewrite bytes_of_from_chars, <- list_fmap_compose by done. clear Hs Hall.
  induction H as [|x l Hx _ IH]; [done|]. cbn. rewrite N_ascii_embedding by lia. by f_equal.
Qed.

(** What follows an ASCII prefix of a text is a text. *)
Lemma utf8_strip_ascii a s : utf8 (String a s) = true → (N_of_ascii a < 128)%N → utf8 s = true.
Proof.
  intros [Hs Hc]%utf8_spec Ha. assert (Hl : chars (String a s) = N_of_ascii a :: chars s).
  { cbn. destruct (N.ltb_spec (N_of_ascii a) 192); [done | lia]. }
  rewrite Hl in *. apply utf8_spec. inversion Hc as [|? ? _ Hc']; subst. split; [|done].
  rewrite from_chars_cons in Hs. unfold encode_utf8 in Hs. apply N.ltb_lt in Ha. rewrite Ha in Hs. cbn in Hs.
  rewrite ascii_N_embedding in Hs. by injection Hs.
Qed.

(** ** All bytes of the parts of a text *)

Lemma bytes_all_app f a b : bytes_all f (a +:+ b) = bytes_all f a && bytes_all f b.
Proof. unfold bytes_all. induction a as [|y a IH]; [done|]. cbn. rewrite <- andb_assoc. f_equal. exact IH. Qed.

Lemma bytes_all_substring f i n s : bytes_all f s = true → bytes_all f (String.substring i n s) = true.
Proof.
  unfold bytes_all. revert i n. induction s as [|a s IH]; intros i n; [by destruct i, n|]. cbn. intros [Ha Hs]%andb_prop.
  destruct i as [|i]; [destruct n as [|n]; [done|]; cbn; rewrite Ha; by apply IH | by apply IH].
Qed.

Lemma bytes_all_strip f s p r : strip_prefix s p = Some r → bytes_all f s = true → bytes_all f r = true.
Proof. intros ->%strip_prefix_Some. rewrite bytes_all_app. by intros [_ ?]%andb_prop. Qed.

Lemma bytes_all_impl (f g : N → bool) s : (∀ y, f y = true → g y = true) → bytes_all f s = true → bytes_all g s = true.
Proof. unfold bytes_all. rewrite !forallb_forall. auto. Qed.

Lemma slice_Some s a b r : slice s a b = Some r → r = String.substring a (b - a) s.
Proof. unfold slice. destruct (_ && _); [by intros [= <-] | done]. Qed.
Lemma slice_from_Some s a r : slice_from s a = Some r → r = String.substring a (len s - a) s.
Proof. unfold slice_from. destruct (is_char_boundary s a); [by intros [= <-] | done]. Qed.

Example bit_tokens : is_bit_column_type "BIT(1)" = true ∧ is_bit_column_type "bit varying" = true ∧
  is_bit_column_type "bitmap" = false.
Proof. vm_compute. done. Qed.
Example numeric_texts : is_numeric_literal "-1.50e3" = true ∧ is_numeric_literal "1e400" = false ∧
  is_numeric_literal " 1" = false ∧ is_numeric_literal "inf" = false.
Proof. vm_compute. done. Qed.
