(* ===== verification/DataCompare.v ===== *)
(** * Data comparison and synchronisation (data_compare.rs)

    Rows of a source and of a target table matched by key columns, the
    differences, and the statements that make the target equal to the source.
    A fetched row is the list of its cells; a [HashMap] from columns to cells is
    a [gmap]. The generators first build a [SyncStatement], whose [render] is
    the text the code writes; what a database does with it is [exec]. *)
From S2P Require Import Prelude RustStr Json SqlText GridTypes.

Abbreviation fetched := (list Value) (only parsing).
Abbreviation record := (gmap string Value) (only parsing).

(** ** Interfaces *)

(** [serde_json::to_string] (of a cell it cannot fail). *)
Class JsonText : Type := { json_stringify : Value → string }.

(** How the SQL generators (data_grid_sql.rs, sql_dialect) write a table, a
    column and a cell: nothing here depends on it. *)
Class SqlWriter : Type := {
  qualified_table_name : option DatabaseType → option string → string → string;
  quote_table_identifier : option DatabaseType → string → string;
  format_data_grid_sql_literal : Value → option DatabaseType → option DataGridColumnInfo → string
}.

(** ** Cells and keys *)

(** [Value == Value]: objects compare without regard to the order of keys. *)
Fixpoint value_eqb (v w : Value) : bool :=
  match v, w with
  | Null, Null => true
  | Bool a, Bool b => Bool.eqb a b
  | Number a, Number b => String.eqb a b
  | VString a, VString b => String.eqb a b
  | Array l, Array k =>
      (fix go l k := match l, k with
                     | [], [] => true
                     | x :: l', y :: k' => value_eqb x y && go l' k'
                     | _, _ => false
                     end) l k
  | Object m, Object n =>
      (List.length m =? List.length n)
      && forallb (λ kv, match obj_get n kv.1 with Some y => value_eqb kv.2 y | None => false end) m
  | _, _ => false
  end.

(** [HashMap::from_iter]: the last of equal keys stays. *)
Definition collect_map {A} (l : list (string * A)) : gmap string A :=
  fold_left (λ m kv, <[kv.1 := kv.2]> m) l ∅.

Definition column_index_map (columns : list string) : gmap string nat :=
  collect_map (imap (λ index column, (column, index)) columns).

Definition row_value (row : fetched) (index : nat) : Value := default Null (row !! index).

Definition normalize_row_len (row : fetched) (column_len : nat) : fetched :=
  if List.length row <? column_len then row ++ replicate (column_len - List.length row) Null else row.

Definition row_object (columns : list string) (row : fetched) : record :=
  collect_map (imap (λ index column, (column, default Null (row !! index))) columns).

(** A column with what is left of the row's iterator. *)
Fixpoint row_object_owned_loop (columns : list string) (row : fetched) (values : record) : record :=
  match columns with
  | [] => values
  | column :: columns' =>
      row_object_owned_loop columns' (List.tl row) (<[column := default Null (head row)]> values)
  end.
Definition row_object_owned (columns : list string) (row : fetched) : record := row_object_owned_loop columns row ∅.

Definition value_for (row : record) (column : string) : Value := default Null (row !! column).

(** U+001F. *)
Definition unit_separator : string := String (ascii_of_nat 31) "".

Section Keys.
Context `{HJ : JsonText}.

Definition key_for (row : record) (key_columns : list string) : string :=
  join unit_separator ((λ column, json_stringify (value_for row column)) <$> key_columns).

Definition cell_at (row : fetched) (column_indexes : gmap string nat) (column : string) : Value :=
  match column_indexes !! column with Some index => row_value row index | None => Null end.

Definition key_for_row (row : fetched) (key_columns : list string) (column_indexes : gmap string nat) : string :=
  join unit_separator ((λ column, json_stringify (cell_at row column_indexes column)) <$> key_columns).

Definition key_values (row : record) (key_columns : list string) : record :=
  collect_map ((λ column, (column, value_for row column)) <$> key_columns).

Definition key_values_for_row (row : fetched) (key_columns : list string) (column_indexes : gmap string nat) : record :=
  collect_map ((λ column, (column, cell_at row column_indexes column)) <$> key_columns).

(** ** The comparison *)

Record DataCompareChangedCell : Type := { column : string; source : Value; target : Value }.
Record DataCompareRow : Type := { key : string; row_key_values : record; values : record }.
Record DataCompareModifiedRow : Type := {
  modified_key : string; modified_key_values : record; source_values : record; target_values : record;
  changes : list DataCompareChangedCell
}.
Record DataCompareResult : Type := {
  added : list DataCompareRow; removed : list DataCompareRow; modified : list DataCompareModifiedRow
}.

Record CompareDataRowsOptions : Type := {
  columns : list string; key_columns : list string; source_rows : list fetched; target_rows : list fetched
}.

Fixpoint collect_loop (column_len : nat) (key_columns : list string) (column_indexes : gmap string nat) (label : string)
    (rows : list fetched) (items : gmap string fetched) (order : list string)
    : result (gmap string fetched * list string) string :=
  match rows with
  | [] => Ok (items, order)
  | row :: rows' =>
      let key := key_for_row row key_columns column_indexes in
      match items !! key with
      | Some _ => Err ("Duplicate " +:+ label +:+ " key: " +:+ key)%string
      | None =>
          collect_loop column_len key_columns column_indexes label rows'
            (<[key := normalize_row_len row column_len]> items) (order ++ [key])
      end
  end.

Definition collect_compare_rows (columns key_columns : list string) (column_indexes : gmap string nat)
    (rows : list fetched) (label : string) : result (gmap string fetched * list string) string :=
  collect_loop (List.length columns) key_columns column_indexes label rows ∅ [].

Definition changed_cell (column_indexes : gmap string nat) (source target : fetched) (column : string)
    : option DataCompareChangedCell :=
  index ← column_indexes !! column;
  let s := row_value source index in
  let t := row_value target index in
  if negb (value_eqb s t) then Some {| column := column; source := s; target := t |} else None.

(** One key of the source: an added row, a modified one, or neither. *)
Definition compare_key (o : CompareDataRowsOptions) (column_indexes : gmap string nat)
    (source target : gmap string fetched) (key : string) (acc : list DataCompareRow * list DataCompareModifiedRow)
    : list DataCompareRow * list DataCompareModifiedRow :=
  let '(added, modified) := acc in
  let source_values := default [] (source !! key) in
  match target !! key with
  | None =>
      (added ++ [{| key := key;
                    row_key_values := key_values_for_row source_values (key_columns o) column_indexes;
                    values := row_object (columns o) source_values |}], modified)
  | Some target_values =>
      let changes := omap (changed_cell column_indexes source_values target_values)
                       (List.filter (λ column, negb (bool_decide (column ∈ key_columns o))) (columns o)) in
      match changes with
      | [] => (added, modified)
      | _ =>
          (added, modified ++
             [{| modified_key := key;
                 modified_key_values := key_values_for_row source_values (key_columns o) column_indexes;
                 source_values := row_object (columns o) source_values;
                 target_values := row_object (columns o) target_values;
                 changes := changes |}])
      end
  end.

Definition removed_row (o : CompareDataRowsOptions) (column_indexes : gmap string nat)
    (source target : gmap string fetched) (key : string) : option DataCompareRow :=
  target_values ← target !! key;
  match source !! key with
  | Some _ => None
  | None => Some {| key := key; row_key_values := key_values_for_row target_values (key_columns o) column_indexes;
                    values := row_object (columns o) target_values |}
  end.

Definition compare_data_rows (o : CompareDataRowsOptions) : result DataCompareResult string :=
  match key_columns o with
  | [] => Err "At least one key column is required for data comparison"
  | _ =>
      let column_indexes := column_index_map (columns o) in
      result_bind (collect_compare_rows (columns o) (key_columns o) column_indexes (source_rows o) "source")
        (λ '(source, source_order),
      result_bind (collect_compare_rows (columns o) (key_columns o) column_indexes (target_rows o) "target")
        (λ '(target, target_order),
      let '(added, modified) :=
        fold_left (λ acc key, compare_key o column_indexes source target key acc) source_order ([], []) in
      let removed := omap (removed_row o column_indexes source target) target_order in
      Ok {| added := added; removed := removed; modified := modified |}))
  end.

Definition missing_target_diff (columns key_columns : list string) (rows : list fetched) : DataCompareResult :=
  {| added := imap (λ index row,
       let values := row_object_owned columns row in
       {| key := match key_columns with [] => pretty index | _ => key_for values key_columns end;
          row_key_values := key_values values key_columns; values := values |}) rows;
     removed := []; modified := [] |}.
End Keys.

(** ** The statements *)

Definition DATA_SYNC_INSERT_BATCH_SIZE : nat := 500.
Definition DATA_SYNC_CONDITION_BATCH_SIZE : nat := 200.

Definition column_info_for (columns : list DataGridColumnInfo) (name : string) : option DataGridColumnInfo :=
  List.find (λ column, String.eqb (to_ascii_lowercase (ci_name column)) (to_ascii_lowercase name)) columns.

Definition is_non_identity_generated_column (column_info : option DataGridColumnInfo) : bool :=
  let extra := to_ascii_lowercase (default "" (column_info ≫= extra)) in
  contains extra "generated always as" && negb (contains extra "identity").

Definition has_writable_changes (row : DataCompareModifiedRow) (column_info : list DataGridColumnInfo) : bool :=
  existsb (λ change, negb (is_non_identity_generated_column (column_info_for column_info (column change)))) (changes row).

(** [column = value] for every key column. *)
Definition KeyCondition : Type := list (string * Value).

(** What an assignment gives a column: a cell, or the cell of the first key
    that matches, else the value the column has. *)
Inductive Assigned : Type :=
| ToLiteral (v : Value)
| ToCase (cases : list (KeyCondition * Value)).

Inductive SyncStatement : Type :=
| InsertDefaults
| Insert (columns : list string) (rows : list (list Value))
| Update (assignments : list (string * Assigned)) (conditions : list KeyCondition)
| Delete (conditions : list KeyCondition).

Record GenerateDataSyncSqlOptions : Type := {
  table_name : string; schema : option string; sync_columns : list string; sync_key_columns : list string;
  column_info : list DataGridColumnInfo; diff : DataCompareResult; database_type : option DatabaseType
}.

Section Statements.
Context (o : GenerateDataSyncSqlOptions).

Definition generated (column : string) : bool := is_non_identity_generated_column (column_info_for (column_info o) column).
Definition where_by_key (key_values : record) : KeyCondition :=
  (λ column, (column, default Null (key_values !! column))) <$> sync_key_columns o.

Definition insert_statements : list SyncStatement :=
  let writable_columns := List.filter (λ column, negb (generated column)) (sync_columns o) in
  match writable_columns with
  | [] => (λ _, InsertDefaults) <$> added (diff o)
  | _ =>
      (λ chunk, Insert writable_columns
         ((λ row, (λ column, default Null (values row !! column)) <$> writable_columns) <$> chunk))
      <$> chunks DATA_SYNC_INSERT_BATCH_SIZE (added (diff o))
  end.

Definition single_update_statement (row : DataCompareModifiedRow) : SyncStatement :=
  Update
    ((λ change, (column change, ToLiteral (source change)))
       <$> List.filter (λ change, negb (generated (column change))) (changes row))
    [where_by_key (modified_key_values row)].

Definition change_of (column_name : string) (row : DataCompareModifiedRow) : option DataCompareChangedCell :=
  List.find (λ change, String.eqb (column change) column_name) (changes row).

Definition update_chunk (chunk : list DataCompareModifiedRow) : list SyncStatement :=
  match chunk with
  | [row] => [single_update_statement row]
  | _ =>
      let changed_columns :=
        List.filter (λ column_name, negb (generated column_name)
          && existsb (λ row, existsb (λ change, String.eqb (column change) column_name) (changes row)) chunk)
          (sync_columns o) in
      match changed_columns with
      | [] => []
      | _ =>
          [Update
             ((λ column_name, (column_name,
                 ToCase (omap (λ row, change ← change_of column_name row;
                                      Some (where_by_key (modified_key_values row), source change)) chunk)))
                <$> changed_columns)
             ((λ row, where_by_key (modified_key_values row)) <$> chunk)]
      end
  end.

Definition update_statements : list SyncStatement :=
  chunks DATA_SYNC_CONDITION_BATCH_SIZE (List.filter (λ row, has_writable_changes row (column_info o)) (modified (diff o)))
    ≫= update_chunk.

Definition delete_statements : list SyncStatement :=
  (λ chunk, Delete ((λ row, where_by_key (row_key_values row)) <$> chunk))
    <$> chunks DATA_SYNC_CONDITION_BATCH_SIZE (removed (diff o)).

Definition sync_statements_of : list SyncStatement := insert_statements ++ update_statements ++ delete_statements.
End Statements.

(** ** The text of the statements *)

Section Text.
Context `{HW : SqlWriter} (o : GenerateDataSyncSqlOptions) (table : string).

Definition quoted_column (column : string) : string := quote_table_identifier (database_type o) column.
Definition literal_of (column : string) (v : Value) : string :=
  format_data_grid_sql_literal v (database_type o) (column_info_for (column_info o) column).

Definition condition_text (condition : KeyCondition) : string :=
  join " AND " ((λ '(column, v), quoted_column column +:+ " = " +:+ literal_of column v)%string <$> condition).

Definition conditions_text (conditions : list KeyCondition) : string :=
  match conditions with
  | [condition] => condition_text condition
  | _ => join " OR " ((λ condition, "(" +:+ condition_text condition +:+ ")")%string <$> conditions)
  end.

Definition assignment_text (a : string * Assigned) : string :=
  let '(column, e) := a in
  match e with
  | ToLiteral v => (quoted_column column +:+ " = " +:+ literal_of column v)%string
  | ToCase cases =>
      (quoted_column column +:+ " = CASE "
       +:+ join " " ((λ '(condition, v), "WHEN " +:+ condition_text condition +:+ " THEN " +:+ literal_of column v)%string <$> cases)
       +:+ " ELSE " +:+ quoted_column column +:+ " END")%string
  end.

Definition render (s : SyncStatement) : string :=
  match s with
  | InsertDefaults => ("INSERT INTO " +:+ table +:+ " DEFAULT VALUES;")%string
  | Insert columns rows =>
      ("INSERT INTO " +:+ table +:+ " (" +:+ join ", " (quoted_column <$> columns) +:+ ") VALUES "
       +:+ join ", " ((λ row, "(" +:+ join ", " (zip_with literal_of columns row) +:+ ")")%string <$> rows) +:+ ";")%string
  | Update assignments conditions =>
      ("UPDATE " +:+ table +:+ " SET " +:+ join ", " (assignment_text <$> assignments)
       +:+ " WHERE " +:+ conditions_text conditions +:+ ";")%string
  | Delete conditions => ("DELETE FROM " +:+ table +:+ " WHERE " +:+ conditions_text conditions +:+ ";")%string
  end.
End Text.

Definition generate_insert_sync_statements `{SqlWriter} (o : GenerateDataSyncSqlOptions) (table : string) : list string :=
  render o table <$> insert_statements o.
Definition generate_single_update_statement `{SqlWriter} (o : GenerateDataSyncSqlOptions) (table : string)
    (row : DataCompareModifiedRow) : string := render o table (single_update_statement o row).
Definition generate_update_sync_statements `{SqlWriter} (o : GenerateDataSyncSqlOptions) (table : string) : list string :=
  render o table <$> update_statements o.
Definition generate_delete_sync_statements `{SqlWriter} (o : GenerateDataSyncSqlOptions) (table : string) : list string :=
  render o table <$> delete_statements o.

Definition generate_data_sync_statements `{SqlWriter} (o : GenerateDataSyncSqlOptions) : list string :=
  let table := qualified_table_name (database_type o) (schema o) (table_name o) in
  generate_insert_sync_statements o table ++ generate_update_sync_statements o table
  ++ generate_delete_sync_statements o table.

(** ** The plan *)

Record DataCompareSyncPlanTableRef : Type := {
  plan_table : GenerateDataSyncSqlOptions; pre_sync_statements : list string
}.
Record DataCompareSyncPlan : Type := {
  insert_count : nat; update_count : nat; delete_count : nat; statement_count : nat;
  sync_statements : list string; sync_sql : string
}.

Definition build_data_compare_sync_plan_from_refs `{SqlWriter} (tables : list DataCompareSyncPlanTableRef)
    : DataCompareSyncPlan :=
  let '(inserts, updates, deletes, statements) :=
    fold_left (λ '(inserts, updates, deletes, statements) t,
      let o := plan_table t in
      (inserts + List.length (added (diff o)),
       updates + List.length (List.filter (λ row, has_writable_changes row (column_info o)) (modified (diff o))),
       deletes + List.length (removed (diff o)),
       (statements ++ pre_sync_statements t) ++ generate_data_sync_statements o))
      tables (0, 0, 0, []) in
  {| insert_count := inserts; update_count := updates; delete_count := deletes;
     statement_count := List.length statements; sync_statements := statements; sync_sql := join newline statements |}.

Record DataComparePreparationOptions : Type := {
  prep_table_name : string; prep_schema : option string; prep_column_info : list DataGridColumnInfo;
  prep_database_type : option DatabaseType; prep_rows : CompareDataRowsOptions
}.
Record DataComparePreparation : Type := {
  prep_result : DataCompareResult; prep_sync_statements : list string; prep_sync_sql : string
}.

Definition sync_options (p : DataComparePreparationOptions) (result : DataCompareResult) : GenerateDataSyncSqlOptions :=
  {| table_name := prep_table_name p; schema := prep_schema p; sync_columns := columns (prep_rows p);
     sync_key_columns := key_columns (prep_rows p); column_info := prep_column_info p; diff := result;
     database_type := prep_database_type p |}.

Definition prepare_data_compare `{JsonText, SqlWriter} (p : DataComparePreparationOptions)
    : result DataComparePreparation string :=
  result_bind (compare_data_rows (prep_rows p)) (λ result,
    let plan := build_data_compare_sync_plan_from_refs
                  [{| plan_table := sync_options p result; pre_sync_statements := [] |}] in
    Ok {| prep_result := result; prep_sync_statements := sync_statements plan; prep_sync_sql := sync_sql plan |}).

(** ** What a database does with the statements *)

(** [=] of SQL: never true of a NULL. *)
Definition sql_equal (v w : Value) : bool :=
  match v, w with
  | Null, _ | _, Null => false
  | _, _ => bool_decide (v = w)
  end.

Definition key_holds (row : record) (condition : KeyCondition) : bool :=
  forallb (λ cv, sql_equal (value_for row cv.1) cv.2) condition.
Definition selected (conditions : list KeyCondition) (row : record) : bool := existsb (key_holds row) conditions.

(** CASE takes the first branch that holds. *)
Definition assigned_value (e : Assigned) (row : record) (column : string) : Value :=
  match e with
  | ToLiteral v => v
  | ToCase cases =>
      match List.find (λ case, key_holds row case.1) cases with Some case => case.2 | None => value_for row column end
  end.

(** The right-hand sides see the row as it was. *)
Definition update_row (assignments : list (string * Assigned)) (row : record) : record :=
  fold_left (λ new a, <[a.1 := assigned_value a.2 row a.1]> new) assignments row.

Definition exec (s : SyncStatement) (table : list record) : list record :=
  match s with
  | InsertDefaults => table ++ [∅]
  | Insert columns rows => table ++ ((λ row, collect_map (zip columns row)) <$> rows)
  | Update assignments conditions => (λ row, if selected conditions row then update_row assignments row else row) <$> table
  | Delete conditions => List.filter (λ row, negb (selected conditions row)) table
  end.
Definition exec_all (statements : list SyncStatement) (table : list record) : list record :=
  fold_left (λ t s, exec s t) statements table.

(** What a SELECT of the columns fetches. *)
Definition fetch (columns : list string) (row : record) : fetched := value_for row <$> columns.

(** ** Maps and lists *)

Lemma collect_map_snoc {A} (l : list (string * A)) kv : collect_map (l ++ [kv]) = <[kv.1 := kv.2]> (collect_map l).
Proof. unfold collect_map. by rewrite fold_left_app. Qed.

(** A map built from a function of the key. *)
Lemma collect_map_fun {A} (f : string → A) l k :
  collect_map ((λ c, (c, f c)) <$> l) !! k = if bool_decide (k ∈ l) then Some (f k) else None.
Proof.
  induction l as [|c l IH] using rev_ind; [by rewrite bool_decide_false by (by intros ?%elem_of_nil)|].
  rewrite fmap_app. cbn [fmap list_fmap]. rewrite collect_map_snoc. cbn [fst snd]. destruct (decide (c = k)) as [->|Hne].
  - rewrite lookup_insert_eq, bool_decide_true; [done|]. apply elem_of_app. right. by left.
  - rewrite lookup_insert_ne, IH by done. rewrite (bool_decide_ext (k ∈ l ++ [c]) (k ∈ l)); [done|].
    rewrite elem_of_app, list_elem_of_singleton. naive_solver.
Qed.

(** A map with distinct keys holds what the list holds. *)
Lemma collect_map_elem {A} (l : list (string * A)) k v : NoDup l.*1 → collect_map l !! k = Some v ↔ (k, v) ∈ l.
Proof.
  induction l as [|[k' v'] l IH] using rev_ind; [split; [done|by intros ?%elem_of_nil]|].
  rewrite fmap_app. cbn [fmap list_fmap]. rewrite collect_map_snoc. intros (Hnd & Hdis & _)%NoDup_app. cbn [fst snd].
  rewrite elem_of_app, list_elem_of_singleton. destruct (decide (k' = k)) as [->|Hne].
  - rewrite lookup_insert_eq. split; [intros [= ->]; by right|]. intros [Hin|[= ->]]; [|done]. exfalso.
    apply (Hdis k); [|by left]. apply list_elem_of_fmap. by exists (k, v).
  - rewrite lookup_insert_ne, IH by done. naive_solver.
Qed.

Lemma filter_true {A} (f : A → bool) l : Forall (λ x, f x = true) l → List.filter f l = l.
Proof. induction 1 as [|x l Hx _ IH]; cbn; [done|]. by rewrite Hx, IH. Qed.


Lemma collect_map_None {A} (l : list (string * A)) k : collect_map l !! k = None ↔ k ∉ l.*1.
Proof.
  induction l as [|[k' v'] l IH] using rev_ind; [split; [by intros _ ?%elem_of_nil|done]|].
  rewrite fmap_app, collect_map_snoc, not_elem_of_app. cbn [fmap list_fmap fst snd].
  rewrite not_elem_of_cons. destruct (decide (k' = k)) as [->|Hne].
  - rewrite lookup_insert_eq. naive_solver.
  - rewrite lookup_insert_ne, IH by done. split; [|tauto]. intros H. split_and!; [done|congruence|apply not_elem_of_nil].
Qed.

(** ** The comparison as a specification *)

(** The first key that came before. *)
Fixpoint first_duplicate (seen l : list string) : option string :=
  match l with
  | [] => None
  | k :: l' => if bool_decide (k ∈ seen) then Some k else first_duplicate (seen ++ [k]) l'
  end.

Lemma first_duplicate_None seen l : first_duplicate seen l = None ↔ NoDup l ∧ ∀ k, k ∈ l → k ∉ seen.
Proof.
  revert seen. induction l as [|k l IH]; intros seen; cbn.
  { split; [|done]. intros _. split; [constructor|]. by intros k ?%elem_of_nil. }
  case_bool_decide as Hk.
  - split; [done|]. intros [_ H]. exfalso. apply (H k); [by left|done].
  - rewrite IH, NoDup_cons. setoid_rewrite elem_of_cons. setoid_rewrite elem_of_app.
    setoid_rewrite list_elem_of_singleton. split; [|naive_solver].
    intros [Hnd Hl]. split_and!; [|done|].
    + intros Hin. apply (Hl k Hin). by right.
    + intros k' [->|Hin]; [done|]. intros Hs. apply (Hl k' Hin). by left.
Qed.

Lemma omap_ext_all {A B} (f g : A → option B) (l : list A) : (∀ x, f x = g x) → omap f l = omap g l.
Proof. intros H. induction l as [|x l IH]; cbn; [done|]. by rewrite H, IH. Qed.

Lemma match_nonempty {A B} (l : list A) (x y : B) : l ≠ [] → match l with [] => x | _ => y end = y.
Proof. by destruct l. Qed.

Section compare.
Context `{HJ : JsonText} (o : CompareDataRowsOptions).
Let ci := column_index_map (columns o).
Let K (row : fetched) : string := key_for_row row (key_columns o) ci.

(** The row of a table with a key. *)
Definition row_with_key (rows : list fetched) (k : string) : option fetched := List.find (λ row, String.eqb (K row) k) rows.

Definition differences (s t : fetched) : list DataCompareChangedCell :=
  omap (changed_cell ci s t)
    (List.filter (λ column, negb (bool_decide (column ∈ key_columns o))) (columns o)).

Definition only_row (others : list fetched) (row : fetched) : option DataCompareRow :=
  match row_with_key others (K row) with
  | Some _ => None
  | None => Some {| key := K row; row_key_values := key_values_for_row row (key_columns o) ci;
                    values := row_object (columns o) row |}
  end.

Definition differing_row (others : list fetched) (row : fetched) : option DataCompareModifiedRow :=
  t ← row_with_key others (K row);
  match differences row t with
  | [] => None
  | changes => Some {| modified_key := K row; modified_key_values := key_values_for_row row (key_columns o) ci;
                       source_values := row_object (columns o) row; target_values := row_object (columns o) t;
                       changes := changes |}
  end.

Definition compare_spec : result DataCompareResult string :=
  match key_columns o with
  | [] => Err "At least one key column is required for data comparison"
  | _ =>
      match first_duplicate [] (K <$> source_rows o), first_duplicate [] (K <$> target_rows o) with
      | Some k, _ => Err ("Duplicate source key: " +:+ k)%string
      | None, Some k => Err ("Duplicate target key: " +:+ k)%string
      | None, None =>
          Ok {| added := omap (only_row (target_rows o)) (source_rows o);
                removed := omap (only_row (source_rows o)) (target_rows o);
                modified := omap (differing_row (target_rows o)) (source_rows o) |}
      end
  end.

(** Padding a row with NULLs cannot be seen. *)
Lemma row_value_norm row n i : row_value (normalize_row_len row n) i = row_value row i.
Proof.
  unfold row_value, normalize_row_len. case_match; [|done].
  destruct (decide (i < List.length row)) as [Hi|Hi]; [by rewrite lookup_app_l|].
  rewrite lookup_app_r by lia. rewrite (lookup_ge_None_2 row) by lia.
  destruct (replicate _ Null !! _) as [v|] eqn:E; [|done]. by apply lookup_replicate in E as [-> _].
Qed.

Lemma cell_at_norm row n c : cell_at (normalize_row_len row n) ci c = cell_at row ci c.
Proof. unfold cell_at. case_match; [apply row_value_norm|done]. Qed.

Lemma row_object_norm row n : row_object (columns o) (normalize_row_len row n) = row_object (columns o) row.
Proof. unfold row_object. f_equal. apply imap_ext. intros i c _. cbn. f_equal. apply (row_value_norm row n i). Qed.

Lemma key_values_norm row n :
  key_values_for_row (normalize_row_len row n) (key_columns o) ci = key_values_for_row row (key_columns o) ci.
Proof. unfold key_values_for_row. f_equal. apply list_fmap_ext. intros i c _. by rewrite cell_at_norm. Qed.

Lemma changed_cell_norm s t n c :
  changed_cell ci (normalize_row_len s n) (normalize_row_len t n) c = changed_cell ci s t c.
Proof. unfold changed_cell. destruct (ci !! c) as [i|]; [|done]. cbn. by rewrite !row_value_norm. Qed.

Definition entries (rows : list fetched) : list (string * fetched) :=
  (λ row, (K row, normalize_row_len row (List.length (columns o)))) <$> rows.

Lemma entries_keys rows : (entries rows).*1 = K <$> rows.
Proof. unfold entries. by rewrite <-list_fmap_compose. Qed.

Lemma collect_loop_spec label rows : ∀ pairs,
  collect_loop (List.length (columns o)) (key_columns o) ci label rows (collect_map pairs) (pairs.*1)
  = match first_duplicate (pairs.*1) (K <$> rows) with
    | Some k => Err ("Duplicate " +:+ label +:+ " key: " +:+ k)%string
    | None => Ok (collect_map (pairs ++ entries rows), (pairs ++ entries rows).*1)
    end.
Proof.
  induction rows as [|row rows IH]; intros pairs; [cbn; by rewrite app_nil_r|].
  cbn [collect_loop fmap list_fmap first_duplicate]. fold (K row).
  destruct (collect_map pairs !! K row) as [r|] eqn:E.
  - rewrite bool_decide_true; [done|]. destruct (decide (K row ∈ pairs.*1)) as [|Hn]; [done|].
    apply collect_map_None in Hn. congruence.
  - apply collect_map_None in E. rewrite bool_decide_false by done.
    specialize (IH (pairs ++ [(K row, normalize_row_len row (List.length (columns o)))])).
    rewrite collect_map_snoc, fmap_app in IH. cbn [fst snd fmap list_fmap] in IH. rewrite IH.
    destruct (first_duplicate _ _); [done|]. by rewrite <-app_assoc.
Qed.

Lemma collected_rows label rows :
  collect_compare_rows (columns o) (key_columns o) ci rows label
  = match first_duplicate [] (K <$> rows) with
    | Some k => Err ("Duplicate " +:+ label +:+ " key: " +:+ k)%string
    | None => Ok (collect_map (entries rows), K <$> rows)
    end.
Proof. 
  pose proof (collect_loop_spec label rows []) as H. cbn [app] in H. rewrite entries_keys in H. exact H.
Qed.

Lemma row_with_key_Some rows k r : row_with_key rows k = Some r → r ∈ rows ∧ K r = k.
Proof. intros [Hr Hk]%find_some. split; [by apply list_elem_of_In|by apply String.eqb_eq]. Qed.

Lemma row_with_key_None rows k : row_with_key rows k = None ↔ k ∉ K <$> rows.
Proof.
  unfold row_with_key. split.
  - intros H (r & -> & Hr)%list_elem_of_fmap. apply list_elem_of_In, (find_none _ _ H), String.eqb_neq in Hr. done.
  - intros H. destruct (List.find _ rows) as [r|] eqn:E; [|done]. exfalso. apply row_with_key_Some in E as [Hr <-].
    apply H, list_elem_of_fmap. eauto.
Qed.

Lemma collected_lookup rows k : NoDup (K <$> rows) →
  collect_map (entries rows) !! k = (λ row, normalize_row_len row (List.length (columns o))) <$> row_with_key rows k.
Proof.
  intros Hnd. destruct (row_with_key rows k) as [r|] eqn:E.
  - apply row_with_key_Some in E as [Hr <-]. cbn. apply collect_map_elem; [by rewrite entries_keys|].
    apply list_elem_of_fmap. eauto.
  - apply row_with_key_None in E. cbn. apply collect_map_None. by rewrite entries_keys.
Qed.

Lemma row_with_own_key rows r : NoDup (K <$> rows) → r ∈ rows → row_with_key rows (K r) = Some r.
Proof.
  intros Hnd Hr. destruct (row_with_key rows (K r)) as [r'|] eqn:E.
  - apply row_with_key_Some in E as [Hr' Hk]. f_equal.
    apply list_elem_of_lookup in Hr as [i Hi]. apply list_elem_of_lookup in Hr' as [j Hj].
    assert (i = j) as ->; [|congruence].
    apply (NoDup_lookup _ i j (K r) Hnd); rewrite list_lookup_fmap; [by rewrite Hi|by rewrite Hj; cbn; rewrite Hk].
  - exfalso. apply row_with_key_None in E. apply E, list_elem_of_fmap. eauto.
Qed.

Lemma compare_keys_fold tgt src : NoDup (K <$> tgt) → NoDup (K <$> src) → ∀ rows acc, rows ⊆ src →
  fold_left (λ acc key, compare_key o ci (collect_map (entries src)) (collect_map (entries tgt)) key acc) (K <$> rows) acc
  = (acc.1 ++ omap (only_row tgt) rows, acc.2 ++ omap (differing_row tgt) rows).
Proof.
  intros Ht Hs rows. induction rows as [|r rows IH]; intros [a m] Hin; [cbn; by rewrite !app_nil_r|].
  cbn [fmap list_fmap fold_left]. rewrite IH by set_solver.
  assert (r ∈ src) as Hr by (apply Hin; by left).
  unfold compare_key. rewrite (collected_lookup src), (row_with_own_key src r Hs Hr) by done.
  rewrite (collected_lookup tgt) by done. cbn [fmap option_fmap option_map default from_option id omap list_omap].
  unfold only_row, differing_row. destruct (row_with_key tgt (K r)) as [t|] eqn:E; cbn [fmap option_fmap option_map mbind option_bind].
  - rewrite (omap_ext_all _ (changed_cell ci r t)).
    + fold (differences r t). rewrite !row_object_norm, key_values_norm.
      destruct (differences r t); cbn [fst snd]; by rewrite ?app_nil_r, <-?app_assoc.
    + intros c. apply changed_cell_norm.
  - cbn [fst snd]. by rewrite row_object_norm, key_values_norm, <-app_assoc.
Qed.

Lemma removed_row_spec tgt src r : NoDup (K <$> tgt) → NoDup (K <$> src) → r ∈ tgt →
  removed_row o ci (collect_map (entries src)) (collect_map (entries tgt)) (K r) = only_row src r.
Proof.
  intros Ht Hs Hr. unfold removed_row. rewrite (collected_lookup tgt), (row_with_own_key tgt r Ht Hr) by done.
  rewrite (collected_lookup src) by done. unfold only_row. cbn [fmap option_fmap option_map mbind option_bind].
  destruct (row_with_key src (K r)); cbn; [done|]. by rewrite row_object_norm, key_values_norm.
Qed.

Lemma omap_fmap_ext {A B C} (f : A → B) (g : B → option C) (h : A → option C) (l : list A) :
  (∀ x, x ∈ l → g (f x) = h x) → omap g (f <$> l) = omap h l.
Proof.
  induction l as [|x l IH]; intros H; [done|]. cbn. rewrite (H x) by by left. rewrite <-IH; [done|].
  intros y Hy. apply H. by right.
Qed.

(** C35: the comparison, for all rows: an error when there is no key column or
    when a table has two rows of one key, naming the first such key; else the
    rows of the source without a partner in the target, those of the target
    without one in the source, and those whose partner differs in a column that
    is no key, with exactly these columns, all in the order of the tables. Short
    rows count as padded with NULLs. *)
Theorem compare_exact : compare_data_rows o = compare_spec.
Proof.
  unfold compare_data_rows, compare_spec. destruct (decide (key_columns o = [])) as [Ek|Ek].
  { by rewrite Ek. }
  rewrite !(match_nonempty _ _ _ Ek). fold ci. rewrite !collected_rows.
  destruct (first_duplicate [] (K <$> source_rows o)) as [k|] eqn:Es; [done|]. cbn [result_bind].
  destruct (first_duplicate [] (K <$> target_rows o)) as [k|] eqn:Et; [done|]. cbn [result_bind].
  apply first_duplicate_None in Es as [Hs _]. apply first_duplicate_None in Et as [Ht _].
  rewrite (compare_keys_fold _ _ Ht Hs) by done. cbn [fst snd app]. do 2 f_equal.
  apply omap_fmap_ext. intros r Hr. by apply removed_row_spec.
Qed.
End compare.

(** ** Keys as text *)

Fixpoint no_char (a : ascii) (s : string) : Prop :=
  match s with EmptyString => True | String b s' => b ≠ a ∧ no_char a s' end.

Lemma split_at_char a x y r r' :
  no_char a x → no_char a y → (x +:+ String a r)%string = (y +:+ String a r')%string → x = y ∧ r = r'.
Proof.
  revert y. induction x as [|b x IH]; intros [|b' y]; cbn; intros Hx Hy H; simplify_eq; try naive_solver.
Qed.

Lemma join_inj a (l k : list string) :
  List.length l = List.length k → Forall (no_char a) l → Forall (no_char a) k →
  join (String a "") l = join (String a "") k → l = k.
Proof.
  intros Hlen Hl. revert k Hlen. induction Hl as [|x l Hx Hl IH]; intros [|y k] Hlen Hk; try done.
  apply Forall_cons in Hk as [Hy Hk]. cbn [List.length] in Hlen. injection Hlen as Hlen.
  destruct l as [|x' l], k as [|y' k]; try done; intros H; [by cbn in H; subst|].
  apply (split_at_char a x y (join (String a "") (x' :: l)) (join (String a "") (y' :: k))) in H as [-> H]; [|done..].
  f_equal. by apply IH.
Qed.

Definition numeric_char (a : ascii) : bool :=
  existsb (Ascii.eqb a) (bytes_of "0123456789+-.eE").
Definition numeric_token (t : string) : bool := negb (is_empty t) && forallb numeric_char (bytes_of t).

(** The token of every number is one. *)
Fixpoint json_ok (v : Value) : bool :=
  match v with
  | Number t => numeric_token t
  | Array l => forallb json_ok l
  | Object m => forallb (λ kv, json_ok kv.2) m
  | _ => true
  end.

(** serde_json's text of a value determines the value, and control characters
    are escaped in it. *)
Class JsonTextLaws `{HJ : JsonText} : Prop := {
  json_inj v w : json_ok v = true → json_ok w = true → json_stringify v = json_stringify w → v = w;
  json_clean v : json_ok v = true → no_char (ascii_of_nat 31) (json_stringify v)
}.

(** Reflexivity of the comparison of cells, for objects with distinct keys. *)
Lemma obj_get_elem m k v : NoDup m.*1 → (k, v) ∈ m → obj_get m k = Some v.
Proof.
  induction m as [|[k' v'] m IH]; [by intros _ ?%elem_of_nil|]. rewrite fmap_cons, NoDup_cons. cbn.
  intros [Hk Hnd] [[= -> ->]|Hin]%elem_of_cons; [by rewrite String.eqb_refl|].
  destruct (String.eqb_spec k' k) as [->|]; [|by apply IH]. exfalso. apply Hk, list_elem_of_fmap. by exists (k, v).
Qed.

Lemma value_eqb_refl v : wf_value v → value_eqb v v = true.
Proof.
  induction v as [|b|t|s|l IH|m IH] using value_ind'; cbn; intros Hwf; try done.
  - apply Bool.eqb_reflx.
  - apply String.eqb_refl.
  - apply String.eqb_refl.
  - induction IH as [|x l Hx _ IHl]; [done|]. cbn in Hwf. destruct Hwf as [Hw Hwf]. rewrite Hx by done. by apply IHl.
  - rewrite Nat.eqb_refl. destruct Hwf as [Hnd Hwf]. apply forallb_forall. intros [k v] Hin%list_elem_of_In.
    cbn. rewrite (obj_get_elem m k v Hnd Hin). rewrite Forall_forall in IH. apply (IH (k, v) Hin). cbn.
    clear IH Hnd. induction m as [|[k' v'] m IHm]; [by apply elem_of_nil in Hin|]. cbn in Hwf. destruct Hwf as [Hw Hwf].
    apply elem_of_cons in Hin as [[= -> ->]|Hin]; [done|]. by apply IHm.
Qed.

(** ** Statements, row by row *)

Section effects.
Context (g : GenerateDataSyncSqlOptions).

Definition row_effect (s : SyncStatement) (row : record) : record :=
  match s with
  | Update assignments conditions => if selected conditions row then update_row assignments row else row
  | _ => row
  end.
Definition is_update (s : SyncStatement) : Prop := match s with Update _ _ => True | _ => False end.

Lemma exec_updates us t : Forall is_update us →
  exec_all us t = (λ row, fold_left (λ row s, row_effect s row) us row) <$> t.
Proof.
  intros Hus. revert t. induction Hus as [|u us Hu _ IH]; intros t; [cbn; by rewrite list_fmap_id|].
  cbn [exec_all fold_left]. unfold exec_all in IH. rewrite IH. destruct u; try done. cbn [exec row_effect].
  by rewrite <-list_fmap_compose.
Qed.

(** A chunk is updated by at most one statement, which selects its keys. *)
Lemma update_chunk_shape ck s : s ∈ update_chunk g ck →
  ∃ assignments, s = Update assignments ((λ row, where_by_key g (modified_key_values row)) <$> ck).
Proof.
  unfold update_chunk. destruct ck as [|x [|y ck]]; cbv zeta.
  - case_match; [by intros ?%elem_of_nil|]. intros ->%list_elem_of_singleton. by eexists.
  - intros ->%list_elem_of_singleton. by eexists.
  - case_match; [by intros ?%elem_of_nil|]. intros ->%list_elem_of_singleton. by eexists.
Qed.

Lemma update_statements_are : Forall is_update (update_statements g).
Proof.
  apply Forall_forall. intros s (ck & Hs & _)%list_elem_of_bind. by apply update_chunk_shape in Hs as [? ->].
Qed.

Lemma selected_spec {A} (f : A → KeyCondition) l row :
  selected (f <$> l) row = existsb (λ x, key_holds row (f x)) l.
Proof. unfold selected. induction l as [|x l IH]; cbn; [done|]. by rewrite IH. Qed.

Lemma exec_deletes t :
  exec_all (delete_statements g) t
  = List.filter (λ row, negb (existsb (λ x, key_holds row (where_by_key g (row_key_values x))) (removed (diff g)))) t.
Proof.
  unfold delete_statements. pose proof (chunks_concat DATA_SYNC_CONDITION_BATCH_SIZE (removed (diff g))) as Hc.
  specialize (Hc ltac:(unfold DATA_SYNC_CONDITION_BATCH_SIZE; lia)). revert Hc.
  generalize (chunks DATA_SYNC_CONDITION_BATCH_SIZE (removed (diff g))). intros cks. generalize (removed (diff g)). intros l <-. revert t. induction cks as [|ck cks IH]; intros t; cbn [fmap list_fmap exec_all fold_left List.concat].
  - symmetry. apply filter_true, Forall_forall. done.
  - unfold exec_all in IH. rewrite IH. cbn [exec]. clear IH. induction t as [|r t IHt]; [done|]. cbn [List.filter].
    rewrite selected_spec, existsb_app.
    destruct (existsb _ ck); cbn [negb orb List.filter]; [done|]. case_match; by rewrite IHt.
Qed.

Definition inserted (row : DataCompareRow) : record :=
  collect_map ((λ column, (column, default Null (values row !! column))) <$> sync_columns g).

Lemma exec_inserts t : sync_columns g ≠ [] → Forall (λ column, generated g column = false) (sync_columns g) →
  exec_all (insert_statements g) t = t ++ (inserted <$> added (diff g)).
Proof.
  intros Hne Hgen. unfold insert_statements. rewrite (filter_true (λ column, negb (generated g column)))
    by (eapply Forall_impl; [done|]; by intros ? ->).
  rewrite match_nonempty by done.
  pose proof (chunks_concat DATA_SYNC_INSERT_BATCH_SIZE (added (diff g))) as Hc.
  specialize (Hc ltac:(unfold DATA_SYNC_INSERT_BATCH_SIZE; lia)). revert Hc.
  generalize (chunks DATA_SYNC_INSERT_BATCH_SIZE (added (diff g))). intros cks. generalize (added (diff g)). intros l <-. revert t. induction cks as [|ck cks IH]; intros t; cbn [fmap list_fmap exec_all fold_left List.concat]; [by rewrite app_nil_r|].
  unfold exec_all in IH. rewrite IH. cbn [exec]. rewrite <-app_assoc, fmap_app. do 2 f_equal.
  rewrite <-list_fmap_compose. apply list_fmap_ext. intros i row _. unfold compose, inserted. f_equal.
  clear. induction (sync_columns g) as [|c cs IH]; [done|]. cbn. by rewrite IH.
Qed.

Lemma update_row_value assignments row c : NoDup assignments.*1 →
  value_for (update_row assignments row) c
  = match List.find (λ a, String.eqb a.1 c) assignments with
    | Some a => assigned_value a.2 row a.1
    | None => value_for row c
    end.
Proof.
  intros Hnd. unfold update_row.
  assert (∀ new, value_for (fold_left (λ new a, <[a.1 := assigned_value a.2 row a.1]> new) assignments new) c
    = match List.find (λ a, String.eqb a.1 c) assignments with
      | Some a => assigned_value a.2 row a.1
      | None => value_for new c
      end) as H; [|apply H].
  induction assignments as [|[c' e] l IH]; intros new; [done|]. rewrite fmap_cons, NoDup_cons in Hnd.
  destruct Hnd as [Hc Hnd]. cbn [fold_left List.find fst snd]. rewrite IH by done.
  destruct (String.eqb_spec c' c) as [->|Hne].
  - destruct (List.find _ l) as [a|] eqn:E.
    + apply find_some in E as [Hin%list_elem_of_In Ha%String.eqb_eq]. exfalso. apply Hc, list_elem_of_fmap. eauto.
    + unfold value_for. by rewrite lookup_insert_eq.
  - destruct (List.find _ l); [done|]. unfold value_for. by rewrite lookup_insert_ne.
Qed.

(** The cells that a modified row changes take the source's value. *)
Definition changed_by (m : DataCompareModifiedRow) (row row' : record) : Prop :=
  ∀ c, value_for row' c = match change_of c m with Some change => source change | None => value_for row c end.

Definition matched (row : record) (m : DataCompareModifiedRow) : bool :=
  key_holds row (where_by_key g (modified_key_values m)).

(** What the comparison guarantees of a modified row. *)
Definition changes_ok (m : DataCompareModifiedRow) : Prop :=
  NoDup (column <$> changes m) ∧
  Forall (λ change, column change ∈ sync_columns g ∧ column change ∉ sync_key_columns g) (changes m).

Context (Hcs : NoDup (sync_columns g)).
Context (Hgen : Forall (λ column, generated g column = false) (sync_columns g)).

Lemma not_generated c : c ∈ sync_columns g → generated g c = false.
Proof. intros Hc. by eapply Forall_forall in Hgen. Qed.

Lemma change_of_Some c m change : change_of c m = Some change → change ∈ changes m ∧ column change = c.
Proof. intros [Hin Hc]%find_some. split; [by apply list_elem_of_In|by apply String.eqb_eq]. Qed.

Lemma single_effect m row : changes_ok m →
  changed_by m row (row_effect (single_update_statement g m) row) ∨ matched row m = false.
Proof.
  intros [Hnd Hch]. destruct (matched row m) eqn:E; [left|by right]. unfold single_update_statement. cbn [row_effect].
  unfold selected. cbn [existsb]. fold (matched row m). rewrite E. cbn [orb].
  rewrite (filter_true (λ change, negb (generated g (column change)))).
  2: { eapply Forall_impl; [exact Hch|]. intros ch [Hc _]. cbn. by rewrite not_generated. }
  intros c. rewrite update_row_value by (by rewrite <-list_fmap_compose).
  unfold change_of. clear. induction (changes m) as [|ch l IH]; [done|]. cbn [fmap list_fmap List.find fst].
  by destruct (String.eqb (column ch) c).
Qed.

Lemma single_no_effect m row : matched row m = false → row_effect (single_update_statement g m) row = row.
Proof. intros E. unfold single_update_statement. cbn. unfold selected. cbn. fold (matched row m). by rewrite E. Qed.

(** Among cases of which only those of [m] can hold. *)
Lemma find_case row c m chunk : m ∈ chunk → matched row m = true → (∀ m', m' ∈ chunk → matched row m' = true → m' = m) →
  List.find (λ case : KeyCondition * Value, key_holds row case.1)
    (omap (λ x, change ← change_of c x; Some (where_by_key g (modified_key_values x), source change)) chunk)
  = change ← change_of c m; Some (where_by_key g (modified_key_values m), source change).
Proof.
  intros Hin Hm Huniq. induction chunk as [|x chunk IH]; [by apply elem_of_nil in Hin|]. cbn [omap list_omap].
  destruct (matched row x) eqn:Ex.
  - assert (x = m) as -> by (apply Huniq; [by left|done]). destruct (change_of c m) as [ch|] eqn:Ec; cbn [mbind option_bind].
    + cbn [List.find fst]. unfold matched in Hm. by rewrite Hm.
    + clear IH Hin. induction chunk as [|y chunk IHc]; [done|]. cbn [omap list_omap].
      destruct (change_of c y) as [ch|] eqn:Ey; cbn [mbind option_bind].
      * cbn [List.find fst]. fold (matched row y). destruct (matched row y) eqn:E.
        -- assert (y = m) as -> by (apply Huniq; [by right; left|done]). congruence.
        -- apply IHc. intros m' Hm' ?. apply Huniq; [|done]. apply elem_of_cons in Hm' as [->|]; [by left|by right; right].
      * apply IHc. intros m' Hm' ?. apply Huniq; [|done]. apply elem_of_cons in Hm' as [->|]; [by left|by right; right].
  - apply elem_of_cons in Hin as [->|Hin]; [congruence|].
    destruct (change_of c x); cbn [mbind option_bind List.find fst];
      [fold (matched row x); rewrite Ex|]; (apply IH; [done|]); intros m' Hm' ?; (apply Huniq; [by right|done]).
Qed.

Definition chunk_effect (chunk : list DataCompareModifiedRow) (row : record) : record :=
  fold_left (λ row s, row_effect s row) (update_chunk g chunk) row.

Lemma chunk_no_match chunk row : Forall (λ m, matched row m = false) chunk → chunk_effect chunk row = row.
Proof.
  intros Hno. unfold chunk_effect, update_chunk. destruct chunk as [|x [|y chunk]].
  - cbn. by case_match.
  - cbn [fold_left]. apply single_no_effect. by apply Forall_cons in Hno as [? _].
  - cbv zeta. case_match; [done|]. cbn [fold_left row_effect]. rewrite selected_spec.
    destruct (existsb _ _) eqn:E; [|done]. apply existsb_exists in E as (m & Hm%list_elem_of_In & Hk).
    rewrite Forall_forall in Hno. specialize (Hno m Hm). unfold matched in Hno. congruence.
Qed.

Lemma chunk_match chunk row m : Forall changes_ok chunk → m ∈ chunk → matched row m = true →
  (∀ m', m' ∈ chunk → matched row m' = true → m' = m) → changed_by m row (chunk_effect chunk row).
Proof.
  intros Hok Hin Hm Huniq. unfold chunk_effect, update_chunk. assert (changes_ok m) as Hokm by (by eapply Forall_forall in Hok).
  destruct chunk as [|x [|y chunk]]; [by apply elem_of_nil in Hin|..].
  - apply list_elem_of_singleton in Hin as <-. cbn [fold_left]. destruct (single_effect m row Hokm); [done|congruence].
  - set (chunk' := x :: y :: chunk) in *. cbv zeta. set (changed := List.filter _ (sync_columns g)).
    assert (∀ c ch, change_of c m = Some ch → c ∈ changed) as Hchanged.
    { intros c ch [Hch Hc]%change_of_Some. destruct Hokm as [_ Hch']. eapply Forall_forall in Hch' as [Hcs' _]; [|done].
      rewrite Hc in Hcs'. apply list_elem_of_In, filter_In. split; [by apply list_elem_of_In|].
      rewrite not_generated by done. cbn [negb andb]. apply existsb_exists. exists m. split; [by apply list_elem_of_In|].
      apply existsb_exists. exists ch. split; [by apply list_elem_of_In|by apply String.eqb_eq]. }
    assert (NoDup changed) as Hnd by (apply NoDup_ListNoDup, List.NoDup_filter; by apply NoDup_ListNoDup).
    destruct changed as [|c0 rest] eqn:Echanged.
    + intros c. cbn [fold_left]. destruct (change_of c m) as [ch|] eqn:Ec; [|done].
      apply Hchanged in Ec. by apply elem_of_nil in Ec.
    + rewrite <-Echanged in *. clear Echanged. cbn [fold_left row_effect]. rewrite selected_spec.
      replace (existsb _ chunk') with true; [|symmetry; apply existsb_exists; exists m; split; [by apply list_elem_of_In|done]].
      intros c. rewrite update_row_value by (rewrite <-list_fmap_compose; by rewrite list_fmap_id).
      destruct (decide (c ∈ changed)) as [Hc|Hc].
      * assert (List.find (λ a : string * Assigned, String.eqb a.1 c)
          ((λ column_name, (column_name, ToCase (omap (λ row, change ← change_of column_name row;
              Some (where_by_key g (modified_key_values row), source change)) chunk'))) <$> changed)
          = Some (c, ToCase (omap (λ row, change ← change_of c row;
              Some (where_by_key g (modified_key_values row), source change)) chunk'))) as ->.
        { clear -Hc. induction changed as [|c' l IH]; [by apply elem_of_nil in Hc|]. cbn [fmap list_fmap List.find fst].
          destruct (String.eqb_spec c' c) as [->|]; [done|]. apply IH. apply elem_of_cons in Hc as [->|]; [done|done]. }
        cbn [fst snd assigned_value]. rewrite (find_case row c m chunk' Hin Hm Huniq).
        by destruct (change_of c m).
      * assert (List.find (λ a : string * Assigned, String.eqb a.1 c)
          ((λ column_name, (column_name, ToCase (omap (λ row, change ← change_of column_name row;
              Some (where_by_key g (modified_key_values row), source change)) chunk'))) <$> changed) = None) as ->.
        { clear -Hc. induction changed as [|c' l IH]; [done|]. apply not_elem_of_cons in Hc as [Hne Hc].
          cbn [fmap list_fmap List.find fst]. destruct (String.eqb_spec c' c) as [->|]; [done|]. by apply IH. }
        destruct (change_of c m) as [ch|] eqn:Ec; [|done]. apply Hchanged in Ec. done.
Qed.

Lemma fold_chunks cks row :
  fold_left (λ row s, row_effect s row) (cks ≫= update_chunk g) row = fold_left (λ row ck, chunk_effect ck row) cks row.
Proof.
  revert row. induction cks as [|ck cks IH]; intros row; [done|]. rewrite bind_cons, fold_left_app. cbn [fold_left].
  by rewrite IH.
Qed.

Lemma key_holds_ext row row' (f : string → Value) ks :
  (∀ c, c ∈ ks → value_for row c = value_for row' c) →
  key_holds row ((λ c, (c, f c)) <$> ks) = key_holds row' ((λ c, (c, f c)) <$> ks).
Proof.
  intros H. unfold key_holds. induction ks as [|c ks IH]; [done|]. cbn. rewrite (H c) by by left.
  rewrite IH; [done|]. intros c' Hc'. apply H. by right.
Qed.

Lemma matched_changed m m' row row' : changes_ok m → changed_by m row row' → matched row' m' = matched row m'.
Proof.
  intros [_ Hch] H. unfold matched, where_by_key. apply key_holds_ext. intros c Hc. rewrite H.
  destruct (change_of c m) as [ch|] eqn:E; [|done]. apply change_of_Some in E as [Hin <-].
  eapply Forall_forall in Hch as [_ Hno]; [|exact Hin]. done.
Qed.

Lemma changed_by_trans m row row1 row2 : changed_by m row row1 → changed_by m row1 row2 → changed_by m row row2.
Proof. intros H1 H2 c. rewrite H2. destruct (change_of c m) eqn:E; [done|]. rewrite H1. by rewrite E. Qed.

Lemma chunks_no_match cks row : Forall (λ m, matched row m = false) (List.concat cks) →
  fold_left (λ row ck, chunk_effect ck row) cks row = row.
Proof.
  induction cks as [|ck cks IH]; [done|]. cbn [List.concat fold_left]. intros [Hck Hcks]%Forall_app.
  rewrite chunk_no_match by done. by apply IH.
Qed.

Lemma chunks_match cks m : ∀ row, Forall changes_ok (List.concat cks) → m ∈ List.concat cks → matched row m = true →
  (∀ m', m' ∈ List.concat cks → matched row m' = true → m' = m) →
  changed_by m row (fold_left (λ row ck, chunk_effect ck row) cks row).
Proof.
  induction cks as [|ck cks IH]; intros row Hok Hin Hm Huniq; [by apply elem_of_nil in Hin|].
  cbn [List.concat fold_left] in *. apply Forall_app in Hok as [Hok1 Hok2].
  destruct (decide (Exists (λ x, matched row x = true) ck)) as [(x & Hx & Hmx)%Exists_exists|Hno].
  - assert (x = m) as -> by (apply Huniq; [apply elem_of_app; by left|done]).
    assert (changed_by m row (chunk_effect ck row)) as H1.
    { apply chunk_match; [done..|]. intros m' Hm'. apply Huniq, elem_of_app. by left. }
    assert (changes_ok m) as Hokm by (by eapply Forall_forall in Hok1).
    assert (∀ m', matched (chunk_effect ck row) m' = matched row m') as Hsame by (intros m'; by eapply matched_changed).
    destruct (decide (Exists (λ x, matched row x = true) (List.concat cks))) as [(y & Hy & Hmy)%Exists_exists|Hno].
    + assert (y = m) as -> by (apply Huniq; [apply elem_of_app; by right|done]).
      eapply changed_by_trans; [exact H1|]. apply IH; [done..|by rewrite Hsame|].
      intros m' Hm' Hmm. rewrite Hsame in Hmm. apply Huniq; [apply elem_of_app; by right|done].
    + rewrite chunks_no_match; [done|]. apply Forall_forall. intros y Hy. rewrite Hsame.
      apply not_true_is_false. intros Hmy. apply Hno, Exists_exists. eauto.
  - rewrite chunk_no_match.
    + apply IH; [done| |done|].
      * apply elem_of_app in Hin as [Hin|]; [|done]. exfalso. apply Hno, Exists_exists. eauto.
      * intros m' Hm'. apply Huniq, elem_of_app. by right.
    + apply Forall_forall. intros x Hx. apply not_true_is_false. intros Hmx. apply Hno, Exists_exists. eauto.
Qed.
End effects.

(** ** Synchronisation *)

Lemma fmap_eq_at {A B} (f g : A → B) (l : list A) x : f <$> l = g <$> l → x ∈ l → f x = g x.
Proof.
  induction l as [|y l IH]; [by intros _ ?%elem_of_nil|]. rewrite !fmap_cons. intros [= H1 H2].
  intros [->|Hx]%elem_of_cons; [done|by apply IH].
Qed.

Section sync.
Context `{HJ : JsonText, HL : !JsonTextLaws} (p : DataComparePreparationOptions) (table : list record).
Let o := prep_rows p.
Let ci := column_index_map (columns o).
Let K (row : fetched) : string := key_for_row row (key_columns o) ci.
Let cell (row : fetched) (c : string) : Value := cell_at row ci c.

(** The target rows are those fetched from the table. *)
Context (Htarget : target_rows o = fetch (columns o) <$> table).

(** The conditions under which the statements do what they are for: distinct
    columns, key columns among them, no generated column, cells as a database
    delivers them, and no NULL in a key. *)
Definition key_cell_ok (v : Value) : bool := json_ok v && negb (bool_decide (v = Null)).
Record syncable : Prop := {
  sync_distinct : NoDup (columns o);
  sync_keys : key_columns o ⊆ columns o;
  sync_plain : Forall (λ c, is_non_identity_generated_column (column_info_for (prep_column_info p) c) = false) (columns o);
  sync_cells : Forall (λ row, Forall (λ c, wf_value (cell row c)) (columns o)) (source_rows o);
  sync_source_keys : Forall (λ row, Forall (λ c, key_cell_ok (cell row c) = true) (key_columns o)) (source_rows o);
  sync_target_keys : Forall (λ row, Forall (λ c, key_cell_ok (value_for row c) = true) (key_columns o)) table
}.
Context (H : syncable).

Lemma column_index c i : ci !! c = Some i ↔ columns o !! i = Some c.
Proof.
  unfold ci, column_index_map. rewrite collect_map_elem.
  - rewrite elem_of_lookup_imap. split; [intros (j & c' & [= -> ->] & Hj); done|]. eauto.
  - assert ((imap (λ index column, (column, index)) (columns o)).*1 = columns o) as ->; [|apply H].
    apply list_eq. intros i'. rewrite list_lookup_fmap, list_lookup_imap. by destruct (columns o !! i').
Qed.

Lemma column_has_index c : c ∈ columns o → ∃ i, ci !! c = Some i ∧ columns o !! i = Some c.
Proof. intros [i Hi]%list_elem_of_lookup. exists i. split; [by apply column_index|done]. Qed.

Lemma cell_fetch row c : c ∈ columns o → cell (fetch (columns o) row) c = value_for row c.
Proof.
  intros (i & Hi & Hc)%column_has_index. unfold cell, cell_at. rewrite Hi. unfold row_value, fetch.
  by rewrite list_lookup_fmap, Hc.
Qed.

Lemma row_object_lookup row c : c ∈ columns o → row_object (columns o) row !! c = Some (cell row c).
Proof.
  intros (i & Hi & Hc)%column_has_index. unfold row_object. apply collect_map_elem.
  - assert ((imap (λ index column, (column, default Null (row !! index))) (columns o)).*1 = columns o) as ->; [|apply H].
    apply list_eq. intros i'. rewrite list_lookup_fmap, list_lookup_imap. by destruct (columns o !! i').
  - apply elem_of_lookup_imap. exists i, c. unfold cell, cell_at. by rewrite Hi.
Qed.

Lemma where_key g row : sync_key_columns g = key_columns o →
  where_by_key g (key_values_for_row row (key_columns o) ci) = (λ c, (c, cell row c)) <$> key_columns o.
Proof.
  intros Hg. unfold where_by_key, key_values_for_row. rewrite Hg. apply list_fmap_ext. intros i c Hc%list_elem_of_lookup_2.
  by rewrite collect_map_fun, bool_decide_true.
Qed.

Lemma key_cell_spec v : key_cell_ok v = true ↔ json_ok v = true ∧ v ≠ Null.
Proof. unfold key_cell_ok. by rewrite andb_true_iff, negb_true_iff, bool_decide_eq_false. Qed.

Lemma key_ok_at (f : string → Value) l c : Forall (λ c, key_cell_ok (f c) = true) l → c ∈ l →
  json_ok (f c) = true ∧ f c ≠ Null.
Proof. rewrite Forall_forall. intros Hl Hc. by apply key_cell_spec, Hl. Qed.

Lemma sql_equal_spec v w : v ≠ Null → sql_equal v w = true ↔ v = w.
Proof.
  intros Hv. destruct v, w; cbn; try done; rewrite ?bool_decide_eq_true; try done; split; congruence.
Qed.

(** A condition on the keys holds of the rows with that key text. *)
Lemma key_matches row s :
  Forall (λ c, key_cell_ok (value_for row c) = true) (key_columns o) →
  Forall (λ c, key_cell_ok (cell s c) = true) (key_columns o) →
  key_holds row ((λ c, (c, cell s c)) <$> key_columns o) = true ↔ K (fetch (columns o) row) = K s.
Proof.
  intros Hr Hs. assert (∀ c, c ∈ key_columns o → cell (fetch (columns o) row) c = value_for row c) as Hf
    by (intros c Hc; apply cell_fetch, (sync_keys H); done).
  unfold K, key_for_row. fold cell. unfold key_holds. split.
  - rewrite forallb_forall. intros Hk. f_equal. apply list_fmap_ext. intros i c Hc%list_elem_of_lookup_2.
    fold (cell (fetch (columns o) row) c) (cell s c). rewrite Hf by done.
    specialize (Hk (c, cell s c)). cbn in Hk.
    destruct (key_ok_at _ _ c Hr Hc) as [_ Hnn].
    apply sql_equal_spec in Hk; [by rewrite Hk|done|]. apply list_elem_of_In, list_elem_of_fmap. eauto.
  - intros Hj. apply forallb_forall. intros cv (x & -> & Hc)%list_elem_of_In%list_elem_of_fmap. cbn [fst snd].
    destruct (key_ok_at _ _ x Hr Hc) as [Hrok Hnn]. destruct (key_ok_at _ _ x Hs Hc) as [Hsok _].
    apply sql_equal_spec; [done|]. apply json_inj; [done..|]. rewrite <-Hf by done.
    apply join_inj in Hj.
    + by apply (fmap_eq_at _ _ _ x Hj).
    + by rewrite !length_fmap.
    + apply Forall_fmap, Forall_forall. intros y Hy. cbn. apply json_clean. unfold cell in Hf. rewrite Hf by done. by apply (key_ok_at _ _ y Hr).
    + apply Forall_fmap, Forall_forall. intros y Hy. apply json_clean. by apply (key_ok_at _ _ y Hs).
Qed.

(** The changes of a modified row. *)
Lemma elem_of_differences s t ch : ch ∈ differences o s t →
  column ch ∈ columns o ∧ column ch ∉ key_columns o ∧ source ch = cell s (column ch).
Proof.
  intros (c & Hc & Hch)%list_elem_of_omap. apply list_elem_of_In, filter_In in Hc as [Hc Hk].
  apply negb_true_iff, bool_decide_eq_false in Hk. apply list_elem_of_In in Hc. unfold changed_cell in Hch.
  fold ci in Hch. destruct (ci !! c) as [i|] eqn:Ei; [|done]. cbn in Hch. case_match; [|done]. injection Hch as <-. cbn.
  split_and!; [done..|]. unfold cell, cell_at. by rewrite Ei.
Qed.

Lemma differences_distinct s t : NoDup (column <$> differences o s t).
Proof.
  assert (∀ l, NoDup l → NoDup (column <$> omap (changed_cell ci s t) l) ∧
    ∀ c, c ∈ column <$> omap (changed_cell ci s t) l → c ∈ l) as Hl.
  { induction l as [|c l IH]; [split; [constructor|by intros c ?%elem_of_nil]|]. intros [Hc Hnd]%NoDup_cons.
    destruct (IH Hnd) as [H1 H2]. cbn [omap list_omap]. destruct (changed_cell ci s t c) as [ch|] eqn:E.
    - assert (column ch = c) as Hch.
      { unfold changed_cell in E. destruct (ci !! c); [|done]. cbn in E. case_match; [|done]. by injection E as <-. }
      rewrite fmap_cons, Hch. split; [constructor; [intros ?%H2; done|done]|].
      intros c' [->|?]%elem_of_cons; [by left|right; by apply H2].
    - split; [done|]. intros c' ?. right. by apply H2. }
  apply Hl. apply NoDup_ListNoDup, List.NoDup_filter, NoDup_ListNoDup, H.
Qed.

Lemma change_of_differences s t c (m : DataCompareModifiedRow) : changes m = differences o s t →
  c ∈ columns o → c ∉ key_columns o → change_of c m = None → value_eqb (cell s c) (cell t c) = true.
Proof.
  intros Hm Hc Hk Hnone. destruct (value_eqb (cell s c) (cell t c)) eqn:E; [done|]. exfalso.
  destruct (column_has_index c Hc) as (i & Hi & _).
  assert ({| column := c; source := cell s c; target := cell t c |} ∈ differences o s t) as Hin.
  { apply list_elem_of_omap. exists c. split.
    - apply list_elem_of_In, filter_In. split; [by apply list_elem_of_In|]. by rewrite bool_decide_false.
    - unfold changed_cell. fold ci. rewrite Hi. cbn. unfold cell, cell_at in *. rewrite Hi in *. by rewrite E. }
  rewrite <-Hm in Hin. unfold change_of in Hnone. eapply find_none in Hnone; [|by apply list_elem_of_In].
  cbn in Hnone. by rewrite String.eqb_refl in Hnone.
Qed.

Lemma no_differences s t :
  (∀ c, c ∈ columns o → c ∉ key_columns o → value_eqb (cell s c) (cell t c) = true) → differences o s t = [].
Proof.
  intros Hc. destruct (differences o s t) as [|ch l] eqn:E; [done|]. exfalso.
  assert (ch ∈ differences o s t) as Hin by (rewrite E; by left).
  apply list_elem_of_omap in Hin as (c & Hin & Hch). apply list_elem_of_In, filter_In in Hin as [Hin Hk].
  apply negb_true_iff, bool_decide_eq_false in Hk. apply list_elem_of_In in Hin. specialize (Hc c Hin Hk).
  unfold changed_cell in Hch. fold ci in Hch. destruct (column_has_index c Hin) as (i & Hi & _).
  rewrite Hi in Hch. cbn in Hch. unfold cell, cell_at in Hc. rewrite Hi in Hc. by rewrite Hc in Hch.
Qed.

Context (d : DataCompareResult) (Hd : compare_data_rows o = Ok d).
Let g := sync_options p d.

Lemma compared : key_columns o ≠ [] ∧ NoDup (K <$> source_rows o) ∧ NoDup (K <$> target_rows o) ∧
  d = {| added := omap (only_row o (target_rows o)) (source_rows o);
         removed := omap (only_row o (source_rows o)) (target_rows o);
         modified := omap (differing_row o (target_rows o)) (source_rows o) |}.
Proof.
  rewrite compare_exact in Hd. unfold compare_spec in Hd. destruct (decide (key_columns o = [])) as [E|E].
  { by rewrite E in Hd. }
  rewrite match_nonempty in Hd by done. fold ci in Hd. change (λ row, key_for_row row (key_columns o) ci) with K in Hd.
  destruct (first_duplicate [] (K <$> source_rows o)) eqn:E1; [done|].
  destruct (first_duplicate [] (K <$> target_rows o)) eqn:E2; [done|].
  apply first_duplicate_None in E1 as [? _]. apply first_duplicate_None in E2 as [? _].
  split_and!; [done..|]. by injection Hd as <-.
Qed.

Lemma columns_nonempty : columns o ≠ [].
Proof.
  destruct compared as (Hne & _). intros E. pose proof (sync_keys H) as Hk. rewrite E in Hk.
  destruct (key_columns o) as [|k ks]; [done|]. by apply (elem_of_nil k), Hk; left.
Qed.

Definition keys_ok (row : record) : Prop := Forall (λ c, key_cell_ok (value_for row c) = true) (key_columns o).

Lemma source_keys_ok s : s ∈ source_rows o → Forall (λ c, key_cell_ok (cell s c) = true) (key_columns o).
Proof. intros Hs. pose proof (sync_source_keys H) as Hk. by eapply Forall_forall in Hk. Qed.

Lemma table_keys_ok row : row ∈ table → keys_ok row.
Proof. intros Hr. pose proof (sync_target_keys H) as Hk. by eapply Forall_forall in Hk. Qed.

Lemma target_keys_ok t : t ∈ target_rows o → Forall (λ c, key_cell_ok (cell t c) = true) (key_columns o).
Proof.
  rewrite Htarget. intros (r & -> & Hr)%list_elem_of_fmap. apply Forall_forall. intros c Hc.
  rewrite cell_fetch by (by apply (sync_keys H)). apply table_keys_ok in Hr. by eapply Forall_forall in Hr.
Qed.

Lemma source_unique s s' : s ∈ source_rows o → s' ∈ source_rows o → K s = K s' → s = s'.
Proof.
  intros Hs Hs' E. destruct compared as (_ & Hnd & _).
  assert (row_with_key o (source_rows o) (K s) = Some s) as E1 by (apply (row_with_own_key o); done).
  assert (row_with_key o (source_rows o) (K s') = Some s') as E2 by (apply (row_with_own_key o); done).
  rewrite E, E2 in E1. by injection E1 as ->.
Qed.

Lemma elem_modified m : m ∈ modified d →
  ∃ s t, s ∈ source_rows o ∧ t ∈ target_rows o ∧ K t = K s ∧ differing_row o (target_rows o) s = Some m ∧
    changes m = differences o s t ∧ changes m ≠ [] ∧ modified_key_values m = key_values_for_row s (key_columns o) ci.
Proof.
  destruct compared as (_ & _ & _ & ->). cbn. intros (s & Hs & Hm)%list_elem_of_omap. exists s. pose proof Hm as Hm'.
  unfold differing_row in Hm'. apply bind_Some in Hm' as (t & Ht & Hm'). apply row_with_key_Some in Ht as [Ht Hk].
  exists t. destruct (differences o s t) as [|ch l] eqn:E; [done|]. injection Hm' as <-. cbn. split_and!; done.
Qed.

Lemma elem_removed x : x ∈ removed d ↔
  ∃ t, t ∈ target_rows o ∧ K t ∉ K <$> source_rows o ∧ only_row o (source_rows o) t = Some x.
Proof.
  destruct compared as (_ & _ & _ & ->). cbn. rewrite list_elem_of_omap. split; [|naive_solver].
  intros (t & Ht & Hx). exists t. split_and!; [done| |done]. unfold only_row in Hx.
  destruct (row_with_key o (source_rows o) _) eqn:E; [done|]. by apply row_with_key_None in E.
Qed.

Lemma elem_added x : x ∈ added d ↔
  ∃ s, s ∈ source_rows o ∧ K s ∉ K <$> target_rows o ∧ only_row o (target_rows o) s = Some x.
Proof.
  destruct compared as (_ & _ & _ & ->). cbn. rewrite list_elem_of_omap. split; [|naive_solver].
  intros (t & Ht & Hx). exists t. split_and!; [done| |done]. unfold only_row in Hx.
  destruct (row_with_key o (target_rows o) _) eqn:E; [done|]. by apply row_with_key_None in E.
Qed.

Lemma only_row_values others s x : only_row o others s = Some x →
  row_key_values x = key_values_for_row s (key_columns o) ci ∧ values x = row_object (columns o) s.
Proof. unfold only_row. case_match; [done|]. by intros [= <-]. Qed.

Lemma only_row_exists others s : K s ∉ K <$> others → ∃ x, only_row o others s = Some x.
Proof.
  intros Hn. unfold only_row. destruct (row_with_key o others _) as [r|] eqn:E; [|eauto]. exfalso.
  apply row_with_key_Some in E as [Hr Hk]. apply Hn, list_elem_of_fmap. exists r. by split.
Qed.

Lemma modified_ok m : m ∈ modified d → changes_ok g m.
Proof.
  intros (s & t & _ & _ & _ & _ & Hch & _)%elem_modified. unfold changes_ok. rewrite Hch.
  split; [apply differences_distinct|]. apply Forall_forall. intros ch Hin.
  by apply elem_of_differences in Hin as (? & ? & _).
Qed.

Lemma matched_key row m s : keys_ok row → s ∈ source_rows o →
  modified_key_values m = key_values_for_row s (key_columns o) ci →
  matched g row m = true ↔ K (fetch (columns o) row) = K s.
Proof.
  intros Hr Hs Hm. unfold matched. rewrite Hm, where_key by done. apply key_matches; [done|by apply source_keys_ok].
Qed.

(** The updates, on one row. *)
Definition updated (row : record) : record := fold_left (λ row s, row_effect s row) (update_statements g) row.

Lemma updated_chunks :
  ∃ cks, List.concat cks = modified d ∧ ∀ row, updated row = fold_left (λ row ck, chunk_effect g ck row) cks row.
Proof.
  exists (chunks DATA_SYNC_CONDITION_BATCH_SIZE (modified d)). split.
  - apply chunks_concat. unfold DATA_SYNC_CONDITION_BATCH_SIZE. lia.
  - intros row. unfold updated, update_statements. rewrite filter_true; [apply fold_chunks|].
    apply Forall_forall. intros m Hm. pose proof (modified_ok m Hm) as [_ Hch]. apply elem_modified in Hm as (s & t & _ & _ & _ & _ & _ & Hne & _).
    unfold has_writable_changes. destruct (changes m) as [|ch l]; [done|]. apply Forall_cons in Hch as [[Hc _] _]. cbn [existsb].
    pose proof (sync_plain H) as Hp. eapply Forall_forall in Hp; [|exact Hc]. apply orb_true_iff. left. apply negb_true_iff. exact Hp.
Qed.

Lemma updated_none row : keys_ok row →
  (∀ m s, m ∈ modified d → differing_row o (target_rows o) s = Some m → s ∈ source_rows o → K (fetch (columns o) row) ≠ K s) →
  updated row = row.
Proof.
  intros Hr Hno. destruct updated_chunks as (cks & Hc & ->). apply chunks_no_match. rewrite Hc. apply Forall_forall. intros m Hm.
  pose proof (elem_modified m Hm) as (s & t & Hs & Ht & Hk & Hdiff & _ & _ & Hkv). apply not_true_is_false. intros Hmm.
  apply (matched_key row m s) in Hmm; [|done..]. by apply (Hno m s).
Qed.

Lemma updated_some row m s : keys_ok row → m ∈ modified d → s ∈ source_rows o → differing_row o (target_rows o) s = Some m →
  K (fetch (columns o) row) = K s → changed_by m row (updated row).
Proof.
  intros Hr Hm Hs Hdiff Hk. destruct updated_chunks as (cks & Hc & ->).
  pose proof (elem_modified m Hm) as (s1 & t1 & Hs1 & _ & _ & Hdiff1 & _ & _ & Hkv1).
  assert (∀ m' , m' ∈ modified d → matched g row m' = true → m' = m) as Huniq.
  { intros m' Hm' Hmm. pose proof (elem_modified m' Hm') as (s' & t' & Hs' & _ & _ & Hdiff' & _ & _ & Hkv').
    apply (matched_key row m' s') in Hmm; [|done..]. assert (s' = s) as -> by (apply source_unique; [done..|congruence]).
    congruence. }
  assert (matched g row m = true) as Hmm.
  { destruct (decide (s1 = s)) as [->|Hne]; [by apply (matched_key row m s)|].
    unfold differing_row in Hdiff, Hdiff1. apply bind_Some in Hdiff as (t & Ht & Hd1). apply bind_Some in Hdiff1 as (t' & Ht' & Hd2).
    destruct (differences o s t); [done|]. destruct (differences o s1 t'); [done|]. injection Hd1 as <-. injection Hd2 as E _ _ _ _.
    exfalso. apply Hne. apply source_unique; [done..|]. exact E. }
  apply chunks_match; rewrite ?Hc; [apply H|apply H|apply Forall_forall; apply modified_ok|done..].
Qed.

Lemma updated_keys row c : keys_ok row → c ∈ key_columns o → value_for (updated row) c = value_for row c.
Proof.
  intros Hr Hc. destruct updated_chunks as (cks & Hck & Hu).
  destruct (decide (Exists (λ m, matched g row m = true) (modified d))) as [(m & Hm & Hmm)%Exists_exists|Hno].
  - pose proof (elem_modified m Hm) as (s & t & Hs & _ & _ & Hdiff & _ & _ & Hkv).
    apply (matched_key row m s) in Hmm; [|done..]. rewrite (updated_some row m s Hr Hm Hs Hdiff Hmm c).
    destruct (change_of c m) as [ch|] eqn:E; [|done]. apply change_of_Some in E as [Hin <-].
    destruct (modified_ok m Hm) as [_ Hch]. eapply Forall_forall in Hch as [_ Hn]; [|exact Hin]. done.
  - rewrite Hu, chunks_no_match; [done|]. rewrite Hck. apply Forall_forall. intros m Hm. apply not_true_is_false.
    intros Hmm. apply Hno, Exists_exists. eauto.
Qed.

Lemma same_key row row' : (∀ c, c ∈ key_columns o → value_for row' c = value_for row c) →
  K (fetch (columns o) row') = K (fetch (columns o) row).
Proof.
  intros Hv. unfold K, key_for_row. f_equal. apply list_fmap_ext. intros i c Hc%list_elem_of_lookup_2.
  pose proof (cell_fetch row c (sync_keys H _ Hc)) as E1. pose proof (cell_fetch row' c (sync_keys H _ Hc)) as E2.
  unfold cell in *. by rewrite E1, E2, Hv.
Qed.

Lemma updated_keys_ok row : keys_ok row → keys_ok (updated row).
Proof.
  intros Hr. apply Forall_forall. intros c Hc. rewrite updated_keys by done. by eapply Forall_forall in Hr.
Qed.

Lemma key_of_updated row : keys_ok row → K (fetch (columns o) (updated row)) = K (fetch (columns o) row).
Proof. intros Hr. apply same_key. intros c Hc. by apply updated_keys. Qed.

Lemma omap_none {A B} (f : A → option B) (l : list A) : (∀ x, x ∈ l → f x = None) → omap f l = [].
Proof.
  induction l as [|x l IH]; intros Hl; [done|]. cbn. rewrite Hl by by left. apply IH. intros y Hy. apply Hl. by right.
Qed.

(** The table behind the statements. *)
Definition synced : list record := exec_all (sync_statements_of g) table.
Definition is_removed (row : record) : bool :=
  existsb (λ x, key_holds row (where_by_key g (row_key_values x))) (removed d).

Lemma synced_spec : synced = List.filter (λ row, negb (is_removed row)) (updated <$> (table ++ (inserted g <$> added d))).
Proof.
  transitivity (exec_all (delete_statements g) (exec_all (update_statements g) (exec_all (insert_statements g) table))).
  { unfold synced, sync_statements_of, exec_all. by rewrite !fold_left_app. }
  rewrite (exec_inserts g); [|apply columns_nonempty|apply (sync_plain H)].
  rewrite (exec_updates (update_statements g)) by apply update_statements_are. apply (exec_deletes g).
Qed.

Lemma removed_key row : keys_ok row → is_removed row = true ↔ ∃ t, t ∈ target_rows o ∧ K t ∉ K <$> source_rows o ∧ K (fetch (columns o) row) = K t.
Proof.
  intros Hr. unfold is_removed. rewrite existsb_exists. split.
  - intros (x & Hx%list_elem_of_In & Hk). apply elem_removed in Hx as (t & Ht & Hn & Hx). exists t. split_and!; [done..|].
    apply only_row_values in Hx as [Hkv _]. rewrite Hkv, where_key in Hk by done. apply key_matches in Hk; [done..|].
    by apply target_keys_ok.
  - intros (t & Ht & Hn & Hk). destruct (only_row_exists (source_rows o) t Hn) as [x Hx]. exists x. split.
    + apply list_elem_of_In, elem_removed. eauto.
    + apply only_row_values in Hx as [-> _]. rewrite where_key by done. apply key_matches; [done|by apply target_keys_ok|done].
Qed.

(** A row of the table agrees with a source row. *)
Definition in_step (s : fetched) (row : record) : Prop :=
  K (fetch (columns o) row) = K s ∧ ∀ c, c ∈ columns o → value_eqb (cell s c) (value_for row c) = true.

Lemma same_key_cells row s c : keys_ok row → s ∈ source_rows o → K (fetch (columns o) row) = K s → c ∈ key_columns o →
  value_for row c = cell s c.
Proof.
  intros Hr Hs Hk Hc. pose proof (source_keys_ok s Hs) as Hso.
  assert (key_holds row ((λ c, (c, cell s c)) <$> key_columns o) = true) as Hh by (by apply key_matches).
  unfold key_holds in Hh. rewrite forallb_forall in Hh. specialize (Hh (c, cell s c)). cbn in Hh.
  apply sql_equal_spec; [by apply (key_ok_at _ _ c Hr)|]. apply Hh, list_elem_of_In, list_elem_of_fmap. eauto.
Qed.

Lemma source_cell_refl s c : s ∈ source_rows o → c ∈ columns o → value_eqb (cell s c) (cell s c) = true.
Proof.
  intros Hs Hc. apply value_eqb_refl. pose proof (sync_cells H) as Hw. eapply Forall_forall in Hw; [|exact Hs].
  by eapply Forall_forall in Hw.
Qed.

(** A row with a partner in the source ends up in step with it. *)
Lemma updated_in_step row s : row ∈ table → s ∈ source_rows o → K (fetch (columns o) row) = K s → in_step s (updated row).
Proof.
  intros Hr Hs Hk. pose proof (table_keys_ok row Hr) as Hok. split; [by rewrite key_of_updated|].
  destruct compared as (_ & Hns & Hnt & Hdd).
  assert (row_with_key o (target_rows o) (K s) = Some (fetch (columns o) row)) as Hpartner.
  { rewrite <-Hk. apply (row_with_own_key o); [exact Hnt|]. rewrite Htarget. apply list_elem_of_fmap. eauto. }
  assert (∀ c, c ∈ columns o → value_for row c = cell (fetch (columns o) row) c) as Hf by (intros c Hc; by rewrite cell_fetch).
  destruct (differing_row o (target_rows o) s) as [m|] eqn:Em.
  - assert (m ∈ modified d) as Hm by (rewrite Hdd; apply list_elem_of_omap; eauto).
    pose proof (updated_some row m s Hok Hm Hs Em Hk) as Hch. intros c Hc. rewrite (Hch c).
    assert (changes m = differences o s (fetch (columns o) row)) as Hchm.
    { unfold differing_row in Em. change (key_for_row s (key_columns o) (column_index_map (columns o))) with (K s) in Em.
      rewrite Hpartner in Em. cbn in Em. destruct (differences o s _); [done|]. by injection Em as <-. }
    destruct (change_of c m) as [ch|] eqn:Ec.
    + apply change_of_Some in Ec as [Hin <-]. rewrite Hchm in Hin. apply elem_of_differences in Hin as (_ & _ & ->).
      by apply source_cell_refl.
    + destruct (decide (c ∈ key_columns o)) as [Hck|Hck].
      * rewrite (same_key_cells row s c) by done. by apply source_cell_refl.
      * rewrite Hf by done. by apply (change_of_differences s (fetch (columns o) row) c m).
  - rewrite updated_none.
    + intros c Hc. destruct (decide (c ∈ key_columns o)) as [Hck|Hck].
      * rewrite (same_key_cells row s c) by done. by apply source_cell_refl.
      * rewrite Hf by done.
        apply (change_of_differences s (fetch (columns o) row) c
          {| modified_key := ""; modified_key_values := ∅; source_values := ∅; target_values := ∅; changes := [] |}); [|done..].
        unfold differing_row in Em. change (key_for_row s (key_columns o) (column_index_map (columns o))) with (K s) in Em.
        rewrite Hpartner in Em. cbn in Em. by destruct (differences o s _).
    + done.
    + intros m s' Hm Hdiff Hs' Hk'. assert (s' = s) as -> by (apply source_unique; [done..|congruence]). congruence.
Qed.

(** A new row is in step with the source row it is from. *)
Lemma inserted_in_step x s : s ∈ source_rows o → only_row o (target_rows o) s = Some x →
  keys_ok (inserted g x) ∧ in_step s (inserted g x).
Proof.
  intros Hs Hx. apply only_row_values in Hx as [_ Hv].
  assert (∀ c, c ∈ columns o → value_for (inserted g x) c = cell s c) as Hval.
  { intros c Hc. unfold value_for, inserted.
    change (sync_columns g) with (columns o). rewrite collect_map_fun, bool_decide_true by done.
    rewrite Hv, row_object_lookup by done. done. }
  pose proof (source_keys_ok s Hs) as Hsk. split; [|split].
  - apply Forall_forall. intros c Hc. rewrite Hval by (by apply (sync_keys H)). by eapply Forall_forall in Hsk.
  - unfold K, key_for_row. f_equal. apply list_fmap_ext. intros i c Hc%list_elem_of_lookup_2.
    pose proof (cell_fetch (inserted g x) c (sync_keys H _ Hc)) as E. unfold cell in E, Hval.
    by rewrite E, Hval by (by apply (sync_keys H)).
  - intros c Hc. rewrite Hval by done. by apply source_cell_refl.
Qed.

Lemma inserted_untouched x s : s ∈ source_rows o → K s ∉ K <$> target_rows o → only_row o (target_rows o) s = Some x →
  updated (inserted g x) = inserted g x.
Proof.
  intros Hs Hn Hx. destruct (inserted_in_step x s Hs Hx) as [Hok [Hk _]]. apply updated_none; [done|].
  intros m s' Hm Hdiff Hs' Hk'. pose proof (elem_modified m Hm) as (s1 & t & Hs1 & Ht & Hkt & Hdiff1 & _).
  unfold differing_row in Hdiff. apply bind_Some in Hdiff as (t' & Ht' & _). apply row_with_key_Some in Ht' as [Ht' Hkt'].
  apply Hn. apply list_elem_of_fmap. exists t'. split; [|done]. rewrite <-Hk, Hk'. symmetry. exact Hkt'.
Qed.

(** Every row left is in step with a source row, and every source row with a
    row that is left. *)
Lemma synced_rows row : row ∈ synced → ∃ s, s ∈ source_rows o ∧ in_step s row.
Proof.
  rewrite synced_spec. intros [Hin Hnr]%list_elem_of_In%filter_In. apply list_elem_of_In, list_elem_of_fmap in Hin as (r & -> & Hin).
  apply negb_true_iff in Hnr. apply elem_of_app in Hin as [Hr|Hr].
  - pose proof (table_keys_ok r Hr) as Hok. destruct (decide (K (fetch (columns o) r) ∈ K <$> source_rows o)) as [Hk|Hk].
    + apply list_elem_of_fmap in Hk as (s & Hk & Hs). exists s. split; [done|]. by apply updated_in_step.
    + exfalso. apply not_true_iff_false in Hnr. apply Hnr. apply removed_key; [by apply updated_keys_ok|].
      exists (fetch (columns o) r). split_and!; [|done|by apply key_of_updated].
      rewrite Htarget. apply list_elem_of_fmap. eauto.
  - apply list_elem_of_fmap in Hr as (x & -> & Hx). apply elem_added in Hx as (s & Hs & Hn & Hx).
    rewrite (inserted_untouched x s) by done. exists s. split; [done|]. by apply inserted_in_step.
Qed.

Lemma synced_complete s : s ∈ source_rows o → K s ∈ (λ row, K (fetch (columns o) row)) <$> synced.
Proof.
  intros Hs. rewrite synced_spec. apply list_elem_of_fmap.
  assert (∃ r, r ∈ table ++ (inserted g <$> added d) ∧ keys_ok r ∧ K (fetch (columns o) r) = K s) as (r & Hr & Hok & Hk).
  { destruct (decide (K s ∈ K <$> target_rows o)) as [Hin|Hn].
    - rewrite Htarget in Hin. apply list_elem_of_fmap in Hin as (t & Hk & (r & -> & Hr)%list_elem_of_fmap).
      exists r. split_and!; [apply elem_of_app; by left|by apply table_keys_ok|done].
    - destruct (only_row_exists _ s Hn) as [x Hx]. exists (inserted g x).
      destruct (inserted_in_step x s Hs Hx) as [Hok [Hk _]]. split_and!; [|done..].
      apply elem_of_app. right. apply list_elem_of_fmap. exists x. split; [done|]. apply elem_added. eauto. }
  exists (updated r). split; [by rewrite key_of_updated|]. apply list_elem_of_In, filter_In. split.
  - apply list_elem_of_In, list_elem_of_fmap. eauto.
  - apply negb_true_iff, not_true_iff_false. intros Hrem. apply removed_key in Hrem as (t & _ & Hn & Hkt); [|by apply updated_keys_ok].
    apply Hn. rewrite <-Hkt, key_of_updated by done. apply list_elem_of_fmap. eauto.
Qed.

Lemma NoDup_filter_fmap {A B} (f : A → B) (P : A → bool) l : NoDup (f <$> l) → NoDup (f <$> List.filter P l).
Proof.
  induction l as [|x l IH]; [done|]. rewrite fmap_cons, NoDup_cons. intros [Hx Hnd]. cbn [List.filter].
  destruct (P x); [|by apply IH]. rewrite fmap_cons, NoDup_cons. split; [|by apply IH].
  intros (y & E & Hy)%list_elem_of_fmap. apply Hx, list_elem_of_fmap. exists y. split; [done|].
  apply list_elem_of_In, filter_In in Hy as [Hy _]. by apply list_elem_of_In.
Qed.

Lemma added_keys : NoDup ((λ row, K (fetch (columns o) row)) <$> (inserted g <$> added d)).
Proof.
  destruct compared as (_ & Hns & _ & Hdd).
  assert (∀ l, l ⊆ source_rows o → NoDup (K <$> l) → NoDup ((λ row, K (fetch (columns o) row)) <$> (inserted g <$> omap (only_row o (target_rows o)) l)) ∧
    ∀ k, k ∈ (λ row, K (fetch (columns o) row)) <$> (inserted g <$> omap (only_row o (target_rows o)) l) → k ∈ K <$> l) as Hl.
  { induction l as [|s l IH]; intros Hsub Hnd; [split; [constructor|by intros k ?%elem_of_nil]|].
    rewrite fmap_cons, NoDup_cons in Hnd. destruct Hnd as [Hs Hnd]. destruct IH as [H1 H2]; [set_solver|done|].
    cbn [omap list_omap]. destruct (only_row o (target_rows o) s) as [x|] eqn:E.
    - rewrite !fmap_cons. destruct (inserted_in_step x s) as [_ [Hk _]]; [by apply Hsub; left|done|]. cbv beta. rewrite Hk.
      split; [constructor; [intros ?%H2; done|done]|]. intros k [->|?]%elem_of_cons; [by left|right; by apply H2].
    - split; [done|]. intros k ?%H2. rewrite fmap_cons. by right. }
  rewrite Hdd. cbn [added]. by apply Hl.
Qed.

Lemma synced_keys_distinct : NoDup ((λ row, K (fetch (columns o) row)) <$> synced).
Proof.
  rewrite synced_spec. apply NoDup_filter_fmap. rewrite <-list_fmap_compose.
  assert ((λ row, K (fetch (columns o) row)) ∘ updated <$> (table ++ (inserted g <$> added d))
    = (λ row, K (fetch (columns o) row)) <$> (table ++ (inserted g <$> added d))) as ->.
  { apply list_fmap_ext. intros i r Hr%list_elem_of_lookup_2. cbn. apply key_of_updated.
    apply elem_of_app in Hr as [Hr|Hr]; [by apply table_keys_ok|].
    apply list_elem_of_fmap in Hr as (x & -> & (s & Hs & _ & Hx)%elem_added). by apply (inserted_in_step x s). }
  destruct compared as (_ & _ & Hnt & _). rewrite Htarget, <-list_fmap_compose in Hnt.
  rewrite fmap_app. apply NoDup_app. split_and!; [exact Hnt| |apply added_keys].
  intros k Hk Hk'. apply list_elem_of_fmap in Hk' as (r & -> & Hr). apply list_elem_of_fmap in Hr as (x & -> & (s & Hs & Hn & Hx)%elem_added).
  destruct (inserted_in_step x s Hs Hx) as [_ [Hks _]]. apply Hn. rewrite <-Hks, Htarget, <-list_fmap_compose. exact Hk.
Qed.

(** C3: the statements make the target equal to the source: what the
    preparation returns is the text of statements that, run in order on the
    table the target rows were fetched from, leave a table whose comparison with
    the source finds nothing, of as many rows as the source has. *)
Theorem sync_converges `{HW : SqlWriter} :
  (∃ text, prepare_data_compare p = Ok
     {| prep_result := d; prep_sync_sql := text;
        prep_sync_statements :=
          render (sync_options p d) (qualified_table_name (prep_database_type p) (prep_schema p) (prep_table_name p))
            <$> sync_statements_of (sync_options p d) |}) ∧
  compare_data_rows {| columns := columns o; key_columns := key_columns o; source_rows := source_rows o;
                       target_rows := fetch (columns o) <$> exec_all (sync_statements_of (sync_options p d)) table |}
  = Ok {| added := []; removed := []; modified := [] |} ∧
  List.length (exec_all (sync_statements_of (sync_options p d)) table) = List.length (source_rows o).
Proof.
  fold g. fold synced. destruct compared as (Hne & Hns & _ & _).
  pose proof synced_keys_distinct as Hnd. split_and!.
  - eexists. unfold prepare_data_compare. fold o. rewrite Hd. cbn [result_bind]. do 2 f_equal.
    unfold sync_statements_of. rewrite !fmap_app. reflexivity.
  - rewrite compare_exact. unfold compare_spec. cbn [columns key_columns source_rows target_rows].
    rewrite match_nonempty by done. fold ci. change (λ row, key_for_row row (key_columns o) ci) with K.
    rewrite (proj2 (first_duplicate_None [] (K <$> source_rows o))); [|split; [done|by intros k _ ?%elem_of_nil]].
    rewrite (proj2 (first_duplicate_None [] (K <$> (fetch (columns o) <$> synced))));
      [|rewrite <-list_fmap_compose; split; [done|by intros k _ ?%elem_of_nil]].
    f_equal. f_equal.
    + apply omap_none. intros s Hs. unfold only_row. case_match eqn:E; [done|]. exfalso. apply row_with_key_None in E.
      apply E. pose proof (synced_complete s Hs) as (r & Hk & Hr)%list_elem_of_fmap.
      apply list_elem_of_fmap. exists (fetch (columns o) r). split; [exact Hk|]. apply list_elem_of_fmap. eauto.
    + apply omap_none. intros t (r & -> & (s & Hs & [Hk _])%synced_rows)%list_elem_of_fmap. unfold only_row.
      case_match eqn:E; [done|]. exfalso. apply row_with_key_None in E. apply E, list_elem_of_fmap. by exists s.
    + apply omap_none. intros s Hs. unfold differing_row.
      destruct (row_with_key _ _ _) as [t|] eqn:E; [|done]. cbn [mbind option_bind].
      apply row_with_key_Some in E as [(r & -> & Hr)%list_elem_of_fmap Ek].
      pose proof Hr as (s' & Hs' & [Hk Heq])%synced_rows.
      assert (s' = s) as -> by (apply source_unique; [done..|]; rewrite <-Hk; exact Ek).
      assert (differences o s (fetch (columns o) r) = []) as Hnone.
      { apply no_differences. intros c Hc _. rewrite cell_fetch by done. by apply Heq. }
      unfold differences in *. cbn [columns key_columns] in *. by rewrite Hnone.
  - rewrite <-(length_fmap K (source_rows o)), <-(length_fmap (λ row, K (fetch (columns o) row)) synced).
    apply Permutation_length, NoDup_Permutation; [done..|]. intros k. split.
    + intros (r & -> & (s & Hs & [Hk _])%synced_rows)%list_elem_of_fmap. apply list_elem_of_fmap. eauto.
    + intros (s & -> & Hs)%list_elem_of_fmap. by apply synced_complete.
Qed.
End sync.

(** ** Witnesses *)

(** A text of a value for evaluation: the digits of its code. *)
Fixpoint digits (q : positive) : string :=
  match q with xH => "1" | xO q' => String "0" (digits q') | xI q' => String "1" (digits q') end.
Definition code_text : JsonText := {| json_stringify v := digits (encode v) |}.

Lemma digits_inj q q' : digits q = digits q' → q = q'.
Proof.
  revert q'. induction q as [q IH|q IH|]; intros [q'|q'|] Hq; cbn in Hq; simplify_eq; try done.
  - f_equal. auto.
  - by destruct q.
  - f_equal. auto.
  - by destruct q'.
Qed.

#[export] Instance code_text_laws : @JsonTextLaws code_text.
Proof.
  constructor.
  - intros v w _ _ Hv%digits_inj. by apply (inj encode).
  - intros v _. cbn. induction (encode v) as [q IH|q IH|]; cbn; auto.
Qed.

(** Writes everything bare. *)
Definition bare_writer : SqlWriter := {|
  qualified_table_name _ _ t := t;
  quote_table_identifier _ c := c;
  format_data_grid_sql_literal v _ _ := match v with Number t => t | VString s => s | Null => "NULL" | _ => "?" end
|}.

Definition sample_table : list record :=
  [{["id" := Number "1"; "v" := VString "a"; "hidden" := Null]}; {["id" := Number "2"; "v" := VString "b"]};
   {["id" := Number "3"; "v" := VString "c"]}]%stdpp.
Definition sample_prep : DataComparePreparationOptions :=
  {| prep_table_name := "t"; prep_schema := None; prep_column_info := []; prep_database_type := None;
     prep_rows := {| columns := ["id"; "v"]; key_columns := ["id"];
       source_rows := [[Number "3"; VString "x"]; [Number "4"]; [Number "2"; VString "y"]];
       target_rows := fetch ["id"; "v"] <$> sample_table |} |}.

Example sample_statements :
  (prep_sync_statements <$> result_ok (@prepare_data_compare code_text bare_writer sample_prep))
  = Some ["INSERT INTO t (id, v) VALUES (4, NULL);";
          "UPDATE t SET v = CASE WHEN id = 3 THEN x WHEN id = 2 THEN y ELSE v END WHERE (id = 3) OR (id = 2);";
          "DELETE FROM t WHERE id = 1;"].
Proof. vm_compute. reflexivity. Qed.

Lemma sample_syncable : syncable sample_prep sample_table.
Proof.
  constructor.
  - cbn. apply (bool_decide_unpack _). vm_compute. exact I.
  - intros x. cbn. set_solver.
  - apply Forall_forall. intros x Hx. reflexivity.
  - repeat constructor.
  - repeat constructor.
  - repeat constructor.
Qed.

Lemma sync_converges_witness :
  ∃ d, @compare_data_rows code_text (prep_rows sample_prep) = Ok d ∧
  List.length (exec_all (sync_statements_of (sync_options sample_prep d)) sample_table) = 3.
Proof.
  destruct (@compare_data_rows code_text (prep_rows sample_prep)) as [d|e] eqn:E; [|vm_compute in E; discriminate E].
  exists d. split; [reflexivity|].
  apply (@sync_converges code_text code_text_laws sample_prep sample_table eq_refl sample_syncable d E bare_writer).
Defined.

(** ** Keys that are NULL *)

(** [column = NULL] holds of no row. *)
Lemma null_condition row condition column : (column, Null) ∈ condition → key_holds row condition = false.
Proof.
  intros Hin. unfold key_holds. apply not_true_is_false. rewrite forallb_forall. intros Hall.
  apply list_elem_of_In, Hall in Hin. cbn in Hin. by destruct (value_for row column).
Qed.

Lemma selected_null conditions row : Forall (λ condition, ∃ column, (column, Null) ∈ condition) conditions →
  selected conditions row = false.
Proof.
  induction 1 as [|condition conditions [column Hin] _ IH]; [done|]. cbn. by rewrite (null_condition row condition column Hin).
Qed.

Lemma exec_all_id us t : Forall (λ s, exec s t = t) us → exec_all us t = t.
Proof. induction 1 as [|u us Hu _ IH]; [done|]. cbn. by rewrite Hu. Qed.

Lemma where_null g kv : (∃ column, column ∈ sync_key_columns g ∧ default Null (kv !! column) = Null) →
  ∃ column, (column, Null) ∈ where_by_key g kv.
Proof. intros (column & Hc & Hn). exists column. apply list_elem_of_fmap. exists column. by rewrite Hn. Qed.

(** Rows whose key holds a NULL are compared, but the statements that should
    change or delete them select no row: the comparison matches NULLs, SQL does
    not. *)
Theorem null_keys_never_sync g table :
  (∀ m, m ∈ modified (diff g) → ∃ column, column ∈ sync_key_columns g ∧ default Null (modified_key_values m !! column) = Null) →
  (∀ x, x ∈ removed (diff g) → ∃ column, column ∈ sync_key_columns g ∧ default Null (row_key_values x !! column) = Null) →
  exec_all (update_statements g ++ delete_statements g) table = table.
Proof.
  intros Hm Hx. assert (0 < DATA_SYNC_CONDITION_BATCH_SIZE) as Hpos by (unfold DATA_SYNC_CONDITION_BATCH_SIZE; lia).
  apply exec_all_id, Forall_forall. intros s [Hs|Hs]%elem_of_app.
  - apply list_elem_of_bind in Hs as (ck & [assignments ->]%update_chunk_shape & Hck). cbn [exec].
    rewrite <-(list_fmap_id table) at 2. apply list_fmap_ext. intros i row _. rewrite selected_null; [done|].
    apply Forall_fmap, Forall_forall. intros m Hin. apply where_null, Hm.
    apply (elem_of_chunk _ _ _ _ Hpos Hck), list_elem_of_In, filter_In in Hin as [Hin _]. by apply list_elem_of_In.
  - apply list_elem_of_fmap in Hs as (ck & -> & Hck). cbn [exec]. apply filter_true, Forall_forall. intros row _.
    rewrite selected_null; [done|]. apply Forall_fmap, Forall_forall. intros x Hin. apply where_null, Hx.
    by apply (elem_of_chunk _ _ _ _ Hpos Hck).
Qed.

Definition null_prep : DataComparePreparationOptions :=
  {| prep_table_name := "t"; prep_schema := None; prep_column_info := []; prep_database_type := None;
     prep_rows := {| columns := ["id"; "v"]; key_columns := ["id"];
       source_rows := [[Null; VString "x"]]; target_rows := [[Null; VString "y"]] |} |}.

Lemma null_keys_never_sync_witness :
  ∃ d, @compare_data_rows code_text (prep_rows null_prep) = Ok d ∧ List.length (modified d) = 1 ∧
  exec_all (update_statements (sync_options null_prep d) ++ delete_statements (sync_options null_prep d))
    [{["v" := VString "y"]}] = [{["v" := VString "y"]}].
Proof.
  destruct (@compare_data_rows code_text (prep_rows null_prep)) as [d|e] eqn:E; [|vm_compute in E; discriminate E].
  exists d. split; [reflexivity|]. vm_compute in E. injection E as <-. split; [reflexivity|].
  apply null_keys_never_sync.
  - intros m ->%list_elem_of_singleton. exists "id". split; [left|reflexivity].
  - intros x Hx. by apply elem_of_nil in Hx.
Defined.
