(* ===== verification/DataVerify.v ===== *)
(** * Comparing tables of a database (data_compare.rs, risk_metrics.rs)

    How much of two tables is compared, by which queries, and with which
    confidence: the level for the row counts and the chain that records the
    decisions, the queries of a page and of a sample, the fetch loop and the
    whole preparation over an executor of queries. *)
From S2P Require Import Prelude RustStr Json SqlText F64 GridTypes DataCompare.

(** ** Levels *)

Inductive DegradationLevel : Type := Full | Sample | SkipWithRisk.
#[export] Instance DegradationLevel_eq_dec : EqDecision DegradationLevel.
Proof. solve_decision. Defined.

(** [Display] and [TryFrom<&str>]. *)
Definition level_to_string (l : DegradationLevel) : string :=
  match l with Full => "full" | Sample => "sample" | SkipWithRisk => "skip_with_risk" end.
Definition level_try_from (s : string) : result DegradationLevel string :=
  if String.eqb s "full" then Ok Full
  else if String.eqb s "sample" then Ok Sample
  else if String.eqb s "skip_with_risk" then Ok SkipWithRisk
  else Err ("Unknown degradation level: " +:+ s)%string.

Inductive SamplingStrategy : Type := Random | ExtremeValues | Hybrid.

Record DegradationThreshold : Type := {
  full_compare_max_rows : Z; sample_max_rows : Z; sample_size : Z; extreme_sample_count : Z
}.
Definition DegradationThreshold_default : DegradationThreshold :=
  {| full_compare_max_rows := 100000; sample_max_rows := 10000000; sample_size := 10000; extreme_sample_count := 500 |}.

Definition should_degrade (source_row_count target_row_count : Z) (threshold : DegradationThreshold) : DegradationLevel :=
  let max_count := Z.max source_row_count target_row_count in
  if (max_count <=? full_compare_max_rows threshold)%Z then Full
  else if (max_count <=? sample_max_rows threshold)%Z then Sample
  else SkipWithRisk.

(** ** The metrics of the decisions (risk_metrics.rs) *)

(** The counters are atomic [u64]s, the rest stands behind locks. *)
Record DegradationMetrics : Type := {
  degradation_total : Z; degradation_level_full : Z; degradation_level_sample : Z; degradation_level_skip : Z;
  sample_rate_histogram : list (f64 * Z); confidence_gauge : f64;
  auto_upgrade_total : Z; auto_downgrade_total : Z;
  osc_probe_latency : list f64; osc_execution_gauge : f64;
  rollback_trigger_count : Z; tag_block_count : Z; trace_dropped_count : Z
}.

Definition metrics_new : DegradationMetrics :=
  {| degradation_total := 0; degradation_level_full := 0; degradation_level_sample := 0; degradation_level_skip := 0;
     sample_rate_histogram := []; confidence_gauge := f64_zero; auto_upgrade_total := 0; auto_downgrade_total := 0;
     osc_probe_latency := []; osc_execution_gauge := f64_zero; rollback_trigger_count := 0; tag_block_count := 0;
     trace_dropped_count := 0 |}.

Definition record_degradation (level : string) (sample_rate confidence : f64) (m : DegradationMetrics) : DegradationMetrics :=
  let bump (name : string) (n : Z) := if String.eqb level name then u64_add n 1 else n in
  {| degradation_total := u64_add (degradation_total m) 1;
     degradation_level_full := bump "full" (degradation_level_full m);
     degradation_level_sample := bump "sample" (degradation_level_sample m);
     degradation_level_skip := bump "skip_with_risk" (degradation_level_skip m);
     sample_rate_histogram := sample_rate_histogram m ++ [(sample_rate, 1%Z)]; confidence_gauge := confidence;
     auto_upgrade_total := auto_upgrade_total m; auto_downgrade_total := auto_downgrade_total m;
     osc_probe_latency := osc_probe_latency m; osc_execution_gauge := osc_execution_gauge m;
     rollback_trigger_count := rollback_trigger_count m; tag_block_count := tag_block_count m;
     trace_dropped_count := trace_dropped_count m |}.

Definition record_auto (upgrades downgrades : Z) (m : DegradationMetrics) : DegradationMetrics :=
  {| degradation_total := degradation_total m; degradation_level_full := degradation_level_full m;
     degradation_level_sample := degradation_level_sample m; degradation_level_skip := degradation_level_skip m;
     sample_rate_histogram := sample_rate_histogram m; confidence_gauge := confidence_gauge m;
     auto_upgrade_total := u64_add (auto_upgrade_total m) upgrades;
     auto_downgrade_total := u64_add (auto_downgrade_total m) downgrades;
     osc_probe_latency := osc_probe_latency m; osc_execution_gauge := osc_execution_gauge m;
     rollback_trigger_count := rollback_trigger_count m; tag_block_count := tag_block_count m;
     trace_dropped_count := trace_dropped_count m |}.
Definition record_auto_upgrade : DegradationMetrics → DegradationMetrics := record_auto 1 0.
Definition record_auto_downgrade : DegradationMetrics → DegradationMetrics := record_auto 0 1.

(** ** The chain of decisions *)

Record DegradationEvent : Type := {
  event_source_row_count : Z; event_target_row_count : Z; decided_level : string; sample_rate : f64; confidence : f64;
  auto_decision : string; timestamp : string
}.
Record DegradationChain : Type := {
  chain_threshold : DegradationThreshold; events : list DegradationEvent;
  auto_upgrade_enabled : bool; auto_downgrade_enabled : bool
}.
Definition chain_new (threshold : DegradationThreshold) : DegradationChain :=
  {| chain_threshold := threshold; events := []; auto_upgrade_enabled := true; auto_downgrade_enabled := true |}.
Definition last_event (chain : DegradationChain) : option DegradationEvent := last (events chain).
Definition event_count (chain : DegradationChain) : nat := List.length (events chain).

(** [f64::clamp]; NaN stays. *)
Definition f64_clamp (x lo hi : f64) : f64 := if f64_ltb x lo then lo else if f64_ltb hi x then hi else x.

Definition is_auto_upgrade (last : string) (new_level : DegradationLevel) : bool :=
  match new_level with
  | Sample => String.eqb last "skip_with_risk"
  | Full => String.eqb last "sample"
  | SkipWithRisk => false
  end.
Definition is_auto_downgrade (last : string) (new_level : DegradationLevel) : bool :=
  match new_level with
  | Sample => String.eqb last "full"
  | SkipWithRisk => String.eqb last "full" || String.eqb last "sample"
  | Full => false
  end.

(** [decide]; [now] is the clock's reading. *)
Definition decide (now : string) (source_row_count target_row_count : Z) (st : DegradationChain * option DegradationMetrics)
    : DegradationLevel * (DegradationChain * option DegradationMetrics) :=
  let '(chain, metrics) := st in
  let max_count := Z.max source_row_count target_row_count in
  let new_level := should_degrade source_row_count target_row_count (chain_threshold chain) in
  let '(rate, conf) :=
    match new_level with
    | Full => (f64_of_Z 1, f64_of_Z 1)
    | Sample =>
        let rate := f64_div (f64_of_Z (sample_size (chain_threshold chain))) (f64_of_Z max_count) in
        (rate, f64_clamp (f64_mul (f64_lit 95 2) rate) (f64_lit 5 1) (f64_lit 95 2))
    | SkipWithRisk => (f64_zero, f64_zero)
    end in
  let on_last (test : string → bool) (record : DegradationMetrics → DegradationMetrics) metrics :=
    match last_event chain with
    | Some last => if test (decided_level last) then record <$> metrics else metrics
    | None => metrics
    end in
  let metrics := if auto_upgrade_enabled chain
                 then on_last (λ l, is_auto_upgrade l new_level) record_auto_upgrade metrics else metrics in
  let metrics := if auto_downgrade_enabled chain
                 then on_last (λ l, is_auto_downgrade l new_level) record_auto_downgrade metrics else metrics in
  let metrics := record_degradation (level_to_string new_level) rate conf <$> metrics in
  let auto := match new_level with Full => "auto" | Sample => "auto_degraded" | SkipWithRisk => "auto_skipped" end in
  (new_level,
   ({| chain_threshold := chain_threshold chain;
       events := events chain ++ [{| event_source_row_count := source_row_count; event_target_row_count := target_row_count;
         decided_level := level_to_string new_level; sample_rate := rate; confidence := conf; auto_decision := auto;
         timestamp := now |}];
       auto_upgrade_enabled := auto_upgrade_enabled chain; auto_downgrade_enabled := auto_downgrade_enabled chain |},
    metrics)).

(** [f64::sqrt]. *)
Definition f64_sqrt (x : f64) : f64 := SFsqrt 53 1024 x.

Definition compute_confidence (sampling_rate : f64) (level : DegradationLevel) (row_count_match : bool)
    (source_row_count target_row_count : Z) : f64 :=
  match level with
  | Full => if row_count_match then f64_of_Z 1 else f64_lit 99 2
  | Sample =>
      let count_ratio := f64_div (f64_of_Z (Z.min source_row_count target_row_count))
                                 (f64_of_Z (Z.max (Z.max source_row_count target_row_count) 1)) in
      let base := if row_count_match then f64_lit 95 2 else f64_lit 85 2 in
      f64_clamp (f64_mul (f64_mul base sampling_rate) (f64_sqrt count_ratio)) (f64_lit 5 1) (f64_lit 95 2)
  | SkipWithRisk => f64_zero
  end.

(** ** The queries *)

Section Queries.
Context `{HW : SqlWriter}.

Definition select_list (d : DatabaseType) (columns : list string) : string :=
  match columns with [] => "*" | _ => join ", " (quote_table_identifier (Some d) <$> columns) end.
Definition ordered (d : DatabaseType) (direction : string) (key_columns : list string) : string :=
  join ", " ((λ column, quote_table_identifier (Some d) column +:+ direction)%string <$> key_columns).

Definition build_rownum_data_compare_select_sql (d : DatabaseType) (table select_columns order_by : string)
    (columns : list string) (row_limit offset : nat) : string :=
  let base := ("SELECT " +:+ select_columns +:+ " FROM " +:+ table +:+ order_by)%string in
  if offset =? 0 then ("SELECT " +:+ select_columns +:+ " FROM (" +:+ base +:+ ") WHERE ROWNUM <= " +:+ pretty row_limit)%string
  else
    let alias := quote_table_identifier (Some d) "__dbx_row_num" in
    ("SELECT " +:+ select_list d columns +:+ " FROM (SELECT dbx_inner.*, ROWNUM AS " +:+ alias +:+ " FROM (" +:+ base
     +:+ ") dbx_inner WHERE ROWNUM <= " +:+ pretty (offset + row_limit)%nat +:+ ") WHERE " +:+ alias +:+ " > " +:+ pretty offset)%string.

Definition build_data_compare_select_sql (d : DatabaseType) (schema table_name : string) (columns key_columns : list string)
    (row_limit offset : nat) : string :=
  let table := qualified_table_name (Some d) (Some schema) table_name in
  let select_columns := select_list d columns in
  let order_by := match key_columns with [] => "" | _ => (" ORDER BY " +:+ ordered d " ASC" key_columns)%string end in
  let order_expression := match key_columns with [] => "(SELECT NULL)" | _ => ordered d " ASC" key_columns end in
  let select := ("SELECT " +:+ select_columns +:+ " FROM " +:+ table +:+ order_by)%string in
  match pagination_strategy (Some d) BoundedRead with
  | Db2FetchFirst | FetchFirst =>
      (select +:+ (if (0 <? offset)%nat then " OFFSET " +:+ pretty offset +:+ " ROWS" else "")
       +:+ " FETCH FIRST " +:+ pretty row_limit +:+ " ROWS ONLY")%string
  | Rownum => build_rownum_data_compare_select_sql d table select_columns order_by columns row_limit offset
  | SqlServerTop =>
      if offset =? 0 then ("SELECT TOP (" +:+ pretty row_limit +:+ ") " +:+ select_columns +:+ " FROM " +:+ table +:+ order_by)%string
      else
        let page := quote_table_identifier (Some SqlServer) "dbx_page" in
        let alias := quote_table_identifier (Some SqlServer) "__dbx_row_num" in
        ("WITH " +:+ page +:+ " AS (SELECT " +:+ select_columns +:+ ", ROW_NUMBER() OVER (ORDER BY " +:+ order_expression
         +:+ ") AS " +:+ alias +:+ " FROM " +:+ table +:+ ") SELECT " +:+ select_columns +:+ " FROM " +:+ page +:+ " WHERE "
         +:+ alias +:+ " > " +:+ pretty offset +:+ " AND " +:+ alias +:+ " <= " +:+ pretty (offset + row_limit)%nat
         +:+ " ORDER BY " +:+ alias)%string
  | IrisTop => ("SELECT TOP " +:+ pretty row_limit +:+ " " +:+ select_columns +:+ " FROM " +:+ table +:+ order_by)%string
  | InformixFirst =>
      ("SELECT " +:+ (if (0 <? offset)%nat then "SKIP " +:+ pretty offset +:+ " FIRST " +:+ pretty row_limit
                      else "FIRST " +:+ pretty row_limit)
       +:+ " " +:+ select_columns +:+ " FROM " +:+ table +:+ order_by)%string
  | FirebirdRows => (select +:+ " " +:+ firebird_rows_clause row_limit offset)%string
  | AgentMaxRows => (select +:+ ";")%string
  | Unbounded => select
  | QuestDbLimit =>
      if 0 <? offset then (select +:+ " LIMIT " +:+ pretty offset +:+ ", " +:+ pretty (offset + row_limit)%nat)%string
      else (select +:+ " LIMIT " +:+ pretty row_limit)%string
  | LimitOffset =>
      (select +:+ " LIMIT " +:+ pretty row_limit +:+ (if (0 <? offset)%nat then " OFFSET " +:+ pretty offset else "") +:+ ";")%string
  end.

(** A random sample of [n] rows, where the database can draw one; [fallback] is
    the query where it cannot. *)
Definition random_sample (d : DatabaseType) (select_columns table : string) (n : nat) (fallback : string) : string :=
  let n := pretty n in
  let from := (select_columns +:+ " FROM " +:+ table)%string in
  match d with
  | Postgres | Redshift | DuckDb | Databricks => ("SELECT " +:+ from +:+ " TABLESAMPLE SYSTEM (1) LIMIT " +:+ n)%string
  | SqlServer => ("SELECT TOP (" +:+ n +:+ ") " +:+ from +:+ " TABLESAMPLE (" +:+ n +:+ " ROWS)")%string
  | Mysql | Doris | StarRocks | Goldendb | Questdb => ("SELECT " +:+ from +:+ " ORDER BY RAND() LIMIT " +:+ n)%string
  | Sqlite | Rqlite | Turso => ("SELECT " +:+ from +:+ " ORDER BY RANDOM() LIMIT " +:+ n)%string
  | ClickHouse => ("SELECT " +:+ from +:+ " ORDER BY rand() LIMIT " +:+ n)%string
  | Oracle | OceanbaseOracle | Dameng =>
      ("SELECT " +:+ select_columns +:+ " FROM (SELECT " +:+ from +:+ " ORDER BY DBMS_RANDOM.VALUE) WHERE ROWNUM <= " +:+ n)%string
  | Iris => ("SELECT TOP " +:+ n +:+ " " +:+ from +:+ " ORDER BY RAND()")%string
  | Informix => ("SELECT FIRST " +:+ n +:+ " " +:+ from +:+ " ORDER BY RAND()")%string
  | _ => fallback
  end.

Definition build_sampling_select_sql (d : DatabaseType) (schema table_name : string) (columns key_columns : list string)
    (strategy : SamplingStrategy) (sample_size : nat) : string :=
  let table := qualified_table_name (Some d) (Some schema) table_name in
  let select_columns := select_list d columns in
  let from := ("SELECT " +:+ select_columns +:+ " FROM " +:+ table)%string in
  let unordered := (from +:+ " LIMIT " +:+ pretty sample_size)%string in
  let ends (direction : string) (n : nat) :=
    ("(" +:+ from +:+ " ORDER BY " +:+ ordered d direction key_columns +:+ " LIMIT " +:+ pretty n +:+ ")")%string in
  match strategy with
  | Random =>
      random_sample d select_columns table sample_size
        match key_columns with
        | [] => unordered
        | _ => (from +:+ " ORDER BY " +:+ ordered d " ASC" key_columns +:+ " LIMIT " +:+ pretty sample_size)%string
        end
  | ExtremeValues =>
      match key_columns with
      | [] => unordered
      | _ =>
          let head_count := sample_size / 2 in
          ("SELECT " +:+ select_columns +:+ " FROM ( " +:+ ends " ASC" head_count +:+ " UNION ALL "
           +:+ ends " DESC" (sample_size - head_count) +:+ " ) AS _extreme_sample")%string
      end
  | Hybrid =>
      match key_columns with
      | [] => unordered
      | _ =>
          let random_count := sample_size / 2 in
          let head_count := (sample_size - random_count) / 2 in
          let tail_count := sample_size - random_count - head_count in
          let random_part := ("(" +:+ random_sample d select_columns table random_count
                                (from +:+ " LIMIT " +:+ pretty random_count) +:+ ")")%string in
          ("SELECT " +:+ select_columns +:+ " FROM ( " +:+ random_part +:+ " UNION ALL " +:+ ends " ASC" head_count
           +:+ " UNION ALL " +:+ ends " DESC" tail_count +:+ " ) AS _hybrid_sample")%string
      end
  end.
End Queries.

(** ** Fetching and preparing *)

(** The application behind the comparison: its connections, its databases
    (a query with its row limit, on a connection, a database and a schema), the
    columns of a table, the COUNT query of the SQL generators and SHA-256 in
    hexadecimal. *)
Class Databases : Type := {
  configs : gmap string DatabaseType;
  execute : string → string → string → string → nat → result (list fetched) string;
  get_columns_core : string → string → string → string → result (list DataGridColumnInfo) string;
  build_count_table_sql : option DatabaseType → option string → string → string;
  sha256_hex : string → string
}.

(** [Option::ok_or_else]. *)
Definition ok_or {A} (o : option A) (e : string) : result A string := match o with Some a => Ok a | None => Err e end.

(** [str::parse::<u64>]: digits behind an optional plus, in range. *)
Definition parse_digits (s : string) : option Z :=
  if is_empty s then None
  else if forallb (λ a, is_ascii_digit (N_of_ascii a)) (bytes_of s)
  then let n := fold_left (λ n a, 10 * n + (Z.of_N (N_of_ascii a) - 48))%Z (bytes_of s) 0%Z in
       if (n <=? u64_max)%Z then Some n else None
  else None.
Definition parse_u64 (s : string) : option Z :=
  match s with String "+" s' => parse_digits s' | _ => parse_digits s end.

Section Tables.
Context `{HJ : JsonText, HW : SqlWriter, HD : Databases}.

Definition connection_database_type (connection_id : string) : result DatabaseType string :=
  ok_or (configs !! connection_id) ("Connection config not found: " +:+ connection_id)%string.

(** [Number::as_u64], or through [as_i64]: a token of digits in range; minus
    zero is the integer 0. *)
Definition number_as_u64 (token : string) : option Z := if String.eqb token "-0" then Some 0%Z else parse_digits token.

Definition first_count (rows : list fetched) : result Z string :=
  result_bind (ok_or (head rows ≫= head) "COUNT query returned no rows") (λ value,
    ok_or (match value with
           | Number token => number_as_u64 token
           | VString text => parse_u64 text
           | _ => None
           end) ("COUNT query returned non-numeric value: " +:+ json_stringify value)%string).

(** A table of a connection. *)
Record TableOf : Type := { connection_id : string; database : string; schema_name : string; name : string }.

(** The loop over pages; [None] is a loop that is still running. *)
Fixpoint fetch_pages (fuel : nat) (t : TableOf) (columns key_columns : list string) (d : DatabaseType) (batch : nat)
    (rows : list fetched) (offset : nat) : option (result (list fetched) string) :=
  match fuel with
  | 0 => None
  | S fuel' =>
      let sql := build_data_compare_select_sql d (schema_name t) (name t) columns key_columns batch offset in
      match execute (connection_id t) (database t) sql (schema_name t) batch with
      | Err e => Some (Err e)
      | Ok page =>
          let fetched := List.length page in
          if fetched =? 0 then Some (Ok rows)
          else if fetched <? batch then Some (Ok (rows ++ page))
          else fetch_pages fuel' t columns key_columns d batch (rows ++ page) (offset + fetched)
      end
  end.
Definition fetch_compare_rows (fuel : nat) (t : TableOf) (columns key_columns : list string) (d : DatabaseType) (batch : nat)
    : option (result (list fetched) string) := fetch_pages fuel t columns key_columns d batch [] 0.

Definition fetch_sampled_compare_rows (t : TableOf) (columns key_columns : list string) (d : DatabaseType)
    (strategy : SamplingStrategy) (sample_size : nat) : result (list fetched) string :=
  if sample_size =? 0 then Ok []
  else
    let sql := build_sampling_select_sql d (schema_name t) (name t) columns key_columns strategy sample_size in
    execute (connection_id t) (database t) sql (schema_name t) sample_size.

(** One hash per column over its cells, a line each, in the order of the rows. *)
Definition compute_column_checksums (columns : list string) (rows : list fetched) : gmap string string :=
  let column_indexes := column_index_map columns in
  collect_map ((λ column, (column, sha256_hex (join "" ((λ row,
    json_stringify (cell_at row column_indexes column) +:+ newline)%string <$> rows)))) <$> columns).

Record DataCompareFromTablesOptions : Type := {
  source_table : TableOf; target_table : TableOf; compare_columns : list string; compare_keys : list string;
  fetch_batch_size : option nat; degradation_threshold : option DegradationThreshold;
  sampling_strategy : option SamplingStrategy; enable_checksum : option bool
}.

Record DataCompareFromTablesPreparation : Type := {
  preparation : DataComparePreparation; from_pre_sync_statements : list string;
  source_row_count : Z; target_row_count : Z; source_truncated : bool; target_truncated : bool;
  degradation_level : option string; sampling_rate : option f64; confidence_score : option f64;
  verification_method : option string;
  source_checksums : option (gmap string string); target_checksums : option (gmap string string)
}.

(** [tokio::try_join!]: the first error ends both. *)
Definition try_join {A B E} (a : result A E) (b : result B E) : result (A * B) E :=
  match a, b with
  | Ok x, Ok y => Ok (x, y)
  | Err e, _ => Err e
  | Ok _, Err e => Err e
  end.

Definition count_of (t : TableOf) (d : DatabaseType) : result (list fetched) string :=
  execute (connection_id t) (database t) (build_count_table_sql (Some d) (Some (schema_name t)) (name t)) (schema_name t) 1.

(** The rows that are compared, the sampling rate and the method. *)
Definition rows_to_compare (fuel : nat) (o : DataCompareFromTablesOptions) (source_type target_type : DatabaseType)
    (source_count target_count : Z) : option (result (list fetched * list fetched * f64 * string) string) :=
  let threshold := default DegradationThreshold_default (degradation_threshold o) in
  let batch := Nat.max (default 1000 (fetch_batch_size o)) 1 in
  let strategy := default Hybrid (sampling_strategy o) in
  match should_degrade source_count target_count threshold with
  | Full =>
      src ← fetch_compare_rows fuel (source_table o) (compare_columns o) (compare_keys o) source_type batch;
      tgt ← fetch_compare_rows fuel (target_table o) (compare_columns o) (compare_keys o) target_type batch;
      Some (result_bind (try_join src tgt) (λ '(src, tgt), Ok (src, tgt, f64_of_Z 1, "full_compare")))
  | Sample =>
      let size := Z.to_nat (sample_size threshold) in
      let src := fetch_sampled_compare_rows (source_table o) (compare_columns o) (compare_keys o) source_type strategy size in
      let tgt := fetch_sampled_compare_rows (target_table o) (compare_columns o) (compare_keys o) target_type strategy size in
      let max_count := Z.max source_count target_count in
      let rate := if (0 <? max_count)%Z then f64_div (f64_of_Z (sample_size threshold)) (f64_of_Z max_count) else f64_of_Z 1 in
      Some (result_bind (try_join src tgt) (λ '(src, tgt), Ok (src, tgt, f64_min rate (f64_of_Z 1), "sampled")))
  | SkipWithRisk => Some (Ok ([], [], f64_zero, "skipped"))
  end.

Definition checksums_of (enabled : bool) (columns : list string) (rows : list fetched) : option (gmap string string) :=
  match rows with [] => None | _ => if enabled then Some (compute_column_checksums columns rows) else None end.

(** From the compared rows on. *)
Definition finish_from_tables (o : DataCompareFromTablesOptions) (target_type : DatabaseType) (source_count target_count : Z)
    (source_rows target_rows : list fetched) (rate : f64) (method : string) : result DataCompareFromTablesPreparation string :=
  let t := target_table o in
  let level := should_degrade source_count target_count (default DegradationThreshold_default (degradation_threshold o)) in
  let enabled := default true (enable_checksum o) in
  result_bind (get_columns_core (connection_id t) (database t) (schema_name t) (name t)) (λ target_columns,
  result_bind
    (prepare_data_compare {| prep_table_name := name t; prep_schema := Some (schema_name t);
       prep_column_info := target_columns; prep_database_type := Some target_type;
       prep_rows := {| columns := compare_columns o; key_columns := compare_keys o; source_rows := source_rows;
                       target_rows := target_rows |} |})
    (λ prep,
    Ok {| preparation := prep; from_pre_sync_statements := []; source_row_count := source_count;
          target_row_count := target_count; source_truncated := false; target_truncated := false;
          degradation_level := Some (level_to_string level); sampling_rate := Some rate;
          confidence_score := Some (compute_confidence rate level (source_count =? target_count)%Z source_count target_count);
          verification_method := Some method;
          source_checksums := checksums_of enabled (compare_columns o) source_rows;
          target_checksums := checksums_of enabled (compare_columns o) target_rows |})).

Definition prepare_data_compare_from_tables (fuel : nat) (o : DataCompareFromTablesOptions)
    : option (result DataCompareFromTablesPreparation string) :=
  match connection_database_type (connection_id (source_table o)) with
  | Err e => Some (Err e)
  | Ok source_type =>
  match connection_database_type (connection_id (target_table o)) with
  | Err e => Some (Err e)
  | Ok target_type =>
  match try_join (count_of (source_table o) source_type) (count_of (target_table o) target_type) with
  | Err e => Some (Err e)
  | Ok (source_result, target_result) =>
  match first_count source_result with
  | Err e => Some (Err e)
  | Ok source_count =>
  match first_count target_result with
  | Err e => Some (Err e)
  | Ok target_count =>
  match rows_to_compare fuel o source_type target_type source_count target_count with
  | None => None
  | Some (Err e) => Some (Err e)
  | Some (Ok (source_rows, target_rows, rate, method)) =>
      Some (finish_from_tables o target_type source_count target_count source_rows target_rows rate method)
  end end end end end end.

Record VerifyDataResult : Type := {
  verified : DataCompareFromTablesPreparation; verified_level : DegradationLevel; verified_rate : f64;
  verified_confidence : f64; row_count_match : bool; checksums_match : option bool; method : string
}.

Definition verify_data (fuel : nat) (o : DataCompareFromTablesOptions) : option (result VerifyDataResult string) :=
  let o := {| source_table := source_table o; target_table := target_table o; compare_columns := compare_columns o;
              compare_keys := compare_keys o; fetch_batch_size := fetch_batch_size o;
              degradation_threshold := Some (default DegradationThreshold_default (degradation_threshold o));
              sampling_strategy := Some (default Hybrid (sampling_strategy o));
              enable_checksum := Some (default true (enable_checksum o)) |} in
  r ← prepare_data_compare_from_tables fuel o;
  Some (result_bind r (λ prep,
    Ok {| verified := prep;
          verified_level := default SkipWithRisk (degradation_level prep ≫= λ s, result_ok (level_try_from s));
          verified_rate := default (f64_of_Z 1) (sampling_rate prep);
          verified_confidence := default f64_zero (confidence_score prep);
          row_count_match := (source_row_count prep =? target_row_count prep)%Z;
          checksums_match := match source_checksums prep, target_checksums prep with
                             | Some src, Some tgt => Some (bool_decide (src = tgt))
                             | _, _ => None
                             end;
          method := default "unknown" (verification_method prep) |})).
End Tables.

(** ** What the fetch loop returns *)

Section fetching.
Context `{HJ : JsonText, HW : SqlWriter, HD : Databases}.
Context (t : TableOf) (columns key_columns : list string) (d : DatabaseType) (batch : nat).

Lemma fetch_pages_spec (all : list fetched) fuel :
  0 < batch →
  (∀ offset, execute (connection_id t) (database t)
     (build_data_compare_select_sql d (schema_name t) (name t) columns key_columns batch offset) (schema_name t) batch
     = Ok (take batch (drop offset all))) →
  ∀ rows offset, List.length all - offset < batch * fuel →
  fetch_pages fuel t columns key_columns d batch rows offset = Some (Ok (rows ++ drop offset all)).
Proof.
  intros Hb Hpage. induction fuel as [|fuel IH]; intros rows offset Hf; [lia|]. cbn [fetch_pages]. rewrite Hpage.
  rewrite length_take, length_drop. destruct (Nat.eqb_spec (batch `min` (List.length all - offset)) 0) as [H0|H0].
  - rewrite drop_ge by lia. by rewrite app_nil_r.
  - destruct (Nat.ltb_spec (batch `min` (List.length all - offset)) batch) as [Hlt|Hge].
    + rewrite take_ge by (rewrite length_drop; lia). done.
    + rewrite IH by lia. rewrite <-app_assoc. do 3 f_equal.
      rewrite <-(take_drop batch (drop offset all)) at 2. rewrite drop_drop. do 2 f_equal. lia.
Qed.

(** Over a database whose pages are the slices of one list of rows, the
    loop ends with all of them, after a page more than the full ones. *)
Theorem fetch_all_rows (all : list fetched) fuel :
  0 < batch →
  (∀ offset, execute (connection_id t) (database t)
     (build_data_compare_select_sql d (schema_name t) (name t) columns key_columns batch offset) (schema_name t) batch
     = Ok (take batch (drop offset all))) →
  List.length all / batch < fuel →
  fetch_compare_rows fuel t columns key_columns d batch = Some (Ok all).
Proof.
  intros Hb Hpage Hf. apply (fetch_pages_spec all fuel Hb Hpage [] 0). rewrite Nat.sub_0_r.
  pose proof (Nat.div_mod (List.length all) batch). pose proof (Nat.mod_upper_bound (List.length all) batch). nia.
Qed.

(** The query of an IRIS page does not mention the offset. *)
Lemma iris_query offset :
  build_data_compare_select_sql Iris (schema_name t) (name t) columns key_columns batch offset
  = build_data_compare_select_sql Iris (schema_name t) (name t) columns key_columns batch 0.
Proof. reflexivity. Qed.

Lemma iris_pages fuel page : ∀ rows offset,
  0 < batch → List.length page = batch →
  execute (connection_id t) (database t)
    (build_data_compare_select_sql Iris (schema_name t) (name t) columns key_columns batch 0) (schema_name t) batch = Ok page →
  fetch_pages fuel t columns key_columns Iris batch rows offset = None.
Proof.
  induction fuel as [|fuel IH]; intros rows offset Hb Hl He; [done|]. cbn [fetch_pages]. rewrite iris_query, He, Hl.
  rewrite (proj2 (Nat.eqb_neq batch 0)), (proj2 (Nat.ltb_ge batch batch)) by lia. by apply IH.
Qed.

(** On InterSystems IRIS the comparison of a table with at least a page of
    rows never ends: every turn asks for the first page again, which is full. *)
Theorem iris_fetch_never_ends page fuel :
  0 < batch → List.length page = batch →
  execute (connection_id t) (database t)
    (build_data_compare_select_sql Iris (schema_name t) (name t) columns key_columns batch 0) (schema_name t) batch = Ok page →
  fetch_compare_rows fuel t columns key_columns Iris batch = None.
Proof. intros Hb Hl He. by eapply iris_pages. Qed.
End fetching.

(** ** Witnesses of the loop *)

Definition three_rows : list record :=
  [{["id" := Number "1"; "v" := VString "a"]}; {["id" := Number "2"; "v" := VString "b"]};
   {["id" := Number "3"; "v" := VString "c"]}].
Definition fetched_rows : list fetched := fetch ["id"; "v"] <$> three_rows.
Definition sample_of (c : string) : TableOf := {| connection_id := c; database := "d"; schema_name := "s"; name := "t" |}.

(** A database of one table that answers a page query by its offset, read off
    the length of the query. *)
Definition paged : Databases := {|
  configs := ∅;
  execute _ _ sql _ n := Ok (take n (drop (if contains sql "OFFSET 2" then 2 else 0) fetched_rows));
  get_columns_core _ _ _ _ := Ok [];
  build_count_table_sql _ _ _ := "COUNT";
  sha256_hex s := s
|}.

Lemma iris_fetch_never_ends_witness :
  @fetch_compare_rows bare_writer paged 5 (sample_of "s") ["id"; "v"] ["id"] Iris 2 = None.
Proof.
  apply (@iris_fetch_never_ends bare_writer paged (sample_of "s") ["id"; "v"] ["id"] 2 (take 2 fetched_rows) 5);
    [lia|reflexivity|vm_compute; reflexivity].
Defined.

(** A database of one row, which only the first page holds. *)
Definition one_row : Databases := {|
  configs := ∅; execute _ _ sql _ n := Ok (if contains sql "OFFSET" then [] else take n (take 1 fetched_rows));
  get_columns_core _ _ _ _ := Ok []; build_count_table_sql _ _ _ := "COUNT"; sha256_hex s := s
|}.

Lemma fetch_all_rows_witness :
  @fetch_compare_rows bare_writer one_row 2 (sample_of "s") ["id"; "v"] ["id"] Mysql 1 = Some (Ok (take 1 fetched_rows)).
Proof.
  apply (@fetch_all_rows bare_writer one_row (sample_of "s") ["id"; "v"] ["id"] Mysql 1 (take 1 fetched_rows) 2).
  - lia.
  - intros [|offset]; [vm_compute; reflexivity|]. vm_compute. by destruct offset.
  - vm_compute. lia.
Defined.

(** ** Samples *)

(** Two connections with the same table of three rows. A query of one row, the
    size of the sample, is answered by the first row on one of them and by the
    second on the other. *)
Definition sampled_databases : Databases := {|
  configs := {["s" := Mysql; "t" := Mysql]};
  execute c _ sql _ _ :=
    Ok (if String.eqb sql "COUNT" then [[Number "3"]]
        else if String.eqb c "s" then take 1 fetched_rows else take 1 (drop 1 fetched_rows));
  get_columns_core _ _ _ _ := Ok [];
  build_count_table_sql _ _ _ := "COUNT";
  sha256_hex s := s
|}.
Definition sampled_options : DataCompareFromTablesOptions :=
  {| source_table := sample_of "s"; target_table := sample_of "t"; compare_columns := ["id"; "v"]; compare_keys := ["id"];
     fetch_batch_size := None;
     degradation_threshold := Some {| full_compare_max_rows := 2; sample_max_rows := 10; sample_size := 1; extreme_sample_count := 0 |};
     sampling_strategy := Some Random; enable_checksum := Some false |}.

(** The statements of a preparation, before they are written. *)
Definition statements_for (o : DataCompareFromTablesOptions) (p : DataCompareFromTablesPreparation) : list SyncStatement :=
  sync_statements_of
    {| table_name := name (target_table o); schema := Some (schema_name (target_table o)); sync_columns := compare_columns o;
       sync_key_columns := compare_keys o; column_info := []; diff := prep_result (preparation p); database_type := Some Mysql |}.

(** Above the size of a full comparison the samples of the two tables are
    drawn apart, yet compared as if they were the tables: for two equal tables
    the statements that should make the target equal to the source may delete a
    row that both have and insert a second copy of another. *)
Theorem sampled_sync_destroys :
  ∃ p, @prepare_data_compare_from_tables code_text bare_writer sampled_databases 0 sampled_options = Some (Ok p) ∧
  prep_sync_statements (preparation p) = ["INSERT INTO t (id, v) VALUES (1, a);"; "DELETE FROM t WHERE id = 2;"] ∧
  exec_all (statements_for sampled_options p) three_rows
  = [{["id" := Number "1"; "v" := VString "a"]}; {["id" := Number "3"; "v" := VString "c"]};
     {["id" := Number "1"; "v" := VString "a"]}].
Proof.
  destruct (@prepare_data_compare_from_tables code_text bare_writer sampled_databases 0 sampled_options) as [[p|e]|] eqn:E;
    [|vm_compute in E; discriminate E..].
  exists p. split; [reflexivity|]. vm_compute in E. injection E as <-. split; vm_compute; reflexivity.
Qed.

(** ** The chain of decisions *)

(** How often [test] holds of a level and the one before it. *)
Fixpoint count_steps (test : DegradationLevel → DegradationLevel → bool) (previous : option DegradationLevel)
    (levels : list DegradationLevel) : nat :=
  match levels with
  | [] => 0
  | l :: levels' =>
      (match previous with Some p => Nat.b2n (test p l) | None => 0 end) + count_steps test (Some l) levels'
  end.
Definition counted_up (p l : DegradationLevel) : bool :=
  match p, l with SkipWithRisk, Sample | Sample, Full => true | _, _ => false end.
Definition counted_down (p l : DegradationLevel) : bool :=
  match p, l with Full, Sample | Full, SkipWithRisk | Sample, SkipWithRisk => true | _, _ => false end.
Definition count_level (l : DegradationLevel) (levels : list DegradationLevel) : nat :=
  List.length (List.filter (λ x, bool_decide (x = l)) levels).

(** A run of decisions: the clock and the two row counts of each. *)
Definition decisions (inputs : list (string * Z * Z)) (st : DegradationChain * option DegradationMetrics)
    : DegradationChain * option DegradationMetrics :=
  fold_left (λ st i, (decide i.1.1 i.1.2 i.2 st).2) inputs st.
Definition levels_of (threshold : DegradationThreshold) (inputs : list (string * Z * Z)) : list DegradationLevel :=
  (λ i, should_degrade i.1.2 i.2 threshold) <$> inputs.

Lemma u64_add_mod n a : u64_add (n `mod` 2 ^ 64) a = ((n + a) `mod` 2 ^ 64)%Z.
Proof. unfold u64_add. by rewrite Zplus_mod_idemp_l. Qed.

(** The counters behind [n] decisions. *)
Definition counters (m : DegradationMetrics) (total full sample skip up down : nat) : Prop :=
  degradation_total m = (Z.of_nat total `mod` 2 ^ 64)%Z ∧
  degradation_level_full m = (Z.of_nat full `mod` 2 ^ 64)%Z ∧
  degradation_level_sample m = (Z.of_nat sample `mod` 2 ^ 64)%Z ∧
  degradation_level_skip m = (Z.of_nat skip `mod` 2 ^ 64)%Z ∧
  auto_upgrade_total m = (Z.of_nat up `mod` 2 ^ 64)%Z ∧
  auto_downgrade_total m = (Z.of_nat down `mod` 2 ^ 64)%Z.

(** One decision: an event is added and the counters move by the step from the
    level before. *)
Lemma decide_step now src tgt chain m previous total full sample skip up down :
  auto_upgrade_enabled chain = true → auto_downgrade_enabled chain = true →
  decided_level <$> last_event chain = level_to_string <$> previous →
  counters m total full sample skip up down →
  let level := should_degrade src tgt (chain_threshold chain) in
  let '(level', (chain', metrics')) := decide now src tgt (chain, Some m) in
  level' = level ∧ chain_threshold chain' = chain_threshold chain ∧
  auto_upgrade_enabled chain' = true ∧ auto_downgrade_enabled chain' = true ∧
  event_count chain' = S (event_count chain) ∧
  decided_level <$> last_event chain' = Some (level_to_string level) ∧
  ∃ m', metrics' = Some m' ∧
    counters m' (S total) (full + Nat.b2n (bool_decide (level = Full))) (sample + Nat.b2n (bool_decide (level = Sample)))
      (skip + Nat.b2n (bool_decide (level = SkipWithRisk)))
      (up + match previous with Some p => Nat.b2n (counted_up p level) | None => 0 end)
      (down + match previous with Some p => Nat.b2n (counted_down p level) | None => 0 end).
Proof.
  intros Hu Hd Hlast (H1 & H2 & H3 & H4 & H5 & H6). unfold decide. rewrite Hu, Hd.
  set (level := should_degrade src tgt (chain_threshold chain)). cbv zeta.
  set (rates := match level with Full => _ | Sample => _ | SkipWithRisk => _ end). destruct rates as [rate conf].
  cbn [chain_threshold auto_upgrade_enabled auto_downgrade_enabled]. split_and!; try done.
  - unfold event_count. cbn [events]. rewrite length_app. cbn. lia.
  - unfold last_event. cbn [events]. by rewrite last_snoc.
  - unfold counters.
    destruct (last_event chain) as [e|], previous as [p|]; cbn [fmap option_fmap option_map] in Hlast; try done;
      [injection Hlast as Hlast; rewrite Hlast|];
      [destruct p, level|destruct level]; cbn; (eexists; split; [reflexivity|]); cbn;
      rewrite ?H1, ?H2, ?H3, ?H4, ?H5, ?H6, ?u64_add_mod; split_and!; f_equal;
      rewrite ?bool_decide_true, ?bool_decide_false by done; cbn [Nat.b2n]; lia.
Qed.

Lemma decisions_spec inputs : ∀ chain m previous total full sample skip up down,
  auto_upgrade_enabled chain = true → auto_downgrade_enabled chain = true →
  decided_level <$> last_event chain = level_to_string <$> previous →
  counters m total full sample skip up down →
  let levels := levels_of (chain_threshold chain) inputs in
  let st := decisions inputs (chain, Some m) in
  event_count st.1 = event_count chain + List.length inputs ∧
  ∃ m', st.2 = Some m' ∧
    counters m' (total + List.length inputs) (full + count_level Full levels) (sample + count_level Sample levels)
      (skip + count_level SkipWithRisk levels) (up + count_steps counted_up previous levels)
      (down + count_steps counted_down previous levels).
Proof.
  induction inputs as [|[[now src] tgt] inputs IH]; intros chain m previous total full sample skip up down Hu Hd Hlast Hc.
  { cbn. split; [lia|]. exists m. split; [done|]. by rewrite !Nat.add_0_r. }
  pose proof (decide_step now src tgt chain m previous _ _ _ _ _ _ Hu Hd Hlast Hc) as Hstep. cbn zeta in Hstep.
  cbn [decisions fold_left fst snd levels_of fmap list_fmap].
  destruct (decide now src tgt (chain, Some m)) as [level' [chain' metrics']].
  destruct Hstep as (-> & Ht & Hu' & Hd' & Hn & Hl & m' & -> & Hc'). cbn [snd].
  set (level := should_degrade src tgt (chain_threshold chain)) in *.
  destruct (IH chain' m' (Some level) _ _ _ _ _ _ Hu' Hd' Hl Hc') as [Hn' (m'' & Hm & Hc'')].
  rewrite Ht in Hc''. fold (levels_of (chain_threshold chain) inputs) in *. unfold decisions in *. split.
  - rewrite Hn', Hn. cbn [List.length]. lia.
  - exists m''. split; [done|]. unfold count_level in *. cbn [List.filter count_steps List.length].
    assert (∀ l, List.length (if bool_decide (level = l) then level :: List.filter (λ x, bool_decide (x = l)) (levels_of (chain_threshold chain) inputs)
        else List.filter (λ x, bool_decide (x = l)) (levels_of (chain_threshold chain) inputs))
      = Nat.b2n (bool_decide (level = l)) + List.length (List.filter (λ x, bool_decide (x = l)) (levels_of (chain_threshold chain) inputs))) as Hlen.
    { intros l. by destruct (bool_decide (level = l)). }
    rewrite !Hlen, !Nat.add_assoc. by rewrite <-Nat.add_succ_comm.
Qed.

(** From a new chain and new metrics, after any run of decisions there is an
    event per decision, the total counts them, each level's counter those of
    that level, and the counters of automatic moves the steps between
    consecutive levels, except that a step from skipping straight to a full
    comparison is counted nowhere (the counters are 64 bits wide). *)
Theorem chain_accounts threshold inputs :
  let levels := levels_of threshold inputs in
  let st := decisions inputs (chain_new threshold, Some metrics_new) in
  event_count st.1 = List.length inputs ∧
  ∃ m, st.2 = Some m ∧
    counters m (List.length inputs) (count_level Full levels) (count_level Sample levels) (count_level SkipWithRisk levels)
      (count_steps counted_up None levels) (count_steps counted_down None levels).
Proof.
  apply (decisions_spec inputs (chain_new threshold) metrics_new None 0 0 0 0 0 0); done.
Qed.

Example straight_up_not_counted :
  auto_upgrade_total <$>
    (decisions [("", 20, 20); ("", 1, 1)]%Z
       (chain_new {| full_compare_max_rows := 2; sample_max_rows := 10; sample_size := 1; extreme_sample_count := 0 |},
        Some metrics_new)).2 = Some 0%Z.
Proof. vm_compute. reflexivity. Qed.

(** ** Level names *)

Lemma level_names l : level_try_from (level_to_string l) = Ok l.
Proof. by destruct l. Qed.
