(* ===== verification/SqlRisk.v ===== *)
(** * Risk of a SQL text (sql_risk.rs)

    What a script does at worst, whether it needs the permission for dangerous
    statements, and whether it changes the selected database. The code reads the
    syntax tree of the third-party sqlparser: [Expr], [Query], [SetExpr] and
    [Statement] have the variants and fields it looks at, and [Rest] stands for
    everything else they hold. The parser, its tokenizer, its visitor and the
    derived order of expressions are the interface [SqlParser]. *)
From S2P Require Import Prelude RustStr F64 SqlText SqlSplit SqlGuard.

(** [SqlRisk]. *)
Inductive SqlRisk : Type := ReadOnly | Write | Ddl | Transaction.
#[export] Instance sql_risk_eq_dec : EqDecision SqlRisk.
Proof. solve_decision. Defined.
Definition risk_to_string (risk : SqlRisk) : string :=
  match risk with ReadOnly => "read-only" | Write => "write" | Ddl => "DDL" | Transaction => "transaction" end.
(** [risk as u8]. *)
Definition risk_level (risk : SqlRisk) : nat :=
  match risk with ReadOnly => 0 | Write => 1 | Ddl => 2 | Transaction => 3 end.

(** What the clients of this file ask it. *)
Class RiskClassifier : Type := {
  classify_sql_risk_for_database : string → DatabaseType → result SqlRisk string
}.

(** ** Dialects *)

Inductive ParserDialect : Type :=
| PostgreSqlParser | MySqlParser | SQLiteParser | MsSqlParser | ClickHouseParser | DuckDbParser | GenericParser.
#[export] Instance parser_dialect_eq_dec : EqDecision ParserDialect.
Proof. solve_decision. Defined.

Definition normalize_dialect (dialect : string) : string :=
  let is_one (names : list string) := existsb (String.eqb (to_ascii_lowercase dialect)) names in
  if is_one ["postgres"; "postgresql"; "redshift"; "opengauss"; "gaussdb"; "kingbase"; "highgo"; "uxdb"; "vastbase"; "kwdb"]
  then "postgres"
  else if is_one ["mysql"; "mariadb"; "doris"; "starrocks"; "manticoresearch"; "oceanbase"] then "mysql"
  else if is_one ["sqlite"] then "sqlite"
  else if is_one ["sqlserver"; "mssql"] then "sqlserver"
  else if is_one ["clickhouse"] then "clickhouse"
  else if is_one ["duckdb"] then "duckdb"
  else "generic".

Definition resolve_dialect (dialect : string) : ParserDialect :=
  let named (name : string) := String.eqb dialect name in
  if named "postgres" then PostgreSqlParser
  else if named "mysql" then MySqlParser
  else if named "sqlite" then SQLiteParser
  else if named "sqlserver" then MsSqlParser
  else if named "clickhouse" then ClickHouseParser
  else if named "duckdb" then DuckDbParser
  else GenericParser.

(** ** The syntax tree *)

Record Ident : Type := { ident_value : text; quote_style : option N }.

Inductive BinaryOperator : Type :=
| OpEq | OpNotEq | OpGt | OpLt | OpGtEq | OpLtEq | OpSpaceship | OpAnd | OpOr | OpOther (symbol : text).

Inductive SqlValue : Type :=
| VNumber (token : text) (long : bool)
| VSingleQuotedString (s : text)
| VBoolean (b : bool)
| VNull
| VOther (kind : nat) (s : text).

Section ast.
Context {Rest : Type}.

Inductive Expr : Type :=
| Identifier (identifier : Ident)
| CompoundIdentifier (parts : list Ident)
| Nested (e : Expr)
| ExprValue (v : SqlValue)
| UnaryNot (e : Expr)
| BinaryOp (left : Expr) (op : BinaryOperator) (right : Expr)
| IsNull (e : Expr) | IsNotNull (e : Expr)
| IsTrue (e : Expr) | IsNotTrue (e : Expr) | IsFalse (e : Expr) | IsNotFalse (e : Expr)
| IsDistinctFrom (left right : Expr) | IsNotDistinctFrom (left right : Expr)
| InList (e : Expr) (items : list Expr) (negated : bool)
| Between (e : Expr) (negated : bool) (low high : Expr)
| Like (negated any : bool) (e pattern : Expr) (escape_char : option SqlValue)
| ILike (negated any : bool) (e pattern : Expr) (escape_char : option SqlValue)
| InSubquery (rest : Rest) | Exists (rest : Rest) | Subquery (rest : Rest)
  (** [name]: the last part of the name, if it is an identifier. *)
| Function (name : option Ident) (rest : Rest)
| OtherExpr (rest : Rest).

Inductive SqliteOnConflict : Type := ConflictReplace | ConflictOther.
Inductive OnInsert : Type := DuplicateKeyUpdate | OnConflictDoUpdate | OnConflictDoNothing | OnInsertOther.

(** A table of a FROM: whether each has joins is all the code asks. *)
Record TableWithJoins : Type := { relation_rest : Rest; joins : list Rest }.

Inductive Query : Type :=
| mk_query (cte_tables : option (list Query)) (body : SetExpr) (locks : list Rest) (rest : Rest)
with SetExpr : Type :=
| Select (into : option Rest) (rest : Rest)
| SetQuery (q : Query)
| SetOperation (left right : SetExpr) (rest : Rest)
| SetInsert (s : Statement) | SetUpdate (s : Statement) | SetDelete (s : Statement) | SetMerge (s : Statement)
| Values (rest : Rest) | Table (rest : Rest)
with Statement : Type :=
| SQuery (q : Query)
| Explain (analyze : bool) (s : Statement)
| ExplainTable
| ShowTables | ShowColumns | ShowDatabases | ShowSchemas | ShowCreate | ShowVariables | ShowStatus | ShowProcessList
| Insert (replace_into overwrite : bool) (conflict : option SqliteOnConflict) (on : option OnInsert)
    (source : option Query)
| Update (table : TableWithJoins) (from : option Rest) (conflict : option SqliteOnConflict) (selection : option Expr)
| Delete (tables : list Rest) (from : list TableWithJoins) (using_tables : option Rest) (selection : option Expr)
| Merge (rest : Rest)
| CreateTable | CreateView | CreateIndex | CreateSchema | CreateSequence | CreateRole | CreateType
| AlterTable | AlterIndex | AlterView | Drop | Truncate
| Grant | Revoke
| StartTransaction | Commit | Rollback
| Copy | Pragma
| Use (rest : Rest)
| OtherStatement (rest : Rest).
End ast.
Arguments Expr : clear implicits.
Arguments Query : clear implicits.
Arguments SetExpr : clear implicits.
Arguments Statement : clear implicits.
Arguments TableWithJoins : clear implicits.

(** A token, as far as the code looks at it; [display] is its [to_string]. *)
Inductive TokenKind : Type := KWhitespace | KSemiColon | KLParen | KRParen | KEOF | KWord (value : text) | KOther.
Record SqlToken : Type := { kind : TokenKind; display : text }.

(** sqlparser: [Parser::parse_sql] and [Tokenizer::tokenize] ([None] is an
    error), [==] and [<=] of expressions, and [visit_expressions]: the visited
    expressions in their order. *)
Class SqlParser : Type := {
  Rest : Type;
  parse_sql : ParserDialect → text → option (list (Statement Rest));
  tokenize_sql : ParserDialect → text → option (list SqlToken);
  expr_eqb : Expr Rest → Expr Rest → bool;
  expr_leb : Expr Rest → Expr Rest → bool;
  expressions_of : Expr Rest → list (Expr Rest);
  query_expressions : Query Rest → list (Expr Rest)
}.

(** [candidate == other] for every pair of checks, the first before the second. *)
Fixpoint any_pair {A} (f : A → A → bool) (l : list A) : bool :=
  match l with [] => false | x :: l' => existsb (f x) l' || any_pair f l' end.

Section risk.
Context `{HU : UnicodeCase, HT : SqlTokenizer, HP : SqlParser}.

Abbreviation expr := (Expr Rest).
Abbreviation query := (Query Rest).
Abbreviation set_expr := (SetExpr Rest).
Abbreviation statement := (Statement Rest).

(** ** Expressions *)

Fixpoint strip_nested_expr {R} (e : Expr R) : Expr R := match e with Nested inner => strip_nested_expr inner | _ => e end.

Definition is_sql_value_keyword (value : text) : bool :=
  existsb (λ k, text_eqb (to_ascii_lowercase_c <$> value) (c k))
    ["current_catalog"; "current_date"; "current_role"; "current_schema"; "current_time"; "current_timestamp";
     "current_user"; "localtime"; "localtimestamp"; "session_user"; "system_user"; "user"].

Definition is_column (e : expr) : bool :=
  match e with
  | Identifier identifier => negb (is_sql_value_keyword (ident_value identifier))
  | CompoundIdentifier _ => true
  | _ => false
  end.
Definition expr_contains_column_reference (e : expr) : bool := existsb is_column (expressions_of e).

Definition is_subquery (e : expr) : bool :=
  match e with InSubquery _ | Exists _ | Subquery _ => true | _ => false end.
Definition expr_contains_subquery (e : expr) : bool := existsb is_subquery (expressions_of e).

Definition is_comparison_operator (op : BinaryOperator) : bool :=
  match op with OpEq | OpNotEq | OpGt | OpLt | OpGtEq | OpLtEq | OpSpaceship => true | _ => false end.

Definition value_eqb (a b : SqlValue) : bool :=
  match a, b with
  | VNumber s l, VNumber s' l' => text_eqb s s' && Bool.eqb l l'
  | VSingleQuotedString s, VSingleQuotedString s' => text_eqb s s'
  | VBoolean b, VBoolean b' => Bool.eqb b b'
  | VNull, VNull => true
  | VOther k s, VOther k' s' => (k =? k') && text_eqb s s'
  | _, _ => false
  end.

Definition constant_comparison_truth (lhs : expr) (operator : BinaryOperator) (rhs : expr) : option bool :=
  match lhs, rhs with
  | ExprValue lhs, ExprValue rhs =>
      let compare (f : f64 → f64 → bool) :=
        match lhs, rhs with
        | VNumber lhs _, VNumber rhs _ => lhs ← f64_parse lhs; rhs ← f64_parse rhs; Some (f lhs rhs)
        | _, _ => None
        end in
      match operator with
      | OpEq | OpSpaceship => Some (value_eqb lhs rhs)
      | OpNotEq => Some (negb (value_eqb lhs rhs))
      | OpGt => compare (λ a b, f64_ltb b a)
      | OpLt => compare f64_ltb
      | OpGtEq => compare (λ a b, f64_leb b a)
      | OpLtEq => compare f64_leb
      | _ => None
      end
  | _, _ => None
  end.

Definition value_is_truthy (v : SqlValue) : bool :=
  match v with
  | VBoolean b => b
  | VNumber s _ => match f64_parse s with Some n => negb (f64_eqb n f64_zero) | None => false end
  | _ => false
  end.
Definition value_is_falsy (v : SqlValue) : bool :=
  match v with
  | VBoolean b => negb b
  | VNumber s _ => match f64_parse s with Some n => f64_eqb n f64_zero | None => false end
  | VNull => true
  | _ => false
  end.

Definition like_pattern_matches_all (e : expr) : bool :=
  match strip_nested_expr e with
  | ExprValue (VSingleQuotedString pattern) =>
      negb (text_eqb pattern []) && forallb (λ x, (x =? 37)%N) pattern
  | _ => false
  end.

(** ** Disjunctions *)

(** The leaves of a disjunction, in their order. *)
Fixpoint or_leaves (e : expr) : list expr :=
  match e with
  | Nested inner => or_leaves inner
  | BinaryOp lhs OpOr rhs => or_leaves lhs ++ or_leaves rhs
  | _ => [e]
  end.

Definition or_contains_conjunctive_branch (e : expr) : bool :=
  existsb (λ leaf, match leaf with BinaryOp _ OpAnd _ => true | _ => false end) (or_leaves e).

Fixpoint null_check_with_negation (e : expr) (outer_negated : bool) : option (expr * bool) :=
  match e with
  | Nested inner => null_check_with_negation inner outer_negated
  | UnaryNot inner => null_check_with_negation inner (negb outer_negated)
  | IsNull e => Some (strip_nested_expr e, outer_negated)
  | IsNotNull e => Some (strip_nested_expr e, negb outer_negated)
  | _ => None
  end.
Definition null_check (e : expr) : option (expr * bool) := null_check_with_negation e false.
Definition collect_or_null_checks (e : expr) : list (expr * bool) := omap null_check (or_leaves e).
Definition or_contains_complementary_null_checks (e : expr) : bool :=
  any_pair (λ '(candidate, negated) '(other, other_negated),
              expr_eqb candidate other && negb (Bool.eqb negated other_negated)) (collect_or_null_checks e).

Inductive PredicateComparisonOperator : Type := CmpEq | CmpNotEq | CmpGt | CmpGtEq | CmpLt | CmpLtEq.
#[export] Instance predicate_comparison_operator_eq_dec : EqDecision PredicateComparisonOperator.
Proof. solve_decision. Defined.

Record PredicateComparisonCheck : Type := {
  check_left : expr; check_right : expr; check_operator : PredicateComparisonOperator
}.

Definition predicate_comparison_operator (op : BinaryOperator) : option PredicateComparisonOperator :=
  match op with
  | OpEq | OpSpaceship => Some CmpEq
  | OpNotEq => Some CmpNotEq
  | OpGt => Some CmpGt
  | OpGtEq => Some CmpGtEq
  | OpLt => Some CmpLt
  | OpLtEq => Some CmpLtEq
  | _ => None
  end.
Definition complementary_comparison_operator (op : PredicateComparisonOperator) : PredicateComparisonOperator :=
  match op with
  | CmpEq => CmpNotEq | CmpNotEq => CmpEq | CmpGt => CmpLtEq | CmpGtEq => CmpLt | CmpLt => CmpGtEq | CmpLtEq => CmpGt
  end.
Definition reverse_comparison_operator (op : PredicateComparisonOperator) : PredicateComparisonOperator :=
  match op with CmpEq | CmpNotEq => op | CmpGt => CmpLt | CmpGtEq => CmpLtEq | CmpLt => CmpGt | CmpLtEq => CmpGtEq end.
Definition comparison_operators_are_complementary (lhs rhs : PredicateComparisonOperator) : bool :=
  bool_decide (complementary_comparison_operator lhs = rhs).

Fixpoint comparison_check (e : expr) (outer_negated : bool) : option PredicateComparisonCheck :=
  match e with
  | Nested inner => comparison_check inner outer_negated
  | UnaryNot inner => comparison_check inner (negb outer_negated)
  | BinaryOp lhs op rhs =>
      if negb (expr_contains_column_reference e) then None
      else
        operator ← predicate_comparison_operator op;
        let operator := if outer_negated then complementary_comparison_operator operator else operator in
        let lhs := strip_nested_expr lhs in
        let rhs := strip_nested_expr rhs in
        Some (if expr_leb lhs rhs then {| check_left := lhs; check_right := rhs; check_operator := operator |}
              else {| check_left := rhs; check_right := lhs;
                      check_operator := reverse_comparison_operator operator |})
  | _ => None
  end.
Definition collect_or_comparison_checks (e : expr) : list PredicateComparisonCheck :=
  omap (λ leaf, comparison_check leaf false) (or_leaves e).
Definition or_contains_complementary_comparisons (e : expr) : bool :=
  any_pair (λ candidate other,
              expr_eqb (check_left candidate) (check_left other)
              && expr_eqb (check_right candidate) (check_right other)
              && comparison_operators_are_complementary (check_operator candidate) (check_operator other))
    (collect_or_comparison_checks e).

(** [sort_unstable] by the derived order, and [dedup]. *)
Fixpoint insert_expr (x : expr) (l : list expr) : list expr :=
  match l with
  | [] => [x]
  | y :: l' => if expr_leb x y then x :: l else y :: insert_expr x l'
  end.
Definition sort_exprs (l : list expr) : list expr := foldr insert_expr [] l.
Fixpoint dedup_exprs (l : list expr) : list expr :=
  match l with
  | x :: (y :: _) as l' => if expr_eqb x y then dedup_exprs l' else x :: dedup_exprs l'
  | _ => l
  end.
Fixpoint exprs_eqb (a b : list expr) : bool :=
  match a, b with
  | [], [] => true
  | x :: a', y :: b' => expr_eqb x y && exprs_eqb a' b'
  | _, _ => false
  end.

Record PredicateInListCheck : Type := { in_expr : expr; in_list : list expr; in_negated : bool }.

Definition is_value (e : expr) : bool := match strip_nested_expr e with ExprValue _ => true | _ => false end.

Fixpoint in_list_check (e : expr) (outer_negated : bool) : option PredicateInListCheck :=
  match e with
  | Nested inner => in_list_check inner outer_negated
  | UnaryNot inner => in_list_check inner (negb outer_negated)
  | InList e list negated =>
      if expr_contains_column_reference e && negb (bool_decide (list = [])) then
        let normalized_list := strip_nested_expr <$> list in
        let normalized_list :=
          if forallb is_value normalized_list then dedup_exprs (sort_exprs normalized_list) else normalized_list in
        Some {| in_expr := strip_nested_expr e; in_list := normalized_list; in_negated := negb (Bool.eqb negated outer_negated) |}
      else None
  | _ => None
  end.
Definition collect_or_in_list_checks (e : expr) : list PredicateInListCheck :=
  omap (λ leaf, in_list_check leaf false) (or_leaves e).
Definition or_contains_complementary_in_lists (e : expr) : bool :=
  any_pair (λ candidate other,
              expr_eqb (in_expr candidate) (in_expr other) && exprs_eqb (in_list candidate) (in_list other)
              && negb (Bool.eqb (in_negated candidate) (in_negated other))) (collect_or_in_list_checks e).

Record PredicateBetweenCheck : Type := {
  between_expr : expr; between_low : expr; between_high : expr; between_negated : bool
}.

Fixpoint between_check (e : expr) (outer_negated : bool) : option PredicateBetweenCheck :=
  match e with
  | Nested inner => between_check inner outer_negated
  | UnaryNot inner => between_check inner (negb outer_negated)
  | Between e negated low high =>
      if expr_contains_column_reference e
      then Some {| between_expr := strip_nested_expr e; between_low := strip_nested_expr low;
                   between_high := strip_nested_expr high; between_negated := negb (Bool.eqb negated outer_negated) |}
      else None
  | _ => None
  end.
Definition collect_or_between_checks (e : expr) : list PredicateBetweenCheck :=
  omap (λ leaf, between_check leaf false) (or_leaves e).
Definition or_contains_complementary_between_checks (e : expr) : bool :=
  any_pair (λ candidate other,
              expr_eqb (between_expr candidate) (between_expr other)
              && expr_eqb (between_low candidate) (between_low other)
              && expr_eqb (between_high candidate) (between_high other)
              && negb (Bool.eqb (between_negated candidate) (between_negated other))) (collect_or_between_checks e).

(** ** Predicates *)

(** [predicate_is_obviously_unbounded] and [predicate_is_obviously_false]. *)
Fixpoint predicate_is_obviously_unbounded (e : expr) : bool :=
  if expr_contains_subquery e then true
  else if negb (expr_contains_column_reference e) then true
  else
    match e with
    | Nested inner => predicate_is_obviously_unbounded inner
    | ExprValue v => value_is_truthy v
    | UnaryNot inner => predicate_is_obviously_false inner
    | BinaryOp lhs OpAnd rhs =>
        predicate_is_obviously_unbounded lhs && predicate_is_obviously_unbounded rhs
    | BinaryOp lhs OpOr rhs =>
        or_contains_conjunctive_branch e || or_contains_complementary_null_checks e
        || or_contains_complementary_comparisons e || or_contains_complementary_in_lists e
        || or_contains_complementary_between_checks e
        || predicate_is_obviously_unbounded lhs || predicate_is_obviously_unbounded rhs
    | BinaryOp lhs op rhs =>
        if is_comparison_operator op then
          match constant_comparison_truth lhs op rhs with
          | Some result => result
          | None =>
              expr_eqb lhs rhs
              && match op with OpEq | OpGtEq | OpLtEq | OpSpaceship => true | _ => false end
          end
        else false
    | IsNotDistinctFrom lhs rhs => expr_eqb (strip_nested_expr lhs) (strip_nested_expr rhs)
    | IsTrue inner | IsNotFalse inner => predicate_is_obviously_unbounded inner
    | Like false false e pattern None | ILike false false e pattern None =>
        expr_contains_column_reference e && like_pattern_matches_all pattern
    | _ => false
    end
with predicate_is_obviously_false (e : expr) : bool :=
  match e with
  | Nested inner => predicate_is_obviously_false inner
  | ExprValue v => value_is_falsy v
  | UnaryNot inner => predicate_is_obviously_unbounded inner
  | BinaryOp lhs OpAnd rhs => predicate_is_obviously_false lhs || predicate_is_obviously_false rhs
  | BinaryOp lhs OpOr rhs => predicate_is_obviously_false lhs && predicate_is_obviously_false rhs
  | BinaryOp lhs op rhs =>
      if is_comparison_operator op then
        match constant_comparison_truth lhs op rhs with Some result => negb result | None => false end
        || expr_eqb lhs rhs && match op with OpNotEq | OpGt | OpLt => true | _ => false end
      else false
  | IsDistinctFrom lhs rhs => expr_eqb (strip_nested_expr lhs) (strip_nested_expr rhs)
  | IsFalse inner | IsNotTrue inner => predicate_is_obviously_unbounded inner
  | _ => false
  end.

(** ** Queries and statements *)

Definition SIDE_EFFECT_SELECT_FUNCTIONS : list string :=
  ["lo_create"; "lo_import"; "lo_unlink"; "nextval"; "pg_advisory_lock"; "pg_advisory_unlock"; "pg_advisory_unlock_all";
   "pg_advisory_xact_lock"; "pg_cancel_backend"; "pg_reload_conf"; "pg_terminate_backend"; "pg_try_advisory_lock";
   "pg_try_advisory_xact_lock"; "setval"].

Definition is_side_effect (e : expr) : bool :=
  match e with
  | Function (Some name) _ =>
      existsb (λ candidate, text_eq_ignore_ascii_case (ident_value name) (c candidate)) SIDE_EFFECT_SELECT_FUNCTIONS
  | _ => false
  end.
Definition query_calls_known_side_effect_function (q : query) : bool := existsb is_side_effect (query_expressions q).

Definition is_some {A} (o : option A) : bool := match o with Some _ => true | None => false end.
Definition is_nil {A} (l : list A) : bool := match l with [] => true | _ => false end.

Fixpoint query_is_write_capable (detect_select_into : bool) (q : query) : bool :=
  match q with
  | mk_query cte_tables body locks _ =>
      match cte_tables with Some ctes => existsb (query_is_write_capable detect_select_into) ctes | None => false end
      || set_expr_is_write_capable detect_select_into body
      || negb (is_nil locks)
      || query_calls_known_side_effect_function q
  end
with set_expr_is_write_capable (detect_select_into : bool) (e : set_expr) : bool :=
  match e with
  | Select into _ => detect_select_into && is_some into
  | SetQuery q => query_is_write_capable detect_select_into q
  | SetOperation lhs rhs _ =>
      set_expr_is_write_capable detect_select_into lhs || set_expr_is_write_capable detect_select_into rhs
  | SetInsert _ | SetUpdate _ | SetDelete _ | SetMerge _ => true
  | Values _ | Table _ => false
  end.

Fixpoint classify_statement (stmt : statement) (detect_select_into : bool) : SqlRisk :=
  match stmt with
  | SQuery q => if query_is_write_capable detect_select_into q then Write else ReadOnly
  | Explain analyze stmt => if analyze then classify_statement stmt detect_select_into else ReadOnly
  | ExplainTable => ReadOnly
  | ShowTables | ShowColumns | ShowDatabases | ShowSchemas | ShowCreate | ShowVariables | ShowStatus
  | ShowProcessList => ReadOnly
  | Insert _ _ _ _ _ | Update _ _ _ _ | Delete _ _ _ _ | Merge _ => Write
  | CreateTable | CreateView | CreateIndex | CreateSchema | CreateSequence | CreateRole | CreateType | AlterTable
  | AlterIndex | AlterView | Drop | Truncate => Ddl
  | Grant | Revoke => Ddl
  | StartTransaction | Commit | Rollback => Transaction
  | Copy => Write
  | Pragma => Write
  | _ => Write
  end.

(** [selection.is_none_or(predicate_is_obviously_unbounded)]. *)
Definition selection_is_unbounded (selection : option expr) : bool :=
  match selection with Some e => predicate_is_obviously_unbounded e | None => true end.

Definition is_conflict_replace (o : option SqliteOnConflict) : bool :=
  match o with Some ConflictReplace => true | _ => false end.

Fixpoint query_is_dangerous (detect_select_into : bool) (q : query) : bool :=
  match q with
  | mk_query cte_tables body locks _ =>
      match cte_tables with Some ctes => existsb (query_is_dangerous detect_select_into) ctes | None => false end
      || set_expr_is_dangerous detect_select_into body
      || negb (is_nil locks)
      || query_calls_known_side_effect_function q
  end
with set_expr_is_dangerous (detect_select_into : bool) (e : set_expr) : bool :=
  match e with
  | Select into _ => detect_select_into && is_some into
  | SetQuery q => query_is_dangerous detect_select_into q
  | SetOperation lhs rhs _ => set_expr_is_dangerous detect_select_into lhs || set_expr_is_dangerous detect_select_into rhs
  | SetInsert stmt | SetUpdate stmt | SetDelete stmt | SetMerge stmt => statement_is_dangerous detect_select_into stmt
  | Values _ | Table _ => false
  end
with statement_is_dangerous (detect_select_into : bool) (stmt : statement) : bool :=
  match stmt with
  | Use _ => false
  | SQuery q => query_is_dangerous detect_select_into q
  | Insert replace_into overwrite conflict on source =>
      replace_into || overwrite || is_conflict_replace conflict
      || match on with
         | None => false
         | Some DuplicateKeyUpdate => true
         | Some OnConflictDoUpdate => true
         | Some OnConflictDoNothing => false
         | Some OnInsertOther => true
         end
      || match source with
         | Some (mk_query _ (Values _) _ _) => false
         | Some _ => true
         | None => false
         end
  | Update table from conflict selection =>
      negb (is_nil (joins table)) || is_some from || is_conflict_replace conflict || selection_is_unbounded selection
  | Delete tables from using_tables selection =>
      negb (is_nil tables) || is_some using_tables || negb (List.length from =? 1)
      || match from with table :: _ => negb (is_nil (joins table)) | [] => true end
      || selection_is_unbounded selection
  | Merge _ => true
  | Explain true stmt => statement_is_dangerous detect_select_into stmt
  | _ => negb (bool_decide (classify_statement stmt detect_select_into = ReadOnly))
  end.

(** ** Scripts *)

Fixpoint locking_words (tokens : list SqlToken) (depth : nat) : list text :=
  match tokens with
  | [] => []
  | token :: tokens =>
      match kind token with
      | KLParen => locking_words tokens (S depth)
      | KRParen => locking_words tokens (depth - 1)
      | _ =>
          if (depth =? 0) && forallb (λ x, is_ascii_alphabetic x || (x =? 95)%N) (display token)
          then (to_ascii_uppercase_c <$> display token) :: locking_words tokens depth
          else locking_words tokens depth
      end
  end.

(** Whether consecutive words are [pattern] somewhere. *)
Fixpoint has_window (pattern : list text) (words : list text) : bool :=
  bool_decide (take (List.length pattern) words = pattern)
  || match words with [] => false | _ :: words => has_window pattern words end.

Definition sql_contains_top_level_locking_clause (sql : text) (dialect : ParserDialect) : bool :=
  match tokenize_sql dialect sql with
  | None => false
  | Some tokens =>
      let words := locking_words tokens 0 in
      existsb (λ pattern, has_window (c <$> pattern) words)
        [["FOR"; "UPDATE"]; ["FOR"; "SHARE"]; ["FOR"; "KEY"; "SHARE"]; ["FOR"; "NO"; "KEY"; "UPDATE"]]
  end.

Definition parser_of (database_type : DatabaseType) : string := normalize_dialect (database_type_debug database_type).

Definition max_risk (stmts : list statement) (detect_select_into : bool) : SqlRisk :=
  fold_left (λ max_risk stmt,
               let risk := classify_statement stmt detect_select_into in
               if risk_level max_risk <? risk_level risk then risk else max_risk) stmts ReadOnly.

Definition classify_sql_risk_with_database (sql : text) (normalized_dialect : string)
    (database_type : option DatabaseType) : result SqlRisk string :=
  let parser_dialect := resolve_dialect normalized_dialect in
  let detect_select_into := match database_type with None => true | Some _ => false end in
  let has_locking_clause := sql_contains_top_level_locking_clause sql parser_dialect in
  let has_dialect_specific_write :=
    match database_type with Some d => has_dialect_specific_write sql d | None => false end in
  match parse_sql parser_dialect sql with
  | Some ((_ :: _) as stmts) =>
      let max_risk := max_risk stmts detect_select_into in
      if bool_decide (max_risk = ReadOnly) && (has_dialect_specific_write || has_locking_clause)
      then Ok Write else Ok max_risk
  | _ =>
      let is_write :=
        match database_type with Some d => is_write_sql_for_database sql d | None => is_write_sql sql end in
      if is_write || has_locking_clause then Ok Write else Ok ReadOnly
  end.

Definition classify_sql_risk (sql : text) (dialect : string) : result SqlRisk string :=
  classify_sql_risk_with_database sql (normalize_dialect dialect) None.

Definition classify_text_for_database (sql : text) (database_type : DatabaseType) : result SqlRisk string :=
  match classify_search_engine_query_risk sql database_type with
  | Some SqlGuard.ReadOnly => Ok ReadOnly
  | Some SqlGuard.Write => Ok Write
  | Some SqlGuard.Dangerous => Ok Ddl
  | None => classify_sql_risk_with_database sql (parser_of database_type) (Some database_type)
  end.

Definition supports_select_into_table_creation (d : DatabaseType) : bool :=
  bool_decide (d ∈ [Postgres; Redshift; Gaussdb; OpenGauss; Kingbase; Highgo; Uxdb; Vastbase; Kwdb; SqlServer]).

Definition is_dangerous_sql_for_database (sql : text) (database_type : DatabaseType) : bool :=
  match classify_search_engine_query_risk sql database_type with
  | Some risk => bool_decide (risk = SqlGuard.Dangerous)
  | None =>
      let parser_dialect := resolve_dialect (parser_of database_type) in
      let detect_select_into := supports_select_into_table_creation database_type in
      let has_locking_clause := sql_contains_top_level_locking_clause sql parser_dialect in
      let has_unparsed_dialect_specific_write :=
        negb detect_select_into && has_dialect_specific_write sql database_type in
      match parse_sql parser_dialect sql with
      | Some ((_ :: _) as statements) =>
          has_locking_clause || has_unparsed_dialect_specific_write
          || existsb (statement_is_dangerous detect_select_into) statements
      | _ => has_locking_clause || is_write_sql_for_database sql database_type
      end
  end.

(** ** Switching the database *)

Fixpoint use_at_start (tokens : list SqlToken) (statement_start : bool) : bool :=
  match tokens with
  | [] => false
  | token :: tokens =>
      match kind token with
      | KWhitespace => use_at_start tokens statement_start
      | KSemiColon => use_at_start tokens true
      | KWord value =>
          if statement_start && text_eq_ignore_ascii_case value (c "use") then true else use_at_start tokens false
      | KEOF => use_at_start tokens statement_start
      | _ => use_at_start tokens false
      end
  end.

Definition sql_has_use_statement (sql : text) (dialect : ParserDialect) : bool :=
  match parse_sql dialect sql with
  | Some statements => existsb (λ stmt, match stmt with Use _ => true | _ => false end) statements
  | None => match tokenize_sql dialect sql with Some tokens => use_at_start tokens true | None => false end
  end.

Definition mcp_sql_has_forbidden_database_switch (sql : text) (database_type : DatabaseType) : bool :=
  match classify_search_engine_query_risk sql database_type with
  | Some _ => false
  | None =>
      let dialect := resolve_dialect (parser_of database_type) in
      sql_has_use_statement sql dialect
      || (bool_decide (database_type ∈ [Mysql; Doris; StarRocks; ManticoreSearch; Goldendb])
          && sql_has_use_statement (strip_sql_comments sql) dialect)
  end.
End risk.

(** The classifier the agent asks. *)
#[export] Instance sql_risk_classifier `{HU : UnicodeCase, HT : SqlTokenizer, HP : SqlParser} : RiskClassifier :=
  {| classify_sql_risk_for_database sql d := classify_text_for_database (chars sql) d |}.

(** ** What a predicate means for a row *)

Definition is_eq (x : comparison) : bool := match x with Eq => true | _ => false end.
Definition is_lt (x : comparison) : bool := match x with Lt => true | _ => false end.
Definition is_gt (x : comparison) : bool := match x with Gt => true | _ => false end.
Definition comparison_holds (op : PredicateComparisonOperator) (x : comparison) : bool :=
  match op with
  | CmpEq => is_eq x | CmpNotEq => negb (is_eq x) | CmpGt => is_gt x | CmpGtEq => negb (is_lt x)
  | CmpLt => is_lt x | CmpLtEq => negb (is_gt x)
  end.

(** A row in which nothing is NULL: the value of an expression, how values
    compare, and whether a predicate holds. The laws are those of SQL. *)
Class NullFreeRow `{HP : SqlParser} : Type := {
  cell : Type;
  value_of : Expr Rest → cell;
  compare_cells : cell → cell → comparison;
  holds_for : Expr Rest → bool;
  compare_refl x : compare_cells x x = Eq;
  compare_opp x y : compare_cells y x = CompOpp (compare_cells x y);
  value_nested e : value_of (Nested e) = value_of e;
  holds_nested e : holds_for (Nested e) = holds_for e;
  holds_not e : holds_for (UnaryNot e) = negb (holds_for e);
  holds_and a b : holds_for (BinaryOp a OpAnd b) = holds_for a && holds_for b;
  holds_or a b : holds_for (BinaryOp a OpOr b) = holds_for a || holds_for b;
  holds_comparison a op b p :
    predicate_comparison_operator op = Some p →
    holds_for (BinaryOp a op b) = comparison_holds p (compare_cells (value_of a) (value_of b));
  holds_is_null e : holds_for (IsNull e) = false;
  holds_is_not_null e : holds_for (IsNotNull e) = true;
  holds_is_true e : holds_for (IsTrue e) = holds_for e;
  holds_is_not_true e : holds_for (IsNotTrue e) = negb (holds_for e);
  holds_is_false e : holds_for (IsFalse e) = negb (holds_for e);
  holds_is_not_false e : holds_for (IsNotFalse e) = holds_for e;
  holds_distinct a b : holds_for (IsDistinctFrom a b) = negb (is_eq (compare_cells (value_of a) (value_of b)));
  holds_not_distinct a b : holds_for (IsNotDistinctFrom a b) = is_eq (compare_cells (value_of a) (value_of b));
  holds_in_list e l negated :
    holds_for (InList e l negated)
    = xorb negated (existsb (λ x, is_eq (compare_cells (value_of e) (value_of x))) l);
  holds_between e negated lo hi :
    holds_for (Between e negated lo hi)
    = xorb negated (negb (is_lt (compare_cells (value_of e) (value_of lo)))
                    && negb (is_gt (compare_cells (value_of e) (value_of hi))));
  holds_like_all e p :
    like_pattern_matches_all p = true → holds_for (Like false false e p None) = true;
  holds_ilike_all e p :
    like_pattern_matches_all p = true → holds_for (ILike false false e p None) = true
}.

(** What the theorems use of sqlparser: [==] is equality, and the visitor visits
    an expression and those in it. *)
Class LawfulParser `{HP : SqlParser} : Prop := {
  expr_eqb_iff a b : expr_eqb a b = true ↔ a = b;
  visits_identifier i x : x ∈ expressions_of (Identifier i) ↔ x = Identifier i;
  visits_value v x : x ∈ expressions_of (ExprValue v) ↔ x = ExprValue v;
  visits_nested e x : x ∈ expressions_of (Nested e) ↔ x = Nested e ∨ x ∈ expressions_of e;
  visits_not e x : x ∈ expressions_of (UnaryNot e) ↔ x = UnaryNot e ∨ x ∈ expressions_of e;
  visits_binary a op b x :
    x ∈ expressions_of (BinaryOp a op b) ↔ x = BinaryOp a op b ∨ x ∈ expressions_of a ∨ x ∈ expressions_of b
}.

Lemma expr_eqb_eq `{HP : SqlParser, HL : !LawfulParser} (a b : Expr Rest) : expr_eqb a b = true → a = b.
Proof. apply expr_eqb_iff. Qed.

Lemma any_pair_exists {A} (f : A → A → bool) l : any_pair f l = true → ∃ x y, x ∈ l ∧ y ∈ l ∧ f x y = true.
Proof.
  induction l as [|x l IH]; simpl; [done|]. intros [(y & Hy%list_elem_of_In & Hf)%existsb_exists|H]%orb_true_iff.
  - exists x, y. split_and!; [by left|by right|done].
  - destruct (IH H) as (a & b & ? & ? & ?). exists a, b. split_and!; [by right|by right|done].
Qed.

Section meaning.
Context `{HP : SqlParser, HL : !LawfulParser, HN : !NullFreeRow}.

Lemma value_strip e : value_of (strip_nested_expr e) = value_of e.
Proof. induction e; try done. simpl. by rewrite value_nested. Qed.

Lemma or_leaves_hold e : holds_for e = existsb holds_for (or_leaves e).
Proof.
  induction e; simpl; try by rewrite orb_false_r.
  - by rewrite holds_nested.
  - destruct op; simpl; try by rewrite orb_false_r. by rewrite holds_or, existsb_app, <-IHe1, <-IHe2.
Qed.

(** Two leaves that say opposite things cover every row. *)
Lemma complementary_leaves {C} (check : Expr Rest → option C) (meaning : C → bool) (f : C → C → bool) e :
  (∀ leaf ch, check leaf = Some ch → holds_for leaf = meaning ch) →
  (∀ a b, f a b = true → meaning b = negb (meaning a)) →
  any_pair f (omap check (or_leaves e)) = true → holds_for e = true.
Proof.
  intros Hcheck Hf (a & b & (x & Hx & Ha)%list_elem_of_omap & (y & Hy & Hb)%list_elem_of_omap & Hab)%any_pair_exists.
  rewrite or_leaves_hold. apply existsb_exists. apply Hcheck in Ha, Hb. apply Hf in Hab.
  destruct (meaning a); simpl in Hab; [exists x|exists y]; (split; [by apply list_elem_of_In|]); congruence.
Qed.

Lemma null_check_meaning e : ∀ n ch,
  null_check_with_negation e n = Some ch → xorb (holds_for e) n = ch.2.
Proof.
  induction e; simpl; intros n ch; try done.
  - rewrite holds_nested. apply IHe.
  - intros H%IHe. rewrite <-H, holds_not. by destruct (holds_for e), n.
  - intros [= <-]. by rewrite holds_is_null.
  - intros [= <-]. by rewrite holds_is_not_null.
Qed.

Lemma complement_meaning op x : comparison_holds (complementary_comparison_operator op) x = negb (comparison_holds op x).
Proof. by destruct op, x. Qed.
Lemma reverse_meaning op x : comparison_holds (reverse_comparison_operator op) (CompOpp x) = comparison_holds op x.
Proof. by destruct op, x. Qed.

Definition comparison_meaning (ch : PredicateComparisonCheck) : bool :=
  comparison_holds (check_operator ch) (compare_cells (value_of (check_left ch)) (value_of (check_right ch))).

Lemma comparison_check_meaning e : ∀ n ch, comparison_check e n = Some ch → xorb (holds_for e) n = comparison_meaning ch.
Proof.
  induction e; simpl; intros n ch; try done.
  - rewrite holds_nested. apply IHe.
  - intros H%IHe. rewrite <-H, holds_not. by destruct (holds_for e), n.
  - destruct (negb _); [done|]. destruct (predicate_comparison_operator op) as [p|] eqn:Ep; [|done]. simpl.
    intros [= <-]. rewrite (holds_comparison _ _ _ _ Ep).
    assert (Hn : ∀ x, xorb (comparison_holds p x) n = comparison_holds (if n then complementary_comparison_operator p else p) x).
    { intros x. destruct n; [by rewrite complement_meaning, xorb_true_r|by rewrite xorb_false_r]. }
    rewrite Hn. destruct (expr_leb _ _); unfold comparison_meaning; simpl; rewrite !value_strip; [done|].
    by rewrite (compare_opp (value_of e1) (value_of e2)), reverse_meaning.
Qed.

Lemma comparisons_complement a b :
  expr_eqb (check_left a) (check_left b) && expr_eqb (check_right a) (check_right b)
  && comparison_operators_are_complementary (check_operator a) (check_operator b) = true →
  comparison_meaning b = negb (comparison_meaning a).
Proof.
  intros [[Hl%expr_eqb_eq Hr%expr_eqb_eq]%andb_true_iff Hop%bool_decide_eq_true]%andb_true_iff.
  unfold comparison_meaning. by rewrite <-Hl, <-Hr, <-Hop, complement_meaning.
Qed.

(** Sorting and removing duplicates does not change what a list contains. *)
Lemma existsb_insert f x l : existsb f (insert_expr x l) = f x || existsb f l.
Proof.
  induction l as [|y l IH]; simpl; [done|]. destruct (expr_leb x y); simpl; [done|]. rewrite IH.
  by destruct (f x), (f y).
Qed.
Lemma existsb_sort f l : existsb f (sort_exprs l) = existsb f l.
Proof. induction l as [|x l IH]; [done|]. simpl. by rewrite existsb_insert, IH. Qed.
Lemma existsb_dedup f l : existsb f (dedup_exprs l) = existsb f l.
Proof.
  induction l as [|x [|y l] IH]; try done. change (existsb f (x :: y :: l)) with (f x || existsb f (y :: l)).
  change (dedup_exprs (x :: y :: l))
    with (if expr_eqb x y then dedup_exprs (y :: l) else x :: dedup_exprs (y :: l)).
  destruct (expr_eqb x y) eqn:E; [|by rewrite <-IH]. apply expr_eqb_eq in E as ->.
  rewrite IH. simpl. by destruct (f y).
Qed.

Lemma exprs_eqb_eq a b : exprs_eqb a b = true → a = b.
Proof.
  revert b. induction a as [|x a IH]; intros [|y b]; simpl; try done.
  intros [Hx%expr_eqb_eq Ha%IH]%andb_true_iff. by subst.
Qed.

Definition in_list_meaning (ch : PredicateInListCheck) : bool :=
  xorb (in_negated ch) (existsb (λ x, is_eq (compare_cells (value_of (in_expr ch)) (value_of x))) (in_list ch)).

Lemma in_list_check_meaning e : ∀ n ch, in_list_check e n = Some ch → xorb (holds_for e) n = in_list_meaning ch.
Proof.
  induction e; simpl; intros n ch; try done.
  - rewrite holds_nested. apply IHe.
  - intros H%IHe. rewrite <-H, holds_not. by destruct (holds_for e), n.
  - case_match; [|done]. intros [= <-]. rewrite holds_in_list. unfold in_list_meaning. simpl.
    match goal with |- context [existsb ?g (if ?b then _ else _)] => set (f := g); set (values := b) end.
    assert (Hf : ∀ x, f (strip_nested_expr x) = f x) by (intros x; unfold f; by rewrite !value_strip).
    assert (Hl : ∀ l, existsb f (strip_nested_expr <$> l) = existsb f l).
    { intros l. induction l as [|x l IH]; [done|]. rewrite fmap_cons. simpl. by rewrite IH, Hf. }
    assert (He : existsb f (if values then dedup_exprs (sort_exprs (strip_nested_expr <$> items))
                            else strip_nested_expr <$> items)
                 = existsb (λ x, is_eq (compare_cells (value_of e) (value_of x))) items).
    { clearbody values. destruct values; rewrite ?existsb_dedup, ?existsb_sort, Hl; unfold f; by rewrite value_strip. }
    rewrite He. by destruct negated, n, (existsb _ items).
Qed.

Lemma in_lists_complement a b :
  expr_eqb (in_expr a) (in_expr b) && exprs_eqb (in_list a) (in_list b)
  && negb (Bool.eqb (in_negated a) (in_negated b)) = true →
  in_list_meaning b = negb (in_list_meaning a).
Proof.
  intros [[He%expr_eqb_eq Hl%exprs_eqb_eq]%andb_true_iff Hn%negb_true_iff]%andb_true_iff.
  unfold in_list_meaning. rewrite <-He, <-Hl. destruct (in_negated a), (in_negated b); try done; by destruct (existsb _ _).
Qed.

Definition between_meaning (ch : PredicateBetweenCheck) : bool :=
  xorb (between_negated ch)
    (negb (is_lt (compare_cells (value_of (between_expr ch)) (value_of (between_low ch))))
     && negb (is_gt (compare_cells (value_of (between_expr ch)) (value_of (between_high ch))))).

Lemma between_check_meaning e : ∀ n ch, between_check e n = Some ch → xorb (holds_for e) n = between_meaning ch.
Proof.
  induction e; simpl; intros n ch; try done.
  - rewrite holds_nested. apply IHe.
  - intros H%IHe. rewrite <-H, holds_not. by destruct (holds_for e), n.
  - case_match; [|done]. intros [= <-]. rewrite holds_between. unfold between_meaning. simpl. rewrite !value_strip.
    destruct negated, n; simpl; by destruct (_ && _).
Qed.

Lemma betweens_complement a b :
  expr_eqb (between_expr a) (between_expr b) && expr_eqb (between_low a) (between_low b)
  && expr_eqb (between_high a) (between_high b) && negb (Bool.eqb (between_negated a) (between_negated b)) = true →
  between_meaning b = negb (between_meaning a).
Proof.
  intros [[[He%expr_eqb_eq Hl%expr_eqb_eq]%andb_true_iff Hh%expr_eqb_eq]%andb_true_iff Hn%negb_true_iff]%andb_true_iff.
  unfold between_meaning. rewrite <-He, <-Hl, <-Hh.
  destruct (between_negated a), (between_negated b); try done; simpl; by destruct (_ && _).
Qed.

Lemma unnegated {C} (check : Expr Rest → bool → option C) (meaning : C → bool) :
  (∀ e n ch, check e n = Some ch → xorb (holds_for e) n = meaning ch) →
  ∀ leaf ch, check leaf false = Some ch → holds_for leaf = meaning ch.
Proof. intros H leaf ch E. rewrite <-(H _ _ _ E). by destruct (holds_for leaf). Qed.

(** Every test for a disjunction that covers all rows is right. *)
Lemma complementary_disjunction e :
  or_contains_complementary_null_checks e || or_contains_complementary_comparisons e
  || or_contains_complementary_in_lists e || or_contains_complementary_between_checks e = true → holds_for e = true.
Proof.
  intros [[[H|H]%orb_true_iff|H]%orb_true_iff|H]%orb_true_iff; revert H.
  - apply (complementary_leaves null_check snd); [apply (unnegated null_check_with_negation), null_check_meaning|].
    intros [x b] [y b'] [_ H%negb_true_iff]%andb_true_iff. by destruct b, b'.
  - apply complementary_leaves with comparison_meaning; [|apply comparisons_complement].
    apply (unnegated comparison_check), comparison_check_meaning.
  - apply complementary_leaves with in_list_meaning; [|apply in_lists_complement].
    apply (unnegated in_list_check), in_list_check_meaning.
  - apply complementary_leaves with between_meaning; [|apply betweens_complement].
    apply (unnegated between_check), between_check_meaning.
Qed.
End meaning.

(** The sub-predicates the judgement is composed of. *)
Inductive Part `{HP : SqlParser} (p : Expr Rest) : Expr Rest → Prop :=
| part_refl : Part p p
| part_nested e : Part p e → Part p (Nested e)
| part_not e : Part p e → Part p (UnaryNot e)
| part_left a op b : Part p a → Part p (BinaryOp a op b)
| part_right a op b : Part p b → Part p (BinaryOp a op b)
| part_is_true e : Part p e → Part p (IsTrue e)
| part_is_not_true e : Part p e → Part p (IsNotTrue e)
| part_is_false e : Part p e → Part p (IsFalse e)
| part_is_not_false e : Part p e → Part p (IsNotFalse e).
#[export] Hint Constructors Part : core.

Section judgement.
Context `{HU : UnicodeCase, HT : SqlTokenizer, HP : SqlParser}.

(** Predicates the code calls unbounded without looking further: with a subquery,
    without a column, or a disjunction with a conjunction in it. *)
Definition not_judged (p : Expr Rest) : Prop :=
  expr_contains_subquery p = true ∨ expr_contains_column_reference p = false
  ∨ ∃ a b, p = BinaryOp a OpOr b ∧ or_contains_conjunctive_branch p = true.

Definition has_unjudged_part (e : Expr Rest) : Prop := ∃ p, Part p e ∧ not_judged p.

Lemma unjudged_in p e : Part p e → has_unjudged_part p → has_unjudged_part e.
Proof. intros He (q & Hq & Hn). exists q. split; [|done]. induction He; eauto. Qed.

Ltac from_part := left; eapply unjudged_in; [|eassumption]; eauto using Part.

Context `{HL : !LawfulParser}.

(** A test for some visited expression, along the structure. *)
Lemma existsb_visits (f : Expr Rest → bool) e l :
  (∀ x, x ∈ expressions_of e ↔ x = e ∨ x ∈ l) → existsb f (expressions_of e) = f e || existsb f l.
Proof.
  intros H. apply eq_true_iff_eq. rewrite orb_true_iff, !existsb_exists. setoid_rewrite <-list_elem_of_In.
  setoid_rewrite H. naive_solver.
Qed.
Lemma existsb_visits_value f v : existsb f (expressions_of (ExprValue v)) = f (ExprValue v).
Proof. rewrite (existsb_visits f _ []), orb_false_r; [done|]. intros x. rewrite visits_value, elem_of_nil. tauto. Qed.
Lemma existsb_visits_identifier f i : existsb f (expressions_of (Identifier i)) = f (Identifier i).
Proof. rewrite (existsb_visits f _ []), orb_false_r; [done|]. intros x. rewrite visits_identifier, elem_of_nil. tauto. Qed.
Lemma existsb_visits_nested f e : existsb f (expressions_of (Nested e)) = f (Nested e) || existsb f (expressions_of e).
Proof. apply existsb_visits, visits_nested. Qed.
Lemma existsb_visits_not f e : existsb f (expressions_of (UnaryNot e)) = f (UnaryNot e) || existsb f (expressions_of e).
Proof. apply existsb_visits, visits_not. Qed.
Lemma existsb_visits_binary f a op b :
  existsb f (expressions_of (BinaryOp a op b))
  = f (BinaryOp a op b) || (existsb f (expressions_of a) || existsb f (expressions_of b)).
Proof. rewrite <-existsb_app. apply existsb_visits. intros x. by rewrite visits_binary, elem_of_app. Qed.

Lemma value_has_no_column v : expr_contains_column_reference (ExprValue v) = false.
Proof. apply existsb_visits_value. Qed.

Lemma values_have_no_column v op w :
  expr_contains_column_reference (BinaryOp (ExprValue v) op (ExprValue w)) = false.
Proof. unfold expr_contains_column_reference. by rewrite existsb_visits_binary, !existsb_visits_value. Qed.

Lemma constant_comparison_values a op b t :
  constant_comparison_truth a op b = Some t → expr_contains_column_reference (BinaryOp a op b) = false.
Proof. destruct a, b; try done. intros _. apply values_have_no_column. Qed.

Context `{HN : !NullFreeRow}.

(** What the two judgements say about [e], unless a part is not judged. *)
Definition judged_right (e : Expr Rest) : Prop :=
  (predicate_is_obviously_unbounded e = true → has_unjudged_part e ∨ holds_for e = true)
  ∧ (predicate_is_obviously_false e = true → has_unjudged_part e ∨ holds_for e = false).

Lemma unbounded_cases e (rest : bool) (P : Prop) :
  (expr_contains_subquery e = false → expr_contains_column_reference e = true → rest = true → has_unjudged_part e ∨ P) →
  (if expr_contains_subquery e then true else if negb (expr_contains_column_reference e) then true else rest) = true →
  has_unjudged_part e ∨ P.
Proof.
  intros H. destruct (expr_contains_subquery e) eqn:Es; [intros _; left; exists e; split; [done|by left]|].
  destruct (expr_contains_column_reference e) eqn:Ec; [by apply H|]. intros _. left. exists e. split; [done|].
  right. by left.
Qed.

Lemma judged_and a b : judged_right a → judged_right b → judged_right (BinaryOp a OpAnd b).
Proof.
  intros [Ua Fa] [Ub Fb]. split.
  - simpl. apply unbounded_cases. intros _ _ [[?|Ha]%Ua [?|Hb]%Ub]%andb_true_iff; try (from_part).
    right. by rewrite holds_and, Ha, Hb.
  - simpl. intros [[?|H]%Fa|[?|H]%Fb]%orb_true_iff; try (from_part).
    + right. by rewrite holds_and, H.
    + right. by rewrite holds_and, H, andb_false_r.
Qed.

Lemma judged_or a b : judged_right a → judged_right b → judged_right (BinaryOp a OpOr b).
Proof.
  intros [Ua Fa] [Ub Fb]. split.
  - cbn [predicate_is_obviously_unbounded]. apply unbounded_cases. intros _ _.
    destruct (or_contains_conjunctive_branch (BinaryOp a OpOr b)) eqn:Ec.
    { intros _. left. eexists. split; [apply part_refl|]. right; right. by exists a, b. }
    rewrite orb_false_l. intros [[H|[?|H]%Ua]%orb_true_iff|[?|H]%Ub]%orb_true_iff;
      try (from_part).
    + right. by apply complementary_disjunction.
    + right. by rewrite holds_or, H.
    + right. by rewrite holds_or, H, orb_true_r.
  - simpl. intros [[?|Ha]%Fa [?|Hb]%Fb]%andb_true_iff; try (from_part).
    right. by rewrite holds_or, Ha, Hb.
Qed.

Lemma same_operands a op b :
  is_comparison_operator op = true → expr_eqb a b = true →
  holds_for (BinaryOp a op b) = match op with OpEq | OpGtEq | OpLtEq | OpSpaceship => true | _ => false end.
Proof.
  intros Hop ->%expr_eqb_eq. destruct op; try done; erewrite holds_comparison by reflexivity;
    by rewrite compare_refl.
Qed.

Lemma judged_comparison a op b : is_comparison_operator op = true → judged_right (BinaryOp a op b).
Proof.
  intros Hop. split.
  - assert (E : predicate_is_obviously_unbounded (BinaryOp a op b)
                = if expr_contains_subquery (BinaryOp a op b) then true
                  else if negb (expr_contains_column_reference (BinaryOp a op b)) then true
                  else match constant_comparison_truth a op b with
                       | Some result => result
                       | None => expr_eqb a b && match op with OpEq | OpGtEq | OpLtEq | OpSpaceship => true | _ => false end
                       end) by (by destruct op).
    rewrite E. apply unbounded_cases. intros _ Hc.
    destruct (constant_comparison_truth a op b) eqn:Et; [apply constant_comparison_values in Et; congruence|].
    intros [He H]%andb_true_iff. right. by rewrite same_operands.
  - assert (E : predicate_is_obviously_false (BinaryOp a op b)
                = match constant_comparison_truth a op b with Some result => negb result | None => false end
                  || expr_eqb a b && match op with OpNotEq | OpGt | OpLt => true | _ => false end) by (by destruct op).
    rewrite E. destruct (constant_comparison_truth a op b) eqn:Et.
    { intros _. left. eexists. split; [apply part_refl|]. right; left. by eapply constant_comparison_values. }
    rewrite orb_false_l. intros [He H]%andb_true_iff. right. rewrite same_operands by done. by destruct op.
Qed.

(** The two judgements are right wherever every part is judged. *)
Lemma judgements_right e : judged_right e.
Proof.
  induction e as [| |e IH| |e IH|a IHa op b IHb| | |e IH|e IH|e IH|e IH|a _ b _|a _ b _| | |negated any e _ p _ esc
                 |negated any e _ p _ esc| | | | |];
    try (split; [simpl; apply unbounded_cases; done|done]).
  - destruct IH as [U F]. split; simpl; [apply unbounded_cases; intros _ _|]; rewrite holds_nested;
      [intros [?|]%U|intros [?|]%F]; auto; from_part.
  - split; simpl; [apply unbounded_cases; intros _; by rewrite value_has_no_column|]. intros _. left.
    eexists. split; [apply part_refl|]. right; left. apply value_has_no_column.
  - destruct IH as [U F]. split; simpl; [apply unbounded_cases; intros _ _|]; rewrite holds_not;
      [intros [?|H]%F|intros [?|H]%U]; try (from_part); right; by rewrite H.
  - destruct op; try (by apply judged_comparison); [by apply judged_and|by apply judged_or|].
    split; [simpl; apply unbounded_cases; done|done].
  - destruct IH as [U F]. split; simpl; [apply unbounded_cases; intros _ _|done]. rewrite holds_is_true.
    intros [?|]%U; auto. from_part.
  - destruct IH as [U F]. split; simpl; [by apply unbounded_cases|]. rewrite holds_is_not_true.
    intros [?|H]%U; [from_part|right; by rewrite H].
  - destruct IH as [U F]. split; simpl; [by apply unbounded_cases|]. rewrite holds_is_false.
    intros [?|H]%U; [from_part|right; by rewrite H].
  - destruct IH as [U F]. split; simpl; [apply unbounded_cases; intros _ _|done]. rewrite holds_is_not_false.
    intros [?|]%U; auto. from_part.
  - split; simpl; [by apply unbounded_cases|]. intros H%expr_eqb_eq. right.
    by rewrite holds_distinct, <-(value_strip a), H, value_strip, compare_refl.
  - split; simpl; [apply unbounded_cases; intros _ _|done]. intros H%expr_eqb_eq. right.
    by rewrite holds_not_distinct, <-(value_strip a), H, value_strip, compare_refl.
  - split; [|done]. destruct negated, any, esc; simpl; apply unbounded_cases; try done. intros _ _ [_ H]%andb_true_iff.
    right. by apply holds_like_all.
  - split; [|done]. destruct negated, any, esc; simpl; apply unbounded_cases; try done. intros _ _ [_ H]%andb_true_iff.
    right. by apply holds_ilike_all.
Qed.
End judgement.

(** The tests of the visited expressions, computed along the structure. *)
Ltac visits :=
  unfold expr_contains_subquery, expr_contains_column_reference, or_contains_complementary_null_checks,
    or_contains_complementary_comparisons, collect_or_null_checks, collect_or_comparison_checks;
  repeat first [rewrite existsb_visits_binary | rewrite existsb_visits_nested | rewrite existsb_visits_not
               | rewrite existsb_visits_identifier | rewrite existsb_visits_value]; simpl.


(** ** The statements a statement executes *)

(** [InStatement s stmt]: to execute [stmt] is to execute [s]; an EXPLAIN
    executes only with ANALYZE, a query the statements of its CTEs and its body. *)
Inductive InQuery {R} (s : Statement R) : Query R → Prop :=
| in_cte ctes q body locks rest : q ∈ ctes → InQuery s q → InQuery s (mk_query (Some ctes) body locks rest)
| in_body ctes body locks rest : InSetExpr s body → InQuery s (mk_query ctes body locks rest)
with InSetExpr {R} (s : Statement R) : SetExpr R → Prop :=
| in_set_query q : InQuery s q → InSetExpr s (SetQuery q)
| in_set_left a b rest : InSetExpr s a → InSetExpr s (SetOperation a b rest)
| in_set_right a b rest : InSetExpr s b → InSetExpr s (SetOperation a b rest)
| in_set_insert stmt : InStatement s stmt → InSetExpr s (SetInsert stmt)
| in_set_update stmt : InStatement s stmt → InSetExpr s (SetUpdate stmt)
| in_set_delete stmt : InStatement s stmt → InSetExpr s (SetDelete stmt)
| in_set_merge stmt : InStatement s stmt → InSetExpr s (SetMerge stmt)
with InStatement {R} (s : Statement R) : Statement R → Prop :=
| in_self : InStatement s s
| in_query q : InQuery s q → InStatement s (SQuery q)
| in_explained stmt : InStatement s stmt → InStatement s (Explain true stmt).
Scheme InQuery_mut := Minimality for InQuery Sort Prop
  with InSetExpr_mut := Minimality for InSetExpr Sort Prop
  with InStatement_mut := Minimality for InStatement Sort Prop.
Combined Scheme executes_ind from InQuery_mut, InSetExpr_mut, InStatement_mut.

Definition executed {R} (s : Statement R) (script : list (Statement R)) : Prop := ∃ stmt, stmt ∈ script ∧ InStatement s stmt.

Section verdicts.
Context `{HU : UnicodeCase, HT : SqlTokenizer, HP : SqlParser}.

(** No rows locked, no function known to have side effects. *)
Definition quiet_query (q : Query Rest) : Prop :=
  match q with mk_query _ _ locks _ => locks = [] end
  ∧ ∀ e, e ∈ query_expressions q → is_side_effect e = false.

(** A predicate that selects rows by a column of the table alone. *)
Definition selective (selection : option (Expr Rest)) : Prop :=
  ∃ e, selection = Some e ∧ (∃ column, column ∈ expressions_of e ∧ is_column column = true)
    ∧ (∀ sub, sub ∈ expressions_of e → is_subquery sub = false) ∧ predicate_is_obviously_unbounded e = false.

(** What may run without the permission for dangerous statements. *)
Definition safe_statement (s : Statement Rest) : Prop :=
  match s with
  | SQuery q => quiet_query q
  | Insert replace_into overwrite conflict on source =>
      replace_into = false ∧ overwrite = false ∧ conflict ≠ Some ConflictReplace
      ∧ (on = None ∨ on = Some OnConflictDoNothing)
      ∧ (source = None ∨ ∃ ctes values locks rest, source = Some (mk_query ctes (Values values) locks rest))
  | Update table from conflict selection =>
      joins table = [] ∧ from = None ∧ conflict ≠ Some ConflictReplace ∧ selective selection
  | Delete tables from using_tables selection =>
      tables = [] ∧ using_tables = None ∧ (∃ table, from = [table] ∧ joins table = []) ∧ selective selection
  | Explain _ _ | ExplainTable | Use _ => True
  | ShowTables | ShowColumns | ShowDatabases | ShowSchemas | ShowCreate | ShowVariables | ShowStatus
  | ShowProcessList => True
  | _ => False
  end.

(** What counts as reading. *)
Definition reading_statement (s : Statement Rest) : Prop :=
  match s with
  | SQuery q => quiet_query q
  | Explain _ _ | ExplainTable => True
  | ShowTables | ShowColumns | ShowDatabases | ShowSchemas | ShowCreate | ShowVariables | ShowStatus
  | ShowProcessList => True
  | _ => False
  end.

Lemma existsb_false {A} (f : A → bool) l : existsb f l = false → ∀ x, x ∈ l → f x = false.
Proof.
  intros H x Hx%list_elem_of_In. apply not_true_iff_false. intros Hf. apply not_true_iff_false in H. apply H.
  apply existsb_exists. by exists x.
Qed.

Lemma is_nil_true {A} (l : list A) : negb (is_nil l) = false → l = [].
Proof. by destruct l. Qed.
Lemma is_some_false {A} (o : option A) : is_some o = false → o = None.
Proof. by destruct o. Qed.

Ltac split_or :=
  repeat match goal with
    | H : _ || _ = false |- _ => apply orb_false_iff in H as [? ?]
    | H : negb (is_nil _) = false |- _ => apply is_nil_true in H
    | H : is_some _ = false |- _ => apply is_some_false in H
    end.

Lemma query_dangerous_parts d ctes body locks rest :
  query_is_dangerous d (mk_query ctes body locks rest) = false →
  (∀ qs q, ctes = Some qs → q ∈ qs → query_is_dangerous d q = false) ∧ set_expr_is_dangerous d body = false
  ∧ quiet_query (mk_query ctes body locks rest).
Proof.
  cbn [query_is_dangerous]. intros H. split_or. split; [|split; [done|split; [done|by apply existsb_false]]].
  intros qs q -> Hq. by apply (existsb_false _ qs).
Qed.

Lemma query_write_parts d ctes body locks rest :
  query_is_write_capable d (mk_query ctes body locks rest) = false →
  (∀ qs q, ctes = Some qs → q ∈ qs → query_is_write_capable d q = false) ∧ set_expr_is_write_capable d body = false
  ∧ quiet_query (mk_query ctes body locks rest).
Proof.
  cbn [query_is_write_capable]. intros H. split_or. split; [|split; [done|split; [done|by apply existsb_false]]].
  intros qs q -> Hq. by apply (existsb_false _ qs).
Qed.

Lemma bounded_selective selection : selection_is_unbounded selection = false → selective selection.
Proof.
  destruct selection as [e|]; [|done]. simpl. intros H. exists e. split; [done|].
  assert (expr_contains_subquery e = false ∧ expr_contains_column_reference e = true) as [Hs Hc].
  { destruct (expr_contains_subquery e) eqn:Es; [by destruct e; simpl in H; rewrite Es in H|].
    destruct (expr_contains_column_reference e) eqn:Ec; [done|]. by destruct e; simpl in H; rewrite Es, Ec in H. }
  split; [|split; [by apply existsb_false|done]]. apply existsb_exists in Hc as (x & ?%list_elem_of_In & ?). by exists x.
Qed.

Lemma harmless_statement d s : statement_is_dangerous d s = false → safe_statement s.
Proof.
  destruct s as [q|analyze s| | | | | | | | | |rep ov conflict on source|table from conflict sel
                |tables from using_tables sel| | | | | | | | | | | | | | | | | | | | | |]; try done.
  - destruct q. by intros (_ & _ & ?)%query_dangerous_parts.
  - cbn [statement_is_dangerous]. intros H. split_or. split_and!; [done|done|by intros ->| |].
    + destruct on as [[]|]; try done; auto.
    + destruct source as [[ctes [] locks rest]|]; try done; [|by left]. right. by eexists _, _, _, _.
  - cbn [statement_is_dangerous]. intros H. split_or. split_and!; [done|done|by intros ->|by apply bounded_selective].
  - cbn [statement_is_dangerous]. intros H. split_or. split_and!; [done|done| |by apply bounded_selective].
    destruct from as [|table [|]]; try done. exists table. split; [done|by apply is_nil_true].
Qed.

(** Danger is looked for in everything a statement executes. *)
Lemma harmless_inside d s :
  (∀ q, InQuery s q → query_is_dangerous d q = false → safe_statement s)
  ∧ (∀ e, InSetExpr s e → set_expr_is_dangerous d e = false → safe_statement s)
  ∧ (∀ stmt, InStatement s stmt → statement_is_dangerous d stmt = false → safe_statement s).
Proof.
  apply executes_ind; try by (intros; simpl in *; split_or; auto).
  - intros ctes q body locks rest Hq _ IH (Hc & _ & _)%query_dangerous_parts. apply IH. by eapply Hc.
  - apply harmless_statement.
Qed.

Lemma reading_one d s : classify_statement s d = ReadOnly → reading_statement s.
Proof.
  destruct s; try done. simpl. destruct (query_is_write_capable d q) eqn:Hq; [done|]. intros _. destruct q.
  by apply query_write_parts in Hq as (_ & _ & ?).
Qed.

Lemma reading_inside d s :
  (∀ q, InQuery s q → query_is_write_capable d q = false → reading_statement s)
  ∧ (∀ e, InSetExpr s e → set_expr_is_write_capable d e = false → reading_statement s)
  ∧ (∀ stmt, InStatement s stmt → classify_statement stmt d = ReadOnly → reading_statement s).
Proof.
  apply executes_ind; try by (intros; simpl in *; split_or; auto).
  - intros ctes q body locks rest Hq _ IH (Hc & _ & _)%query_write_parts. apply IH. by eapply Hc.
  - apply reading_one.
  - intros q _ IH. simpl. by destruct (query_is_write_capable d q) eqn:Hq; [|auto].
Qed.

(** What is not write-capable is not dangerous either. *)
Lemma write_capable_dangerous d :
  ∀ q, query_is_write_capable d q = false → query_is_dangerous d q = false
with set_write_capable_dangerous d :
  ∀ e, set_expr_is_write_capable d e = false → set_expr_is_dangerous d e = false.
Proof.
  - intros [ctes body locks rest]. cbn [query_is_write_capable query_is_dangerous]. intros H.
    apply orb_false_iff in H as [[[Hc Hb]%orb_false_iff Hl]%orb_false_iff Hf].
    unfold query_calls_known_side_effect_function in *. rewrite Hl, Hf, (set_write_capable_dangerous d body Hb), !orb_false_r.
    destruct ctes as [qs|]; [|done]. clear -Hc write_capable_dangerous. induction qs as [|q qs IH]; [done|].
    simpl in *. apply orb_false_iff in Hc as [Hq Hqs]. rewrite (write_capable_dangerous d q Hq). by apply IH.
  - intros [into rest|q|a b rest| | | | | |]; simpl; try done.
    + apply write_capable_dangerous.
    + intros [Ha Hb]%orb_false_iff. by rewrite (set_write_capable_dangerous d a Ha), (set_write_capable_dangerous d b Hb).
Qed.

Lemma reading_not_dangerous d : ∀ s, classify_statement s d = ReadOnly → statement_is_dangerous d s = false.
Proof.
  fix IH 1. intros [q|analyze s| | | | | | | | | | | | | | | | | | | | | | | | | | | | | | | | | |]; try (clear IH; done).
  - simpl. destruct (query_is_write_capable d q) eqn:Hq; [done|]. intros _. by apply write_capable_dangerous.
  - destruct analyze; [exact (IH s)|done].
Qed.

(** The maximum over a script is read-only only if every statement is. *)
Lemma max_risk_read d stmts : max_risk stmts d = ReadOnly ↔ Forall (λ s, classify_statement s d = ReadOnly) stmts.
Proof.
  unfold max_risk. set (f := λ max_risk stmt, _).
  assert (Hstep : ∀ m s, risk_level (f m s) = Nat.max (risk_level m) (risk_level (classify_statement s d))).
  { intros m s. unfold f. cbv zeta. destruct (Nat.ltb_spec (risk_level m) (risk_level (classify_statement s d))); lia. }
  assert (H : ∀ l m, risk_level (fold_left f l m) = 0
                     ↔ risk_level m = 0 ∧ Forall (λ s, risk_level (classify_statement s d) = 0) l).
  { intros l. induction l as [|s l IH]; intros m; simpl; [split; [done|by intros [? _]]|].
    rewrite IH, Hstep, Forall_cons.
    assert (∀ a b, Nat.max a b = 0 ↔ a = 0 ∧ b = 0) as -> by lia. tauto. }
  assert (Hz : ∀ r, risk_level r = 0 ↔ r = ReadOnly) by (by intros []).
  rewrite <-Hz, H. split; [intros [_ Hl]|intros Hl; split; [done|]]; (eapply Forall_impl; [exact Hl|]);
    intros s; by rewrite Hz.
Qed.

Lemma read_risk_read sql database_type first others :
  classify_search_engine_query_risk sql database_type = None →
  parse_sql (resolve_dialect (parser_of database_type)) sql = Some (first :: others) →
  classify_text_for_database sql database_type = Ok ReadOnly →
  sql_contains_top_level_locking_clause sql (resolve_dialect (parser_of database_type)) = false
  ∧ has_dialect_specific_write sql database_type = false
  ∧ ∀ s, executed s (first :: others) → reading_statement s.
Proof.
  intros Hplain Hparsed. unfold classify_text_for_database, classify_sql_risk_with_database. rewrite Hplain, Hparsed.
  cbv zeta. destruct (max_risk _ false) eqn:Hmax; try done. rewrite bool_decide_eq_true_2 by done.
  destruct (has_dialect_specific_write sql database_type); [done|].
  destruct (sql_contains_top_level_locking_clause _ _); [done|]. intros _. split_and!; [done|done|].
  intros s (stmt & Hstmt & Hin). apply max_risk_read in Hmax. rewrite Forall_forall in Hmax.
  by eapply (reading_inside false); [exact Hin|apply Hmax].
Qed.

(** Where SELECT INTO makes no table, a read never needs the permission. *)
Lemma read_risk_harmless sql database_type :
  classify_search_engine_query_risk sql database_type = None →
  supports_select_into_table_creation database_type = false →
  classify_text_for_database sql database_type = Ok ReadOnly → is_dangerous_sql_for_database sql database_type = false.
Proof.
  intros Hplain Hinto. unfold classify_text_for_database, classify_sql_risk_with_database, is_dangerous_sql_for_database.
  rewrite Hplain, Hinto. cbv zeta. destruct (parse_sql _ sql) as [[|first others]|].
  - destruct (is_write_sql_for_database _ _), (sql_contains_top_level_locking_clause _ _); done.
  - destruct (max_risk _ false) eqn:Hmax; try done. rewrite bool_decide_eq_true_2 by done.
    destruct (has_dialect_specific_write sql database_type), (sql_contains_top_level_locking_clause _ _); try done.
    intros _. apply max_risk_read in Hmax. apply not_true_iff_false. intros (s & Hs & Hd)%existsb_exists.
    rewrite Forall_forall in Hmax. apply list_elem_of_In, Hmax, reading_not_dangerous in Hs. congruence.
  - destruct (is_write_sql_for_database _ _), (sql_contains_top_level_locking_clause _ _); done.
Qed.

Lemma read_risk_unparsed sql database_type :
  classify_search_engine_query_risk sql database_type = None →
  (parse_sql (resolve_dialect (parser_of database_type)) sql = None
   ∨ parse_sql (resolve_dialect (parser_of database_type)) sql = Some []) →
  classify_text_for_database sql database_type = Ok ReadOnly ↔
  is_write_sql_for_database sql database_type = false
  ∧ sql_contains_top_level_locking_clause sql (resolve_dialect (parser_of database_type)) = false.
Proof.
  intros Hplain Hp. unfold classify_text_for_database, classify_sql_risk_with_database. rewrite Hplain.
  cbv zeta. rewrite <-orb_false_iff.
  destruct Hp as [-> | ->]; destruct (_ || _); split; done.
Qed.
End verdicts.

(** ** A small parser *)

#[export] Instance ident_eq_dec : EqDecision Ident.
Proof. solve_decision. Defined.
#[export] Instance binary_operator_eq_dec : EqDecision BinaryOperator.
Proof. solve_decision. Defined.
#[export] Instance sql_value_eq_dec : EqDecision SqlValue.
Proof. solve_decision. Defined.

Fixpoint same_expr (a b : Expr nat) : bool :=
  match a, b with
  | Identifier i, Identifier j => bool_decide (i = j)
  | CompoundIdentifier i, CompoundIdentifier j => bool_decide (i = j)
  | ExprValue v, ExprValue w => bool_decide (v = w)
  | Nested a, Nested b | UnaryNot a, UnaryNot b | IsNull a, IsNull b | IsNotNull a, IsNotNull b | IsTrue a, IsTrue b
  | IsNotTrue a, IsNotTrue b | IsFalse a, IsFalse b | IsNotFalse a, IsNotFalse b => same_expr a b
  | BinaryOp a op a', BinaryOp b op' b' => bool_decide (op = op') && same_expr a b && same_expr a' b'
  | IsDistinctFrom a a', IsDistinctFrom b b' | IsNotDistinctFrom a a', IsNotDistinctFrom b b' =>
      same_expr a b && same_expr a' b'
  | InList a l n, InList b l' n' =>
      same_expr a b && Bool.eqb n n'
      && (fix same_list (l l' : list (Expr nat)) : bool :=
            match l, l' with
            | [], [] => true
            | x :: l, y :: l' => same_expr x y && same_list l l'
            | _, _ => false
            end) l l'
  | Between a n lo hi, Between b n' lo' hi' => same_expr a b && Bool.eqb n n' && same_expr lo lo' && same_expr hi hi'
  | Like n any a p esc, Like n' any' b p' esc' | ILike n any a p esc, ILike n' any' b p' esc' =>
      Bool.eqb n n' && Bool.eqb any any' && same_expr a b && same_expr p p' && bool_decide (esc = esc')
  | InSubquery r, InSubquery r' | Exists r, Exists r' | Subquery r, Subquery r' | OtherExpr r, OtherExpr r' => r =? r'
  | Function n r, Function n' r' => bool_decide (n = n') && (r =? r')
  | _, _ => false
  end.

Lemma same_expr_eq : ∀ a b, same_expr a b = true ↔ a = b.
Proof.
  fix IH 1. intros a b. destruct a, b; simpl; try done;
    rewrite ?andb_true_iff, ?bool_decide_eq_true, ?IH, ?Bool.eqb_true_iff, ?Nat.eqb_eq; try (clear IH; naive_solver).
  match goal with |- (_ ∧ ?g items items0 = true) ↔ _ => assert (Hl : g items items0 = true ↔ items = items0) end.
  { revert items0. induction items as [|x l IHl]; intros [|y l']; try done. rewrite andb_true_iff, IH, IHl. clear IH IHl. naive_solver. }
  rewrite Hl. clear IH Hl. naive_solver.
Qed.

Fixpoint visit_exprs (e : Expr nat) : list (Expr nat) :=
  e :: match e with
       | Nested a | UnaryNot a | IsNull a | IsNotNull a | IsTrue a | IsNotTrue a | IsFalse a | IsNotFalse a => visit_exprs a
       | BinaryOp a _ b | IsDistinctFrom a b | IsNotDistinctFrom a b => visit_exprs a ++ visit_exprs b
       | InList a l _ => visit_exprs a ++ List.flat_map visit_exprs l
       | Between a _ lo hi => visit_exprs a ++ visit_exprs lo ++ visit_exprs hi
       | Like _ _ a p _ | ILike _ _ a p _ => visit_exprs a ++ visit_exprs p
       | _ => []
       end.

(** A parser that knows the texts of [table], with an order in which everything
    but equal expressions is kept as it comes. *)
Definition table_parser (table : list (string * list (Statement nat))) : SqlParser :=
  {| Rest := nat;
     parse_sql _ sql := snd <$> List.find (λ '(text, _), text_eqb (c text) sql) table;
     tokenize_sql _ _ := Some [];
     expr_eqb := same_expr;
     expr_leb _ _ := true;
     expressions_of := visit_exprs;
     query_expressions _ := [] |}.

#[export] Instance table_parser_lawful table : @LawfulParser (table_parser table).
Proof.
  split; simpl; intros.
  - apply same_expr_eq.
  - set_solver.
  - set_solver.
  - set_solver.
  - set_solver.
  - set_solver.
Qed.

(** A row of integers: every column holds 7. *)
Fixpoint seven_value (e : Expr nat) : Z :=
  match e with
  | Nested e => seven_value e
  | Identifier _ | CompoundIdentifier _ => 7
  | ExprValue (VNumber s _) => fold_left (λ n x, n * 10 + (Z.of_N x - 48))%Z s 0%Z
  | _ => 0
  end.
Fixpoint seven_holds (e : Expr nat) : bool :=
  match e with
  | Nested e | IsTrue e | IsNotFalse e => seven_holds e
  | UnaryNot e | IsNotTrue e | IsFalse e => negb (seven_holds e)
  | BinaryOp a OpAnd b => seven_holds a && seven_holds b
  | BinaryOp a OpOr b => seven_holds a || seven_holds b
  | BinaryOp a op b =>
      match predicate_comparison_operator op with
      | Some p => comparison_holds p (seven_value a ?= seven_value b)%Z
      | None => false
      end
  | IsNotNull _ => true
  | IsDistinctFrom a b => negb (is_eq (seven_value a ?= seven_value b)%Z)
  | IsNotDistinctFrom a b => is_eq (seven_value a ?= seven_value b)%Z
  | InList e l negated => xorb negated (existsb (λ x, is_eq (seven_value e ?= seven_value x)%Z) l)
  | Between e negated lo hi =>
      xorb negated (negb (is_lt (seven_value e ?= seven_value lo)%Z) && negb (is_gt (seven_value e ?= seven_value hi)%Z))
  | Like false false _ p None | ILike false false _ p None =>
      match strip_nested_expr p with
      | ExprValue (VSingleQuotedString s) => negb (text_eqb s []) && forallb (λ x, (x =? 37)%N) s
      | _ => false
      end
  | _ => false
  end.

Definition seven_row table : @NullFreeRow (table_parser table).
Proof.
  refine {| value_of := seven_value : @Expr (@Rest (table_parser table)) → Z; compare_cells := Z.compare;
            holds_for := seven_holds : @Expr (@Rest (table_parser table)) → bool |};
    try reflexivity.
  - apply Z.compare_refl.
  - intros x y. apply Z.compare_antisym.
  - intros a op b p. by destruct op; try done; intros [= <-].
  - intros e p. unfold like_pattern_matches_all. simpl. by destruct (strip_nested_expr p) as [| | |[]| | | | | | | | | | | | | | | | | | |].
  - intros e p. unfold like_pattern_matches_all. simpl. by destruct (strip_nested_expr p) as [| | |[]| | | | | | | | | | | | | | | | | | |].
Defined.

Definition column (name : string) : Expr nat := Identifier {| ident_value := c name; quote_style := None |}.
Definition number (s : string) : Expr nat := ExprValue (VNumber (c s) false).
Definition users : TableWithJoins nat := {| relation_rest := 0; joins := [] |}.
Definition delete_where (e : Expr nat) : Statement nat := Delete [] [users] None (Some e).
Definition id_is_1 {R} : Expr R := BinaryOp (Identifier {| ident_value := c "id"; quote_style := None |}) OpEq (ExprValue (VNumber (c "1") false)).
Definition id_is_not_1 {R} : Expr R := BinaryOp (Identifier {| ident_value := c "id"; quote_style := None |}) OpNotEq (ExprValue (VNumber (c "1") false)).

(** ** Theorems *)

Section theorems.
Context `{HU : UnicodeCase, HT : SqlTokenizer, HP : SqlParser}.

(** The judgement of WHERE clauses. On every row without NULLs, a predicate
    that is called unbounded holds, unless the code did not judge a part of it:
    one with a subquery, one without a column, or a disjunction with a
    conjunction among its branches. *)
Theorem obviously_unbounded_right `{HL : !LawfulParser} (row : NullFreeRow) e
    (Hunbounded : predicate_is_obviously_unbounded e = true) :
  has_unjudged_part e ∨ holds_for e = true.
Proof. by apply judgements_right. Qed.


(** [DELETE FROM users WHERE NOT (id = 1 AND id <> 1)]. *)
Definition de_morgan_text : text := c "DELETE FROM users WHERE NOT (id = 1 AND id <> 1)".
Definition de_morgan : Expr Rest := UnaryNot (Nested (BinaryOp id_is_1 OpAnd id_is_not_1)).

(** A predicate that holds on every row without NULLs and is not seen: the
    negation of a contradiction in a conjunction. The DELETE needs no permission
    for dangerous statements, although the same rows written as
    [id <> 1 OR id = 1] do. *)
Theorem contradiction_unnoticed `{HL : !LawfulParser} table
    (Hjoins : joins table = [])
    (Hparsed : parse_sql PostgreSqlParser de_morgan_text = Some [Delete [] [table] None (Some de_morgan)])
    (Hlock : sql_contains_top_level_locking_clause de_morgan_text PostgreSqlParser = false) :
  is_dangerous_sql_for_database de_morgan_text Postgres = false
  ∧ (∀ row : NullFreeRow, holds_for de_morgan = true)
  ∧ predicate_is_obviously_unbounded (BinaryOp id_is_not_1 OpOr id_is_1) = true.
Proof.
  assert (Hrefl : ∀ e : Expr Rest, expr_eqb e e = true) by (intros e; by apply expr_eqb_iff).
  split_and!.
  - unfold is_dangerous_sql_for_database.
    change (classify_search_engine_query_risk de_morgan_text Postgres) with (@None SearchEngineQueryRisk).
    change (resolve_dialect (parser_of Postgres)) with PostgreSqlParser. cbv zeta. rewrite Hparsed, Hlock.
    simpl. rewrite Hjoins. unfold de_morgan, id_is_1, id_is_not_1. simpl. visits.
    destruct (expr_eqb _ _) eqn:E; [by apply expr_eqb_iff in E|done].
  - intros row. unfold de_morgan, id_is_1, id_is_not_1. rewrite holds_not, holds_nested, holds_and.
    rewrite (holds_comparison _ OpEq _ CmpEq), (holds_comparison _ OpNotEq _ CmpNotEq) by done. simpl. by destruct (is_eq _).
  - unfold id_is_1, id_is_not_1. simpl. visits. visits. destruct (expr_leb _ _); simpl; by rewrite !Hrefl.
Qed.
End theorems.

(** ** Witnesses *)

Definition no_tokens : SqlTokenizer := {| tokenize _ _ := None |}.
Definition excluded_middle : Expr nat := BinaryOp id_is_1 OpOr (UnaryNot (Nested id_is_1)).

Lemma obviously_unbounded_right_witness :
  @has_unjudged_part (table_parser []) excluded_middle ∨ seven_holds excluded_middle = true.
Proof.
  apply (@obviously_unbounded_right (table_parser []) _ (seven_row []) excluded_middle). vm_compute. reflexivity.
Defined.

Definition delete_user : string := "DELETE FROM users WHERE id = 1".
Definition delete_user_parser : SqlParser := table_parser [(delete_user, [delete_where id_is_1])].


Definition de_morgan_tree : Expr nat := UnaryNot (Nested (BinaryOp id_is_1 OpAnd id_is_not_1)).
Definition de_morgan_parser : SqlParser :=
  table_parser [("DELETE FROM users WHERE NOT (id = 1 AND id <> 1)", [delete_where de_morgan_tree])].

Lemma contradiction_unnoticed_witness :
  @is_dangerous_sql_for_database ascii_case no_tokens de_morgan_parser de_morgan_text Postgres = false.
Proof.
  destruct (@contradiction_unnoticed ascii_case no_tokens de_morgan_parser (table_parser_lawful _) users) as [H _].
  - reflexivity.
  - vm_compute. reflexivity.
  - vm_compute. reflexivity.
  - exact H.
Defined.
