(* ===== verification/AgentContext.v ===== *)
(** * The context of the agent (agent_loop.rs: compaction and tool results)

    What the agent sends to a model: the messages of a conversation, the
    estimate of their tokens (in [f32], as the code computes it), where an older
    part is cut off to be summarized, the summaries, and how a tool result is
    shortened. serde_json's printer and parser are the interface [JsonPrinter].
    The effects of [maybe_compact] are in AgentLoop. *)
From S2P Require Import Prelude RustStr Json F64 SqlText.

Class JsonPrinter : Type := {
  to_json : Value → result string string;         (* serde_json::to_string *)
  to_json_pretty : Value → result string string;  (* serde_json::to_string_pretty *)
  value_to_string : Value → string;               (* Display *)
  parse_json : string → option Value              (* serde_json::from_str(..).ok() *)
}.

(** ** Messages (ai.rs) and tools (agent_events.rs) *)

Record ToolCallRef : Type := {
  id : string; name : string; arguments : Value; provider_payload : option Value
}.
Record AiMessage : Type := {
  role : string; content : string; tool_call_id : option string; tool_calls : list ToolCallRef
}.
Record ToolDefinition : Type := {
  tool_name : string; description : string; parameters : Value; read_only : bool; parallel_ok : bool
}.

(** A message without a tool call. *)
Definition plain_message (role content : string) : AiMessage :=
  {| role := role; content := content; tool_call_id := None; tool_calls := [] |}.
Definition has_role (role' : string) (m : AiMessage) : bool := String.eqb (role m) role'.

Definition MAX_TOOL_RESULT_CONTEXT_CHARS : nat := Z.to_nat 12000.
Definition TOOL_RESULT_HEAD_CHARS : nat := Z.to_nat 4000.
Definition TOOL_RESULT_TAIL_CHARS : nat := Z.to_nat 4000.
Definition TOOL_RESULT_SAMPLE_ITEMS : nat := 5.

Definition char_count (s : string) : nat := List.length (chars s).
(** [s.chars().take(n).collect()] and the last [n] characters. *)
Definition take_chars (n : nat) (s : string) : string := from_chars (take n (chars s)).
Definition last_chars (n : nat) (s : string) : string := from_chars (rev (take n (rev (chars s)))).

(** ** Tokens *)

Definition is_ascii_c (x : N) : bool := (x <? 128)%N.

Definition estimate_text_tokens (text : string) : Z :=
  let chars_count := (Z.of_nat (char_count text) `mod` 2 ^ 32)%Z in
  if (chars_count =? 0)%Z then 0%Z else
  let non_ascii := (Z.of_nat (List.length (List.filter (λ x, negb (is_ascii_c x)) (chars text))) `mod` 2 ^ 32)%Z in
  let alpha := f32_div (f32_of_Z non_ascii) (f32_of_Z chars_count) in
  let ascii_est := f32_ceil (f32_div (f32_of_Z (Z.of_nat (len text))) (f32_lit 35 1)) in
  let nonascii_est := f32_ceil (f32_mul (f32_of_Z chars_count) (f32_lit 12 1)) in
  let estimated :=
    f32_to_u32 (f32_ceil (f32_add (f32_mul ascii_est (f32_sub (f32_of_Z 1) alpha)) (f32_mul nonascii_est alpha))) in
  Z.max estimated 1.

Section estimates.
Context `{JsonPrinter}.

Definition estimate_tool_call (tokens : Z) (tool_call : ToolCallRef) : Z :=
  let tokens := u32_add tokens (u32_add (u32_add (estimate_text_tokens (id tool_call))
                                                  (estimate_text_tokens (name tool_call))) 4) in
  let tokens :=
    match to_json (arguments tool_call) with
    | Ok args => u32_add tokens (estimate_text_tokens args)
    | Err _ => tokens
    end in
  match provider_payload tool_call with
  | Some payload =>
      match to_json payload with
      | Ok payload => u32_add tokens (estimate_text_tokens payload)
      | Err _ => tokens
      end
  | None => tokens
  end.

Definition estimate_message_tokens (message : AiMessage) : Z :=
  let tokens := u32_add (estimate_text_tokens (content message)) 4 in
  let tokens :=
    match tool_call_id message with
    | Some tool_call_id => u32_add tokens (u32_add (estimate_text_tokens tool_call_id) 2)
    | None => tokens
    end in
  fold_left estimate_tool_call (tool_calls message) tokens.

Definition estimate_tokens (messages : list AiMessage) : Z :=
  fold_left u32_add (estimate_message_tokens <$> messages) 0%Z.

Definition estimate_tool (tool : ToolDefinition) : Z :=
  let schema_tokens :=
    match to_json (parameters tool) with Ok schema => estimate_text_tokens schema | Err _ => 0%Z end in
  u32_add (u32_add (u32_add (estimate_text_tokens (tool_name tool)) (estimate_text_tokens (description tool)))
             schema_tokens) 16.
Definition estimate_tool_schema_tokens (tools : list ToolDefinition) : Z :=
  fold_left u32_add (estimate_tool <$> tools) 0%Z.

Definition estimate_current_prompt_tokens (system_prompt : string) (tools : list ToolDefinition)
    (messages : list AiMessage) : Z :=
  u32_add (u32_add (u32_add (estimate_text_tokens system_prompt) (estimate_tool_schema_tokens tools))
             (estimate_tokens messages)) 16.
End estimates.

(** ** Budgets *)

Definition lower `{UnicodeCase} (s : string) : string := from_chars (to_lowercase (chars s)).

Definition context_window_for_model `{UnicodeCase} (model : string) : Z :=
  let m := lower model in
  if contains m "gpt-4.1" then 1000000%Z
  else if contains m "claude" || contains m "o1" || starts_with m "o3" || starts_with m "o4" then 200000%Z
  else if contains m "gpt-4" then 128000%Z
  else if contains m "gemini" then 1000000%Z
  else 128000%Z.

Definition clamp (lo hi x : Z) : Z := if (x <? lo)%Z then lo else if (hi <? x)%Z then hi else x.

Definition prompt_budget (window : Z) (max_tokens : option Z) : Z :=
  let output_reserve := Z.min (default 4096%Z max_tokens) (window / 2) in
  let safety_reserve := Z.min (clamp 2048 16384 (window / 10)) (window / 2) in
  saturating_sub (saturating_sub window output_reserve) safety_reserve.

Definition keep_recent_budget (budget : Z) : Z :=
  if (budget <=? 4096)%Z then (budget / 2)%Z else clamp 4096 50000 (u32_mul budget 6 / 10).

(** ** Where the conversation is cut *)

Definition role_at (messages : list AiMessage) (i : nat) : option string := role <$> messages !! i.

(** The assistant message with the call that message [tool_index] answers: the
    search goes down from [i]. *)
Fixpoint originating_loop (messages : list AiMessage) (tool_call_id : option string) (i : nat) : option nat :=
  match i with
  | 0 => None
  | S i' =>
      match messages !! i' with
      | Some message =>
          if negb (has_role "assistant" message) then originating_loop messages tool_call_id i' else
          match tool_call_id with
          | Some tool_call_id' =>
              if existsb (λ tool_call, String.eqb (id tool_call) tool_call_id') (tool_calls message)
              then Some i' else originating_loop messages tool_call_id i'
          | None =>
              match tool_calls message with
              | _ :: _ => Some i'
              | [] => originating_loop messages tool_call_id i'
              end
          end
      | None => originating_loop messages tool_call_id i'
      end
  end.

Definition find_originating_assistant (messages : list AiMessage) (tool_index : nat) : option nat :=
  message ← messages !! tool_index;
  originating_loop messages (tool_call_id message) tool_index.

(** The loop goes to an earlier message each time: [cut] turns are enough. *)
Fixpoint adjust_cut_loop (fuel : nat) (messages : list AiMessage) (cut : nat) : nat :=
  match fuel with
  | 0 => cut
  | S fuel' =>
      if (cut <? List.length messages) && bool_decide (role_at messages cut = Some "tool") then
        match find_originating_assistant messages cut with
        | None => cut
        | Some origin => if cut <=? origin then cut else adjust_cut_loop fuel' messages origin
        end
      else cut
  end.

Definition adjust_cut_for_tool_pair_integrity (messages : list AiMessage) (cut : nat) : nat :=
  if List.length messages <=? cut then cut else adjust_cut_loop (S cut) messages cut.

Section cut.
Context `{JsonPrinter}.

(** The loop of [maybe_compact] that keeps recent messages: [i] messages are
    left to look at, [cut] is the first one kept. *)
Fixpoint keep_recent (messages : list AiMessage) (keep_recent_tokens recent_tokens : Z) (i cut : nat) : nat :=
  match i with
  | 0 => cut
  | S i' =>
      let t := from_option estimate_message_tokens 0%Z (messages !! i') in
      if (keep_recent_tokens <? u32_add recent_tokens t)%Z && (0 <? i') then i' + 1
      else keep_recent messages keep_recent_tokens (u32_add recent_tokens t) i' i'
  end.

(** The first message that is kept behind the summary. *)
Definition compaction_cut (messages : list AiMessage) (budget : Z) (force : bool) : nat :=
  let keep_recent_tokens := (if force then keep_recent_budget budget / 2 else keep_recent_budget budget)%Z in
  let cut := keep_recent messages keep_recent_tokens 0 (List.length messages) (List.length messages) in
  let cut := if List.length messages <=? cut then List.length messages - 1 else cut in
  adjust_cut_for_tool_pair_integrity messages cut.
End cut.

(** ** Summaries *)

Definition COMPACT_SYSTEM_PROMPT : string :=
  ("You are a conversation summarizer. Produce a concise structured summary of the conversation "
   +:+ "provided. Format:" +:+ newline
   +:+ "## Progress" +:+ newline +:+ "## Key Decisions" +:+ newline +:+ "## Critical Context" +:+ newline
   +:+ "## Next Steps" +:+ newline +:+ "Be factual. No commentary.")%string.

Definition summarize_message_content (content : string) : string :=
  if char_count content <=? Z.to_nat 4000 then content else
  (take_chars 1500 content +:+ newline +:+ newline +:+ "...[middle omitted for summary input]..."
   +:+ newline +:+ newline +:+ last_chars 1500 content)%string.

Definition format_message_for_summary (message : AiMessage) : string :=
  let header := ("[" +:+ role message)%string in
  let header :=
    match tool_call_id message with
    | Some tool_call_id => (header +:+ " tool_call_id=" +:+ tool_call_id)%string
    | None => header
    end in
  let header :=
    match tool_calls message with
    | [] => header
    | calls => (header +:+ " tool_calls=" +:+ join ", " (name <$> calls))%string
    end in
  (header +:+ "]: " +:+ summarize_message_content (content message) +:+ newline)%string.

Definition validate_summary (summary : string) : bool :=
  let trimmed := trim summary in (50 <=? len trimmed) && (len trimmed <=? Z.to_nat 6000).

Definition fallback_summary (messages : list AiMessage) (cut : nat) : string :=
  let compacted_messages := drop 1 (take cut messages) in
  let count P := pretty (List.length (List.filter P compacted_messages)) in
  let recent_roles :=
    join ", " ((λ message, (role message +:+ (if is_empty (content message) then "" else ": content"))%string)
                 <$> take 8 (rev compacted_messages)) in
  join newline
    ["## Progress";
     "- Context summarized by fallback generator because the LLM summary was unavailable or low quality.";
     "## Key Decisions";
     ("- Compacted " +:+ pretty (List.length compacted_messages) +:+ " messages: " +:+ count (has_role "user")
      +:+ " user, " +:+ count (has_role "assistant") +:+ " assistant, " +:+ count (has_role "tool")
      +:+ " tool results, " +:+ count (λ m, match tool_calls m with [] => false | _ => true end)
      +:+ " assistant tool-call messages.")%string;
     "## Critical Context";
     ("- Recent compacted roles: " +:+ recent_roles)%string;
     "## Next Steps";
     "- Continue from the remaining recent conversation and recover any missing detail from tool handles or source paths if needed."].

Definition summary_content (summary : string) : string :=
  ("[SYSTEM-GENERATED CONTEXT SUMMARY - earlier conversation compressed; background only, not a new user request]"
   +:+ newline +:+ newline +:+ summary)%string.

(** [messages.drain(1..cut)] and the insertion of the summary. *)
Definition compacted (messages : list AiMessage) (cut : nat) (summary : string) : list AiMessage :=
  take 1 messages ++ plain_message "user" (summary_content summary) :: drop cut messages.

(** ** Tool results *)

Definition compaction_header (tool_name note body : string) (original_chars : nat) : string :=
  ("[TOOL RESULT COMPACTED FOR CONTEXT]" +:+ newline +:+ "Tool: " +:+ tool_name +:+ newline
   +:+ "Original chars: " +:+ pretty original_chars +:+ newline
   +:+ "Compaction: " +:+ note +:+ " UI events preserve the full result." +:+ newline +:+ newline +:+ body)%string.

Definition compact_text_tool_result (tool_name content : string) : string :=
  compaction_header tool_name "kept the head and tail; middle omitted."
    (take_chars TOOL_RESULT_HEAD_CHARS content +:+ newline +:+ newline
     +:+ "...[middle omitted from tool result context]..." +:+ newline +:+ newline
     +:+ last_chars TOOL_RESULT_TAIL_CHARS content)%string
    (char_count content).

(** The first and the last items of an array. *)
Definition sampled (items : list Value) : list (string * Value) :=
  [("totalItems", Number (pretty (List.length items)));
   ("head", Array (take TOOL_RESULT_SAMPLE_ITEMS items));
   ("tail", Array (rev (take TOOL_RESULT_SAMPLE_ITEMS (rev items))))].

Definition compact_field (object : list (string * Value)) (field : string * Value) : list (string * Value) :=
  match field.2 with
  | Array items =>
      if TOOL_RESULT_SAMPLE_ITEMS * 2 <? List.length items
      then obj_insert object field.1 (Object (sampled items)) else obj_insert object field.1 field.2
  | _ => obj_insert object field.1 field.2
  end.

Definition compact_value (value : Value) : Value :=
  match value with
  | Array items => Object (("type", VString "array") :: sampled items)
  | Object map =>
      let object := obj_insert [] "type" (VString "object") in
      let object := obj_insert object "keys" (Array (VString <$> map.*1)) in
      Object (fold_left compact_field map object)
  | _ => value
  end.

Section tool_results.
Context `{JsonPrinter}.

Definition compact_json_tool_result (tool_name original : string) (value : Value) : string :=
  let compacted := compact_value value in
  let compacted_text :=
    match to_json_pretty compacted with Ok text => text | Err _ => value_to_string compacted end in
  if char_count compacted_text <=? MAX_TOOL_RESULT_CONTEXT_CHARS
  then compaction_header tool_name "parsed JSON with sampled arrays/fields." compacted_text (char_count original)
  else compact_text_tool_result tool_name original.

Definition compact_tool_result_for_context (tool_name content : string) : string :=
  if char_count content <=? MAX_TOOL_RESULT_CONTEXT_CHARS then content
  else match parse_json content with
       | Some value => compact_json_tool_result tool_name content value
       | None => compact_text_tool_result tool_name content
       end.

Definition tool_result_for_followup_context (tool_name content : string) : string :=
  ("[TOOL RESULT - INTERMEDIATE EVIDENCE]" +:+ newline +:+ "Tool: " +:+ tool_name +:+ newline
   +:+ "Use this result to continue the original user task. Do not summarize this tool result as the final answer unless the user explicitly asked for a tool-result or schema summary."
   +:+ newline +:+ newline +:+ compact_tool_result_for_context tool_name content)%string.
End tool_results.

(** ** Characters of the texts *)

Lemma char_count_app a b : utf8 a = true → char_count (a +:+ b) = char_count a + char_count b.
Proof. intros H. unfold char_count. by rewrite chars_app, length_app. Qed.

Section texts.
Context (s : string) (Hs : utf8 s = true).

Lemma utf8_take_chars n : utf8 (take_chars n s) = true.
Proof. apply utf8_from_chars. apply utf8_spec in Hs as [_ H]. by apply Forall_take. Qed.

Lemma char_count_take_chars n : char_count (take_chars n s) ≤ n.
Proof.
  unfold char_count, take_chars. apply utf8_spec in Hs as [_ H].
  rewrite chars_from_chars by (by apply Forall_take). rewrite length_take. lia.
Qed.

Lemma char_count_last_chars n : char_count (last_chars n s) ≤ n.
Proof.
  unfold char_count, last_chars. apply utf8_spec in Hs as [_ H]. rewrite chars_from_chars.
  - rewrite length_rev, length_take. lia.
  - apply Forall_rev, Forall_take. by apply Forall_rev.
Qed.
End texts.

Lemma char_count_header tool_name note body n :
  utf8 tool_name = true → utf8 note = true →
  char_count (compaction_header tool_name note body n)
  = 110 + char_count tool_name + char_count (pretty n) + char_count note + char_count body.
Proof.
  intros Ht Hn. pose proof (utf8_pretty n). unfold compaction_header.
  repeat rewrite char_count_app by first [reflexivity | assumption].
  generalize (char_count tool_name), (char_count note), (char_count body), (char_count (pretty n)).
  intros. vm_compute char_count. lia.
Qed.

(** What the wrapper of a tool result adds in front of it. *)
Definition followup_header (tool_name : string) : string :=
  ("[TOOL RESULT - INTERMEDIATE EVIDENCE]" +:+ newline +:+ "Tool: " +:+ tool_name +:+ newline
   +:+ "Use this result to continue the original user task. Do not summarize this tool result as the final answer unless the user explicitly asked for a tool-result or schema summary."
   +:+ newline +:+ newline)%string.

Lemma followup_header_split `{JsonPrinter} tool_name content :
  tool_result_for_followup_context tool_name content
  = (followup_header tool_name +:+ compact_tool_result_for_context tool_name content)%string.
Proof. unfold tool_result_for_followup_context, followup_header. by rewrite <-!string_app_assoc. Qed.

Lemma followup_header_count tool_name :
  utf8 tool_name = true → utf8 (followup_header tool_name) = true ∧ char_count (followup_header tool_name) = 222 + char_count tool_name.
Proof.
  intros Ht. unfold followup_header. split.
  { repeat (apply utf8_app; [first [assumption | reflexivity]|]). reflexivity. }
  repeat rewrite char_count_app by first [reflexivity | assumption].
  generalize (char_count tool_name). intros. vm_compute char_count. lia.
Qed.

Lemma compact_text_bounded tool_name content :
  utf8 tool_name = true → utf8 content = true →
  char_count (compact_text_tool_result tool_name content)
  ≤ Z.to_nat 8250 + char_count tool_name + char_count (pretty (char_count content)).
Proof.
  intros Ht Hc. unfold compact_text_tool_result. rewrite char_count_header by done.
  pose proof (char_count_take_chars content Hc TOOL_RESULT_HEAD_CHARS) as Hhead.
  pose proof (char_count_last_chars content Hc TOOL_RESULT_TAIL_CHARS) as Htail.
  repeat rewrite char_count_app by first [reflexivity | by apply utf8_take_chars].
  revert Hhead Htail. generalize (char_count (take_chars TOOL_RESULT_HEAD_CHARS content)),
    (char_count (last_chars TOOL_RESULT_TAIL_CHARS content)), (char_count tool_name), (char_count (pretty (char_count content))).
  vm_compute char_count. unfold TOOL_RESULT_HEAD_CHARS, TOOL_RESULT_TAIL_CHARS.
  lia.
Qed.

(** What a tool result adds to the conversation is bounded whatever the tool
    returned and whatever serde_json prints: at most 12,000 characters of result
    and a header that grows with the tool's name only; a result of at most
    12,000 characters is passed on unchanged, and a longer one that is not JSON
    keeps exactly its first and last 4,000 characters. *)
Theorem tool_result_bounded `{JsonPrinter} (tool_name content : string)
    (Ht : utf8 tool_name = true) (Hc : utf8 content = true) :
  char_count (tool_result_for_followup_context tool_name content)
    ≤ Z.to_nat 12400 + 2 * char_count tool_name + char_count (pretty (char_count content))
  ∧ (char_count content ≤ MAX_TOOL_RESULT_CONTEXT_CHARS →
     tool_result_for_followup_context tool_name content = (followup_header tool_name +:+ content)%string)
  ∧ (MAX_TOOL_RESULT_CONTEXT_CHARS < char_count content → parse_json content = None →
     ∃ before between, tool_result_for_followup_context tool_name content
       = (before +:+ take_chars TOOL_RESULT_HEAD_CHARS content +:+ between +:+ last_chars TOOL_RESULT_TAIL_CHARS content)%string).
Proof.
  rewrite followup_header_split. destruct (followup_header_count tool_name Ht) as [Hu Hn].
  rewrite char_count_app, Hn by done. unfold compact_tool_result_for_context.
  assert (MAX_TOOL_RESULT_CONTEXT_CHARS = Z.to_nat 12000) as Hmax by reflexivity.
  pose proof (compact_text_bounded tool_name content Ht Hc) as Htext.
  destruct (Nat.leb_spec (char_count content) MAX_TOOL_RESULT_CONTEXT_CHARS) as [Hle|Hgt].
  - split_and!; [|done|intros; lia]. rewrite Hmax in Hle. lia.
  - split_and!; [|intros; lia|].
    + destruct (parse_json content) as [value|]; [|lia]. unfold compact_json_tool_result. cbv zeta.
      match goal with |- context [char_count ?t <=? _] => destruct (Nat.leb_spec (char_count t) MAX_TOOL_RESULT_CONTEXT_CHARS) as [Hle|] end;
        [|lia].
      rewrite char_count_header by done. rewrite Hmax in Hle.
      change (char_count "parsed JSON with sampled arrays/fields.") with 39. lia.
    + intros _ ->. unfold compact_text_tool_result.
      eexists (followup_header tool_name +:+ compaction_header tool_name "kept the head and tail; middle omitted." "" _)%string,
        (newline +:+ newline +:+ "...[middle omitted from tool result context]..." +:+ newline +:+ newline)%string.
      unfold compaction_header. rewrite <-!string_app_assoc, string_app_nil_l. reflexivity.
Qed.

(** ** Conversations *)

(** [r] is the result of the call [c]. *)
Definition answers (c : ToolCallRef) (r : AiMessage) : Prop :=
  role r = "tool" ∧ tool_call_id r = Some (id c) ∧ tool_calls r = [].

(** What the providers accept: every tool result follows the assistant message
    with its call, every call has its result there, and nothing is between. *)
Inductive conversation : list AiMessage → Prop :=
| conv_nil : conversation []
| conv_plain m ms : role m ≠ "tool" → tool_calls m = [] → conversation ms → conversation (m :: ms)
| conv_turn m results ms :
    role m = "assistant" → tool_calls m ≠ [] → Forall2 answers (tool_calls m) results → conversation ms →
    conversation (m :: results ++ ms).

Lemma conversation_app a b : conversation a → conversation b → conversation (a ++ b).
Proof.
  intros Ha Hb. induction Ha as [|m ms Hr Ht _ IH|m results ms Hr Ht Hf _ IH]; [done|by constructor|].
  rewrite <-app_comm_cons, <-app_assoc. by constructor.
Qed.

(** Position [k] lies between two turns, or inside the turn that starts at [j]. *)
Definition boundary (ms : list AiMessage) (k : nat) : Prop :=
  conversation (take k ms) ∧ conversation (drop k ms) ∧ role_at ms k ≠ Some "tool".
Definition inside (ms : list AiMessage) (j k : nat) : Prop :=
  j < k ∧ boundary ms j ∧
  (∃ m r, ms !! j = Some m ∧ ms !! k = Some r ∧ role m = "assistant" ∧ role r = "tool"
          ∧ ∃ c, c ∈ tool_calls m ∧ tool_call_id r = Some (id c)) ∧
  ∀ i, j < i ≤ k → role_at ms i = Some "tool".

Lemma role_at_answers cs rs i : Forall2 answers cs rs → i < List.length rs → role_at rs i = Some "tool".
Proof.
  intros H Hi. apply lookup_lt_is_Some in Hi as [r Hr]. unfold role_at. rewrite Hr.
  pose proof (Forall2_lookup_r _ _ _ _ _ H Hr) as (c & _ & Hrole & _). by rewrite <-Hrole.
Qed.

Lemma conversation_head m ms : conversation (m :: ms) → role m ≠ "tool".
Proof. inversion 1 as [|? ? ?|? ? ? Hr]; [done|]. rewrite Hr. discriminate. Qed.

Lemma boundary_0 ms : conversation ms → boundary ms 0.
Proof.
  intros H. split_and!; [by constructor|by rewrite drop_0|]. destruct ms as [|m ms]; [done|].
  unfold role_at. simpl. intros [= E]. by apply conversation_head in H.
Qed.

(** Behind a whole turn [a], a position is what it is in the rest. *)
Lemma boundary_app a ms k : conversation a → boundary ms k → boundary (a ++ ms) (List.length a + k).
Proof.
  intros Ha (H1 & H2 & H3). unfold boundary, role_at. rewrite take_app_add, drop_app_add.
  split_and!; [by apply conversation_app|done|]. by rewrite lookup_app_r, Nat.add_sub_swap, Nat.sub_diag by lia.
Qed.

Lemma inside_app a ms j k :
  conversation a → inside ms j k → inside (a ++ ms) (List.length a + j) (List.length a + k).
Proof.
  intros Ha (Hjk & Hb & (m & r & Hj & Hk & Hrest) & Htool). split_and!; [lia|by apply boundary_app| |].
  - exists m, r. split_and!; try apply Hrest; by rewrite lookup_app_r, Nat.add_sub_swap, Nat.sub_diag by lia.
  - intros i Hi. unfold role_at. rewrite lookup_app_r by lia. apply Htool. lia.
Qed.

Lemma conversation_split ms k :
  conversation ms → k ≤ List.length ms → boundary ms k ∨ ∃ j, inside ms j k.
Proof.
  intros H. revert k. induction H as [|m ms Hr Ht H IH|m results ms Hr Ht Hf H IH]; intros k Hk.
  - left. simpl in Hk. replace k with 0 by lia. apply boundary_0. constructor.
  - destruct k as [|k]; [left; apply boundary_0; by constructor|].
    assert (conversation [m]) as Hm by (constructor; [done|done|constructor]).
    destruct (IH k ltac:(simpl in Hk; lia)) as [Hb|[j Hj]].
    + left. by apply (boundary_app [m]).
    + right. exists (1 + j). by apply (inside_app [m]).
  - assert (conversation (m :: results ++ ms)) as Hall by (by constructor).
    destruct k as [|k]; [left; by apply boundary_0|].
    assert (conversation (m :: results)) as Hm.
    { rewrite <-(app_nil_r results). constructor; [done..|constructor]. }
    destruct (decide (k < List.length results)) as [Hlt|Hge].
    + right. exists 0. split_and!; [lia|by apply boundary_0| |].
      * pose proof Hlt as [r Hr']%lookup_lt_is_Some. pose proof (Forall2_lookup_r _ _ _ _ _ Hf Hr') as (c & Hc & Hrole & Hid & _).
        exists m, r. split_and!; [done|simpl; by rewrite lookup_app_l|done|done|].
        exists c. split; [by eapply list_elem_of_lookup_2|done].
      * intros [|i] Hi; [lia|]. unfold role_at. simpl. rewrite lookup_app_l by lia. apply (role_at_answers _ _ _ Hf). lia.
    + rewrite app_comm_cons. replace (S k) with (List.length (m :: results) + (k - List.length results)) by (simpl; lia).
      simpl in Hk. rewrite length_app in Hk. destruct (IH (k - List.length results) ltac:(lia)) as [Hb|[j Hj]].
      * left. by apply boundary_app.
      * right. exists (List.length (m :: results) + j). by apply inside_app.
Qed.

(** ** The cut *)

Lemma originating_in_turn ms j k i r :
  inside ms j k → ms !! k = Some r → j < i ≤ k → originating_loop ms (tool_call_id r) i = Some j.
Proof.
  intros (_ & _ & (m & r' & Hj & Hk & Hm & _ & c & Hc & Hid) & Htool) Hr. simplify_eq.
  induction i as [|i IH]; intros Hi; [lia|]. simpl. destruct (decide (i = j)) as [->|Hne].
  - rewrite Hj. unfold has_role. rewrite Hm, Hid. simpl.
    rewrite (proj2 (existsb_exists _ _)); [done|]. exists c. split; [by apply list_elem_of_In|]. apply String.eqb_refl.
  - assert (role_at ms i = Some "tool") as Hri by (apply Htool; lia). unfold role_at in Hri.
    destruct (ms !! i) as [m'|]; [|done]. injection Hri as Hri. unfold has_role. rewrite Hri. simpl. apply IH. lia.
Qed.

Lemma adjust_cut_boundary ms cut :
  conversation ms → cut ≤ List.length ms →
  let k := adjust_cut_for_tool_pair_integrity ms cut in boundary ms k ∧ (k = cut ∨ inside ms k cut).
Proof.
  intros H Hcut. unfold adjust_cut_for_tool_pair_integrity. cbv zeta.
  assert (∀ j, boundary ms j → ∀ fuel, adjust_cut_loop fuel ms j = j) as Hstop.
  { intros j (_ & _ & Hj) [|fuel]; [done|]. simpl. rewrite bool_decide_eq_false_2 by done. by rewrite andb_false_r. }
  destruct (conversation_split ms cut H Hcut) as [Hb|[j Hj]].
  - destruct (_ <=? cut); rewrite ?Hstop by done; auto.
  - pose proof Hj as (Hjk & Hb & (m & r & _ & Hr & _ & Hrole & _) & _).
    pose proof (lookup_lt_Some _ _ _ Hr) as Hlt. destruct (Nat.leb_spec (List.length ms) cut) as [|_]; [lia|].
    simpl. unfold role_at, find_originating_assistant. rewrite Hr. simpl.
    rewrite (originating_in_turn ms j cut cut r Hj Hr) by lia. rewrite bool_decide_eq_true_2 by (by rewrite Hrole).
    destruct (Nat.ltb_spec cut (List.length ms)); [|lia]. simpl.
    destruct (Nat.leb_spec cut j); [lia|]. rewrite Hstop by done. auto.
Qed.

Section cut_spec.
Context `{JsonPrinter} (messages : list AiMessage).

(** The tokens of messages, without the wrap-around of [u32]. *)
Definition tokens (ms : list AiMessage) : Z := foldr (λ m n, estimate_message_tokens m + n)%Z 0%Z ms.

Lemma u32_add_nonneg a b : (0 ≤ u32_add a b)%Z.
Proof. unfold u32_add. apply Z.mod_pos_bound. lia. Qed.

Lemma estimate_tool_call_nonneg t call : (0 ≤ estimate_tool_call t call)%Z.
Proof.
  unfold estimate_tool_call.
  repeat match goal with |- context [match ?x with _ => _ end] => destruct x end; apply u32_add_nonneg.
Qed.

Lemma estimate_message_nonneg m : (0 ≤ estimate_message_tokens m)%Z.
Proof.
  unfold estimate_message_tokens. cbv zeta.
  assert (∀ l t, (0 ≤ t)%Z → (0 ≤ fold_left estimate_tool_call l t)%Z) as Hf.
  { intros l. induction l as [|x l IH]; intros t Ht; [done|]. apply IH, estimate_tool_call_nonneg. }
  apply Hf. destruct (tool_call_id m); apply u32_add_nonneg.
Qed.

Lemma tokens_drop_S ms i m : ms !! i = Some m → tokens (drop i ms) = (estimate_message_tokens m + tokens (drop (S i) ms))%Z.
Proof. intros Hm. by rewrite (drop_S _ _ _ Hm). Qed.

Lemma tokens_nonneg ms : (0 ≤ tokens ms)%Z.
Proof. induction ms as [|m ms IH]; [done|]. simpl. pose proof (estimate_message_nonneg m). lia. Qed.

Lemma tokens_drop_le ms i : (tokens (drop i ms) ≤ tokens ms)%Z.
Proof.
  revert i. induction ms as [|m ms IH]; intros [|i]; simpl; try done.
  pose proof (estimate_message_nonneg m). pose proof (IH i). lia.
Qed.

Context (Hwidth : (tokens messages < 2 ^ 32)%Z) (budget : Z) (Hbudget : (0 ≤ budget)%Z).

Lemma keep_recent_spec i :
  i ≤ List.length messages → (i = List.length messages ∨ (tokens (drop i messages) ≤ budget)%Z) →
  let k := keep_recent messages budget (tokens (drop i messages)) i i in
  k ≤ i ∧ (k = 0 ∨ 2 ≤ k ∧ (tokens (drop k messages) ≤ budget)%Z ∧ (budget < tokens (drop (k - 1) messages))%Z).
Proof.
  induction i as [|i IH]; intros Hi Hfit; [simpl; auto|]. cbn [keep_recent].
  destruct (lookup_lt_is_Some_2 messages i ltac:(lia)) as [m Hm]. rewrite Hm. cbn [from_option].
  pose proof (tokens_drop_S _ _ _ Hm) as E. pose proof (tokens_drop_le messages i). pose proof (tokens_nonneg (drop (S i) messages)).
  pose proof (estimate_message_nonneg m).
  assert (u32_add (tokens (drop (S i) messages)) (estimate_message_tokens m) = tokens (drop i messages)) as ->.
  { unfold u32_add. rewrite Z.mod_small; lia. }
  destruct (Z.ltb_spec budget (tokens (drop i messages))) as [Hover|Hfits], (Nat.ltb_spec 0 i) as [Hpos|Hzero]; cbn [andb].
  - replace (i + 1) with (S i) by lia. split; [lia|]. right. replace (S i - 1) with i by lia. split_and!; [lia| |done].
    destruct Hfit as [->|]; [|done]. rewrite drop_ge by lia. done.
  - assert (i = 0) as -> by lia. simpl. split; [lia|auto].
  - destruct (IH ltac:(lia) ltac:(auto)) as [Hk Hspec]. split; [lia|]. exact Hspec.
  - destruct (IH ltac:(lia) ltac:(auto)) as [Hk Hspec]. split; [lia|]. exact Hspec.
Qed.
End cut_spec.

(** The budget [compaction_cut] keeps. *)
Definition recent_budget (budget : Z) (force : bool) : Z :=
  if force then (keep_recent_budget budget / 2)%Z else keep_recent_budget budget.

(** What a prompt may take: the window less room for the reply and a reserve;
    neither subtraction saturates. *)
Lemma prompt_budget_spec (window : Z) (max_tokens : option Z) (Hw : (0 ≤ window)%Z) (Hm : (0 ≤ default 4096 max_tokens)%Z) :
  (0 ≤ prompt_budget window max_tokens
   ∧ prompt_budget window max_tokens + Z.min (default 4096 max_tokens) (window / 2)
     + Z.min (clamp 2048 16384 (window / 10)) (window / 2) = window)%Z.
Proof.
  unfold prompt_budget, saturating_sub, clamp. revert Hm. generalize (default 4096%Z max_tokens). intros n Hn.
  repeat match goal with |- context [(?a <? ?b)%Z] => destruct (Z.ltb_spec a b) end;
    Z.to_euclidean_division_equations; lia.
Qed.

Lemma recent_budget_nonneg budget force : (0 ≤ budget)%Z → (0 ≤ recent_budget budget force)%Z.
Proof.
  intros Hb. assert (0 ≤ keep_recent_budget budget)%Z as Hk.
  { unfold keep_recent_budget, clamp.
    repeat match goal with |- context [if ?c then _ else _] => destruct c end;
      first [lia | apply Z.div_pos; [done || (apply Z.mod_pos_bound; lia)|lia]]. }
  unfold recent_budget. destruct force; [apply Z.div_pos; lia|done].
Qed.

(** Where a conversation is cut. The cut never separates a tool result from
    its call: both sides are conversations. What is kept starts at [r], or at
    the assistant message of the turn that [r] is inside of, and from [r] on it
    is everything, the last message, or as many recent messages as fit the
    budget; one more message would not fit. *)
Theorem compaction_cut_exact `{JsonPrinter} (messages : list AiMessage) (budget : Z) (force : bool)
    (Hconv : conversation messages) (Hlen : 2 < List.length messages)
    (Hwidth : (tokens messages < 2 ^ 32)%Z) (Hbudget : (0 ≤ budget)%Z) :
  let k := compaction_cut messages budget force in
  boundary messages k ∧
  ∃ r, r < List.length messages ∧ (k = r ∨ inside messages k r)
       ∧ (r = 0 ∨ (r = List.length messages - 1 ∨ (tokens (drop r messages) ≤ recent_budget budget force)%Z)
                  ∧ (recent_budget budget force < tokens (drop (r - 1) messages))%Z).
Proof.
  unfold compaction_cut. fold (recent_budget budget force). cbv zeta.
  apply (recent_budget_nonneg _ force) in Hbudget. revert Hbudget. generalize (recent_budget budget force). clear budget force.
  intros budget Hbudget.
  set (r0 := keep_recent _ _ _ _ _).
  destruct (keep_recent_spec messages Hwidth budget Hbudget (List.length messages) ltac:(lia) ltac:(auto)) as [Hle Hspec].
  rewrite drop_all in Hle, Hspec. cbn [tokens foldr] in Hle, Hspec. fold r0 in Hle, Hspec.
  set (r := if List.length messages <=? r0 then List.length messages - 1 else r0).
  assert (r < List.length messages ∧ (r = 0 ∨ (r = List.length messages - 1 ∨ (tokens (drop r messages) ≤ budget)%Z)
            ∧ (budget < tokens (drop (r - 1) messages))%Z)) as [Hr Hr'].
  { unfold r. destruct (Nat.leb_spec (List.length messages) r0); [|split; [lia|intuition lia]].
    assert (r0 = List.length messages) as E by lia. rewrite E in Hspec. split; [lia|]. right. split; [by left|].
    destruct Hspec as [|(_ & _ & Hover)]; [lia|].
    destruct (lookup_lt_is_Some_2 messages (List.length messages - 1 - 1) ltac:(lia)) as [m Hm].
    rewrite (tokens_drop_S _ _ _ Hm). replace (S _) with (List.length messages - 1) by lia.
    pose proof (estimate_message_nonneg m). lia. }
  destruct (adjust_cut_boundary messages r Hconv ltac:(lia)) as [Hb Hin]. split; [done|]. exists r. auto.
Qed.

(** A printer and a conversation in which the cut would fall on a tool result. *)
Definition small_printer : JsonPrinter :=
  {| to_json _ := Ok "{}"; to_json_pretty _ := Ok "{}"; value_to_string _ := "{}"; parse_json _ := None |}.
Definition sample_turn : list AiMessage :=
  [plain_message "user" "How many orders?";
   {| role := "assistant"; content := ""; tool_call_id := None;
      tool_calls := [{| id := "t1"; name := "list_tables"; arguments := Object []; provider_payload := None |}] |};
   {| role := "tool"; content := "orders, customers, items"; tool_call_id := Some "t1"; tool_calls := [] |};
   plain_message "assistant" "Counting."].

Lemma sample_turn_conversation : conversation sample_turn.
Proof.
  apply conv_plain; [done..|]. apply (conv_turn _ [_]); [done..| |]; repeat constructor; done.
Qed.

Lemma compaction_cut_exact_witness :
  let k := @compaction_cut small_printer sample_turn 60 false in
  k = 1 ∧ boundary sample_turn k.
Proof.
  split; [vm_compute; reflexivity|].
  apply (@compaction_cut_exact small_printer sample_turn 60 false); [apply sample_turn_conversation|simpl; lia|reflexivity|lia].
Defined.

Lemma tool_result_bounded_witness :
  char_count (@tool_result_for_followup_context small_printer "list_tables" "orders") = 239
  ∧ @tool_result_for_followup_context small_printer "list_tables" "orders" = (followup_header "list_tables" +:+ "orders")%string.
Proof.
  split; [vm_compute; reflexivity|].
  apply (@tool_result_bounded small_printer "list_tables" "orders"); [reflexivity|reflexivity|].
  apply Nat.leb_le. vm_compute. reflexivity.
Defined.
