(* ===== verification/AgentContract.v ===== *)
(** * The task contract of the agent (agent_loop.rs)

    What the caller asked for, the prompt that states it, the check of a final
    answer against it, and the classification of provider errors. *)
From S2P Require Import Prelude RustStr SqlText AgentContext.

(** [AiTaskContract] (ai.rs). *)
Record AiTaskContract : Type := {
  action : option string; mode : option string; user_request : option string
}.

Inductive FinalAnswerCheck : Type := Satisfied | NeedsRepair (reason : string).

(** [matches!(s, a | b | ..)]. *)
Definition one_of (l : list string) (s : string) : bool := existsb (String.eqb s) l.

Definition action_requires_sql_deliverable (action : string) : bool :=
  one_of ["generate"; "optimize"; "fix"; "convert"; "sampledata"] (to_ascii_lowercase action).

(** ** Prompts *)

(** The rule of an action that does not have to produce SQL: the five texts of a prompt. *)
Definition mode_rule (general query exploreschema executeandexplain agent ask : string) (action : string)
    (is_agent_mode : bool) : string :=
  let action := to_ascii_lowercase action in
  if String.eqb action "general" then general
  else if String.eqb action "query" then query
  else if String.eqb action "exploreschema" then exploreschema
  else if String.eqb action "executeandexplain" then executeandexplain
  else if is_agent_mode then agent else ask.

Definition contract_mode_rule (action : string) (is_agent_mode : bool) : string :=
  if action_requires_sql_deliverable action then
    "This is a SQL-producing action: produce the final SQL in a fenced ```sql code block. Use tools only as intermediate evidence for schema/dialect; do not stop at a tool-result summary. In Agent mode, execute a query only when the original request explicitly asks for real data/results, not when it merely asks to generate SQL."
  else
    mode_rule
      "This is a general Q&A mode. Answer the user's question directly and naturally using your knowledge and any available database context. Adapt to the user's intent."
      "This is a data-query task: call execute_query to obtain real results, then answer based on the actual data. Do not stop after merely outputting SQL text."
      "This is a schema-inspection task: use list_tables/get_columns to obtain authoritative structure, then summarize. Do not execute data queries unless the user explicitly asks for data."
      "This is an execute-and-explain task: call execute_query to run the current SQL, then explain the real results."
      "For data-query intents, obtain real results with execute_query when safe; otherwise state the blocker."
      "In Ask mode, produce SQL/explanation only and do not claim execution."
      action is_agent_mode.

Definition repair_mode_rule (action : string) (is_agent_mode : bool) : string :=
  if action_requires_sql_deliverable action then
    "For this SQL-producing action, produce SQL in a fenced ```sql code block. Tool results are evidence only; do not answer by summarizing schema/tool output. Execute a query only when the original request explicitly asks for real data/results."
  else
    mode_rule
      "For this general Q&A, answer the user's question directly and naturally."
      "For this data-query task, call execute_query and answer based on real data; do not stop at SQL text or a schema summary."
      "For this schema-inspection task, summarize real structure from list_tables/get_columns; do not invent columns."
      "For this execute-and-explain task, run the current SQL via execute_query and explain the real results."
      "If the original request asks for real data and it can be answered safely, call execute_query before the final answer."
      "In Ask mode, generate SQL and concise explanation only; do not claim the SQL was executed."
      action is_agent_mode.

Definition augment_system_prompt_with_task_contract (system_prompt : string) (task_contract : option AiTaskContract)
    (is_agent_mode : bool) : string :=
  match task_contract with
  | None => system_prompt
  | Some contract =>
      let action := default "unknown" (action contract) in
      let mode := default (if is_agent_mode then "agent" else "ask") (mode contract) in
      let user_request := default "(not provided)" (user_request contract) in
      join newline
        [system_prompt; ""; "[TASK CONTRACT]";
         ("Original user request: " +:+ user_request)%string; ("Action: " +:+ action)%string; ("Mode: " +:+ mode)%string;
         "Tool results are intermediate evidence. Continue the original task after every tool call; never treat a tool-result summary as the final answer unless the user explicitly requested that summary.";
         contract_mode_rule action is_agent_mode;
         "If the final deliverable cannot be produced safely, state the exact missing information and ask one concise clarification question."]
  end.

Definition build_contract_repair_prompt (task_contract : option AiTaskContract) (is_agent_mode : bool) (reason : string)
    : string :=
  let action := default "unknown" (c ← task_contract; action c) in
  let mode := default (if is_agent_mode then "agent" else "ask") (c ← task_contract; mode c) in
  let user_request := default "(not provided)" (c ← task_contract; user_request c) in
  join newline
    ["[SYSTEM-GENERATED TASK CONTRACT CHECK]";
     "Your previous response did not satisfy the current task contract.";
     ("Issue: " +:+ reason)%string; ("Original user request: " +:+ user_request)%string;
     ("Action: " +:+ action)%string; ("Mode: " +:+ mode)%string; "";
     "Tool results in the conversation are intermediate evidence only. Continue the original user task; do not summarize tool results unless the user explicitly requested a summary.";
     repair_mode_rule action is_agent_mode;
     "Produce a final answer that satisfies the action contract now. If required tables/columns are missing or ambiguous, state exactly what is missing and ask one concise clarification question."].

(** ** The check of an answer *)

(** [s.find(p)], as the text before and the text behind the first occurrence. *)
Fixpoint split_at_first (p s : string) : option (string * string) :=
  match strip_prefix s p with
  | Some rest => Some ("", rest)
  | None =>
      match s with
      | EmptyString => None
      | String a s' => match split_at_first p s' with Some (before, rest) => Some (String a before, rest) | None => None end
      end
  end.

Definition contains_sql_keyword (lower_text : string) : bool :=
  existsb (λ token, one_of ["select"; "with"; "show"; "describe"; "explain"; "insert"; "update"; "delete"; "create"; "alter"]
                      (from_chars token))
    (split_t (λ ch, negb (is_ascii_alphanumeric ch) && negb (ch =? 95)%N) (chars lower_text) []).

(** The loop over the fenced blocks; each turn consumes a block of the text. *)
Fixpoint deliverable_loop (fuel : nat) (rest : string) : bool :=
  match fuel with
  | 0 => false
  | S fuel' =>
      match split_at_first "```" rest with
      | None => false
      | Some (_, after_open) =>
          match split_at_first newline after_open with
          | None => false
          | Some (info, after_info) =>
              match split_at_first "```" after_info with
              | None => false
              | Some (body, rest') =>
                  let info := trim info in
                  if (is_empty info || starts_with info "sql") && contains_sql_keyword body then true
                  else deliverable_loop fuel' rest'
              end
          end
      end
  end.

Definition contains_sql_deliverable (text : string) : bool :=
  let lower := to_ascii_lowercase text in deliverable_loop (S (len lower)) lower.

Definition BLOCKER_MARKERS : list string :=
  ["missing"; "not enough"; "cannot determine"; "can't determine"; "unable to determine"; "which column";
   "please clarify"; "need to know"; "缺少"; "不足"; "无法确定"; "不能确定"; "没有找到"; "未找到"; "请确认"; "请提供";
   "需要明确"; "哪个字段"].
Definition looks_like_blocker_or_clarification (text : string) : bool :=
  let lower := to_ascii_lowercase text in existsb (contains lower) BLOCKER_MARKERS.

Definition CONTRACT_REASON : string :=
  "SQL-producing actions require a final SQL code block, or a concise blocker/clarification when SQL cannot be produced safely.".

Definition validate_final_answer (task_contract : option AiTaskContract) (text : string) : FinalAnswerCheck :=
  match task_contract with
  | None => Satisfied
  | Some contract =>
      let action := default "" (action contract) in
      if action_requires_sql_deliverable action && negb (contains_sql_deliverable text)
         && negb (looks_like_blocker_or_clarification text)
      then NeedsRepair CONTRACT_REASON else Satisfied
  end.

Definition append_contract_failure_note (text reason : string) : string :=
  if is_empty (trim text)
  then ("Unable to produce a contract-compliant final answer: " +:+ reason)%string
  else (text +:+ newline +:+ newline +:+ "Task contract warning: " +:+ reason)%string.

(** ** Errors of a provider *)

Definition is_context_length_error `{UnicodeCase} (error : string) : bool :=
  let lower := lower error in
  existsb (contains lower)
    ["context length"; "context_length"; "maximum context"; "max context"; "token limit"; "too many tokens";
     "prompt is too long"; "input is too long"; "reduce the length"].

Definition is_tool_unsupported_error `{UnicodeCase} (error : string) : bool :=
  let lower := lower error in
  (contains lower "tool" || contains lower "function call")
  && existsb (contains lower)
       ["does not support"; "doesn't support"; "not supported"; "unsupported"; "unknown field"; "unknown parameter";
        "unrecognized field"; "unrecognized parameter"].

(** ** What the check accepts *)

Lemma split_at_first_Some p s before rest :
  split_at_first p s = Some (before, rest) → s = (before +:+ p +:+ rest)%string.
Proof.
  revert before. induction s as [|a s IH]; intros before; cbn [split_at_first].
  - destruct (strip_prefix "" p) eqn:E; [|done]. intros [= <- <-]. by apply strip_prefix_Some in E.
  - destruct (strip_prefix (String a s) p) eqn:E.
    + intros [= <- <-]. by apply strip_prefix_Some in E.
    + destruct (split_at_first p s) as [[b r]|]; [|done]. intros [= <- <-]. simpl. f_equal. by apply IH.
Qed.

Lemma split_at_first_len p s before rest : split_at_first p s = Some (before, rest) → len rest ≤ len s.
Proof. intros ->%split_at_first_Some. rewrite !string_app_length. lia. Qed.

(** A block takes at least the six characters of its fences: the fuel of
    [contains_sql_deliverable] is enough. *)
Lemma deliverable_fuel f1 f2 rest :
  len rest < f1 → len rest < f2 → deliverable_loop f1 rest = deliverable_loop f2 rest.
Proof.
  revert f2 rest. induction f1 as [|f1 IH]; intros f2 rest H1 H2; [lia|]. destruct f2 as [|f2]; [lia|]. cbn [deliverable_loop].
  destruct (split_at_first "```" rest) as [[b1 r1]|] eqn:E1; [|done].
  destruct (split_at_first newline r1) as [[b2 r2]|] eqn:E2; [|done].
  destruct (split_at_first "```" r2) as [[b3 r3]|] eqn:E3; [|done].
  destruct (_ && _); [done|]. apply split_at_first_Some in E1. apply split_at_first_len in E2, E3.
  assert (len r1 < len rest) by (rewrite E1, !string_app_length; simpl; lia). apply IH; lia.
Qed.

(** Only a closed fenced block with a keyword of SQL counts as SQL. *)
Lemma deliverable_sound text :
  contains_sql_deliverable text = true →
  ∃ before info body after,
    to_ascii_lowercase text = (before +:+ "```" +:+ info +:+ newline +:+ body +:+ "```" +:+ after)%string
    ∧ (trim info = "" ∨ starts_with (trim info) "sql" = true) ∧ contains_sql_keyword body = true.
Proof.
  unfold contains_sql_deliverable. generalize (to_ascii_lowercase text). intros s. generalize (S (len s)). intros n. revert s.
  induction n as [|n IH]; intros rest Hfound; cbn [deliverable_loop] in Hfound; [discriminate|].
  destruct (split_at_first "```" rest) as [[b1 r1]|] eqn:E1; [|discriminate].
  destruct (split_at_first newline r1) as [[b2 r2]|] eqn:E2; [|discriminate].
  destruct (split_at_first "```" r2) as [[b3 r3]|] eqn:E3; [|discriminate].
  apply split_at_first_Some in E1 as ->, E2 as ->, E3 as ->.
  destruct ((is_empty (trim b2) || starts_with (trim b2) "sql") && contains_sql_keyword b3) eqn:E.
  - apply andb_true_iff in E as [Ei Eb]. exists b1, b2, b3, r3. split_and!; [done| |done].
    apply orb_true_iff in Ei as [Ei|Ei]; [left|by right]. unfold is_empty in Ei. destruct (trim b2); [reflexivity|discriminate].
  - destruct (IH _ Hfound) as (before & info & body & after & -> & Hinfo & Hbody).
    exists (b1 +:+ "```" +:+ b2 +:+ newline +:+ b3 +:+ "```" +:+ before)%string, info, body, after.
    by rewrite <-!string_app_assoc.
Qed.

Example sql_block : contains_sql_deliverable ("Here:" +:+ newline +:+ "```SQL" +:+ newline +:+ "Select 1" +:+ newline +:+ "```")%string = true.
Proof. vm_compute. reflexivity. Qed.
Example sql_mention : contains_sql_deliverable "for example SELECT COUNT(*) FROM tb_customer" = false.
Proof. vm_compute. reflexivity. Qed.
