(* ===== verification/Prog.v ===== *)
(** * Programs that call their environment

    An [async fn] of the program as a tree: it returns, or it performs a call
    [E B], waits for the answer of type [B] and goes on. What the environment
    answers is not known: [holds] quantifies over all answers, [run] takes them
    from a function of the calls so far. [join_all] is the futures crate's. *)
From S2P Require Import Prelude.

Section prog.
Context {E : Type → Type}.

Inductive prog (A : Type) : Type :=
| Ret (a : A)
| Do {B : Type} (call : E B) (k : B → prog A).
#[global] Arguments Ret {A} a.
#[global] Arguments Do {A B} call k.

Fixpoint prog_bind {A C} (p : prog A) (f : A → prog C) : prog C :=
  match p with Ret a => f a | Do call k => Do call (λ b, prog_bind (k b) f) end.
#[export] Instance prog_mret : MRet prog := λ A a, Ret a.
#[export] Instance prog_mbind : MBind prog := λ A C f p, prog_bind p f.

Definition perform {B} (call : E B) : prog B := Do call Ret.

(** A call with its answer. *)
Inductive event : Type :=
| Ev {B : Type} (call : E B) (answer : B).

(** ** All answers *)

(** [Q] holds of the result and the calls, whatever is answered, when [t] are
    the calls made before. *)
Fixpoint holds {A} (p : prog A) (Q : A → list event → Prop) (t : list event) : Prop :=
  match p with Ret a => Q a t | Do call k => ∀ b, holds (k b) Q (t ++ [Ev call b]) end.

Lemma holds_bind {A C} (p : prog A) (f : A → prog C) Q t :
  holds (prog_bind p f) Q t ↔ holds p (λ a t', holds (f a) Q t') t.
Proof.
  revert t. induction p as [a|B call k IH]; intros t; [done|]. split; intros H b; by apply IH.
Qed.

Lemma holds_mono {A} (p : prog A) (Q R : A → list event → Prop) t :
  holds p Q t → (∀ a t', Q a t' → R a t') → holds p R t.
Proof. intros H HQ. revert t H. induction p as [a|B call k IH]; intros t H; [by apply HQ|]. intros b. apply IH, H. Qed.

Lemma holds_and {A} (p : prog A) (Q R : A → list event → Prop) t :
  holds p Q t → holds p R t → holds p (λ a t', Q a t' ∧ R a t') t.
Proof. revert t. induction p as [a|B call k IH]; intros t HQ HR; [done|]. intros b. by apply IH. Qed.

Lemma holds_grows {A} (p : prog A) t : holds p (λ _ t', t `prefix_of` t') t.
Proof.
  assert (H : ∀ t0 t, t0 `prefix_of` t → holds p (λ _ t', t0 `prefix_of` t') t); [|by apply H].
  clear t. intros t0. induction p as [a|B call k IH]; intros t H0; [done|]. intros b. apply IH. by apply prefix_app_r.
Qed.

Lemma holds_bind' {A C} (p : prog A) (f : A → prog C) Q t :
  holds p (λ a t', t `prefix_of` t' → holds (f a) Q t') t → holds (p ≫= f) Q t.
Proof.
  intros H. unfold mbind, prog_mbind. apply holds_bind. eapply holds_mono; [exact (holds_and _ _ _ _ H (holds_grows p t))|].
  naive_solver.
Qed.

Lemma holds_any {A} (p : prog A) t : holds p (λ _ _, True) t.
Proof. revert t. induction p as [a|B call k IH]; intros t; [done|]. intros b. apply IH. Qed.

(** ** One run *)

Definition answers_of : Type := ∀ B, E B → list event → B.

Fixpoint run (env : answers_of) {A} (p : prog A) (t : list event) : A * list event :=
  match p with
  | Ret a => (a, t)
  | Do call k => let b := env _ call t in run env (k b) (t ++ [Ev call b])
  end.

Lemma holds_run (env : answers_of) {A} (p : prog A) Q t : holds p Q t → Q (run env p t).1 (run env p t).2.
Proof. revert t. induction p as [a|B call k IH]; intros t H; [done|]. apply IH, H. Qed.

(** ** What each call may rely on *)

(** [P seen e]: the call [e] is fine when [seen] were made before. *)
Class Grows (P : list event → event → Prop) : Prop := grows seen seen' e : seen ⊆ seen' → P seen e → P seen' e.

Fixpoint calls_ok (P : list event → event → Prop) {A} (p : prog A) (seen : list event) : Prop :=
  match p with
  | Ret _ => True
  | Do call k => ∀ b, P seen (Ev call b) ∧ calls_ok P (k b) (seen ++ [Ev call b])
  end.
Definition trace_ok (P : list event → event → Prop) (trace : list event) : Prop :=
  ∀ i e, trace !! i = Some e → P (take i trace) e.

Lemma trace_ok_nil P : trace_ok P [].
Proof. intros i e. by rewrite lookup_nil. Qed.

Lemma trace_ok_snoc P trace e : trace_ok P trace → P trace e → trace_ok P (trace ++ [e]).
Proof.
  intros Ht He i x [Hx|[Hi Hx]]%lookup_app_Some.
  - pose proof (lookup_lt_Some _ _ _ Hx). rewrite take_app_le by lia. by apply Ht.
  - apply list_lookup_singleton_Some in Hx as [Hz <-]. replace i with (List.length trace) by lia. by rewrite take_app_length.
Qed.

Section calls.
Context (P : list event → event → Prop) `{!Grows P}.

Lemma calls_ok_mono {A} (p : prog A) seen seen' : seen ⊆ seen' → calls_ok P p seen → calls_ok P p seen'.
Proof.
  revert seen seen'. induction p as [a|B call k IH]; intros seen seen' Hsub H; [done|]. intros b. destruct (H b) as [Hb Hk].
  split; [by eapply grows|]. eapply IH; [|exact Hk]. set_solver.
Qed.

Lemma calls_ok_bind {A C} (p : prog A) (f : A → prog C) seen :
  calls_ok P p seen → (∀ a t, seen ⊆ t → calls_ok P (f a) t) → calls_ok P (prog_bind p f) seen.
Proof.
  revert seen. induction p as [a|B call k IH]; intros seen Hp Hf; [by apply Hf|]. intros b. destruct (Hp b) as [Hb Hk].
  split; [done|]. apply IH; [done|]. intros a t Ht. apply Hf. set_solver.
Qed.

Lemma calls_ok_perform {B} (call : E B) seen : (∀ b, P seen (Ev call b)) → calls_ok P (perform call) seen.
Proof. intros H b. split; [apply H|done]. Qed.

Lemma calls_ok_holds {A} (p : prog A) t : calls_ok P p t → trace_ok P t → holds p (λ _ t', trace_ok P t') t.
Proof.
  revert t. induction p as [a|B call k IH]; intros t Hp Ht; [done|]. intros b. destruct (Hp b). apply IH; [done|].
  by apply trace_ok_snoc.
Qed.
End calls.

(** ** Running programs together *)

Definition result_of {A} (p : prog A) : option A := match p with Ret a => Some a | Do _ _ => None end.
Definition is_running {A} (p : prog A) : bool := match p with Ret _ => false | Do _ _ => true end.

(** The positions of the programs that have not returned. *)
Definition running {A} (ps : list (prog A)) : list nat :=
  omap (λ ip : nat * prog A, if is_running ip.2 then Some ip.1 else None) (imap pair ps).

Fixpoint in_sequence {A} (ps : list (prog A)) : prog (list A) :=
  match ps with
  | [] => Ret []
  | p :: ps' => prog_bind p (λ a, prog_bind (in_sequence ps') (λ l, Ret (a :: l)))
  end.

(** [join_all(futures).await]: each time, [poll] (a call to the scheduler) names
    one of the programs that have not returned, and it makes its next call. The
    fuel bounds the calls that are interleaved; with as much fuel as there are
    calls the programs are interleaved in every possible way. *)
Fixpoint join_all {A} (poll : nat → E nat) (fuel : nat) (ps : list (prog A)) : prog (list A) :=
  match fuel with
  | 0 => in_sequence ps
  | S fuel' =>
      match running ps with
      | [] => in_sequence ps
      | candidates =>
          Do (poll (List.length candidates)) (λ turn,
            let i := nth (turn mod List.length candidates) candidates 0 in
            match ps !! i with
            | Some (Do call k) => Do call (λ b, join_all poll fuel' (<[i := k b]> ps))
            | _ => in_sequence ps
            end)
      end
  end.

Lemma calls_ok_in_sequence P `{!Grows P} {A} (ps : list (prog A)) seen :
  Forall (λ p, calls_ok P p seen) ps → calls_ok P (in_sequence ps) seen.
Proof.
  revert seen. induction ps as [|p ps IH]; intros seen; [done|]. intros [Hp Hps]%Forall_cons.
  apply (calls_ok_bind P); [done|]. intros a t Ht. apply (calls_ok_bind P); [|done]. apply IH.
  eapply Forall_impl; [exact Hps|]. intros q. by apply (calls_ok_mono P).
Qed.

Lemma calls_ok_join_all P `{!Grows P} poll fuel {A} (ps : list (prog A)) seen :
  (∀ t n b, P t (Ev (poll n) b)) → Forall (λ p, calls_ok P p seen) ps → calls_ok P (join_all poll fuel ps) seen.
Proof.
  intros Hpoll. revert ps seen. induction fuel as [|fuel IH]; intros ps seen Hps; [by apply calls_ok_in_sequence|]. cbn [join_all].
  destruct (running ps) as [|i0 l]; [by apply calls_ok_in_sequence|]. intros turn. split; [apply Hpoll|].
  set (seen' := seen ++ [_]). assert (Forall (λ p, calls_ok P p seen') ps) as Hps'.
  { eapply Forall_impl; [exact Hps|]. intros p. apply (calls_ok_mono P). unfold seen'. set_solver. }
  clearbody seen'. clear Hps.
  destruct (ps !! _) as [[a|B call k]|] eqn:E0; [by apply calls_ok_in_sequence| |by apply calls_ok_in_sequence].
  pose proof (Forall_lookup_1 _ _ _ _ Hps' E0) as Hp. intros b. destruct (Hp b) as [Hb Hk]. split; [done|].
  apply IH. apply Forall_insert; [|exact Hk]. eapply Forall_impl; [exact Hps'|]. intros p. apply (calls_ok_mono P). set_solver.
Qed.

(** Whatever the schedule, a property of each program's result holds of the
    result at its position. *)
Fixpoint returns {A} (p : prog A) (R : A → Prop) : Prop :=
  match p with Ret a => R a | Do call k => ∀ b, returns (k b) R end.

Lemma prog_returns_bind {A C} (p : prog A) (f : A → prog C) (R : A → Prop) (Q : C → Prop) :
  returns p R → (∀ a, R a → returns (f a) Q) → returns (prog_bind p f) Q.
Proof. intros Hp Hf. induction p as [a|B call k IH]; [by apply Hf|]. intros b. apply IH, Hp. Qed.

Lemma returns_mono {A} (p : prog A) (R Q : A → Prop) : returns p R → (∀ a, R a → Q a) → returns p Q.
Proof. intros Hp HR. induction p as [a|B call k IH]; [by apply HR|]. intros b. apply IH, Hp. Qed.

Lemma returns_and {A} (p : prog A) (R Q : A → Prop) : returns p R → returns p Q → returns p (λ a, R a ∧ Q a).
Proof. intros HR HQ. induction p as [a|B call k IH]; [done|]. intros b. by apply IH. Qed.

Lemma returns_true {A} (p : prog A) : returns p (λ _, True).
Proof. induction p as [a|B call k IH]; [done|]. intros b. apply IH. Qed.

Lemma holds_returns {A} (p : prog A) (R : A → Prop) t : returns p R → holds p (λ a _, R a) t.
Proof. revert t. induction p as [a|B call k IH]; intros t H; [done|]. intros b. apply IH, H. Qed.

(** The rest of a program only has to be fine for what the first part returns. *)
Lemma calls_ok_bind_returns P {A C} (p : prog A) (f : A → prog C) (R : A → Prop) seen :
  (∀ t, calls_ok P p t) → returns p R → (∀ a t, R a → calls_ok P (f a) t) → calls_ok P (prog_bind p f) seen.
Proof.
  intros Hp Hr Hf. specialize (Hp seen). revert seen Hp Hr. induction p as [a|B call k IH]; intros seen Hp Hr; [by apply Hf|].
  intros b. destruct (Hp b) as [Hb Hk]. split; [done|]. apply IH; [done|apply Hr].
Qed.

(** ** Counting calls *)

(** Whatever is answered, the weights of the calls sum up to at most [n]. *)
Fixpoint cost_le (w : event → nat) (n : nat) {A} (p : prog A) : Prop :=
  match p with
  | Ret _ => True
  | Do call k => ∀ b, w (Ev call b) ≤ n ∧ cost_le w (n - w (Ev call b)) (k b)
  end.
Definition total (w : event → nat) (t : list event) : nat := foldr (λ e n, w e + n) 0 t.

Lemma total_app w t t' : total w (t ++ t') = total w t + total w t'.
Proof. unfold total. induction t as [|e t IH]; simpl; [done|]. rewrite IH. lia. Qed.

Lemma cost_le_mono w n m {A} (p : prog A) : n ≤ m → cost_le w n p → cost_le w m p.
Proof.
  revert n m. induction p as [a|B call k IH]; intros n m Hnm H; [done|]. intros b. destruct (H b) as [Hb Hk].
  split; [lia|]. eapply IH; [|exact Hk]. lia.
Qed.

Lemma cost_le_bind w n m {A C} (p : prog A) (f : A → prog C) :
  cost_le w n p → (∀ a, cost_le w m (f a)) → cost_le w (n + m) (prog_bind p f).
Proof.
  revert n. induction p as [a|B call k IH]; intros n Hp Hf; [eapply cost_le_mono; [|apply Hf]; lia|].
  intros b. destruct (Hp b) as [Hb Hk]. split; [lia|]. replace (n + m - w (Ev call b)) with (n - w (Ev call b) + m) by lia.
  by apply IH.
Qed.

Lemma cost_le_run w n (env : answers_of) {A} (p : prog A) t : cost_le w n p → total w (run env p t).2 ≤ total w t + n.
Proof.
  revert n t. induction p as [a|B call k IH]; intros n t H; simpl; [lia|]. destruct (H (env B call t)) as [Hb Hk].
  etrans; [apply (IH _ _ _ Hk)|]. rewrite total_app. simpl. lia.
Qed.

Lemma in_sequence_returns {A C} (R : C → A → Prop) (cs : list C) (ps : list (prog A)) :
  Forall2 (λ c p, returns p (R c)) cs ps → returns (in_sequence ps) (Forall2 R cs).
Proof.
  induction 1 as [|c p cs ps Hp _ IH]; [constructor|]. simpl. eapply prog_returns_bind; [exact Hp|]. intros a Ha.
  eapply prog_returns_bind; [exact IH|]. intros l Hl. by constructor.
Qed.

Lemma join_all_returns {A C} (R : C → A → Prop) (cs : list C) poll fuel (ps : list (prog A)) :
  Forall2 (λ c p, returns p (R c)) cs ps → returns (join_all poll fuel ps) (Forall2 R cs).
Proof.
  revert ps. induction fuel as [|fuel IH]; intros ps Hps; [by apply in_sequence_returns|]. cbn [join_all].
  destruct (running ps) as [|i0 l]; [by apply in_sequence_returns|]. intros turn.
  destruct (ps !! _) as [[a|B call k]|] eqn:E0; [by apply in_sequence_returns| |by apply in_sequence_returns].
  intros b. apply IH. match type of E0 with _ !! ?j = _ => generalize dependent j end. intros i E0.
  pose proof (Forall2_lookup_r _ _ _ _ _ Hps E0) as (c & Hc & Hret).
  rewrite <-(list_insert_id cs i c Hc). apply Forall2_insert; [done|]. apply Hret.
Qed.

(** A program that ends after at most [n] calls. *)
Fixpoint ends_within {A} (n : nat) (p : prog A) : Prop :=
  match p with Ret _ => True | Do call k => match n with 0 => False | S n' => ∀ b, ends_within n' (k b) end end.
End prog.
Arguments prog E A : clear implicits.
Arguments event E : clear implicits.
Arguments answers_of E : clear implicits.

(** ** Running a program on a state *)

Section interp.
Context {E : Type → Type} {S : Type} (h : ∀ B, E B → S → B * S).

Fixpoint interp {A} (p : prog E A) (s : S) : A * S :=
  match p with Ret a => (a, s) | Do call k => let '(b, s') := h _ call s in interp (k b) s' end.

Lemma interp_bind {A C} (p : prog E A) (f : A → prog E C) s :
  interp (p ≫= f) s = let '(a, s') := interp p s in interp (f a) s'.
Proof.
  revert s. induction p as [a|B call k IH]; intros s; [done|]. unfold mbind, prog_mbind in *. cbn [prog_bind interp].
  destruct (h B call s). apply IH.
Qed.

Lemma interp_assoc {A C D} (p : prog E A) (f : A → prog E C) (g : C → prog E D) s :
  interp (prog_bind (prog_bind p f) g) s = interp (prog_bind p (λ a, prog_bind (f a) g)) s.
Proof.
  pose proof (@interp_bind) as Hb. unfold mbind, prog_mbind in Hb. rewrite !Hb. destruct (interp p s) as [a s1]. by rewrite Hb.
Qed.

Lemma interp_perform {B A} (call : E B) (f : B → prog E A) s :
  interp (perform call ≫= f) s = let '(b, s') := h _ call s in interp (f b) s'.
Proof. rewrite interp_bind. simpl. by destruct (h B call s). Qed.
End interp.

(** Exposes the next call of a program. *)
Ltac prog_simpl := unfold perform, mbind, prog_mbind, mret, prog_mret; cbn [prog_bind].
