(* ===== verification/AgentTools.v ===== *)
(** * The tools of the agent (agent_tools.rs)

    The permissions of one run, and what each tool does with a call of the
    model: which SQL reaches the database, and the text that goes back. The
    calls to the database layer are the operations [ToolE]; the tools ask SqlRisk
    through its interface [RiskClassifier], and the SQL writers are [ToolText].
    ProductionSafety decides what counts as production and SqlGuard builds the
    EXPLAIN statements. *)
From S2P Require Import Prelude RustStr Json ListIndex SqlText SqlSplit SqlGuard SqlRisk ProductionSafety AgentContext Prog.

Definition LIST_TABLES_LIMIT : nat := 200.
Definition EXECUTE_QUERY_LIMIT : nat := 50.
Definition SAMPLE_DATA_LIMIT : nat := 20.
Definition BROWSE_COLLECTION_LIMIT : nat := 20.
Definition MAX_ALLOWED_ROWS : nat := 100.

(** [ToolCall] (agent_events.rs) has the four fields of [ToolCallRef]. *)
Abbreviation ToolCall := ToolCallRef (only parsing).

Record ToolResult : Type := {
  result_call_id : string; result_tool_name : string; result_content : string; is_error : bool;
  explain_data : option Value
}.

(** ** Permissions *)

Record AgentSqlPermissions : Type := {
  allow_writes : bool; allow_dangerous : bool; confirmed_write_sql : option string
}.
Definition no_permissions : AgentSqlPermissions :=
  {| allow_writes := false; allow_dangerous := false; confirmed_write_sql := None |}.

Definition confirmed_write_sql_permissions (production_database allow_write_sql : bool) (confirmed : option string)
    : AgentSqlPermissions :=
  let confirmed := match confirmed with Some sql => if is_empty (trim sql) then None else Some sql | None => None end in
  let write_sql_confirmed := negb production_database && allow_write_sql && bool_decide (is_Some confirmed) in
  {| allow_writes := write_sql_confirmed; allow_dangerous := write_sql_confirmed;
     confirmed_write_sql := if write_sql_confirmed then confirmed else None |}.

Definition verify_confirmed_target (allow_write_sql : option bool)
    (confirmed confirmed_connection_id confirmed_database confirmed_schema : option string)
    (actual_connection_id actual_database : string) (actual_schema : option string) : option bool * option string :=
  match confirmed with
  | None => (allow_write_sql, confirmed)
  | Some _ =>
      let target_mismatch :=
        bool_decide (confirmed_connection_id ≠ Some actual_connection_id)
        || bool_decide (confirmed_database ≠ Some actual_database) || bool_decide (confirmed_schema ≠ actual_schema) in
      if target_mismatch then (Some false, None) else (allow_write_sql, confirmed)
  end.

Definition sql_risk_allowed (risk : SqlRisk) (permissions : AgentSqlPermissions) : bool :=
  match risk with
  | ReadOnly => true
  | Write => allow_writes permissions
  | Ddl => allow_dangerous permissions
  | Transaction => false
  end.

Definition normalize_sql_for_confirmation (sql : string) : string := trim sql.
Definition sql_matches_confirmed_write (executed_sql : string) (confirmed : option string) : bool :=
  match confirmed with
  | None => true
  | Some confirmed => String.eqb (normalize_sql_for_confirmation executed_sql) (normalize_sql_for_confirmation confirmed)
  end.
Definition truncate_sql_for_error (sql : string) : string :=
  let s := trim sql in if char_count s <=? 120 then s else (take_chars 117 s +:+ "...")%string.

(** ** The tools a model is offered *)

(** A JSON schema of an object, from its properties (name, type, description). *)
Definition object_schema (properties : list (string * string * string)) (required : list string) : Value :=
  Object [("type", VString "object");
          ("properties", Object ((λ '(key, kind, text), (key, Object [("type", VString kind); ("description", VString text)]))
                                   <$> properties));
          ("required", Array (VString <$> required))].
Definition read_tool (tool_name description : string) (parameters : Value) (parallel_ok : bool) : ToolDefinition :=
  {| tool_name := tool_name; description := description; parameters := parameters; read_only := true;
     parallel_ok := parallel_ok |}.

Definition list_tables_tool : ToolDefinition :=
  read_tool "list_tables" "List all tables and views in the current database. Returns table names, types, and comments."
    (object_schema [("schema", "string", "Schema name to list tables from (optional, defaults to current database)")] []) true.
Definition get_columns_tool : ToolDefinition :=
  read_tool "get_columns"
    "Get column definitions for a table: names, types, primary keys, nullable, defaults, and comments. Use this when the user asks about table structure, column details, or field information — even if some schema context was provided, this tool returns the authoritative and complete column list."
    (object_schema [("table", "string", "Table name to get columns for");
                    ("schema", "string", "Schema name (optional, defaults to current database)")] ["table"]) false.
Definition execute_query_tool (sql_permissions : AgentSqlPermissions) : ToolDefinition :=
  read_tool "execute_query"
    (if allow_dangerous sql_permissions then
       "Execute SQL after the user explicitly confirmed this operation. Read queries, writes, and DDL are allowed for this run."
     else if allow_writes sql_permissions then
       "Execute SQL after the user explicitly confirmed this operation. Read queries and non-DDL writes are allowed for this run."
     else
       "Execute a read-only SQL query and return results (max 50 rows). Only SELECT, WITH, SHOW, DESCRIBE, EXPLAIN statements are allowed. Write operations (INSERT/UPDATE/DELETE/DDL) are blocked.")
    (object_schema [("sql", "string", "The SQL query to execute"); ("limit", "number", "Max rows to return (default 50, max 100)");
                    ("client_session_id", "string", "Opaque DBX session handle that pins this query to the same backend connection as earlier queries in the session (preserves USE/SET/session state). Managed by DBX; agents should not invent values.")]
       ["sql"]) false.
Definition get_sample_data_tool : ToolDefinition :=
  read_tool "get_sample_data" "Get sample rows from a table to understand its data. Returns up to 20 rows."
    (object_schema [("table", "string", "Table name"); ("schema", "string", "Schema name (optional)");
                    ("limit", "number", "Max rows (default 20)")] ["table"]) true.
Definition explain_query_tool : ToolDefinition :=
  read_tool "explain_query"
    "Get the execution plan for a SQL query using EXPLAIN. Shows how the database will execute the query (scan type, indexes, cost). Only read-only queries (SELECT, WITH, SHOW, DESCRIBE, EXPLAIN) are allowed. Use this to analyze query performance and suggest index optimizations."
    (object_schema [("sql", "string", "The SQL query to explain (must be read-only)")] ["sql"]) true.
Definition list_collections_tool : ToolDefinition :=
  read_tool "list_collections" "List all collections in the current vector database. Returns collection names and dimensions."
    (object_schema [] []) true.
Definition browse_collection_tool : ToolDefinition :=
  read_tool "browse_collection"
    "Browse documents in a collection. Returns up to 20 items with payload/metadata (vectors excluded for compactness). For ChromaDB, use the collection id (UUID from list_collections) instead of the collection name."
    (object_schema [("collection", "string", "Collection name"); ("limit", "number", "Max items to return (default 20, max 100)")]
       ["collection"]) true.

Definition is_vector_db (db_type : DatabaseType) : bool :=
  match db_type with Qdrant | Milvus | Weaviate | ChromaDb => true | _ => false end.

Definition read_only_tools (db_type : DatabaseType) : list ToolDefinition :=
  if is_vector_db db_type then [list_collections_tool] else [list_tables_tool; get_columns_tool].

Definition all_tools (db_type : DatabaseType) (sql_permissions : AgentSqlPermissions) : list ToolDefinition :=
  if is_vector_db db_type then [list_collections_tool; browse_collection_tool]
  else
    [list_tables_tool; get_columns_tool]
    ++ (if supports_sql_query db_type then [execute_query_tool sql_permissions; get_sample_data_tool] else [])
    ++ (if supports_explain_plan (Some db_type) then [explain_query_tool] else []).

(** ** The database layer *)

(** What the tools read of the records of types.rs and vector_driver.rs. *)
Record TableInfo : Type := { table_name : string; table_type : string; table_comment : option string }.
Record ColumnInfo : Type := {
  column_name : string; data_type : string; is_nullable : bool; column_default : option string;
  is_primary_key : bool; extra : option string; column_comment : option string
}.
Record CollectionInfo : Type := { collection_name : string; collection_id : string; dimension : option Z }.
Record QueryResult : Type := {
  columns : list string; rows : list (list Value); execution_time_ms : Z; truncated : bool
}.
Record QueryExecutionOptions : Type := {
  max_rows : option nat; timeout_secs : option nat; client_session_id : option string
}.

(** Where the tools work: the connection, the database and the selected schema. *)
Record Target : Type := {
  connection_id : string; database : string; default_schema : option string; target_db_type : DatabaseType
}.

Inductive ToolE : Type → Type :=
| ListTablesCore (t : Target) (schema : string) (limit : nat) : ToolE (result (list TableInfo) string)
| GetColumnsCore (t : Target) (schema table : string) : ToolE (result (list ColumnInfo) string)
| ConnectionOf (connection_id : string) : ToolE (option ProductionConfig)
| ExecuteSql (t : Target) (sql : string) (schema : option string) (options : QueryExecutionOptions)
    : ToolE (result QueryResult string)
| OracleExplain (t : Target) (sql : string) : ToolE (result string string)
| ListCollections (t : Target) : ToolE (result (list CollectionInfo) string).

Class ToolText : Type := {
  build_table_data_select_sql : DatabaseType → option string → string → nat → string;
  path_segment : string → string;
  query_value : string → string;
  query_result_value : QueryResult → option Value
}.

(** ** Arguments *)

(** [arguments.get(key).and_then(as_str)]. *)
Definition string_argument (tool_call : ToolCall) (key : string) : option string :=
  match arguments tool_call with Object fields => v ← obj_get fields key; as_str v | _ => None end.

(** [Value::as_u64] of a number kept as its token. *)
Definition as_u64 (v : Value) : option Z :=
  match v with Number token => if negb (is_empty token) && all_digits token then parse_usize token else None | _ => None end.

Definition limit_argument (tool_call : ToolCall) (default_limit : nat) : nat :=
  match arguments tool_call with
  | Object fields =>
      match (v ← obj_get fields "limit"; as_u64 v) with
      | Some l => Nat.min (Z.to_nat (Z.min l (Z.of_nat MAX_ALLOWED_ROWS))) MAX_ALLOWED_ROWS
      | None => default_limit
      end
  | _ => default_limit
  end.

Definition non_blank (s : option string) : option string :=
  match s with Some s => let s := trim s in if is_empty s then None else Some s | None => None end.

Definition effective_schema (tool_call : ToolCall) (default_schema : option string) : option string :=
  match non_blank default_schema with
  | Some schema => Some schema
  | None => non_blank (string_argument tool_call "schema")
  end.

Definition has_unlikely_character (table : string) : bool :=
  contains table ";" || contains table "'" || contains table dquote || contains table "\".

(** ** Texts for the model *)

Definition table_line (comment_prefix : string) (table : TableInfo) : string :=
  let line := ("- " +:+ table_name table +:+ " (" +:+ table_type table +:+ ")")%string in
  match table_comment table with
  | Some comment => let trimmed := trim comment in if is_empty trimmed then line else (line +:+ comment_prefix +:+ trimmed)%string
  | None => line
  end.

Definition list_tables_text (tables : list TableInfo) : string :=
  let total := List.length tables in
  let truncated := LIST_TABLES_LIMIT <? total in
  let display_count := if truncated then LIST_TABLES_LIMIT else total in
  let lines := table_line " -- " <$> take display_count tables in
  let lines :=
    if truncated then lines ++ [("... (showing 200 of " +:+ pretty total +:+ " tables)")%string] else lines in
  match lines with [] => "No tables found in this database/schema." | _ => join newline lines end.

Definition column_line (col : ColumnInfo) : string :=
  let flags :=
    (if is_primary_key col then ["PK"] else [])
    ++ [if is_nullable col then "nullable" else "NOT NULL"]
    ++ (match column_default col with Some d => if is_empty d then [] else [("default " +:+ d)%string] | None => [] end)
    ++ (match extra col with Some x => if is_empty x then [] else [x] | None => [] end) in
  let flags_str := match flags with [] => "" | _ => (" (" +:+ join ", " flags +:+ ")")%string end in
  let comment_str :=
    match column_comment col with
    | Some c => if is_empty (trim c) then "" else (" -- " +:+ trim c)%string
    | None => ""
    end in
  ("  - " +:+ column_name col +:+ ": " +:+ data_type col +:+ flags_str +:+ comment_str)%string.

(** The characters whose byte offset is below [limit]. *)
Fixpoint chars_below (limit offset : nat) (l : list N) : list N :=
  match l with x :: l' => if offset <? limit then x :: chars_below limit (offset + len_utf8 x) l' else [] | [] => [] end.

Section tools.
Context `{HU : UnicodeCase, HT : SqlTokenizer, HR : RegexEngine, HJ : JsonPrinter, HC : RiskClassifier, HX : ToolText}.
Context (t : Target).

Definition cell_text (v : Value) : string :=
  match v with
  | Null => "NULL"
  | VString s => if 200 <? len s then (from_chars (chars_below 200 0 (chars s)) +:+ "...")%string else s
  | other => value_to_string other
  end.

Definition format_query_result_as_text (r : QueryResult) (limit : nat) : string :=
  match rows r with
  | [] => "Query returned 0 rows."
  | _ =>
      join newline
        ([("| " +:+ join " | " (columns r) +:+ " |")%string;
          ("|" +:+ join "|" ((λ _, "---") <$> columns r) +:+ "|")%string]
         ++ ((λ row, ("| " +:+ join " | " (cell_text <$> row) +:+ " |")%string) <$> rows r)
         ++ (if truncated r || (limit <=? List.length (rows r))
             then [("... (showing " +:+ pretty (List.length (rows r)) +:+ " rows, result may be truncated)")%string] else [])
         ++ [("(" +:+ pretty (List.length (rows r)) +:+ " rows, " +:+ pretty (execution_time_ms r) +:+ "ms)")%string])
  end.

(** ** The tools *)

Definition execute_list_tables (tool_call : ToolCall) : prog ToolE (result string string) :=
  let schema := default "" (effective_schema tool_call (default_schema t)) in
  tables ← perform (ListTablesCore t schema (LIST_TABLES_LIMIT + 1));
  Ret (match tables with
       | Ok tables => Ok (list_tables_text tables)
       | Err e => Err ("Failed to list tables: " +:+ e)%string
       end).

Definition execute_get_columns (tool_call : ToolCall) : prog ToolE (result string string) :=
  match string_argument tool_call "table" with
  | None => Ret (Err "Missing required parameter: table")
  | Some table =>
      let table := trim table in
      if is_empty table then Ret (Err "Table name cannot be empty")
      else if 256 <? len table then Ret (Err ("Table name too long: " +:+ pretty (len table) +:+ " characters (max 256)")%string)
      else if has_unlikely_character table then Ret (Err ("Table name contains invalid characters: '" +:+ table +:+ "'")%string)
      else
        let schema := default "" (effective_schema tool_call (default_schema t)) in
        columns ← perform (GetColumnsCore t schema table);
        Ret (match columns with
             | Err e => Err ("Failed to get columns for " +:+ table +:+ ": " +:+ e)%string
             | Ok [] => Ok ("No columns found for table '" +:+ table +:+ "'.")%string
             | Ok columns => Ok (join newline (("Columns of " +:+ table +:+ ":")%string :: (column_line <$> columns)))
             end)
  end.

Definition production_blocked : string :=
  "Blocked: AI agents cannot execute writes or DDL on a production database. Return the SQL for the user to review and execute manually in DBX.".

(** The checks in front of a statement: [None] lets it through. *)
Definition query_blocked (risk : SqlRisk) (config : option ProductionConfig) (sql : string)
    (sql_permissions : AgentSqlPermissions) : option string :=
  if bool_decide (risk ≠ ReadOnly)
     && match config with
        | Some config => targets_production_database config (chars (database t)) (chars sql)
        | None => false
        end
  then Some production_blocked
  else if negb (sql_risk_allowed risk sql_permissions) then
    if bool_decide (risk = Transaction)
    then Some "Blocked: transaction control statements are not available to the AI agent."
    else Some ("Blocked: " +:+ risk_to_string risk +:+ " statement detected. Ask the user to confirm the proposed database change before executing it.")%string
  else if bool_decide (risk ≠ ReadOnly) && negb (sql_matches_confirmed_write sql (confirmed_write_sql sql_permissions)) then
    Some ("Blocked: the executed SQL does not match the user-confirmed SQL." +:+ newline
          +:+ "Confirmed: " +:+ truncate_sql_for_error (default "" (confirmed_write_sql sql_permissions)) +:+ newline
          +:+ "Attempted: " +:+ truncate_sql_for_error sql)%string
  else None.

Definition execute_execute_query (schema : option string) (tool_call : ToolCall) (sql_permissions : AgentSqlPermissions)
    : prog ToolE (result string string) :=
  match string_argument tool_call "sql" with
  | None => Ret (Err "Missing required parameter: sql")
  | Some sql =>
      let sql := trim sql in
      if is_empty sql then Ret (Err "SQL query cannot be empty")
      else
        let limit := limit_argument tool_call EXECUTE_QUERY_LIMIT in
        match classify_sql_risk_for_database sql (target_db_type t) with
        | Err e => Ret (Err e)
        | Ok risk =>
            config ← perform (ConnectionOf (connection_id t));
            match query_blocked risk config sql sql_permissions with
            | Some reason => Ret (Err reason)
            | None =>
                let options := {| max_rows := Some limit; timeout_secs := Some 30;
                                  client_session_id := non_blank (string_argument tool_call "client_session_id") |} in
                r ← perform (ExecuteSql t sql schema options);
                Ret (match r with Ok r => Ok (format_query_result_as_text r limit) | Err e => Err e end)
            end
        end
  end.

Definition execute_get_sample_data (tool_call : ToolCall) : prog ToolE (result string string) :=
  match string_argument tool_call "table" with
  | None => Ret (Err "Missing required parameter: table")
  | Some table =>
      let table := trim table in
      if is_empty table then Ret (Err "Table name cannot be empty")
      else if has_unlikely_character table then Ret (Err ("Table name contains invalid characters: '" +:+ table +:+ "'")%string)
      else
        let schema := effective_schema tool_call (default_schema t) in
        let limit := limit_argument tool_call SAMPLE_DATA_LIMIT in
        let sql := build_table_data_select_sql (target_db_type t) schema table limit in
        let synthetic_call :=
          {| id := id tool_call; name := "execute_query";
             arguments := Object [("sql", VString sql); ("limit", Number (pretty limit))]; provider_payload := None |} in
        execute_execute_query schema synthetic_call no_permissions
  end.

Definition execute_explain_query (tool_call : ToolCall) : prog ToolE (result string string * option Value) :=
  match string_argument tool_call "sql" with
  | None => Ret (Err "Missing required parameter: sql", None)
  | Some sql =>
      let sql := trim sql in
      if is_empty sql then Ret (Err "SQL query cannot be empty", None)
      else
        match classify_sql_risk_for_database sql (target_db_type t) with
        | Err e => Ret (Err e, None)
        | Ok ReadOnly =>
            if bool_decide (target_db_type t = Oracle) then
              plan ← perform (OracleExplain t sql);
              Ret (match plan with Ok plan => (Ok plan, Some (VString plan)) | Err e => (Err e, None) end)
            else
              let explain_result := build_explain_sql (mk_explain_options (Some (target_db_type t)) None (chars sql)) in
              match ok explain_result, explain_sql explain_result with
              | true, Some explain_sql =>
                  let options := {| max_rows := Some 100; timeout_secs := Some 30; client_session_id := None |} in
                  r ← perform (ExecuteSql t (from_chars explain_sql) (default_schema t) options);
                  Ret (match r with
                       | Ok r => (Ok (format_query_result_as_text r 100), query_result_value r)
                       | Err e => (Err e, None)
                       end)
              | true, None => Ret (Err "EXPLAIN SQL is empty", None)
              | false, _ =>
                  Ret (Err ("Cannot explain this query: " +:+ default "unknown" (reason explain_result)
                            +:+ ". The database type may not support EXPLAIN, or the query may be unsafe.")%string, None)
              end
        | Ok risk =>
            Ret (Err ("Blocked: " +:+ risk_to_string risk +:+ " statement detected. Only read-only queries (SELECT, SHOW, DESCRIBE, EXPLAIN) can be analyzed.")%string, None)
        end
  end.

Definition collection_line (c : CollectionInfo) : string :=
  ("- " +:+ collection_name c +:+ " (COLLECTION)"
   +:+ (match dimension c with Some dim => (" -- " +:+ pretty dim +:+ "d")%string | None => "" end)
   +:+ " [id: " +:+ collection_id c +:+ "]")%string.

Definition execute_list_collections : prog ToolE (result string string) :=
  collections ← perform (ListCollections t);
  Ret (match collections with
       | Err e => Err ("Failed to list collections: " +:+ e)%string
       | Ok [] => Ok "No collections found."
       | Ok collections =>
           let lines := collection_line <$> collections in
           let lines :=
             if LIST_TABLES_LIMIT <? List.length lines
             then take LIST_TABLES_LIMIT lines
                  ++ [("... (showing 200 of " +:+ pretty (List.length collections) +:+ " collections)")%string]
             else lines in
           Ok (join newline lines)
       end).

Definition build_browse_query (collection database : string) (limit : nat) : result string string :=
  let collection := trim collection in
  if is_empty collection then Err "Collection name cannot be empty"
  else
    let limit := pretty (Nat.max limit 1) in
    match target_db_type t with
    | Qdrant =>
        Ok ("POST /collections/" +:+ path_segment collection +:+ "/points/scroll" +:+ newline
            +:+ value_to_string (Object [("limit", Number limit); ("with_payload", Bool true); ("with_vector", Bool false)]))%string
    | Milvus =>
        Ok ("POST /v2/vectordb/entities/query" +:+ newline
            +:+ value_to_string (Object [("dbName", VString (if is_empty database then "default" else database));
                                         ("collectionName", VString collection); ("filter", VString "");
                                         ("limit", Number limit)]))%string
    | Weaviate => Ok ("GET /v1/objects?class=" +:+ query_value collection +:+ "&limit=" +:+ limit)%string
    | ChromaDb =>
        Ok ("POST /api/v2/tenants/default_tenant/databases/default_database/collections/" +:+ collection +:+ "/get" +:+ newline
            +:+ value_to_string (Object [("limit", Number limit);
                                         ("include", Array [VString "documents"; VString "metadatas"])]))%string
    | d => Err ("Unsupported database type: " +:+ database_type_debug d)%string
    end.

Definition is_ascii_hexdigit (x : N) : bool :=
  is_ascii_digit x || (97 <=? x)%N && (x <=? 102)%N || (65 <=? x)%N && (x <=? 70)%N.
Definition is_uuid (s : string) : bool :=
  (len s =? 36) && (List.length (List.filter (N.eqb 45) (chars s)) =? 4)
  && forallb (λ x, is_ascii_hexdigit x || (x =? 45)%N) (chars s).

Definition resolve_chroma_collection_uuid (name : string) : prog ToolE (result string string) :=
  collections ← perform (ListCollections t);
  Ret (match collections with
       | Err e => Err e
       | Ok collections =>
           match List.find (λ c, String.eqb (collection_name c) name) collections with
           | Some c => Ok (collection_id c)
           | None => Err ("Collection '" +:+ name +:+ "' not found")%string
           end
       end).

Definition execute_browse_collection (tool_call : ToolCall) : prog ToolE (result string string) :=
  match string_argument tool_call "collection" with
  | None => Ret (Err "Missing required parameter: collection")
  | Some collection =>
      let collection := trim collection in
      if is_empty collection then Ret (Err "Collection name cannot be empty")
      else
        let limit := limit_argument tool_call BROWSE_COLLECTION_LIMIT in
        collection_id ← (if bool_decide (target_db_type t = ChromaDb) && negb (is_uuid collection)
                         then resolve_chroma_collection_uuid collection else Ret (Ok collection));
        match collection_id with
        | Err e => Ret (Err e)
        | Ok collection_id =>
            match build_browse_query collection_id (database t) limit with
            | Err e => Ret (Err e)
            | Ok query =>
                let options := {| max_rows := Some limit; timeout_secs := Some 30; client_session_id := None |} in
                r ← perform (ExecuteSql t query None options);
                Ret (match r with Ok r => Ok (format_query_result_as_text r limit) | Err e => Err e end)
            end
        end
  end.

Definition tool_result (tool_call : ToolCall) (r : result string string) (data : option Value) : ToolResult :=
  match r with
  | Ok content =>
      {| result_call_id := id tool_call; result_tool_name := name tool_call; result_content := content;
         is_error := false; explain_data := data |}
  | Err err =>
      {| result_call_id := id tool_call; result_tool_name := name tool_call; result_content := ("Error: " +:+ err)%string;
         is_error := true; explain_data := None |}
  end.

Definition execute_tool (tool_call : ToolCall) (sql_permissions : AgentSqlPermissions) : prog ToolE ToolResult :=
  let finish (p : prog ToolE (result string string)) : prog ToolE ToolResult :=
    r ← p; Ret (tool_result tool_call r None) in
  if String.eqb (name tool_call) "list_tables" then finish (execute_list_tables tool_call)
  else if String.eqb (name tool_call) "get_columns" then finish (execute_get_columns tool_call)
  else if String.eqb (name tool_call) "execute_query"
  then finish (execute_execute_query (default_schema t) tool_call sql_permissions)
  else if String.eqb (name tool_call) "get_sample_data" then finish (execute_get_sample_data tool_call)
  else if String.eqb (name tool_call) "list_collections" then finish execute_list_collections
  else if String.eqb (name tool_call) "browse_collection" then finish (execute_browse_collection tool_call)
  else if String.eqb (name tool_call) "explain_query" then
    r ← execute_explain_query tool_call; Ret (tool_result tool_call r.1 r.2)
  else finish (Ret (Err ("Unknown tool: " +:+ name tool_call)%string)).
End tools.

(** ** What reaches the database *)

Section safety.
Context `{HU : UnicodeCase, HT : SqlTokenizer, HR : RegexEngine, HJ : JsonPrinter, HC : RiskClassifier, HX : ToolText}.

(** Why a statement may be sent: the query as it is, after its checks against
    the configuration that was read before, an EXPLAIN of a read, or the page of
    a collection. *)
Inductive justified (permissions : AgentSqlPermissions) (seen : list (event ToolE)) (t : Target) (sql : string) : Prop :=
| just_query risk config :
    classify_sql_risk_for_database sql (target_db_type t) = Ok risk →
    Ev (ConnectionOf (connection_id t)) config ∈ seen →
    query_blocked t risk config sql permissions = None →
    justified permissions seen t sql
| just_explain source explained :
    classify_sql_risk_for_database source (target_db_type t) = Ok ReadOnly →
    explain_sql (build_explain_sql (mk_explain_options (Some (target_db_type t)) None (chars source))) = Some explained →
    sql = from_chars explained →
    justified permissions seen t sql
| just_browse collection limit :
    build_browse_query t collection (database t) limit = Ok sql → justified permissions seen t sql.

Definition tool_call_ok (permissions : AgentSqlPermissions) (seen : list (event ToolE)) (e : event ToolE) : Prop :=
  match e with Ev call _ => match call with ExecuteSql t sql _ _ => justified permissions seen t sql | _ => True end end.

#[export] Instance tool_call_ok_grows permissions : Grows (tool_call_ok permissions).
Proof.
  intros seen seen' [B call b] Hsub. destruct call; try done. simpl. intros [risk config Hr Hc Hb|source ex Hs He ->|col lim Hq].
  - eapply just_query; [exact Hr|by apply Hsub|exact Hb].
  - by eapply just_explain.
  - by eapply just_browse.
Qed.

(** What [no_permissions] lets through, every grant does. *)
Lemma query_blocked_no_permissions t risk config sql permissions :
  query_blocked t risk config sql no_permissions = None → query_blocked t risk config sql permissions = None.
Proof.
  unfold query_blocked. destruct (bool_decide (risk ≠ ReadOnly) && _); [done|].
  destruct risk; [|discriminate..]. intros _. by rewrite (bool_decide_eq_false_2 (ReadOnly ≠ ReadOnly)) by auto.
Qed.

Context (t : Target) (permissions : AgentSqlPermissions).
Let fine {A} (p : prog ToolE A) : Prop := ∀ seen, calls_ok (tool_call_ok permissions) p seen.

Lemma tool_ok_bind {A C} (p : prog ToolE A) (f : A → prog ToolE C) : fine p → (∀ a, fine (f a)) → fine (prog_bind p f).
Proof. intros Hp Hf seen. apply (calls_ok_bind (tool_call_ok permissions)); [apply Hp|]. intros a t' _. apply Hf. Qed.

Lemma execute_query_ok schema tool_call granted :
  (∀ risk config sql, query_blocked t risk config sql granted = None → query_blocked t risk config sql permissions = None) →
  fine (execute_execute_query t schema tool_call granted).
Proof.
  intros Hgrant seen. unfold execute_execute_query. destruct (string_argument tool_call "sql") as [sql|]; [|done].
  destruct (is_empty (trim sql)); [done|].
  destruct (classify_sql_risk_for_database (trim sql) (target_db_type t)) as [risk|e] eqn:Hrisk; [|done].
  prog_simpl. intros config. split; [done|]. destruct (query_blocked t risk config (trim sql) granted) eqn:Hb; [done|].
  prog_simpl. intros r. split; [|by destruct r]. eapply just_query; [exact Hrisk| |by apply Hgrant]. set_solver.
Qed.

Lemma execute_explain_ok tool_call : fine (execute_explain_query t tool_call).
Proof.
  intros seen. unfold execute_explain_query. destruct (string_argument tool_call "sql") as [sql|]; [|done].
  destruct (is_empty (trim sql)); [done|].
  destruct (classify_sql_risk_for_database (trim sql) (target_db_type t)) as [[]|e] eqn:Hrisk; try done.
  destruct (bool_decide (target_db_type t = Oracle)); [prog_simpl; intros plan; split; [done|by destruct plan]|].
  cbv zeta. set (built := build_explain_sql _). destruct (SqlGuard.ok built); [|by destruct (explain_sql built)].
  destruct (explain_sql built) as [explained|] eqn:He; [|done].
  prog_simpl. intros r. split; [|by destruct r]. by eapply just_explain.
Qed.

Lemma execute_browse_ok tool_call : fine (execute_browse_collection t tool_call).
Proof.
  intros seen. unfold execute_browse_collection. destruct (string_argument tool_call "collection") as [col|]; [|done].
  destruct (is_empty (trim col)); [done|].
  apply tool_ok_bind.
  - intros seen'. destruct (_ && _); [|done]. unfold resolve_chroma_collection_uuid. prog_simpl. intros l. split; [done|]. by destruct l.
  - intros [cid|e] seen'; [|done]. destruct (build_browse_query t cid (database t) _) as [query|e] eqn:Hq; [|done].
    prog_simpl. intros r. split; [|by destruct r]. by eapply just_browse.
Qed.

Lemma execute_tool_ok tool_call : fine (execute_tool t tool_call permissions).
Proof.
  assert (∀ p : prog ToolE (result string string), fine p → fine (prog_bind p (λ r, Ret (tool_result tool_call r None)))) as Hfinish.
  { intros p Hp. apply tool_ok_bind; [done|done]. }
  unfold execute_tool. cbv zeta.
  repeat match goal with |- context [if String.eqb (name tool_call) ?n then _ else _] => destruct (String.eqb (name tool_call) n) end;
    try apply Hfinish.
  - intros seen. unfold execute_list_tables, execute_list_collections. prog_simpl. intros r. split; [done|]. by destruct r.
  - intros seen. unfold execute_get_columns. destruct (string_argument _ _); [|done].
    repeat match goal with |- context [if ?c then _ else _] => destruct c; [done|] end. prog_simpl. intros r. split; [done|]. by destruct r as [[]|].
  - by apply execute_query_ok.
  - intros seen. unfold execute_get_sample_data. destruct (string_argument _ _); [|done].
    repeat match goal with |- calls_ok _ (if ?c then _ else _) _ => destruct c; [done|] end.
    apply execute_query_ok. intros risk config sql. apply query_blocked_no_permissions.
  - intros seen. unfold execute_list_tables, execute_list_collections. prog_simpl. intros r. split; [done|]. by destruct r as [[]|].
  - apply execute_browse_ok.
  - apply tool_ok_bind; [apply execute_explain_ok|done].
  - done.
Qed.

(** What a grant built from a confirmation lets through. *)
Lemma query_passes risk config sql production_database allow_write_sql confirmed :
  query_blocked t risk config sql (confirmed_write_sql_permissions production_database allow_write_sql confirmed) = None →
  risk = ReadOnly
  ∨ (risk = Write ∨ risk = Ddl) ∧ production_database = false ∧ allow_write_sql = true
    ∧ (∃ c, confirmed = Some c ∧ trim c ≠ "" ∧ trim sql = trim c)
    ∧ ∀ cfg, config = Some cfg → targets_production_database cfg (chars (database t)) (chars sql) = false.
Proof.
  unfold query_blocked, confirmed_write_sql_permissions. cbv zeta.
  destruct (decide (risk = ReadOnly)) as [->|Hrisk]; [by left|]. right.
  rewrite (bool_decide_eq_true_2 (risk ≠ ReadOnly)) in * by done. cbn [andb] in *.
  assert (∀ cfg, config = Some cfg → targets_production_database cfg (chars (database t)) (chars sql) = false) as Hprod.
  { intros cfg ->. by destruct (targets_production_database _ _ _). }
  destruct (match config with Some _ => _ | None => _ end) in *; [done|].
  destruct confirmed as [c|]; [destruct (is_empty (trim c)) eqn:Hc|]; destruct production_database, allow_write_sql, risk;
    cbn in *; try done.
  all: destruct (String.eqb_spec (normalize_sql_for_confirmation sql) (normalize_sql_for_confirmation c)) as [Heq|]; [|done].
  all: split_and!; auto; exists c; split_and!; [done| |exact Heq]; by destruct (trim c).
Qed.

(** A result goes back under the identity of its call. *)
Lemma execute_tool_returns tool_call :
  returns (execute_tool t tool_call permissions) (λ r, result_call_id r = id tool_call ∧ result_tool_name r = name tool_call).
Proof.
  assert (∀ r data, result_call_id (tool_result tool_call r data) = id tool_call
                    ∧ result_tool_name (tool_result tool_call r data) = name tool_call) as Hr by (by intros [] ?).
  assert (∀ p : prog ToolE (result string string),
            returns (prog_bind p (λ r, Ret (tool_result tool_call r None)))
              (λ r, result_call_id r = id tool_call ∧ result_tool_name r = name tool_call)) as Hfinish.
  { intros p. eapply prog_returns_bind; [apply returns_true|]. intros r _. apply Hr. }
  unfold execute_tool. cbv zeta.
  repeat match goal with |- context [if String.eqb (name tool_call) ?n then _ else _] => destruct (String.eqb (name tool_call) n) end;
    try apply Hfinish.
  eapply prog_returns_bind; [apply returns_true|]. intros r _. apply Hr.
Qed.
End safety.
