(* ===== verification/AgentLoop.v ===== *)
(** * The agent loop (agent_loop.rs)

    [run_agent_loop]: ask the model, run the tools it calls, feed the results
    back, until it answers, is cancelled, fails or runs out of turns; with the
    compaction of the context, the repair of answers that miss the task contract
    and the text-only fallback. The model, the user's cancellation, the database
    and the front end are behind the calls [Call]; [tokio::select!] is a call
    whose answer says which branch won. The agents that run as external commands
    (Codex, Claude Code, Pi) are one call. *)
From S2P Require Import Prelude RustStr Json F64 SqlText SqlSplit SqlGuard SqlRisk ProductionSafety AgentContext AgentContract Prog AgentTools.

Definition DEFAULT_MAX_AGENT_TURNS : Z := 30.
Definition MIN_MAX_AGENT_TURNS : Z := 5.
Definition MAX_MAX_AGENT_TURNS : Z := 500.
Definition MAX_CONTRACT_REPAIR_ATTEMPTS : nat := 2.
Definition clamp_max_agent_turns (value : Z) : Z := clamp MIN_MAX_AGENT_TURNS MAX_MAX_AGENT_TURNS value.

(** ** Data *)

Inductive AiProvider : Type :=
| Claude | AnthropicCompatible | Openai | Gemini | Deepseek | Qwen | MiniMax | Ollama | OpenaiCompatible
| CodexCli | ClaudeCodeCli | PiAgentCli | Custom.
#[export] Instance ai_provider_eq_dec : EqDecision AiProvider.
Proof. solve_decision. Defined.

(** What the loop reads of [AiConfig]; the rest is for the HTTP client. *)
Record AiConfig : Type := { provider : AiProvider; model : string; context_window : option Z }.

Record AiCompletionRequest : Type := {
  req_config : AiConfig; req_system_prompt : string; req_messages : list AiMessage;
  req_task_contract : option AiTaskContract; req_max_tokens : option Z
}.
Record AiStreamChunk : Type := { delta : string; reasoning_delta : option string }.
Record TokenUsage : Type := { input_tokens : Z; output_tokens : Z }.
Definition usage_add (self other : TokenUsage) : TokenUsage :=
  {| input_tokens := u32_add (input_tokens self) (input_tokens other);
     output_tokens := u32_add (output_tokens self) (output_tokens other) |}.

Inductive AgentEvent : Type :=
| TurnStart (turn : nat)
| TextDelta (delta : string)
| ReasoningDelta (delta : string)
| ToolCallStart (tool_call_id tool_name : string) (args : Value)
| ToolCallEnd (tool_call_id tool_name : string) (result : Value) (is_error : bool)
| TurnEnd (turn : nat)
| AgentEnd (input_tokens output_tokens : option Z)
| ContextCompacted (summary : string) (summary_tokens : Z) (compacted_messages : nat) (estimated_before estimated_after : Z).

Inductive LoopExit : Type := Completed | Cancelled | Interrupted (error : string) | Exhausted.
Definition should_break_turns (e : LoopExit) : bool := match e with Cancelled | Interrupted _ => true | _ => false end.
Inductive CompactResult : Type := CompactSkipped | Compacted | CompactCancelled.
Inductive FunctionCallingSupport : Type := Supported | Unsupported | Unknown.

Record AgentLoopContext : Type := {
  target : Target; sql_permissions : AgentSqlPermissions; max_agent_turns : Z
}.

Definition AGENT_CANCELLED_ERROR : string := "Agent loop cancelled".

(** ** Calls *)

Inductive Call : Type → Type :=
| Tool {B : Type} (call : ToolE B) : Call B
| Poll (candidates : nat) : Call nat
| CancelRequested : Call bool                       (* cancelled.notified().now_or_never().is_some() *)
| CancelWins : Call bool                            (* select! with a branch that is ready at once *)
| OllamaToolSupport (config : AiConfig) : Call (option (result (option bool) string))
| Complete (request : AiCompletionRequest) : Call (option (result string string))
| Stream (session_id : string) (request : AiCompletionRequest) (tools : list ToolDefinition)
    : Call (list AiStreamChunk * result (list ToolCallRef * option TokenUsage) string)
| CliAgent (config : AiConfig) (system_prompt : string) (messages : list AiMessage) (permissions : AgentSqlPermissions)
    (is_agent_mode : bool) : Call (result string string)
| Emit (e : AgentEvent) : Call unit.

Abbreviation agent := (prog Call) (only parsing).
Definition on_event (e : AgentEvent) : agent unit := perform (Emit e).
Fixpoint on_events (l : list AgentEvent) : agent unit :=
  match l with [] => Ret () | e :: l' => _ ← on_event e; on_events l' end.

(** A tool's calls, as calls of the loop. *)
Fixpoint lift_tool {A} (p : prog ToolE A) : agent A :=
  match p with Ret a => Ret a | Do call k => Do (Tool call) (λ b, lift_tool (k b)) end.

Definition chunk_to_events (chunk : AiStreamChunk) : list AgentEvent :=
  (if is_empty (delta chunk) then [] else [TextDelta (delta chunk)])
  ++ match reasoning_delta chunk with Some reasoning => [ReasoningDelta reasoning] | None => [] end.
(** What [on_chunk] leaves in [emitted_any_chunk] and [accumulated_text]. *)
Definition emits (chunk : AiStreamChunk) : bool := negb (is_empty (delta chunk)) || bool_decide (is_Some (reasoning_delta chunk)).
Definition accumulated (chunks : list AiStreamChunk) : string := String.concat "" (delta <$> chunks).

Definition is_cli (p : AiProvider) : bool := match p with CodexCli | ClaudeCodeCli | PiAgentCli => true | _ => false end.

Section loop.
Context `{HU : UnicodeCase, HT : SqlTokenizer, HR : RegexEngine, HJ : JsonPrinter, HC : RiskClassifier, HX : ToolText}.
Context (config : AiConfig) (agent_ctx : AgentLoopContext) (max_tokens : option Z) (is_agent_mode : bool).

(** [None]: the cancellation won. *)
Definition provider_function_calling_support : agent (option FunctionCallingSupport) :=
  if negb (bool_decide (provider config = Ollama)) then
    cancelled ← perform CancelWins; Ret (if (cancelled : bool) then None else Some Supported)
  else
    support ← perform (OllamaToolSupport config);
    Ret (match support with
         | None => None
         | Some (Ok (Some true)) => Some Supported
         | Some (Ok (Some false)) => Some Unsupported
         | Some (Ok None) | Some (Err _) => Some Unknown
         end).

(** ** Compaction *)

Definition summary_request (conversation_text : string) : AiCompletionRequest :=
  {| req_config := config; req_system_prompt := COMPACT_SYSTEM_PROMPT;
     req_messages := [plain_message "user" ("<conversation>" +:+ newline +:+ conversation_text +:+ "</conversation>" +:+ newline
                                        +:+ newline +:+ "Summarize the above.")%string];
     req_task_contract := None; req_max_tokens := Some 1024%Z |}.

Definition maybe_compact (system_prompt : string) (tools : list ToolDefinition) (messages : list AiMessage) (force : bool)
    : agent (CompactResult * list AiMessage) :=
  let window := default (context_window_for_model (model config)) (context_window config) in
  let budget := prompt_budget window max_tokens in
  let estimated_before := estimate_current_prompt_tokens system_prompt tools messages in
  if negb force && (estimated_before <=? budget)%Z then Ret (CompactSkipped, messages)
  else if List.length messages <=? 2 then Ret (CompactSkipped, messages)
  else
    let cut := compaction_cut messages budget force in
    if cut <=? 1 then Ret (CompactSkipped, messages)
    else
      let conversation_text := String.concat "" (format_message_for_summary <$> drop 1 (take cut messages)) in
      cancelled ← perform CancelRequested;
      if (cancelled : bool) then Ret (CompactCancelled, messages) else
      answer ← perform (Complete (summary_request conversation_text));
      match answer with
      | None => Ret (CompactCancelled, messages)
      | Some answer =>
          let summary := match answer with Ok s => s | Err _ => fallback_summary messages cut end in
          let summary := if validate_summary summary then summary else fallback_summary messages cut in
          let messages' := compacted messages cut summary in
          _ ← on_event (ContextCompacted (summary_content summary) (u32_add (estimate_text_tokens summary) 4) (cut - 1)
                          estimated_before (estimate_current_prompt_tokens system_prompt tools messages'));
          Ret (Compacted, messages')
      end.

(** ** The text-only fallback *)

Definition schema_line (t : TableInfo) : string :=
  ("  - " +:+ table_name t +:+ " (" +:+ table_type t +:+ ")"
   +:+ (match table_comment t with
        | Some comment => if is_empty (trim comment) then "" else (" — " +:+ trim comment)%string
        | None => ""
        end) +:+ newline)%string.

Definition build_schema_prompt (system_prompt : string) : agent string :=
  let t := target agent_ctx in
  tables ← perform (Tool (ListTablesCore t (default "" (default_schema t)) 50));
  Ret (match tables with
       | Ok ((_ :: _) as tables) =>
           (system_prompt +:+ newline +:+ newline +:+ "## Database Schema (for context — no tools available)" +:+ newline
            +:+ "Database: " +:+ database t +:+ newline
            +:+ (match default_schema t with Some schema => ("Schema: " +:+ schema +:+ newline)%string | None => "" end)
            +:+ "Tables:" +:+ newline +:+ String.concat "" (schema_line <$> tables))%string
       | _ =>
           (system_prompt +:+ newline +:+ newline +:+ "(Note: Unable to load database schema for this request.)" +:+ newline)%string
       end).

Definition cancelled_message : string := "Agent run was cancelled before producing output.".

(** The attempts that are [left]. *)
Fixpoint text_only_loop (contract : option AiTaskContract) (left : nat) (request : AiCompletionRequest)
    : agent (result string string) :=
  match left with
  | 0 => Ret (Err "Text-only agent fallback failed to produce a final answer")
  | S left' =>
      answer ← perform (Complete request);
      match answer with
      | None => _ ← on_event (AgentEnd None None); Ret (Ok cancelled_message)
      | Some (Err e) => Ret (Err e)
      | Some (Ok text) =>
          match validate_final_answer contract text with
          | Satisfied => _ ← on_event (TextDelta text); _ ← on_event (AgentEnd None None); Ret (Ok text)
          | NeedsRepair reason =>
              if 0 <? left' then
                text_only_loop contract left'
                  {| req_config := req_config request; req_system_prompt := req_system_prompt request;
                     req_messages := req_messages request
                       ++ [plain_message "assistant" text;
                           plain_message "user" (build_contract_repair_prompt contract false reason)];
                     req_task_contract := req_task_contract request; req_max_tokens := req_max_tokens request |}
              else
                let message := append_contract_failure_note text reason in
                _ ← on_event (TextDelta message); _ ← on_event (AgentEnd None None); Ret (Ok message)
          end
      end
  end.

Definition run_agent_loop_text_only (system_prompt : string) (messages : list AiMessage) (contract : option AiTaskContract)
    : agent (result string string) :=
  enriched_prompt ← build_schema_prompt system_prompt;
  cancelled ← perform CancelRequested;
  if (cancelled : bool) then _ ← on_event (AgentEnd None None); Ret (Ok cancelled_message)
  else
    text_only_loop contract (S MAX_CONTRACT_REPAIR_ATTEMPTS)
      {| req_config := config; req_system_prompt := enriched_prompt; req_messages := messages;
         req_task_contract := contract; req_max_tokens := Some (default 4096%Z max_tokens) |}.

(** ** One turn *)

Definition build_tool_request (system_prompt : string) (messages : list AiMessage) (contract : option AiTaskContract)
    : AiCompletionRequest :=
  {| req_config := config; req_system_prompt := system_prompt; req_messages := messages;
     req_task_contract := contract; req_max_tokens := Some (default 4096%Z max_tokens) |}.

Definition stream_with_tools (request : AiCompletionRequest) (session_id : string) (tools : list ToolDefinition)
    : agent (list AiStreamChunk * result (list ToolCallRef * option TokenUsage) string) :=
  cancelled ← perform CancelRequested;
  if (cancelled : bool) then Ret ([], Err AGENT_CANCELLED_ERROR)
  else
    r ← perform (Stream session_id request tools);
    _ ← on_events (List.flat_map chunk_to_events r.1);
    Ret r.

(** What the attempts of a turn leave behind. *)
Record Streaming : Type := {
  conversation_messages : list AiMessage;
  stream_result : option (list ToolCallRef * option TokenUsage * string);
  last_stream_error : option string;
  partial_text : string;
  stream_exit : LoopExit
}.

Section turn.
Context (prompt : string) (tools : list ToolDefinition) (original_messages : list AiMessage)
  (contract : option AiTaskContract) (turn : nat).

(** The loop over the two attempts: [inr] is the return of the fallback. *)
Fixpoint stream_attempts (left attempt : nat) (s : Streaming) : agent (Streaming + result string string) :=
  match left with
  | 0 => Ret (inl s)
  | S left' =>
      let request := build_tool_request prompt (conversation_messages s) contract in
      let session_id := ("agent-turn-" +:+ pretty turn +:+ (if (attempt =? 0)%nat then "" else "-retry"))%string in
      r ← stream_with_tools request session_id tools;
      let '(chunks, answer) := r in
      let accumulated_text := accumulated chunks in
      let emitted_any_chunk := existsb emits chunks in
      let stop (messages : list AiMessage) (error : option string) (e : LoopExit) : Streaming :=
        {| conversation_messages := messages; stream_result := stream_result s; last_stream_error := error;
           partial_text := accumulated_text; stream_exit := e |} in
      match answer with
      | Ok (tool_calls, usage) =>
          Ret (inl {| conversation_messages := conversation_messages s;
                      stream_result := Some (tool_calls, usage, accumulated_text);
                      last_stream_error := last_stream_error s; partial_text := partial_text s; stream_exit := stream_exit s |})
      | Err err =>
          if (turn =? 0) && bool_decide (provider config = Ollama) && is_tool_unsupported_error err && negb emitted_any_chunk
          then
            _ ← on_event (TurnEnd turn);
            r ← run_agent_loop_text_only prompt original_messages contract; Ret (inr r)
          else if (attempt =? 0) && is_context_length_error err && negb emitted_any_chunk then
            c ← maybe_compact prompt tools (conversation_messages s) true;
            let '(compacted, messages) := c in
            match compacted with
            | Compacted =>
                stream_attempts left' (S attempt)
                  {| conversation_messages := messages; stream_result := stream_result s; last_stream_error := Some err;
                     partial_text := partial_text s; stream_exit := stream_exit s |}
            | CompactCancelled =>
                Ret (inl {| conversation_messages := messages; stream_result := stream_result s;
                            last_stream_error := Some err; partial_text := partial_text s; stream_exit := Cancelled |})
            | CompactSkipped => Ret (inl (stop messages None (Interrupted err)))
            end
          else if String.eqb err AGENT_CANCELLED_ERROR then
            Ret (inl (stop (conversation_messages s) (last_stream_error s) Cancelled))
          else Ret (inl (stop (conversation_messages s) (last_stream_error s) (Interrupted err)))
      end
  end.

(** *** The tools of a turn *)

(** [tool_parallel_map]: the last tool of a name wins. *)
Definition runs_parallel (tool_name' : string) : bool :=
  match List.find (λ t, String.eqb (tool_name t) tool_name') (rev tools) with Some t => parallel_ok t | None => false end.
Definition parallel_indices (calls : list ToolCallRef) : list nat :=
  omap (λ ic : nat * ToolCallRef, if runs_parallel (name ic.2) then Some ic.1 else None) (imap pair calls).
Definition sequential_indices (calls : list ToolCallRef) : list nat :=
  omap (λ ic : nat * ToolCallRef, if negb (runs_parallel (name ic.2)) then Some ic.1 else None) (imap pair calls).

Definition run_tool (tc : ToolCallRef) : agent ToolResult :=
  lift_tool (execute_tool (target agent_ctx) tc (sql_permissions agent_ctx)).
Definition call_at (calls : list ToolCallRef) (i : nat) : option ToolCallRef := calls !! i.

Fixpoint run_sequential (calls : list ToolCallRef) : agent (list ToolResult) :=
  match calls with [] => Ret [] | tc :: calls' => r ← run_tool tc; l ← run_sequential calls'; Ret (r :: l) end.

(** The merge into the original order: [results[i] = Some(..)]. *)
Definition place (results : list (option ToolResult)) (placed : list (nat * ToolResult)) : list (option ToolResult) :=
  fold_left (λ results ir, <[ir.1 := Some ir.2]> results) placed results.

(** [None] is the panic of an [unwrap]. *)
Definition run_tools (calls : list ToolCallRef) : agent (option (list ToolResult)) :=
  let parallel := parallel_indices calls in
  let sequential := sequential_indices calls in
  let at_ (l : list nat) : list ToolCallRef := omap (call_at calls) l in
  parallel_results ← join_all Poll (2 * List.length parallel) (run_tool <$> at_ parallel);
  sequential_results ← run_sequential (at_ sequential);
  let results := place (replicate (List.length calls) None) (zip parallel parallel_results) in
  let results := place results (zip sequential sequential_results) in
  Ret (mapM (λ r : option ToolResult, r) results).

Definition result_event (tc : ToolCallRef) (r : ToolResult) : AgentEvent :=
  ToolCallEnd (id tc) (name tc)
    (Object (("content", VString (result_content r))
               :: match explain_data r with Some ed => [("explain_data", ed)] | None => [] end))
    (is_error r).
Definition result_message (tc : ToolCallRef) (r : ToolResult) : AiMessage :=
  {| role := "tool"; content := tool_result_for_followup_context (name tc) (result_content r);
     tool_call_id := Some (id tc); tool_calls := [] |}.
End turn.

(** ** The loop over the turns *)

Record LoopState : Type := {
  conversation : list AiMessage; final_text : string; loop_exit : LoopExit; total_usage : TokenUsage;
  contract_repair_attempts : nat
}.
Inductive Flow : Type := Next (s : LoopState) | Break (s : LoopState) | Return (r : result string string) | Panic.
Inductive Outcome : Type := Returned (r : result string string) | Panicked.

Definition set_messages (s : LoopState) (messages : list AiMessage) : LoopState :=
  {| conversation := messages; final_text := final_text s; loop_exit := loop_exit s; total_usage := total_usage s;
     contract_repair_attempts := contract_repair_attempts s |}.
Definition stop (s : LoopState) (text : string) (e : LoopExit) : LoopState :=
  {| conversation := conversation s; final_text := text; loop_exit := e; total_usage := total_usage s;
     contract_repair_attempts := contract_repair_attempts s |}.

Section turns.
Context (prompt : string) (tools : list ToolDefinition) (original_messages : list AiMessage) (contract : option AiTaskContract).

(** A final answer: accept it, ask for a repair, or give up. *)
Definition final_answer (s : LoopState) (accumulated_text : string) : agent Flow :=
  match validate_final_answer contract accumulated_text with
  | Satisfied => Ret (Break (stop s accumulated_text Completed))
  | NeedsRepair reason =>
      if contract_repair_attempts s <? MAX_CONTRACT_REPAIR_ATTEMPTS then
        Ret (Next {| conversation := conversation s
                       ++ [plain_message "user" (build_contract_repair_prompt contract is_agent_mode reason)];
                     final_text := final_text s; loop_exit := loop_exit s; total_usage := total_usage s;
                     contract_repair_attempts := S (contract_repair_attempts s) |})
      else
        let message := append_contract_failure_note accumulated_text reason in
        _ ← on_event (TextDelta message);
        Ret (Break (stop s message Completed))
  end.

(** The requested tools, their events and the messages with their results. *)
Definition tool_phase (s : LoopState) (calls : list ToolCallRef) (accumulated_text : string) : agent Flow :=
  cancelled ← perform CancelRequested;
  if (cancelled : bool) then Ret (Break (stop s accumulated_text Cancelled))
  else
    _ ← on_events ((λ tc, ToolCallStart (id tc) (name tc) (arguments tc)) <$> calls);
    results ← run_tools tools calls;
    match results with
    | None => Ret Panic
    | Some results =>
        _ ← on_events (zip_with result_event calls results);
        Ret (Next (set_messages s (conversation s ++ zip_with result_message calls results)))
    end.

(** What follows the attempts: the answer becomes a message, then the tools run
    or the answer is final. *)
Definition after_streaming (turn : nat) (s : LoopState) (st : Streaming) : agent Flow :=
  let s := set_messages s (conversation_messages st) in
  if should_break_turns (stream_exit st) then Ret (Break (stop s (partial_text st) (stream_exit st)))
  else
    match stream_result st with
    | None => Ret (Return (Err (default "LLM request failed after context compaction retry" (last_stream_error st))))
    | Some (calls, usage, accumulated_text) =>
        let s := {| conversation := conversation s
                      ++ [{| role := "assistant"; content := accumulated_text; tool_call_id := None; tool_calls := calls |}];
                    final_text := final_text s; loop_exit := loop_exit s;
                    total_usage := match usage with Some usage => usage_add (total_usage s) usage | None => total_usage s end;
                    contract_repair_attempts := contract_repair_attempts s |} in
        _ ← on_event (TurnEnd turn);
        match calls with
        | [] => final_answer s accumulated_text
        | _ => tool_phase s calls accumulated_text
        end
    end.

Definition one_turn (turn : nat) (s : LoopState) : agent Flow :=
  cancelled ← perform CancelRequested;
  if (cancelled : bool) then Ret (Break (stop s (final_text s) Cancelled)) else
  c ← maybe_compact prompt tools (conversation s) false;
  let '(compacted, messages) := c in
  let s := set_messages s messages in
  match compacted with
  | CompactCancelled => Ret (Break (stop s (final_text s) Cancelled))
  | _ =>
      _ ← on_event (TurnStart turn);
      r ← stream_attempts prompt tools original_messages contract turn 2 0
            {| conversation_messages := messages; stream_result := None; last_stream_error := None;
               partial_text := final_text s; stream_exit := loop_exit s |};
      match r with
      | inr r => Ret (Return r)
      | inl st => after_streaming turn s st
      end
  end.

(** [for turn in 0..max_agent_turns]: [left] turns are still to come. *)
Fixpoint turns (left turn : nat) (s : LoopState) : agent Flow :=
  match left with
  | 0 => Ret (Break s)
  | S left' =>
      flow ← one_turn turn s;
      match flow with Next s => turns left' (S turn) s | _ => Ret flow end
  end.
End turns.

Definition exit_message (s : LoopState) (max_agent_turns : nat) : option string :=
  let blank := is_empty (trim (final_text s)) in
  match loop_exit s with
  | Completed => None
  | Cancelled =>
      Some (if blank then cancelled_message
            else (newline +:+ newline +:+ "Agent run was cancelled. Partial output above was preserved.")%string)
  | Interrupted error =>
      Some (if blank then ("Agent stream stopped before completion: " +:+ error +:+ ".")%string
            else (newline +:+ newline +:+ "Agent stream stopped before completion: " +:+ error +:+ ". Partial output above was preserved.")%string)
  | Exhausted =>
      Some (if blank then ("Agent reached the " +:+ pretty max_agent_turns +:+ "-turn safety limit before producing output. Send Continue to let the agent keep working, or raise the limit in Settings → AI.")%string
            else (newline +:+ newline +:+ "Agent reached the " +:+ pretty max_agent_turns +:+ "-turn safety limit before a final answer. The partial output above was preserved; send Continue to let the agent keep working, or raise the limit in Settings → AI.")%string)
  end.

(** The message of the exit, the last event and the text that is returned. *)
Definition finish (s : LoopState) (max_agent_turns : nat) : agent Outcome :=
  let positive (n : Z) : option Z := if (0 <? n)%Z then Some n else None in
  let usage := total_usage s in
  match exit_message s max_agent_turns with
  | None =>
      _ ← on_event (AgentEnd (positive (input_tokens usage)) (positive (output_tokens usage)));
      Ret (Returned (Ok (final_text s)))
  | Some message =>
      _ ← on_event (TextDelta message);
      _ ← on_event (AgentEnd (positive (input_tokens usage)) (positive (output_tokens usage)));
      Ret (Returned (Ok (final_text s +:+ message)%string))
  end.

Definition run_agent_loop (system_prompt : string) (messages : list AiMessage) (contract : option AiTaskContract)
    : agent Outcome :=
  let prompt := augment_system_prompt_with_task_contract system_prompt contract is_agent_mode in
  if is_cli (provider config) then
    r ← perform (CliAgent config prompt messages (sql_permissions agent_ctx) is_agent_mode); Ret (Returned r)
  else
    support ← provider_function_calling_support;
    match support with
    | None =>
        _ ← on_event (TextDelta cancelled_message); _ ← on_event (AgentEnd None None);
        Ret (Returned (Ok cancelled_message))
    | Some Unsupported => r ← run_agent_loop_text_only prompt messages contract; Ret (Returned r)
    | Some _ =>
        let db_type := target_db_type (target agent_ctx) in
        let tools := if is_agent_mode then all_tools db_type (sql_permissions agent_ctx) else read_only_tools db_type in
        let max_turns := Z.to_nat (clamp_max_agent_turns (max_agent_turns agent_ctx)) in
        flow ← turns prompt tools messages contract max_turns 0
                 {| conversation := messages; final_text := ""; loop_exit := Exhausted;
                    total_usage := {| input_tokens := 0; output_tokens := 0 |}; contract_repair_attempts := 0 |};
        match flow with
        | Next s | Break s => finish s max_turns
        | Return r => Ret (Returned r)
        | Panic => Ret Panicked
        end
    end.
End loop.

(** ** What the calls of the loop satisfy *)

(** The database calls among the calls of the loop. *)
Definition tool_event (e : event Call) : option (event ToolE) :=
  match e with Ev call b => match call in Call B return B → option (event ToolE) with Tool c => λ b, Some (Ev c b) | _ => λ _, None end b end.
Definition tool_events (t : list (event Call)) : list (event ToolE) := omap tool_event t.

Lemma calls_ok_lift P (Q : list (event Call) → event Call → Prop) {A} (p : prog ToolE A) seen :
  (∀ B (c : ToolE B) b t, P (tool_events t) (Ev c b) → Q t (Ev (Tool c) b)) →
  calls_ok P p (tool_events seen) → calls_ok Q (lift_tool p) seen.
Proof.
  intros HQ. revert seen. induction p as [a|B call k IH]; intros seen Hp; [done|]. intros b. destruct (Hp b) as [Hb Hk].
  split; [by apply HQ|]. apply IH. unfold tool_events in *. by rewrite omap_app.
Qed.

Lemma returns_lift {A} (p : prog ToolE A) R : returns p R → returns (lift_tool p) R.
Proof. induction p as [a|B call k IH]; [done|]. intros H b. apply IH, H. Qed.

(** *** The tools of a turn keep their places *)

Lemma place_spec (Q : nat → ToolResult → Prop) idxs rs (base : list (option ToolResult)) :
  Forall2 Q idxs rs → Forall (λ i, i < List.length base) idxs →
  List.length (place base (zip idxs rs)) = List.length base ∧
  ∀ i, (i ∈ idxs → ∃ r, place base (zip idxs rs) !! i = Some (Some r) ∧ Q i r)
       ∧ (i ∉ idxs → place base (zip idxs rs) !! i = base !! i).
Proof.
  intros H. revert base. induction H as [|i0 r0 idxs rs Hq H IH]; intros base Hb.
  - split; [done|]. intros i. split; [by intros ?%not_elem_of_nil|done].
  - apply Forall_cons in Hb as [Hi0 Hb]. cbn [zip zip_with place fold_left fst snd].
    destruct (IH (<[i0:=Some r0]> base)) as [Hlen Hspec]; [by rewrite length_insert|].
    fold (place (<[i0:=Some r0]> base) (zip idxs rs)). rewrite length_insert in Hlen. split; [done|].
    intros i. destruct (Hspec i) as [Hin Hout]. split.
    + intros Hi. destruct (decide (i ∈ idxs)) as [|Hni]; [by apply Hin|].
      assert (i = i0) as -> by (apply elem_of_cons in Hi; naive_solver).
      exists r0. split; [|done]. rewrite Hout by done. by apply list_lookup_insert_eq.
    + intros [Hne Hni]%not_elem_of_cons. rewrite Hout by done. by apply list_lookup_insert_ne.
Qed.

Lemma indices_spec (calls : list ToolCallRef) (keep : nat * ToolCallRef → bool) i :
  i ∈ omap (λ ic : nat * ToolCallRef, if keep ic then Some ic.1 else None) (imap pair calls) ↔
  ∃ tc, calls !! i = Some tc ∧ keep (i, tc) = true.
Proof.
  rewrite list_elem_of_omap. split.
  - intros ([j tc] & (k & x & [= -> ->] & Hk)%elem_of_lookup_imap & Hkeep). simpl in Hkeep.
    destruct (keep (k, x)) eqn:E; [|done]. simplify_eq. eauto.
  - intros (tc & Hi & Hkeep). exists (i, tc). split; [|by rewrite Hkeep].
    apply elem_of_lookup_imap. eauto.
Qed.

Lemma parallel_spec tools calls i :
  i ∈ parallel_indices tools calls ↔ ∃ tc, calls !! i = Some tc ∧ runs_parallel tools (name tc) = true.
Proof. apply (indices_spec calls (λ ic, runs_parallel tools (name ic.2))). Qed.
Lemma sequential_spec tools calls i :
  i ∈ sequential_indices tools calls ↔ ∃ tc, calls !! i = Some tc ∧ runs_parallel tools (name tc) = false.
Proof.
  unfold sequential_indices. rewrite (indices_spec calls (λ ic, negb (runs_parallel tools (name ic.2)))).
  by setoid_rewrite negb_true_iff.
Qed.

Lemma calls_at (calls : list ToolCallRef) l :
  (∀ i, i ∈ l → ∃ tc, calls !! i = Some tc) →
  Forall2 (λ i tc, calls !! i = Some tc) l (omap (call_at calls) l).
Proof.
  induction l as [|i l IH]; intros H; [constructor|]. destruct (H i ltac:(left)) as [tc Htc]. simpl. unfold call_at at 1.
  rewrite Htc. constructor; [done|]. apply IH. intros j Hj. apply H. by right.
Qed.

Section run_tools.
Context `{HU : UnicodeCase, HT : SqlTokenizer, HR : RegexEngine, HJ : JsonPrinter, HC : RiskClassifier, HX : ToolText}.
Context (agent_ctx : AgentLoopContext) (tools : list ToolDefinition) (calls : list ToolCallRef).

Definition answers_call (tc : ToolCallRef) (r : ToolResult) : Prop := result_call_id r = id tc ∧ result_tool_name r = name tc.

Lemma run_tool_returns tc : returns (run_tool agent_ctx tc) (answers_call tc).
Proof. apply returns_lift, execute_tool_returns. Qed.

Lemma run_sequential_returns l : returns (run_sequential agent_ctx l) (Forall2 answers_call l).
Proof.
  induction l as [|tc l IH]; [constructor|]. eapply prog_returns_bind; [apply run_tool_returns|]. intros r Hr.
  eapply prog_returns_bind; [exact IH|]. intros rs Hrs. by constructor.
Qed.

Lemma place_group idxs rs (base : list (option ToolResult)) :
  (∀ i, i ∈ idxs → ∃ tc, calls !! i = Some tc) → List.length base = List.length calls →
  Forall2 answers_call (omap (call_at calls) idxs) rs →
  List.length (place base (zip idxs rs)) = List.length calls ∧
  ∀ i, (i ∈ idxs → ∃ r tc, place base (zip idxs rs) !! i = Some (Some r) ∧ calls !! i = Some tc ∧ answers_call tc r)
       ∧ (i ∉ idxs → place base (zip idxs rs) !! i = base !! i).
Proof.
  intros Hidx Hlen Hrs.
  assert (Forall2 (λ i r, ∃ tc, calls !! i = Some tc ∧ answers_call tc r) idxs rs) as H.
  { pose proof (calls_at calls idxs Hidx) as Hat. revert Hat Hrs. generalize (omap (call_at calls) idxs). clear.
    intros tcs Hat. revert rs. induction Hat as [|i tc idxs tcs Hi _ IH]; intros rs Hrs; inversion Hrs; simplify_eq; constructor; eauto. }
  destruct (place_spec _ _ _ base H) as [Hl Hspec].
  { apply Forall_forall. intros i [tc Hi]%Hidx. rewrite Hlen. by eapply lookup_lt_Some. }
  rewrite Hlen in Hl. split; [done|]. intros i. destruct (Hspec i) as [Hin Hout]. split; [|done].
  intros (r & Hr & tc & Htc & Ha)%Hin. eauto.
Qed.

(** Every call gets its own result at its own place, whatever the schedule of
    the parallel group; no [unwrap] fails. *)
Lemma run_tools_returns :
  returns (run_tools agent_ctx tools calls) (λ o, ∃ rs, o = Some rs ∧ Forall2 answers_call calls rs).
Proof.
  unfold run_tools. cbv zeta.
  set (parallel := parallel_indices tools calls). set (sequential := sequential_indices tools calls).
  eapply prog_returns_bind.
  { apply (join_all_returns answers_call (omap (call_at calls) parallel)). 
    generalize (omap (call_at calls) parallel). intros l. induction l as [|tc l IH]; simpl; constructor; [apply run_tool_returns|done]. }
  intros prs Hprs. eapply prog_returns_bind; [apply run_sequential_returns|]. intros srs Hsrs. cbn [returns].
  destruct (place_group parallel prs (replicate (List.length calls) None)) as [Hl1 Hp]; [|by rewrite length_replicate|done|].
  { intros i (tc & Hi & _)%parallel_spec. eauto. }
  set (out1 := place (replicate _ _) _) in *.
  destruct (place_group sequential srs out1) as [Hl2 Hs]; [|done|done|].
  { intros i (tc & Hi & _)%sequential_spec. eauto. }
  set (out := place out1 _) in *.
  assert (∀ i tc, calls !! i = Some tc → ∃ r, out !! i = Some (Some r) ∧ answers_call tc r) as Hall.
  { intros i tc Hi. destruct (decide (i ∈ sequential)) as [Hin|Hni].
    - destruct (proj1 (Hs i) Hin) as (r & tc' & Hr & Htc & Ha). assert (tc' = tc) as -> by congruence. by exists r.
    - rewrite (proj2 (Hs i) Hni). assert (i ∈ parallel) as Hin.
      { apply parallel_spec. exists tc. split; [done|]. destruct (runs_parallel tools (name tc)) eqn:E; [done|].
        exfalso. apply Hni, sequential_spec. eauto. }
      destruct (proj1 (Hp i) Hin) as (r & tc' & Hr & Htc & Ha). assert (tc' = tc) as -> by congruence. by exists r. }
  destruct (proj2 (mapM_is_Some (λ r : option ToolResult, r) out)) as [rs Hrs].
  { apply Forall_lookup. intros i o Ho. pose proof (lookup_lt_Some _ _ _ Ho) as Hlt. rewrite Hl2 in Hlt.
    apply lookup_lt_is_Some in Hlt as [tc Htc]. destruct (Hall i tc Htc) as (r & Hr & _). assert (o = Some r) as -> by congruence. by exists r. }
  exists rs. split; [done|]. apply mapM_Some_1 in Hrs. pose proof (Forall2_length _ _ _ Hrs) as Hlen.
  apply Forall2_same_length_lookup_2; [congruence|]. intros i tc r Htc Hr.
  destruct (Hall i tc Htc) as (r' & Hr' & Ha). pose proof (Forall2_lookup_lr _ _ _ _ _ _ Hrs Hr' Hr) as E. cbn in E. assert (r' = r) as <- by congruence. exact Ha.
Qed.
End run_tools.

Definition is_end (e : AgentEvent) : bool := match e with AgentEnd _ _ => true | _ => false end.

Section invariant.
Context `{HU : UnicodeCase, HT : SqlTokenizer, HR : RegexEngine, HJ : JsonPrinter, HC : RiskClassifier, HX : ToolText}.
Context (config : AiConfig) (agent_ctx : AgentLoopContext) (max_tokens : option Z) (is_agent_mode : bool).

(** [P] is a property of calls and [good] one of conversations that together
    survive every step of the loop. *)
Context (P : list (event Call) → event Call → Prop) `{!Grows P} (good : list AiMessage → Prop).
Class Sound : Prop := {
  sound_tool tc seen : calls_ok P (run_tool agent_ctx tc) seen;
  sound_tables t schema limit b seen : P seen (Ev (Tool (ListTablesCore t schema limit)) b);
  sound_poll n b seen : P seen (Ev (Poll n) b);
  sound_requested b seen : P seen (Ev CancelRequested b);
  sound_wins b seen : P seen (Ev CancelWins b);
  sound_support c b seen : P seen (Ev (OllamaToolSupport c) b);
  sound_complete r b seen : P seen (Ev (Complete r) b);
  sound_cli c s m p a b seen : P seen (Ev (CliAgent c s m p a) b);
  sound_emit e b seen : is_end e = false → P seen (Ev (Emit e) b);
  sound_stream session r tools b seen : good (req_messages r) → P seen (Ev (Stream session r tools) b);
  good_compacted ms budget force summary :
    good ms → 2 < List.length ms → 1 < compaction_cut ms budget force →
    good (compacted ms (compaction_cut ms budget force) summary);
  good_plain ms r text : r ≠ "tool" → good ms → good (ms ++ [plain_message r text]);
  good_turn ms text calls results :
    good ms → calls ≠ [] → List.length results = List.length calls →
    good (ms ++ {| role := "assistant"; content := text; tool_call_id := None; tool_calls := calls |}
             :: zip_with result_message calls results)
}.
(** The last event of a run. *)
Class SoundEnd : Prop := sound_end i o b seen : P seen (Ev (Emit (AgentEnd i o)) b).
Context `{!Sound}.

Let ok {A} (p : prog Call A) : Prop := ∀ seen, calls_ok P p seen.

Lemma ok_ret {A} (a : A) : ok (Ret a).
Proof. done. Qed.
Lemma ok_bind {A C} (p : prog Call A) (f : A → prog Call C) : ok p → (∀ a, ok (f a)) → ok (prog_bind p f).
Proof. intros Hp Hf seen. apply (calls_ok_bind P); [apply Hp|]. intros a t _. apply Hf. Qed.
Lemma ok_do {A B} (call : Call B) (k : B → prog Call A) : (∀ seen b, P seen (Ev call b)) → (∀ b, ok (k b)) → ok (Do call k).
Proof. intros Hc Hk seen b. split; [apply Hc|apply Hk]. Qed.
Lemma ok_emit e : is_end e = false → ok (on_event e).
Proof. intros He. apply ok_do; [intros; by apply sound_emit|]. intros u. apply ok_ret. Qed.
Lemma ok_on_events l : Forall (λ e, is_end e = false) l → ok (on_events l).
Proof. induction 1 as [|e l He _ IH]; [apply ok_ret|]. apply ok_bind; [by apply ok_emit|]. intros _. exact IH. Qed.

Lemma maybe_compact_calls prompt tools ms force : ok (maybe_compact config max_tokens prompt tools ms force).
Proof.
  unfold maybe_compact. cbv zeta. destruct (_ && _); [done|]. destruct (_ <=? 2); [done|]. destruct (_ <=? 1); [done|]. prog_simpl.
  apply ok_do; [intros; apply sound_requested|]. intros []; [apply ok_ret|].
  apply ok_do; [intros; apply sound_complete|]. intros [answer|]; [|apply ok_ret].
  apply ok_bind; [by apply ok_emit|]. intros _. apply ok_ret.
Qed.

Lemma maybe_compact_good prompt tools ms force :
  good ms → returns (maybe_compact config max_tokens prompt tools ms force) (λ r, good r.2).
Proof.
  intros Hg. unfold maybe_compact. cbv zeta. destruct (_ && _); [done|].
  destruct (Nat.leb_spec (List.length ms) 2) as [|Hlen]; [done|]. set (cut := compaction_cut _ _ _).
  destruct (Nat.leb_spec cut 1) as [|Hcut]; [done|]. prog_simpl.
  intros []; [done|]. intros [answer|]; [|done]. intros u. by apply good_compacted.
Qed.

Lemma text_only_loop_ok `{!SoundEnd} contract left request : ok (text_only_loop contract left request).
Proof.
  assert (∀ i o, ok (on_event (AgentEnd i o))) as Hend.
  { intros i o. apply ok_do; [intros; apply sound_end|]. intros u. apply ok_ret. }
  revert request. induction left as [|left IH]; intros request; [apply ok_ret|]. cbn [text_only_loop].
  apply ok_do; [intros; apply sound_complete|]. intros [[text|e]|]; [|apply ok_ret|].
  - cbv beta iota. destruct (validate_final_answer contract text) as [|reason].
    + apply ok_bind; [by apply ok_emit|]. intros _. apply ok_bind; [apply Hend|]. intros _. apply ok_ret.
    + destruct left as [|left']; [|apply IH]. cbn [Nat.ltb Nat.leb].
      apply ok_bind; [by apply ok_emit|]. intros _. apply ok_bind; [apply Hend|]. intros _. apply ok_ret.
  - apply ok_bind; [apply Hend|]. intros _. apply ok_ret.
Qed.

Lemma text_only_ok `{!SoundEnd} prompt ms contract : ok (run_agent_loop_text_only config agent_ctx max_tokens prompt ms contract).
Proof.
  unfold run_agent_loop_text_only, build_schema_prompt. prog_simpl.
  apply ok_do; [intros; apply sound_tables|]. intros tables. apply ok_do; [intros; apply sound_requested|].
  intros []; [|by apply text_only_loop_ok]. apply ok_do; [intros; apply sound_end|]. intros u. apply ok_ret.
Qed.

Lemma run_sequential_ok calls : ok (run_sequential agent_ctx calls).
Proof.
  induction calls as [|tc calls IH]; [apply ok_ret|]. apply ok_bind; [intros seen; apply sound_tool|]. intros r.
  apply ok_bind; [exact IH|]. intros l. apply ok_ret.
Qed.

Lemma run_tools_ok tools calls : ok (run_tools agent_ctx tools calls).
Proof.
  unfold run_tools. cbv zeta. apply ok_bind; [|intros rs; apply ok_bind; [apply run_sequential_ok|intros rs'; apply ok_ret]].
  intros seen. apply (calls_ok_join_all P); [intros; apply sound_poll|]. apply Forall_fmap, Forall_true. intros tc. apply sound_tool.
Qed.

Lemma chunks_quiet chunks : Forall (λ e, is_end e = false) (List.flat_map chunk_to_events chunks).
Proof.
  induction chunks as [|x chunks IH]; [constructor|]. simpl. apply Forall_app. split; [|done]. unfold chunk_to_events.
  apply Forall_app. split; [destruct (is_empty _)|destruct (reasoning_delta x)]; repeat constructor.
Qed.

Lemma stream_with_tools_ok request session tools :
  good (req_messages request) → ok (stream_with_tools request session tools).
Proof.
  intros Hg. unfold stream_with_tools. prog_simpl. apply ok_do; [intros; apply sound_requested|].
  intros []; [apply ok_ret|]. apply ok_do; [intros; by apply sound_stream|]. intros r.
  apply ok_bind; [apply ok_on_events, chunks_quiet|]. intros _. apply ok_ret.
Qed.

Definition streaming_good (r : Streaming + result string string) : Prop :=
  match r with inl st => good (conversation_messages st) | inr _ => True end.

Lemma stream_attempts_good prompt tools original contract turn left attempt s :
  good (conversation_messages s) →
  returns (stream_attempts config agent_ctx max_tokens prompt tools original contract turn left attempt s) streaming_good.
Proof.
  revert attempt s. induction left as [|left IH]; intros attempt s Hg; [done|]. cbn [stream_attempts]. cbv zeta.
  eapply prog_returns_bind; [apply returns_true|]. intros [chunks [[calls usage]|err]] _; [done|].
  destruct (_ && negb _); [prog_simpl; do 2 (eapply prog_returns_bind; [apply returns_true|]; intros ? _); done|].
  destruct (_ && negb _); [|by destruct (String.eqb _ _)].
  eapply prog_returns_bind; [by apply maybe_compact_good|]. intros [[] ms] Hms; [done| |done]. by apply IH.
Qed.

Lemma stream_attempts_ok `{!SoundEnd} prompt tools original contract turn left attempt s :
  good (conversation_messages s) →
  ok (stream_attempts config agent_ctx max_tokens prompt tools original contract turn left attempt s).
Proof.
  revert attempt s. induction left as [|left IH]; intros attempt s Hg; [done|]. cbn [stream_attempts]. cbv zeta.
  apply ok_bind; [by apply stream_with_tools_ok|]. intros [chunks [[calls usage]|err]]; [apply ok_ret|].
  destruct (_ && negb _).
  { apply ok_bind; [by apply ok_emit|]. intros _. apply ok_bind; [by apply text_only_ok|]. intros r. apply ok_ret. }
  destruct (_ && negb _); [|destruct (String.eqb _ _); apply ok_ret]. intros seen.
  eapply (calls_ok_bind_returns P); [apply maybe_compact_calls|by apply maybe_compact_good|].
  intros [[] ms] t Hms; [done| |done]. by apply IH.
Qed.

Definition flow_good (flow : Flow) : Prop := match flow with Next s => good (conversation s) | _ => True end.

Lemma tool_phase_calls tools s calls text : ok (tool_phase agent_ctx tools s calls text).
Proof.
  unfold tool_phase. apply ok_do; [intros; apply sound_requested|]. intros []; [apply ok_ret|].
  apply ok_bind; [apply ok_on_events, Forall_fmap, Forall_true; done|]. intros _.
  apply ok_bind; [apply run_tools_ok|]. intros [rs|]; [|apply ok_ret].
  apply ok_bind; [|intros _; apply ok_ret]. apply ok_on_events. clear. revert rs.
  induction calls as [|tc calls IH]; intros [|r rs]; constructor; [done|apply IH].
Qed.

Lemma tool_phase_good tools s calls text before :
  good before → calls ≠ [] →
  conversation s = before ++ [{| role := "assistant"; content := text; tool_call_id := None; tool_calls := calls |}] →
  returns (tool_phase agent_ctx tools s calls text) flow_good.
Proof.
  intros Hg Hne Hconv. unfold tool_phase. prog_simpl. intros []; [done|]. eapply prog_returns_bind; [apply returns_true|]. intros ? _.
  eapply prog_returns_bind; [apply run_tools_returns|]. intros o (rs & -> & Hrs).
  eapply prog_returns_bind; [apply returns_true|]. intros ? _. simpl. rewrite Hconv, <-app_assoc. simpl.
  apply good_turn; [done|done|]. symmetry. by eapply Forall2_length.
Qed.

Lemma final_answer_calls contract s text : ok (final_answer is_agent_mode contract s text).
Proof.
  unfold final_answer. destruct (validate_final_answer contract text) as [|reason]; [done|].
  destruct (_ <? _); [apply ok_ret|]. apply ok_bind; [by apply ok_emit|]. intros _. apply ok_ret.
Qed.

Lemma final_answer_good contract s text :
  good (conversation s) → returns (final_answer is_agent_mode contract s text) flow_good.
Proof.
  intros Hg. unfold final_answer. destruct (validate_final_answer contract text) as [|reason]; [done|].
  destruct (_ <? _); [simpl; by apply good_plain|]. eapply prog_returns_bind; [apply returns_true|]. done.
Qed.

Lemma after_streaming_calls tools contract turn s st : ok (after_streaming agent_ctx is_agent_mode tools contract turn s st).
Proof.
  unfold after_streaming. cbv zeta. destruct (should_break_turns _); [done|].
  destruct (stream_result st) as [[[calls usage] text]|]; [|done].
  apply ok_bind; [by apply ok_emit|]. intros _. destruct calls; [apply final_answer_calls|apply tool_phase_calls].
Qed.

Lemma after_streaming_good tools contract turn s st :
  good (conversation_messages st) →
  returns (after_streaming agent_ctx is_agent_mode tools contract turn s st) flow_good.
Proof.
  intros Hg. unfold after_streaming. cbv zeta. destruct (should_break_turns _); [done|].
  destruct (stream_result st) as [[[[|c calls] usage] text]|]; [| |done].
  - eapply prog_returns_bind; [apply returns_true|]. intros ? _. apply final_answer_good. by apply (good_plain _ "assistant").
  - eapply prog_returns_bind; [apply returns_true|]. intros ? _. by eapply tool_phase_good.
Qed.

Lemma one_turn_good prompt tools original contract turn s :
  good (conversation s) →
  returns (one_turn config agent_ctx max_tokens is_agent_mode prompt tools original contract turn s) flow_good.
Proof.
  intros Hg. unfold one_turn. prog_simpl. intros []; [done|]. eapply prog_returns_bind; [by apply maybe_compact_good|].
  intros [[] ms] Hms; [| |done].
  all: eapply prog_returns_bind; [apply returns_true|]; intros ? _.
  all: eapply prog_returns_bind; [by apply stream_attempts_good|]; intros [st|r] Hr; [by apply after_streaming_good|done].
Qed.

Lemma one_turn_ok `{!SoundEnd} prompt tools original contract turn s :
  good (conversation s) → ok (one_turn config agent_ctx max_tokens is_agent_mode prompt tools original contract turn s).
Proof.
  intros Hg. unfold one_turn. apply ok_do; [intros; apply sound_requested|]. intros []; [apply ok_ret|]. intros seen.
  eapply (calls_ok_bind_returns P); [apply maybe_compact_calls|by apply maybe_compact_good|]. intros [[] ms] t Hms; [| |apply ok_ret].
  all: apply ok_bind; [by apply ok_emit|]; intros _.
  all: apply ok_bind; [by apply stream_attempts_ok|]; intros [st|r]; [apply after_streaming_calls|apply ok_ret].
Qed.

Lemma turns_ok `{!SoundEnd} prompt tools original contract left turn s :
  good (conversation s) → ok (turns config agent_ctx max_tokens is_agent_mode prompt tools original contract left turn s).
Proof.
  revert turn s. induction left as [|left IH]; intros turn s Hg; [apply ok_ret|]. cbn [turns]. intros seen.
  eapply (calls_ok_bind_returns P); [by apply one_turn_ok|by apply one_turn_good|].
  intros [s'| | |] t Hs'; try apply ok_ret. by apply IH.
Qed.

Lemma finish_ok `{!SoundEnd} s max_turns : ok (finish s max_turns).
Proof.
  unfold finish. cbv zeta.
  assert (∀ i o, ok (on_event (AgentEnd i o))) as Hend.
  { intros i o. apply ok_do; [intros; apply sound_end|]. intros u. apply ok_ret. }
  destruct (exit_message s max_turns) as [m|].
  - apply ok_bind; [by apply ok_emit|]. intros _. apply ok_bind; [apply Hend|]. intros _. apply ok_ret.
  - apply ok_bind; [apply Hend|]. intros _. apply ok_ret.
Qed.

Lemma support_ok : ok (provider_function_calling_support config).
Proof.
  unfold provider_function_calling_support. destruct (negb _).
  - apply ok_do; [intros; apply sound_wins|]. intros b. apply ok_ret.
  - apply ok_do; [intros; apply sound_support|]. intros b. apply ok_ret.
Qed.

(** Every call of a run is fine. *)
Lemma run_agent_loop_ok `{!SoundEnd} prompt ms contract :
  good ms → ok (run_agent_loop config agent_ctx max_tokens is_agent_mode prompt ms contract).
Proof.
  intros Hg. unfold run_agent_loop. cbv zeta. destruct (is_cli (provider config)).
  { apply ok_do; [intros; apply sound_cli|]. intros r. apply ok_ret. }
  apply ok_bind; [apply support_ok|].
  intros [[]|]; cycle 1.
  - apply ok_bind; [by apply text_only_ok|]. intros r. apply ok_ret.
  - apply ok_bind; [by apply turns_ok|]. intros [s'|s'|r|]; try apply ok_ret; by apply finish_ok.
  - apply ok_bind; [by apply ok_emit|]. intros _. apply ok_bind; [|intros _; apply ok_ret].
    apply ok_do; [intros; apply sound_end|]. intros u. apply ok_ret.
  - apply ok_bind; [by apply turns_ok|]. intros [s'|s'|r|]; try apply ok_ret; by apply finish_ok.
Qed.
End invariant.

(** ** Conversations the model is sent *)

Lemma compaction_cut_boundary `{JsonPrinter} ms budget force :
  AgentContext.conversation ms → 0 < List.length ms → boundary ms (compaction_cut ms budget force).
Proof.
  intros Hconv Hlen. unfold compaction_cut. cbv zeta. apply adjust_cut_boundary; [done|].
  destruct (Nat.leb_spec (List.length ms) (keep_recent ms
    (if force then (keep_recent_budget budget / 2)%Z else keep_recent_budget budget) 0 (List.length ms) (List.length ms))); lia.
Qed.

Section theorems.
Context `{HU : UnicodeCase, HT : SqlTokenizer, HR : RegexEngine, HJ : JsonPrinter, HC : RiskClassifier, HX : ToolText}.

(** A request of the loop: its messages are a conversation that still starts
    with the user's message. *)
Definition request_fits (first : AiMessage) (e : event Call) : Prop :=
  match e with
  | Ev call _ => match call with
                 | Stream _ request _ => AgentContext.conversation (req_messages request) ∧ head (req_messages request) = Some first
                 | _ => True
                 end
  end.
Definition starts_at (first : AiMessage) (ms : list AiMessage) : Prop :=
  AgentContext.conversation ms ∧ head ms = Some first.

Instance fits_grows first : Grows (λ _ e, request_fits first e).
Proof. by intros seen seen' e _. Qed.

Lemma lift_local (Q : event Call → Prop) {A} (p : prog ToolE A) seen :
  (∀ B (c : ToolE B) b, Q (Ev (Tool c) b)) → calls_ok (λ _ e, Q e) (lift_tool p) seen.
Proof. intros HQ. revert seen. induction p as [a|B call k IH]; intros seen; [done|]. intros b. split; [apply HQ|apply IH]. Qed.

Lemma fits_sound agent_ctx first :
  role first ≠ "tool" → tool_calls first = [] → Sound agent_ctx (λ _ e, request_fits first e) (starts_at first).
Proof.
  intros Hrole Hcalls. constructor; try done.
  - intros tc seen. by apply lift_local.
  - intros ms budget force summary [Hconv Hhead] Hlen Hcut. destruct ms as [|m rest]; [done|]. injection Hhead as ->.
    split; [|done]. destruct (compaction_cut_boundary _ budget force Hconv) as (_ & Hdrop & _); [simpl; lia|].
    unfold compacted. cbn [take app]. apply conv_plain; [done..|]. rewrite take_0. by apply conv_plain.
  - intros ms r text Hr [Hconv Hhead]. split; [|by destruct ms]. apply conversation_app; [done|].
    apply conv_plain; [done..|constructor].
  - intros ms text calls results [Hconv Hhead] Hne Hlen. split; [|by destruct ms]. apply conversation_app; [done|].
    rewrite <-(app_nil_r (zip_with _ _ _)). apply conv_turn; [done..| |constructor]. simpl.
    apply Forall2_same_length_lookup_2; [rewrite length_zip_with; lia|].
    intros i c m Hc Hm. apply lookup_zip_with_Some in Hm as (c' & r & -> & Hc' & _). by simplify_eq.
Qed.


(** ** SQL that reaches the database *)

Definition sql_justified (permissions : AgentSqlPermissions) (seen : list (event Call)) (e : event Call) : Prop :=
  match tool_event e with Some e => tool_call_ok permissions (tool_events seen) e | None => True end.

Lemma tool_events_mono seen seen' : seen ⊆ seen' → tool_events seen ⊆ tool_events seen'.
Proof.
  intros Hsub e (x & Hx & He)%list_elem_of_omap. apply list_elem_of_omap. exists x. split; [by apply Hsub|done].
Qed.

Instance justified_grows permissions : Grows (sql_justified permissions).
Proof.
  intros seen seen' e Hsub. unfold sql_justified. destruct (tool_event e); [|done]. apply grows. by apply tool_events_mono.
Qed.

Lemma justified_sound agent_ctx : Sound agent_ctx (sql_justified (sql_permissions agent_ctx)) (λ _, True).
Proof.
  constructor; try done. intros tc seen. unfold run_tool.
  apply (calls_ok_lift (tool_call_ok (sql_permissions agent_ctx))); [done|]. apply execute_tool_ok.
Qed.

(** The confirmation that lets a statement change data: there is one for this
    very text, the run is not on a production database, and neither is the
    statement by the configuration that was read before it. *)
Definition confirmed_write (production_database allow_write_sql : bool) (confirmed : option string) (t : Target) (sql : string)
    (seen : list (event ToolE)) : Prop :=
  production_database = false ∧ allow_write_sql = true
  ∧ (∃ c, confirmed = Some c ∧ trim c ≠ "" ∧ trim sql = trim c)
  ∧ ∃ cfg, Ev (ConnectionOf (connection_id t)) cfg ∈ seen
      ∧ ∀ cfg', cfg = Some cfg' → targets_production_database cfg' (chars (database t)) (chars sql) = false.


(** ** How much the model is asked *)

Definition streams (e : event Call) : nat :=
  match e with Ev call _ => match call with Stream _ _ _ => 1 | _ => 0 end end.

Lemma zero_cost (w : event Call → nat) {A} (p : prog Call A) :
  (∀ seen, calls_ok (λ _ e, w e = 0) p seen) → cost_le w 0 p.
Proof.
  intros H. specialize (H []). revert H. generalize (@nil (event Call)). induction p as [a|B call k IH]; intros seen H; [done|].
  intros b. destruct (H b) as [Hw Hk]. rewrite Hw. split; [lia|]. by eapply IH.
Qed.

Instance zero_grows (w : event Call → nat) : Grows (λ _ e, w e = 0).
Proof. by intros seen seen' e _. Qed.

Lemma streams_sound agent_ctx : Sound agent_ctx (λ _ e, streams e = 0) (λ _, False).
Proof. constructor; try done. intros tc seen. by apply lift_local. Qed.

Section streams.
Context (config : AiConfig) (agent_ctx : AgentLoopContext) (max_tokens : option Z) (is_agent_mode : bool).
Context (prompt : string) (tools : list ToolDefinition) (original : list AiMessage) (contract : option AiTaskContract).
Let sound := streams_sound agent_ctx.
#[local] Existing Instance sound.
Instance streams_end : SoundEnd (λ _ e, streams e = 0).
Proof. done. Qed.

Lemma stream_with_tools_cost request session : cost_le streams 1 (stream_with_tools request session tools).
Proof.
  unfold stream_with_tools. prog_simpl. intros []; (split; [cbn; lia|]); [done|]. intros r. split; [cbn; lia|].
  apply zero_cost. intros seen. apply (calls_ok_bind (λ _ e, streams e = 0)); [|done].
  apply (ok_on_events agent_ctx (λ _ e, streams e = 0) (λ _, False)), chunks_quiet.
Qed.

Lemma stream_attempts_cost turn left attempt s :
  cost_le streams left (stream_attempts config agent_ctx max_tokens prompt tools original contract turn left attempt s).
Proof.
  revert attempt s. induction left as [|left IH]; intros attempt s; [done|]. cbn [stream_attempts]. cbv zeta.
  apply (cost_le_bind streams 1 left); [apply stream_with_tools_cost|]. intros [chunks [[calls usage]|err]]; [done|].
  destruct (_ && negb _).
  { apply (cost_le_mono streams 0); [lia|]. apply zero_cost. intros seen.
    apply (ok_bind (λ _ e, streams e = 0)); [by apply (ok_emit agent_ctx (λ _ e, streams e = 0) (λ _, False))|]. intros _.
    apply (ok_bind (λ _ e, streams e = 0)); [|done]. apply (text_only_ok config agent_ctx max_tokens (λ _ e, streams e = 0) (λ _, False)). }
  destruct (_ && negb _); [|by destruct (String.eqb _ _)].
  apply (cost_le_bind streams 0 left).
  { apply zero_cost, (maybe_compact_calls config agent_ctx max_tokens (λ _ e, streams e = 0) (λ _, False)). }
  intros [[] ms]; [done|apply IH|done].
Qed.

Lemma one_turn_cost turn s :
  cost_le streams 2 (one_turn config agent_ctx max_tokens is_agent_mode prompt tools original contract turn s).
Proof.
  unfold one_turn. prog_simpl. intros []; (split; [cbn; lia|]); [done|]. cbn [streams Nat.sub].
  apply (cost_le_bind streams 0 2).
  { apply zero_cost, (maybe_compact_calls config agent_ctx max_tokens (λ _ e, streams e = 0) (λ _, False)). }
  assert (∀ st, cost_le streams 2 (prog_bind (on_event (TurnStart turn)) (λ _, prog_bind
    (stream_attempts config agent_ctx max_tokens prompt tools original contract turn 2 0 st) (λ r,
      match r with inr r => Ret (Return r) | inl st => after_streaming agent_ctx is_agent_mode tools contract turn s st end)))) as Hrest.
  { intros st. apply (cost_le_bind streams 0 2).
    - apply zero_cost, (ok_emit agent_ctx (λ _ e, streams e = 0) (λ _, False)); done.
    - intros _. apply (cost_le_bind streams 2 0); [apply stream_attempts_cost|]. intros [st'|r]; [|done].
      apply zero_cost, (after_streaming_calls agent_ctx is_agent_mode (λ _ e, streams e = 0) (λ _, False)). }
  intros [[] ms]; [apply Hrest|apply Hrest|done].
Qed.

Lemma turns_cost left turn s :
  cost_le streams (2 * left) (turns config agent_ctx max_tokens is_agent_mode prompt tools original contract left turn s).
Proof.
  revert turn s. induction left as [|left IH]; intros turn s; [done|]. cbn [turns].
  replace (2 * S left) with (2 + 2 * left) by lia. apply cost_le_bind; [apply one_turn_cost|]. intros [s'| | |]; [apply IH|done..].
Qed.
End streams.

(** However the model behaves, a run ends: it asks the model for at most two
    answers a turn, over a number of turns between 5 and 500 that the setting
    only chooses. *)
Theorem run_bounded (env : answers_of Call) config agent_ctx max_tokens is_agent_mode prompt messages contract :
  total streams (run env (run_agent_loop config agent_ctx max_tokens is_agent_mode prompt messages contract) []).2
    ≤ 2 * Z.to_nat (clamp_max_agent_turns (max_agent_turns agent_ctx))
  ∧ (5 ≤ clamp_max_agent_turns (max_agent_turns agent_ctx) ≤ 500)%Z
  ∧ ((5 ≤ max_agent_turns agent_ctx ≤ 500)%Z → clamp_max_agent_turns (max_agent_turns agent_ctx) = max_agent_turns agent_ctx).
Proof.
  split; [|unfold clamp_max_agent_turns, clamp, MIN_MAX_AGENT_TURNS, MAX_MAX_AGENT_TURNS;
           repeat match goal with |- context [(?a <? ?b)%Z] => destruct (Z.ltb_spec a b) end; lia].
  set (n := Z.to_nat _). apply (cost_le_run streams (2 * n) env _ []).
  pose proof (streams_sound agent_ctx) as Hsound. assert (SoundEnd (λ _ e, streams e = 0)) as Hend by done.
  unfold run_agent_loop. cbv zeta. fold n. destruct (is_cli (provider config)); [intros r; split; [cbn; lia|done]|].
  apply (cost_le_bind streams 0 (2 * n)); [apply zero_cost, (support_ok config agent_ctx (λ _ e, streams e = 0) (λ _, False))|].
  assert (∀ tools s, cost_le streams (2 * n) (prog_bind (turns config agent_ctx max_tokens is_agent_mode
            (augment_system_prompt_with_task_contract prompt contract is_agent_mode) tools messages contract n 0 s)
            (λ flow, match flow with Next s | Break s => finish s n | Return r => Ret (Returned r) | Panic => Ret Panicked end))) as Hturns.
  { intros tools s. replace (2 * n) with (2 * n + 0) by lia. apply cost_le_bind; [apply turns_cost|].
    intros [s'|s'|r|]; try done; apply zero_cost, (finish_ok agent_ctx (λ _ e, streams e = 0) (λ _, False)). }
  intros [[]|]; [apply Hturns| |apply Hturns|]; apply (cost_le_mono streams 0); try lia; apply zero_cost; intros seen.
  - apply (calls_ok_bind (λ _ e, streams e = 0)); [|done]. apply (text_only_ok config agent_ctx max_tokens (λ _ e, streams e = 0) (λ _, False)).
  - intros b; split; [done|]. by intros b'.
Qed.

(** ** How a run ends *)

Definition agent_end (e : event Call) : bool :=
  match e with Ev call _ => match call with Emit e => is_end e | _ => false end end.
Definition no_end (t : list (event Call)) : Prop := Forall (λ e, agent_end e = false) t.

(** What a result says of the calls: an answer comes with the last event
    [AgentEnd], an error is the failure of a text-only request. *)
Definition ended (r : result string string) (t : list (event Call)) : Prop :=
  match r with
  | Ok _ => ∃ t0 i o b, t = t0 ++ [Ev (Emit (AgentEnd i o)) b] ∧ no_end t0
  | Err e => no_end t ∧ ∃ t0 request, t = t0 ++ [Ev (Complete request) (Some (Err e))]
  end.

Lemma no_end_snoc t e : no_end t → agent_end e = false → no_end (t ++ [e]).
Proof. intros Ht He. apply Forall_app. auto. Qed.

Lemma quiet_sound agent_ctx : Sound agent_ctx (λ _ e, agent_end e = false) (λ _, True).
Proof. constructor; try done. intros tc seen. by apply lift_local. Qed.

Instance quiet_grows : Grows (λ _ e, agent_end e = false).
Proof. by intros seen seen' e _. Qed.

(** A program without [AgentEnd] keeps the calls free of it. *)
Lemma quiet_holds {A} (p : prog Call A) t :
  (∀ seen, calls_ok (λ _ e, agent_end e = false) p seen) → no_end t → holds p (λ _ t', no_end t') t.
Proof.
  intros Hp Ht. specialize (Hp t). revert t Hp Ht. induction p as [a|B call k IH]; intros t Hp Ht; [done|].
  intros b. destruct (Hp b) as [Hb Hk]. apply IH; [done|]. by apply no_end_snoc.
Qed.

Lemma no_end_bind {A C} (p : prog Call A) (f : A → prog Call C) Q t :
  (∀ seen, calls_ok (λ _ e, agent_end e = false) p seen) → no_end t →
  (∀ a t', no_end t' → holds (f a) Q t') → holds (prog_bind p f) Q t.
Proof. intros Hp Ht Hf. apply holds_bind. eapply holds_mono; [by apply quiet_holds|]. cbn. auto. Qed.

Lemma end_ended i o text t :
  no_end t → holds (prog_bind (on_event (AgentEnd i o)) (λ _, Ret (Ok text))) ended t.
Proof. intros Ht b. by eexists _, _, _, _. Qed.

Lemma answer_ended e i o text t :
  is_end e = false → no_end t →
  holds (prog_bind (on_event e) (λ _, prog_bind (on_event (AgentEnd i o)) (λ _, Ret (Ok text)))) ended t.
Proof. intros He Ht b. apply end_ended. by apply no_end_snoc. Qed.

Lemma text_only_loop_ended contract left request t :
  0 < left → no_end t → holds (text_only_loop contract left request) ended t.
Proof.
  revert request t. induction left as [|left IH]; intros request t Hleft Ht; [lia|]. cbn [text_only_loop]. prog_simpl.
  intros answer. assert (no_end (t ++ [Ev (Complete request) answer])) as Ht' by (by apply no_end_snoc).
  destruct answer as [[text|e]|]; [|cbn; eauto|by apply end_ended].
  destruct (validate_final_answer contract text) as [|reason]; [by apply answer_ended|].
  destruct (Nat.ltb_spec 0 left); [by apply IH|by apply answer_ended].
Qed.

Lemma text_only_ended config agent_ctx max_tokens prompt ms contract t :
  no_end t → holds (run_agent_loop_text_only config agent_ctx max_tokens prompt ms contract) ended t.
Proof.
  intros Ht. unfold run_agent_loop_text_only, build_schema_prompt. prog_simpl. intros tables cancelled.
  assert (no_end ((t ++ [Ev (Tool (ListTablesCore (target agent_ctx) (default "" (default_schema (target agent_ctx))) 50)) tables])
                  ++ [Ev CancelRequested cancelled])) as Ht' by (by repeat apply no_end_snoc).
  destruct cancelled; [by apply end_ended|apply text_only_loop_ended; [unfold MAX_CONTRACT_REPAIR_ATTEMPTS; lia|done]].
Qed.

Definition flow_ended (flow : Flow) (t : list (event Call)) : Prop :=
  match flow with Next _ | Break _ => no_end t | Return r => ended r t | Panic => False end.

Definition streaming_ended (r : Streaming + result string string) (t : list (event Call)) : Prop :=
  match r with
  | inl st => no_end t ∧ (should_break_turns (stream_exit st) = true ∨ is_Some (stream_result st))
  | inr r => ended r t
  end.

Section run_end.
Context (config : AiConfig) (agent_ctx : AgentLoopContext) (max_tokens : option Z) (is_agent_mode : bool).
Context (prompt : string) (tools : list ToolDefinition) (original : list AiMessage) (contract : option AiTaskContract).
Let sound := quiet_sound agent_ctx.
#[local] Existing Instance sound.
Abbreviation quiet := (λ _ e, agent_end e = false) (only parsing).

(** The attempts of a turn never end without an answer or a reason to stop: the
    error that [run_agent_loop] keeps for that case is never returned. *)
Lemma stream_attempts_ended turn left attempt s t :
  0 < left → attempt + left = 2 → no_end t →
  holds (stream_attempts config agent_ctx max_tokens prompt tools original contract turn left attempt s) streaming_ended t.
Proof.
  revert attempt s t. induction left as [|left IH]; intros attempt s t Hleft Hsum Ht; [lia|]. cbn [stream_attempts]. cbv zeta.
  apply no_end_bind; [by apply (stream_with_tools_ok agent_ctx quiet (λ _, True))|done|].
  intros [chunks [[calls usage]|err]] t' Ht'; [cbn; eauto|].
  destruct (_ && negb _).
  { apply no_end_bind; [by apply (ok_emit agent_ctx quiet (λ _, True))|done|]. intros _ t2 Ht2. apply holds_bind.
    eapply holds_mono; [by apply text_only_ended|]. by intros r t3 Hr. }
  destruct (Nat.eqb_spec attempt 0) as [->|Hne]; cbn [andb].
  - destruct (_ && negb _); [|destruct (String.eqb _ _); cbn; auto].
    apply no_end_bind; [apply (maybe_compact_calls config agent_ctx max_tokens quiet (λ _, True))|done|].
    intros [[] ms] t2 Ht2; [cbn; auto| |cbn; auto]. apply IH; [lia|lia|done].
  - destruct (String.eqb _ _); cbn; auto.
Qed.

Lemma tool_phase_ended s calls text t :
  no_end t → holds (tool_phase agent_ctx tools s calls text) flow_ended t.
Proof.
  intros Ht. unfold tool_phase. prog_simpl. intros cancelled.
  assert (no_end (t ++ [Ev CancelRequested cancelled])) as Ht1 by (by apply no_end_snoc). destruct cancelled; [done|].
  apply no_end_bind; [apply (ok_on_events agent_ctx quiet (λ _, True)), Forall_fmap, Forall_true; done|done|]. intros _ t2 Ht2.
  apply holds_bind. pose proof (holds_returns _ _ t2 (run_tools_returns agent_ctx tools calls)) as Hr.
  pose proof (quiet_holds (run_tools agent_ctx tools calls) t2 (run_tools_ok agent_ctx quiet (λ _, True) tools calls) Ht2) as Hq.
  eapply holds_mono; [exact (holds_and _ _ _ _ Hr Hq)|]. intros o t3 [(rs & -> & _) Ht3].
  apply no_end_bind; [|done|done]. apply (ok_on_events agent_ctx quiet (λ _, True)). clear. revert rs.
  induction calls as [|tc calls IH]; intros [|r rs]; constructor; [done|apply IH].
Qed.

Lemma after_streaming_ended turn s st t :
  should_break_turns (stream_exit st) = true ∨ is_Some (stream_result st) → no_end t →
  holds (after_streaming agent_ctx is_agent_mode tools contract turn s st) flow_ended t.
Proof.
  intros Hst Ht. unfold after_streaming. cbv zeta. destruct (should_break_turns _); [done|].
  destruct Hst as [|[[[calls usage] text] Hres]]; [done|]. rewrite Hres.
  apply no_end_bind; [by apply (ok_emit agent_ctx quiet (λ _, True))|done|]. intros _ t' Ht'.
  destruct calls; [|by apply tool_phase_ended]. unfold final_answer.
  destruct (validate_final_answer contract text) as [|reason]; [done|]. destruct (_ <? _); [done|].
  apply no_end_bind; [by apply (ok_emit agent_ctx quiet (λ _, True))|done|done].
Qed.

Lemma one_turn_ended turn s t :
  no_end t → holds (one_turn config agent_ctx max_tokens is_agent_mode prompt tools original contract turn s) flow_ended t.
Proof.
  intros Ht. unfold one_turn. prog_simpl. intros cancelled.
  assert (no_end (t ++ [Ev CancelRequested cancelled])) as Ht1 by (by apply no_end_snoc). destruct cancelled; [done|].
  apply no_end_bind; [apply (maybe_compact_calls config agent_ctx max_tokens quiet (λ _, True))|done|].
  intros [[] ms] t2 Ht2; [| |done].
  all: apply no_end_bind; [by apply (ok_emit agent_ctx quiet (λ _, True))|done|]; intros _ t3 Ht3; apply holds_bind.
  all: eapply holds_mono; [apply stream_attempts_ended; [lia|lia|done]|].
  all: intros [st|r] t4 Hr; [destruct Hr as [Ht4 Hst]; by apply after_streaming_ended|done].
Qed.

Lemma turns_ended left turn s t :
  no_end t → holds (turns config agent_ctx max_tokens is_agent_mode prompt tools original contract left turn s) flow_ended t.
Proof.
  revert turn s t. induction left as [|left IH]; intros turn s t Ht; [done|]. cbn [turns]. apply holds_bind.
  eapply holds_mono; [by apply one_turn_ended|]. intros [s'|s'|r|] t' Hf; [by apply IH|done..].
Qed.
End run_end.

Definition outcome_ended (o : Outcome) (t : list (event Call)) : Prop :=
  match o with Returned r => ended r t | Panicked => False end.

Lemma finish_ended s n t : no_end t → holds (finish s n) outcome_ended t.
Proof.
  intros Ht. unfold finish. cbv zeta. destruct (exit_message s n); intros b.
  - intros b'. cbn. eexists _, _, _, _. split; [reflexivity|]. by apply no_end_snoc.
  - cbn. by eexists _, _, _, _.
Qed.

(** How a run ends, for every provider that is not an external command. It
    never panics. When it returns a text, [AgentEnd] was emitted once, as the
    last call; when it returns an error, the last call was a text-only request
    that failed with it, and [AgentEnd] was not emitted. *)
Theorem run_ends (env : answers_of Call) config agent_ctx max_tokens is_agent_mode prompt messages contract
    (Hcli : is_cli (provider config) = false) :
  let run := run env (run_agent_loop config agent_ctx max_tokens is_agent_mode prompt messages contract) [] in
  match run.1 with Returned r => ended r run.2 | Panicked => False end.
Proof.
  apply (holds_run env _ outcome_ended []). unfold run_agent_loop. rewrite Hcli. cbv zeta.
  assert (no_end []) as Hnil by constructor. pose proof (quiet_sound agent_ctx) as Hsound.
  apply no_end_bind; [apply (support_ok config agent_ctx (λ _ e, agent_end e = false) (λ _, True))|done|].
  intros support t Ht.
  assert (∀ tools n s, holds (prog_bind (turns config agent_ctx max_tokens is_agent_mode
            (augment_system_prompt_with_task_contract prompt contract is_agent_mode) tools messages contract n 0 s)
            (λ flow, match flow with Next s | Break s => finish s n | Return r => Ret (Returned r) | Panic => Ret Panicked end))
            outcome_ended t) as Hturns.
  { intros tools n s. apply holds_bind. eapply holds_mono; [by apply turns_ended|].
    intros [s'|s'|r|] t' Hf; [by apply finish_ended|by apply finish_ended|done|done]. }
  destruct support as [[]|]; [apply Hturns| |apply Hturns|].
  - apply holds_bind. eapply holds_mono; [by apply text_only_ended|]. by intros r t' Hr.
  - intros b b'. cbn. eexists _, _, _, _. split; [reflexivity|]. by apply no_end_snoc.
Qed.
End theorems.

(** ** Gaps *)

Section gaps.
Context `{HU : UnicodeCase, HT : SqlTokenizer, HR : RegexEngine, HJ : JsonPrinter, HC : RiskClassifier, HX : ToolText}.
Context (config : AiConfig) (agent_ctx : AgentLoopContext) (max_tokens : option Z) (is_agent_mode : bool).
Context (prompt : string) (tools : list ToolDefinition) (original : list AiMessage) (contract : option AiTaskContract).

(** A turn that does not end the loop leaves [final_text] as it was; one that
    ends it is not exhausted. *)
Definition keeps_text (s : LoopState) (flow : Flow) : Prop :=
  match flow with
  | Next s' => final_text s' = final_text s ∧ loop_exit s' = loop_exit s
  | Break s' => loop_exit s' ≠ Exhausted
  | _ => True
  end.

Lemma one_turn_keeps_text turn s :
  returns (one_turn config agent_ctx max_tokens is_agent_mode prompt tools original contract turn s) (keeps_text s).
Proof.
  unfold one_turn. prog_simpl. intros []; [done|]. eapply prog_returns_bind; [apply returns_true|]. intros [[] ms] _; [| |done].
  all: eapply prog_returns_bind; [apply returns_true|]; intros ? _.
  all: eapply prog_returns_bind; [apply returns_true|]; intros [st|r] _; [|done].
  all: unfold after_streaming; cbv zeta; destruct (should_break_turns (stream_exit st)) eqn:Hb;
    [cbn; intros E; by rewrite E in Hb|].
  all: destruct (stream_result st) as [[[[|c calls] usage] text]|]; [| |done].
  all: eapply prog_returns_bind; [apply returns_true|]; intros ? _.
  1,3: unfold final_answer; destruct (validate_final_answer contract text) as [|reason]; [done|];
    destruct (_ <? _); [done|]; eapply prog_returns_bind; [apply returns_true|]; done.
  all: unfold tool_phase; prog_simpl; intros []; [done|]; eapply prog_returns_bind; [apply returns_true|]; intros ? _.
  all: eapply prog_returns_bind; [apply returns_true|]; intros [rs|] _; [|done]; eapply prog_returns_bind; [apply returns_true|]; done.
Qed.

Lemma turns_exhausted_text left turn s :
  returns (turns config agent_ctx max_tokens is_agent_mode prompt tools original contract left turn s)
    (λ flow, ∀ s', flow = Break s' → loop_exit s' = Exhausted → final_text s' = final_text s).
Proof.
  revert turn s. induction left as [|left IH]; intros turn s; [by intros s' [= <-]|]. cbn [turns].
  eapply prog_returns_bind; [apply one_turn_keeps_text|]. intros [s1|s1|r|] Hs1.
  - destruct Hs1 as [<- _]. apply IH.
  - intros s' [= <-] E. by destruct Hs1.
  - by intros s' [=].
  - by intros s' [=].
Qed.
End gaps.

(** An environment in which the model says [text] and calls [calls] in every
    turn, statements affect a row, and nobody cancels. *)
Definition tool_answer {B} (c : ToolE B) : B :=
  match c in ToolE B return B with
  | ListTablesCore _ _ _ => Ok [{| table_name := "orders"; table_type := "TABLE"; table_comment := None |}]
  | GetColumnsCore _ _ _ => Ok []
  | ConnectionOf _ => None
  | ExecuteSql _ _ _ _ => Ok {| columns := []; rows := []; execution_time_ms := 1; truncated := false |}
  | OracleExplain _ _ => Err "unsupported"
  | ListCollections _ => Ok []
  end.
Definition every_turn (text : string) (calls : list ToolCallRef) : answers_of Call := λ B call _,
  match call in Call B return B with
  | Tool c => tool_answer c
  | Poll _ => 0
  | CancelRequested => false
  | CancelWins => false
  | OllamaToolSupport _ => None
  | Complete _ => None
  | Stream _ _ _ => ([{| delta := text; reasoning_delta := None |}], Ok (calls, None))
  | CliAgent _ _ _ _ _ => Ok ""
  | Emit _ => ()
  end.

(** A classifier that knows SELECT, and writers that are not reached. *)
Definition select_is_read : RiskClassifier :=
  {| classify_sql_risk_for_database sql _ := Ok (if starts_with sql "SELECT" then ReadOnly else Write) |}.
Definition plain_text : ToolText :=
  {| build_table_data_select_sql _ _ table _ := ("SELECT * FROM " +:+ table)%string; path_segment s := s; query_value s := s;
     query_result_value _ := None |}.
Definition orders_target : Target :=
  {| connection_id := "c1"; database := "shop"; default_schema := None; target_db_type := Postgres |}.
Definition call_sql (sql : string) : ToolCallRef :=
  {| id := "t1"; name := "execute_query"; arguments := Object [("sql", VString sql)]; provider_payload := None |}.

Definition demo_run (permissions : AgentSqlPermissions) (is_agent_mode : bool) (text : string) (calls : list ToolCallRef)
    : Outcome * list (event Call) :=
  run (every_turn text calls)
    (@run_agent_loop ascii_case {| tokenize _ _ := None |} {| captures_iter _ _ := [] |} small_printer select_is_read plain_text
       {| provider := Openai; model := "gpt"; context_window := None |}
       {| target := orders_target; sql_permissions := permissions; max_agent_turns := 5 |} None is_agent_mode
       "" [plain_message "user" "Clean up."] None) [].

Definition executed_sql (e : event Call) : option string :=
  match e with Ev call _ => match call with Tool (ExecuteSql _ sql _ _) => Some sql | _ => None end end.

(** Four gaps of the loop. (1) A run that uses up its turns returns none of
    the text the model produced, for every model: the message about preserved
    partial output cannot occur. (2) It was streamed all the same. (3) One
    confirmation lets the same write run in every turn. (4) In a mode that
    offers only the reading tools, a call of [execute_query] is executed. *)
Theorem agent_gaps :
  (∀ (HU : UnicodeCase) (HT : SqlTokenizer) (HR : RegexEngine) (HJ : JsonPrinter) (HC : RiskClassifier) (HX : ToolText)
     (env : answers_of Call) config agent_ctx max_tokens is_agent_mode prompt tools messages contract turns_limit s t,
     (run env (turns config agent_ctx max_tokens is_agent_mode prompt tools messages contract turns_limit 0
                {| conversation := messages; final_text := ""; loop_exit := Exhausted;
                   total_usage := {| input_tokens := 0; output_tokens := 0 |}; contract_repair_attempts := 0 |}) t).1 = Break s →
     loop_exit s = Exhausted → final_text s = "")
  ∧ (let r := demo_run no_permissions true "There are 42 orders." [call_sql "SELECT 1"] in
     r.1 = Returned (Ok "Agent reached the 5-turn safety limit before producing output. Send Continue to let the agent keep working, or raise the limit in Settings → AI.")
     ∧ List.length (List.filter (λ e, match e with Ev call _ => match call with Emit (TextDelta d) => String.eqb d "There are 42 orders." | _ => false end end) r.2) = 5)
  ∧ omap executed_sql (demo_run (confirmed_write_sql_permissions false true (Some "DELETE FROM orders LIMIT 1")) true ""
                         [call_sql "DELETE FROM orders LIMIT 1"]).2 = replicate 5 "DELETE FROM orders LIMIT 1"
  ∧ (tool_name <$> read_only_tools Postgres = ["list_tables"; "get_columns"]
     ∧ omap executed_sql (demo_run no_permissions false "" [call_sql "SELECT 1"]).2 = replicate 5 "SELECT 1").
Proof.
  split; [|vm_compute; done].
  intros HU HT HR HJ HC HX env config agent_ctx max_tokens is_agent_mode prompt tools messages contract n s t Hrun Hexit.
  pose proof (turns_exhausted_text config agent_ctx max_tokens is_agent_mode prompt tools messages contract n 0
    {| conversation := messages; final_text := ""; loop_exit := Exhausted;
       total_usage := {| input_tokens := 0; output_tokens := 0 |}; contract_repair_attempts := 0 |}) as Hr.
  apply (holds_returns _ _ t), (holds_run env) in Hr. exact (Hr s Hrun Hexit).
Qed.

(** ** The theorems at concrete runs *)

Definition confirmed_delete : AgentSqlPermissions := confirmed_write_sql_permissions false true (Some "DELETE FROM orders LIMIT 1").

Lemma explain_of_postgres source explained :
  explain_sql (@build_explain_sql ascii_case (mk_explain_options (Some Postgres) None source)) = Some explained →
  ∃ r, explained = c "EXPLAIN (FORMAT JSON) " ++ r.
Proof.
  unfold build_explain_sql. cbn [database_type sql]. cbv zeta.
  repeat match goal with |- context [if ?b then _ else _] => destruct b; try discriminate end; intros [= <-]; eauto.
Qed.



Lemma run_ends_witness :
  match (demo_run no_permissions true "" []).1 with
  | Returned r => ended r (demo_run no_permissions true "" []).2
  | Panicked => False
  end.
Proof.
  apply (@run_ends ascii_case {| tokenize _ _ := None |} {| captures_iter _ _ := [] |} small_printer
           select_is_read plain_text (every_turn "" [])
           {| provider := Openai; model := "gpt"; context_window := None |}
           {| target := orders_target; sql_permissions := no_permissions; max_agent_turns := 5 |} None true ""
           [plain_message "user" "Clean up."] None). reflexivity.
Defined.
