(* ===== verification/AgentSafety.v ===== *)
(** * An agent over the classifier (agent_loop.rs, agent_tools.rs, sql_risk.rs)

    The agent loop with the classifier of SqlRisk in the place of its interface:
    what a run that holds no permission sends to a database, down to the syntax
    trees of the statements. *)
From S2P Require Import Prelude RustStr Json F64 SqlText SqlSplit SqlGuard SqlRisk ProductionSafety AgentContext AgentContract Prog AgentTools AgentLoop.

Section composition.
Context `{HU : UnicodeCase, HT : SqlTokenizer, HR : RegexEngine, HJ : JsonPrinter, HP : SqlParser, HX : ToolText}.

(** Why a text counts as a read: a search engine's reading request; a script
    whose statements, with all they execute, read, lock nothing and write in no
    way the dialect has; or a text the parser does not know and the keyword guard
    lets through. *)
Definition reads (sql : text) (d : DatabaseType) : Prop :=
  let dialect := resolve_dialect (parser_of d) in
  classify_search_engine_query_risk sql d = Some SqlGuard.ReadOnly
  ∨ classify_search_engine_query_risk sql d = None
    ∧ sql_contains_top_level_locking_clause sql dialect = false
    ∧ ((∃ first others, parse_sql dialect sql = Some (first :: others)
          ∧ has_dialect_specific_write sql d = false
          ∧ ∀ s, executed s (first :: others) → reading_statement s)
       ∨ (parse_sql dialect sql = None ∨ parse_sql dialect sql = Some []) ∧ is_write_sql_for_database sql d = false).

Lemma classified_reads sql d : classify_text_for_database sql d = Ok SqlRisk.ReadOnly → reads sql d.
Proof.
  unfold reads. destruct (classify_search_engine_query_risk sql d) as [risk|] eqn:Hs.
  { intros H. left. unfold classify_text_for_database in H. rewrite Hs in H. by destruct risk. }
  intros H. right. split; [done|]. destruct (parse_sql (resolve_dialect (parser_of d)) sql) as [[|first others]|] eqn:Hp.
  - apply read_risk_unparsed in H as [? ?]; [|done|by right]. by auto.
  - destruct (read_risk_read _ _ _ _ Hs Hp H) as (? & ? & ?). split; [done|]. left. by exists first, others.
  - apply read_risk_unparsed in H as [? ?]; [|done|by left]. by auto.
Qed.

End composition.

(** ** At a concrete run *)

Definition select_1_parser : SqlParser :=
  table_parser [("SELECT 1", [SQuery (mk_query None (Select None 0) [] 0)])].

Definition demo_env : answers_of Call := every_turn "" [call_sql "SELECT 1"].

