(* ===== verification/SqlImport.v ===== *)
(** * Preparing a SQL file for import (sql.rs: the import optimiser)

    Which statements of a dump are sent, skipped or merged: the executable
    comments and session statements of MySQL dumps, and the consecutive INSERTs
    into the same columns that become one INSERT of several rows. *)
From S2P Require Import Prelude RustStr SqlText SqlSplit.

(** ** Text *)

(** [str::len]: the bytes of a text. *)
Definition byte_len (l : text) : nat := sum_list (len_utf8 <$> l).

(** [split_whitespace().collect().join(" ")]. *)
Definition words_t (l : text) : list text := List.filter (λ w, negb (text_eqb w [])) (split_t is_whitespace l []).
Definition collapse (l : text) : text := join_t [32%N] (words_t l).
Definition uppercase_t (l : text) : text := to_ascii_uppercase_c <$> l.

(** [trim_start_matches(p)] of a prefix that is not empty. *)
Fixpoint trim_start_prefix (fuel : nat) (l p : text) : text :=
  match fuel with
  | 0 => l
  | S n => match strip_prefix_t l p with Some r => trim_start_prefix n r p | None => l end
  end.

Definition statement_summary (statement : text) : text :=
  let collapsed := collapse statement in
  if List.length collapsed <=? 120 then collapsed else take 120 collapsed.

(** ** What a target takes *)

Definition is_mysql_compatible_import_profile (profile : string) : bool :=
  existsb (String.eqb profile)
    ["mariadb"; "tidb"; "oceanbase"; "custom_mysql"; "doris"; "starrocks"; "manticoresearch"; "selectdb"; "goldendb"].

Definition profile_matches (f : string → bool) (driver_profile : option string) : bool :=
  match driver_profile with Some profile => f (to_ascii_lowercase profile) | None => false end.

Definition supports_connection_level_database_bootstrap_target (db_type : DatabaseType) (driver_profile : option string)
    : bool :=
  bool_decide (db_type ∈ [Mysql; Doris; StarRocks; Goldendb])
  || profile_matches (λ profile, is_mysql_compatible_import_profile profile && negb (String.eqb profile "manticoresearch"))
       driver_profile.

Definition is_mysql_compatible_import_target (db_type : DatabaseType) (driver_profile : option string) : bool :=
  bool_decide (db_type ∈ [Mysql; Doris; StarRocks; ManticoreSearch; Goldendb])
  || profile_matches is_mysql_compatible_import_profile driver_profile.

(** ** Executable comments *)

(** [leading_mysql_executable_comment_start]: the text from the comment on, or
    none; the code reads a character behind the end of a text of white space. *)
Inductive Leading : Type := CommentAt (rest : text) | NoCommentStart | ReadsBehindEnd.

(** Every turn drops a comment, so the length is enough fuel. *)
Fixpoint leading_comment (fuel : nat) (l : text) : Leading :=
  match fuel with
  | 0 => NoCommentStart
  | S n =>
      match l with
      | [] => NoCommentStart
      | _ =>
          match drop_while is_ascii_whitespace l with
          | [] => ReadsBehindEnd
          | 45%N :: 45%N :: r => leading_comment n (skip_to_newline r)
          | 35%N :: r => leading_comment n (skip_to_newline r)
          | (47%N :: 42%N :: r) as here =>
              if is_mysql_executable_comment_start r then CommentAt here
              else match after_block_comment r with Some r' => leading_comment n r' | None => NoCommentStart end
          | _ => NoCommentStart
          end
      end
  end.
Definition leading_mysql_executable_comment_start (statement : text) : Leading :=
  leading_comment (S (List.length statement)) statement.

(** [find_block_comment_close]: what is before the first end of a comment, and
    what follows it. *)
Fixpoint split_block_comment (l : text) : option (text * text) :=
  match l with
  | 42%N :: 47%N :: r => Some ([], r)
  | x :: l' => '(body, r) ← split_block_comment l'; Some (x :: body, r)
  | [] => None
  end.

(** The body of the comment the statement consists of. *)
Definition mysql_executable_comment_body (statement : text) : option text :=
  match leading_mysql_executable_comment_start statement with
  | CommentAt here =>
      let body := match here with
                  | _ :: _ :: 33%N :: r => r
                  | _ => drop 4 here
                  end in
      let body := drop_while (λ x, is_ascii_digit x || is_ascii_whitespace x) body in
      '(body, rest) ← split_block_comment body;
      if has_executable_sql_with_options rest SqlDialectProfile_default then None else Some body
  | NoCommentStart | ReadsBehindEnd => None
  end.

(** ** Statements of dumps *)

Definition is_mysql_key_toggle_statement (statement : text) : bool :=
  let upper := uppercase_t (collapse statement) in
  starts_with_t upper (c "ALTER TABLE ") && (ends_with_t upper (c " ENABLE KEYS") || ends_with_t upper (c " DISABLE KEYS")).

Definition is_mysql_lock_table_statement (statement : text) : bool :=
  let executable := leading_executable_sql_with_options statement SqlDialectProfile_default in
  let upper := uppercase_t (collapse executable) in
  text_eqb upper (c "UNLOCK TABLES") || (starts_with_t upper (c "LOCK TABLES ") && ends_with_t upper (c " WRITE")).

Definition is_mysql_session_restore_statement (statement : text) : bool :=
  let executable := leading_executable_sql_with_options statement mysql_compatible in
  let upper := uppercase_t (collapse executable) in
  if negb (starts_with_t upper (c "SET ")) then false
  else
    let assignment := trim_t (trim_start_prefix (List.length upper) upper (c "SET ")) in
    if starts_with_t assignment (c "@") then false
    else contains_t assignment (c "= @OLD_") || contains_t assignment (c "=@OLD_")
         || contains_t assignment (c "= @SAVED_") || contains_t assignment (c "=@SAVED_").

Inductive SqlFileStatementAction : Type := ActionExecute (sql : text) | ActionSkip.

Definition prepare_sql_file_statement (statement : text) (db_type : DatabaseType) (driver_profile : option string)
    : SqlFileStatementAction :=
  let statement := trim_t statement in
  let is_mysql_compatible_target := is_mysql_compatible_import_target db_type driver_profile in
  if is_mysql_compatible_target && is_mysql_lock_table_statement statement then ActionSkip
  else
    match mysql_executable_comment_body statement with
    | None =>
        if is_mysql_compatible_target && is_mysql_session_restore_statement statement then ActionSkip
        else ActionExecute statement
    | Some body =>
        if negb is_mysql_compatible_target then ActionSkip
        else
          let body := trim_t body in
          if text_eqb body [] || is_mysql_key_toggle_statement body || is_mysql_session_restore_statement body
          then ActionSkip else ActionExecute body
    end.

(** ** INSERTs *)

Definition ident_before (previous : option N) : bool := match previous with Some x => is_sql_ident_char x | None => false end.

(** [keyword_at], at the text [l] behind the character [previous]: the text
    behind the keyword. *)
Definition keyword_at (previous : option N) (l : text) (keyword : text) : option text :=
  let rest := drop (List.length keyword) l in
  if text_eq_ignore_ascii_case (take (List.length keyword) l) keyword && negb (ident_before previous)
     && negb (ident_before (head rest))
  then Some rest else None.

Definition starts_with_keyword (sql keyword : text) : bool := bool_decide (is_Some (keyword_at None sql keyword)).

(** [before] holds the characters in front of [l], the last one first. *)
Fixpoint find_values (s : SqlScanner) (depth : nat) (before l : text) : option (text * text) :=
  match l with
  | [] => None
  | ch :: l1 =>
      let s := scanner_step SqlDialectProfile_default s l in
      let next depth := find_values s depth (ch :: before) l1 in
      if is_masked s then next depth
      else if (ch =? 40)%N then next (S depth)
      else if (ch =? 41)%N then next (depth - 1)
      else if depth =? 0 then
        match keyword_at (head before) l (c "values") with
        | Some rest => Some (rev before, rest)
        | None =>
            match keyword_at (head before) l (c "value") with
            | Some rest => Some (rev before, rest)
            | None => next depth
            end
        end
      else next depth
  end.
(** The text before and behind the keyword. *)
Definition find_top_level_values_keyword (sql : text) : option (text * text) := find_values SqlScanner_new 0 [] sql.

(** The loop over the tail: whether a tuple is expected, the depth, whether one
    was seen; [None] if it is refused. *)
Fixpoint values_loop (s : SqlScanner) (expecting_tuple saw_tuple : bool) (depth : nat) (l : text) : option (bool * nat) :=
  match l with
  | [] => Some (saw_tuple, depth)
  | ch :: l1 =>
      let s := scanner_step SqlDialectProfile_default s l in
      if is_masked s then values_loop s expecting_tuple saw_tuple depth l1
      else if expecting_tuple then
        if is_whitespace ch || saw_tuple && (ch =? 44)%N then values_loop s true saw_tuple depth l1
        else if negb (ch =? 40)%N then None
        else values_loop s false true 1 l1
      else if (ch =? 40)%N then values_loop s false saw_tuple (S depth) l1
      else if (ch =? 41)%N then
        match depth with
        | 0 => None
        | S depth => values_loop s (depth =? 0) saw_tuple depth l1
        end
      else if (ch =? 44)%N && (depth =? 0) then values_loop s false saw_tuple depth l1
      else if (depth =? 0) && negb (is_whitespace ch) then None
      else values_loop s false saw_tuple depth l1
  end.

Definition parse_insert_values_tail (tail : text) : option text :=
  let tail := trim_t (trim_end_char 59 (trim_t tail)) in
  if text_eqb tail [] then None
  else match values_loop SqlScanner_new true false 0 tail with
       | Some (true, 0) => Some tail
       | _ => None
       end.

Fixpoint prefix_key_loop (s : SqlScanner) (previous_space : bool) (l : text) : text :=
  match l with
  | [] => []
  | ch :: l1 =>
      let s := scanner_step SqlDialectProfile_default s l in
      if sc_single s || sc_double s || sc_backtick s || bool_decide (is_Some (sc_tag s))
      then ch :: prefix_key_loop s false l1
      else if is_whitespace ch
      then if previous_space then prefix_key_loop s true l1 else 32%N :: prefix_key_loop s true l1
      else to_ascii_lowercase_c ch :: prefix_key_loop s false l1
  end.
Definition normalize_insert_prefix_key (prefix : text) : text := trim_t (prefix_key_loop SqlScanner_new false prefix).

Record MergeableInsert : Type := { ins_prefix : text; ins_prefix_key : text; ins_values : text; ins_sql : text }.

Definition parse_mergeable_insert (sql : text) (options : SqlDialectProfile) : option MergeableInsert :=
  let executable := trim_t (trim_end_char 59 (trim_t (leading_executable_sql_with_options sql options))) in
  if negb (starts_with_keyword executable (c "insert")) then None
  else
    '(before, after) ← find_top_level_values_keyword executable;
    let prefix := trim_end_t before in
    values ← parse_insert_values_tail (trim_t after);
    Some {| ins_prefix := prefix; ins_prefix_key := normalize_insert_prefix_key prefix; ins_values := values;
            ins_sql := executable |}.

(** ** Batches of INSERTs *)

Definition SQL_FILE_INSERT_BATCH_MAX_STATEMENTS : nat := 500.
Definition SQL_FILE_INSERT_BATCH_MAX_BYTES : nat := Z.to_nat (4 * 1024 * 1024).

Record PendingInsertBatch : Type := {
  batch_prefix : text; batch_prefix_key : text; batch_values : list text; batch_source_sqls : list text;
  batch_source_statement_count : nat; batch_byte_len : nat
}.

Definition batch_new (insert : MergeableInsert) : PendingInsertBatch :=
  {| batch_prefix := ins_prefix insert; batch_prefix_key := ins_prefix_key insert; batch_values := [ins_values insert];
     batch_source_sqls := [ins_sql insert]; batch_source_statement_count := 1;
     batch_byte_len := byte_len (ins_prefix insert) + byte_len (ins_values insert) + 16 |}.

Definition can_accept (b : PendingInsertBatch) (insert : MergeableInsert) : bool :=
  text_eqb (batch_prefix_key b) (ins_prefix_key insert)
  && (batch_source_statement_count b <? SQL_FILE_INSERT_BATCH_MAX_STATEMENTS)
  && (batch_byte_len b + byte_len (ins_values insert) + 3 <=? SQL_FILE_INSERT_BATCH_MAX_BYTES).

Definition batch_push (b : PendingInsertBatch) (insert : MergeableInsert) : PendingInsertBatch :=
  {| batch_prefix := batch_prefix b; batch_prefix_key := batch_prefix_key b;
     batch_values := batch_values b ++ [ins_values insert]; batch_source_sqls := batch_source_sqls b ++ [ins_sql insert];
     batch_source_statement_count := batch_source_statement_count b + 1;
     batch_byte_len := batch_byte_len b + (byte_len (ins_values insert) + 3) |}.

Definition merged_sql (prefix : text) (values : list text) : text :=
  prefix ++ c " VALUES" ++ [10%N] ++ join_t (c "," ++ [10%N]) values.

Definition batch_to_sql (b : PendingInsertBatch) : text :=
  if batch_source_statement_count b =? 1 then match batch_source_sqls b with sql :: _ => sql | [] => [] end
  else merged_sql (batch_prefix b) (batch_values b).

Inductive SqlFileImportStatementKind : Type := Execute | Skip.
#[export] Instance import_kind_eq_dec : EqDecision SqlFileImportStatementKind.
Proof. solve_decision. Defined.

Record SqlFileImportStatement : Type := {
  plan_kind : SqlFileImportStatementKind; plan_sql : text; source_sqls : list text; source_statement_count : nat
}.

Definition flush_pending_insert (optimized : list SqlFileImportStatement) (pending_insert : option PendingInsertBatch)
    : list SqlFileImportStatement :=
  match pending_insert with
  | Some b => optimized ++ [{| plan_kind := Execute; plan_sql := batch_to_sql b; source_sqls := batch_source_sqls b;
                               source_statement_count := batch_source_statement_count b |}]
  | None => optimized
  end.

Definition single (kind : SqlFileImportStatementKind) (sql : text) : SqlFileImportStatement :=
  {| plan_kind := kind; plan_sql := sql; source_sqls := [sql]; source_statement_count := 1 |}.

Section optimize.
Context (db_type : option DatabaseType) (driver_profile : option string).

Definition action_of (statement : text) : SqlFileStatementAction :=
  match db_type with
  | Some db_type => prepare_sql_file_statement statement db_type driver_profile
  | None => ActionExecute (trim_t statement)
  end.
Definition import_options : SqlDialectProfile :=
  match db_type with Some d => for_database_type d | None => SqlDialectProfile_default end.

Definition optimize_step (st : list SqlFileImportStatement * option PendingInsertBatch) (statement : text)
    : list SqlFileImportStatement * option PendingInsertBatch :=
  let '(optimized, pending_insert) := st in
  match action_of statement with
  | ActionSkip => (flush_pending_insert optimized pending_insert ++ [single Skip (trim_t statement)], None)
  | ActionExecute sql =>
      match parse_mergeable_insert sql import_options with
      | Some insert =>
          match pending_insert with
          | Some b =>
              if can_accept b insert then (optimized, Some (batch_push b insert))
              else (flush_pending_insert optimized pending_insert, Some (batch_new insert))
          | None => (optimized, Some (batch_new insert))
          end
      | None => (flush_pending_insert optimized pending_insert ++ [single Execute sql], None)
      end
  end.

Definition optimize_sql_file_import_statements (statements : list text) : list SqlFileImportStatement :=
  let '(optimized, pending_insert) := fold_left optimize_step statements ([], None) in
  flush_pending_insert optimized pending_insert.
End optimize.

(** ** How statements are grouped *)

(** The entry of the plan for consecutive INSERTs. *)
Definition insert_entry (first : MergeableInsert) (others : list MergeableInsert) : SqlFileImportStatement :=
  {| plan_kind := Execute;
     plan_sql := match others with
                 | [] => ins_sql first
                 | _ => merged_sql (ins_prefix first) (ins_values first :: (ins_values <$> others))
                 end;
     source_sqls := ins_sql first :: (ins_sql <$> others);
     source_statement_count := S (List.length others) |}.

Definition within_bounds (first : MergeableInsert) (others : list MergeableInsert) : Prop :=
  S (List.length others) ≤ SQL_FILE_INSERT_BATCH_MAX_STATEMENTS
  ∧ (others ≠ [] → byte_len (plan_sql (insert_entry first others)) ≤ SQL_FILE_INSERT_BATCH_MAX_BYTES).

Section grouped.
Context (db_type : option DatabaseType) (driver_profile : option string).

(** [statement] is sent as the INSERT [insert]. *)
Definition is_insert (statement : text) (insert : MergeableInsert) : Prop :=
  ∃ sql, action_of db_type driver_profile statement = ActionExecute sql
         ∧ parse_mergeable_insert sql (import_options db_type) = Some insert.

(** [Grouped statements plan]: the statements in their order, each skipped, sent
    alone, or part of a run of INSERTs with one prefix. *)
Inductive Grouped : list text → list SqlFileImportStatement → Prop :=
| grouped_nil : Grouped [] []
| grouped_skip statement rest plan :
    action_of db_type driver_profile statement = ActionSkip → Grouped rest plan →
    Grouped (statement :: rest) (single Skip (trim_t statement) :: plan)
| grouped_alone statement sql rest plan :
    action_of db_type driver_profile statement = ActionExecute sql →
    parse_mergeable_insert sql (import_options db_type) = None → Grouped rest plan →
    Grouped (statement :: rest) (single Execute sql :: plan)
| grouped_inserts statements first others rest plan :
    Forall2 is_insert statements (first :: others) →
    Forall (λ insert, ins_prefix_key insert = ins_prefix_key first) others →
    within_bounds first others → Grouped rest plan →
    Grouped (statements ++ rest) (insert_entry first others :: plan).

Lemma grouped_app ss ps ss' ps' : Grouped ss ps → Grouped ss' ps' → Grouped (ss ++ ss') (ps ++ ps').
Proof.
  induction 1 as [|st r p Ha _ IH|st sql r p Ha Hp _ IH|sts f o r p Hi Hk Hb _ IH]; intros H'; simpl.
  - done.
  - by constructor; auto.
  - by econstructor; eauto.
  - rewrite <-app_assoc. by econstructor; eauto.
Qed.

Lemma byte_len_app a b : byte_len (a ++ b) = byte_len a + byte_len b.
Proof. unfold byte_len. by rewrite fmap_app, sum_list_with_app. Qed.

(** The batch that holds [first] and [others]. *)
Definition batch_of (first : MergeableInsert) (others : list MergeableInsert) : PendingInsertBatch :=
  fold_left batch_push others (batch_new first).

Lemma batch_of_fields first others :
  let b := batch_of first others in
  batch_prefix b = ins_prefix first ∧ batch_prefix_key b = ins_prefix_key first
  ∧ batch_values b = ins_values first :: (ins_values <$> others)
  ∧ batch_source_sqls b = ins_sql first :: (ins_sql <$> others)
  ∧ batch_source_statement_count b = S (List.length others)
  ∧ batch_byte_len b = byte_len (ins_prefix first) + byte_len (ins_values first) + 16
                       + sum_list ((λ insert, byte_len (ins_values insert) + 3) <$> others).
Proof.
  cbv zeta. induction others as [|insert others IH] using rev_ind; [split_and!; simpl; try done; lia|].
  unfold batch_of in *. rewrite fold_left_app. cbn [fold_left batch_push batch_prefix batch_prefix_key batch_values
    batch_source_sqls batch_source_statement_count batch_byte_len]. destruct IH as (-> & -> & -> & -> & -> & ->).
  rewrite !fmap_app, length_app, sum_list_with_app. simpl. split_and!; try done; lia.
Qed.

Lemma byte_len_join sep v vs :
  byte_len (join_t sep (v :: vs)) = byte_len v + sum_list ((λ v, byte_len v + byte_len sep) <$> vs).
Proof.
  revert v. induction vs as [|w vs IH]; intros v; [simpl; lia|].
  change (join_t sep (v :: w :: vs)) with (v ++ sep ++ join_t sep (w :: vs)). rewrite !byte_len_app, IH, fmap_cons. simpl. lia.
Qed.

Lemma merged_len first others :
  byte_len (merged_sql (ins_prefix first) (ins_values first :: (ins_values <$> others))) ≤ batch_byte_len (batch_of first others).
Proof.
  destruct (batch_of_fields first others) as (_ & _ & _ & _ & _ & ->). unfold merged_sql. rewrite !byte_len_app, byte_len_join.
  assert (H : sum_list ((λ v, byte_len v + byte_len (c "," ++ [10%N])) <$> (ins_values <$> others))
              ≤ sum_list ((λ insert, byte_len (ins_values insert) + 3) <$> others)).
  { assert (byte_len (c "," ++ [10%N]) = 2) as -> by done. clear. induction others as [|i os IH]; [done|].
    rewrite !fmap_cons. cbn [sum_list_with]. unfold id in *. lia. }
  assert (byte_len (c " VALUES") = 7) as -> by done. assert (byte_len [10%N] = 1) as -> by done. lia.
Qed.

(** What the loop has built: groups, and a batch under way that is within its
    bounds. *)
Definition loop_invariant (statements : list text) (st : list SqlFileImportStatement * option PendingInsertBatch) : Prop :=
  match st.2 with
  | None => Grouped statements st.1
  | Some b =>
      ∃ before recent first others,
        statements = before ++ recent ∧ Grouped before st.1 ∧ Forall2 is_insert recent (first :: others)
        ∧ Forall (λ insert, ins_prefix_key insert = ins_prefix_key first) others ∧ b = batch_of first others
        ∧ S (List.length others) ≤ SQL_FILE_INSERT_BATCH_MAX_STATEMENTS
        ∧ (others ≠ [] → batch_byte_len b ≤ SQL_FILE_INSERT_BATCH_MAX_BYTES)
  end.

Lemma flushed statements st : loop_invariant statements st → Grouped statements (flush_pending_insert st.1 st.2).
Proof.
  destruct st as [optimized [b|]]; [|done]. intros (before & recent & first & others & -> & Hg & Hi & Hk & -> & Hn & Hb).
  cbn [fst snd] in *. unfold flush_pending_insert. destruct (batch_of_fields first others) as (Hp & _ & Hv & Hs & Hc & _).
  apply grouped_app; [done|]. rewrite <-(app_nil_r recent).
  assert ({| plan_kind := Execute; plan_sql := batch_to_sql (batch_of first others);
             source_sqls := batch_source_sqls (batch_of first others);
             source_statement_count := batch_source_statement_count (batch_of first others) |} = insert_entry first others) as ->.
  { unfold insert_entry, batch_to_sql. rewrite Hs, Hc, Hp, Hv. by destruct others. }
  constructor; [done|done| |constructor]. split; [done|]. intros Hne. etrans; [|by apply Hb].
  unfold insert_entry. cbn [plan_sql]. destruct others; [done|]. apply merged_len.
Qed.

Lemma step_invariant statements st statement :
  loop_invariant statements st →
  loop_invariant (statements ++ [statement]) (optimize_step db_type driver_profile st statement).
Proof.
  intros Hinv. pose proof (flushed _ _ Hinv) as Hf. destruct st as [optimized pending]. cbn [fst snd] in Hf.
  unfold optimize_step. destruct (action_of db_type driver_profile statement) as [sql|] eqn:Ha.
  2: { apply grouped_app; [done|]. constructor; [done|constructor]. }
  destruct (parse_mergeable_insert sql (import_options db_type)) as [insert|] eqn:Hp.
  2: { apply grouped_app; [done|]. econstructor; [done|done|constructor]. }
  assert (Hins : is_insert statement insert) by (by exists sql).
  assert (Hnew : loop_invariant (statements ++ [statement]) (flush_pending_insert optimized pending, Some (batch_new insert))).
  { exists statements, [statement], insert, []. split_and!; try done; [by repeat constructor|].
    unfold SQL_FILE_INSERT_BATCH_MAX_STATEMENTS. simpl. lia. }
  destruct pending as [b|]; [|exact Hnew]. destruct (can_accept b insert) eqn:Hc; [|exact Hnew].
  destruct Hinv as (before & recent & first & others & -> & Hg & Hi & Hk & -> & Hn & Hb). cbn [fst snd] in *.
  apply andb_true_iff in Hc as [[Hkey%bool_decide_eq_true Hcount%Nat.ltb_lt]%andb_true_iff Hbytes%Nat.leb_le].
  destruct (batch_of_fields first others) as (_ & Hk' & _ & _ & Hc' & _). rewrite Hk' in Hkey. rewrite Hc' in Hcount.
  exists before, (recent ++ [statement]), first, (others ++ [insert]). split_and!.
  - by rewrite app_assoc.
  - done.
  - change (first :: others ++ [insert]) with ((first :: others) ++ [insert]). apply Forall2_app; [done|]. by repeat constructor.
  - apply Forall_app. split; [done|]. by repeat constructor.
  - unfold batch_of. by rewrite fold_left_app.
  - rewrite length_app. simpl. lia.
  - intros _. cbn [batch_push batch_byte_len]. lia.
Qed.

Lemma optimized_grouped statements :
  Grouped statements (optimize_sql_file_import_statements db_type driver_profile statements).
Proof.
  unfold optimize_sql_file_import_statements.
  assert (H : loop_invariant statements (fold_left (optimize_step db_type driver_profile) statements ([], None))).
  { induction statements as [|st sts IH] using rev_ind; [constructor|]. rewrite fold_left_app. by apply step_invariant. }
  apply flushed in H. by destruct (fold_left _ _ _).
Qed.

(** The text a statement is sent as when it is sent alone. *)
Definition source_sql (statement : text) : text :=
  match action_of db_type driver_profile statement with
  | ActionSkip => trim_t statement
  | ActionExecute sql => match parse_mergeable_insert sql (import_options db_type) with Some insert => ins_sql insert | None => sql end
  end.

Lemma grouped_sources statements plan :
  Grouped statements plan → (plan ≫= source_sqls) = source_sql <$> statements.
Proof.
  induction 1 as [|st r p Ha _ IH|st sql r p Ha Hp _ IH|sts f o r p Hi Hk Hb _ IH]; [done|..].
  - rewrite bind_cons, IH, fmap_cons. unfold source_sql at 2. by rewrite Ha.
  - rewrite bind_cons, IH, fmap_cons. unfold source_sql at 2. by rewrite Ha, Hp.
  - rewrite bind_cons, IH, fmap_app. f_equal.
    change (source_sqls (insert_entry f o)) with (ins_sql <$> (f :: o)).
    clear -Hi. induction Hi as [|st ins sts inss (sql & Ha & Hp) _ IHi]; [done|]. rewrite !fmap_cons, IHi. f_equal.
    unfold source_sql. by rewrite Ha, Hp.
Qed.
End grouped.

(** ** What a list of VALUES says *)

(** A reference reading of a VALUES list: tuples separated by single commas and
    white space; inside a tuple, quotes and comments as the scanner reads them. *)
Inductive TupleMode : Type := TStart | TIn (depth : nat) (current : text) | TAfter | TComma.

Definition tuple_step (s : SqlScanner) (m : TupleMode) (ch : N) : option (TupleMode * list text) :=
  match m with
  | TIn depth current =>
      let current := current ++ [ch] in
      if is_masked s then Some (TIn depth current, [])
      else if (ch =? 40)%N then Some (TIn (S depth) current, [])
      else if (ch =? 41)%N then match depth with 0 => Some (TAfter, [current]) | S d => Some (TIn d current, []) end
      else Some (TIn depth current, [])
  | TStart => if negb (is_masked s) && (ch =? 40)%N then Some (TIn 0 [ch], []) else None
  | TAfter =>
      if is_masked s then None
      else if is_whitespace ch then Some (TAfter, [])
      else if (ch =? 44)%N then Some (TComma, []) else None
  | TComma =>
      if is_masked s then None
      else if is_whitespace ch then Some (TComma, [])
      else if (ch =? 40)%N then Some (TIn 0 [ch], []) else None
  end.

(** Reads [l], in front of [post]. *)
Fixpoint read_tuples (s : SqlScanner) (m : TupleMode) (l post : text) : option (SqlScanner * TupleMode * list text) :=
  match l with
  | [] => Some (s, m, [])
  | ch :: l1 =>
      let s := scanner_step SqlDialectProfile_default s (l ++ post) in
      '(m, ts) ← tuple_step s m ch;
      '(r, ts') ← read_tuples s m l1 post;
      Some (r, ts ++ ts')
  end.

(** The tuples of a list that starts with its first and ends with its last. *)
Definition values_tuples (v : text) : option (list text) :=
  match read_tuples SqlScanner_new TStart v [] with
  | Some (_, TAfter, ts) => if bool_decide (last v = Some 41%N) then Some ts else None
  | _ => None
  end.

(** No dollar sign, so no dollar-quoted text. *)
Definition dollar_free (l : text) : Prop := (36%N : N) ∉ l.

(** An INSERT up to its VALUES in the plain form: no comment and no dollar sign,
    and with a VALUES behind it read as an INSERT. *)
Fixpoint comment_free (s : SqlScanner) (l : text) : bool :=
  match l with
  | [] => true
  | _ :: l1 =>
      let s := scanner_step SqlDialectProfile_default s l in
      negb (sc_line s || sc_block s) && comment_free s l1
  end.
Definition plain_prefix (p : text) : bool :=
  bool_decide (trim_end_t p = p) && bool_decide (dollar_free p) && comment_free SqlScanner_new (p ++ [32%N])
  && starts_with_keyword (p ++ [32%N]) (c "insert")
  && bool_decide (find_top_level_values_keyword (p ++ c " VALUES(") = Some (p ++ [32%N], [40%N])).

Record plain_insert (insert : MergeableInsert) (ts : list text) : Prop := {
  plain_insert_prefix : plain_prefix (ins_prefix insert) = true;
  plain_insert_dollar : dollar_free (ins_values insert);
  plain_insert_tuples : values_tuples (ins_values insert) = Some ts;
  plain_insert_end : last (ins_sql insert) ≠ Some 59%N
}.

Section reading.

#[local] Arguments scanner_step : simpl never.

(** Outside quotes, comments and dollar quotes. *)
Definition at_rest (previous : option N) : SqlScanner := mk_scanner false false false false false None previous.

Lemma dollar_step_tag s l : sc_tag s = None → head l ≠ Some 36%N → sc_tag (scanner_step SqlDialectProfile_default s l) = None.
Proof.
  destruct l as [|ch l1]; [done|]. intros Ht Hd. unfold scanner_step. rewrite Ht. cbv zeta.
  assert (dollar_quote_tag_at_str (ch :: l1) = None) as ->.
  { unfold dollar_quote_tag_at_str. destruct ch as [|p]; [done|]. by repeat (destruct p as [p|p|]; try done). }
  repeat match goal with |- context [if ?b then _ else _] => destruct b end; done.
Qed.

(** What the scanner does depends on the next character only at a dash or a
    slash, unless there is a dollar sign. *)
Lemma step_lookahead s ch l1 l1' :
  sc_tag s = None → ch ≠ 36%N → head l1 = head l1' ∨ (ch ≠ 45%N ∧ ch ≠ 47%N) →
  scanner_step SqlDialectProfile_default s (ch :: l1) = scanner_step SqlDialectProfile_default s (ch :: l1').
Proof.
  intros Ht Hd Hl. unfold scanner_step. rewrite Ht. cbv zeta.
  assert (∀ l, dollar_quote_tag_at_str (ch :: l) = None) as Htag.
  { intros l. unfold dollar_quote_tag_at_str. destruct ch as [|p]; [done|]. by repeat (destruct p as [p|p|]; try done). }
  rewrite !Htag. destruct Hl as [->|[H1 H2]]; [done|].
  apply N.eqb_neq in H1 as ->. apply N.eqb_neq in H2 as ->. done.
Qed.

Lemma read_tuples_app s m l1 l2 post :
  read_tuples s m (l1 ++ l2) post
  = '(s', m', ts) ← read_tuples s m l1 (l2 ++ post);
    '(r, ts') ← read_tuples s' m' l2 post; Some (r, ts ++ ts').
Proof.
  revert s m. induction l1 as [|ch l1 IH]; intros s m; cbn [app read_tuples].
  - simpl. by destruct (read_tuples s m l2 post) as [[? ?]|].
  - rewrite <-app_assoc. destruct (tuple_step _ m ch) as [[m' ts]|]; [|done]. simpl. rewrite IH.
    destruct (read_tuples _ m' l1 (l2 ++ post)) as [[[s' m''] ts']|]; [|done]. simpl.
    destruct (read_tuples s' m'' l2 post) as [[r ts'']|]; [|done]. simpl. by rewrite app_assoc.
Qed.

(** The text behind does not matter. *)
Lemma read_tuples_post s m l post post' :
  sc_tag s = None → dollar_free l → last l ≠ Some 45%N → last l ≠ Some 47%N →
  read_tuples s m l post = read_tuples s m l post'.
Proof.
  revert s m. induction l as [|ch l IH]; intros s m Ht Hd H45 H47; [done|]. cbn [read_tuples app].
  apply not_elem_of_cons in Hd as [Hch Hd].
  rewrite (step_lookahead s ch (l ++ post) (l ++ post')); [|done|done|].
  2: { destruct l as [|x l]; [right|by left]. simpl in *. split; congruence. }
  destruct (tuple_step _ m ch) as [[m' ts]|]; [|done]. simpl. rewrite IH; [done| |done|..].
  - by apply dollar_step_tag; [done|simpl; congruence].
  - destruct l; [done|]. by rewrite last_cons_cons in H45.
  - destruct l; [done|]. by rewrite last_cons_cons in H47.
Qed.

Lemma read_tuples_rest s m l post s' m' ts :
  sc_tag s = None → dollar_free l → read_tuples s m l post = Some (s', m', ts) →
  sc_tag s' = None ∧ (l = [] ∨ sc_previous s' = last l).
Proof.
  revert s m ts. induction l as [|ch l IH]; intros s m ts Ht Hd; [intros [= <- _ _]; by split; [|left]|].
  cbn [read_tuples app]. apply not_elem_of_cons in Hd as [Hch Hd].
  set (s1 := scanner_step _ s _). assert (sc_tag s1 = None) as Ht1 by (apply dollar_step_tag; [done|simpl; congruence]).
  assert (sc_previous s1 = Some ch) as Hp1.
  { unfold s1, scanner_step. rewrite Ht. cbv zeta. repeat match goal with |- context [if ?b then _ else _] => destruct b end; done. }
  destruct (tuple_step s1 m ch) as [[m1 ts1]|]; [|done]. simpl.
  destruct (read_tuples s1 m1 l post) as [[[s2 m2] ts2]|] eqn:E; [|done]. intros [= -> -> <-].
  destruct l as [|x l]; [injection E as <- _ _; by split; [|right]|].
  apply IH in E as [? [?|Hl]]; [done| |done|done]. split; [done|right]. by rewrite last_cons_cons.
Qed.
Lemma step_at_rest previous ch l :
  ch ∉ [36; 39; 34; 96; 45; 47]%N → scanner_step SqlDialectProfile_default (at_rest previous) (ch :: l) = at_rest (Some ch).
Proof.
  intros H. rewrite !not_elem_of_cons in H. destruct H as (H36 & H39 & H34 & H96 & H45 & H47 & _).
  rewrite (step_lookahead _ ch l []); [|done|done|by right]. unfold scanner_step, at_rest, SQ, DQ, BT.
  cbn [sc_tag sc_single sc_double sc_backtick sc_line sc_block sc_previous head].
  assert (dollar_quote_tag_at_str [ch] = None) as ->.
  { unfold dollar_quote_tag_at_str. destruct ch as [|p]; [done|]. by repeat (destruct p as [p|p|]; try done). }
  apply N.eqb_neq in H39 as ->. apply N.eqb_neq in H34 as ->. apply N.eqb_neq in H96 as ->. apply N.eqb_neq in H45 as ->.
  by apply N.eqb_neq in H47 as ->.
Qed.

(** A closed decidable fact. *)
Ltac decided := apply (bool_decide_unpack _); vm_compute; exact I.

Lemma unmasked_at_rest s : is_masked s = false → s = at_rest (sc_previous s).
Proof. destruct s as [[] [] [] [] [] [] ?]; done. Qed.

Lemma after_tuple_unmasked s m l post s' ts :
  l ≠ [] → read_tuples s m l post = Some (s', TAfter, ts) → is_masked s' = false.
Proof.
  revert s m ts. induction l as [|ch l IH]; [done|]. intros s m ts _. cbn [read_tuples].
  set (s1 := scanner_step _ s _). destruct (tuple_step s1 m ch) as [[m1 ts1]|] eqn:Em; [|done]. simpl.
  destruct (read_tuples s1 m1 l post) as [[[s2 m2] ts2]|] eqn:E; [|done]. intros [= -> -> <-].
  destruct l as [|x l]; [|by eapply IH]. injection E as <- -> _. unfold tuple_step in Em.
  destruct m, (is_masked s1); try done; by repeat case_match.
Qed.

(** A list is read alike at the start and behind a comma. *)
Lemma read_list v ts previous m post :
  values_tuples v = Some ts → dollar_free v → m = TStart ∨ m = TComma →
  read_tuples (at_rest previous) m v post = Some (at_rest (Some 41%N), TAfter, ts).
Proof.
  unfold values_tuples. destruct (read_tuples SqlScanner_new TStart v []) as [[[s []] ts']|] eqn:E; try done.
  case_bool_decide as Hlast; [|done]. intros [= ->] Hd Hm. destruct v as [|ch v]; [done|].
  assert (E' : read_tuples (at_rest previous) m (ch :: v) post = Some (s, TAfter, ts)).
  { rewrite (read_tuples_post _ _ _ post []); [|done|done|by rewrite Hlast..]. rewrite <-E. change SqlScanner_new with (at_rest None) in *. cbn [read_tuples app tuple_step] in *.
    assert (Hch : ch = 40%N).
    { destruct (ch =? 40)%N eqn:Hc; [by apply N.eqb_eq|]. by rewrite andb_false_r in E. }
    subst ch. rewrite !step_at_rest by decided.
    by destruct Hm as [-> | ->]. }
  rewrite E'. assert (is_masked s = false) as ->%unmasked_at_rest by (eapply after_tuple_unmasked; [|exact E']; done).
  apply read_tuples_rest in E' as [_ [?|Hp]]; [done| |done|done]. cbn [at_rest sc_previous] in Hp. by rewrite Hp, Hlast.
Qed.

Definition list_separator : text := c "," ++ [10%N].

(** Joined lists hold the tuples of each. *)
Lemma read_joined v vs ts tss previous m post :
  values_tuples v = Some ts → dollar_free v → Forall2 (λ v ts, values_tuples v = Some ts ∧ dollar_free v) vs tss →
  m = TStart ∨ m = TComma →
  read_tuples (at_rest previous) m (join_t list_separator (v :: vs)) post
  = Some (at_rest (Some 41%N), TAfter, ts ++ List.concat tss).
Proof.
  intros Hv Hd Hvs. revert v ts previous m Hv Hd.
  induction Hvs as [|w ts' vs tss [Hw Hdw] _ IH]; intros v ts previous m Hv Hd Hm.
  - cbn [join_t List.concat]. rewrite app_nil_r. by apply read_list.
  - change (join_t list_separator (v :: w :: vs)) with (v ++ list_separator ++ join_t list_separator (w :: vs)).
    rewrite read_tuples_app, (read_list v ts) by done. cbn [mbind option_bind].
    rewrite read_tuples_app. set (rest := join_t list_separator (w :: vs) ++ post).
    assert (read_tuples (at_rest (Some 41%N)) TAfter list_separator rest = Some (at_rest (Some 10%N), TComma, [])) as ->.
    { change list_separator with [44%N; 10%N]. cbn [read_tuples app]. by rewrite !step_at_rest by decided. }
    cbn [mbind option_bind].
    rewrite (IH w ts' (Some 10%N) TComma) by auto. done.
Qed.

Definition m_expecting (m : TupleMode) : bool := match m with TIn _ _ => false | _ => true end.
Definition m_saw (m : TupleMode) : bool := match m with TStart => false | _ => true end.
Definition m_depth (m : TupleMode) : nat := match m with TIn d _ => S d | _ => 0 end.

(** What the reference accepts, the code accepts. *)
Lemma values_loop_tuples l : ∀ s m s' m' ts,
  read_tuples s m l [] = Some (s', m', ts) →
  values_loop s (m_expecting m) (m_saw m) (m_depth m) l = Some (m_saw m', m_depth m').
Proof.
  induction l as [|ch l IH]; intros s m s' m' ts; [by intros [= _ <- _]|]. cbn [read_tuples values_loop].
  rewrite app_nil_r. set (s1 := scanner_step _ s _). destruct (tuple_step s1 m ch) as [[m1 ts1]|] eqn:Em; [|done]. simpl.
  destruct (read_tuples s1 m1 l []) as [[[s2 m2] ts2]|] eqn:E; [|done]. intros [= -> -> <-]. apply IH in E.
  destruct m as [|d cur| |]; cbn [tuple_step m_expecting m_saw m_depth] in *; destruct (is_masked s1); cbn [negb andb] in *; try done.
  - destruct (ch =? 40)%N eqn:H40; [|done]. injection Em as <- _. apply N.eqb_eq in H40 as ->. exact E.
  - by injection Em as <- _.
  - destruct (ch =? 40)%N; [by injection Em as <- _|]. destruct (ch =? 41)%N.
    + destruct d; injection Em as <- _; exact E.
    + injection Em as <- _. rewrite andb_false_r. exact E.
  - destruct (is_whitespace ch) eqn:Hw; [by injection Em as <- _|]. destruct (ch =? 44)%N eqn:H44; [|done].
    injection Em as <- _. exact E.
  - destruct (is_whitespace ch) eqn:Hw; [by injection Em as <- _|]. destruct (ch =? 40)%N eqn:H40; [|done].
    injection Em as <- _. apply N.eqb_eq in H40 as ->. exact E.
Qed.
Lemma keyword_at_app previous l r kw :
  List.length kw < List.length l → keyword_at previous (l ++ r) kw = (λ rest, rest ++ r) <$> keyword_at previous l kw.
Proof.
  intros H. unfold keyword_at. rewrite take_app_le, drop_app_le by lia.
  assert (head (drop (List.length kw) l ++ r) = head (drop (List.length kw) l)) as ->.
  { destruct (drop (List.length kw) l) as [|x l'] eqn:E; [|done]. apply (f_equal List.length) in E. rewrite length_drop in E. simpl in E. lia. }
  by destruct (_ && _).
Qed.

Lemma keyword_at_values x r :
  is_sql_ident_char x = false → keyword_at (Some 32%N) (c "VALUES" ++ x :: r) (c "values") = Some (x :: r).
Proof.
  intros Hx. unfold keyword_at. change (List.length (c "values")) with (List.length (c "VALUES")).
  rewrite take_app_length, drop_app_length. cbn [head ident_before]. rewrite Hx.
  by assert (text_eq_ignore_ascii_case (c "VALUES") (c "values") = true) as -> by (vm_compute; reflexivity).
Qed.

(** One turn of [find_values]: the keyword is at [l], or the next depth. *)
Definition values_at (before l : text) : option text :=
  match keyword_at (head before) l (c "values") with
  | Some rest => Some rest
  | None => keyword_at (head before) l (c "value")
  end.
Definition is_code (s : SqlScanner) (depth : nat) (ch : N) : bool :=
  negb (is_masked s) && negb (ch =? 40)%N && negb (ch =? 41)%N && (depth =? 0).
Definition next_depth (s : SqlScanner) (depth : nat) (ch : N) : nat :=
  if is_masked s then depth else if (ch =? 40)%N then S depth else if (ch =? 41)%N then depth - 1 else depth.

Lemma find_values_step s depth before ch l1 :
  let s' := scanner_step SqlDialectProfile_default s (ch :: l1) in
  find_values s depth before (ch :: l1)
  = match (if is_code s' depth ch then values_at before (ch :: l1) else None) with
    | Some rest => Some (rev before, rest)
    | None => find_values s' (next_depth s' depth ch) (ch :: before) l1
    end.
Proof.
  cbn [find_values]. unfold is_code, next_depth, values_at. destruct (is_masked _); [done|]. destruct (ch =? 40)%N; [done|].
  destruct (ch =? 41)%N; [done|]. destruct (depth =? 0); [|done]. cbn [negb andb].
  destruct (keyword_at _ _ (c "values")); [done|]. by destruct (keyword_at _ _ _).
Qed.

Lemma find_values_length l : ∀ s depth before b rest,
  find_values s depth before l = Some (b, rest) → List.length before ≤ List.length b.
Proof.
  induction l as [|ch l IH]; intros s depth before b rest; [done|]. rewrite find_values_step.
  destruct (if is_code _ _ _ then _ else _); [intros [= <- _]; by rewrite length_rev|]. intros H%IH. simpl in H. lia.
Qed.

Lemma values_at_app before l r :
  6 < List.length l → values_at before (l ++ r) = (λ rest, rest ++ r) <$> values_at before l.
Proof.
  intros H. unfold values_at. rewrite !keyword_at_app by (change (List.length (c "values")) with 6; change (List.length (c "value")) with 5; lia).
  by destruct (keyword_at _ l (c "values")).
Qed.

(** Where VALUES is found does not depend on what follows it. *)
Lemma find_values_behind x1 r1 x2 r2 p : ∀ s depth before,
  is_sql_ident_char x1 = false → is_sql_ident_char x2 = false → sc_tag s = None → dollar_free p →
  find_values s depth before (p ++ 32%N :: c "VALUES" ++ x1 :: r1) = Some (rev before ++ p ++ [32%N], x1 :: r1) →
  find_values s depth before (p ++ 32%N :: c "VALUES" ++ x2 :: r2) = Some (rev before ++ p ++ [32%N], x2 :: r2).
Proof.
  assert (Hstep : ∀ s depth before ch l rest q,
            find_values s depth before (ch :: l) = Some (rev before ++ ch :: q, rest) →
            let s' := scanner_step SqlDialectProfile_default s (ch :: l) in
            (if is_code s' depth ch then values_at before (ch :: l) else None) = None
            ∧ find_values s' (next_depth s' depth ch) (ch :: before) l = Some (rev (ch :: before) ++ q, rest)).
  { intros s depth before ch l rest q. rewrite find_values_step. cbv zeta. destruct (if is_code _ _ _ then _ else _).
    - intros [= H _]. apply (f_equal List.length) in H. rewrite length_app in H. simpl in H. lia.
    - intros ->. split; [done|]. simpl. by rewrite <-app_assoc. }
  induction p as [|ch p IH]; intros s depth before Hx1 Hx2 Ht Hd H.
  - cbn [app] in *. apply Hstep in H as [Hn H]. rewrite find_values_step.
    rewrite (step_lookahead s 32 (c "VALUES" ++ x2 :: r2) (c "VALUES" ++ x1 :: r1)) by (done || by left).
    set (s1 := scanner_step _ s _) in *. assert (Ht1 : sc_tag s1 = None) by (by apply dollar_step_tag).
    assert (Hn' : ∀ r, values_at before (32%N :: c "VALUES" ++ r) = None).
    { intros r. change (32%N :: c "VALUES" ++ r) with ((32%N :: c "VALUES") ++ r). rewrite values_at_app by (vm_compute; lia).
      unfold values_at, keyword_at. assert (∀ kw b1 b2, kw = c "values" ∨ kw = c "value" →
         (text_eq_ignore_ascii_case (take (List.length kw) (32%N :: c "VALUES")) kw && b1 && b2) = false) as Hf.
      { intros kw b1 b2 [-> | ->]; by vm_compute. }
      by rewrite !Hf by auto. }
    rewrite Hn'. assert (∀ b : bool, (if b then None else None) = @None text) as -> by (by intros []).
    set (d1 := next_depth s1 depth 32) in *.
    change (c "VALUES") with (86%N :: c "ALUES") in *. cbn [app] in *. rewrite find_values_step in H |- *.
    rewrite (step_lookahead s1 86 (c "ALUES" ++ x2 :: r2) (c "ALUES" ++ x1 :: r1)) by (done || by left).
    set (s2 := scanner_step _ s1 _) in *.
    assert (Hv : ∀ x r, is_sql_ident_char x = false → values_at (32%N :: before) (86%N :: c "ALUES" ++ x :: r) = Some (x :: r)).
    { intros x r Hx. unfold values_at. change (86%N :: c "ALUES" ++ x :: r) with (c "VALUES" ++ x :: r). cbn [head].
      by rewrite keyword_at_values. }
    destruct (is_code s2 d1 86); [by rewrite !Hv in * |].
    exfalso. apply find_values_length in H. rewrite !length_app, length_rev in H. simpl in H. lia.
  - cbn [app] in *. apply not_elem_of_cons in Hd as [Hch Hd].
    apply Hstep in H as [Hn H]. rewrite find_values_step.
    assert (Hhead : head (p ++ 32%N :: c "VALUES" ++ x2 :: r2) = head (p ++ 32%N :: c "VALUES" ++ x1 :: r1)) by (by destruct p).
    rewrite (step_lookahead s ch _ _ Ht (not_eq_sym Hch) (or_introl Hhead)). set (s1 := scanner_step _ s _) in *.
    assert (Ha : ∀ r, values_at before (ch :: p ++ 32%N :: c "VALUES" ++ r)
                 = (λ rest, rest ++ r) <$> values_at before (ch :: p ++ 32%N :: c "VALUES")).
    { intros r. change (ch :: p ++ 32%N :: c "VALUES" ++ r) with ((ch :: p) ++ (32%N :: c "VALUES") ++ r).
      rewrite app_assoc. rewrite values_at_app; [done|]. rewrite length_app. change (List.length (32%N :: c "VALUES")) with 7. lia. }
    rewrite Ha in Hn |- *.
    assert ((if is_code s1 depth ch then (λ rest, rest ++ x2 :: r2) <$> values_at before (ch :: p ++ 32%N :: c "VALUES") else None) = None) as ->.
    { destruct (is_code s1 depth ch); [|done]. by destruct (values_at before (ch :: p ++ 32%N :: c "VALUES")). }
    rewrite (IH s1 (next_depth s1 depth ch) (ch :: before)); [simpl; by rewrite <-app_assoc|done|done| |done|done].
    apply dollar_step_tag; [done|]. simpl. congruence.
Qed.

(** Texts that trimming leaves alone. *)
Lemma drop_while_head {A} (f : A → bool) l : (∀ x, head l = Some x → f x = false) → drop_while f l = l.
Proof. destruct l as [|x l]; [done|]. intros H. simpl. by rewrite H. Qed.

Lemma last_rev {A} (l : list A) : head (rev l) = last l.
Proof. induction l as [|x l _] using rev_ind; [done|]. by rewrite rev_unit, last_snoc. Qed.

Lemma trim_end_same (f : N → bool) l : (∀ x, last l = Some x → f x = false) → rev (drop_while f (rev l)) = l.
Proof. intros H. rewrite drop_while_head; [apply rev_involutive|]. intros x. rewrite last_rev. apply H. Qed.

Definition framed (l : text) : Prop :=
  (∃ x, head l = Some x ∧ is_whitespace x = false) ∧ last l = Some 41%N.

Lemma trim_framed l : framed l → trim_t l = l ∧ trim_end_char 59 l = l.
Proof.
  intros [(x & Hh & Hx) Hl]. unfold trim_t, trim_end_t, trim_start_t, trim_end_char. split.
  - rewrite (drop_while_head _ l) by (intros y ?; congruence). apply trim_end_same. intros y. rewrite Hl. by intros [= <-].
  - apply trim_end_same. intros y. rewrite Hl. by intros [= <-].
Qed.

Lemma values_framed v ts : values_tuples v = Some ts → head v = Some 40%N ∧ last v = Some 41%N.
Proof.
  unfold values_tuples. destruct (read_tuples _ TStart v []) as [[[s []] ts']|] eqn:E; try done.
  case_bool_decide as Hl; [|done]. intros _. split; [|done]. destruct v as [|ch v]; [done|]. cbn [read_tuples tuple_step] in E.
  destruct (ch =? 40)%N eqn:Hc; [apply N.eqb_eq in Hc as ->; done|]. by rewrite andb_false_r in E.
Qed.

Lemma joined_framed v vs ts tss :
  values_tuples v = Some ts → Forall2 (λ v ts, values_tuples v = Some ts ∧ dollar_free v) vs tss →
  head (join_t list_separator (v :: vs)) = Some 40%N ∧ last (join_t list_separator (v :: vs)) = Some 41%N.
Proof.
  intros Hv Hvs. revert v ts Hv. induction Hvs as [|w ts' vs tss [Hw _] _ IH]; intros v ts Hv; [by eapply values_framed|].
  change (join_t list_separator (v :: w :: vs)) with (v ++ list_separator ++ join_t list_separator (w :: vs)).
  destruct (values_framed _ _ Hv) as [Hh _]. destruct (IH w ts' Hw) as [Hh' Hl']. split; [by destruct v|].
  rewrite app_assoc, last_app. by rewrite Hl'.
Qed.

Lemma prefix_starts p : starts_with_keyword (p ++ [32%N]) (c "insert") = true → 6 ≤ List.length p ∧ ∃ x p', p = x :: p' ∧ to_ascii_lowercase_c x = 105%N.
Proof.
  unfold starts_with_keyword. intros H%bool_decide_eq_true. unfold keyword_at in H.
  destruct (text_eq_ignore_ascii_case _ _) eqn:E; [|by destruct H]. clear H. unfold text_eq_ignore_ascii_case in E.
  apply bool_decide_eq_true in E. change (to_ascii_lowercase_c <$> c "insert") with [105; 110; 115; 101; 114; 116]%N in E.
  change (List.length (c "insert")) with 6 in E. split.
  - assert (Hlen := f_equal List.length E). rewrite length_fmap, length_take, length_app in Hlen. cbn [List.length] in Hlen.
    destruct (decide (List.length p = 5)) as [Hp|]; [|lia]. exfalso.
    rewrite take_ge in E by (rewrite length_app; simpl; lia). rewrite fmap_app in E. change (to_ascii_lowercase_c <$> [32%N]) with [32%N] in E.
    apply (f_equal last) in E. by rewrite last_snoc in E.
  - destruct p as [|x p]; [done|]. exists x, p. split; [done|]. by injection E.
Qed.

Lemma insert_letter x : to_ascii_lowercase_c x = 105%N → x = 105%N ∨ x = 73%N.
Proof. unfold to_ascii_lowercase_c. destruct (is_ascii_uppercase x); [|by left]. intros H. right. lia. Qed.

Lemma trim_end_prefix l : ∃ r, l = trim_end_t l ++ r.
Proof.
  unfold trim_end_t. exists (rev (take (List.length l - List.length (drop_while is_whitespace (rev l))) (rev l))).
  rewrite <-rev_app_distr. rewrite <-(rev_involutive l) at 1. f_equal.
  assert (H : ∀ k : text, k = take (List.length k - List.length (drop_while is_whitespace k)) k ++ drop_while is_whitespace k).
  { induction k as [|x k IH]; [done|]. simpl. destruct (is_whitespace x).
    - assert (List.length (drop_while is_whitespace k) ≤ List.length k).
      { rewrite IH at 2. rewrite length_app. lia. }
      rewrite Nat.sub_succ_l by lia. simpl. by rewrite <-IH.
    - by rewrite Nat.sub_diag. }
  rewrite (H (rev l)) at 1. by rewrite length_rev.
Qed.

Lemma trim_trimmed l : trim_t (trim_t l) = trim_t l.
Proof.
  assert (Hs : ∀ (f : N → bool) l, drop_while f (drop_while f l) = drop_while f l).
  { intros f k. induction k as [|x k IH]; [done|]. simpl. destruct (f x) eqn:Hx; [done|]. simpl. by rewrite Hx. }
  assert (Hend : ∀ k, trim_end_t (trim_end_t k) = trim_end_t k) by (intros k; unfold trim_end_t; by rewrite rev_involutive, Hs).
  unfold trim_t.
  assert (Hstart : trim_start_t (trim_end_t (trim_start_t l)) = trim_end_t (trim_start_t l)); [|by rewrite Hstart, Hend].
  unfold trim_start_t at 1. apply drop_while_head. intros x Hx. unfold trim_end_t in Hx.
  assert (Hhead : head (trim_start_t l) = Some x).
  { destruct (trim_end_prefix (trim_start_t l)) as [r Hr]. rewrite Hr. unfold trim_end_t. by destruct (rev (drop_while is_whitespace (rev (trim_start_t l)))). }
  unfold trim_start_t in Hhead. clear -Hhead. induction l as [|y l IH]; [done|]. simpl in Hhead. destruct (is_whitespace y) eqn:Hy; [by apply IH|].
  by injection Hhead as ->.
Qed.

(** What is sent for an INSERT reads as that INSERT. *)
Lemma sent_insert_reads sql options insert :
  parse_mergeable_insert sql options = Some insert → last (ins_sql insert) ≠ Some 59%N →
  parse_mergeable_insert (ins_sql insert) options = Some insert.
Proof.
  unfold parse_mergeable_insert at 1. set (executable := trim_t (trim_end_char 59 _)).
  destruct (starts_with_keyword executable (c "insert")) eqn:Hkw; [|done]. cbn [negb].
  destruct (find_top_level_values_keyword executable) as [[before after]|] eqn:Hf; [|done]. cbn [mbind option_bind].
  destruct (parse_insert_values_tail (trim_t after)) as [values|] eqn:Ht; [|done]. intros [= <-] Hlast. cbn [ins_sql] in *.
  unfold parse_mergeable_insert.
  assert (leading_executable_sql_with_options executable options = executable) as ->.
  { clear -Hkw. unfold starts_with_keyword in Hkw. apply bool_decide_eq_true in Hkw. unfold keyword_at in Hkw.
    destruct (text_eq_ignore_ascii_case _ _) eqn:E; [|by destruct Hkw]. unfold text_eq_ignore_ascii_case in E. apply bool_decide_eq_true in E.
    destruct executable as [|x l]; [done|]. injection E as Hx _. unfold leading_executable_sql_with_options.
    by destruct (insert_letter x Hx) as [-> | ->]. }
  assert (trim_t executable = executable) as Htrim by apply trim_trimmed.
  assert (trim_end_char 59 executable = executable) as Hend.
  { unfold trim_end_char. apply trim_end_same. intros x Hx. apply N.eqb_neq. congruence. }
  rewrite Htrim, Hend, Htrim, Hkw. cbn [negb]. rewrite Hf. cbn [mbind option_bind]. by rewrite Ht.
Qed.

(** Merged INSERTs read as one INSERT with the tuples of all. *)
Lemma merged_read options first others ts tss :
  plain_insert first ts → Forall2 plain_insert others tss →
  let values := join_t list_separator (ins_values first :: (ins_values <$> others)) in
  let sql := merged_sql (ins_prefix first) (ins_values first :: (ins_values <$> others)) in
  parse_mergeable_insert sql options
  = Some {| ins_prefix := ins_prefix first; ins_prefix_key := normalize_insert_prefix_key (ins_prefix first);
            ins_values := values; ins_sql := sql |}
  ∧ values_tuples values = Some (ts ++ List.concat tss).
Proof.
  intros [Hp Hd Ht _] Hothers values sql.
  apply andb_true_iff in Hp as [[[[Htrim%bool_decide_eq_true Hdp%bool_decide_eq_true]%andb_true_iff _]%andb_true_iff Hins]%andb_true_iff
                                Hfind%bool_decide_eq_true].
  assert (Hvs : Forall2 (λ v ts, values_tuples v = Some ts ∧ dollar_free v) (ins_values <$> others) tss).
  { apply Forall2_fmap_l. eapply Forall2_impl; [exact Hothers|]. by intros i t []. }
  pose proof (read_joined _ _ ts tss None TStart [] Ht Hd Hvs (or_introl eq_refl)) as Hread.
  destruct (joined_framed _ _ _ _ Ht Hvs) as [Hhead Hlast]. fold values in Hread, Hhead, Hlast.
  assert (Hframed : framed values) by (split; [by exists 40%N|done]).
  assert (Hvalues : parse_insert_values_tail values = Some values).
  { destruct (trim_framed _ Hframed) as [H1 H2]. unfold parse_insert_values_tail. rewrite H1, H2, H1.
    destruct (text_eqb values []) eqn:E; [apply bool_decide_eq_true in E; by rewrite E in Hlast|].
    apply values_loop_tuples in Hread. cbn [m_expecting m_saw m_depth] in Hread.
    change SqlScanner_new with (at_rest None). by rewrite Hread. }
  destruct (prefix_starts _ Hins) as [Hlen (x & p' & Hx & Hlow)].
  assert (Hsql : sql = ins_prefix first ++ 32%N :: c "VALUES" ++ 10%N :: values) by done.
  split; [|unfold values_tuples; change SqlScanner_new with (at_rest None); rewrite Hread; by rewrite bool_decide_eq_true_2].
  assert (Hsf : framed sql).
  { split; [exists x; rewrite Hsql, Hx; split; [done|]; by destruct (insert_letter x Hlow) as [-> | ->]|].
    rewrite Hsql. change (32%N :: c "VALUES" ++ 10%N :: values) with ((32%N :: c "VALUES" ++ [10%N]) ++ values).
    by rewrite !last_app, Hlast. }
  unfold parse_mergeable_insert.
  assert (leading_executable_sql_with_options sql options = sql) as ->.
  { unfold leading_executable_sql_with_options. rewrite Hsql, Hx. by destruct (insert_letter x Hlow) as [-> | ->]. }
  destruct (trim_framed _ Hsf) as [H1 H2]. rewrite H1, H2, H1.
  assert (starts_with_keyword sql (c "insert") = true) as ->.
  { unfold starts_with_keyword in *. apply bool_decide_eq_true in Hins. apply bool_decide_eq_true.
    rewrite Hsql. change (32%N :: ?l) with ([32%N] ++ l). rewrite app_assoc, keyword_at_app.
    - destruct Hins as [r ->]. by eexists.
    - rewrite length_app. change (List.length (c "insert")) with 6. simpl. lia. }
  cbn [negb]. unfold find_top_level_values_keyword in *. rewrite Hsql.
  rewrite (find_values_behind 40%N [] 10%N values (ins_prefix first) SqlScanner_new 0 []) by done. cbn [mbind option_bind rev app].
  assert (trim_t (10%N :: values) = values) as ->.
  { unfold trim_t, trim_start_t. cbn [drop_while]. by destruct (trim_framed _ Hframed). }
  rewrite Hvalues. cbn [mbind option_bind].
  assert (trim_end_t (ins_prefix first ++ [32%N]) = ins_prefix first) as ->; [|done].
  unfold trim_end_t in *. by rewrite rev_unit.
Qed.
End reading.

(** ** The plan of an import *)

Lemma grouped_counts db_type profile statements plan :
  Grouped db_type profile statements plan →
  sum_list (source_statement_count <$> plan) = List.length statements
  ∧ Forall (λ entry, source_statement_count entry = List.length (source_sqls entry)
                     ∧ 1 ≤ source_statement_count entry ≤ SQL_FILE_INSERT_BATCH_MAX_STATEMENTS
                     ∧ (1 < source_statement_count entry → byte_len (plan_sql entry) ≤ SQL_FILE_INSERT_BATCH_MAX_BYTES)) plan.
Proof.
  assert (1 ≤ SQL_FILE_INSERT_BATCH_MAX_STATEMENTS) as H1 by (unfold SQL_FILE_INSERT_BATCH_MAX_STATEMENTS; lia).
  induction 1 as [|st r p Ha _ [IH IH']|st sql r p Ha Hp _ [IH IH']|sts f o r p Hi Hk Hb _ [IH IH']]; [done|..].
  - rewrite fmap_cons. cbn [sum_list_with List.length]. split; [simpl; lia|]. constructor; [|done]. simpl. split_and!; lia.
  - rewrite fmap_cons. split; [simpl; lia|]. constructor; [|done]. simpl. split_and!; lia.
  - apply Forall2_length in Hi. destruct Hb as [Hn Hb]. rewrite fmap_cons, length_app. split; [simpl in *; lia|].
    constructor; [|done]. split; [simpl; by rewrite length_fmap|]. cbn [insert_entry source_statement_count]. split; [lia|].
    intros Ho. apply Hb. by destruct o; [simpl in Ho; lia|].
Qed.

(** The plan of an import holds every statement once, in order: it is
    skipped, sent alone, or one of consecutive INSERTs with the same normalised
    prefix that are sent as one; the texts kept for each entry are what the
    statements are sent as alone; the counts add up; and no merged INSERT has
    more than 500 statements or 4 MiB. *)
Theorem import_plan_exact db_type profile statements :
  let plan := optimize_sql_file_import_statements db_type profile statements in
  Grouped db_type profile statements plan
  ∧ (plan ≫= source_sqls) = source_sql db_type profile <$> statements
  ∧ sum_list (source_statement_count <$> plan) = List.length statements
  ∧ Forall (λ entry, source_statement_count entry = List.length (source_sqls entry)
                     ∧ 1 ≤ source_statement_count entry ≤ SQL_FILE_INSERT_BATCH_MAX_STATEMENTS
                     ∧ (1 < source_statement_count entry → byte_len (plan_sql entry) ≤ SQL_FILE_INSERT_BATCH_MAX_BYTES)) plan.
Proof.
  cbv zeta. pose proof (optimized_grouped db_type profile statements) as Hg.
  split; [done|]. split; [by apply grouped_sources|]. by eapply grouped_counts.
Qed.

(** C19: a merged INSERT says what its sources say: read again it is one INSERT
    with the prefix of the first and the tuples of all, in order (for INSERTs
    without comments in front of VALUES and without dollar signs, whose lists
    are tuples separated by single commas, and with one semicolon at most). *)
Theorem merged_insert_reads_back options first second others ts tss :
  plain_insert first ts → Forall2 plain_insert (second :: others) tss →
  ∃ insert, parse_mergeable_insert (plan_sql (insert_entry first (second :: others))) options = Some insert
            ∧ ins_prefix insert = ins_prefix first
            ∧ ins_prefix_key insert = normalize_insert_prefix_key (ins_prefix first)
            ∧ values_tuples (ins_values insert) = Some (ts ++ List.concat tss).
Proof.
  intros Hf Ho. destruct (merged_read options first (second :: others) ts tss Hf Ho) as [Hp Ht].
  eexists. split; [exact Hp|]. by split_and!.
Qed.

Definition parsed (sql : text) : MergeableInsert :=
  default {| ins_prefix := []; ins_prefix_key := []; ins_values := []; ins_sql := [] |}
    (parse_mergeable_insert sql SqlDialectProfile_default).
Definition demo_insert_1 : MergeableInsert := parsed (c "INSERT INTO users(id, name) VALUES (1, 'a,(b'), (2, NULL);").
Definition demo_insert_2 : MergeableInsert := parsed (c "insert  into users(id, name) values(3, '--');").

Lemma plain_by_computation insert ts :
  plain_prefix (ins_prefix insert) && bool_decide (dollar_free (ins_values insert))
  && bool_decide (values_tuples (ins_values insert) = Some ts) && bool_decide (last (ins_sql insert) ≠ Some 59%N) = true →
  plain_insert insert ts.
Proof.
  intros [[[H1 H2%bool_decide_eq_true]%andb_true_iff H3%bool_decide_eq_true]%andb_true_iff H4%bool_decide_eq_true]%andb_true_iff.
  by split.
Qed.

Lemma merged_insert_reads_back_witness :
  ins_prefix_key demo_insert_1 = ins_prefix_key demo_insert_2
  ∧ ∃ insert, parse_mergeable_insert (plan_sql (insert_entry demo_insert_1 [demo_insert_2])) SqlDialectProfile_default = Some insert
              ∧ ins_prefix insert = ins_prefix demo_insert_1
              ∧ ins_prefix_key insert = normalize_insert_prefix_key (ins_prefix demo_insert_1)
              ∧ values_tuples (ins_values insert)
                = Some ([c "(1, 'a,(b')"; c "(2, NULL)"] ++ List.concat [[c "(3, '--')"]]).
Proof.
  split; [vm_compute; reflexivity|].
  apply (merged_insert_reads_back SqlDialectProfile_default demo_insert_1 demo_insert_2 []).
  - apply plain_by_computation. vm_compute. reflexivity.
  - constructor; [|constructor]. apply plain_by_computation. vm_compute. reflexivity.
Defined.

(** ** What merging does not see *)

(** The prefixes of two INSERTs are compared without the case of unquoted names:
    on a server with case-sensitive table names the rows of the second go to the
    table of the first. *)
Lemma merges_by_lowercase_name :
  (λ entry, (plan_sql entry, source_statement_count entry)) <$>
    optimize_sql_file_import_statements (Some Mysql) None
      [c "INSERT INTO Users VALUES (1);"; c "INSERT INTO users VALUES (2);"]
  = [(c "INSERT INTO Users VALUES" ++ [10%N] ++ c "(1)," ++ [10%N] ++ c "(2)", 2)].
Proof. vm_compute. reflexivity. Qed.

(** A line comment in front of VALUES, or behind a tuple, swallows what is put
    behind it: the merged text is no INSERT with the rows of both. *)
Lemma comment_swallows_values :
  (λ entry, parse_mergeable_insert (plan_sql entry) (for_database_type Mysql)) <$>
    optimize_sql_file_import_statements (Some Mysql) None
      [c "INSERT INTO t -- rows" ++ [10%N] ++ c "VALUES (1);"; c "INSERT INTO t -- rows" ++ [10%N] ++ c "VALUES (2);"]
  = [None]
  ∧ plan_sql <$> optimize_sql_file_import_statements (Some Mysql) None
      [c "INSERT INTO t VALUES (1) -- one"; c "INSERT INTO t VALUES (2)"]
    = [c "INSERT INTO t VALUES" ++ [10%N] ++ c "(1) -- one," ++ [10%N] ++ c "(2)"].
Proof. split; vm_compute; reflexivity. Qed.

(** ** The code never reads behind the end of a statement *)

Definition ends_dark (l : text) : Prop := ∀ x, last l = Some x → is_whitespace x = false.

Lemma ends_dark_suffix l l' : l' `suffix_of` l → ends_dark l → ends_dark l'.
Proof. intros [k ->] H x Hx. apply H. by rewrite last_app, Hx. Qed.

Lemma ascii_whitespace x : is_ascii_whitespace x = true → is_whitespace x = true.
Proof. unfold is_ascii_whitespace. intros H%bool_decide_eq_true. by destruct H as [->|[->|[->|[->| ->]]]]. Qed.

Lemma drop_ascii_whitespace l : ends_dark l → l ≠ [] → drop_while is_ascii_whitespace l ≠ [].
Proof.
  induction l as [|x l IH]; [done|]. intros Hl _. simpl. destruct (is_ascii_whitespace x) eqn:Hx; [|done].
  destruct l as [|y l]; [|apply IH; [|done]; by eapply ends_dark_suffix; [apply suffix_cons_r|]].
  apply ascii_whitespace in Hx. specialize (Hl x eq_refl). congruence.
Qed.

Lemma leading_comment_reads n l : ends_dark l → leading_comment n l ≠ ReadsBehindEnd.
Proof.
  revert l. induction n as [|n IH]; [done|]. intros l Hl. cbn [leading_comment]. destruct l as [|x0 l0]; [done|].
  pose proof (drop_ascii_whitespace _ Hl ltac:(done)) as Hne. pose proof (drop_while_suffix is_ascii_whitespace (x0 :: l0)) as Hs.
  pose proof (ends_dark_suffix _ _ Hs Hl) as Hd. clear Hs Hl. destruct (drop_while is_ascii_whitespace (x0 :: l0)) as [|x l]; [done|].
  assert (Hdown : ∀ r, r `suffix_of` x :: l → leading_comment n r ≠ ReadsBehindEnd).
  { intros r Hr. by apply IH, (ends_dark_suffix _ _ Hr). }
  clear Hne Hd IH x0 l0. repeat (case_match; try done); subst; apply Hdown; 
    repeat first [apply skip_to_newline_suffix | by eapply after_block_comment_suffix | apply suffix_cons_r
                 | etrans; [by eapply after_block_comment_suffix|]| done].
Qed.

Lemma trimmed_ends_dark l : ends_dark (trim_t l).
Proof.
  unfold ends_dark, trim_t, trim_end_t. intros x. rewrite <-last_rev, rev_involutive.
  induction (rev (trim_start_t l)) as [|y m IH]; [done|]. simpl. destruct (is_whitespace y) eqn:Hy; [done|]. by intros [= <-].
Qed.

(** The statement [prepare_sql_file_statement] looks at is trimmed. *)
Lemma prepare_reads_within statement : leading_mysql_executable_comment_start (trim_t statement) ≠ ReadsBehindEnd.
Proof. apply leading_comment_reads, trimmed_ends_dark. Qed.
