(* ===== verification/PoolErrors.v ===== *)
(** * Lost connections (query.rs, db/agent_driver.rs, agent_catalog.rs)

    What a failed statement says about its connection: the error texts of
    drivers and agents, whether the pool is kept, dropped, or reopened for another
    attempt, the data an agent attaches to an error, and the database types that
    agents serve. serde_json is the interface [JsonPrinter]. *)
From S2P Require Import Prelude RustStr Json F64 SqlText SqlSplit SqlGuard Expression AgentContext.

(** ** The catalog of agents (agent_catalog.rs) *)

Record AgentDriverProfile : Type := catalog_profile {
  profile_name : string; profile_key : string; profile_label : string; profile_store_visible : bool
}.
Record AgentCatalogEntry : Type := catalog_entry {
  entry_db_type : DatabaseType; entry_key : string; entry_label : string; entry_store_visible : bool;
  entry_profiles : list AgentDriverProfile
}.

Definition ORACLE_PROFILES : list AgentDriverProfile :=
  [catalog_profile "oracle-legacy" "oracle" "Oracle" false; catalog_profile "oracle-10g" "oracle" "Oracle" false].
Definition GBASE_PROFILES : list AgentDriverProfile :=
  [catalog_profile "gbase8s" "gbase8s" "GBase 8s" true; catalog_profile "gbase8a" "gbase8a" "GBase 8a" true].
Definition MONGODB_PROFILES : list AgentDriverProfile :=
  [catalog_profile "mongodb-legacy" "mongodb" "MongoDB (Legacy)" false].
Definition H2_PROFILES : list AgentDriverProfile := [catalog_profile "h2-legacy" "h2-legacy" "H2 2.1 Legacy" true].

Definition EXTRA_AGENT_LABELS : list (string * string) :=
  [("duckdb", "DuckDB"); ("kafka", "Apache Kafka"); ("rocketmq", "Apache RocketMQ"); ("rabbitmq", "RabbitMQ");
   ("sqlserver-legacy", "SQL Server legacy compatibility component")].
Definition EXTRA_DRIVER_STORE_ENTRIES : list (string * string) :=
  [("duckdb", "DuckDB"); ("kafka", "Apache Kafka"); ("rocketmq", "Apache RocketMQ"); ("rabbitmq", "RabbitMQ");
   ("sqlserver-legacy", "SQL Server legacy compatibility component")].

Definition AGENT_CATALOG : list AgentCatalogEntry :=
  [catalog_entry Dameng "dameng" "达梦 DM8" true [];
   catalog_entry Kingbase "kingbase" "人大金仓 KingbaseES" true [];
   catalog_entry Highgo "highgo" "瀚高 HighGo" true [];
   catalog_entry Uxdb "uxdb" "优炫 UXDB" true [];
   catalog_entry Vastbase "vastbase" "Vastbase" true [];
   catalog_entry Goldendb "goldendb" "GoldenDB" true [];
   catalog_entry Databend "databend" "Databend" true [];
   catalog_entry Databricks "databricks" "Databricks SQL" true [];
   catalog_entry SapHana "saphana" "SAP HANA" true [];
   catalog_entry Teradata "teradata" "Teradata" true [];
   catalog_entry Vertica "vertica" "Vertica" true [];
   catalog_entry Firebird "firebird" "Firebird" true [];
   catalog_entry Exasol "exasol" "Exasol" true [];
   catalog_entry OceanbaseOracle "oceanbase-oracle" "OceanBase Oracle Mode" true [];
   catalog_entry Gbase "gbase8a" "GBase 8a" true GBASE_PROFILES;
   catalog_entry Access "access" "Microsoft Access" true [];
   catalog_entry Oracle "oracle" "Oracle" true ORACLE_PROFILES;
   catalog_entry H2 "h2" "H2" true H2_PROFILES;
   catalog_entry Snowflake "snowflake" "Snowflake" true [];
   catalog_entry Trino "trino" "Trino" true [];
   catalog_entry Hive "hive" "Apache Hive" true [];
   catalog_entry Spark "spark" "Apache Spark" true [];
   catalog_entry Db2 "db2" "IBM DB2" true [];
   catalog_entry Informix "informix" "IBM Informix" true [];
   catalog_entry InfluxDb "influxdb" "InfluxDB" false [];
   catalog_entry Neo4j "neo4j" "Neo4j" true [];
   catalog_entry Cassandra "cassandra" "Apache Cassandra" true [];
   catalog_entry Bigquery "bigquery" "Google BigQuery" true [];
   catalog_entry Kylin "kylin" "Apache Kylin" true [];
   catalog_entry Sundb "sundb" "SunDB" true [];
   catalog_entry Oscar "oscar" "神通 OSCAR" true [];
   catalog_entry Yashandb "yashandb" "崖山 YashanDB" true [];
   catalog_entry Tdengine "tdengine" "TDengine" true [];
   catalog_entry Xugu "xugu" "虚谷 XuguDB" true [];
   catalog_entry Iotdb "iotdb" "Apache IoTDB" true [];
   catalog_entry Etcd "etcd" "etcd" true [];
   catalog_entry ZooKeeper "zookeeper" "Apache ZooKeeper" true [];
   catalog_entry MongoDb "mongodb" "MongoDB (Legacy)" true MONGODB_PROFILES;
   catalog_entry Iris "iris" "InterSystems IRIS" true []].

Definition entry_for_db_type (db_type : DatabaseType) : option AgentCatalogEntry :=
  List.find (λ entry, bool_decide (entry_db_type entry = db_type)) AGENT_CATALOG.

Definition agent_key (db_type : DatabaseType) (driver_profile : option string) : option string :=
  if bool_decide (db_type = MessageQueue) then
    match driver_profile with
    | Some "kafka" => Some "kafka" | Some "rocketmq" => Some "rocketmq" | Some "rabbitmq" => Some "rabbitmq" | _ => None
    end
  else if bool_decide (db_type = SqlServer) then
    match driver_profile with
    | Some profile => if eq_ignore_ascii_case profile "sqlserver-legacy" then Some "sqlserver-legacy" else None
    | None => None
    end
  else
    entry ← entry_for_db_type db_type;
    match (name ← driver_profile; List.find (λ profile, String.eqb (profile_name profile) name) (entry_profiles entry)) with
    | Some profile => Some (profile_key profile)
    | None => Some (entry_key entry)
    end.

Definition is_agent_type (db_type : DatabaseType) : bool := bool_decide (is_Some (entry_for_db_type db_type)).

(** [filter(move |(key, _)| seen.insert(key))]. *)
Fixpoint first_of_key (seen : list string) (l : list (string * string)) : list (string * string) :=
  match l with
  | [] => []
  | (key, label) :: l' =>
      if bool_decide (key ∈ seen) then first_of_key seen l' else (key, label) :: first_of_key (key :: seen) l'
  end.
Definition store_entries (entry : AgentCatalogEntry) : list (string * string) :=
  (if entry_store_visible entry then [(entry_key entry, entry_label entry)] else [])
  ++ ((λ profile, (profile_key profile, profile_label profile)) <$> List.filter profile_store_visible (entry_profiles entry)).
Definition driver_store_entries : list (string * string) :=
  first_of_key [] ((AGENT_CATALOG ≫= store_entries) ++ EXTRA_DRIVER_STORE_ENTRIES).

Fixpoint label_in (entries : list AgentCatalogEntry) (agent_key : string) : option string :=
  match entries with
  | [] => None
  | entry :: entries' =>
      if String.eqb (entry_key entry) agent_key then Some (entry_label entry)
      else match List.find (λ profile, String.eqb (profile_key profile) agent_key) (entry_profiles entry) with
           | Some profile => Some (profile_label profile)
           | None => label_in entries' agent_key
           end
  end.
Definition label_for_key (agent_key : string) : option string :=
  match List.find (λ extra : string * string, String.eqb extra.1 agent_key) EXTRA_AGENT_LABELS with
  | Some (_, label) => Some label
  | None => label_in AGENT_CATALOG agent_key
  end.

(** ** Errors of agents (db/agent_driver.rs) *)

Definition AGENT_RPC_ERROR_DATA_MARKER : text := 10%N :: c "DBX_AGENT_ERROR_DATA:".

Inductive AgentSessionDisposition : Type := KeepSession | Quarantine | ReplaceRuntime.
#[export] Instance disposition_eq_dec : EqDecision AgentSessionDisposition.
Proof. solve_decision. Defined.

(** [rsplit_once(p)] of a text that is not empty. *)
Fixpoint rsplit_once_t (l p : text) : option (text * text) :=
  match l with
  | [] => None
  | x :: l' =>
      match rsplit_once_t l' p with
      | Some (before, after) => Some (x :: before, after)
      | None => (λ after, ([], after)) <$> strip_prefix_t l p
      end
  end.

(** [Value::get] and [Value::as_i64]. *)
Definition value_field (v : Value) (key : string) : option Value :=
  match v with Object fields => obj_get fields key | _ => None end.
Definition value_as_i64 (v : Value) : option Z := match v with Number token => parse_i64 token | _ => None end.
Definition is_object (v : Value) : bool := match v with Object _ => true | _ => false end.

Section agent_errors.
Context `{HJ : JsonPrinter}.

Definition format_agent_rpc_error (error : Value) : text :=
  let message := default "Unknown agent error" (v ← value_field error "message"; as_str v) in
  let code := default (-1)%Z (v ← value_field error "code"; value_as_i64 v) in
  let formatted := c "Agent RPC error (" ++ c (pretty code) ++ c "): " ++ c message in
  match value_field error "data" with
  | Some data => if is_object data then formatted ++ AGENT_RPC_ERROR_DATA_MARKER ++ c (value_to_string data) else formatted
  | None => formatted
  end.

Definition agent_rpc_error_data (error : text) : option Value :=
  '(_, data) ← rsplit_once_t error AGENT_RPC_ERROR_DATA_MARKER;
  parse_json (from_chars data).

Definition error_string (error : text) (key : string) : option string :=
  data ← agent_rpc_error_data error; v ← value_field data key; as_str v.
Definition agent_rpc_error_category (error : text) : option string := error_string error "category".
Definition agent_rpc_error_session_id (error : text) : option string := error_string error "agentSessionId".

Definition agent_session_disposition (error : text) : option AgentSessionDisposition :=
  disposition ← error_string error "sessionDisposition";
  match disposition with
  | "keep" => Some KeepSession
  | "quarantine" => Some Quarantine
  | "replace_runtime" => Some ReplaceRuntime
  | _ => None
  end.

Definition with_agent_rpc_error_session_id (error : text) (agent_session_id : option string) : text :=
  match agent_session_id with
  | None => error
  | Some agent_session_id =>
      let only_id := error ++ AGENT_RPC_ERROR_DATA_MARKER
                     ++ c (value_to_string (Object [("agentSessionId", VString agent_session_id)])) in
      match rsplit_once_t error AGENT_RPC_ERROR_DATA_MARKER with
      | None => only_id
      | Some (message, data) =>
          match parse_json (from_chars data) with
          | None => only_id
          | Some (Object fields) =>
              message ++ AGENT_RPC_ERROR_DATA_MARKER
              ++ c (value_to_string (Object (obj_insert fields "agentSessionId" (VString agent_session_id))))
          | Some _ => error
          end
      end
  end.

(** ** What an error says about its connection (query.rs) *)

Inductive PoolErrorAction : Type := Keep | Discard | ReconnectAndRetry.
#[export] Instance pool_error_action_eq_dec : EqDecision PoolErrorAction.
Proof. solve_decision. Defined.

Definition is_dbx_query_timeout_error (lower : text) : bool := starts_with_t lower (c "query timed out after ").
Definition is_agent_rpc_timeout_error (lower : text) : bool := starts_with_t lower (c "agent rpc call timed out ").
Definition is_schema_reset_cleanup_error (lower : text) : bool := contains_t lower (c "schema.reset cleanup failed").

(** What follows the first [p]. *)
Fixpoint after_first (l p : text) : option text :=
  match strip_prefix_t l p with
  | Some r => Some r
  | None => match l with [] => None | _ :: l' => after_first l' p end
  end.

Definition is_os_connection_error (lower : text) : bool :=
  match after_first lower (c "os error ") with
  | Some after =>
      let code := (span_t is_ascii_digit after).1 in
      existsb (λ os_code, text_eqb code (c os_code)) ["10053"; "10054"; "10057"; "10058"; "10060"; "10061"]
  | None => false
  end.

Definition CONNECTION_ERROR_TEXTS : list string :=
  ["connection"; "broken pipe"; "reset by peer"; "timed out"; "closed"; "关闭的连接"; "连接已关闭"; "网络通信异常"; "通信异常";
   "communications link failure"; "sqlrecoverableexception"; "sqlnontransientconnectionexception";
   "sqltransientconnectionexception"; "eof"; "i/o error"; "input/output error"; "not connected"; "end-of-file"; "idle";
   "agent stdin not available"; "agent stdout not available"; "agent runtime terminated"; "agent runtime is unavailable";
   "agent runtime unavailable"; "failed to write to agent stdin"; "failed to flush agent stdin";
   "communicating with the server"].

Context `{HU : UnicodeCase}.

Definition is_connection_error (err : text) : bool :=
  if bool_decide (agent_rpc_error_category err = Some "connection") then true
  else
    let lower := to_lowercase err in
    if is_dbx_query_timeout_error lower || is_agent_rpc_timeout_error lower then false
    else existsb (λ p, contains_t lower (c p)) CONNECTION_ERROR_TEXTS
         || contains_t lower (c "pool") && contains_t lower (c "timeout")
         || is_os_connection_error lower.

Definition gives_up_session (err : text) : bool :=
  match agent_session_disposition err with Some (Quarantine | ReplaceRuntime) => true | _ => false end.

Definition should_discard_agent_pool_after_error (err : text) : bool :=
  if gives_up_session err then true
  else
    let lower := to_lowercase err in
    is_dbx_query_timeout_error lower || is_agent_rpc_timeout_error lower
    || contains_t lower (c "agent stdin not available") || contains_t lower (c "agent stdout not available")
    || contains_t lower (c "failed to write to agent stdin") || contains_t lower (c "failed to flush agent stdin")
    || contains_t lower (c "agent rpc task failed").

Definition should_discard_pool_after_query_timeout (db_type : option DatabaseType) : bool :=
  match db_type with
  | None => false
  | Some db_type =>
      is_agent_type db_type
      || bool_decide (db_type ∈ [Mysql; Postgres; Redshift; Gaussdb; Kwdb; OpenGauss; Questdb; Doris; StarRocks; ManticoreSearch;
                                 ClickHouse; SqlServer; Rqlite; Turso; CloudflareD1; Elasticsearch; Easysearch; Qdrant; Milvus;
                                 Weaviate; ChromaDb; InfluxDb])
  end.

(** [is_driver_panic_error] (db/sqlserver.rs). *)
Definition is_driver_panic_error (error : text) : bool := starts_with_t error (c "SQL Server driver panic:").

Definition served_by_agent (db_type : option DatabaseType) : bool :=
  match db_type with Some db_type => is_agent_type db_type | None => false end.

Definition pool_error_action (db_type : option DatabaseType) (err : text) : PoolErrorAction :=
  if served_by_agent db_type && gives_up_session err then Discard
  else
    let lower := to_lowercase err in
    if is_driver_panic_error err
       || is_dbx_query_timeout_error lower && should_discard_pool_after_query_timeout db_type
       || is_schema_reset_cleanup_error lower
       || served_by_agent db_type && should_discard_agent_pool_after_error err && negb (is_connection_error err)
    then Discard
    else if is_connection_error err then ReconnectAndRetry else Keep.

Definition should_continue_batch_after_error (continue_on_error : bool) (action : PoolErrorAction) : bool :=
  continue_on_error && bool_decide (action = Keep).

Definition should_discard_pool_after_error (db_type : option DatabaseType) (err : text) : bool :=
  match pool_error_action db_type err with Discard | ReconnectAndRetry => true | Keep => false end.

Definition query_pool_error_action `{SqlTokenizer} (db_type : option DatabaseType) (sql err : text) : PoolErrorAction :=
  match pool_error_action db_type err with
  | ReconnectAndRetry => if is_write_sql sql then Discard else ReconnectAndRetry
  | action => action
  end.

Definition timeout_error_for (timeout_secs : N) : text :=
  c "Query timed out after " ++ c (pretty (N.max timeout_secs 1)) ++ c " seconds".

(** [discard_pool_after_error]: what is done to the pool. *)
Inductive PoolDisposal : Type := PoolKept | PoolRemoved | PoolDetachedWithRuntime.
Definition discard_pool_after_error (db_type : option DatabaseType) (error : text) : PoolDisposal :=
  match pool_error_action db_type error with
  | Keep => PoolKept
  | Discard | ReconnectAndRetry =>
      if bool_decide (agent_session_disposition error = Some ReplaceRuntime) then PoolDetachedWithRuntime else PoolRemoved
  end.
End agent_errors.

(** ** Reading back what was attached *)

Section reading_back.

Lemma rsplit_none x p l : x ∉ l → rsplit_once_t l (x :: p) = None.
Proof.
  induction l as [|y l IH]; [done|]. intros [Hy Hl]%not_elem_of_cons. cbn [rsplit_once_t]. rewrite IH by done.
  cbn [strip_prefix_t]. by apply N.eqb_neq in Hy as ->.
Qed.

Lemma strip_prefix_t_app p r : strip_prefix_t (p ++ r) p = Some r.
Proof. induction p as [|x p IH]; [by destruct r|]. cbn [app strip_prefix_t]. by rewrite N.eqb_refl. Qed.

Lemma rsplit_last x p before after : x ∉ p → x ∉ after → rsplit_once_t (before ++ x :: p ++ after) (x :: p) = Some (before, after).
Proof.
  intros Hp Ha. induction before as [|y before IH]; cbn [app rsplit_once_t]; [|by rewrite IH].
  rewrite rsplit_none by set_solver. change (x :: p ++ after) with ((x :: p) ++ after). by rewrite strip_prefix_t_app.
Qed.

Lemma contains_absent l p x : x ∈ p → x ∉ l → contains_t l p = false.
Proof.
  intros Hp. assert (∀ l, x ∉ l → starts_with_t l p = false) as Hs.
  { clear l. unfold starts_with_t. induction p as [|y p IH]; [by apply not_elem_of_nil in Hp|]. intros [|z l] Hl; [done|].
    apply not_elem_of_cons in Hl as [Hz Hl]. cbn [strip_prefix_t]. destruct (y =? z)%N eqn:E; [|done]. apply N.eqb_eq in E as ->.
    apply elem_of_cons in Hp as [->|Hp]; [done|]. by apply IH. }
  induction l as [|y l IH]; intros Hl; cbn [contains_t]; rewrite Hs by done; [done|]. apply IH. set_solver.
Qed.

Lemma starts_with_app p r : starts_with_t (p ++ r) p = true.
Proof. unfold starts_with_t. by rewrite strip_prefix_t_app. Qed.

(** serde_json: a printed value is one line of valid text, and is read back. *)
Class LawfulJson `{HJ : JsonPrinter} : Prop := {
  parse_printed v : wf_value v → parse_json (value_to_string v) = Some v;
  printed_line v : (10%N : N) ∉ c (value_to_string v);
  printed_utf8 v : utf8 (value_to_string v) = true
}.

Context `{HL : LawfulJson}.

Lemma attached_data before v :
  wf_value v → rsplit_once_t (before ++ AGENT_RPC_ERROR_DATA_MARKER ++ c (value_to_string v)) AGENT_RPC_ERROR_DATA_MARKER
               = Some (before, c (value_to_string v)) ∧ parse_json (from_chars (c (value_to_string v))) = Some v.
Proof.
  intros Hv. split.
  - unfold AGENT_RPC_ERROR_DATA_MARKER. apply (rsplit_last 10 (c "DBX_AGENT_ERROR_DATA:")); [|apply printed_line].
    apply (bool_decide_unpack _). vm_compute. exact I.
  - pose proof (printed_utf8 v) as [Hu _]%utf8_spec. unfold c. rewrite <-Hu. by apply parse_printed.
Qed.

Lemma wf_obj_insert fields k v : wf_value (Object fields) → wf_value v → wf_value (Object (obj_insert fields k v)).
Proof.
  cbn [wf_value]. intros [Hn Hf] Hv. split.
  - rewrite obj_insert_keys. case_decide; [done|]. apply NoDup_app. split_and!; [done|set_solver|apply NoDup_singleton].
  - clear Hn. induction fields as [|[k1 v1] fs IH]; simpl in *; [done|]. destruct (String.eqb_spec k1 k); simpl; naive_solver.
Qed.

(** What the error of an agent says when [fields] is attached to it. *)
Lemma attached_error_string error fields session key :
  value_field error "data" = Some (Object fields) → wf_value (Object fields) →
  error_string (with_agent_rpc_error_session_id (format_agent_rpc_error error) session) key
  = match session with
    | Some id => if String.eqb "agentSessionId" key then Some id else v ← obj_get fields key; as_str v
    | None => v ← obj_get fields key; as_str v
    end.
Proof.
  intros Hd Hw. unfold format_agent_rpc_error. rewrite Hd. cbn [is_object]. set (formatted := c "Agent RPC error (" ++ _).
  destruct (attached_data formatted _ Hw) as [Hs Hp]. unfold with_agent_rpc_error_session_id, error_string, agent_rpc_error_data.
  destruct session as [id|].
  - rewrite Hs, Hp. destruct (attached_data formatted (Object (obj_insert fields "agentSessionId" (VString id)))) as [Hs' Hp'].
    { by apply wf_obj_insert. }
    rewrite Hs'. cbn [mbind option_bind]. rewrite Hp'. cbn [mbind option_bind value_field]. rewrite obj_get_insert.
    destruct (String.eqb_spec "agentSessionId" key) as [<-|Hne]; [by rewrite ?decide_True by done|by rewrite ?decide_False by done].
  - rewrite Hs. cbn [mbind option_bind]. by rewrite Hp.
Qed.

Context `{HU : UnicodeCase} `{HT : SqlTokenizer}.


(** ** A query that timed out *)

Lemma starts_with_lower l p : starts_with_t l p = true → starts_with_t (to_ascii_lowercase_c <$> l) (to_ascii_lowercase_c <$> p) = true.
Proof.
  unfold starts_with_t. destruct (strip_prefix_t l p) as [r|] eqn:E; [|done]. intros _.
  assert (l = p ++ r) as ->.
  { revert l E. induction p as [|x p IH]; intros l E; [by destruct l; injection E as <-|]. destruct l as [|y l]; [done|].
    cbn [strip_prefix_t] in E. destruct (x =? y)%N eqn:Hxy; [|done]. apply N.eqb_eq in Hxy as ->. by rewrite (IH l E). }
  rewrite fmap_app. by rewrite strip_prefix_t_app.
Qed.

Lemma pretty_digits (n : N) : Forall (λ x, 48 ≤ x ∧ x < 58)%N (c (pretty n)).
Proof.
  set (P := λ x : N, (48 ≤ x ∧ x < 58)%N). assert (∀ x, c (String (pretty_N_char x) "") = [N_of_ascii (pretty_N_char x)] ∧ P (N_of_ascii (pretty_N_char x))
    ∧ utf8 (String (pretty_N_char x) "") = true) as Hchar.
  { intros x. unfold pretty_N_char, P. by repeat case_match. }
  assert (∀ x s, Forall P (c s) → Forall P (c (pretty_N_go x s))) as Hgo.
  { intros x. induction (N.lt_wf_0 x) as [x _ IH]. intros s Hs. destruct (decide (x = 0)%N) as [->|].
    - by rewrite pretty_N_go_0.
    - rewrite pretty_N_go_step by lia. apply IH; [apply N.div_lt; lia|]. destruct (Hchar (x `mod` 10)%N) as (E & HP & Hu).
      change (String (pretty_N_char (x `mod` 10)) s) with (String (pretty_N_char (x `mod` 10)) "" +:+ s)%string.
      unfold c in *. rewrite chars_app, E by done. by constructor. }
  unfold pretty, pretty_N. case_decide; [|by apply Hgo]. repeat constructor; done.
Qed.

(** The text of a query timeout is not taken for a lost connection, though it
    says "timed out". *)
Lemma query_timeout_not_replayed db_type timeout_secs sql :
  let action := if should_discard_pool_after_query_timeout db_type then Discard else Keep in
  pool_error_action db_type (timeout_error_for timeout_secs) = action
  ∧ query_pool_error_action db_type sql (timeout_error_for timeout_secs) = action.
Proof.
  set (err := timeout_error_for timeout_secs).
  assert (Hascii : Forall (λ x, x < 128 ∧ x ≠ 10 ∧ x ≠ 46)%N err).
  { unfold err, timeout_error_for. rewrite !Forall_app. split_and!.
    - apply (bool_decide_unpack _). vm_compute. exact I.
    - eapply Forall_impl; [apply pretty_digits|]. simpl. lia.
    - apply (bool_decide_unpack _). vm_compute. exact I. }
  assert (Hlower : to_lowercase err = to_ascii_lowercase_c <$> err).
  { apply to_lowercase_ascii. eapply Forall_impl; [exact Hascii|]. naive_solver. }
  assert (Hsplit : rsplit_once_t err AGENT_RPC_ERROR_DATA_MARKER = None).
  { apply rsplit_none. intros Hin. eapply Forall_forall in Hascii; [|exact Hin]. naive_solver. }
  assert (Hstr : ∀ key, error_string err key = None) by (intros key; unfold error_string, agent_rpc_error_data; by rewrite Hsplit).
  assert (Htime : is_dbx_query_timeout_error (to_lowercase err) = true).
  { rewrite Hlower. unfold is_dbx_query_timeout_error. unfold err, timeout_error_for. rewrite fmap_app.
    change (to_ascii_lowercase_c <$> c "Query timed out after ") with (c "query timed out after "). apply starts_with_app. }
  assert (Hconn : is_connection_error err = false).
  { unfold is_connection_error, agent_rpc_error_category. rewrite Hstr, Htime. by rewrite bool_decide_false by done. }
  assert (Hgives : gives_up_session err = false) by (unfold gives_up_session, agent_session_disposition; by rewrite Hstr).
  assert (Hpanic : is_driver_panic_error err = false) by done.
  assert (Hreset : is_schema_reset_cleanup_error (to_lowercase err) = false).
  { unfold is_schema_reset_cleanup_error. apply (contains_absent _ _ 46%N).
    - apply (bool_decide_unpack _). vm_compute. exact I.
    - rewrite Hlower. intros (x & Hx & Hin)%list_elem_of_fmap. eapply Forall_forall in Hascii; [|exact Hin].
      unfold to_ascii_lowercase_c, is_ascii_uppercase in Hx. destruct Hascii as (_ & _ & Hdot). destruct (65 <=? x)%N eqn:E; cbn [andb] in Hx; [|done].
      apply N.leb_le in E. destruct (x <=? 90)%N; [|done]. lia. }
  assert (pool_error_action db_type err = if should_discard_pool_after_query_timeout db_type then Discard else Keep) as Ha.
  { unfold pool_error_action. rewrite Hgives, andb_false_r, Hpanic, Htime, Hreset, Hconn. cbn [orb andb negb].
    destruct (should_discard_pool_after_query_timeout db_type) eqn:E; [done|]. cbn [orb].
    destruct db_type as [d|]; [|done]. cbn [served_by_agent should_discard_pool_after_query_timeout] in *.
    apply orb_false_iff in E as [-> _]. done. }
  cbv zeta. unfold query_pool_error_action. rewrite Ha. by destruct (should_discard_pool_after_query_timeout db_type).
Qed.
End reading_back.

(** A printer that writes a value as a line of digits. *)
Fixpoint pos_digits (p : positive) : string :=
  match p with xH => "" | xO p => String "0" (pos_digits p) | xI p => String "1" (pos_digits p) end.
Fixpoint digits_pos (s : string) : positive :=
  match s with String "0" s => xO (digits_pos s) | String _ s => xI (digits_pos s) | EmptyString => xH end.

Definition digit_printer : JsonPrinter :=
  {| to_json v := Ok (pos_digits (encode (to_tree v))); to_json_pretty v := Ok (pos_digits (encode (to_tree v)));
     value_to_string v := pos_digits (encode (to_tree v)); parse_json s := of_tree <$> decode (digits_pos s) |}.

Lemma digit_printer_lawful : @LawfulJson digit_printer.
Proof.
  assert (Hline : ∀ p, (10%N : N) ∉ c (pos_digits p) ∧ utf8 (pos_digits p) = true).
  { induction p as [p [IH Hu]|p [IH Hu]|]; cbn [pos_digits]; [| |split; [apply not_elem_of_nil|done]].
    - change (String "1" ?s) with ("1" +:+ s)%string. split; [|by apply utf8_app]. unfold c in *. rewrite chars_app by done. set_solver.
    - change (String "0" ?s) with ("0" +:+ s)%string. split; [|by apply utf8_app]. unfold c in *. rewrite chars_app by done. set_solver. }
  assert (Hread : ∀ p, digits_pos (pos_digits p) = p) by (induction p; simpl; congruence).
  split; [|intros v; apply Hline..]. intros v _. cbn [parse_json value_to_string digit_printer]. rewrite Hread, decode_encode. simpl. by rewrite of_to_tree.
Qed.

Definition quarantine_data : list (string * Value) :=
  [("category", VString "connection"); ("sessionDisposition", VString "quarantine")].
Definition quarantine_error : Value := Object [("message", VString "i/o error"); ("data", Object quarantine_data)].


(** ** What the texts cannot tell *)

(** A statement that names a column [closed_at] fails like a lost connection:
    the session is dropped and the statement is sent again. A write is dropped
    with its session but not sent again by [query_pool_error_action]. *)
Lemma column_name_reads_as_lost_connection `{SqlTokenizer} :
  let err := c "Unknown column 'closed_at' in 'field list'" in
  @pool_error_action digit_printer ascii_case (Some Mysql) err = ReconnectAndRetry
  ∧ @query_pool_error_action digit_printer ascii_case _ (Some Mysql) (c "SELECT closed_at FROM t") err = ReconnectAndRetry
  ∧ @query_pool_error_action digit_printer ascii_case _ (Some Mysql) (c "INSERT INTO t VALUES (1)") err = Discard.
Proof. split_and!; vm_compute; reflexivity. Qed.

(** ** The catalog *)

(** Every agent a connection can need has a label, the driver store lists each
    key once, with the label it is looked up with, and no type has two entries. *)
Lemma catalog_labels :
  (∀ db_type driver_profile key, agent_key db_type driver_profile = Some key → is_Some (label_for_key key))
  ∧ NoDup driver_store_entries.*1 ∧ Forall (λ '(key, label), label_for_key key = Some label) driver_store_entries
  ∧ NoDup (entry_db_type <$> AGENT_CATALOG).
Proof.
  split_and!; [|apply (bool_decide_unpack _); vm_compute; exact I..].
  intros d profile key. unfold agent_key.
  case_bool_decide; [by repeat case_match; intros [= <-]; eexists; vm_compute; reflexivity|].
  case_bool_decide; [by repeat case_match; intros [= <-]; eexists; vm_compute; reflexivity|].
  destruct (entry_for_db_type d) as [entry|] eqn:E; [|done]. cbn [mbind option_bind].
  apply List.find_some in E as [Hin _]. 
  assert (Hall : Forall (λ entry, is_Some (label_for_key (entry_key entry))
            ∧ Forall (λ profile, is_Some (label_for_key (profile_key profile))) (entry_profiles entry)) AGENT_CATALOG).
  { apply (bool_decide_unpack _). vm_compute. exact I. }
  eapply Forall_forall in Hall as [He Hp]; [|by apply list_elem_of_In].
  destruct (profile ≫= _) as [p|] eqn:Ep; intros [= <-]; [|done].
  destruct profile as [name|]; [|done]. apply List.find_some in Ep as [Hp' _]. eapply Forall_forall in Hp; [exact Hp|by apply list_elem_of_In].
Qed.
