(* ===== verification/SqlFileImport.v ===== *)
(** * Importing SQL files (sql_file_import.rs)

    The files are read in chunks and split into statements, batches of statements
    are planned by SqlImport, and the plan is executed one entry after the other,
    with progress events. What reaches the database, the files, the clock and the
    user are the calls [ImportE]; an import is a program over them. MySQL-family
    imports hold one connection, which is reopened as PoolErrors says. *)
From S2P Require Import Prelude RustStr Json SqlText SqlSplit SqlGuard AgentContext SqlImport PoolErrors Prog.

(** ** Requests and events (sql.rs) *)

Record SqlFileRequest : Type := {
  execution_id : string; connection_id : string; database : text; continue_on_error : bool
}.

Inductive SqlFileStatus : Type := Started | Running | StatementDone | StatementFailed | Done | Error | Cancelled.
#[export] Instance sql_file_status_eq_dec : EqDecision SqlFileStatus.
Proof. solve_decision. Defined.

Record SqlFileProgress : Type := {
  progress_execution_id : string; progress_status : SqlFileStatus; progress_statement_index : nat;
  progress_success_count : nat; progress_failure_count : nat; progress_affected_rows : Z; elapsed_ms : N;
  progress_summary : text; progress_error : option text; file_index : option nat; file_name : option text
}.

Record SqlFileImportTarget : Type := { target_db_type : DatabaseType; target_profile : option string }.

(** [DbOperationBudget]: seconds. *)
Record DbOperationBudget : Type := {
  checkout_timeout : N; connect_timeout : N; recycle_timeout : N; query_timeout : option N; cancel_timeout : N;
  cleanup_timeout : N
}.
Definition resolve_query_timeout (timeout_secs : N) : option N := if (timeout_secs =? 0)%N then None else Some timeout_secs.
(** [from_config] with a query timeout that is given. *)
Definition from_config (connect_timeout_secs query_timeout_secs : N) : DbOperationBudget :=
  let infra_timeout := N.min (N.max connect_timeout_secs 1) 300 in
  {| checkout_timeout := infra_timeout; connect_timeout := infra_timeout; recycle_timeout := infra_timeout;
     query_timeout := resolve_query_timeout query_timeout_secs; cancel_timeout := 5; cleanup_timeout := 3 |}.

(** ** What an import calls *)

Inductive PoolKind : Type := MysqlPool (bare : bool) | OtherPool.
(** The arguments of [MySqlQueryDialect::for_connection]. *)
Abbreviation MySqlQueryDialect := (DatabaseType * option string)%type (only parsing).

Inductive ImportE : Type → Type :=
| IsCancelled : ImportE bool                                           (* token.is_cancelled() *)
| ChildCancelled (execution_id : string) : ImportE bool                (* child_token.is_cancelled() *)
| Elapsed : ImportE N                                                  (* started_at.elapsed().as_millis() *)
| Emit (progress : SqlFileProgress) : ImportE unit
| ImportTarget (connection_id : string) : ImportE (option SqlFileImportTarget)
| ConnectionTimeouts (connection_id : string) : ImportE (option (N * N))  (* effective connect, query *)
| OpenFile (path : text) : ImportE (result (list text * option text) text) (* the chunks, and the error behind them *)
| GetOrCreatePool (connection_id : string) (database : option text) : ImportE (result string text)
| ReconnectPool (connection_id : string) (database : option text) : ImportE (result string text)
| RemovePool (pool_key : string) : ImportE unit
| LookupPool (pool_key : string) : ImportE (option PoolKind)
| Checkout (pool_key : string) (checkout_timeout cleanup_timeout : N) : ImportE (result nat text)
| DropConn (conn : nat) : ImportE unit
| Register (execution_id : string) : ImportE unit                      (* running_queries.register *)
| SpawnCancelTask (execution_id : string) : ImportE unit
| AbortCancelTask (execution_id : string) : ImportE unit
| Unregister (execution_id : string) : ImportE unit                    (* the guard is dropped *)
| SetPoolKey (execution_id pool_key : string) : ImportE unit
| TouchPool (pool_key : string) : ImportE unit
| BeginActivity (pool_key : string) : ImportE unit
| EndActivity (pool_key : string) : ImportE unit
| RegisterInterrupt (execution_id : string) (conn : nat) : ImportE unit
| QueryOnConn (conn : nat) (sql : text) (bare : bool) (query_timeout : option N) (dialect : MySqlQueryDialect)
    : ImportE (result Z text)
| ExecuteSql (connection_id : string) (database sql : text) (execution_id : string) : ImportE (result Z text).

Abbreviation import := (prog ImportE) (only parsing).

Fixpoint emit_all (l : list SqlFileProgress) : import unit :=
  match l with [] => Ret () | p :: l' => _ ← perform (Emit p); emit_all l' end.

Section file_import.
Context `{HU : UnicodeCase} `{HT : SqlTokenizer} `{HJ : JsonPrinter}.

(** ** Databases named by statements *)

(** [find(p)] and what follows [p]. *)
Definition behind_close (l : text) : option text := after_first l (c "*/").
Definition behind_newline (l : text) : option text := after_first l [10%N].

(** Every turn drops a character, so the length is enough fuel. *)
Fixpoint strip_comments_loop (fuel : nat) (supports_hash_line_comments : bool) (sql : text) : text :=
  match fuel with
  | 0 => []
  | S n =>
      let sql := trim_start_t sql in
      match sql with
      | 45%N :: 45%N :: rest =>
          match behind_newline rest with Some r => strip_comments_loop n supports_hash_line_comments r | None => [] end
      | 47%N :: 42%N :: rest =>
          match behind_close rest with Some r => strip_comments_loop n supports_hash_line_comments r | None => [] end
      | 35%N :: rest =>
          if supports_hash_line_comments
          then match behind_newline rest with Some r => strip_comments_loop n supports_hash_line_comments r | None => [] end
          else sql
      | _ => sql
      end
  end.
Definition strip_leading_sql_comments (sql : text) (supports_hash_line_comments : bool) : text :=
  strip_comments_loop (S (List.length sql)) supports_hash_line_comments sql.

Definition leading_sql_keyword (input : text) : option (text * text) :=
  let '(word, rest) := span_t (λ x, is_ascii_alphanumeric x || (x =? 95)%N) (trim_start_t input) in
  if text_eqb word [] then None else Some (word, rest).

(** [parse_mysql_doubled_delimited_identifier] and
    [parse_mysql_bracket_identifier], behind the opening: a doubled delimiter
    stands for itself. *)
Fixpoint delimited_identifier (delimiter : N) (l : text) : option (text * text) :=
  match l with
  | [] => None
  | x :: l1 =>
      if (x =? delimiter)%N then
        match l1 with
        | y :: l2 => if (y =? delimiter)%N then '(identifier, rest) ← delimited_identifier delimiter l2; Some (x :: identifier, rest)
                     else Some ([], l1)
        | [] => Some ([], [])
        end
      else '(identifier, rest) ← delimited_identifier delimiter l1; Some (x :: identifier, rest)
  end.

Definition parse_mysql_identifier (input : text) : option (text * text) :=
  match input with
  | [] => None
  | first :: rest =>
      if (first =? BT)%N || (first =? DQ)%N then delimited_identifier first rest
      else if (first =? 91)%N then delimited_identifier 93 rest
      else
        let '(identifier, rest) := span_t (λ x, negb (is_whitespace x || (x =? 59)%N)) input in
        let identifier := trim_t identifier in
        if text_eqb identifier [] then None else Some (identifier, rest)
  end.

Fixpoint comment_only (fuel : nat) (remainder : text) : bool :=
  match fuel with
  | 0 => false
  | S n =>
      match trim_start_t remainder with
      | [] => true
      | 59%N :: rest => comment_only n rest
      | 45%N :: 45%N :: _ => true
      | 35%N :: _ => true
      | 47%N :: 42%N :: rest => match behind_close rest with Some r => comment_only n r | None => false end
      | _ => false
      end
  end.
Definition sql_remainder_is_comment_only (remainder : text) : bool := comment_only (S (List.length remainder)) remainder.

Definition mysql_use_database_target (sql : text) : option text :=
  let sql := trim_start_t (strip_leading_sql_comments sql true) in
  let rest := drop 3 sql in
  if negb (text_eq_ignore_ascii_case (take 3 sql) (c "USE")) then None
  else
    match rest with
    | x :: _ =>
        if negb (is_ascii_whitespace x) then None
        else
          '(database, remainder) ← parse_mysql_identifier (trim_start_t rest);
          if sql_remainder_is_comment_only remainder then Some database else None
    | [] => None
    end.

Record MysqlLikeSqlFileBootstrapAnalysis : Type := {
  can_execute_without_selected_database : bool; establishes_database_context : bool
}.

(** What a prepared statement does for the database context. *)
Definition keyword_is (keyword : text) (name : string) : bool := text_eq_ignore_ascii_case keyword (c name).

Fixpoint bootstrap_loop (statements : list text) (saw_statement has_database_context : bool)
    : MysqlLikeSqlFileBootstrapAnalysis :=
  match statements with
  | [] => {| can_execute_without_selected_database := saw_statement; establishes_database_context := has_database_context |}
  | statement :: statements' =>
      match prepare_sql_file_statement statement Mysql None with
      | ActionSkip => bootstrap_loop statements' saw_statement has_database_context
      | ActionExecute prepared =>
          let statement := trim_start_t (strip_leading_sql_comments prepared true) in
          if text_eqb statement [] then bootstrap_loop statements' saw_statement has_database_context
          else
            match leading_sql_keyword statement with
            | None => {| can_execute_without_selected_database := false; establishes_database_context := has_database_context |}
            | Some (keyword, remainder) =>
                if keyword_is keyword "SET" || keyword_is keyword "SHOW" then bootstrap_loop statements' true has_database_context
                else if bool_decide (is_Some (mysql_use_database_target statement)) then bootstrap_loop statements' true true
                else if (keyword_is keyword "DROP" || keyword_is keyword "CREATE")
                        && match leading_sql_keyword remainder with
                           | Some (next, _) => keyword_is next "DATABASE" || keyword_is next "SCHEMA"
                           | None => false
                           end
                then bootstrap_loop statements' true has_database_context
                else if negb has_database_context
                then {| can_execute_without_selected_database := false; establishes_database_context := false |}
                else bootstrap_loop statements' true has_database_context
            end
      end
  end.

(** [splitter.push_chunk(file)], then [finish]. *)
Definition split_whole (options : SqlDialectProfile) (file_content : text) : list text :=
  let '(splitter, statements) := push_chunk (with_options options) file_content in
  statements ++ finish splitter.

Definition mysql_like_sql_file_bootstrap_analysis (file_content : text) : MysqlLikeSqlFileBootstrapAnalysis :=
  bootstrap_loop (split_whole mysql_compatible file_content) false false.
Definition mysql_like_sql_file_can_execute_without_selected_database (file_content : text) : bool :=
  can_execute_without_selected_database (mysql_like_sql_file_bootstrap_analysis file_content).

(** ** Splitting *)

Record SqlServerBatchSplitter : Type := mk_go_splitter { go_batch : text; partial_line : text }.
Definition SqlServerBatchSplitter_default : SqlServerBatchSplitter := mk_go_splitter [] [].

Definition push_batch (batch : text) : list text :=
  let batch := trim_t batch in if text_eqb batch [] then [] else [batch].
(** The batch under way, and the batches that are finished. *)
Definition push_line (batch line : text) : text * list text :=
  if text_eq_ignore_ascii_case (trim_t line) (c "go") then ([], push_batch batch) else (batch ++ line ++ [10%N], []).

(** [partial_line.find('\n')]: what is before it and behind it. *)
Fixpoint split_newline (l : text) : option (text * text) :=
  match l with
  | [] => None
  | x :: l' => if (x =? 10)%N then Some ([], l') else '(line, rest) ← split_newline l'; Some (x :: line, rest)
  end.

Fixpoint lines_loop (fuel : nat) (splitter : SqlServerBatchSplitter) : SqlServerBatchSplitter * list text :=
  match fuel with
  | 0 => (splitter, [])
  | S n =>
      match split_newline (partial_line splitter) with
      | None => (splitter, [])
      | Some (line, rest) =>
          let '(batch, batches) := push_line (go_batch splitter) (trim_end_char 13 line) in
          let '(splitter, more) := lines_loop n (mk_go_splitter batch rest) in
          (splitter, batches ++ more)
      end
  end.
(** Every turn drops a line, so the length is enough fuel. *)
Definition go_push_chunk (splitter : SqlServerBatchSplitter) (chunk : text) : SqlServerBatchSplitter * list text :=
  let partial := partial_line splitter ++ chunk in
  lines_loop (List.length partial) (mk_go_splitter (go_batch splitter) partial).

Definition go_finish (splitter : SqlServerBatchSplitter) : list text :=
  let '(batch, batches) :=
    match partial_line splitter with
    | [] => (go_batch splitter, [])
    | line => push_line (go_batch splitter) (trim_end_char 13 line)
    end in
  batches ++ push_batch batch.

Inductive StreamingSqlFileSplitter : Type :=
| Statements (splitter : SqlStatementSplitter)
| SqlServerBatches (splitter : SqlServerBatchSplitter).

Definition streaming_new (db_type : option DatabaseType) (options : SqlDialectProfile) : StreamingSqlFileSplitter :=
  if bool_decide (db_type = Some SqlServer) then SqlServerBatches SqlServerBatchSplitter_default
  else Statements (with_options options).
Definition streaming_push (splitter : StreamingSqlFileSplitter) (chunk : text) : StreamingSqlFileSplitter * list text :=
  match splitter with
  | Statements splitter => let '(splitter, statements) := push_chunk splitter chunk in (Statements splitter, statements)
  | SqlServerBatches splitter => let '(splitter, batches) := go_push_chunk splitter chunk in (SqlServerBatches splitter, batches)
  end.
Definition streaming_finish (splitter : StreamingSqlFileSplitter) : list text :=
  match splitter with Statements splitter => finish splitter | SqlServerBatches splitter => go_finish splitter end.

Definition split_sql_file_import_statements (file_content : text) (db_type : option DatabaseType) : list text :=
  if bool_decide (db_type = Some SqlServer) then split_sql_batches file_content
  else split_whole (import_options db_type) file_content.
End file_import.

(** ** The pinned connection *)

Record MySqlSqlFileExecutor : Type := mk_executor {
  ex_connection_id : string; ex_database : text; ex_pool_key : string; ex_db_type : option DatabaseType; ex_bare : bool;
  ex_dialect : MySqlQueryDialect; ex_budget : DbOperationBudget; ex_conn : option nat
}.
Definition set_conn (conn : option nat) (ex : MySqlSqlFileExecutor) : MySqlSqlFileExecutor :=
  mk_executor (ex_connection_id ex) (ex_database ex) (ex_pool_key ex) (ex_db_type ex) (ex_bare ex) (ex_dialect ex) (ex_budget ex) conn.
Definition with_pool_key (key : string) (ex : MySqlSqlFileExecutor) : MySqlSqlFileExecutor :=
  mk_executor (ex_connection_id ex) (ex_database ex) key (ex_db_type ex) (ex_bare ex) (ex_dialect ex) (ex_budget ex) (ex_conn ex).
Definition set_database (database : text) (ex : MySqlSqlFileExecutor) : MySqlSqlFileExecutor :=
  mk_executor (ex_connection_id ex) database (ex_pool_key ex) (ex_db_type ex) (ex_bare ex) (ex_dialect ex) (ex_budget ex) (ex_conn ex).

Definition non_empty_database (database : text) : option text :=
  let database := trim_t database in if text_eqb database [] then None else Some database.

Section executor.
Context `{HU : UnicodeCase} `{HT : SqlTokenizer} `{HJ : JsonPrinter}.
Context (request : SqlFileRequest).

Definition build (import_target : option SqlFileImportTarget) : import (result (option MySqlSqlFileExecutor) text) :=
  match import_target with
  | None => Ret (Ok None)
  | Some target =>
      if negb (supports_connection_level_database_bootstrap_target (target_db_type target) (target_profile target))
      then Ret (Ok None)
      else
        pool ← perform (GetOrCreatePool (connection_id request) (non_empty_database (database request)));
        match pool with
        | Err error => Ret (Err error)
        | Ok pool_key =>
            kind ← perform (LookupPool pool_key);
            match kind with
            | Some (MysqlPool bare) =>
                timeouts ← perform (ConnectionTimeouts (connection_id request));
                match timeouts with
                | None => Ret (Err (c "Connection config not found"))
                | Some (connect_secs, query_secs) =>
                    Ret (Ok (Some (mk_executor (connection_id request) (database request) pool_key (Some (target_db_type target))
                                     bare (target_db_type target, target_profile target) (from_config connect_secs query_secs)
                                     None)))
                end
            | _ => Ret (Ok None)
            end
        end
  end.

Definition ensure_conn (ex : MySqlSqlFileExecutor) : import (result unit text * MySqlSqlFileExecutor) :=
  match ex_conn ex with
  | Some _ => Ret (Ok (), ex)
  | None =>
      pool ← perform (GetOrCreatePool (ex_connection_id ex) (non_empty_database (ex_database ex)));
      match pool with
      | Err error => Ret (Err error, ex)
      | Ok pool_key =>
          let ex := with_pool_key pool_key ex in
          kind ← perform (LookupPool pool_key);
          match kind with
          | Some (MysqlPool _) =>
              conn ← perform (Checkout pool_key (checkout_timeout (ex_budget ex)) (cleanup_timeout (ex_budget ex)));
              match conn with
              | Err error => Ret (Err error, ex)
              | Ok conn => Ret (Ok (), set_conn (Some conn) ex)
              end
          | Some OtherPool => Ret (Err (c "SQL file import expected a MySQL-compatible pooled connection"), ex)
          | None => Ret (Err (c "Connection not found"), ex)
          end
      end
  end.

Definition drop_conn (ex : MySqlSqlFileExecutor) : import MySqlSqlFileExecutor :=
  match ex_conn ex with
  | Some conn => _ ← perform (DropConn conn); Ret (set_conn None ex)
  | None => Ret ex
  end.

(** One turn of [for attempt in 0..2], with the turns that are left behind it;
    the last turn always returns. *)
Fixpoint attempts (turns_left : nat) (ex : MySqlSqlFileExecutor) (sql : text) (execution_id : string)
    : import (result Z text * MySqlSqlFileExecutor) :=
  '(connected, ex) ← ensure_conn ex;
  match connected with
  | Err error => Ret (Err error, ex)
  | Ok _ =>
      _ ← perform (SetPoolKey execution_id (ex_pool_key ex));
      _ ← perform (TouchPool (ex_pool_key ex));
      _ ← perform (BeginActivity (ex_pool_key ex));
      let key := ex_pool_key ex in
      let return_ (r : result Z text * MySqlSqlFileExecutor) := _ ← perform (EndActivity key); Ret r in
      match ex_conn ex with
      | None => return_ (Err (c "MySQL SQL file executor is missing a connection"), ex)
      | Some conn =>
          _ ← perform (RegisterInterrupt execution_id conn);
          result ← perform (QueryOnConn conn sql (ex_bare ex) (query_timeout (ex_budget ex)) (ex_dialect ex));
          match result with
          | Ok rows =>
              return_ (Ok rows, match mysql_use_database_target sql with Some database => set_database database ex | None => ex end)
          | Err error =>
              match pool_error_action (ex_db_type ex) error with
              | Keep => return_ (Err error, ex)
              | Discard =>
                  ex ← drop_conn ex;
                  _ ← perform (RemovePool (ex_pool_key ex));
                  return_ (Err error, ex)
              | ReconnectAndRetry =>
                  ex ← drop_conn ex;
                  let surface :=
                    cancelled ← perform (ChildCancelled execution_id);
                    _ ← (if cancelled : bool then Ret (Err [])
                         else perform (ReconnectPool (ex_connection_id ex) (non_empty_database (ex_database ex))));
                    return_ (Err error, ex) in
                  match turns_left with
                  | 0 => surface
                  | S turns_left =>
                      cancelled ← perform (ChildCancelled execution_id);
                      if cancelled : bool then surface
                      else
                        pool ← perform (ReconnectPool (ex_connection_id ex) (non_empty_database (ex_database ex)));
                        match pool with
                        | Err error => return_ (Err error, ex)
                        | Ok pool_key =>
                            _ ← perform (EndActivity key);
                            attempts turns_left (with_pool_key pool_key ex) sql execution_id
                        end
                  end
              end
          end
      end
  end.
Definition execute_statement_inner (ex : MySqlSqlFileExecutor) (sql : text) (execution_id : string)
    : import (result Z text * MySqlSqlFileExecutor) := attempts 1 ex sql execution_id.

Definition sql_file_statement_execution_id (parent_execution_id : string) (statement_index : nat) : string :=
  (parent_execution_id +:+ ":statement:" +:+ pretty statement_index)%string.

(** Registered under its id while [body] runs; a task waits for the
    cancellation of the import meanwhile. *)
Definition while_registered {A} (statement_index : nat) (body : string → import A) : import A :=
  let id := sql_file_statement_execution_id (execution_id request) statement_index in
  _ ← perform (Register id);
  _ ← perform (SpawnCancelTask id);
  result ← body id;
  _ ← perform (AbortCancelTask id);
  _ ← perform (Unregister id);
  Ret result.

Definition execute_statement (ex : MySqlSqlFileExecutor) (sql : text) (statement_index : nat)
    : import (result Z text * MySqlSqlFileExecutor) :=
  while_registered statement_index (execute_statement_inner ex sql).

Definition execute_sql_file_statement (sql : text) (statement_index : nat) : import (result Z text) :=
  while_registered statement_index (λ id, perform (ExecuteSql (connection_id request) (database request) sql id)).

Definition execute_sql_file_statement_with_executor (sql : text) (statement_index : nat)
    (mysql_executor : option MySqlSqlFileExecutor) : import (result Z text * option MySqlSqlFileExecutor) :=
  match mysql_executor with
  | Some ex => '(result, ex) ← execute_statement ex sql statement_index; Ret (result, Some ex)
  | None => result ← execute_sql_file_statement sql statement_index; Ret (result, None)
  end.

(** ** Progress *)

Record SqlFileExecutionProgress : Type := mk_progress {
  statement_index : nat; success_count : nat; failure_count : nat; affected_rows : Z
}.
Definition SqlFileExecutionProgress_new : SqlFileExecutionProgress := mk_progress 0 0 0 0.

Definition count_success (n : nat) (rows : Z) (k : SqlFileExecutionProgress) : SqlFileExecutionProgress :=
  mk_progress (statement_index k) (success_count k + n) (failure_count k) (u64_add (affected_rows k) rows).
Definition count_failure (k : SqlFileExecutionProgress) : SqlFileExecutionProgress :=
  mk_progress (statement_index k) (success_count k) (failure_count k + 1) (affected_rows k).
Definition set_statement_index (i : nat) (k : SqlFileExecutionProgress) : SqlFileExecutionProgress :=
  mk_progress i (success_count k) (failure_count k) (affected_rows k).

(** [sql_file_progress]: the event, with the time it is made at. *)
Definition progress_at (ms : N) (status : SqlFileStatus) (index : nat) (k : SqlFileExecutionProgress) (summary : text)
    (error : option text) : SqlFileProgress :=
  {| progress_execution_id := execution_id request; progress_status := status; progress_statement_index := index;
     progress_success_count := success_count k; progress_failure_count := failure_count k;
     progress_affected_rows := affected_rows k; elapsed_ms := ms; progress_summary := summary; progress_error := error;
     file_index := None; file_name := None |}.
Definition sql_file_progress (status : SqlFileStatus) (index : nat) (k : SqlFileExecutionProgress) (summary : text)
    (error : option text) : import SqlFileProgress :=
  ms ← perform Elapsed; Ret (progress_at ms status index k summary error).
Definition report (status : SqlFileStatus) (index : nat) (k : SqlFileExecutionProgress) (summary : text)
    (error : option text) : import unit :=
  progress ← sql_file_progress status index k summary error; perform (Emit progress).

Definition sql_file_error_progress (error : text) : import SqlFileProgress :=
  sql_file_progress Error 0 SqlFileExecutionProgress_new [] (Some error).
Definition sql_file_execution_error_progress (k : SqlFileExecutionProgress) (error : text) : import SqlFileProgress :=
  sql_file_progress Error (statement_index k) k [] (Some error).

Definition emit_sql_file_terminal_progress (k : SqlFileExecutionProgress) : import unit :=
  cancelled ← perform IsCancelled;
  report (if cancelled : bool then Cancelled else Done) (statement_index k) k [] None.

(** The result: whether the import stops. *)
Record StatementErrorDecision : Type := mk_decision {
  decision_progress : list SqlFileProgress; decision_counts : SqlFileExecutionProgress; decision_result : result bool text
}.
Definition statement_error_decision (index : nat) (k : SqlFileExecutionProgress) (summary error : text)
    : import StatementErrorDecision :=
  cancelled ← perform IsCancelled;
  if cancelled : bool then
    progress ← sql_file_progress Cancelled index k summary None;
    Ret (mk_decision [progress] k (Ok true))
  else
    let k := count_failure k in
    statement_failed ← sql_file_progress StatementFailed index k summary (Some error);
    if continue_on_error request then Ret (mk_decision [statement_failed] k (Ok false))
    else
      terminal_error ← sql_file_progress Error index k summary (Some error);
      Ret (mk_decision [statement_failed; terminal_error] k (Err error)).

(** ** Executing a plan *)

(** What a step leaves: whether the import stops, the counts, the executor. *)
Abbreviation stepped := (result bool text * SqlFileExecutionProgress * option MySqlSqlFileExecutor)%type (only parsing).

Fixpoint fallback_loop (statement_index : nat) (sources : list text) (k : SqlFileExecutionProgress)
    (mysql_executor : option MySqlSqlFileExecutor) : import stepped :=
  match sources with
  | [] => Ret (Ok false, k, mysql_executor)
  | source_sql :: sources' =>
      let summary := statement_summary source_sql in
      cancelled ← perform IsCancelled;
      if cancelled : bool then
        _ ← report Cancelled statement_index k summary None;
        Ret (Ok true, k, mysql_executor)
      else
        _ ← report Running statement_index k summary None;
        '(result, mysql_executor) ← execute_sql_file_statement_with_executor source_sql statement_index mysql_executor;
        match result with
        | Ok rows =>
            let k := count_success 1 rows k in
            _ ← report StatementDone statement_index k summary None;
            fallback_loop (S statement_index) sources' k mysql_executor
        | Err error =>
            decision ← statement_error_decision statement_index k summary error;
            _ ← emit_all (decision_progress decision);
            match decision_result decision with
            | Err error => Ret (Err error, decision_counts decision, mysql_executor)
            | Ok true => Ret (Ok true, decision_counts decision, mysql_executor)
            | Ok false => fallback_loop (S statement_index) sources' (decision_counts decision) mysql_executor
            end
        end
  end.
Definition execute_merged_statement_fallback_with_progress (first_statement_index : nat) (statement : SqlFileImportStatement)
    (k : SqlFileExecutionProgress) (mysql_executor : option MySqlSqlFileExecutor) : import stepped :=
  fallback_loop first_statement_index (source_sqls statement) k mysql_executor.

Definition execute_statement_with_progress (index : nat) (statement : SqlFileImportStatement) (k : SqlFileExecutionProgress)
    (mysql_executor : option MySqlSqlFileExecutor) : import stepped :=
  let summary := statement_summary (plan_sql statement) in
  cancelled ← perform IsCancelled;
  if cancelled : bool then
    _ ← report Cancelled index k summary None;
    Ret (Ok true, k, mysql_executor)
  else if bool_decide (plan_kind statement = Skip) then
    _ ← report Running index k summary None;
    let k := mk_progress (statement_index k) (success_count k + source_statement_count statement)
               (failure_count k) (affected_rows k) in
    _ ← report StatementDone index k summary None;
    Ret (Ok false, k, mysql_executor)
  else
    _ ← report Running index k summary None;
    '(result, mysql_executor) ← execute_sql_file_statement_with_executor (plan_sql statement) index mysql_executor;
    match result with
    | Ok rows =>
        let k := count_success (source_statement_count statement) rows k in
        _ ← report StatementDone index k summary None;
        Ret (Ok false, k, mysql_executor)
    | Err error =>
        cancelled ← (if 1 <? source_statement_count statement then perform IsCancelled else Ret true);
        if (1 <? source_statement_count statement) && negb cancelled then
          execute_merged_statement_fallback_with_progress (index + 1 - source_statement_count statement) statement k mysql_executor
        else
          decision ← statement_error_decision index k summary error;
          _ ← emit_all (decision_progress decision);
          Ret (decision_result decision, decision_counts decision, mysql_executor)
    end.

(** What [progress] and the executor are left as, also when it fails. *)
Abbreviation executed := (result unit text * SqlFileExecutionProgress * option MySqlSqlFileExecutor)%type (only parsing).

Fixpoint execute_planned_statements_with_progress (planned_statements : list SqlFileImportStatement)
    (k : SqlFileExecutionProgress) (mysql_executor : option MySqlSqlFileExecutor) : import executed :=
  match planned_statements with
  | [] => Ret (Ok (), k, mysql_executor)
  | planned_statement :: planned_statements' =>
      cancelled ← perform IsCancelled;
      if cancelled : bool then Ret (Ok (), k, mysql_executor)
      else
        let next_statement_index := statement_index k + source_statement_count planned_statement in
        '(stop, k, mysql_executor) ← execute_statement_with_progress next_statement_index planned_statement k mysql_executor;
        match stop with
        | Err error => Ret (Err error, k, mysql_executor)
        | Ok true => Ret (Ok (), k, mysql_executor)
        | Ok false =>
            execute_planned_statements_with_progress planned_statements' (set_statement_index next_statement_index k) mysql_executor
        end
  end.

(** ** Executing files *)

Definition target_type (import_target : option SqlFileImportTarget) : option DatabaseType := target_db_type <$> import_target.
Definition target_driver (import_target : option SqlFileImportTarget) : option string := import_target ≫= target_profile.

Definition execute_sql_file_content (file_content : text) : import (result unit text) :=
  import_target ← perform (ImportTarget (connection_id request));
  let statements := split_sql_file_import_statements file_content (target_type import_target) in
  let planned_statements := optimize_sql_file_import_statements (target_type import_target) (target_driver import_target) statements in
  executor ← build import_target;
  match executor with
  | Err error => Ret (Err error)
  | Ok mysql_executor =>
      '(done, k, _) ← execute_planned_statements_with_progress planned_statements SqlFileExecutionProgress_new mysql_executor;
      match done with
      | Err error => Ret (Err error)
      | Ok _ => _ ← emit_sql_file_terminal_progress k; Ret (Ok ())
      end
  end.

Definition execute_sql_file_statement_batch (import_target : option SqlFileImportTarget) (statements : list text)
    (k : SqlFileExecutionProgress) (mysql_executor : option MySqlSqlFileExecutor) : import executed :=
  match statements with
  | [] => Ret (Ok (), k, mysql_executor)
  | _ =>
      execute_planned_statements_with_progress
        (optimize_sql_file_import_statements (target_type import_target) (target_driver import_target) statements) k mysql_executor
  end.

Definition SQL_FILE_STATEMENT_BATCH_SIZE : nat := 256.

(** How a file ends: at its end, or the whole import returns. *)
Inductive FileEnd : Type :=
| FileRead (k : SqlFileExecutionProgress) (mysql_executor : option MySqlSqlFileExecutor)
| ImportReturns (r : result unit text).

(** The rest of the chunks of a file, and the error behind them. *)
Fixpoint chunk_loop (import_target : option SqlFileImportTarget) (splitter : StreamingSqlFileSplitter)
    (pending_statements : list text) (chunks : list text) (read_error : option text) (k : SqlFileExecutionProgress)
    (mysql_executor : option MySqlSqlFileExecutor) : import FileEnd :=
  match chunks with
  | [] =>
      match read_error with
      | Some error =>
          _ ← report Error (statement_index k) k [] (Some error);
          Ret (ImportReturns (Err error))
      | None =>
          '(done, k, mysql_executor) ←
            execute_sql_file_statement_batch import_target (pending_statements ++ streaming_finish splitter) k mysql_executor;
          match done with
          | Err error => Ret (ImportReturns (Err error))
          | Ok _ => Ret (FileRead k mysql_executor)
          end
      end
  | chunk :: chunks' =>
      cancelled ← perform IsCancelled;
      if cancelled : bool then
        _ ← emit_sql_file_terminal_progress k;
        Ret (ImportReturns (Ok ()))
      else
        let '(splitter, statements) := streaming_push splitter chunk in
        let pending_statements := pending_statements ++ statements in
        if List.length pending_statements <? SQL_FILE_STATEMENT_BATCH_SIZE
        then chunk_loop import_target splitter pending_statements chunks' read_error k mysql_executor
        else
          '(done, k, mysql_executor) ← execute_sql_file_statement_batch import_target pending_statements k mysql_executor;
          match done with
          | Err error => Ret (ImportReturns (Err error))
          | Ok _ => chunk_loop import_target splitter [] chunks' read_error k mysql_executor
          end
  end.

(** [Path::file_name], lossily as text, is the second component of a path. *)
Definition FilePath : Type := text * text.

(** The event at a file's boundary: its counters are those of [k]. *)
Definition file_boundary (status : SqlFileStatus) (k : SqlFileExecutionProgress) (index : nat) (name : text) : import unit :=
  ms ← perform Elapsed;
  perform (Emit {| progress_execution_id := execution_id request; progress_status := status;
                   progress_statement_index := statement_index k; progress_success_count := success_count k;
                   progress_failure_count := failure_count k; progress_affected_rows := affected_rows k; elapsed_ms := ms;
                   progress_summary := []; progress_error := None; file_index := Some index; file_name := Some name |}).

(** What was counted since [prev]. *)
Definition since (prev k : SqlFileExecutionProgress) : SqlFileExecutionProgress :=
  mk_progress (statement_index k - statement_index prev) (success_count k - success_count prev)
    (failure_count k - failure_count prev) ((affected_rows k - affected_rows prev) `mod` 2 ^ 64).

Fixpoint files_loop (import_target : option SqlFileImportTarget) (several : bool) (index : nat) (file_paths : list FilePath)
    (prev k : SqlFileExecutionProgress) (mysql_executor : option MySqlSqlFileExecutor) : import (result unit text) :=
  match file_paths with
  | [] => _ ← emit_sql_file_terminal_progress k; Ret (Ok ())
  | (path, name) :: file_paths' =>
      _ ← (if several then file_boundary Running k index name else Ret ());
      file ← perform (OpenFile path);
      match file with
      | Err error =>
          progress ← sql_file_execution_error_progress k error;
          _ ← perform (Emit progress);
          Ret (Err error)
      | Ok (chunks, read_error) =>
          let splitter := streaming_new (target_type import_target) (import_options (target_type import_target)) in
          ended ← chunk_loop import_target splitter [] chunks read_error k mysql_executor;
          match ended with
          | ImportReturns r => Ret r
          | FileRead k mysql_executor =>
              _ ← (if several then file_boundary StatementDone (since prev k) index name else Ret ());
              files_loop import_target several (S index) file_paths' k k mysql_executor
          end
      end
  end.

Definition execute_sql_file_paths (file_paths : list FilePath) : import (result unit text) :=
  match file_paths with
  | [] =>
      let error := c "No SQL files selected" in
      progress ← sql_file_error_progress error;
      _ ← perform (Emit progress);
      Ret (Err error)
  | _ =>
      import_target ← perform (ImportTarget (connection_id request));
      executor ← build import_target;
      match executor with
      | Err error =>
          progress ← sql_file_execution_error_progress SqlFileExecutionProgress_new error;
          _ ← perform (Emit progress);
          Ret (Err error)
      | Ok mysql_executor =>
          files_loop import_target (1 <? List.length file_paths) 0 file_paths SqlFileExecutionProgress_new
            SqlFileExecutionProgress_new mysql_executor
      end
  end.

Definition execute_sql_file_path (file_path : FilePath) : import (result unit text) := execute_sql_file_paths [file_path].
End executor.

(** ** What an import counts *)

Section counting.
Context `{HU : UnicodeCase} `{HT : SqlTokenizer} `{HJ : JsonPrinter}.
Context (request : SqlFileRequest).

(** The statements of a file that is read in [chunks]. *)
Fixpoint stream_statements (splitter : StreamingSqlFileSplitter) (chunks : list text) : list text :=
  match chunks with
  | [] => streaming_finish splitter
  | chunk :: chunks' => let '(splitter, statements) := streaming_push splitter chunk in statements ++ stream_statements splitter chunks'
  end.
Definition file_statements (import_target : option SqlFileImportTarget) (chunks : list text) : list text :=
  stream_statements (streaming_new (target_type import_target) (import_options (target_type import_target))) chunks.

Definition counted (k : SqlFileExecutionProgress) : nat := success_count k + failure_count k.

(** The import was seen to be cancelled; a cancellation is for good. *)
Definition cancel_seen (t : list (event ImportE)) : Prop := Ev IsCancelled true ∈ t.
Definition cancel_kept (t : list (event ImportE)) : Prop :=
  ∀ t1 t2, t = t1 ++ Ev IsCancelled false :: t2 → ¬ cancel_seen t1.

(** The last call reports [p]. *)
Definition reported_last (t : list (event ImportE)) (p : SqlFileProgress) : Prop := ∃ t0, t = t0 ++ [Ev (Emit p) tt].

Lemma cancel_seen_prefix t t' : t `prefix_of` t' → cancel_seen t → cancel_seen t'.
Proof. intros [l ->] H. unfold cancel_seen. set_solver. Qed.

Lemma holds_report status index k summary error {C} (f : unit → import C) Q t :
  (∀ ms, holds (f tt) Q (t ++ [Ev Elapsed ms] ++ [Ev (Emit (progress_at request ms status index k summary error)) tt])) →
  holds (report request status index k summary error ≫= f) Q t.
Proof. intros H ms []. rewrite <-app_assoc. apply H. Qed.

(** What a step leaves behind that should count [n] statements. *)
Definition step_post (n : nat) (k : SqlFileExecutionProgress) (r : result bool text) (k' : SqlFileExecutionProgress)
    (t' : list (event ImportE)) : Prop :=
  statement_index k' = statement_index k ∧
  match r with
  | Ok false => counted k' = counted k + n
  | Ok true => cancel_seen t' ∧ counted k' ≤ counted k + n
  | Err error =>
      continue_on_error request = false ∧
      ∃ p, reported_last t' p ∧ progress_status p = Error ∧ progress_error p = Some error
           ∧ progress_success_count p = success_count k' ∧ progress_failure_count p = failure_count k'
           ∧ counted k' ≤ counted k + n
  end.

Lemma decision_post index k summary error (f : StatementErrorDecision → import (result bool text * SqlFileExecutionProgress * option MySqlSqlFileExecutor))
    (Q : result bool text * SqlFileExecutionProgress * option MySqlSqlFileExecutor → list (event ImportE) → Prop) t :
  (∀ d t', t `prefix_of` t' → step_post 1 k (decision_result d) (decision_counts d) t' →
           (cancel_kept t' → cancel_seen t → decision_result d = Ok true) → holds (f d) Q t') →
  holds (decision ← statement_error_decision request index k summary error;
         _ ← emit_all (decision_progress decision); f decision) Q t.
Proof.
  intros H. unfold statement_error_decision, sql_file_progress. prog_simpl. cbn [holds]. intros [].
  - prog_simpl. cbn [holds emit_all decision_progress]. prog_simpl. intros ms []. apply H.
    + rewrite <-!app_assoc. by apply prefix_app_r.
    + split; [done|]. split; [|simpl; lia]. unfold cancel_seen. set_solver.
    + done.
  - prog_simpl. cbn [holds]. intros ms. destruct (continue_on_error request) eqn:Hc; prog_simpl; cbn [holds].
    + prog_simpl. intros []. apply H; [rewrite <-!app_assoc; by apply prefix_app_r|split; [done|]|].
      { unfold counted. simpl. lia. }
      intros Hk Hs. by destruct (Hk t _ ltac:(by rewrite <-!app_assoc)).
    + intros ms2. prog_simpl. intros [] []. apply H; [rewrite <-!app_assoc; by apply prefix_app_r|split; [done|split; [done|]]|].
      { eexists. split; [by eexists|]. unfold counted. simpl. split_and!; try done; lia. }
      intros Hk Hs. by destruct (Hk t _ ltac:(by rewrite <-!app_assoc)).
Qed.

Lemma step_post_weaken n m k k0 r k' t t' :
  counted k + n ≤ counted k0 + m → statement_index k = statement_index k0 →
  (∀ b, r = Ok b → b = true) → t `prefix_of` t' → step_post n k r k' t' → step_post m k0 r k' t'.
Proof.
  intros Hn Hi Hr _ [H1 H]. split; [congruence|]. destruct r as [[]|e].
  - destruct H as [? ?]. split; [done|]. lia.
  - by specialize (Hr _ eq_refl).
  - destruct H as (? & p & ? & ? & ? & ? & ? & ?). split; [done|]. exists p. split_and!; try done. lia.
Qed.

Lemma fallback_counts sources : ∀ index k ex t,
  holds (fallback_loop request index sources k ex)
    (λ '(r, k', _) t', step_post (List.length sources) k r k' t') t.
Proof.
  induction sources as [|source sources IH]; intros index k ex t; cbn [fallback_loop].
  { cbn. split; [done|]. lia. }
  prog_simpl. cbn [holds]. intros [].
  { apply holds_report. intros ms. cbn. split; [done|]. split; [unfold cancel_seen; set_solver|]. lia. }
  apply holds_report. intros ms. apply holds_bind'. eapply holds_mono; [apply holds_any|]. intros [result ex'] t1 _ _.
  destruct result as [rows|error].
  - apply holds_report. intros ms'. eapply holds_mono; [apply IH|]. intros [[r k'] ex''] t2 [Hi H]. split; [done|].
    unfold count_success in H. destruct r as [[]|e]; unfold counted in *; cbn [success_count failure_count List.length] in *.
    + destruct H. split; [done|]. lia.
    + lia.
    + destruct H as (? & p & ? & ? & ? & ? & ? & ?). split; [done|]. exists p. split_and!; try done. lia.
  - apply decision_post. intros d t2 _ Hd _. destruct (decision_result d) as [[]|e] eqn:Ed; cbn [holds].
    + eapply step_post_weaken; [| |by intros b [= <-]|reflexivity|exact Hd]; [simpl; lia|done].
    + destruct Hd as [Hi Hd]. eapply holds_mono; [apply IH|]. intros [[r k'] ex''] t3 [Hi' H]. split; [congruence|].
      destruct r as [[]|e]; cbn [List.length].
      * destruct H. split; [done|]. lia.
      * lia.
      * destruct H as (? & p & ? & ? & ? & ? & ? & ?). split; [done|]. exists p. split_and!; try done. lia.
    + eapply step_post_weaken; [| |by intros b [= <-]|reflexivity|exact Hd]; [simpl; lia|done].
Qed.

Lemma cancel_kept_prefix t t' : t `prefix_of` t' → cancel_kept t' → cancel_kept t.
Proof. intros [l ->] H t1 t2 ->. apply (H t1 (t2 ++ l)). by rewrite <-app_assoc. Qed.

Lemma statement_counts index statement k ex t :
  List.length (source_sqls statement) = source_statement_count statement → 1 ≤ source_statement_count statement →
  holds (execute_statement_with_progress request index statement k ex)
    (λ '(r, k', _) t', cancel_kept t' → step_post (source_statement_count statement) k r k' t') t.
Proof.
  intros Hlen Hn. unfold execute_statement_with_progress. prog_simpl. cbn [holds]. intros [].
  { apply holds_report. intros ms. cbn. intros _. split; [done|]. split; [unfold cancel_seen; set_solver|]. lia. }
  case_bool_decide.
  { apply holds_report. intros ms. apply holds_report. intros ms'. cbn. intros _. split; [done|]. unfold counted. simpl. lia. }
  apply holds_report. intros ms. apply holds_bind'. eapply holds_mono; [apply holds_any|]. intros [result ex'] t1 _ _.
  destruct result as [rows|error].
  { apply holds_report. intros ms'. cbn. intros _. split; [done|]. unfold counted. simpl. lia. }
  destruct (1 <? source_statement_count statement) eqn:Hmany.
  2: { prog_simpl. apply Nat.ltb_ge in Hmany. apply decision_post. intros d t3 _ Hd _ _.
       by replace (source_statement_count statement) with 1 by lia. }
  prog_simpl. cbn [holds]. intros []; cbn [andb negb].
  - apply decision_post. intros d t3 _ Hd Hkeep Hk. specialize (Hkeep Hk).
    eapply step_post_weaken; [| | |reflexivity|exact Hd]; [lia|done|].
    intros b Hb. rewrite Hkeep in Hb by (unfold cancel_seen; set_solver). congruence.
  - unfold execute_merged_statement_fallback_with_progress. eapply holds_mono; [apply fallback_counts|].
    rewrite Hlen. by intros [[r k'] ex''] t3.
Qed.

(** What a plan leaves behind: all is counted, or the import was cancelled, or it
    has failed. *)
Definition plan_post (n : nat) (k : SqlFileExecutionProgress) (r : result unit text) (k' : SqlFileExecutionProgress)
    (t' : list (event ImportE)) : Prop :=
  match r with
  | Ok _ =>
      counted k' = counted k + n ∧ statement_index k' = statement_index k + n
      ∨ cancel_seen t' ∧ counted k' ≤ counted k + n ∧ statement_index k' ≤ statement_index k + n
  | Err error =>
      continue_on_error request = false ∧
      ∃ p, reported_last t' p ∧ progress_status p = Error ∧ progress_error p = Some error
           ∧ progress_success_count p = success_count k' ∧ progress_failure_count p = failure_count k'
           ∧ counted k' ≤ counted k + n
  end.

Lemma planned_counts planned : ∀ k ex t,
  Forall (λ entry, List.length (source_sqls entry) = source_statement_count entry ∧ 1 ≤ source_statement_count entry) planned →
  holds (execute_planned_statements_with_progress request planned k ex)
    (λ '(r, k', _) t', cancel_kept t' → plan_post (sum_list (source_statement_count <$> planned)) k r k' t') t.
Proof.
  induction planned as [|entry planned IH]; intros k ex t Hp; cbn [execute_planned_statements_with_progress].
  { cbn. intros _. left. lia. }
  apply Forall_cons in Hp as [[Hlen Hn] Hp]. rewrite fmap_cons. change (sum_list (?x :: ?l)) with (x + sum_list l).
  set (m := sum_list (_ <$> planned)) in *. prog_simpl. cbn [holds]. intros [].
  { cbn. intros _. right. split; [unfold cancel_seen; set_solver|]. lia. }
  change (prog_bind ?p ?f) with (p ≫= f). apply holds_bind'. eapply holds_mono; [by apply statement_counts|].
  intros [[r k'] ex'] t1 Hstep Hpre. destruct r as [[]|e]; cbn [holds].
  - intros Hk. destruct (Hstep Hk) as [Hi [Hs Hc]]. right. split; [done|]. lia.
  - eapply holds_mono; [apply holds_and; [by apply IH|apply holds_grows]|].
    intros [[r k2] ex2] t2 [H Hpre2] Hk. specialize (H Hk). destruct (Hstep (cancel_kept_prefix _ _ Hpre2 Hk)) as [Hi Hc].
    destruct r as [[]|e]; cbn [plan_post] in *; unfold counted in *; cbn [success_count failure_count statement_index set_statement_index] in *.
    + destruct H as [H|(? & H)]; [left; lia|right; split; [done|lia]].
    + destruct H as (? & p & ? & ? & ? & ? & ? & ?). split; [done|]. exists p. split_and!; try done. lia.
  - intros Hk. destruct (Hstep Hk) as (Hi & ? & p & ? & ? & ? & ? & ? & ?). split; [done|]. exists p. split_and!; try done. lia.
Qed.

Lemma batch_counts import_target statements k ex t :
  holds (execute_sql_file_statement_batch request import_target statements k ex)
    (λ '(r, k', _) t', cancel_kept t' → plan_post (List.length statements) k r k' t') t.
Proof.
  unfold execute_sql_file_statement_batch. destruct statements as [|statement statements]; [cbn; intros _; left; lia|].
  set (all := statement :: statements).
  pose proof (grouped_counts _ _ _ _ (optimized_grouped (target_type import_target) (target_driver import_target) all)) as [Hsum Hall].
  rewrite <-Hsum. apply planned_counts. eapply Forall_impl; [exact Hall|]. simpl. intros entry (? & [? ?] & ?). split; [congruence|lia].
Qed.

Lemma reported_last_app t l p : reported_last (t ++ l ++ [Ev (Emit p) tt]) p.
Proof. exists (t ++ l). by rewrite <-app_assoc. Qed.

Definition counted_by (p : SqlFileProgress) : nat := progress_success_count p + progress_failure_count p.

Lemma terminal_report k {C} (f : unit → import C) Q t :
  (∀ (cancelled : bool) (ms : N), holds (f tt) Q (t ++ [Ev IsCancelled cancelled; Ev Elapsed ms]
     ++ [Ev (Emit (progress_at request ms (if cancelled then Cancelled else Done) (statement_index k) k [] None)) tt])) →
  holds (emit_sql_file_terminal_progress request k ≫= f) Q t.
Proof. intros H cancelled. prog_simpl. intros ms []. specialize (H cancelled ms). by rewrite <-!app_assoc. Qed.

(** How the part of an import ends that was to count [n] statements more. *)
Definition chunks_post (n : nat) (k : SqlFileExecutionProgress) (ended : FileEnd) (t' : list (event ImportE)) : Prop :=
  match ended with
  | FileRead k' _ => plan_post n k (Ok ()) k' t'
  | ImportReturns (Ok _) =>
      ∃ p, reported_last t' p ∧ file_index p = None ∧ progress_status p = Cancelled ∧ progress_error p = None ∧ cancel_seen t'
           ∧ counted_by p ≤ counted k + n
  | ImportReturns (Err error) =>
      ∃ p, reported_last t' p ∧ progress_status p = Error ∧ progress_error p = Some error
           ∧ counted_by p ≤ counted k + n
  end.

Lemma chunk_loop_counts import_target chunks read_error : ∀ splitter pending k ex t,
  holds (chunk_loop request import_target splitter pending chunks read_error k ex)
    (λ ended t', cancel_kept t' → chunks_post (List.length pending + List.length (stream_statements splitter chunks)) k ended t') t.
Proof.
  induction chunks as [|chunk chunks IH]; intros splitter pending k ex t; cbn [chunk_loop stream_statements].
  - destruct read_error as [error|].
    + apply holds_report. intros ms. cbn. intros _. eexists. split; [apply (reported_last_app t [_])|].
      unfold counted_by, counted. simpl. split_and!; try done. lia.
    + apply holds_bind'. eapply holds_mono; [apply batch_counts|]. intros [[r k'] ex'] t1 H _. rewrite length_app in H.
      destruct r as [[]|e]; cbn [holds]; [exact H|]. intros Hk. destruct (H Hk) as (_ & p & ? & ? & ? & ? & ? & ?).
      exists p. unfold counted_by. split_and!; try done. unfold counted in *. lia.
  - prog_simpl. cbn [holds]. intros [].
    { change (prog_bind ?p ?f) with (p ≫= f). apply terminal_report. intros cancelled ms. cbn [holds]. intros Hk.
      assert (Hseen : cancel_seen (t ++ [Ev IsCancelled true])) by (unfold cancel_seen; set_solver).
      destruct cancelled.
      - eexists. split; [apply (reported_last_app _ [_; _])|]. unfold counted_by, counted. simpl.
        split_and!; try done; [|lia]. eapply cancel_seen_prefix; [|exact Hseen]. by apply prefix_app_r.
      - by destruct (Hk _ _ eq_refl). }
    destruct (streaming_push splitter chunk) as [splitter' statements] eqn:E.
    destruct (_ <? _).
    + eapply holds_mono; [apply IH|]. intros ended t1 H. rewrite !length_app in *.
      by rewrite (Nat.add_assoc (List.length pending)).
    + change (prog_bind ?p ?f) with (p ≫= f). apply holds_bind'. eapply holds_mono; [apply batch_counts|].
      intros [[r k'] ex'] t1 H _. rewrite !length_app in *. destruct r as [[]|e]; cbn [holds].
      * eapply holds_mono; [apply holds_and; [by apply IH|apply holds_grows]|]. intros ended t2 [H2 Hpre] Hk.
        specialize (H2 Hk). specialize (H (cancel_kept_prefix _ _ Hpre Hk)). cbn [List.length] in H2.
        destruct ended as [k2 ex2|[[]|e]]; cbn [chunks_post plan_post] in *.
        -- destruct H as [H|(Hs & H)]; [destruct H2 as [H2|(? & H2)]; [left; lia|right; split; [done|lia]]|].
           right. split; [by eapply cancel_seen_prefix|]. destruct H2 as [H2|(? & H2)]; lia.
        -- destruct H2 as (p & ? & ? & ? & ? & ? & ?). exists p. split_and!; try done. destruct H as [H|(_ & H)]; lia.
        -- destruct H2 as (p & ? & ? & ? & ?). exists p. split_and!; try done. destruct H as [H|(_ & H)]; lia.
      * intros Hk. destruct (H Hk) as (_ & p & ? & ? & ? & ? & ? & ?). exists p. unfold counted_by, counted in *. split_and!; try done. lia.
Qed.

Section files.
Context (files : text → result (list text * option text) text) (import_target : option SqlFileImportTarget).

(** The statements a file holds. *)
Definition statements_in (path : text) : nat :=
  match files path with Ok (chunks, _) => List.length (file_statements import_target chunks) | Err _ => 0 end.

(** The calls are answered by these files and this target. *)
Definition answered (t : list (event ImportE)) : Prop :=
  (∀ path r, Ev (OpenFile path) r ∈ t → r = files path)
  ∧ (∀ a, Ev (ImportTarget (connection_id request)) a ∈ t → a = import_target).

Lemma answered_prefix t t' : t `prefix_of` t' → answered t' → answered t.
Proof. intros [l ->] [H1 H2]. split; [intros path r Hr; apply H1|intros a Ha; apply H2]; set_solver. Qed.

(** How an import of [total] statements ends: with one last event. *)
Definition import_post (total : nat) (r : result unit text) (t' : list (event ImportE)) : Prop :=
  ∃ p, reported_last t' p ∧
  match r with
  | Ok _ =>
      progress_error p = None
      ∧ (progress_status p = Done ∧ ¬ cancel_seen t' ∧ counted_by p = total ∧ progress_statement_index p = total
         ∨ progress_status p = Cancelled ∧ cancel_seen t' ∧ counted_by p ≤ total)
  | Err error => progress_status p = Error ∧ progress_error p = Some error ∧ counted_by p ≤ total
  end.

Definition tally (n : nat) (k : SqlFileExecutionProgress) (t : list (event ImportE)) : Prop :=
  counted k = n ∧ statement_index k = n ∨ cancel_seen t ∧ counted k ≤ n ∧ statement_index k ≤ n.

Lemma cancel_seen_app t l : cancel_seen (t ++ l) ↔ cancel_seen t ∨ cancel_seen l.
Proof. unfold cancel_seen. by rewrite elem_of_app. Qed.

(** The call that saw the cancellation. *)
Definition cancel_flag (e : event ImportE) : bool :=
  match e with
  | @Ev _ B call b => (match call in ImportE B return B → bool with IsCancelled => λ b, b | _ => λ _, false end) b
  end.

Lemma tally_prefix n k t t' : t `prefix_of` t' → tally n k t → tally n k t'.
Proof. intros Hpre [?|(Hs & ?)]; [by left|right]. split; [by eapply cancel_seen_prefix|done]. Qed.

Lemma files_loop_counts several paths : ∀ index prev k ex n t,
  (cancel_kept t → answered t → tally n k t) →
  holds (files_loop request import_target several index paths prev k ex)
    (λ r t', cancel_kept t' → answered t' → import_post (n + sum_list (statements_in <$> paths.*1)) r t') t.
Proof.
  induction paths as [|[path name] paths IH]; intros index prev k ex n t Hn; cbn [files_loop].
  - apply terminal_report. intros cancelled ms. cbn [holds]. intros Hk Ha. eexists. split; [apply (reported_last_app t [_; _])|].
    assert (Hpre : t `prefix_of` t ++ [Ev IsCancelled cancelled; Ev Elapsed ms] ++ [Ev (Emit (progress_at request ms (if cancelled then Cancelled else Done) (statement_index k) k [] None)) tt]) by (by apply prefix_app_r).
    specialize (Hn (cancel_kept_prefix _ _ Hpre Hk) (answered_prefix _ _ Hpre Ha)). split; [done|]. simpl. rewrite Nat.add_0_r.
    unfold counted_by, counted in *. simpl. destruct cancelled.
    + right. split; [done|]. split; [unfold cancel_seen; set_solver|]. destruct Hn as [Hn|(_ & Hn)]; unfold counted in Hn; lia.
    + assert (Hno : ¬ cancel_seen t) by (by eapply Hk). left. split; [done|]. split.
      * unfold cancel_seen. rewrite elem_of_app, !elem_of_cons. intros [?|[E|[E|[E|[]%not_elem_of_nil]]]]; [done|by apply (f_equal cancel_flag) in E..].
      * destruct Hn as [Hn|[? _]]; [exact Hn|done].
  - set (size := statements_in path). cbn [fmap list_fmap fst]. change (sum_list (?x :: ?l)) with (x + sum_list l).
    assert (Hbody : ∀ t, (cancel_kept t → answered t → tally n k t) →
      holds (file ← perform (OpenFile path);
             match file with
             | Err error => progress ← sql_file_execution_error_progress request k error; _ ← perform (Emit progress); Ret (Err error)
             | Ok (chunks, read_error) =>
                 ended ← chunk_loop request import_target (streaming_new (target_type import_target) (import_options (target_type import_target)))
                           [] chunks read_error k ex;
                 match ended with
                 | ImportReturns r => Ret r
                 | FileRead k mysql_executor =>
                     _ ← (if several then file_boundary request StatementDone (since prev k) index name else Ret ());
                     files_loop request import_target several (S index) paths k k mysql_executor
                 end
             end)
        (λ r t', cancel_kept t' → answered t' → import_post (n + (size + sum_list (statements_in <$> paths.*1))) r t') t).
    { clear t Hn. intros t Hn. prog_simpl. cbn [holds]. intros file. set (t1 := t ++ _).
      assert (Hfile : ∀ t', t1 `prefix_of` t' → answered t' → file = files path).
      { intros t' Hpre Ha. apply (answered_prefix _ _ Hpre Ha). unfold t1. set_solver. }
      assert (Hn1 : ∀ t', t1 `prefix_of` t' → cancel_kept t' → answered t' → tally n k t).
      { intros t' Hpre Hk Ha. assert (t `prefix_of` t') by (etrans; [|exact Hpre]; by apply prefix_app_r).
        apply Hn; [by eapply cancel_kept_prefix|by eapply answered_prefix]. }
      assert (Ht1 : t `prefix_of` t1) by (by apply prefix_app_r). clearbody t1. destruct file as [[chunks read_error]|error].
      2: { unfold sql_file_execution_error_progress, sql_file_progress. prog_simpl. cbn [holds]. intros ms []. intros Hk Ha.
           eexists. split; [by eexists|]. split; [done|]. split; [done|]. unfold counted_by. simpl.
           
           match type of Hk with cancel_kept ?t' => specialize (Hn1 t' ltac:(rewrite <-app_assoc; by apply prefix_app_r) Hk Ha) end.
           destruct Hn1 as [[H _]|(_ & H & _)]; unfold counted in H; lia. }
      change (prog_bind ?p ?f) with (p ≫= f). apply holds_bind'. eapply holds_mono; [apply chunk_loop_counts|].
      intros ended t2 H Hpre.
      assert (Hsize : ∀ t', t2 `prefix_of` t' → answered t' → size = List.length (file_statements import_target chunks)).
      { intros t' Hpre' Ha. unfold size, statements_in. by rewrite <-(Hfile t'); [|etrans; [exact Hpre|done]|]. }
      cbn [List.length Nat.add] in H. fold (file_statements import_target chunks) in H.
      destruct ended as [k' ex'|r]; cbn [holds chunks_post] in *.
      - assert (Htally : ∀ t', t2 `prefix_of` t' → cancel_kept t' → answered t' → tally (n + size) k' t2).
        { intros t' Hpre' Hk Ha. specialize (H (cancel_kept_prefix _ _ Hpre' Hk)). rewrite (Hsize t') by done.
          specialize (Hn1 t' ltac:(etrans; [exact Hpre|exact Hpre']) Hk Ha). unfold tally in *. destruct H as [H|(Hs & H)].
          - destruct Hn1 as [?|(Hs & ?)]; [left; lia|]. right. split; [|lia]. eapply cancel_seen_prefix; [etrans; [exact Ht1|exact Hpre]|exact Hs].
          - right. split; [done|]. destruct Hn1 as [?|(_ & ?)]; lia. }
        replace (n + (size + sum_list (statements_in <$> paths.*1))) with (n + size + sum_list (statements_in <$> paths.*1)) by lia.
        destruct several.
        + unfold file_boundary. prog_simpl. cbn [holds]. intros ms []. apply (IH _ _ _ _ (n + size)).
          intros Hk Ha. eapply tally_prefix; [|eapply Htally; [|exact Hk|exact Ha]]; rewrite <-app_assoc; by apply prefix_app_r.
        + prog_simpl. apply (IH _ _ _ _ (n + size)). intros Hk Ha. by eapply Htally.
      - intros Hk Ha. specialize (H Hk). specialize (Hn1 t2 Hpre Hk Ha).
        assert (counted k ≤ n) as Hle by (destruct Hn1 as [[? _]|(_ & ? & _)]; lia). rewrite (Hsize t2) by done.
        destruct r as [[]|error].
        + destruct H as (p & ? & ? & ? & ? & ? & ?). exists p. split; [done|]. split; [done|]. right. split_and!; try done. lia.
        + destruct H as (p & ? & ? & ? & ?). exists p. split_and!; try done. lia. }
    destruct several.
    + unfold file_boundary. prog_simpl. cbn [holds]. intros ms []. apply Hbody.
      intros Hk Ha. assert (Hpre : t `prefix_of` (t ++ [Ev Elapsed ms]) ++ [Ev (Emit {| progress_execution_id := execution_id request; progress_status := Running; progress_statement_index := statement_index k; progress_success_count := success_count k; progress_failure_count := failure_count k; progress_affected_rows := affected_rows k; elapsed_ms := ms; progress_summary := []; progress_error := None; file_index := Some index; file_name := Some name |}) ()]).
      { rewrite <-app_assoc. by apply prefix_app_r. }
      eapply tally_prefix; [exact Hpre|]. apply Hn; [by eapply cancel_kept_prefix|by eapply answered_prefix].
    + prog_simpl. by apply Hbody.
Qed.
End files.

(** C14: an import of files reports what it did. Whatever the databases, the clock
    and the user do: it ends with one event for the whole; when that event says
    Done, nothing was cancelled, and its successes and failures are all the
    statements of all files, each counted once, merged or not; when it says
    Cancelled, the import was cancelled, and no more is counted than there is;
    and an import that fails has reported its error last. *)
Theorem import_accounts_for_statements files import_target paths :
  holds (execute_sql_file_paths request paths)
    (λ r t, cancel_kept t → answered files import_target t →
            import_post (sum_list (statements_in files import_target <$> paths.*1)) r t) [].
Proof.
  unfold execute_sql_file_paths. destruct paths as [|path paths].
  { unfold sql_file_error_progress, sql_file_progress. prog_simpl. cbn [holds]. intros ms [] _ _. eexists.
    split; [apply (reported_last_app [] [_])|]. split_and!; done. }
  set (all := path :: paths). prog_simpl. cbn [holds]. intros target. change (prog_bind ?p ?f) with (p ≫= f). apply holds_bind'.
  eapply holds_mono; [apply holds_any|]. intros executor t _ Hpre.
  assert (Htarget : ∀ t', t `prefix_of` t' → answered files import_target t' → target = import_target).
  { intros t' Hpre' [_ Ha]. apply Ha. assert (Hall : [] ++ [Ev (ImportTarget (connection_id request)) target] `prefix_of` t') by (by etrans).
    destruct Hall as [l ->]. set_solver. }
  destruct executor as [ex|error].
  - eapply holds_mono; [apply holds_and; [apply (files_loop_counts files target _ _ _ _ _ _ 0); intros _ _; by left|apply holds_grows]|].
    intros r t' [H Hpre'] Hk Ha. rewrite <-(Htarget t') in * by done. by apply H.
  - unfold sql_file_execution_error_progress, sql_file_progress. prog_simpl. cbn [holds]. intros ms [] _ _. rewrite <-app_assoc. eexists.
    split; [apply (reported_last_app t [_])|]. split_and!; try done. unfold counted_by. simpl. lia.
Qed.
End counting.

(** ** A run *)

Lemma run_answers {A} (env : answers_of ImportE) (P : event ImportE → Prop) (p : import A) t :
  (∀ B (call : ImportE B) t, P (Ev call (env B call t))) → Forall P t → Forall P (run env p t).2.
Proof.
  intros Henv. revert t. induction p as [a|B call k IH]; intros t Ht; [done|]. apply IH. apply Forall_app. split; [done|]. by repeat constructor.
Qed.

(** Files that are there, a target, and a database that takes what [accepts]. *)
Definition demo_env (files : text → result (list text * option text) text) (target : option SqlFileImportTarget)
    (accepts : text → bool) : answers_of ImportE :=
  λ B call t,
    match call in ImportE B return B with
    | IsCancelled => false
    | ChildCancelled _ => false
    | Elapsed => N.of_nat (List.length t)
    | ImportTarget _ => target
    | ConnectionTimeouts _ => Some (10, 30)%N
    | OpenFile path => files path
    | GetOrCreatePool id _ => Ok id
    | ReconnectPool id _ => Ok id
    | LookupPool _ => Some (MysqlPool false)
    | Checkout _ _ _ => Ok 7
    | QueryOnConn _ sql _ _ _ => if accepts sql then Ok 1%Z else Err (c "Duplicate entry")
    | ExecuteSql _ _ sql _ => if accepts sql then Ok 1%Z else Err (c "Duplicate entry")
    | Emit _ => () | RemovePool _ => () | DropConn _ => () | Register _ => () | SpawnCancelTask _ => ()
    | AbortCancelTask _ => () | Unregister _ => () | SetPoolKey _ _ => () | TouchPool _ => () | BeginActivity _ => ()
    | EndActivity _ => () | RegisterInterrupt _ _ => ()
    end.

Lemma demo_env_answers files target accepts {A} (p : import A) request :
  let t := (run (demo_env files target accepts) p []).2 in ¬ cancel_seen t ∧ answered request files target t.
Proof.
  cbv zeta. set (t := (run _ p []).2).
  assert (Hc : Forall (λ e, cancel_flag e = false) t) by (apply run_answers; [by intros B []|constructor]).
  assert (Ha : Forall (λ e : event ImportE, match e with
    | @Ev _ B call b => (match call in ImportE B return B → Prop with
                         | OpenFile path => λ r, r = files path | ImportTarget _ => λ a, a = target | _ => λ _, True end) b end) t)
    by (apply run_answers; [by intros B []|constructor]).
  split; [intros Hin; by eapply Forall_forall in Hc; [|exact Hin]|]. split; [intros path r Hin|intros a Hin];
    by eapply Forall_forall in Ha; [|exact Hin].
Qed.

Definition demo_request (continue_on_error : bool) : SqlFileRequest :=
  {| execution_id := "e1"; connection_id := "c1"; database := []; continue_on_error := continue_on_error |}.
Definition demo_files (path : text) : result (list text * option text) text :=
  if text_eqb path (c "/a.sql") then Ok ([c "INSERT INTO t VALUES (1); INSERT IN"; c "TO t VALUES (2); INSERT INTO t VALUES (3);"], None)
  else Ok ([c "SELECT 1"], None).
Definition demo_paths : list FilePath := [(c "/a.sql", c "a.sql"); (c "/b.sql", c "b.sql")].
(** The second row is not accepted. *)
Definition demo_accepts (sql : text) : bool := negb (contains_t sql (c "(2)")).

Lemma import_accounts_for_statements_witness :
  let '(r, t) := run (demo_env demo_files (Some {| target_db_type := Mysql; target_profile := None |}) demo_accepts)
                   (@execute_sql_file_paths ascii_case {| tokenize _ _ := None |} digit_printer (demo_request true) demo_paths) [] in
  @import_post 4 r t.
Proof.
  set (target := Some {| target_db_type := Mysql; target_profile := None |}). set (env := demo_env demo_files target demo_accepts).
  set (p := @execute_sql_file_paths ascii_case {| tokenize _ _ := None |} digit_printer (demo_request true) demo_paths).
  pose proof (holds_run env p _ [] (@import_accounts_for_statements ascii_case {| tokenize _ _ := None |} digit_printer
                (demo_request true) demo_files target demo_paths)) as H.
  destruct (demo_env_answers demo_files target demo_accepts p (demo_request true)) as [Hc Ha]. fold env in Hc, Ha.
  destruct (run env p []) as [r t]. cbn [fst snd] in *. apply H; [|exact Ha].
  intros t1 t2 -> Hs. apply Hc. unfold cancel_seen in *. set_solver.
Defined.

(** The merged INSERT of the first file fails, and its rows are sent again one by
    one: three of the four statements succeed. *)
Example demo_import_counts :
  (λ e : event ImportE, match e with
     | @Ev _ B call _ => match call with
        | Emit p => if bool_decide (progress_status p = Done) then Some (progress_success_count p, progress_failure_count p, progress_affected_rows p) else None
        | _ => None end end) <$> last (run (demo_env demo_files (Some {| target_db_type := Mysql; target_profile := None |}) demo_accepts)
                   (@execute_sql_file_paths ascii_case {| tokenize _ _ := None |} digit_printer (demo_request true) demo_paths) []).2
  = Some (Some (3, 1, 3%Z)).
Proof. vm_compute. reflexivity. Qed.

(** ** How often a statement is sent *)

(** The statements a call sends over the pinned connection, with the answers. *)
Definition query_of (e : event ImportE) : list (text * result Z text) :=
  match e with
  | @Ev _ B call b =>
      (match call in ImportE B return B → list (text * result Z text) with
       | QueryOnConn _ sql _ _ _ => λ r, [(sql, r)] | _ => λ _, [] end) b
  end.
Definition sends (t : list (event ImportE)) : list (text * result Z text) := t ≫= query_of.
(** The databases pools are asked for. *)
Definition pool_database (e : event ImportE) : list (option text) :=
  match e with
  | @Ev _ B call _ => match call with GetOrCreatePool _ d | ReconnectPool _ d => [d] | _ => [] end
  end.

Section sending.
Context `{HU : UnicodeCase} `{HT : SqlTokenizer} `{HJ : JsonPrinter}.

Lemma sends_snoc t e : sends (t ++ [e]) = sends t ++ query_of e.
Proof. unfold sends. rewrite bind_app. simpl. by rewrite app_nil_r. Qed.

Definition lost (ex : MySqlSqlFileExecutor) (a : result Z text) : Prop :=
  ∃ e, a = Err e ∧ pool_error_action (ex_db_type ex) e = ReconnectAndRetry.
Definition same_connection (ex ex' : MySqlSqlFileExecutor) : Prop :=
  ex_db_type ex' = ex_db_type ex ∧ ex_connection_id ex' = ex_connection_id ex ∧ ex_database ex' = ex_database ex.
Definition pools_for (database : text) (t : list (event ImportE)) : Prop :=
  Forall (λ d, d = non_empty_database database) (t ≫= pool_database).

Lemma pools_for_snoc database t e :
  pools_for database t → Forall (λ d, d = non_empty_database database) (pool_database e) → pools_for database (t ++ [e]).
Proof. intros Ht He. unfold pools_for. rewrite bind_app, Forall_app. simpl. by rewrite app_nil_r. Qed.

(** Exposes the next call, and closes what is asked of pools. *)
Ltac next_call := prog_simpl; cbn [holds]; let b := fresh "b" in intros b.
Ltac pools := repeat (apply pools_for_snoc; [|first [by repeat constructor | constructor; [cbn; congruence|constructor]]]); done.

Lemma ensure_post ex t :
  pools_for (ex_database ex) t →
  holds (ensure_conn ex)
    (λ '(r, ex') t', sends t' = sends t ∧ pools_for (ex_database ex) t' ∧ same_connection ex ex' ∧ (is_ok r = true → is_Some (ex_conn ex'))) t.
Proof.
  intros Hp. unfold ensure_conn. destruct (ex_conn ex) as [conn|] eqn:Hconn; [by split_and!|].
  next_call. destruct b as [key|error]; [|split_and!; [by rewrite sends_snoc, app_nil_r|pools|done|done]].
  next_call. destruct b as [[bare| ]|]; [|split_and!; [by rewrite !sends_snoc, !app_nil_r|pools|done|done]..].
  next_call. destruct b as [conn|error]; split_and!; try done; try (by rewrite !sends_snoc, !app_nil_r); pools.
Qed.

(** What is sent in up to [n + 1] turns: each but the last was lost. *)
Fixpoint sent_in (n : nat) (ex : MySqlSqlFileExecutor) (sql : text) (l : list (text * result Z text)) (r : result Z text) : Prop :=
  match l with
  | [] => is_ok r = false
  | (q, a) :: l' =>
      q = sql ∧ (l' = [] ∧ r = a
                 ∨ lost ex a ∧ match n with 0 => False | S n' => sent_in n' ex sql l' r end
                 ∨ l' = [] ∧ is_ok r = false ∧ lost ex a)
  end.

Lemma sent_in_same n ex ex' sql l r : ex_db_type ex' = ex_db_type ex → sent_in n ex' sql l r → sent_in n ex sql l r.
Proof.
  intros Ht. assert (Hlost : ∀ a, lost ex' a → lost ex a) by (intros a (e & ? & ?); exists e; by rewrite <-Ht).
  revert l. induction n as [|n IH]; intros [|[q a] l]; cbn [sent_in]; naive_solver.
Qed.

(** The database a statement leaves selected. *)
Definition database_after (database sql : text) (r : result Z text) : text :=
  match r, mysql_use_database_target sql with Ok _, Some used => used | _, _ => database end.

(** What a statement has left behind that was sent in up to [n + 1] turns. *)
Definition sent_post (n : nat) (ex : MySqlSqlFileExecutor) (sql : text) (execution_id : string) (before : list (text * result Z text))
    (r : result Z text) (ex' : MySqlSqlFileExecutor) (t' : list (event ImportE)) : Prop :=
  (∃ l, sends t' = before ++ l ∧ sent_in n ex sql l r ∧ (1 < List.length l → Ev (ChildCancelled execution_id) false ∈ t'))
  ∧ ex_database ex' = database_after (ex_database ex) sql r ∧ pools_for (ex_database ex) t'.

(** The statement was sent in this turn, and the turn returns. *)
Lemma sent_once n ex sql execution_id before r a ex' t' :
  sends t' = before ++ [(sql, a)] → r = a ∨ is_ok r = false ∧ lost ex a →
  ex_database ex' = database_after (ex_database ex) sql r → pools_for (ex_database ex) t' →
  sent_post n ex sql execution_id before r ex' t'.
Proof.
  intros Hs Hr Hd Hp. split_and!; [|done|done]. exists [(sql, a)]. split_and!; [done| |simpl; lia].
  destruct n; cbn [sent_in]; (split; [done|]); destruct Hr as [->|[? ?]]; auto.
Qed.

Ltac sent_now Hsends :=
  eapply sent_once; [rewrite !sends_snoc; cbn [query_of]; rewrite ?app_nil_r; exact Hsends| |try done|pools].

Lemma attempts_post sql execution_id n : ∀ ex t,
  pools_for (ex_database ex) t →
  holds (attempts n ex sql execution_id) (λ '(r, ex') t', sent_post n ex sql execution_id (sends t) r ex' t') t.
Proof.
  induction n as [|n IH]; intros ex t Hp; cbn [attempts]; apply holds_bind'; (eapply holds_mono; [by apply ensure_post|]);
    intros [connected ex1] t1 (Hs1 & Hp1 & (Hty & Hid & Hd1) & Hconn) _; clear Hp;
    (destruct connected as [[]|error]; [destruct (Hconn eq_refl) as [conn Hc]; clear Hconn|
      cbn [holds]; split_and!; [exists []; split_and!; [by rewrite app_nil_r|done|simpl; lia]|done|done]]);
    next_call; next_call; next_call; rewrite Hc; next_call; next_call;
    match goal with |- holds _ _ ?t' => set (t2 := t') end;
    assert (Hsends : sends t2 = sends t ++ [(sql, b3)]) by (unfold t2; rewrite !sends_snoc, Hs1, ?app_nil_r; done);
    assert (Hpools : pools_for (ex_database ex) t2) by (unfold t2; pools); clearbody t2; clear Hs1 Hp1 t1;
    (destruct b3 as [rows|error];
     [next_call; sent_now Hsends; [by left|unfold database_after; by destruct (mysql_use_database_target sql)]|]);
    destruct (pool_error_action (ex_db_type ex1) error) eqn:Haction;
    [next_call; sent_now Hsends; by left
    |unfold drop_conn; rewrite Hc; do 3 next_call; sent_now Hsends; by left| idtac
    |next_call; sent_now Hsends; by left
    |unfold drop_conn; rewrite Hc; do 3 next_call; sent_now Hsends; by left| idtac].
  - unfold drop_conn. rewrite Hc. do 2 next_call. destruct b4; repeat next_call; (sent_now Hsends; by left).
  - unfold drop_conn. rewrite Hc. do 2 next_call. destruct b4.
    { next_call. destruct b4; repeat next_call; (sent_now Hsends; by left). }
    assert (Hlost : lost ex (Err error)) by (exists error; by rewrite <-Hty).
    next_call. destruct b4 as [key|error2]; [|next_call; sent_now Hsends; by right].
    next_call. set (ex2 := with_pool_key key (set_conn None ex1)). assert (Hd2 : ex_database ex2 = ex_database ex) by done.
    eapply holds_mono; [apply holds_and; [apply IH; rewrite Hd2; pools|apply holds_grows]|].
    intros [r ex'] t' [((l & Hl & Hsent & _) & Hdb & Hpo) [l0 Hgrow]]. rewrite Hd2 in *. split_and!; [|done|done].
    exists ((sql, Err error) :: l). split_and!.
    + rewrite Hl, !sends_snoc, Hsends. cbn [query_of]. by rewrite !app_nil_r, <-app_assoc.
    + cbn [sent_in]. split; [done|]. right. left. split; [done|]. eapply sent_in_same; [|exact Hsent]. exact Hty.
    + intros _. rewrite Hgrow. set_solver.
Qed.

(** C27: over the pinned connection a statement is sent once, or twice: the second
    time only when the first answer reads as a lost connection and nobody has
    cancelled, and then the second answer counts; no result is made up; the
    database that is tracked is the one the last USE that succeeded named; and
    pools are only asked for the database that was tracked. *)
Theorem statement_sent_at_most_twice ex sql execution_id :
  holds (execute_statement_inner ex sql execution_id)
    (λ '(r, ex') t,
       match sends t with
       | [] => is_ok r = false
       | [(q, answer)] => q = sql ∧ (r = answer ∨ is_ok r = false ∧ lost ex answer)
       | [(q1, first); (q2, second)] =>
           q1 = sql ∧ q2 = sql ∧ lost ex first ∧ Ev (ChildCancelled execution_id) false ∈ t
           ∧ (r = second ∨ is_ok r = false ∧ lost ex second)
       | _ => False
       end
       ∧ ex_database ex' = database_after (ex_database ex) sql r ∧ pools_for (ex_database ex) t) [].
Proof.
  unfold execute_statement_inner. eapply holds_mono; [apply attempts_post; constructor|].
  intros [r ex'] t ((l & Hl & Hsent & Hcancel) & Hdb & Hp). cbn in Hl. rewrite Hl. split; [|done].
  destruct l as [|[q1 a1] [|[q2 a2] [|? l]]]; cbn [sent_in List.length] in *; [done| | |].
  - destruct Hsent as [-> [[_ ->]|[[Hlost Hok]|(_ & ? & ?)]]]; auto.
  - destruct Hsent as [-> [[? _]|[[Hlost [-> H2]]|(? & _)]]]; [done| |done]. split_and!; try done; [apply Hcancel; lia|].
    destruct H2 as [[_ ->]|[[_ []]|(_ & ? & ?)]]; auto.
  - destruct Hsent as [-> [[? _]|[[Hlost [-> H2]]|(? & _)]]]; [done| |done]. destruct H2 as [[? _]|[[_ []]|(? & _)]]; done.
Qed.
End sending.

(** ** Writes that are sent twice *)

(** The first answer is lost, with the statement perhaps executed. *)
Definition losing_env : answers_of ImportE :=
  λ B call t,
    match call in ImportE B return B with
    | QueryOnConn _ _ _ _ _ => match sends t with [] => Err (c "Lost connection to MySQL server during query") | _ => Ok 1%Z end
    | IsCancelled => false
    | ChildCancelled _ => false
    | Elapsed => 0%N
    | ImportTarget _ => None
    | ConnectionTimeouts _ => None
    | OpenFile _ => Ok ([], None)
    | GetOrCreatePool id _ => Ok id
    | ReconnectPool id _ => Ok id
    | LookupPool _ => Some (MysqlPool false)
    | Checkout _ _ _ => Ok 7
    | ExecuteSql _ _ _ _ => Ok 0%Z
    | Emit _ => () | RemovePool _ => () | DropConn _ => () | Register _ => () | SpawnCancelTask _ => ()
    | AbortCancelTask _ => () | Unregister _ => () | SetPoolKey _ _ => () | TouchPool _ => () | BeginActivity _ => ()
    | EndActivity _ => () | RegisterInterrupt _ _ => ()
    end.
Definition demo_executor : MySqlSqlFileExecutor :=
  mk_executor "c1" [] "c1" (Some Mysql) false (Mysql, None) (from_config 10 30) None.

(** An INSERT of an import is sent again when the connection is lost; a query
    that is a write is not. *)
Lemma import_replays_writes :
  let sql := c "INSERT INTO t VALUES (1)" in
  let err := c "Lost connection to MySQL server during query" in
  let '(r, t) := run losing_env (@execute_statement_inner ascii_case digit_printer demo_executor sql "e1") [] in
  r.1 = Ok 1%Z ∧ sends t = [(sql, Err err); (sql, Ok 1%Z)]
  ∧ @query_pool_error_action digit_printer ascii_case {| tokenize _ _ := None |} (Some Mysql) sql err = Discard.
Proof. vm_compute. by split_and!. Qed.
