(* ===== verification/SqlImportRefines.v ===== *)
(** * An import against a database (refinement)

    The import of SqlFileImport run on an environment: merging INSERTs, and
    sending them one by one when the merged one fails, leaves the database, the
    counts and the result that sending every statement alone leaves. The database
    is a parameter; what is asked of it are the laws [InsertLaws]. *)
From S2P Require Import Prelude RustStr Json SqlText SqlSplit SqlGuard AgentContext SqlImport PoolErrors Prog SqlFileImport.

(** ** Databases *)

(** How a database executes a statement: the affected rows, or an error. *)
Class Database (DB : Type) : Type := { exec : text → DB → result Z text * DB }.

(** What a plain INSERT does depends on its normalised prefix and its tuples; it
    is one step: it fails without an effect; and inserting some tuples and then
    others is inserting all of them. *)
Class InsertLaws (DB : Type) `{!Database DB} (options : SqlDialectProfile) : Type := {
  insert_rows : text → list text → DB → result Z text * DB;
  exec_insert sql insert ts db :
    parse_mergeable_insert sql options = Some insert → plain_insert insert ts →
    exec (ins_sql insert) db = insert_rows (ins_prefix_key insert) ts db;
  insert_fails key ts db e db' : insert_rows key ts db = (Err e, db') → db' = db;
  insert_app key ts ts' db n db1 :
    insert_rows key ts db = (Ok n, db1) →
    match insert_rows key ts' db1 with
    | (Ok m, db2) => insert_rows key (ts ++ ts') db = (Ok (n + m)%Z, db2)
    | (Err _, _) => ∃ e, (insert_rows key (ts ++ ts') db).1 = Err e
    end;
  insert_app_fails key ts ts' db e : (insert_rows key ts db).1 = Err e → ∃ e', (insert_rows key (ts ++ ts') db).1 = Err e'
}.

(** The reference: every statement alone, in order; [None] is skipped. The
    counts are successes, failures and affected rows. *)
Abbreviation counts := (nat * nat * Z)%type (only parsing).
Definition one_success (n : Z) (k : counts) : counts := let '(s, f, r) := k in (s + 1, f, u64_add r n).
Definition one_failure (k : counts) : counts := let '(s, f, r) := k in (s, f + 1, r).
Definition one_skipped (k : counts) : counts := let '(s, f, r) := k in (s + 1, f, r).

Fixpoint one_by_one {DB} `{!Database DB} (continue_on_error : bool) (statements : list (option text)) (k : counts) (db : DB)
    : result unit text * counts * DB :=
  match statements with
  | [] => (Ok (), k, db)
  | None :: statements' => one_by_one continue_on_error statements' (one_skipped k) db
  | Some sql :: statements' =>
      match exec sql db with
      | (Ok n, db) => one_by_one continue_on_error statements' (one_success n k) db
      | (Err e, db) =>
          if continue_on_error then one_by_one continue_on_error statements' (one_failure k) db else (Err e, one_failure k, db)
      end
  end.

Section reference.
Context {DB : Type} `{!Database DB}.

Lemma one_by_one_app b l l' k db :
  one_by_one b (l ++ l') k db
  = match one_by_one b l k db with (Ok _, k, db) => one_by_one b l' k db | (Err e, k, db) => (Err e, k, db) end.
Proof.
  revert k db. induction l as [|[sql|] l IH]; intros k db; [done| |apply IH]. cbn [app one_by_one].
  destruct (exec sql db) as [[n|e] db']; [apply IH|]. destruct b; [apply IH|done].
Qed.

Context {options : SqlDialectProfile} `{!InsertLaws DB options}.

Definition parsed_insert (insert : MergeableInsert) : Prop := ∃ sql, parse_mergeable_insert sql options = Some insert.

Definition many_success (m : nat) (n : Z) (k : counts) : counts := let '(s, f, r) := k in (s + m, f, u64_add r n).

Lemma one_then_many m n1 n2 k : many_success m n2 (one_success n1 k) = many_success (S m) (n1 + n2) k.
Proof.
  destruct k as [[s f] r]. unfold many_success, one_success, u64_add. f_equal; [f_equal; lia|].
  rewrite Zplus_mod_idemp_l. f_equal. lia.
Qed.

(** When the tuples of all are accepted at once, so is each INSERT alone. *)
Lemma inserts_succeed b key inserts : ∀ insert ts tss k db n db',
  Forall2 plain_insert (insert :: inserts) (ts :: tss) → Forall parsed_insert (insert :: inserts) →
  Forall (λ i, ins_prefix_key i = key) (insert :: inserts) →
  insert_rows key (ts ++ List.concat tss) db = (Ok n, db') →
  one_by_one b (Some <$> (ins_sql <$> (insert :: inserts))) k db = (Ok (), many_success (S (List.length inserts)) n k, db').
Proof.
  induction inserts as [|second inserts IH]; intros insert ts tss k db n db' Hplain Hparsed Hkey Hrun;
    apply Forall2_cons in Hplain as [Hi Hplain]; apply Forall_cons in Hparsed as [[sql Hsql] Hparsed]; apply Forall_cons in Hkey as [Hk Hkey];
    pose proof (exec_insert _ _ _ db Hsql Hi) as He; rewrite Hk in He.
  - apply Forall2_nil_inv_l in Hplain as ->. cbn [List.concat] in Hrun. rewrite app_nil_r in Hrun. cbn [fmap list_fmap one_by_one].
    rewrite He, Hrun. destruct k as [[s f] r]. done.
  - destruct tss as [|ts' tss]; [by inversion Hplain|]. rewrite fmap_cons, fmap_cons. cbn [one_by_one]. rewrite He.
    destruct (insert_rows key ts db) as [[n1|e1] db1] eqn:E1.
    + pose proof (insert_app key ts (List.concat (ts' :: tss)) db n1 db1 E1) as Happ.
      destruct (insert_rows key (List.concat (ts' :: tss)) db1) as [[n2|e2] db2] eqn:E2.
      * rewrite Hrun in Happ. injection Happ as -> ->. rewrite (IH second ts' tss _ db1 n2 db2) by done. by rewrite one_then_many.
      * destruct Happ as [e He']. by rewrite Hrun in He'.
    + destruct (insert_app_fails key ts (List.concat (ts' :: tss)) db e1) as [e He']; [by rewrite E1|]. by rewrite Hrun in He'.
Qed.

(** What a merged INSERT does. *)
Lemma exec_merged first others ts tss db :
  plain_insert first ts → Forall2 plain_insert others tss → parsed_insert first →
  exec (merged_sql (ins_prefix first) (ins_values first :: (ins_values <$> others))) db
  = insert_rows (ins_prefix_key first) (ts ++ List.concat tss) db.
Proof.
  intros Hf Ho [sql Hsql]. destruct (merged_read options first others ts tss Hf Ho) as [Hp Ht]. cbv zeta in Hp, Ht.
  pose proof (exec_insert _ _ (ts ++ List.concat tss) db Hp) as He. cbn [ins_sql ins_prefix_key] in He. rewrite He.
  - f_equal. unfold parse_mergeable_insert in Hsql. destruct (negb _); [done|].
    destruct (find_top_level_values_keyword _) as [[before after]|]; [|done]. cbn [mbind option_bind] in Hsql.
    destruct (parse_insert_values_tail _); [|done]. by injection Hsql as <-.
  - destruct Hf as [Hpre Hd Hts _]. split; cbn [ins_prefix ins_values ins_sql]; [done| |done|].
    2: { assert (Hvs : Forall2 (λ v ts, values_tuples v = Some ts ∧ dollar_free v) (ins_values <$> others) tss).
         { apply Forall2_fmap_l. eapply Forall2_impl; [exact Ho|]. by intros ? ? []. }
         destruct (joined_framed _ _ _ _ Hts Hvs) as [_ Hlast]. unfold merged_sql. change (c "," ++ [10%N]) with list_separator.
         by rewrite !last_app, Hlast. }
    assert (Hds : Forall dollar_free (ins_values first :: (ins_values <$> others))).
    { constructor; [done|]. apply Forall_fmap. clear -Ho. induction Ho as [|i ts0 rest tss [] _ IH]; constructor; done. }
    clear -Hds. induction Hds as [|v vs Hv Hvs IH]; [by apply not_elem_of_nil|]. destruct vs as [|w vs]; [done|].
    change (join_t list_separator (v :: w :: vs)) with (v ++ list_separator ++ join_t list_separator (w :: vs)).
    unfold dollar_free in *. rewrite !elem_of_app. intros [?|[Hs|?]]; [done| |done]. revert Hs. apply (bool_decide_unpack _). vm_compute. exact I.
Qed.
End reference.

(** ** The import on an environment *)

Section on_environment.
Context `{HU : UnicodeCase} `{HT : SqlTokenizer} `{HJ : JsonPrinter}.
Context (request : SqlFileRequest).
Context {DB S : Type} `{!Database DB} (dbs : S → DB) (reports : S → list SqlFileProgress) (h : ∀ B, ImportE B → S → B * S).

(** The environment executes statements on the database, whose errors do not
    read as lost connections, and nothing else it does changes the database; a
    connection is there when it is needed; nobody cancels. *)
Class Serves (db_type : option DatabaseType) : Prop := {
  serves_cancelled s : (h _ IsCancelled s).1 = false;
  serves_sql cid d sql id s : (h _ (ExecuteSql cid d sql id) s).1 = (exec sql (dbs s)).1
                              ∧ dbs (h _ (ExecuteSql cid d sql id) s).2 = (exec sql (dbs s)).2;
  serves_query conn sql bare timeout dialect s :
    (h _ (QueryOnConn conn sql bare timeout dialect) s).1 = (exec sql (dbs s)).1
    ∧ dbs (h _ (QueryOnConn conn sql bare timeout dialect) s).2 = (exec sql (dbs s)).2;
  serves_pool cid d s : is_ok (h _ (GetOrCreatePool cid d) s).1 = true;
  serves_lookup key s : ∃ bare, (h _ (LookupPool key) s).1 = Some (MysqlPool bare);
  serves_checkout key t1 t2 s : is_ok (h _ (Checkout key t1 t2) s).1 = true;
  serves_timeouts cid s : is_Some (h _ (ConnectionTimeouts cid) s).1;
  serves_reports p s : reports (h _ (Emit p) s).2 = reports s ++ [p];
  serves_errors sql db e : (exec sql db).1 = Err e → pool_error_action db_type e = Keep;
  serves_quiet B (call : ImportE B) s :
    match call with ExecuteSql _ _ _ _ | QueryOnConn _ _ _ _ _ => True | _ => dbs (h _ call s).2 = dbs s end
}.

Context (db_type : option DatabaseType) `{HS : !Serves db_type}.

(** No pinned connection, or one for this type. *)
Definition ready (ex : option MySqlSqlFileExecutor) : Prop :=
  match ex with None => True | Some ex => ex_db_type ex = db_type end.

Definition quiet_call {B} (call : ImportE B) : bool :=
  match call with ExecuteSql _ _ _ _ | QueryOnConn _ _ _ _ _ => false | _ => true end.

(** A call that leaves the database alone. *)
Lemma quiet_do {B A} (call : ImportE B) (k : B → import A) s (Q : A * S → Prop) :
  quiet_call call = true → (∀ b s', h _ call s = (b, s') → dbs s' = dbs s → Q (interp h (k b) s')) →
  Q (interp h (Do call k) s).
Proof.
  intros Hq H. cbn [interp]. pose proof (serves_quiet (Serves := HS) B call s) as Hd. destruct (h B call s) as [b s'] eqn:E.
  apply H; [done|]. by destruct call.
Qed.

Lemma interp_do {B A} (call : ImportE B) (k : B → import A) s : interp h (Do call k) s = let '(b, s') := h _ call s in interp h (k b) s'.
Proof. done. Qed.

(** Skips the next call, which is quiet: its answer, and the state behind it. *)
Tactic Notation "skip_call" simple_intropattern(b) ident(s') ident(H) :=
  prog_simpl; apply quiet_do; [done|]; intros b s' _ H.

Lemma report_step status index k summary error {A} (f : unit → import A) s (Q : A * S → Prop) :
  (∀ s', dbs s' = dbs s → Q (interp h (f tt) s')) → Q (interp h (report request status index k summary error ≫= f) s).
Proof.
  intros H. unfold report, sql_file_progress. skip_call ms s1 H1. skip_call [] s2 H2. apply H. congruence.
Qed.

(** The pinned connection is there, or is taken from the pool. *)
Lemma ensure_step ex {A} (f : result unit text * MySqlSqlFileExecutor → import A) s (Q : A * S → Prop) :
  (∀ conn key s', dbs s' = dbs s →
     let ex := set_conn (Some conn) (with_pool_key key ex) in Q (interp h (f (Ok (), ex)) s')) →
  Q (interp h (prog_bind (ensure_conn ex) f) s).
Proof.
  intros H. unfold ensure_conn. destruct (ex_conn ex) as [conn|] eqn:Hconn.
  { specialize (H conn (ex_pool_key ex) s eq_refl). destruct ex. cbn in Hconn. subst. exact H. }
  prog_simpl. apply quiet_do; [done|]. intros pool s1 E1 H1. pose proof (serves_pool (Serves := HS) (ex_connection_id ex) (non_empty_database (ex_database ex)) s) as Hp.
  rewrite E1 in Hp. destruct pool as [key|]; [|done]. prog_simpl. apply quiet_do; [done|]. intros kind s2 E2 H2.
  destruct (serves_lookup (Serves := HS) key s1) as [bare Hl]. rewrite E2 in Hl. cbn in Hl. subst kind. prog_simpl. apply quiet_do; [done|].
  intros conn s3 E3 H3. pose proof (serves_checkout (Serves := HS) key (checkout_timeout (ex_budget (with_pool_key key ex))) (cleanup_timeout (ex_budget (with_pool_key key ex))) s2) as Hc.
  rewrite E3 in Hc. destruct conn as [conn|]; [|done]. apply (H conn key s3). congruence.
Qed.

(** A statement that is sent reaches the database once. *)
Lemma execute_step sql index ex s :
  ready ex →
  ∃ ex' s', interp h (execute_sql_file_statement_with_executor request sql index ex) s = ((exec sql (dbs s)).1, ex', s')
            ∧ ready ex' ∧ dbs s' = (exec sql (dbs s)).2.
Proof.
  intros Hready. set (P := λ r : result Z text * option MySqlSqlFileExecutor * S,
           ∃ ex' s', r = ((exec sql (dbs s)).1, ex', s') ∧ ready ex' ∧ dbs s' = (exec sql (dbs s)).2).
  change (P (interp h (execute_sql_file_statement_with_executor request sql index ex) s)).
  unfold execute_sql_file_statement_with_executor. destruct ex as [ex|].
  - assert (Htype : ex_db_type ex = db_type) by exact Hready. unfold execute_statement, while_registered.
    skip_call [] s1 H1. skip_call [] s2 H2. unfold execute_statement_inner. cbn [attempts].
    unfold mbind, prog_mbind. rewrite !interp_assoc. apply ensure_step. intros conn key s0 H0. set (ex1 := set_conn (Some conn) (with_pool_key key ex)).
    skip_call [] s3 H3. skip_call [] s4 H4. skip_call [] s5 H5. change (ex_conn ex1) with (Some conn). cbv iota. skip_call [] s6 H6.
    assert (Hdb : dbs s6 = dbs s) by congruence. prog_simpl. rewrite interp_do.
    match goal with |- context [h _ (QueryOnConn ?a ?b ?c ?d ?e) s6] =>
      pose proof (serves_query (Serves := HS) a b c d e s6) as [Hr Hs]; destruct (h _ (QueryOnConn a b c d e) s6) as [r s7] end.
    cbn [fst snd] in Hr, Hs. rewrite Hdb in Hr, Hs. destruct r as [rows|error].
    + skip_call [] s8 H8. skip_call [] s9 H9. skip_call [] s10 H10. cbn [interp prog_bind]. eexists _, _. rewrite Hr. split; [done|]. split.
      * by destruct (mysql_use_database_target sql).
      * congruence.
    + change (ex_db_type ex1) with (ex_db_type ex). rewrite Htype, (serves_errors (Serves := HS) sql (dbs s) error) by done.
      skip_call [] s8 H8. skip_call [] s9 H9. skip_call [] s10 H10. cbn [interp prog_bind]. eexists _, _. rewrite Hr. split; [done|]. split.
      * done.
      * congruence.
  - unfold execute_sql_file_statement, while_registered. skip_call [] s1 H1. skip_call [] s2 H2. prog_simpl. rewrite interp_do.
    match goal with |- context [h _ (ExecuteSql ?a ?b ?c ?d) s2] =>
      pose proof (serves_sql (Serves := HS) a b c d s2) as [Hr Hs]; destruct (h _ (ExecuteSql a b c d) s2) as [r s3] end.
    cbn [fst snd] in Hr, Hs. skip_call [] s8 H8. skip_call [] s9 H9. cbn [interp prog_bind]. eexists _, _.
    assert (dbs s2 = dbs s) as Hdb by congruence. rewrite Hr, Hdb. split; [done|]. split; [done|]. congruence.
Qed.

Lemma cancelled_step {A} (f : bool → import A) s (Q : A * S → Prop) :
  (∀ s', dbs s' = dbs s → Q (interp h (f false) s')) → Q (interp h (perform IsCancelled ≫= f) s).
Proof.
  intros H. prog_simpl. apply quiet_do; [done|]. intros b s' E Hd. pose proof (serves_cancelled (Serves := HS) s) as Hc.
  rewrite E in Hc. cbn in Hc. subst b. by apply H.
Qed.

Lemma decision_step index k summary error {A} (f : StatementErrorDecision → import A) s (Q : A * S → Prop) :
  (∀ d s', dbs s' = dbs s → decision_counts d = count_failure k →
           decision_result d = (if continue_on_error request then Ok false else Err error) → Q (interp h (f d) s')) →
  Q (interp h (decision ← statement_error_decision request index k summary error; _ ← emit_all (decision_progress decision); f decision) s).
Proof.
  intros H. unfold statement_error_decision, sql_file_progress. change (mbind ?g (mbind ?f' ?p)) with (p ≫= λ b, f' b ≫= g).
  apply cancelled_step. intros s1 H1. destruct (continue_on_error request).
  - skip_call ms s2 H2. cbn [emit_all decision_progress]. skip_call [] s3 H3. apply H; [congruence|done..].
  - skip_call ms s2 H2. skip_call ms' s3 H3. cbn [emit_all decision_progress]. skip_call [] s4 H4. skip_call [] s5 H5.
    apply H; [congruence|done..].
Qed.

Lemma executing_step sql index ex {A} (f : result Z text * option MySqlSqlFileExecutor → import A) s (Q : A * S → Prop) :
  ready ex →
  (∀ ex' s', ready ex' → dbs s' = (exec sql (dbs s)).2 → Q (interp h (f ((exec sql (dbs s)).1, ex')) s')) →
  Q (interp h (execute_sql_file_statement_with_executor request sql index ex ≫= f) s).
Proof.
  intros Hr H. rewrite interp_bind. destruct (execute_step sql index ex s Hr) as (ex' & s' & -> & Hr' & Hd). by apply H.
Qed.

Definition counts_of (k : SqlFileExecutionProgress) : nat * nat * Z := (success_count k, failure_count k, affected_rows k).

(** A step has done what [outcome] says. *)
Definition stepped_as (outcome : result unit text * (nat * nat * Z) * DB)
    (r : result bool text * SqlFileExecutionProgress * option MySqlSqlFileExecutor * S) : Prop :=
  let '(stop, k', ex', s') := r in
  ready ex' ∧ stop = match outcome.1.1 with Ok _ => Ok false | Err e => Err e end ∧ counts_of k' = outcome.1.2 ∧ dbs s' = outcome.2.

Lemma fallback_same sources : ∀ index k ex s, ready ex →
  stepped_as (one_by_one (continue_on_error request) (Some <$> sources) (counts_of k) (dbs s))
    (interp h (fallback_loop request index sources k ex) s).
Proof.
  induction sources as [|sql sources IH]; intros index k ex s Hr; cbn [fallback_loop]; [by split_and!|].
  apply cancelled_step. intros s1 H1. apply report_step. intros s2 H2. apply executing_step; [done|]. intros ex' s3 Hr' H3.
  assert (Hdb : dbs s2 = dbs s) by congruence. rewrite Hdb in *. rewrite fmap_cons. cbn [one_by_one].
  destruct (exec sql (dbs s)) as [[rows|error] db]; cbn [fst snd] in *.
  - apply report_step. intros s4 H4. specialize (IH (Datatypes.S index) (count_success 1 rows k) ex' s4 Hr').
    rewrite H4, H3 in IH. exact IH.
  - apply decision_step. intros d s4 H4 Hk Hd. rewrite Hd. destruct (continue_on_error request).
    + specialize (IH (Datatypes.S index) (decision_counts d) ex' s4 Hr'). rewrite Hk, H4, H3 in IH. rewrite Hk. exact IH.
    + rewrite Hk. split_and!; [done|done|done|]. simpl. congruence.
Qed.

(** An entry that is sent as it is, or skipped. *)
Lemma alone_same index entry k ex s :
  ready ex → source_statement_count entry = 1 →
  stepped_as (one_by_one (continue_on_error request) [if bool_decide (plan_kind entry = Skip) then None else Some (plan_sql entry)]
                (counts_of k) (dbs s))
    (interp h (execute_statement_with_progress request index entry k ex) s).
Proof.
  intros Hr Hn. unfold execute_statement_with_progress. apply cancelled_step. intros s1 H1. case_bool_decide.
  { apply report_step. intros s2 H2. apply report_step. intros s3 H3. rewrite Hn. split_and!; [done|done|done|]. simpl. congruence. }
  apply report_step. intros s2 H2. apply executing_step; [done|]. intros ex' s3 Hr' H3.
  assert (Hdb : dbs s2 = dbs s) by congruence. rewrite Hdb in *. cbn [one_by_one].
  destruct (exec (plan_sql entry) (dbs s)) as [[rows|error] db]; cbn [fst snd] in *.
  - apply report_step. intros s4 H4. rewrite Hn. split_and!; [done|done|done|]. simpl. congruence.
  - rewrite Hn, interp_bind. change (1 <? 1) with false. cbn [interp andb]. apply decision_step. intros d s4 H4 Hk Hd. cbn [interp]. rewrite Hd, Hk.
    destruct (continue_on_error request); split_and!; try done; simpl; congruence.
Qed.

Context (driver_profile : option string) `{HL : !InsertLaws DB (import_options db_type)}.

(** INSERTs that are merged. *)
Lemma merged_same index first others ts tss k ex s :
  ready ex → plain_insert first ts → Forall2 plain_insert others tss →
  Forall (parsed_insert (options := import_options db_type)) (first :: others) →
  Forall (λ insert, ins_prefix_key insert = ins_prefix_key first) others →
  stepped_as (one_by_one (continue_on_error request) (Some <$> source_sqls (insert_entry first others)) (counts_of k) (dbs s))
    (interp h (execute_statement_with_progress request index (insert_entry first others) k ex) s).
Proof.
  intros Hr Hf Ho Hp Hk. destruct others as [|second others]; [by apply (alone_same index (insert_entry first []))|].
  set (b := continue_on_error request). set (sources := source_sqls (insert_entry first (second :: others))).
  set (sql := plan_sql (insert_entry first (second :: others))).
  assert (Hexec : exec sql (dbs s) = insert_rows (ins_prefix_key first) (ts ++ List.concat tss) (dbs s)).
  { apply Forall_cons in Hp as [Hp1 _]. by apply exec_merged. }
  unfold execute_statement_with_progress. apply cancelled_step. intros s1 H1. cbn [plan_kind insert_entry].
  rewrite bool_decide_false by done. apply report_step. intros s2 H2. apply executing_step; [done|]. intros ex' s3 Hr' H3.
  assert (Hdb : dbs s2 = dbs s) by congruence. fold (insert_entry first (second :: others)) in H3. change (plan_sql _) with sql in H3 |- *. rewrite Hdb in *.
  destruct (exec sql (dbs s)) as [[rows|error] db] eqn:E; cbn [fst snd] in *.
  - apply report_step. intros s4 H4.
    pose proof (inserts_succeed b (ins_prefix_key first) (second :: others) first ts tss (counts_of k) (dbs s) rows db) as Hall.
    rewrite fmap_cons in Hall. change (ins_sql first :: _) with sources in Hall. rewrite Hall; [|by constructor|done|by constructor|congruence].
    split_and!; [done|done|done|]. simpl. congruence.
  - symmetry in Hexec. apply insert_fails in Hexec. subst db.
    change (1 <? source_statement_count _) with true. cbn [andb]. apply cancelled_step. intros s4 H4. cbn [negb andb].
    unfold execute_merged_statement_fallback_with_progress.
    match goal with |- context [fallback_loop _ ?i _ _ _] => pose proof (fallback_same sources i k ex' s4 Hr') as Hb end.
    rewrite H4, H3 in Hb. exact Hb.
Qed.

(** ** Plans, files, imports *)

(** What a statement is sent as when it is sent alone. *)
Definition sent (statement : text) : option text :=
  match action_of db_type driver_profile statement with
  | ActionSkip => None
  | ActionExecute _ => Some (source_sql db_type driver_profile statement)
  end.

(** The INSERTs among the statements are plain. *)
Definition plain_inserts (statements : list text) : Prop :=
  Forall (λ statement, ∀ insert, is_insert db_type driver_profile statement insert → ∃ ts, plain_insert insert ts) statements.

Lemma sent_inserts statements inserts :
  Forall2 (is_insert db_type driver_profile) statements inserts → sent <$> statements = Some <$> (ins_sql <$> inserts).
Proof.
  induction 1 as [|statement insert statements inserts (sql & Ha & Hp) _ IH]; [done|]. rewrite !fmap_cons, IH. f_equal.
  unfold sent, source_sql. by rewrite Ha, Hp.
Qed.

Lemma plain_tuples statements inserts :
  Forall2 (is_insert db_type driver_profile) statements inserts → plain_inserts statements →
  ∃ tss, Forall2 plain_insert inserts tss.
Proof.
  induction 1 as [|statement insert statements inserts Hi _ IH]; [exists []; constructor|]. intros [Hp Hps]%Forall_cons.
  destruct (Hp _ Hi) as [ts ?], (IH Hps) as [tss ?]. exists (ts :: tss). by constructor.
Qed.

Definition done_as (outcome : result unit text * (nat * nat * Z) * DB)
    (r : result unit text * SqlFileExecutionProgress * option MySqlSqlFileExecutor * S) : Prop :=
  let '(stop, k', ex', s') := r in ready ex' ∧ stop = outcome.1.1 ∧ counts_of k' = outcome.1.2 ∧ dbs s' = outcome.2.

Lemma plan_step entry plan k ex s (l l' : list (option text)) :
  (∀ index s1, dbs s1 = dbs s → stepped_as (one_by_one (continue_on_error request) l (counts_of k) (dbs s))
     (interp h (execute_statement_with_progress request index entry k ex) s1)) →
  (∀ k' ex' s', ready ex' →
     done_as (one_by_one (continue_on_error request) l' (counts_of k') (dbs s'))
       (interp h (execute_planned_statements_with_progress request plan k' ex') s')) →
  done_as (one_by_one (continue_on_error request) (l ++ l') (counts_of k) (dbs s))
    (interp h (execute_planned_statements_with_progress request (entry :: plan) k ex) s).
Proof.
  intros Hentry Hplan. cbn [execute_planned_statements_with_progress]. apply cancelled_step. intros s1 H1. cbv iota zeta.
  rewrite interp_bind, one_by_one_app. set (next := statement_index k + source_statement_count entry).
  specialize (Hentry next s1 H1).
  destruct (interp h (execute_statement_with_progress _ _ _ _ _) s1) as [[[stop k'] ex'] s']. destruct Hentry as (Hr & Hstop & Hk & Hs).
  destruct (one_by_one _ l _ _) as [[[[]|e] t] db]; cbn [fst snd] in *; subst stop.
  - specialize (Hplan (set_statement_index next k') ex' s' Hr).
    change (counts_of (set_statement_index _ k')) with (counts_of k') in Hplan. rewrite Hk, Hs in Hplan. exact Hplan.
  - cbn [interp]. by split_and!.
Qed.

Lemma planned_same statements plan :
  Grouped db_type driver_profile statements plan → plain_inserts statements → ∀ k ex s, ready ex →
  done_as (one_by_one (continue_on_error request) (sent <$> statements) (counts_of k) (dbs s))
    (interp h (execute_planned_statements_with_progress request plan k ex) s).
Proof.
  induction 1 as [|st rest plan Ha _ IH|st sql rest plan Ha Hp _ IH|sts first others rest plan Hi Hk _ _ IH]; intros Hplain k ex s Hr.
  - by split_and!.
  - apply Forall_cons in Hplain as [_ Hplain]. assert (Hsent : sent st = None) by (unfold sent; by rewrite Ha).
    rewrite fmap_cons, Hsent. change (None :: ?l) with ([None] ++ l). apply plan_step; [|by auto]. intros index s1 <-.
    by apply (alone_same index (single Skip (trim_t st))).
  - apply Forall_cons in Hplain as [_ Hplain]. assert (Hsent : sent st = Some sql) by (unfold sent, source_sql; by rewrite Ha, Hp).
    rewrite fmap_cons, Hsent. change (Some sql :: ?l) with ([Some sql] ++ l). apply plan_step; [|by auto]. intros index s1 <-.
    by apply (alone_same index (single Execute sql)).
  - apply Forall_app in Hplain as [Hplain Hplain']. destruct (plain_tuples _ _ Hi Hplain) as [tss' Htss].
    destruct tss' as [|ts tss]; [by inversion Htss|]. apply Forall2_cons in Htss as [Hf Ho].
    rewrite fmap_app, (sent_inserts _ _ Hi). apply plan_step; [|by auto]. intros index s1 <-.
    apply (merged_same index first others ts tss); try done.
    clear -Hi. induction Hi as [|? ? ? ? (sql & _ & ?) _ IH]; constructor; [by exists sql|done].
Qed.

Context (import_target : option SqlFileImportTarget) (Htype : target_type import_target = db_type)
  (Hdriver : target_driver import_target = driver_profile).

Lemma batch_same statements k ex s :
  plain_inserts statements → ready ex →
  done_as (one_by_one (continue_on_error request) (sent <$> statements) (counts_of k) (dbs s))
    (interp h (execute_sql_file_statement_batch request import_target statements k ex) s).
Proof.
  intros Hp Hr. unfold execute_sql_file_statement_batch. destruct statements as [|st sts]; [by split_and!|].
  rewrite Htype, Hdriver. apply planned_same; [apply optimized_grouped|done|done].
Qed.

(** A file that is read to its end. *)
Definition file_as (outcome : result unit text * (nat * nat * Z) * DB) (r : FileEnd * S) : Prop :=
  dbs r.2 = outcome.2 ∧
  match outcome.1.1 with
  | Ok _ => ∃ k' ex', r.1 = FileRead k' ex' ∧ ready ex' ∧ counts_of k' = outcome.1.2
  | Err e => r.1 = ImportReturns (Err e)
  end.

Lemma file_as_bind {A} (p : import A) f s outcome : file_as outcome (interp h (p ≫= f) s) ↔ file_as outcome (let '(a, s') := interp h p s in interp h (f a) s').
Proof. by rewrite interp_bind. Qed.

Lemma chunks_same chunks : ∀ splitter pending k ex s,
  plain_inserts (pending ++ stream_statements splitter chunks) → ready ex →
  file_as (one_by_one (continue_on_error request) (sent <$> (pending ++ stream_statements splitter chunks)) (counts_of k) (dbs s))
    (interp h (chunk_loop request import_target splitter pending chunks None k ex) s).
Proof.
  induction chunks as [|chunk chunks IH]; intros splitter pending k ex s Hp Hr; cbn [chunk_loop stream_statements] in *.
  - apply file_as_bind. pose proof (batch_same _ k ex s Hp Hr) as H.
    destruct (interp h (execute_sql_file_statement_batch _ _ _ _ _) s) as [[[stop k'] ex'] s'].
    destruct H as (Hr' & Hstop & Hk & Hs). subst stop. destruct (one_by_one _ _ _ _) as [[[[]|e] t] db]; cbn [fst snd] in *.
    + split; [done|]. by exists k', ex'.
    + by split.
  - apply cancelled_step. intros s1 <-. destruct (streaming_push splitter chunk) as [splitter' statements]. rewrite app_assoc in Hp |- *.
    destruct (_ <? _); [by apply IH|]. apply file_as_bind. apply Forall_app in Hp as [Hp Hp'].
    pose proof (batch_same _ k ex s1 Hp Hr) as H. rewrite fmap_app, one_by_one_app.
    destruct (interp h (execute_sql_file_statement_batch _ _ _ _ _) s1) as [[[stop k'] ex'] s'].
    destruct H as (Hr' & Hstop & Hk & Hs). subst stop. destruct (one_by_one _ (sent <$> (pending ++ statements)) _ _) as [[[[]|e] t] db]; cbn [fst snd] in *.
    + subst t db. by apply (IH splitter' []).
    + by split.
Qed.

(** The files and the target of the environment. *)
Context (files : text → list text)
  (Hfiles : ∀ path s, (h _ (OpenFile path) s).1 = Ok (files path, None))
  (Htarget : ∀ s, (h _ (ImportTarget (connection_id request)) s).1 = import_target).

Definition statements_of_files (paths : list FilePath) : list text := paths.*1 ≫= λ path, file_statements import_target (files path).

(** A whole import, with what it reports last. *)
Definition import_as (outcome : result unit text * (nat * nat * Z) * DB) (r : result unit text * S) : Prop :=
  r.1 = outcome.1.1 ∧ dbs r.2 = outcome.2 ∧
  (outcome.1.1 = Ok () →
   ∃ p, last (reports r.2) = Some p ∧ progress_status p = Done
        ∧ (progress_success_count p, progress_failure_count p, progress_affected_rows p) = outcome.1.2).

Lemma import_as_bind {A} (p : import A) f s outcome :
  import_as outcome (let '(a, s') := interp h p s in interp h (f a) s') → import_as outcome (interp h (prog_bind p f) s).
Proof. change (prog_bind p f) with (p ≫= f). by rewrite interp_bind. Qed.

Lemma files_same several paths : ∀ index prev k ex s,
  plain_inserts (statements_of_files paths) → ready ex →
  import_as (one_by_one (continue_on_error request) (sent <$> statements_of_files paths) (counts_of k) (dbs s))
    (interp h (files_loop request import_target several index paths prev k ex) s).
Proof.
  induction paths as [|[path name] paths IH]; intros index prev k ex s Hp Hr; cbn [files_loop].
  - unfold emit_sql_file_terminal_progress, report, sql_file_progress. prog_simpl. apply quiet_do; [done|].
    intros cancelled s1 E1 H1. pose proof (serves_cancelled (Serves := HS) s) as Hc. rewrite E1 in Hc. cbn in Hc. subst cancelled.
    skip_call ms s2 H2. prog_simpl. apply quiet_do; [done|]. intros [] s3 E3 H3. cbn [interp]. split; [done|]. split; [simpl; congruence|]. intros _.
    match type of E3 with h _ (Emit ?p) _ = _ => exists p; pose proof (serves_reports (Serves := HS) p s2) as Hl end.
    rewrite E3 in Hl. cbn [snd] in *. by rewrite Hl, last_snoc.
  - cbn [statements_of_files fmap list_fmap fst] in *. unfold statements_of_files in *. rewrite fmap_cons, bind_cons in *. cbn [fst] in *.
    set (rest := (paths.*1 ≫= _)) in *. apply Forall_app in Hp as [Hp Hp']. rewrite fmap_app, one_by_one_app.
    assert (Hbody : ∀ s0, dbs s0 = dbs s → import_as
       match one_by_one (continue_on_error request) (sent <$> file_statements import_target (files path)) (counts_of k) (dbs s) with
       | (Ok _, k, db) => one_by_one (continue_on_error request) (sent <$> rest) k db | (Err e, k, db) => (Err e, k, db) end
       (interp h (file ← perform (OpenFile path);
             match file with
             | Err error => progress ← sql_file_execution_error_progress request k error; _ ← perform (Emit progress); Ret (Err error)
             | Ok (chunks, read_error) =>
                 ended ← chunk_loop request import_target (streaming_new (target_type import_target) (import_options (target_type import_target)))
                           [] chunks read_error k ex;
                 match ended with
                 | ImportReturns r => Ret r
                 | FileRead k mysql_executor =>
                     _ ← (if several then file_boundary request StatementDone (since prev k) index name else Ret ());
                     files_loop request import_target several (Datatypes.S index) paths k k mysql_executor
                 end
             end) s0)).
    { intros s0 Hs0. prog_simpl. apply quiet_do; [done|]. intros file s1 E1 H1. pose proof (Hfiles path s0) as Hf. rewrite E1 in Hf. cbn in Hf. subst file.
      apply import_as_bind.
      pose proof (chunks_same (files path) (streaming_new (target_type import_target) (import_options (target_type import_target))) [] k ex s1 Hp Hr) as H.
      assert (Hdb : dbs s1 = dbs s) by congruence. rewrite Hdb in H. change ([] ++ ?l) with l in H. fold (file_statements import_target (files path)) in H.
      destruct (interp h (chunk_loop _ _ _ _ _ _ _ _) s1) as [ended s2]. destruct H as [Hs2 H]. cbn [fst snd] in *.
      destruct (one_by_one _ _ _ _) as [[[[]|e] t] db]; cbn [fst snd] in *.
      - destruct H as (k' & ex' & -> & Hr' & Hk). assert (Hrest : ∀ s3, dbs s3 = db → import_as (one_by_one (continue_on_error request) (sent <$> rest) t db)
            (interp h (files_loop request import_target several (Datatypes.S index) paths k' k' ex') s3)).
        { intros s3 H3. rewrite <-Hk, <-H3. by apply IH. }
        destruct several; [|by apply Hrest]. unfold file_boundary. skip_call ms s3 H3. skip_call [] s4 H4. apply Hrest. congruence.
      - rewrite H. by split_and!. }
    destruct several; [|by apply Hbody]. unfold file_boundary. skip_call ms s1 H1. skip_call [] s2 H2. apply Hbody. congruence.
Qed.

Lemma build_ready s : ∃ ex s', interp h (build request import_target) s = (Ok ex, s') ∧ ready ex ∧ dbs s' = dbs s.
Proof.
  set (P := λ r : result (option MySqlSqlFileExecutor) text * S, ∃ ex s', r = (Ok ex, s') ∧ ready ex ∧ dbs s' = dbs s).
  change (P (interp h (build request import_target) s)). unfold build. destruct import_target as [target|]; [|by eexists _, _].
  destruct (negb _); [by eexists _, _|]. prog_simpl. apply quiet_do; [done|]. intros pool s1 E1 H1.
  pose proof (serves_pool (Serves := HS) (connection_id request) (non_empty_database (database request)) s) as Hp. rewrite E1 in Hp.
  destruct pool as [key|]; [|done]. prog_simpl. apply quiet_do; [done|]. intros kind s2 E2 H2.
  destruct (serves_lookup (Serves := HS) key s1) as [bare Hl]. rewrite E2 in Hl. cbn in Hl. subst kind. prog_simpl. apply quiet_do; [done|].
  intros timeouts s3 E3 H3. destruct (serves_timeouts (Serves := HS) (connection_id request) s2) as [[t1 t2] Ht]. rewrite E3 in Ht. cbn in Ht. subst timeouts.
  eexists _, _. split; [done|]. split; [exact Htype|]. congruence.
Qed.

(** C10: merging is invisible. On any database where a plain INSERT is one step
    that depends on its normalised prefix and its tuples, importing files leaves
    the database, the result and the final counts that sending every statement of
    the files alone, in order, would leave, whatever fails, with or without
    continuing after errors, and however the files are cut into chunks. *)
Theorem import_refines_one_by_one paths s :
  paths ≠ [] → plain_inserts (statements_of_files paths) →
  import_as (one_by_one (continue_on_error request) (sent <$> statements_of_files paths) (0, 0, 0%Z) (dbs s))
    (interp h (execute_sql_file_paths request paths) s).
Proof.
  intros Hne Hp. unfold execute_sql_file_paths. destruct paths as [|path paths]; [done|]. set (all := path :: paths) in *.
  prog_simpl. apply quiet_do; [done|]. intros target s1 E1 H1. pose proof (Htarget s) as Ht. rewrite E1 in Ht. cbn in Ht. subst target.
  apply import_as_bind. destruct (build_ready s1) as (ex & s2 & -> & Hr & H2). rewrite <-H1, <-H2.
  exact (files_same _ all 0 SqlFileExecutionProgress_new SqlFileExecutionProgress_new ex s2 Hp Hr).
Qed.
End on_environment.

(** ** A database *)

(** Rows with the prefix they were inserted under; a row is there once. *)
Definition Rows : Type := list (text * text).
Fixpoint put (key : text) (ts : list text) (db : Rows) : option Rows :=
  match ts with
  | [] => Some db
  | t :: ts' => if bool_decide ((key, t) ∈ db) then None else put key ts' (db ++ [(key, t)])
  end.
Definition put_rows (key : text) (ts : list text) (db : Rows) : result Z text * Rows :=
  match put key ts db with Some db' => (Ok (Z.of_nat (List.length ts)), db') | None => (Err (c "Duplicate entry"), db) end.
#[export] Instance rows_database : Database Rows := {|
  exec sql db :=
    match parse_mergeable_insert sql (for_database_type Mysql) with
    | Some insert => match values_tuples (ins_values insert) with Some ts => put_rows (ins_prefix_key insert) ts db | None => (Ok 0%Z, db) end
    | None => (Ok 0%Z, db)
    end
|}.

Lemma put_app key ts ts' db : put key (ts ++ ts') db = put key ts db ≫= put key ts'.
Proof. revert db. induction ts as [|t ts IH]; intros db; [done|]. simpl. case_bool_decide; [done|]. apply IH. Qed.

#[export] Program Instance rows_laws : InsertLaws Rows (import_options (Some Mysql)) := {| insert_rows := put_rows |}.
Next Obligation.
  intros sql insert ts db Hp [_ _ Ht Hlast]. cbn [exec rows_database]. change (import_options (Some Mysql)) with (for_database_type Mysql) in Hp.
  by rewrite (sent_insert_reads _ _ _ Hp Hlast), Ht.
Qed.
Next Obligation. intros key ts db e db'. unfold put_rows. destruct (put key ts db); [done|]. by intros [= _ <-]. Qed.
Next Obligation.
  intros key ts ts' db n db1. unfold put_rows. rewrite put_app. destruct (put key ts db) as [db2|]; [|done]. intros [= <- <-]. simpl.
  destruct (put key ts' db2); [|by eexists]. rewrite length_app. by rewrite Nat2Z.inj_add.
Qed.
Next Obligation.
  intros key ts ts' db e. unfold put_rows. rewrite put_app. destruct (put key ts db); [done|]. intros _. by eexists.
Qed.

(** An environment around it: the rows, and the events that were reported. *)
Definition demo_target : option SqlFileImportTarget := Some {| target_db_type := Mysql; target_profile := None |}.
Definition demo_chunks (path : text) : list text :=
  if text_eqb path (c "/a.sql") then [c "INSERT INTO t VALUES (1); INSERT IN"; c "TO t VALUES (2); INSERT INTO t VALUES (1);"]
  else [c "SET x = 1; insert into t values (3),(4)"].

Definition demo_handler (B : Type) (call : ImportE B) : Rows * list SqlFileProgress → B * (Rows * list SqlFileProgress) :=
  match call in ImportE B return Rows * list SqlFileProgress → B * (Rows * list SqlFileProgress) with
  | IsCancelled => λ s, (false, s)
  | ChildCancelled _ => λ s, (false, s)
  | Elapsed => λ s, (0%N, s)
  | ImportTarget _ => λ s, (demo_target, s)
  | ConnectionTimeouts _ => λ s, (Some (10, 30)%N, s)
  | OpenFile path => λ s, (Ok (demo_chunks path, None), s)
  | GetOrCreatePool id _ => λ s, (Ok id, s)
  | ReconnectPool id _ => λ s, (Ok id, s)
  | LookupPool _ => λ s, (Some (MysqlPool false), s)
  | Checkout _ _ _ => λ s, (Ok 7, s)
  | QueryOnConn _ sql _ _ _ => λ s, let '(r, db) := exec sql s.1 in (r, (db, s.2))
  | ExecuteSql _ _ sql _ => λ s, let '(r, db) := exec sql s.1 in (r, (db, s.2))
  | Emit p => λ s, ((), (s.1, s.2 ++ [p]))
  | RemovePool _ | DropConn _ | Register _ | SpawnCancelTask _ | AbortCancelTask _ | Unregister _ | SetPoolKey _ _ | TouchPool _
  | BeginActivity _ | EndActivity _ | RegisterInterrupt _ _ => λ s, ((), s)
  end.

Definition no_tokens : SqlTokenizer := {| tokenize _ _ := None |}.

Lemma demo_serves : @Serves ascii_case digit_printer Rows _ _ fst snd demo_handler (Some Mysql).
Proof.
  split; try done.
  - intros cid d sql id s. cbn [demo_handler]. by destruct (exec sql s.1).
  - intros conn sql bare timeout dialect s. cbn [demo_handler]. by destruct (exec sql s.1).
  - by eexists.
  - intros sql db e. cbn [exec rows_database]. destruct (parse_mergeable_insert _ _) as [insert|]; [|done].
    destruct (values_tuples _); [|done]. unfold put_rows. destruct (put _ _ _); [done|]. intros [= <-]. vm_compute. reflexivity.
  - by intros B [] s.
Qed.

(** Whether a statement that can be merged is a plain INSERT. *)
Definition plain_if_insert (db_type : option DatabaseType) (driver_profile : option string) (statement : text) : bool :=
  match action_of db_type driver_profile statement with
  | ActionSkip => true
  | ActionExecute sql =>
      match parse_mergeable_insert sql (import_options db_type) with
      | None => true
      | Some insert =>
          plain_prefix (ins_prefix insert) && bool_decide (dollar_free (ins_values insert))
          && bool_decide (is_Some (values_tuples (ins_values insert))) && bool_decide (last (ins_sql insert) ≠ Some 59%N)
      end
  end.

Lemma plain_inserts_check db_type driver_profile statements :
  forallb (plain_if_insert db_type driver_profile) statements = true → plain_inserts db_type driver_profile statements.
Proof.
  intros H. apply Forall_forall. intros statement Hin insert (sql & Ha & Hp). rewrite forallb_forall in H.
  apply list_elem_of_In, H in Hin. unfold plain_if_insert in Hin. rewrite Ha, Hp in Hin.
  apply andb_true_iff in Hin as [[[H1 H2%bool_decide_eq_true]%andb_true_iff [ts H3]%bool_decide_eq_true]%andb_true_iff H4%bool_decide_eq_true].
  exists ts. by split.
Qed.

Definition demo_state : Rows * list SqlFileProgress := ([], []).

Lemma import_refines_one_by_one_witness :
  import_as fst snd
    (one_by_one (continue_on_error (demo_request true))
       (sent (Some Mysql) None <$> @statements_of_files no_tokens demo_target demo_chunks demo_paths) (0, 0, 0%Z) (fst demo_state))
    (interp demo_handler (@execute_sql_file_paths ascii_case no_tokens digit_printer (demo_request true) demo_paths) demo_state).
Proof.
  pose proof (λ Hp, @import_refines_one_by_one ascii_case no_tokens digit_printer (demo_request true) Rows _ _ fst snd demo_handler
           (Some Mysql) demo_serves None rows_laws demo_target eq_refl eq_refl demo_chunks (λ path s, eq_refl) (λ s, eq_refl) demo_paths
           demo_state ltac:(discriminate) Hp) as H.
  apply H. apply plain_inserts_check. vm_compute. reflexivity.
Defined.

Example demo_import_rows :
  (interp demo_handler (@execute_sql_file_paths ascii_case no_tokens digit_printer (demo_request true) demo_paths) demo_state).2.1.*2
  = c <$> ["(1)"; "(2)"; "(3)"; "(4)"].
Proof. vm_compute. reflexivity. Qed.
