(* ===== verification/SqlImportStream.v ===== *)
(** * Reading and reporting an import piece by piece

    The splitters of SqlFileImport fed in chunks against the same text at once,
    and the emitter that throttles progress events (sql_file_import.rs). *)
From S2P Require Import Prelude RustStr Json SqlText SqlSplit SqlGuard AgentContext SqlImport PoolErrors Prog SqlFileImport.

(** ** SQL Server batches *)

(** The lines of a text, without their ends. *)
Definition go_lines (l : text) : list text :=
  let pieces := split_t (N.eqb 10) l [] in
  trim_end_char 13 <$> (if bool_decide (last pieces = Some []) then removelast pieces else pieces).

(** The batches of lines, [batch] being under way. *)
Fixpoint go_group (batch : text) (lines : list text) : list text :=
  match lines with
  | [] => push_batch batch
  | line :: lines' => let '(batch, batches) := push_line batch line in batches ++ go_group batch lines'
  end.
Definition go_reference (l : text) : list text := go_group [] (go_lines l).

Section go.

Lemma split_newline_spec l line rest : split_newline l = Some (line, rest) → l = line ++ 10%N :: rest ∧ (10%N : N) ∉ line.
Proof.
  revert line. induction l as [|x l IH]; intros line; [done|]. cbn [split_newline]. destruct (N.eqb_spec x 10) as [->|Hx].
  - intros [= <- <-]. split; [done|apply not_elem_of_nil].
  - destruct (split_newline l) as [[line' rest']|]; [|done]. intros [= <- <-]. destruct (IH line' eq_refl) as [-> Hn].
    split; [done|]. apply not_elem_of_cons. split; [congruence|done].
Qed.

Lemma split_newline_none l : split_newline l = None → (10%N : N) ∉ l.
Proof.
  induction l as [|x l IH]; [intros _; apply not_elem_of_nil|]. cbn [split_newline]. destruct (N.eqb_spec x 10) as [->|Hx]; [done|].
  destruct (split_newline l) as [[]|]; [done|]. intros _. apply not_elem_of_cons. split; [congruence|by apply IH].
Qed.

Lemma split_t_newline l rest : ∀ word, (10%N : N) ∉ l → split_t (N.eqb 10) (l ++ 10%N :: rest) word = (rev word ++ l) :: split_t (N.eqb 10) rest [].
Proof.
  induction l as [|x l IH]; intros word Hl; cbn [app split_t]; [by rewrite app_nil_r|]. apply not_elem_of_cons in Hl as [Hx Hl].
  assert ((10 =? x)%N = false) as -> by (by apply N.eqb_neq). rewrite IH by done. cbn [rev]. by rewrite <-app_assoc.
Qed.

Lemma split_t_end l : ∀ word, (10%N : N) ∉ l → split_t (N.eqb 10) l word = [rev word ++ l].
Proof.
  induction l as [|x l IH]; intros word Hl; cbn [split_t]; [by rewrite app_nil_r|]. apply not_elem_of_cons in Hl as [Hx Hl].
  assert ((10 =? x)%N = false) as -> by (by apply N.eqb_neq). rewrite IH by done. cbn [rev]. by rewrite <-app_assoc.
Qed.

Lemma split_t_some l word : split_t (N.eqb 10) l word ≠ [].
Proof. revert word. induction l as [|x l IH]; intros word; [done|]. cbn [split_t]. by destruct (10 =? x)%N. Qed.

Lemma go_lines_cons line rest : (10%N : N) ∉ line → go_lines (line ++ 10%N :: rest) = trim_end_char 13 line :: go_lines rest.
Proof.
  intros Hl. unfold go_lines. rewrite split_t_newline by done. cbn [rev app]. pose proof (split_t_some rest []) as Hne.
  destruct (split_t (N.eqb 10) rest []) as [|p ps]; [done|]. change (last (line :: p :: ps)) with (last (p :: ps)).
  by case_bool_decide.
Qed.

Lemma go_lines_end l : (10%N : N) ∉ l → go_lines l = match l with [] => [] | _ => [trim_end_char 13 l] end.
Proof. intros Hl. unfold go_lines. rewrite split_t_end by done. by destruct l. Qed.

Lemma lines_loop_spec n : ∀ batch l rest, List.length l ≤ n →
  let '(splitter, batches) := lines_loop n (mk_go_splitter batch l) in
  (10%N : N) ∉ partial_line splitter
  ∧ go_group batch (go_lines (l ++ rest)) = batches ++ go_group (go_batch splitter) (go_lines (partial_line splitter ++ rest)).
Proof.
  induction n as [|n IH]; intros batch l rest Hn; cbn [lines_loop partial_line go_batch].
  { destruct l; [|simpl in Hn; lia]. split; [apply not_elem_of_nil|done]. }
  destruct (split_newline l) as [[line l']|] eqn:E; [|split; [by apply split_newline_none|done]].
  destruct (split_newline_spec _ _ _ E) as [-> Hline]. rewrite <-app_assoc. cbn [app]. rewrite go_lines_cons by done. cbn [go_group].
  destruct (push_line batch (trim_end_char 13 line)) as [batch' batches'].
  specialize (IH batch' l' rest). rewrite length_app in Hn. cbn [List.length] in Hn. specialize (IH ltac:(lia)).
  destruct (lines_loop n (mk_go_splitter batch' l')) as [splitter batches]. destruct IH as [Hp ->]. split; [done|]. by rewrite app_assoc.
Qed.

Context `{HT : SqlTokenizer}.

Lemma go_stream chunks : ∀ splitter, (10%N : N) ∉ partial_line splitter →
  stream_statements (SqlServerBatches splitter) chunks
  = go_group (go_batch splitter) (go_lines (partial_line splitter ++ List.concat chunks)).
Proof.
  induction chunks as [|chunk chunks IH]; intros splitter Hs; cbn [stream_statements List.concat].
  - rewrite app_nil_r, go_lines_end by done. cbn [streaming_finish]. unfold go_finish. destruct (partial_line splitter) as [|x l]; [done|].
    cbn [go_group]. by destruct (push_line _ _).
  - cbn [streaming_push]. unfold go_push_chunk.
    pose proof (lines_loop_spec _ (go_batch splitter) (partial_line splitter ++ chunk) (List.concat chunks) (reflexivity _)) as H.
    destruct (lines_loop _ _) as [splitter' batches]. destruct H as [Hp H]. rewrite <-app_assoc in H. by rewrite IH, H.
Qed.
End go.

(** ** Statements *)

Section statements.
Context `{HT : SqlTokenizer}.

Lemma push_semicolon_tag s : dollar_quote_tag (push_semicolon s).1 = dollar_quote_tag s.
Proof. unfold push_semicolon, push_current_statement, forget. by repeat case_match. Qed.

Lemma push_plain_tag ch s : dollar_quote_tag (push_plain ch s).1 = dollar_quote_tag s.
Proof.
  unfold push_plain. repeat (match goal with |- context [if ?b then _ else _] => destruct b end; [done|]).
  match goal with |- context [if ?b then _ else _] => destruct b end; [apply push_semicolon_tag|done].
Qed.

Lemma end_of_line_tag s s' out : end_of_line s = Some (s', out) → dollar_quote_tag s' = dollar_quote_tag s.
Proof. unfold end_of_line, forget. repeat case_match; intros [= <- _]; done. Qed.

Lemma end_of_delimiter_tag s : dollar_quote_tag (end_of_delimiter s).1 = dollar_quote_tag s.
Proof. unfold end_of_delimiter, push_current_statement, forget. by repeat case_match. Qed.

Lemma plain_step_tag ch s : dollar_quote_tag (plain_step ch s).1 = dollar_quote_tag s.
Proof.
  unfold plain_step. pose proof (push_plain_tag ch s) as H. destruct (push_plain ch s) as [s1 out1]. cbn [fst] in H.
  destruct (negb (unquoted s1)); [done|]. destruct (if (ch =? 10)%N then end_of_line s1 else None) as [[s2 out2]|] eqn:E.
  - destruct (ch =? 10)%N; [|done]. apply end_of_line_tag in E. cbn [fst]. congruence.
  - pose proof (end_of_delimiter_tag s1) as H2. destruct (end_of_delimiter s1). cbn [fst] in *. cbn. congruence.
Qed.

(** One character, with the character behind it: no dollar signs, so nothing
    else is looked at. *)
Definition char_step (s : SqlStatementSplitter) (ch : N) (next : option N) : SqlStatementSplitter * list text :=
  (push_step s ch (option_list next)).1.

Lemma push_step_char s ch l :
  dollar_quote_tag s = None → ch ≠ 36%N →
  push_step s ch l = (char_step s ch (head l), l) ∧ dollar_quote_tag (char_step s ch (head l)).1 = None.
Proof.
  intros Ht Hch. unfold char_step, push_step. rewrite Ht.
  assert (∀ l, dollar_quote_tag_at (ch :: l) = None) as Htag.
  { intros k. unfold dollar_quote_tag_at. destruct ch as [|p]; [done|]. by repeat (destruct p as [p|p|]; try done). }
  rewrite !Htag. assert (head (option_list (head l)) = head l) as -> by (by destruct l).
  pose proof (plain_step_tag ch s) as Hplain. rewrite Ht in Hplain.
  assert (∀ b : bool, (if b then None else None) = @None text) as Hnone by (by intros []).
  rewrite Hnone. split; repeat match goal with |- context [if ?b then _ else _] => destruct b end; done.
Qed.

(** What is read of [l] in front of [next]. *)
Fixpoint char_loop (s : SqlStatementSplitter) (l : text) (next : option N) : SqlStatementSplitter * list text :=
  match l with
  | [] => (s, [])
  | ch :: l1 =>
      let '(s, out) := char_step s ch (match head l1 with Some x => Some x | None => next end) in
      let '(s, more) := char_loop s l1 next in (s, out ++ more)
  end.

Lemma push_loop_chars l : ∀ n s out, dollar_quote_tag s = None → dollar_free l → List.length l ≤ n →
  push_loop n s l out = let '(s', more) := char_loop s l None in (s', out ++ more).
Proof.
  induction l as [|ch l IH]; intros n s out Ht Hd Hn.
  { destruct n; cbn [push_loop char_loop]; by rewrite app_nil_r. }
  destruct n as [|n]; [simpl in Hn; lia|]. apply not_elem_of_cons in Hd as [Hch Hd]. cbn [push_loop char_loop].
  destruct (push_step_char s ch l Ht (not_eq_sym Hch)) as [-> Ht'].
  assert ((match head l with Some x => Some x | None => None end) = head l) as -> by (by destruct (head l)).
  destruct (char_step s ch (head l)) as [s1 o1]. cbn [fst] in Ht'. rewrite IH; [|done|done|simpl in Hn; lia].
  destruct (char_loop s1 l None). by rewrite app_assoc.
Qed.

Lemma push_chunk_chars s l : dollar_quote_tag s = None → dollar_free l → push_chunk s l = char_loop s l None.
Proof. intros Ht Hd. unfold push_chunk. rewrite push_loop_chars by done. by destruct (char_loop s l None). Qed.

Lemma char_loop_app a b s next :
  char_loop s (a ++ b) next
  = let '(s1, o1) := char_loop s a (match head b with Some x => Some x | None => next end) in
    let '(s2, o2) := char_loop s1 b next in (s2, o1 ++ o2).
Proof.
  revert s. induction a as [|ch a IH]; intros s; cbn [app char_loop]; [by destruct (char_loop s b next)|].
  assert ((match head (a ++ b) with Some x => Some x | None => next end)
          = match head a with Some x => Some x | None => match head b with Some x => Some x | None => next end end) as ->.
  { destruct a; [done|done]. }
  destruct (char_step s ch _) as [s1 o1]. rewrite IH. destruct (char_loop s1 a _) as [s2 o2], (char_loop s2 b next) as [s3 o3].
  by rewrite app_assoc.
Qed.

Lemma char_loop_one s ch next : char_loop s [ch] next = char_step s ch next.
Proof. cbn [char_loop head]. destruct (char_step s ch next). by rewrite app_nil_r. Qed.

Lemma char_loop_tag l : ∀ s next, dollar_quote_tag s = None → dollar_free l → dollar_quote_tag (char_loop s l next).1 = None.
Proof.
  induction l as [|ch l IH]; intros s next Ht Hd; [done|]. apply not_elem_of_cons in Hd as [Hch Hd]. cbn [char_loop].
  set (nx := match head l with Some x => Some x | None => next end).
  pose proof (push_step_char s ch (option_list nx) Ht (not_eq_sym Hch)) as [_ Ht'].
  assert (head (option_list nx) = nx) as E by (by destruct nx). rewrite E in Ht'. destruct (char_step s ch nx) as [s1 o1]. cbn [fst] in Ht'.
  specialize (IH s1 next Ht' Hd). destruct (char_loop s1 l next). exact IH.
Qed.

(** The character behind matters at a dash or a slash only. *)
Lemma char_step_next s ch next : ch ≠ 45%N → ch ≠ 47%N → dollar_quote_tag s = None → ch ≠ 36%N → char_step s ch next = char_step s ch None.
Proof.
  intros H1 H2 Ht Hch. unfold char_step, push_step. rewrite Ht. apply N.eqb_neq in H1, H2. rewrite H1, H2. rewrite !andb_false_l, !andb_false_r.
  assert (∀ l, dollar_quote_tag_at (ch :: l) = None) as Htag.
  { intros k. unfold dollar_quote_tag_at. destruct ch as [|p]; [done|]. by repeat (destruct p as [p|p|]; try done). }
  rewrite !Htag. repeat match goal with |- context [if ?b then _ else _] => destruct b end; done.
Qed.

Lemma plain_opener s ch :
  ch = 45%N ∨ ch = 47%N → unquoted s = true → custom_delimiter (plain_step ch s).1 = None → plain_step ch s = (push_char ch s, []).
Proof.
  intros Hch Hu. assert (push_plain ch s = (push ch s, [])) as E by (unfold push_plain; by destruct Hch as [-> | ->]).
  unfold plain_step. rewrite E. assert (unquoted (push ch s) = true) as -> by done. cbn [negb].
  assert ((ch =? 10)%N = false) as -> by (by destruct Hch as [-> | ->]). unfold end_of_delimiter.
  destruct (custom_delimiter (push ch s)) as [d|] eqn:Hd; [|done]. destruct (ends_with_t _ _); cbn; unfold push in Hd; cbn in Hd; rewrite Hd; done.
Qed.

(** A comment that is opened across a boundary is recognised by its second
    character, when no custom delimiter is set. *)
Lemma straddled_step s ch next :
  dollar_quote_tag s = None → ch = 45%N ∨ ch = 47%N → custom_delimiter (char_step s ch None).1 = None →
  char_step s ch (Some next) = char_step s ch None
  ∨ (char_step s ch (Some next)).2 = (char_step s ch None).2
    ∧ ∀ behind, char_step (char_step s ch (Some next)).1 next behind = char_step (char_step s ch None).1 next behind.
Proof.
  intros Ht Hch Hc.
  assert (∀ l, dollar_quote_tag_at (ch :: l) = None) as Htag by (intros k; by destruct Hch as [-> | ->]).
  destruct (in_line_comment s) eqn:Hl; [left; unfold char_step, push_step; by rewrite Ht, Hl|].
  destruct (in_block_comment s) eqn:Hb; [left; unfold char_step, push_step; by rewrite Ht, Hl, Hb|].
  destruct (unquoted s) eqn:Hu; [|left; unfold char_step, push_step; by rewrite Ht, Hl, Hb, Hu].
  destruct (decide (ch = 45%N ∧ (previous s = Some 45%N ∨ next ≠ 45%N) ∨ ch = 47%N ∧ next ≠ 42%N)) as [Hsame|Hdiff].
  { left. unfold char_step, push_step. rewrite Ht, Hl, Hb, Hu, !Htag. cbn [head option_list andb].
    destruct Hsame as [[-> [->|Hn]]|[-> Hn]]; [done| |].
    - rewrite (bool_decide_false (Some next = Some 45%N)) by congruence.
      change (bool_decide (head (option_list None) = Some 45%N)) with false. cbn [N.eqb Pos.eqb andb].
      repeat match goal with |- context [if ?b then _ else _] => destruct b end; done.
    - rewrite (bool_decide_false (Some next = Some 42%N)) by congruence.
      change (bool_decide (head (option_list None) = Some 42%N)) with false. cbn [N.eqb Pos.eqb andb].
      repeat match goal with |- context [if ?b then _ else _] => destruct b end; done. }
  assert (Hplain : char_step s ch None = plain_step ch s).
  { unfold char_step, push_step. rewrite Ht, Hl, Hb, Hu, !Htag. cbn [head option_list andb].
    assert (bool_decide (previous s = Some 45%N) && (ch =? 45)%N = false) as ->.
    { destruct Hch as [-> | ->]; [|by rewrite andb_false_r]. rewrite bool_decide_false; [done|]. intros Hp. apply Hdiff. auto. }
    assert (bool_decide (previous s = Some 47%N) && (ch =? 42)%N = false) as -> by (rewrite andb_comm; by destruct Hch as [-> | ->]).
    assert ((supports_hash_line_comments (profile s) && (ch =? 35)%N) = false) as -> by (rewrite andb_comm; by destruct Hch as [-> | ->]).
    rewrite !andb_false_r. by destruct (supports_dollar_quoted_strings (profile s)). }
  rewrite Hplain in *. rewrite (plain_opener s ch Hch Hu Hc). right.
  assert (Hnext : ch = 45%N ∧ next = 45%N ∧ previous s ≠ Some 45%N ∨ ch = 47%N ∧ next = 42%N).
  { destruct Hch as [-> | ->]; [left|right]; (split; [done|]).
    - split; [|intros Hp; apply Hdiff; auto]. destruct (decide (next = 45%N)); [done|]. exfalso. apply Hdiff. auto.
    - destruct (decide (next = 42%N)); [done|]. exfalso. apply Hdiff. auto. }
  assert (Hopened : char_step s ch (Some next) = (push_char ch (set_comments (ch =? 45)%N (ch =? 47)%N s), [])).
  { unfold char_step, push_step. rewrite Ht, Hl, Hb, Hu. cbn [head option_list andb].
    destruct Hnext as [(-> & -> & Hp)|(-> & ->)].
    - rewrite (bool_decide_false (previous s = _)) by done. rewrite (andb_comm (bool_decide (previous s = Some 47%N))). done.
    - rewrite (andb_comm (bool_decide (previous s = Some 45%N))), (andb_comm (bool_decide (previous s = Some 47%N))).
      rewrite (andb_comm (supports_hash_line_comments _)). done. }
  rewrite Hopened. split; [done|]. intros behind. cbn [fst]. unfold char_step, push_step.
  assert (dollar_quote_tag (push_char ch s) = None) as -> by done.
  assert (dollar_quote_tag (push_char ch (set_comments (ch =? 45)%N (ch =? 47)%N s)) = None) as -> by done.
  assert (in_line_comment (push_char ch s) = false) as -> by done. assert (in_block_comment (push_char ch s) = false) as -> by done.
  assert (unquoted (push_char ch s) = true) as -> by done.
  destruct Hnext as [(-> & -> & _)|(-> & ->)]; done.
Qed.

Lemma straddled s ch l final :
  dollar_quote_tag s = None → ch = 45%N ∨ ch = 47%N → custom_delimiter (char_step s ch None).1 = None →
  ∀ next, head l = Some next →
  (let '(s1, o1) := char_step s ch (Some next) in let '(s2, o2) := char_loop s1 l final in (s2, o1 ++ o2))
  = (let '(s1, o1) := char_step s ch None in let '(s2, o2) := char_loop s1 l final in (s2, o1 ++ o2)).
Proof.
  intros Ht Hch Hc next Hl. destruct (straddled_step s ch next Ht Hch Hc) as [->|[Ho Hs]]; [done|].
  destruct (char_step s ch (Some next)) as [s1 o1], (char_step s ch None) as [s1' o1']. cbn [fst snd] in *. subst o1'.
  destruct l as [|x l]; [done|]. injection Hl as ->. cbn [char_loop]. by rewrite Hs.
Qed.

(** A text may be cut behind [a]: not in the middle of what could open a comment
    while a custom delimiter is set. *)
Definition may_cut (s : SqlStatementSplitter) (a : text) : Prop :=
  (last a ≠ Some 45%N ∧ last a ≠ Some 47%N) ∨ custom_delimiter (push_chunk s a).1 = None.

Lemma push_chunk_app s a b :
  dollar_quote_tag s = None → dollar_free (a ++ b) → may_cut s a →
  push_chunk s (a ++ b) = (let '(s1, o1) := push_chunk s a in let '(s2, o2) := push_chunk s1 b in (s2, o1 ++ o2))
  ∧ dollar_quote_tag (push_chunk s a).1 = None.
Proof.
  unfold may_cut, dollar_free. intros Ht Hd Hcut. apply not_elem_of_app in Hd as [Ha Hb].
  assert (Hab : dollar_free (a ++ b)) by (by apply not_elem_of_app).
  rewrite (push_chunk_chars s a) in * by done. rewrite (push_chunk_chars s (a ++ b)) by done. rewrite char_loop_app.
  pose proof (char_loop_tag a s None Ht Ha) as Ht1. split; [|done].
  assert (Hb' : ∀ s1, dollar_quote_tag s1 = None → push_chunk s1 b = char_loop s1 b None) by (intros; by apply push_chunk_chars).
  assert (match head b with Some x => Some x | None => None end = head b) as -> by (by destruct (head b)).
  destruct b as [|next b]; cbn [head].
  { destruct (char_loop s a None) as [s1 o1]. by rewrite Hb'. }
  destruct a as [|ch a _] using rev_ind.
  { change (char_loop s [] None) with (s, @nil text). change (char_loop s [] (Some next)) with (s, @nil text). cbv iota beta. by rewrite Hb'. }
  rewrite last_snoc in Hcut. rewrite !char_loop_app in *. cbn [head] in *.
  pose proof (char_loop_tag a s (Some ch) Ht ltac:(unfold dollar_free; set_solver)) as Ht0.
  destruct (char_loop s a (Some ch)) as [s0 o0]. cbn [fst] in Ht0.
  rewrite !char_loop_one in *.
  assert (Hgoal : (let '(s1, o1) := char_step s0 ch (Some next) in let '(s2, o2) := char_loop s1 (next :: b) None in (s2, o1 ++ o2))
                  = (let '(s1, o1) := char_step s0 ch None in let '(s2, o2) := char_loop s1 (next :: b) None in (s2, o1 ++ o2))).
  { destruct (decide (ch = 45%N ∨ ch = 47%N)) as [Hop|Hop].
    - apply straddled; [done|done| |done]. destruct Hcut as [[H1 H2]|Hcut]; [destruct Hop; congruence|].
      by destruct (char_step s0 ch None).
    - rewrite (char_step_next s0 ch (Some next)); [done|naive_solver..| |]; [done|]. intros ->. set_solver. }
  destruct (char_step s0 ch (Some next)) as [s1 o1], (char_step s0 ch None) as [s1' o1']. cbn [fst] in Ht1. rewrite (Hb' s1') by done.
  destruct (char_loop s1 (next :: b) None) as [s2 o2], (char_loop s1' (next :: b) None) as [s2' o2'].
  injection Hgoal as -> Ho. by rewrite <-!app_assoc, Ho.
Qed.

(** Every boundary of the chunks is one where the text may be cut. *)
Fixpoint may_cut_all (s : SqlStatementSplitter) (chunks : list text) : Prop :=
  match chunks with
  | [] => True
  | chunk :: chunks' => (chunks' = [] ∨ may_cut s chunk) ∧ may_cut_all (push_chunk s chunk).1 chunks'
  end.

Lemma statements_stream chunks : ∀ s, dollar_quote_tag s = None → Forall dollar_free chunks → may_cut_all s chunks →
  stream_statements (Statements s) chunks = let '(s', out) := push_chunk s (List.concat chunks) in out ++ finish s'.
Proof.
  induction chunks as [|chunk chunks IH]; intros s Ht Hd Hc; [done|]. apply Forall_cons in Hd as [Hd Hds]. destruct Hc as [Hcut Hc].
  cbn [stream_statements List.concat streaming_push].
  assert (Hall : dollar_free (List.concat chunks)).
  { clear -Hds. induction Hds; [apply not_elem_of_nil|]. cbn. by apply not_elem_of_app. }
  assert (Happ : push_chunk s (chunk ++ List.concat chunks)
      = (let '(s1, o1) := push_chunk s chunk in let '(s2, o2) := push_chunk s1 (List.concat chunks) in (s2, o1 ++ o2))
      ∧ dollar_quote_tag (push_chunk s chunk).1 = None).
  { destruct Hcut as [->|Hcut]; [|apply push_chunk_app; [done|by apply not_elem_of_app|done]]. cbn. rewrite app_nil_r. split.
    - destruct (push_chunk s chunk) as [s1 o1]. change (push_chunk s1 []) with (s1, @nil text). by rewrite app_nil_r.
    - rewrite push_chunk_chars by done. by apply char_loop_tag. }
  destruct Happ as [-> Ht1]. destruct (push_chunk s chunk) as [s1 o1]. cbn [fst] in *. rewrite IH by done.
  destruct (push_chunk s1 (List.concat chunks)) as [s2 o2]. by rewrite app_assoc.
Qed.
End statements.

(** How a file is cut into chunks does not matter. For SQL Server the batches
    are those of its lines, grouped at GO; for the others they are the statements
    of the whole text, when the text has no dollar sign and, while a custom
    delimiter is set, is not cut behind a dash or a slash. *)
Theorem file_chunks_do_not_matter `{SqlTokenizer} target chunks :
  (target_type target ≠ Some SqlServer →
     Forall dollar_free chunks ∧ may_cut_all (with_options (import_options (target_type target))) chunks) →
  file_statements target chunks
  = if bool_decide (target_type target = Some SqlServer) then go_reference (List.concat chunks)
    else split_sql_file_import_statements (List.concat chunks) (target_type target).
Proof.
  intros Hc. unfold file_statements, streaming_new, split_sql_file_import_statements. case_bool_decide as Ht.
  - rewrite go_stream; [done|apply not_elem_of_nil].
  - destruct (Hc Ht) as [Hd Hcut]. by rewrite statements_stream.
Qed.

Definition demo_cuts : list text :=
  [c "SELECT 1 -"; c "- it's; a comment" ++ [10%N] ++ c "; SELECT 2 /"; c "* ; */ ; INSERT INTO t VALUES ('a"; c ";b')"].

Lemma file_chunks_do_not_matter_witness :
  @file_statements {| tokenize _ _ := None |} (Some {| target_db_type := Mysql; target_profile := None |}) demo_cuts
  = [c "SELECT 1 -- it's; a comment"; c "SELECT 2 /* ; */"; c "INSERT INTO t VALUES ('a;b')"].
Proof.
  rewrite (@file_chunks_do_not_matter {| tokenize _ _ := None |} (Some {| target_db_type := Mysql; target_profile := None |}) demo_cuts).
  - vm_compute. reflexivity.
  - intros _. split; [apply (bool_decide_unpack _); vm_compute; exact I|].
    repeat split; first [right; right; vm_compute; reflexivity | left; reflexivity].
Defined.

(** A dollar quote that is opened or closed across a boundary is not recognised:
    the statement goes on to the end of the file. *)
Lemma dollar_tag_straddles :
  let target := Some {| target_db_type := Postgres; target_profile := None |} in
  let chunks := [c "SELECT $$a$"; c "$; SELECT 2;"] in
  @file_statements {| tokenize _ _ := None |} target chunks = [c "SELECT $$a$$; SELECT 2;"]
  ∧ @split_sql_file_import_statements {| tokenize _ _ := None |} (List.concat chunks) (Some Postgres) = [c "SELECT $$a$$"; c "SELECT 2"].
Proof. split; vm_compute; reflexivity. Qed.

(** A line GO inside a comment ends a batch of a file that is streamed, but not
    one of a text that is split at once. *)
Lemma go_inside_comment :
  let target := Some {| target_db_type := SqlServer; target_profile := None |} in
  let sql := c "SELECT 1 /* one" ++ [10%N] ++ c "GO" ++ [10%N] ++ c "*/ , 2" in
  @file_statements {| tokenize _ _ := None |} target [sql] = [c "SELECT 1 /* one"; c "*/ , 2"]
  ∧ @split_sql_file_import_statements {| tokenize _ _ := None |} sql (Some SqlServer) = [sql].
Proof. split; vm_compute; reflexivity. Qed.

(** ** The emitter *)

(** Milliseconds; a clock never goes back. *)
Definition SQL_FILE_PROGRESS_EMIT_INTERVAL : N := 100.

Record SqlFileProgressEmitter : Type := mk_emitter {
  last_regular_emit_at : option N; pending_regular : option SqlFileProgress
}.
Definition SqlFileProgressEmitter_new : SqlFileProgressEmitter := mk_emitter None None.

Definition sql_file_progress_is_immediate (status : SqlFileStatus) : bool :=
  match status with Started | StatementFailed | Done | Error | Cancelled => true | Running | StatementDone => false end.

(** What is emitted, and the emitter. *)
Definition flush_pending_at (now : N) (e : SqlFileProgressEmitter) : SqlFileProgressEmitter * list SqlFileProgress :=
  match pending_regular e with
  | Some progress => (mk_emitter (Some now) None, [progress])
  | None => (e, [])
  end.

Definition is_immediate (progress : SqlFileProgress) : bool :=
  sql_file_progress_is_immediate (progress_status progress) || bool_decide (is_Some (file_index progress)).

(** [emit], which reads the clock at most once, as [now]. *)
Definition emitter_emit (now : N) (progress : SqlFileProgress) (e : SqlFileProgressEmitter)
    : SqlFileProgressEmitter * list SqlFileProgress :=
  if is_immediate progress then
    let '(e, emitted) := flush_pending_at now e in (e, emitted ++ [progress])
  else
    let e := mk_emitter (last_regular_emit_at e) (Some progress) in
    if match last_regular_emit_at e with
       | None => true
       | Some last_emit_at => (SQL_FILE_PROGRESS_EMIT_INTERVAL <=? now - last_emit_at)%N
       end
    then flush_pending_at now e else (e, []).

(** Events with the times they come at. *)
Fixpoint emitter_run (events : list (N * SqlFileProgress)) (e : SqlFileProgressEmitter)
    : SqlFileProgressEmitter * list SqlFileProgress :=
  match events with
  | [] => (e, [])
  | (now, progress) :: events' =>
      let '(e, emitted) := emitter_emit now progress e in
      let '(e, more) := emitter_run events' e in (e, emitted ++ more)
  end.

Lemma emitter_run_app a b e :
  emitter_run (a ++ b) e = let '(e1, o1) := emitter_run a e in let '(e2, o2) := emitter_run b e1 in (e2, o1 ++ o2).
Proof.
  revert e. induction a as [|[now p] a IH]; intros e; cbn [app emitter_run]; [by destruct (emitter_run b e)|].
  destruct (emitter_emit now p e) as [e1 o1]. rewrite IH. destruct (emitter_run a e1) as [e2 o2], (emitter_run b e2) as [e3 o3].
  by rewrite app_assoc.
Qed.

(** What is emitted, with what is pending, is part of what came, in order; what
    is pending is the last event that came, and it is a regular one. *)
Lemma emitter_state events :
  let '(e, out) := emitter_run events SqlFileProgressEmitter_new in
  out ++ option_list (pending_regular e) `sublist_of` events.*2
  ∧ List.filter is_immediate out = List.filter is_immediate events.*2
  ∧ match pending_regular e with
    | Some p => is_immediate p = false ∧ last events.*2 = Some p
    | None => last out = last events.*2
    end.
Proof.
  induction events as [|[now p] events IH] using rev_ind; [by cbn|]. rewrite emitter_run_app, fmap_app.
  destruct (emitter_run events SqlFileProgressEmitter_new) as [e out]. destruct IH as (Hsub & Himm & Hpend). cbn [emitter_run].
  assert (Hkeep : out ++ [p] `sublist_of` events.*2 ++ [p]).
  { apply sublist_app; [|done]. etrans; [|exact Hsub]. apply sublist_inserts_r. reflexivity. }
  unfold emitter_emit. change (([(now, p)]).*2) with [p]. rewrite last_snoc, List.filter_app. destruct (is_immediate p) eqn:Hp.
  - unfold flush_pending_at. destruct (pending_regular e) as [q|] eqn:Hq; cbn [option_list pending_regular] in *.
    + rewrite !app_nil_r, app_assoc. split_and!; [|rewrite !List.filter_app; cbn [List.filter]; rewrite Hp, (proj1 Hpend), app_nil_r, Himm; done|by rewrite last_snoc].
      by apply sublist_app.
    + rewrite app_nil_r in Hsub. rewrite Hq. cbn [option_list app]. rewrite !app_nil_r.
      split_and!; [by apply sublist_app|by rewrite List.filter_app, Himm|by rewrite last_snoc].
  - assert (Hf : List.filter is_immediate [p] = []) by (cbn [List.filter]; by rewrite Hp). rewrite Hf, app_nil_r.
    cbn [last_regular_emit_at pending_regular]. destruct (match last_regular_emit_at e with None => true | Some _ => _ end).
    + cbn [flush_pending_at pending_regular option_list]. rewrite !app_nil_r. split_and!; [done| |by rewrite last_snoc].
      rewrite List.filter_app, Hf. by rewrite app_nil_r.
    + cbn [pending_regular option_list]. rewrite !app_nil_r. by split_and!.
Qed.

(** Throttling loses nothing that counts. What is emitted is part of the
    events, in their order; every event that is not a regular one (an error, the
    end, a file's boundary) is emitted; and the event in front of it is emitted
    too, right in front of it, so its counters are never stale. *)
Theorem throttling_keeps_what_counts events :
  let out := (emitter_run events SqlFileProgressEmitter_new).2 in
  out `sublist_of` events.*2
  ∧ List.filter is_immediate out = List.filter is_immediate events.*2
  ∧ (∀ before p q after, events.*2 = before ++ p :: q :: after → is_immediate q = true →
       ∃ o1 o2, out = o1 ++ p :: q :: o2).
Proof.
  cbv zeta. pose proof (emitter_state events) as H. destruct (emitter_run events SqlFileProgressEmitter_new) as [e out] eqn:E.
  destruct H as (Hsub & Himm & _). cbn [snd]. split_and!; [|done|].
  { etrans; [|exact Hsub]. apply sublist_inserts_r. reflexivity. }
  intros before p q after Hev Hq.
  assert (Hsplit : ∃ l1 t q' l2, events = l1 ++ (t, q') :: l2 ∧ l1.*2 = before ++ [p] ∧ q' = q).
  { change (before ++ p :: q :: after) with (before ++ [p] ++ q :: after) in Hev. rewrite app_assoc in Hev.
    apply fmap_app_inv in Hev as (l1 & l2 & Hl1 & Hl2 & ->). destruct l2 as [|[t q'] l2]; [done|]. rewrite fmap_cons in Hl2. injection Hl2 as <- _.
    exists l1, t, q, l2. by split_and!. }
  destruct Hsplit as (l1 & t & q' & l2 & -> & Hl1 & ->). pose proof (emitter_state l1) as H1. rewrite emitter_run_app in E.
  destruct (emitter_run l1 SqlFileProgressEmitter_new) as [e1 o1]. destruct H1 as (_ & _ & Hlast). rewrite Hl1, last_snoc in Hlast.
  cbn [emitter_run] in E. unfold emitter_emit in E. rewrite Hq in E. unfold flush_pending_at in E.
  destruct (pending_regular e1) as [p'|]; cbv iota beta in E.
  - destruct Hlast as [_ [= <-]]. destruct (emitter_run l2 _) as [e2 o2]. injection E as _ <-. exists o1, o2. done.
  - destruct (emitter_run l2 _) as [e2 o2]. injection E as _ <-. apply last_Some in Hlast as [o1' ->]. exists o1', o2. by rewrite <-app_assoc.
Qed.
