(* ===== verification/QueryTypes.v ===== *)
(** * Results of queries (types.rs, query.rs, sql.rs, db/mysql.rs)

    The result of a statement, the results of a batch as clients get them, the
    error texts of query.rs, and what the executors look at in a statement: its
    first keyword, and the catalog that is selected before it. *)
From S2P Require Import Prelude RustStr Json SqlText SqlSplit SqlGuard.

(** ** Results (types.rs) *)

Record SpatialColumn : Type := { column_index : nat; srid : option N }.
Abbreviation row := (list Value) (only parsing).

Record QueryResult : Type := mk_query_result {
  columns : list text; column_types : list text; column_sortables : list bool; spatial_columns : list SpatialColumn;
  spatial_values : list (list (option N)); rows : list row; affected_rows : Z; execution_time_ms : N; truncated : bool;
  session_id : option text; has_more : bool; elasticsearch_raw_body : option text
}.

(** The literal of query.rs for a statement without rows. *)
Definition rowless_result (affected : Z) (ms : N) : QueryResult :=
  mk_query_result [] [] [] [] [] [] affected ms false None false None.
Definition empty_query_result (ms : N) : QueryResult := rowless_result 0 ms.
Definition error_query_result (message : text) : QueryResult :=
  mk_query_result [c "Error"] [] [] [] [] [[VString (from_chars message)]] 0 0 false None false None.

(** ** Results of a batch (query.rs) *)

Record ExecuteMultiResult : Type := mk_multi_result {
  query_result : QueryResult; execution_error : bool; statement_index : option nat
}.
Definition execution_error_result (r : QueryResult) : ExecuteMultiResult := mk_multi_result r true None.
Definition execution_error_with_index (r : QueryResult) (i : nat) : ExecuteMultiResult := mk_multi_result r true (Some i).
Definition success_with_index (r : QueryResult) (i : nat) : ExecuteMultiResult := mk_multi_result r false (Some i).
Definition multi_result_from (r : QueryResult) : ExecuteMultiResult := mk_multi_result r false None.

Record ExecuteMultiProgress : Type := mk_multi_progress {
  progress_index : nat; completed : nat; progress_total : nat; success : bool; progress_ms : N; progress_affected : Z;
  progress_error : option text
}.
Definition execute_multi_progress (i total : nat) (r : QueryResult) (ok : bool) (error : option text) : ExecuteMultiProgress :=
  mk_multi_progress i (i + 1) total ok (execution_time_ms r) (affected_rows r) error.

Definition MAX_ROWS : nat := N.to_nat 10000.
Definition QUERY_CANCELED : text := c "Query canceled".
Definition SQL_OMITTED_ERROR_CONTEXT : text :=
  c "SQL text omitted from user-facing error; enable debug SQL diagnostics for a redacted statement.".

Definition query_error_with_omitted_sql_context (error : text) : text :=
  if contains_t error SQL_OMITTED_ERROR_CONTEXT then error else error ++ [10%N] ++ SQL_OMITTED_ERROR_CONTEXT.

Definition query_pool_database (database : text) (catalog : option text) : option text :=
  if text_eqb database [] || bool_decide (is_Some catalog) then None else Some database.

(** The statements of a text, split as its database reads them. *)
Definition statements_of `{SqlTokenizer} (sql : text) (db_type : option DatabaseType) : list text :=
  match db_type with
  | None => split_sql_statements sql
  | Some db_type => split_sql_statements_for_database sql db_type
  end.

(** The loop of [check_read_only_for_connection_multi]: the name and the type of
    a connection that is read-only. *)
Fixpoint check_all_read_only `{UnicodeCase, SqlTokenizer} (statements : list text) (config : option (string * DatabaseType)) : result unit text :=
  match config with
  | None => Ok ()
  | Some (name, db_type) =>
      match statements with
      | [] => Ok ()
      | sql :: statements' =>
          match check_read_only sql name db_type with
          | Err e => Err (c e)
          | Ok _ => check_all_read_only statements' config
          end
      end
  end.

(** [is_ok]. *)
Definition accepted {A E} (r : result A E) : bool := match r with Ok _ => true | Err _ => false end.

(** ** The first keyword of a statement (sql.rs) *)

(** Every turn drops a comment, so the length is enough fuel. *)
Fixpoint token_start (fuel : nat) (hash : bool) (l : text) : text :=
  let l := drop_while (λ x, is_ascii_whitespace x || (x =? 40)%N) l in
  match fuel with
  | 0 => l
  | S n =>
      match l with
      | 45%N :: 45%N :: r => token_start n hash (skip_to_newline r)
      | 35%N :: r => if hash then token_start n hash (skip_to_newline r) else l
      | 47%N :: 42%N :: 33%N :: r => drop_while (λ x, is_ascii_digit x || is_ascii_whitespace x) r
      | 47%N :: 42%N :: 77%N :: 33%N :: r => drop_while (λ x, is_ascii_digit x || is_ascii_whitespace x) r
      | 47%N :: 42%N :: r => match after_block_comment r with Some r' => token_start n hash r' | None => [] end
      | _ => l
      end
  end.

Definition first_executable_sql_token_with_options (sql : text) (p : SqlDialectProfile) : option text :=
  match (span_t (λ x, is_ascii_alphabetic x || (x =? 95)%N) (token_start (List.length sql) (supports_hash_line_comments p) sql)).1 with
  | [] => None
  | token => Some token
  end.

Definition executable_sql_keyword_matches (token keyword : text) : bool :=
  text_eq_ignore_ascii_case token keyword
  || text_eq_ignore_ascii_case keyword (c "DESCRIBE") && text_eq_ignore_ascii_case token (c "DESC").

Definition starts_with_executable_sql_keyword_with_options (sql : text) (keywords : list string) (p : SqlDialectProfile) : bool :=
  match first_executable_sql_token_with_options sql p with
  | None => false
  | Some token => existsb (λ keyword, executable_sql_keyword_matches token (c keyword)) keywords
  end.
Definition starts_with_executable_sql_keyword (sql : text) (keywords : list string) : bool :=
  starts_with_executable_sql_keyword_with_options sql keywords SqlDialectProfile_default.

(** ** Catalogs of MySQL-family servers (db/mysql.rs) *)

Inductive MySqlCatalogDialect : Type := DorisCatalog | StarRocksCatalog.
#[export] Instance catalog_dialect_eq_dec : EqDecision MySqlCatalogDialect.
Proof. solve_decision. Defined.

Definition mysql_catalog_dialect (db_type : DatabaseType) (driver_profile : option text) : option MySqlCatalogDialect :=
  match db_type with
  | Doris => Some DorisCatalog
  | StarRocks => Some StarRocksCatalog
  | _ =>
      let profile := fmap to_ascii_lowercase_c <$> driver_profile in
      if bool_decide (profile = Some (c "doris")) || bool_decide (profile = Some (c "selectdb")) then Some DorisCatalog
      else if bool_decide (profile = Some (c "starrocks")) then Some StarRocksCatalog
      else None
  end.

(** [replace('`', "``")], quoted. *)
Definition quote_identifier (s : text) : text := [BT] ++ (s ≫= λ x, if (x =? BT)%N then [BT; BT] else [x]) ++ [BT].

Definition catalog_switch_query (dialect : MySqlCatalogDialect) (catalog : text) : text :=
  match dialect with
  | DorisCatalog => c "SWITCH " ++ quote_identifier catalog
  | StarRocksCatalog => c "SET CATALOG " ++ quote_identifier catalog
  end.

Definition catalog_database_context_queries (dialect : option MySqlCatalogDialect) (catalog : option text) (database : text)
    : result (list text) text :=
  match catalog with
  | None => Ok []
  | Some catalog =>
      if text_eqb (trim_t catalog) [] then Ok []
      else match dialect with
           | None => Err (c "Catalog selection is only supported for Doris and StarRocks")
           | Some dialect =>
               Ok (catalog_switch_query dialect catalog
                   :: if text_eqb (trim_t database) [] then [] else [c "USE " ++ quote_identifier database])
           end
  end.

(** ** Facts *)

(** The note is attached once. *)
Lemma omitted_context_once error :
  query_error_with_omitted_sql_context (query_error_with_omitted_sql_context error) = query_error_with_omitted_sql_context error.
Proof.
  assert (∀ l p, contains_t (l ++ p) p = true) as Hc.
  { clear error. intros l p. induction l as [|x l IH]; simpl; [|by rewrite IH, orb_true_r].
    assert (starts_with_t p p = true) as Hp.
    { unfold starts_with_t. assert (strip_prefix_t p p = Some []) as ->; [|done]. induction p as [|x p IH]; [done|]. simpl. by rewrite N.eqb_refl. }
    destruct p; [done|]. cbn [app contains_t]. by rewrite Hp. }
  unfold query_error_with_omitted_sql_context. destruct (contains_t error SQL_OMITTED_ERROR_CONTEXT) eqn:E; [by rewrite E|].
  by rewrite app_assoc, Hc.
Qed.

Lemma keyword_examples :
  starts_with_executable_sql_keyword (c "/* q */ ( -- x
   select 1)") ["SELECT"] = true
  ∧ starts_with_executable_sql_keyword (c "/*!50001 desc t */") ["DESCRIBE"] = true
  ∧ starts_with_executable_sql_keyword (c "INSERT INTO t SELECT 1") ["SELECT"; "SHOW"] = false.
Proof. vm_compute. done. Qed.
