(* ===== verification/ManualTxn.v ===== *)
(** * Manual transactions (query.rs)

    A transaction that the user opens, works in, and commits or rolls back: it
    holds a connection in a map of sessions, which every handler reaches under a
    lock, and a background task rolls it back after five minutes without use.
    Handlers are programs over the calls [TxnE]; any number of them run at the
    same time, a step is one call of one of them. *)
From S2P Require Import Prelude RustStr Json SqlText SqlSplit SqlGuard QueryTypes Prog.

(** ** Sessions (connection.rs) *)

(** A connection is named by its checkout, and so is the mutex around it. *)
Inductive TxnConnection : Type := TxnPostgres (conn : nat) | TxnMysql (conn : nat).
#[export] Instance txn_connection_eq_dec : EqDecision TxnConnection.
Proof. solve_decision. Defined.
Definition conn_of (connection : TxnConnection) : nat := match connection with TxnPostgres n | TxnMysql n => n end.

Record TransactionSession : Type := mk_session {
  connection : TxnConnection; pool_key : string; last_activity : N; busy : bool; connection_id : string; database : text;
  schema : option text
}.
#[export] Instance session_eq_dec : EqDecision TransactionSession.
Proof. solve_decision. Defined.
Definition session_conn (s : TransactionSession) : nat := conn_of (connection s).
Definition touch (busy : bool) (now : N) (s : TransactionSession) : TransactionSession :=
  mk_session (connection s) (pool_key s) now busy (connection_id s) (database s) (schema s).

(** Milliseconds. *)
Definition TXN_IDLE_TIMEOUT : N := 300000.

(** ** What the handlers call *)

Inductive PoolKind : Type := PostgresPool | MysqlPool | OtherPool.
(** An error of mysql_async: whether its code is 1064, and its text. *)
Record DriverError : Type := { syntax_error : bool; error_text : text }.
(** What [query_iter] gives: the columns, the affected rows, the stream of rows
    ([None]: there is none), and how [drop_result] ends. *)
Record MysqlRows : Type := {
  iter_columns : list text; iter_types : list text; iter_affected : Z;
  iter_stream : result (option (list (result row text))) text; iter_drop : result unit text
}.
(** How a handler finds the session: missing, executing, idle for too long (it is
    removed), or now busy. *)
Inductive ClaimAnswer : Type := ClaimMissing | ClaimBusy | ClaimExpired (connection : TxnConnection) | Claimed.
#[export] Instance claim_answer_eq_dec : EqDecision ClaimAnswer.
Proof. solve_decision. Defined.

Inductive TxnE : Type → Type :=
| CatalogDialect (connection_id : string) : TxnE (option MySqlCatalogDialect)
| GetOrCreatePool (connection_id : string) (database : option text) : TxnE (result string text)
| LookupPool (pool_key : string) : TxnE (option PoolKind)
| GetConn (pool_key : string) : TxnE (result nat text)                 (* pool.get() *)
| SetSearchPath (conn : nat) (schema : text) : TxnE (result Z text)
| PgExecute (conn : nat) (sql : text) : TxnE (result Z text)
| PgSelect (conn : nat) (sql : text) (row_limit : nat) : TxnE (result QueryResult text)
| PgStream (conn : nat) (sql : text) : TxnE (list row * result unit text)
| QueryDrop (conn : nat) (sql : text) : TxnE (result unit DriverError)
| QueryIter (conn : nat) (sql : text) : TxnE (result MysqlRows text)
| Finish (conn : nat) (commit : bool) : TxnE (result unit text)        (* COMMIT or ROLLBACK *)
| Now : TxnE N
| DbTypeOf (connection_id : string) : TxnE (option DatabaseType)
| ReadOnlyConfig (pool_key : string) : TxnE (option (string * DatabaseType))
| InsertSession (session : TransactionSession) : TxnE string           (* the fresh uuid *)
| PeekSession (id : string) : TxnE (option TransactionSession)
| ClaimSession (id : string) : TxnE ClaimAnswer
| RemoveSession (id : string) : TxnE (option TransactionSession)
| ReleaseSession (id : string) : TxnE bool
| ExpireSession (id : string) : TxnE (option TransactionSession)
| LockConn (conn : nat) : TxnE unit
| UnlockConn (conn : nat) : TxnE unit                                  (* the guard is dropped *)
| SpawnWatcher (id : string) : TxnE unit
| StartSleep (duration : N) : TxnE N                                   (* the deadline *)
| SleepUntil (deadline : N) : TxnE unit
| OnBatch (rows : list row) : TxnE (result unit text).                 (* the callback *)

Abbreviation txn := (prog TxnE) (only parsing).

(** ** Beginning *)

Definition postgres_transaction_begin_sql (consistent_snapshot : bool) : text :=
  if consistent_snapshot then c "BEGIN TRANSACTION ISOLATION LEVEL REPEATABLE READ READ ONLY" else c "BEGIN".

Definition mysql_transaction_begin_sql_candidates (consistent_snapshot : bool) : list text :=
  if consistent_snapshot
  then [c "START TRANSACTION WITH CONSISTENT SNAPSHOT, READ ONLY"; c "START TRANSACTION WITH CONSISTENT SNAPSHOT";
        c "START TRANSACTION"]
  else [c "START TRANSACTION"].

Definition mysql_transaction_isolation_sql (consistent_snapshot : bool) : option text :=
  if consistent_snapshot then Some (c "SET TRANSACTION ISOLATION LEVEL REPEATABLE READ") else None.

Definition mysql_error_is_syntax_error (error : DriverError) : bool := syntax_error error.

(** [map_err] with a text before the error. *)
Definition err_after {A} (before : string) (r : result A text) : result A text :=
  match r with Ok a => Ok a | Err e => Err (c before ++ e) end.

Fixpoint run_context (conn : nat) (queries : list text) : txn (result unit text) :=
  match queries with
  | [] => Ret (Ok ())
  | query :: queries' =>
      r ← perform (QueryDrop conn query);
      match r with
      | Ok _ => run_context conn queries'
      | Err e => Ret (Err (c "Failed to select query catalog/database: " ++ error_text e))
      end
  end.
Definition apply_catalog_database_context (conn : nat) (dialect : option MySqlCatalogDialect) (catalog : option text)
    (database : text) : txn (result unit text) :=
  match catalog_database_context_queries dialect catalog database with
  | Err e => Ret (Err e)
  | Ok queries => run_context conn queries
  end.

(** The loop over the candidates; [inl] is the list of syntax errors. *)
Fixpoint try_begin (conn : nat) (candidates : list text) (syntax_errors : list text) : txn (list text + text) :=
  match candidates with
  | [] => Ret (inl syntax_errors)
  | begin_sql :: candidates' =>
      r ← perform (QueryDrop conn begin_sql);
      match r with
      | Ok _ => Ret (inl [])
      | Err error =>
          if mysql_error_is_syntax_error error
          then try_begin conn candidates' (syntax_errors ++ [begin_sql ++ c ": " ++ error_text error])
          else Ret (inr (c "START TRANSACTION failed: " ++ error_text error))
      end
  end.

(** A connection in a transaction, or an error; the connection goes back to its
    pool as it is. *)
Definition begin_postgres (key : string) (schema : option text) (consistent_snapshot : bool) : txn (result TxnConnection text) :=
  r ← perform (GetConn key);
  match r with
  | Err e => Ret (Err (c "Failed to get Postgres connection: " ++ e))
  | Ok conn =>
      r ← perform (PgExecute conn (postgres_transaction_begin_sql consistent_snapshot));
      match r with
      | Err e => Ret (Err (c "BEGIN failed: " ++ e))
      | Ok _ =>
          match schema with
          | None => Ret (Ok (TxnPostgres conn))
          | Some schema =>
              r ← perform (SetSearchPath conn schema);
              match r with
              | Err e => Ret (Err (c "SET search_path failed: " ++ e))
              | Ok _ => Ret (Ok (TxnPostgres conn))
              end
          end
      end
  end.

Definition begin_mysql (key : string) (dialect : option MySqlCatalogDialect) (catalog : option text) (database : text)
    (consistent_snapshot : bool) : txn (result TxnConnection text) :=
  r ← perform (GetConn key);
  match r with
  | Err e => Ret (Err (c "Failed to get MySQL connection: " ++ e))
  | Ok conn =>
      r ← apply_catalog_database_context conn dialect catalog database;
      match r with
      | Err e => Ret (Err e)
      | Ok _ =>
          isolated ← match mysql_transaction_isolation_sql consistent_snapshot with
                     | None => Ret (Ok ())
                     | Some isolation_sql =>
                         r ← perform (QueryDrop conn isolation_sql);
                         Ret (match r with Ok _ => Ok () | Err e => Err (c "SET TRANSACTION failed: " ++ error_text e) end)
                     end;
          match isolated with
          | Err e => Ret (Err e)
          | Ok _ =>
              started ← try_begin conn (mysql_transaction_begin_sql_candidates consistent_snapshot) [];
              match started with
              | inr e => Ret (Err e)
              | inl [] => Ret (Ok (TxnMysql conn))
              | inl syntax_errors =>
                  Ret (Err (c "START TRANSACTION failed for all compatible forms: " ++ join_t (c "; ") syntax_errors))
              end
          end
      end
  end.

Definition begin_transaction_session (connection_id : string) (database : text) (schema catalog : option text)
    (consistent_snapshot : bool) : txn (result string text) :=
  dialect ← perform (CatalogDialect connection_id);
  r ← perform (GetOrCreatePool connection_id (query_pool_database database catalog));
  match r with
  | Err e => Ret (Err e)
  | Ok key =>
      pool ← perform (LookupPool key);
      started ← match pool with
                | None => Ret (Err (c "Connection not found"))
                | Some PostgresPool => begin_postgres key schema consistent_snapshot
                | Some MysqlPool => begin_mysql key dialect catalog database consistent_snapshot
                | Some OtherPool => Ret (Err (c "Manual transaction is not supported for this database type"))
                end;
      match started with
      | Err e => Ret (Err e)
      | Ok connection =>
          now ← perform Now;
          id ← perform (InsertSession (mk_session connection key now false connection_id database schema));
          _ ← perform (SpawnWatcher id);
          Ret (Ok id)
      end
  end.

Definition begin_manual_transaction (connection_id : string) (database : text) (schema catalog : option text)
    : txn (result string text) := begin_transaction_session connection_id database schema catalog false.
Definition begin_database_backup_snapshot (connection_id : string) (database : text) : txn (result string text) :=
  begin_transaction_session connection_id database None None true.

(** ** Ending *)

Definition rollback_manual_txn_connection (connection : TxnConnection) : txn (result unit text) :=
  r ← perform (Finish (conn_of connection) false);
  Ret (err_after "ROLLBACK failed: " r).

Definition NOT_FOUND : text := c "Transaction session not found".
Definition EXPIRED_OR_MISSING : text :=
  c "Transaction session not found or expired; it may have been auto-rolled back due to inactivity".

Definition commit_manual_transaction (id : string) : txn (result QueryResult text) :=
  session ← perform (RemoveSession id);
  match session with
  | None => Ret (Err NOT_FOUND)
  | Some session =>
      _ ← perform (LockConn (session_conn session));
      r ← perform (Finish (session_conn session) true);
      _ ← perform (UnlockConn (session_conn session));
      Ret (match r with Ok _ => Ok (empty_query_result 0) | Err e => Err (c "COMMIT failed: " ++ e) end)
  end.

Definition rollback_manual_transaction (id : string) : txn (result QueryResult text) :=
  session ← perform (RemoveSession id);
  match session with
  | None => Ret (Err NOT_FOUND)
  | Some session =>
      _ ← perform (LockConn (session_conn session));
      r ← rollback_manual_txn_connection (connection session);
      _ ← perform (UnlockConn (session_conn session));
      Ret (match r with Ok _ => Ok (empty_query_result 0) | Err e => Err e end)
  end.

(** The task of [spawn_txn_idle_watcher]. *)
Definition idle_watcher (id : string) : txn unit :=
  deadline ← perform (StartSleep TXN_IDLE_TIMEOUT);
  _ ← perform (SleepUntil deadline);
  removed ← perform (ExpireSession id);
  match removed with
  | None => Ret ()
  | Some session =>
      _ ← perform (LockConn (session_conn session));
      _ ← rollback_manual_txn_connection (connection session);
      perform (UnlockConn (session_conn session))
  end.

(** ** Statements *)

Definition execute_manual_txn_postgres_statement (conn : nat) (sql : text) (row_limit : nat) : txn (result QueryResult text) :=
  if starts_with_executable_sql_keyword sql ["SELECT"; "SHOW"; "EXPLAIN"; "WITH"; "TABLE"]
  then perform (PgSelect conn sql row_limit)
  else
    r ← perform (PgExecute conn sql);
    Ret (match r with Ok affected => Ok (rowless_result affected 0) | Err e => Err (c "Query failed: " ++ e) end).

(** The loop over the stream: the rows taken, and whether there are more. *)
Fixpoint take_rows (row_limit : nat) (stream : list (result row text)) (data : list row) : result (list row * bool) text :=
  match stream with
  | [] => Ok (data, false)
  | item :: stream' =>
      if row_limit <=? List.length data then Ok (data, true)
      else match item with
           | Err e => Err (c "Query failed: " ++ e)
           | Ok r => take_rows row_limit stream' (data ++ [r])
           end
  end.

Definition mysql_rows_result (r : MysqlRows) (row_limit : nat) : result QueryResult text :=
  match iter_stream r with
  | Err e => Err (c "Query failed: " ++ e)
  | Ok None => Err (c "Empty result set stream")
  | Ok (Some stream) =>
      match take_rows row_limit stream [] with
      | Err e => Err e
      | Ok (data, truncated) =>
          Ok (mk_query_result (iter_columns r) (iter_types r) [] [] [] data 0 0 truncated None false None)
      end
  end.

(** The execution time is left at 0. *)
Definition execute_manual_txn_mysql_statement (conn : nat) (sql : text) (row_limit : nat) : txn (result QueryResult text) :=
  r ← perform (QueryIter conn sql);
  Ret (match r with
       | Err e => Err (c "Query failed: " ++ e)
       | Ok r =>
           if starts_with_executable_sql_keyword sql ["SELECT"; "SHOW"; "DESCRIBE"; "EXPLAIN"; "WITH"]
           then mysql_rows_result r row_limit
           else match iter_drop r with
                | Err e => Err (c "Query failed: " ++ e)
                | Ok _ => Ok (rowless_result (iter_affected r) 0)
                end
       end).

Definition execute_statement (connection : TxnConnection) (sql : text) (row_limit : nat) : txn (result QueryResult text) :=
  match connection with
  | TxnPostgres conn => execute_manual_txn_postgres_statement conn sql row_limit
  | TxnMysql conn => execute_manual_txn_mysql_statement conn sql row_limit
  end.

(** A failed statement ends the transaction: whoever removed the session rolls
    it back. *)
Definition remove_and_rollback (id : string) (connection : TxnConnection) : txn unit :=
  removed ← perform (RemoveSession id);
  match removed with
  | None => Ret ()
  | Some _ => _ ← rollback_manual_txn_connection connection; Ret ()
  end.

Definition failed_statement (i : nat) (e : text) : text :=
  c "Statement " ++ c (pretty (N.of_nat (i + 1))) ++ c " failed: " ++ e ++ c ". Transaction was auto-rolled back.".

Fixpoint run_statements (id : string) (connection : TxnConnection) (row_limit i : nat) (statements : list text)
    (results : list QueryResult) : txn (result (list QueryResult) text) :=
  match statements with
  | [] => Ret (Ok results)
  | statement :: statements' =>
      r ← execute_statement connection statement row_limit;
      match r with
      | Ok query_result => run_statements id connection row_limit (i + 1) statements' (results ++ [query_result])
      | Err e => _ ← remove_and_rollback id connection; Ret (Err (failed_statement i e))
      end
  end.

(** What [execute_in_manual_transaction] and [stream_rows_in_manual_transaction]
    do before and after they use the connection. *)
Definition with_claimed_session {A} (id : string) (body : TxnConnection → txn (result A text)) : txn (result A text) :=
  claim ← perform (ClaimSession id);
  match claim with
  | ClaimMissing => Ret (Err EXPIRED_OR_MISSING)
  | ClaimBusy => Ret (Err (c "Transaction session is already executing"))
  | ClaimExpired connection =>
      _ ← perform (LockConn (conn_of connection));
      _ ← rollback_manual_txn_connection connection;
      _ ← perform (UnlockConn (conn_of connection));
      Ret (Err (c "Transaction was auto-rolled back due to 5 minutes of inactivity"))
  | Claimed =>
      session ← perform (PeekSession id);
      match session with
      | None => Ret (Err EXPIRED_OR_MISSING)
      | Some session =>
          _ ← perform (LockConn (session_conn session));
          r ← body (connection session);
          _ ← perform (UnlockConn (session_conn session));
          match r with
          | Err e => Ret (Err e)
          | Ok a =>
              should_watch ← perform (ReleaseSession id);
              _ ← (if (should_watch : bool) then perform (SpawnWatcher id) else Ret ());
              Ret (Ok a)
          end
      end
  end.

Section handlers.
Context `{HU : UnicodeCase} `{HT : SqlTokenizer}.

Definition execute_in_manual_transaction (id : string) (sql : text) (max_rows : option nat)
    : txn (result (list QueryResult) text) :=
  session ← perform (PeekSession id);
  match session with
  | None => Ret (Err EXPIRED_OR_MISSING)
  | Some session =>
      db_type ← perform (DbTypeOf (connection_id session));
      match statements_of sql db_type with
      | [] => Ret (Ok [empty_query_result 0])
      | statements =>
          config ← perform (ReadOnlyConfig (pool_key session));
          match check_all_read_only statements config with
          | Err e => Ret (Err e)
          | Ok _ =>
              with_claimed_session id (λ connection,
                run_statements id connection (max (default MAX_ROWS max_rows) 1) 0 statements [])
          end
      end
  end.

(** ** Streaming *)

(** The loops of both drivers: full batches go to the callback, an error stops.
    The rows left over, and the number of rows. *)
Fixpoint deliver (batch_size : nat) (stream : list (result row text)) (batch : list row) (total : Z)
    : txn (result (list row * Z) text) :=
  match stream with
  | [] => Ret (Ok (batch, total))
  | Err e :: _ => Ret (Err e)
  | Ok r :: stream' =>
      if batch_size <=? List.length (batch ++ [r]) then
        sent ← perform (OnBatch (batch ++ [r]));
        match sent with
        | Err e => Ret (Err e)
        | Ok _ => deliver batch_size stream' [] (u64_add total 1)
        end
      else deliver batch_size stream' (batch ++ [r]) (u64_add total 1)
  end.
Definition deliver_all (batch_size : nat) (stream : list (result row text)) : txn (result Z text) :=
  r ← deliver batch_size stream [] 0;
  match r with
  | Err e => Ret (Err e)
  | Ok ([], total) => Ret (Ok total)
  | Ok (batch, total) =>
      sent ← perform (OnBatch batch);
      Ret (match sent with Ok _ => Ok total | Err e => Err e end)
  end.

Definition stream_rows (connection : TxnConnection) (sql : text) (batch_size : nat) : txn (result Z text) :=
  match connection with
  | TxnPostgres conn =>
      r ← perform (PgStream conn sql);
      deliver_all batch_size ((Ok <$> (r : list row * result unit text).1) ++ match (r : list row * result unit text).2 with Ok _ => [] | Err e => [Err e] end)
  | TxnMysql conn =>
      r ← perform (QueryIter conn sql);
      match r with
      | Err e => Ret (Err (c "Query failed: " ++ e))
      | Ok r =>
          match iter_stream r with
          | Err e => Ret (Err (c "Query failed: " ++ e))
          | Ok None => Ret (Err (c "Empty result set stream"))
          | Ok (Some stream) => deliver_all batch_size (err_after "Query failed: " <$> stream)
          end
      end
  end.

Definition stream_rows_in_manual_transaction (id : string) (sql : text) (batch_size : nat) : txn (result Z text) :=
  with_claimed_session id (λ connection,
    r ← stream_rows connection sql (max batch_size 1);
    match r with
    | Ok total => Ret (Ok total)
    | Err e => _ ← remove_and_rollback id connection; Ret (Err (e ++ c ". Transaction was auto-rolled back."))
    end).

(** ** Any number of handlers *)

Inductive Request : Type :=
| BeginRequest (connection_id : string) (database : text) (schema catalog : option text)
| SnapshotRequest (connection_id : string) (database : text)
| ExecuteRequest (id : string) (sql : text) (max_rows : option nat)
| StreamRequest (id : string) (sql : text) (batch_size : nat)
| CommitRequest (id : string)
| RollbackRequest (id : string).

Inductive Reply : Type :=
| Began (r : result string text)
| Executed (r : result (list QueryResult) text)
| Streamed (r : result Z text)
| Ended (r : result QueryResult text)
| Watched.

Definition replies {A} (f : A → Reply) (p : txn A) : txn Reply := a ← p; Ret (f a).

Definition handle (r : Request) : txn Reply :=
  match r with
  | BeginRequest id db schema catalog => replies Began (begin_manual_transaction id db schema catalog)
  | SnapshotRequest id db => replies Began (begin_database_backup_snapshot id db)
  | ExecuteRequest id sql max_rows => replies Executed (execute_in_manual_transaction id sql max_rows)
  | StreamRequest id sql batch_size => replies Streamed (stream_rows_in_manual_transaction id sql batch_size)
  | CommitRequest id => replies Ended (commit_manual_transaction id)
  | RollbackRequest id => replies Ended (rollback_manual_transaction id)
  end.
Definition watcher_thread (id : string) : txn Reply := replies (λ _, Watched) (idle_watcher id).

(** What was sent on which connection, and whether it was accepted. *)
Inductive Sent : Type :=
| SentSql (conn : nat) (sql : text) (accepted : bool)
| SentEnd (conn : nat) (commit accepted : bool).
#[export] Instance sent_eq_dec : EqDecision Sent.
Proof. solve_decision. Defined.

(** The map of sessions, the clock, the checkouts so far, the mutexes that are
    held; and, for the statements below, the connection of every session that
    was opened and what was sent. *)
Record World : Type := mk_world {
  sessions : gmap string TransactionSession; now : N; checkouts : nat; locks : gset nat; stopped : bool;
  opened : gmap string nat; sent : list Sent
}.
Definition set_sessions (m : gmap string TransactionSession) (w : World) : World :=
  mk_world m (now w) (checkouts w) (locks w) (stopped w) (opened w) (sent w).
Definition set_locks (l : gset nat) (w : World) : World :=
  mk_world (sessions w) (now w) (checkouts w) l (stopped w) (opened w) (sent w).
Definition log (e : Sent) (w : World) : World :=
  mk_world (sessions w) (now w) (checkouts w) (locks w) (stopped w) (opened w) (sent w ++ [e]).
Definition new_checkout (w : World) : World :=
  mk_world (sessions w) (now w) (S (checkouts w)) (locks w) (stopped w) (opened w) (sent w).
Definition open_session (id : string) (s : TransactionSession) (w : World) : World :=
  mk_world (<[id := s]> (sessions w)) (now w) (checkouts w) (locks w) (stopped w) (<[id := session_conn s]> (opened w)) (sent w).
Definition advance (d : N) (w : World) : World :=
  mk_world (sessions w) (now w + d) (checkouts w) (locks w) (stopped w) (opened w) (sent w).
(** [state.transaction_sessions.write().await.clear()] of [AppState::shutdown]. *)
Definition clear_sessions (w : World) : World :=
  mk_world ∅ (now w) (checkouts w) (locks w) true (opened w) (sent w).

Definition elapsed (s : TransactionSession) (w : World) : N := now w - last_activity s.

Definition claim (id : string) (w : World) : ClaimAnswer * World :=
  match sessions w !! id with
  | None => (ClaimMissing, w)
  | Some s =>
      if busy s then (ClaimBusy, w)
      else if (TXN_IDLE_TIMEOUT <? elapsed s w)%N then (ClaimExpired (connection s), set_sessions (delete id (sessions w)) w)
      else (Claimed, set_sessions (<[id := touch true (now w) s]> (sessions w)) w)
  end.
Definition remove (id : string) (w : World) : option TransactionSession * World :=
  (sessions w !! id, set_sessions (delete id (sessions w)) w).
Definition release (id : string) (w : World) : bool * World :=
  match sessions w !! id with
  | None => (false, w)
  | Some s => (true, set_sessions (<[id := touch false (now w) s]> (sessions w)) w)
  end.
Definition expire (id : string) (w : World) : option TransactionSession * World :=
  match sessions w !! id with
  | Some s =>
      if negb (busy s) && (TXN_IDLE_TIMEOUT <=? elapsed s w)%N then (Some s, set_sessions (delete id (sessions w)) w)
      else (None, w)
  | None => (None, w)
  end.

Definition determined {A} `{EqDecision A} (answer : A * World) (a : A) : option World :=
  if bool_decide (answer.1 = a) then Some answer.2 else None.
Definition guarded (b : bool) (w : World) : option World := if b then Some w else None.

(** The world after a call with its answer; [None]: the call waits, or has
    another answer. Drivers, pools and the configuration answer as they like. *)
Definition respond {B} (call : TxnE B) (w : World) : B → option World :=
  match call in TxnE B return B → option World with
  | CatalogDialect _ => λ _, Some w
  | GetOrCreatePool _ _ => λ _, Some w
  | LookupPool _ => λ _, Some w
  | DbTypeOf _ => λ _, Some w
  | ReadOnlyConfig _ => λ _, Some w
  | OnBatch _ => λ _, Some w
  | GetConn _ => λ r, match r with Err _ => Some w | Ok n => guarded (n =? checkouts w) (new_checkout w) end
  | SetSearchPath n schema => λ r, Some (log (SentSql n (c "SET search_path") (accepted r)) w)
  | PgExecute n sql => λ r, Some (log (SentSql n sql (accepted r)) w)
  | PgSelect n sql _ => λ r, Some (log (SentSql n sql (accepted r)) w)
  | PgStream n sql => λ r, Some (log (SentSql n sql (accepted r.2)) w)
  | QueryDrop n sql => λ r, Some (log (SentSql n sql (accepted r)) w)
  | QueryIter n sql => λ r, Some (log (SentSql n sql (accepted r)) w)
  | Finish n commit => λ r, Some (log (SentEnd n commit (accepted r)) w)
  | Now => determined (now w, w)
  | InsertSession s => λ id, guarded (bool_decide (opened w !! id = None)) (open_session id s w)
  | PeekSession id => determined (sessions w !! id, w)
  | ClaimSession id => determined (claim id w)
  | RemoveSession id => determined (remove id w)
  | ReleaseSession id => determined (release id w)
  | ExpireSession id => determined (expire id w)
  | LockConn n => λ _, guarded (bool_decide (n ∉ locks w)) (set_locks ({[n]} ∪ locks w) w)
  | UnlockConn n => λ _, Some (set_locks (locks w ∖ {[n]}) w)
  | SpawnWatcher _ => λ _, Some w
  | StartSleep d => determined ((now w + d)%N, w)
  | SleepUntil deadline => λ _, guarded (deadline <=? now w)%N w
  end.

Abbreviation Threads := (list (prog TxnE Reply)) (only parsing).
Definition spawned {B} (call : TxnE B) : Threads := match call with SpawnWatcher id => [watcher_thread id] | _ => [] end.

Inductive step : World * Threads → World * Threads → Prop :=
| step_request w ts r : step (w, ts) (w, ts ++ [handle r])
| step_time w ts d : step (w, ts) (advance d w, ts)
| step_shutdown w ts : step (w, ts) (clear_sessions w, ts)
| step_call w ts (i : nat) B (call : TxnE B) k b w' :
    ts !! i = Some (Do call k) → respond call w b = Some w' → step (w, ts) (w', <[i := k b]> ts ++ spawned call).

Definition initial : World * Threads := (mk_world ∅ 0 0 ∅ false ∅ [], []).
Definition reachable (s : World * Threads) : Prop := rtc step initial s.

(** ** What an execution sends *)

Definition sends (e : event TxnE) : option text :=
  match e with Ev (PgExecute _ sql) _ | Ev (PgSelect _ sql _) _ | Ev (QueryIter _ sql) _ => Some sql | _ => None end.
Definition finishes (e : event TxnE) : option bool := match e with Ev (Finish _ commit) _ => Some commit | _ => None end.
(** The statements that were sent, and how the transaction was ended. *)
Definition sent_texts (t : list (event TxnE)) : list text := omap sends t.
Definition sent_ends (t : list (event TxnE)) : list bool := omap finishes t.

Lemma sent_texts_snoc t e : sent_texts (t ++ [e]) = sent_texts t ++ omap sends [e].
Proof. apply omap_app. Qed.
Lemma sent_ends_snoc t e : sent_ends (t ++ [e]) = sent_ends t ++ omap finishes [e].
Proof. apply omap_app. Qed.

Lemma execute_statement_sends connection sql limit t :
  holds (execute_statement connection sql limit)
    (λ _ t', sent_texts t' = sent_texts t ++ [sql] ∧ sent_ends t' = sent_ends t ∧ t ⊆ t') t.
Proof.
  assert (∀ e, sends e = Some sql → finishes e = None →
    sent_texts (t ++ [e]) = sent_texts t ++ [sql] ∧ sent_ends (t ++ [e]) = sent_ends t ∧ t ⊆ t ++ [e]) as He.
  { intros e H1 H2. rewrite sent_texts_snoc, sent_ends_snoc. simpl. rewrite H1, H2, app_nil_r. split_and!; [done..|set_solver]. }
  destruct connection; cbn [execute_statement]; [|intros b; by apply He].
  unfold execute_manual_txn_postgres_statement. case_match; intros b; by apply He.
Qed.

(** How a list of statements ends. *)
Definition statements_end (id : string) (i : nat) (ss : list text) (results : list QueryResult) (t : list (event TxnE))
    (r : result (list QueryResult) text) (t' : list (event TxnE)) : Prop :=
  match r with
  | Ok rs => sent_texts t' = sent_texts t ++ ss ∧ sent_ends t' = sent_ends t ∧ List.length rs = List.length results + List.length ss
  | Err e =>
      ∃ j e', j < List.length ss ∧ e = failed_statement (i + j) e' ∧ sent_texts t' = sent_texts t ++ take (S j) ss
              ∧ (sent_ends t' = sent_ends t ++ [false] ∨ sent_ends t' = sent_ends t ∧ Ev (RemoveSession id) None ∈ t')
  end ∧ t ⊆ t'.

Lemma run_statements_end id connection limit i ss results t :
  holds (run_statements id connection limit i ss results) (statements_end id i ss results t) t.
Proof.
  revert i results t. induction ss as [|sql ss IH]; intros i results t.
  { simpl. unfold statements_end. rewrite app_nil_r. split; [split_and!; [done..|simpl; lia]|done]. }
  cbn [run_statements]. prog_simpl. apply holds_bind. eapply holds_mono; [apply execute_statement_sends|]. intros r t1 (Hs & He & Hsub).
  destruct r as [r|e].
  - eapply holds_mono; [apply IH|]. intros [rs|e] t2; unfold statements_end.
    + intros [(Hs2 & He2 & Hl) Hsub2]. rewrite Hs2, Hs, He2, He, <-app_assoc. rewrite length_app in Hl. simpl in *.
      split; [split_and!; [done..|lia]|by etrans].
    + intros [(j & e' & Hj & -> & Hs2 & He2) Hsub2]. split; [|by etrans]. exists (S j), e'. simpl. split_and!; [lia|f_equal; lia| |].
      * by rewrite Hs2, Hs, <-app_assoc.
      * by rewrite <-He.
  - unfold remove_and_rollback. prog_simpl. intros removed.
    assert (∀ t2, sent_texts t2 = sent_texts t1 → t1 ⊆ t2 →
      (sent_ends t2 = sent_ends t1 ++ [false] ∨ sent_ends t2 = sent_ends t1 ∧ Ev (RemoveSession id) None ∈ t2) →
      statements_end id i (sql :: ss) results t (Err (failed_statement i e)) t2) as Hend.
    { intros t2 Hs2 Hsub2 He2. split; [|by etrans]. exists 0, e. rewrite Nat.add_0_r, Hs2, Hs, <-He.
      split_and!; [simpl; lia|done..]. }
    destruct removed as [s|]; simpl; [intros b|]; apply Hend; rewrite ?sent_texts_snoc, ?sent_ends_snoc; simpl; rewrite ?app_nil_r;
      first [done|by left|set_solver].
Qed.

Definition execution_outcome (id sql : _) (r : result (list QueryResult) text) (t : list (event TxnE)) : Prop :=
  match r with
  | Ok results =>
      ∃ db_type key, Ev (DbTypeOf key) db_type ∈ t ∧ sent_texts t = statements_of sql db_type ∧ sent_ends t = []
        ∧ if decide (statements_of sql db_type = []) then results = [empty_query_result 0]
          else List.length results = List.length (statements_of sql db_type)
  | Err e =>
      sent_texts t = []
      ∨ ∃ db_type key i e', Ev (DbTypeOf key) db_type ∈ t ∧ i < List.length (statements_of sql db_type)
          ∧ e = failed_statement i e' ∧ sent_texts t = take (S i) (statements_of sql db_type)
          ∧ (sent_ends t = [false] ∨ sent_ends t = [] ∧ Ev (RemoveSession id) None ∈ t)
  end.

(** An execution in a manual transaction, whatever the drivers answer and
    whatever happens to its session meanwhile: on success every statement of the
    text was sent once, in order, with one result each, and nothing ended the
    transaction; on failure nothing was sent, or the statements up to the failed
    one, whose number the error names, and then ROLLBACK, unless another handler
    had taken the session. *)
Theorem execution_sends_statements id sql max_rows :
  holds (execute_in_manual_transaction id sql max_rows) (execution_outcome id sql) [].
Proof.
  unfold execute_in_manual_transaction. prog_simpl. intros session. destruct session as [session|]; [|by left].
  intros db_type. destruct (statements_of sql db_type) as [|first rest] eqn:Hss.
  { exists db_type, (connection_id session). rewrite Hss, decide_True by done. split_and!; [set_solver|done..]. }
  intros config. destruct (check_all_read_only _ _); [|by left]. unfold with_claimed_session. prog_simpl. intros claim.
  destruct claim as [| |connection|]; [by left|by left|intros ? ? ?; by left|]. intros peeked. destruct peeked as [peeked|]; [|by left].
  intros locked. apply holds_bind. rewrite <-Hss. eapply holds_mono; [apply run_statements_end|]. intros [results|e] t1 [Hend Hsub].
  - destruct Hend as (Hs & He & Hl). intros unlocked released. assert (Ev (DbTypeOf (connection_id session)) db_type ∈ t1) as Hin by set_solver.
    destruct released; simpl; [intros spawned|]; (exists db_type, (connection_id session); rewrite ?sent_texts_snoc, ?sent_ends_snoc, Hs, He;
      rewrite decide_False by (by rewrite Hss); simpl; rewrite ?app_nil_r; split_and!; [set_solver|done..]).
  - destruct Hend as (j & e' & Hj & -> & Hs & He). intros unlocked. right. exists db_type, (connection_id session), j, e'.
    rewrite ?sent_texts_snoc, ?sent_ends_snoc, Hs. simpl. rewrite ?app_nil_r. split_and!; [set_solver|done..|].
    destruct He as [He|[He Hrm]]; [by left|right]. split; [done|set_solver].
Qed.
End handlers.
