(* ===== verification/TxnOwnership.v ===== *)
(** * Who ends a manual transaction (query.rs)

    Handlers of ManualTxn run at the same time on one map of sessions. Each is
    checked once, alone, against the duties it may take over and has to discharge
    ([fine]); the invariant of all reachable worlds follows for any number of
    them: a transaction is ended once, nobody waits for ever, and none is left. *)
From S2P Require Import Prelude RustStr Json SqlText SqlSplit SqlGuard QueryTypes Prog ManualTxn.

(** ** What a handler holds *)

Inductive Sleep : Type := Fresh | Until (d : N) | Awake (d : N).

(** The connection it opens, the mutex it holds, the connection it has to end,
    the session it made busy, the session it has to spawn a watcher for, the
    session it watches, a session it looked up, and a time it read. *)
Record Ghost : Type := mk_ghost {
  g_open : option nat; g_hold : option nat; g_duty : option nat; g_claim : option string; g_spawn : option string;
  g_watch : option (string * Sleep); g_peek : option (string * nat); g_now : option N
}.
Definition idle : Ghost := mk_ghost None None None None None None None None.
Definition watching (id : string) : Ghost := mk_ghost None None None None None (Some (id, Fresh)) None None.
Definition set_open x g := mk_ghost x (g_hold g) (g_duty g) (g_claim g) (g_spawn g) (g_watch g) (g_peek g) (g_now g).
Definition set_hold x g := mk_ghost (g_open g) x (g_duty g) (g_claim g) (g_spawn g) (g_watch g) (g_peek g) (g_now g).
Definition set_duty x g := mk_ghost (g_open g) (g_hold g) x (g_claim g) (g_spawn g) (g_watch g) (g_peek g) (g_now g).
Definition set_claim x g := mk_ghost (g_open g) (g_hold g) (g_duty g) x (g_spawn g) (g_watch g) (g_peek g) (g_now g).
Definition set_spawn x g := mk_ghost (g_open g) (g_hold g) (g_duty g) (g_claim g) x (g_watch g) (g_peek g) (g_now g).
Definition set_watch x g := mk_ghost (g_open g) (g_hold g) (g_duty g) (g_claim g) (g_spawn g) x (g_peek g) (g_now g).
Definition set_peek x g := mk_ghost (g_open g) (g_hold g) (g_duty g) (g_claim g) (g_spawn g) (g_watch g) x (g_now g).
Definition set_now x g := mk_ghost (g_open g) (g_hold g) (g_duty g) (g_claim g) (g_spawn g) (g_watch g) (g_peek g) x.

Definition uses (g : Ghost) (n : nat) : Prop := g_open g = Some n ∨ g_hold g = Some n.

(** The calls it may make, *)
Definition allowed {B} (g : Ghost) (call : TxnE B) : Prop :=
  match call with
  | GetConn _ => g_open g = None
  | SetSearchPath n _ | PgExecute n _ | PgSelect n _ _ | PgStream n _ | QueryDrop n _ | QueryIter n _ => uses g n
  | Finish n _ => g_hold g = Some n ∧ g_duty g = Some n
  | InsertSession s =>
      g_open g = Some (session_conn s) ∧ busy s = false ∧ g_now g = Some (last_activity s) ∧ g_spawn g = None
  | ClaimSession _ => g_claim g = None ∧ g_duty g = None
  | RemoveSession id => g_duty g = None ∧ (g_claim g = None ∨ g_claim g = Some id)
  | ReleaseSession id => g_claim g = Some id ∧ g_spawn g = None
  | ExpireSession id => g_duty g = None ∧ ∃ d, g_watch g = Some (id, Awake d)
  | LockConn _ => g_hold g = None
  | UnlockConn n => g_hold g = Some n
  | SpawnWatcher id => g_spawn g = Some id
  | StartSleep d => d = TXN_IDLE_TIMEOUT ∧ ∃ id, g_watch g = Some (id, Fresh)
  | SleepUntil d => ∃ id, g_watch g = Some (id, Until d)
  | _ => True
  end.
(** the answers it may get, *)
Definition plausible {B} (g : Ghost) (call : TxnE B) : B → Prop :=
  match call in TxnE B return B → Prop with
  | RemoveSession id => λ r, ∀ s n, r = Some s → g_peek g = Some (id, n) → session_conn s = n
  | _ => λ _, True
  end.
(** and what it holds then. *)
Definition drop_claim (id : string) (g : Ghost) : Ghost := if bool_decide (g_claim g = Some id) then set_claim None g else g.
Definition owe (session : option TransactionSession) (g : Ghost) : Ghost :=
  match session with Some s => set_duty (Some (session_conn s)) g | None => g end.
Definition after {B} (g : Ghost) (call : TxnE B) : B → Ghost :=
  match call in TxnE B return B → Ghost with
  | GetConn _ => λ r, match r with Ok n => set_open (Some n) g | Err _ => g end
  | Now => λ t, set_now (Some t) g
  | InsertSession _ => λ id, set_open None (set_spawn (Some id) g)
  | PeekSession id => λ r, match r with Some s => set_peek (Some (id, session_conn s)) g | None => drop_claim id g end
  | ClaimSession id => λ a, match a with
                            | Claimed => set_claim (Some id) g
                            | ClaimExpired connection => set_duty (Some (conn_of connection)) g
                            | _ => g
                            end
  | RemoveSession id => λ r, owe r (drop_claim id g)
  | ReleaseSession id => λ b, set_claim None (if b then set_spawn (Some id) g else g)
  | ExpireSession id => λ r, set_watch None (owe r g)
  | Finish _ _ => λ _, set_duty None g
  | LockConn n => λ _, set_hold (Some n) g
  | UnlockConn _ => λ _, set_hold None g
  | SpawnWatcher _ => λ _, set_spawn None g
  | StartSleep _ => λ t, match g_watch g with Some (id, _) => set_watch (Some (id, Until t)) g | None => g end
  | SleepUntil d => λ _, match g_watch g with Some (id, _) => set_watch (Some (id, Awake d)) g | None => g end
  | _ => λ _, g
  end.

Fixpoint fine {A} (Q : A → Ghost → Prop) (g : Ghost) (p : prog TxnE A) : Prop :=
  match p with
  | Ret a => Q a g
  | Do call k => allowed g call ∧ ∀ b, plausible g call b → fine Q (after g call b) (k b)
  end.

(** A handler that returned has nothing left to do; a connection that was not
    made a session is given back. *)
Definition finished (g : Ghost) : Prop :=
  g_hold g = None ∧ g_duty g = None ∧ g_claim g = None ∧ g_spawn g = None ∧ g_watch g = None.

Lemma fine_bind {A C} (Q : C → Ghost → Prop) g (p : prog TxnE A) (f : A → prog TxnE C) :
  fine (λ a g', fine Q g' (f a)) g p → fine Q g (prog_bind p f).
Proof.
  revert g. induction p as [a|B call k IH]; intros g H; [done|]. destruct H as [Ha Hk]. split; [done|]. intros b Hb. by apply IH, Hk.
Qed.

Lemma fine_mono {A} (Q R : A → Ghost → Prop) g (p : prog TxnE A) : fine Q g p → (∀ a g', Q a g' → R a g') → fine R g p.
Proof.
  intros H HQ. revert g H. induction p as [a|B call k IH]; intros g H; [by apply HQ|]. destruct H as [Ha Hk]. split; [done|].
  intros b Hb. by apply IH, Hk.
Qed.

(** ** Each handler alone *)

(** Programs that leave everything as it is. *)
Abbreviation steady g p := (fine (λ _ g', g' = g) g p) (only parsing).

Lemma steady_bind {A C} (Q : C → Ghost → Prop) g (p : prog TxnE A) (f : A → prog TxnE C) :
  steady g p → (∀ a, fine Q g (f a)) → fine Q g (prog_bind p f).
Proof. intros Hp Hf. apply fine_bind. eapply fine_mono; [exact Hp|]. intros a g' ->. apply Hf. Qed.

Ltac ghost_simpl :=
  cbn [fine allowed after plausible idle watching set_open set_hold set_duty set_claim set_spawn set_watch set_peek set_now
       g_open g_hold g_duty g_claim g_spawn g_watch g_peek g_now].
Ltac fine_do := prog_simpl; ghost_simpl; split; [|intros ? ?].

Lemma fine_context g n queries : uses g n → steady g (run_context n queries).
Proof.
  intros Hn. induction queries as [|query queries IH]; [done|]. cbn [run_context]. fine_do; [done|]. by case_match.
Qed.

Lemma fine_apply_context g n dialect catalog db : uses g n → steady g (apply_catalog_database_context n dialect catalog db).
Proof. intros Hn. unfold apply_catalog_database_context. case_match; [by apply fine_context|done]. Qed.

Lemma fine_try_begin g n candidates errors : uses g n → steady g (try_begin n candidates errors).
Proof.
  intros Hn. revert errors. induction candidates as [|sql candidates IH]; intros errors; [done|]. cbn [try_begin].
  fine_do; [done|]. case_match; [done|]. case_match; [apply IH|done].
Qed.

(** A connection that was opened is the one of the handler. *)
Definition opened_by (r : result TxnConnection text) (g : Ghost) : Prop :=
  match r with Ok connection => g = set_open (Some (conn_of connection)) idle | Err _ => finished g end.

Lemma fine_begin_postgres key schema snapshot : fine opened_by idle (begin_postgres key schema snapshot).
Proof.
  unfold begin_postgres. fine_do; [done|]. case_match; [|done]. fine_do; [by left|]. case_match; [|done].
  case_match; [|done]. fine_do; [by left|]. by case_match.
Qed.

Lemma fine_begin_mysql key dialect catalog db snapshot : fine opened_by idle (begin_mysql key dialect catalog db snapshot).
Proof.
  unfold begin_mysql. fine_do; [done|]. destruct b as [n|e]; [|done]. prog_simpl.
  apply steady_bind; [apply fine_apply_context; by left|]. intros [_|e]; [|done].
  apply steady_bind.
  { destruct (mysql_transaction_isolation_sql snapshot); [|done]. fine_do; [by left|done]. }
  intros [_|e]; [|done]. apply steady_bind; [apply fine_try_begin; by left|]. by intros [[|]|].
Qed.

Lemma fine_begin id db schema catalog snapshot :
  fine (λ _, finished) idle (begin_transaction_session id db schema catalog snapshot).
Proof.
  unfold begin_transaction_session. fine_do; [done|]. fine_do; [done|]. case_match; [|done]. fine_do; [done|]. prog_simpl.
  apply fine_bind. apply (fine_mono opened_by).
  - repeat case_match; first [done|apply fine_begin_postgres|apply fine_begin_mysql].
  - intros [connection|e] g Hg; [|done]. cbn in Hg. subst g. fine_do; [done|]. fine_do; [by destruct connection|]. by fine_do.
Qed.

Lemma fine_rollback g connection :
  g_hold g = Some (conn_of connection) → g_duty g = Some (conn_of connection) →
  fine (λ _ g', g' = set_duty None g) g (rollback_manual_txn_connection connection).
Proof. intros Hh Hd. unfold rollback_manual_txn_connection. by fine_do. Qed.

(** Lock, roll back, unlock. *)
Lemma fine_discharge {A} (Q : A → Ghost → Prop) g connection (a : result unit text → A) :
  g_duty g = Some (conn_of connection) → g_hold g = None →
  (∀ r, Q (a r) (set_hold None (set_duty None (set_hold (Some (conn_of connection)) g)))) →
  fine Q g (_ ← perform (LockConn (conn_of connection)); r ← rollback_manual_txn_connection connection;
            _ ← perform (UnlockConn (conn_of connection)); Ret (a r)).
Proof.
  intros Hd Hh HQ. fine_do; [done|]. prog_simpl. apply fine_bind. eapply fine_mono; [by apply fine_rollback|].
  intros r g' ->. fine_do; [done|]. apply HQ.
Qed.

Lemma fine_commit id : fine (λ _, finished) idle (commit_manual_transaction id).
Proof.
  unfold commit_manual_transaction. fine_do; [by split; [|left]|]. case_match; [|done]. fine_do; [done|]. fine_do; [done|]. by fine_do.
Qed.

Lemma fine_rollback_transaction id : fine (λ _, finished) idle (rollback_manual_transaction id).
Proof.
  unfold rollback_manual_transaction. fine_do; [by split; [|left]|]. case_match; [|done].
  by apply (fine_discharge _ _ _ (λ r, match r with Ok _ => Ok (empty_query_result 0) | Err e => Err e end)).
Qed.

Lemma fine_watcher id : fine (λ _, finished) (watching id) (idle_watcher id).
Proof.
  unfold idle_watcher. fine_do; [by eauto|]. fine_do; [by eauto|]. fine_do; [by eauto|]. case_match; [|done].
  fine_do; [done|]. prog_simpl. apply fine_bind. eapply fine_mono; [by apply fine_rollback|]. intros r g' ->. by fine_do.
Qed.

Lemma fine_statement g connection sql limit :
  g_hold g = Some (conn_of connection) → steady g (execute_statement connection sql limit).
Proof.
  intros Hh. destruct connection; cbn [execute_statement conn_of] in *; [|by fine_do; [right|]].
  unfold execute_manual_txn_postgres_statement. case_match; by fine_do; [right|].
Qed.


(** The session that was claimed is looked up, and its mutex is held; an error
    has to leave nothing but the mutex. *)
Definition at_work (id : string) (n : nat) : Ghost := mk_ghost None (Some n) None (Some id) None None (Some (id, n)) None.
Definition worked {A} (id : string) (n : nat) (r : result A text) (g : Ghost) : Prop :=
  match r with Ok _ => g = at_work id n | Err _ => finished (set_hold None g) ∧ g_hold g = Some n end.

Lemma fine_remove_and_rollback {A} id connection (e : text) :
  fine (λ r g, worked (A := A) id (conn_of connection) r g) (at_work id (conn_of connection))
    (_ ← remove_and_rollback id connection; Ret (Err e)).
Proof.
  unfold remove_and_rollback. fine_do; [by split; [|right]|]. destruct b as [s|].
  - pose proof (H s (conn_of connection) eq_refl eq_refl) as Hs. cbn [owe]. rewrite Hs. unfold drop_claim.
    rewrite bool_decide_eq_true_2 by done. prog_simpl. apply fine_bind. apply fine_bind. eapply fine_mono; [by apply fine_rollback|].
    by intros r g ->.
  - cbn [owe prog_bind fine]. unfold drop_claim. by rewrite bool_decide_eq_true_2.
Qed.

Lemma fine_run_statements id connection limit i statements results :
  fine (worked id (conn_of connection)) (at_work id (conn_of connection)) (run_statements id connection limit i statements results).
Proof.
  revert i results. induction statements as [|sql statements IH]; intros i results; [done|]. cbn [run_statements]. prog_simpl.
  apply steady_bind; [by apply fine_statement|]. intros [r|e]; [apply IH|]. apply fine_remove_and_rollback.
Qed.

Lemma fine_claimed {A} id (body : TxnConnection → txn (result A text)) :
  (∀ connection, fine (worked id (conn_of connection)) (at_work id (conn_of connection)) (body connection)) →
  ∀ peek, fine (λ _, finished) (set_peek peek idle) (with_claimed_session id body).
Proof.
  intros Hbody peek. unfold with_claimed_session. fine_do; [done|]. destruct b as [| |connection|]; [done|done| |].
  - by apply (fine_discharge _ _ _ (λ _, Err _)).
  - fine_do; [done|]. destruct b as [s|].
    + fine_do; [done|]. prog_simpl. apply fine_bind. eapply fine_mono; [apply (Hbody (connection s))|]. intros [a|e] g Hg; cbn [worked] in Hg.
      * subst g. fine_do; [done|]. fine_do; [done|]. destruct b1; [by fine_do|done].
      * destruct Hg as [Hg Hh]. by fine_do.
    + cbn [fine]. unfold drop_claim. by rewrite bool_decide_eq_true_2.
Qed.

Section handlers.
Context `{HU : UnicodeCase} `{HT : SqlTokenizer}.

Lemma fine_execute id sql max_rows : fine (λ _, finished) idle (execute_in_manual_transaction id sql max_rows).
Proof.
  unfold execute_in_manual_transaction. fine_do; [done|]. destruct b as [s|]; [|done]. fine_do; [done|].
  destruct (statements_of sql b) as [|first rest]; [done|]. fine_do; [done|]. case_match; [|done].
  apply fine_claimed. intros connection. apply fine_run_statements.
Qed.

Lemma fine_deliver g batch_size stream batch total : steady g (deliver batch_size stream batch total).
Proof.
  revert batch total. induction stream as [|[r|e] stream IH]; intros batch total; [done| |done]. cbn [deliver].
  case_match; [|apply IH]. fine_do; [done|]. case_match; [apply IH|done].
Qed.
Lemma fine_deliver_all g batch_size stream : steady g (deliver_all batch_size stream).
Proof.
  unfold deliver_all. prog_simpl. apply steady_bind; [apply fine_deliver|]. intros [[[|row batch] total]|e]; [done| |done]. by fine_do.
Qed.
Lemma fine_stream_rows g connection sql batch_size :
  g_hold g = Some (conn_of connection) → steady g (stream_rows connection sql batch_size).
Proof.
  intros Hh. destruct connection; cbn [stream_rows conn_of] in *; (fine_do; [by right|]); [apply fine_deliver_all|].
  repeat case_match; first [done|apply fine_deliver_all].
Qed.

Lemma fine_stream id sql batch_size : fine (λ _, finished) idle (stream_rows_in_manual_transaction id sql batch_size).
Proof.
  apply (fine_claimed id _) with (peek := None). intros connection. prog_simpl.
  apply steady_bind; [by apply fine_stream_rows|]. intros [total|e]; [done|]. apply (fine_remove_and_rollback (A := Z)).
Qed.

Lemma fine_replies {A} (f : A → Reply) g (p : txn A) :
  fine (λ _, finished) g p → fine (λ _, finished) g (replies f p).
Proof. intros H. unfold replies. prog_simpl. apply fine_bind. eapply fine_mono; [exact H|]. done. Qed.

Lemma fine_handle r : fine (λ _, finished) idle (handle r).
Proof.
  destruct r; apply fine_replies; first [apply fine_begin|apply fine_execute|apply fine_stream|apply fine_commit|apply fine_rollback_transaction].
Qed.
Lemma fine_watcher_thread id : fine (λ _, finished) (watching id) (watcher_thread id).
Proof. apply fine_replies, fine_watcher. Qed.
End handlers.

(** ** All handlers together *)

(** Where a connection is: nobody has it, a handler opens it, it is in the map, a
    handler has to end it, it was ended, or the map was cleared. *)
Inductive Place : Type := Nowhere | Opening (i : nat) | InMap (id : string) | Owed (i : nat) | Done | Cleared.
#[export] Instance place_eq_dec : EqDecision Place.
Proof. solve_decision. Defined.

Definition upd {A} (i : nat) (a : A) (f : nat → A) (j : nat) : A := if decide (j = i) then a else f j.
Lemma upd_eq {A} i (a : A) f : upd i a f i = a.
Proof. unfold upd. by rewrite decide_True. Qed.
Lemma upd_ne {A} i j (a : A) f : j ≠ i → upd i a f j = f j.
Proof. intros H. unfold upd. by rewrite decide_False. Qed.
Ltac upd_simpl := unfold upd in *; repeat case_decide; simplify_eq/=.

Definition is_end (n : nat) (e : Sent) : bool := match e with SentEnd m _ _ => n =? m | _ => false end.
(** How often COMMIT or ROLLBACK was sent by the handlers on a connection. *)
Definition ends (n : nat) (l : list Sent) : nat := List.length (List.filter (is_end n) l).
Lemma ends_snoc n l e : ends n (l ++ [e]) = ends n l + if is_end n e then 1 else 0.
Proof. unfold ends. rewrite List.filter_app, length_app. simpl. by destruct (is_end n e). Qed.

(** A handler that will spawn a watcher, or a watcher that wakes up when the
    session has not been used for long enough. *)
Definition responsible (g : Ghost) (id : string) (last : N) : Prop :=
  g_spawn g = Some id ∨ g_watch g = Some (id, Fresh)
  ∨ ∃ d, (g_watch g = Some (id, Until d) ∨ g_watch g = Some (id, Awake d)) ∧ (last + TXN_IDLE_TIMEOUT ≤ d)%N.

Record Inv (w : World) (gs : nat → Ghost) (place : nat → Place) : Prop := {
  inv_now i t : g_now (gs i) = Some t → (t ≤ now w)%N;
  inv_awake i id d : g_watch (gs i) = Some (id, Awake d) → (d ≤ now w)%N;
  inv_hold i n : g_hold (gs i) = Some n → n ∈ locks w;
  inv_lock n : n ∈ locks w → ∃ i, g_hold (gs i) = Some n;
  inv_excl i j n : g_hold (gs i) = Some n → g_hold (gs j) = Some n → i = j;
  inv_open i n : g_open (gs i) = Some n → place n = Opening i;
  inv_duty i n : g_duty (gs i) = Some n → place n = Owed i;
  inv_owed i n : place n = Owed i → g_duty (gs i) = Some n;
  inv_map id s : sessions w !! id = Some s → place (session_conn s) = InMap id;
  inv_in id n : place n = InMap id → ∃ s, sessions w !! id = Some s ∧ session_conn s = n;
  inv_ends n : ends n (sent w) = if decide (place n = Done) then 1 else 0;
  inv_cleared n : place n = Cleared → stopped w = true;
  inv_fresh n : checkouts w ≤ n → place n = Nowhere;
  inv_opened id n : opened w !! id = Some n →
    place n ≠ Nowhere ∧ (∀ i, place n ≠ Opening i) ∧ ∀ id', place n = InMap id' → id' = id;
  inv_session id s : sessions w !! id = Some s → opened w !! id = Some (session_conn s);
  inv_peek i id n : g_peek (gs i) = Some (id, n) → opened w !! id = Some n;
  inv_last id s : sessions w !! id = Some s → (last_activity s ≤ now w)%N;
  inv_busy id s : sessions w !! id = Some s → busy s = true → ∃ i, g_claim (gs i) = Some id;
  inv_idle id s : sessions w !! id = Some s → busy s = false → ∃ i, responsible (gs i) id (last_activity s)
}.

(** A handler changes what it holds, but not the connection it opens, holds or
    has to end; the sessions keep somebody who is responsible. *)
Lemma inv_same_place w gs place i g' :
  Inv w gs place → g_open g' = g_open (gs i) → g_hold g' = g_hold (gs i) → g_duty g' = g_duty (gs i) →
  (∀ t, g_now g' = Some t → (t ≤ now w)%N) → (∀ id d, g_watch g' = Some (id, Awake d) → (d ≤ now w)%N) →
  (∀ id n, g_peek g' = Some (id, n) → opened w !! id = Some n) →
  (∀ id s, sessions w !! id = Some s → busy s = true → g_claim (gs i) = Some id → g_claim g' = Some id) →
  (∀ id s, sessions w !! id = Some s → busy s = false → responsible (gs i) id (last_activity s) →
           ∃ j, responsible (upd i g' gs j) id (last_activity s)) →
  Inv w (upd i g' gs) place.
Proof.
  intros [] Ho Hh Hd Hnow Hawake Hpeek Hclaim Hresp.
  assert (∀ j, g_hold (upd i g' gs j) = g_hold (gs j)) as Hh' by (intros j; by upd_simpl).
  constructor; intros; try (rewrite ?Hh' in *; eauto; fail); try (upd_simpl; rewrite ?Ho, ?Hd in *; eauto; fail).
  - destruct (inv_lock0 n) as [j Hj]; [done|]. exists j. by rewrite Hh'.
  - destruct (inv_busy0 id s) as [j Hj]; [done..|]. exists j. upd_simpl; [|done]. by eapply Hclaim.
  - destruct (inv_idle0 id s) as [j Hj]; [done..|]. destruct (decide (j = i)) as [->|Hne]; [by eapply Hresp|]. exists j. by rewrite upd_ne.
Qed.

(** The responsibility of a handler for the sessions of the map stays. *)
Lemma inv_quiet w gs place i g' :
  Inv w gs place → g_open g' = g_open (gs i) → g_hold g' = g_hold (gs i) → g_duty g' = g_duty (gs i) →
  (∀ id, is_Some (sessions w !! id) → g_claim (gs i) = Some id → g_claim g' = Some id) →
  g_spawn g' = g_spawn (gs i) → g_watch g' = g_watch (gs i) →
  (∀ t, g_now g' = Some t → (t ≤ now w)%N) → (∀ id n, g_peek g' = Some (id, n) → opened w !! id = Some n) →
  Inv w (upd i g' gs) place.
Proof.
  intros HI Ho Hh Hd Hc Hsp Hw Hnow Hpeek. apply inv_same_place; try done.
  - intros id d. rewrite Hw. apply (inv_awake _ _ _ HI).
  - intros id s Hs _. apply Hc. eauto.
  - intros id s Hs _ Hr. exists i. rewrite upd_eq. unfold responsible. by rewrite Hsp, Hw.
Qed.

Lemma inv_log w gs place e : Inv w gs place → (∀ n, is_end n e = false) → Inv (log e w) gs place.
Proof. intros [] He. constructor; eauto. intros n. simpl. by rewrite ends_snoc, He, Nat.add_0_r. Qed.

Lemma session_moved w gs place id n : Inv w gs place → place n ≠ InMap id → ∀ s, sessions w !! id = Some s → session_conn s ≠ n.
Proof. intros HI Hn s Hs <-. apply Hn. by eapply inv_map. Qed.

(** A session leaves the map: the handler that removed it has to end it, and is
    no longer responsible for it in another way. *)
Lemma inv_take w gs place i g' id s :
  Inv w gs place → sessions w !! id = Some s → g_duty (gs i) = None →
  g_open g' = g_open (gs i) → g_hold g' = g_hold (gs i) → g_duty g' = Some (session_conn s) → g_spawn g' = g_spawn (gs i) →
  g_now g' = g_now (gs i) → g_peek g' = g_peek (gs i) →
  (g_claim g' = g_claim (gs i) ∨ g_claim (gs i) = Some id) →
  (g_watch g' = g_watch (gs i) ∨ g_watch g' = None ∧ ∃ v, g_watch (gs i) = Some (id, v)) →
  Inv (set_sessions (delete id (sessions w)) w) (upd i g' gs) (upd (session_conn s) (Owed i) place).
Proof.
  intros HI Hs Hd Ho Hh Hd' Hsp Hn Hp Hc Hw. pose proof (inv_map _ _ _ HI _ _ Hs) as Hplace.
  assert (∀ j n, g_duty (gs j) = Some n → n ≠ session_conn s) as Hother.
  { intros j n Hj ->. apply (inv_duty _ _ _ HI) in Hj. congruence. }
  assert (∀ id' s', delete id (sessions w) !! id' = Some s' → sessions w !! id' = Some s' ∧ id' ≠ id ∧ session_conn s' ≠ session_conn s) as Hdel.
  { intros id' s' [Hne Hs']%lookup_delete_Some. split_and!; [done..|]. intros He. apply (inv_map _ _ _ HI) in Hs'. congruence. }
  assert (∀ j, g_hold (upd i g' gs j) = g_hold (gs j)) as Hh' by (intros j; by upd_simpl).
  destruct HI; constructor; simpl.
  - intros j t. upd_simpl; [rewrite Hn|]; eauto.
  - intros j id' d. upd_simpl; [|eauto]. destruct Hw as [->|[-> _]]; [eauto|done].
  - intros j n. rewrite Hh'. eauto.
  - intros n Hl. destruct (inv_lock0 n Hl) as [j Hj]. exists j. by rewrite Hh'.
  - intros j1 j2 n. rewrite !Hh'. eauto.
  - intros j n Hj. assert (place n = Opening j) as Hpl by (upd_simpl; rewrite ?Ho in *; eauto). upd_simpl; congruence.
  - intros j n Hj. upd_simpl; first [done|by eauto|congruence|exfalso; by eapply Hother].
  - intros j n Hj. upd_simpl; first [done|by eauto|apply inv_owed0 in Hj; congruence].
  - intros id' s' (Hs' & Hne & Hc')%Hdel. upd_simpl; eauto.
  - intros id' n Hin. upd_simpl; try done. destruct (inv_in0 id' n Hin) as (s' & Hs' & Hc'). exists s'. split; [|done].
    apply lookup_delete_Some. split; [|done]. intros ->. rewrite Hs in Hs'. by simplify_eq.
  - intros n. rewrite inv_ends0. upd_simpl; first [done|congruence].
  - intros n Hn'. upd_simpl; eauto.
  - intros n Hf. upd_simpl; first [by eauto|apply inv_fresh0 in Hf; congruence].
  - intros id' n Hop. upd_simpl; [by split_and!|eauto].
  - intros id' s' (Hs' & Hne & Hc')%Hdel. eauto.
  - intros j id' n. upd_simpl; [rewrite Hp|]; eauto.
  - intros id' s' (Hs' & Hne & Hc')%Hdel. eauto.
  - intros id' s' (Hs' & Hne & Hc')%Hdel Hb. destruct (inv_busy0 id' s' Hs' Hb) as [j Hj]. exists j. upd_simpl; [|done].
    destruct Hc as [->|Hc]; [done|congruence].
  - intros id' s' (Hs' & Hne & Hc')%Hdel Hb. destruct (inv_idle0 id' s' Hs' Hb) as [j Hj]. exists j. upd_simpl; [|done].
    unfold responsible in *. rewrite Hsp. destruct Hw as [->|[-> [v Hv]]]; [done|]. rewrite Hv in Hj. naive_solver.
Qed.

(** A session is made busy, or is released. *)
Lemma inv_touch w gs place i g' id s (b : bool) :
  Inv w gs place → sessions w !! id = Some s →
  g_open g' = g_open (gs i) → g_hold g' = g_hold (gs i) → g_duty g' = g_duty (gs i) → g_watch g' = g_watch (gs i) →
  g_now g' = g_now (gs i) → g_peek g' = g_peek (gs i) →
  (∀ id', id' ≠ id → g_claim (gs i) = Some id' → g_claim g' = Some id') →
  (∀ id', id' ≠ id → g_spawn (gs i) = Some id' → g_spawn g' = Some id') →
  (if b then g_claim g' = Some id else g_spawn g' = Some id) →
  Inv (set_sessions (<[id := touch b (now w) s]> (sessions w)) w) (upd i g' gs) place.
Proof.
  intros HI Hs Ho Hh Hd Hw Hn Hp Hc Hsp Hb.
  assert (∀ j, g_hold (upd i g' gs j) = g_hold (gs j)) as Hh' by (intros j; by upd_simpl).
  destruct HI; constructor; simpl; intros.
  - upd_simpl; [rewrite Hn in *|]; eauto.
  - upd_simpl; [rewrite Hw in *|]; eauto.
  - rewrite Hh' in *. eauto.
  - destruct (inv_lock0 n) as [j Hj]; [done|]. exists j. by rewrite Hh'.
  - rewrite Hh' in *. eauto.
  - upd_simpl; [rewrite Ho in *|]; eauto.
  - upd_simpl; [rewrite Hd in *|]; eauto.
  - upd_simpl; [rewrite Hd|]; eauto.
  - destruct (decide (id0 = id)) as [->|Hne]; [rewrite lookup_insert_eq in *; simplify_eq; by apply (inv_map0 id s)|].
    rewrite lookup_insert_ne in * by done. eauto.
  - destruct (inv_in0 id0 n) as (s' & Hs' & Hn'); [done|]. destruct (decide (id0 = id)) as [->|Hne].
    + rewrite Hs in Hs'. simplify_eq. rewrite lookup_insert_eq. by eexists.
    + rewrite lookup_insert_ne by done. eauto.
  - eauto.
  - eauto.
  - eauto.
  - eauto.
  - destruct (decide (id0 = id)) as [->|Hne]; [rewrite lookup_insert_eq in *; simplify_eq; by apply (inv_session0 id s)|].
    rewrite lookup_insert_ne in * by done. eauto.
  - upd_simpl; [rewrite Hp in *|]; eauto.
  - destruct (decide (id0 = id)) as [->|Hne]; [rewrite lookup_insert_eq in *; simplify_eq; simpl; lia|].
    rewrite lookup_insert_ne in * by done. eauto.
  - destruct (decide (id0 = id)) as [->|Hne].
    + rewrite lookup_insert_eq in *. simplify_eq/=. exists i. by rewrite upd_eq.
    + rewrite lookup_insert_ne in * by done. destruct (inv_busy0 id0 s0) as [j Hj]; [done..|]. exists j. upd_simpl; eauto.
  - destruct (decide (id0 = id)) as [->|Hne].
    + rewrite lookup_insert_eq in *. simplify_eq/=. exists i. rewrite upd_eq. by left.
    + rewrite lookup_insert_ne in * by done. destruct (inv_idle0 id0 s0) as [j Hj]; [done..|]. exists j. upd_simpl; [|done].
      unfold responsible in *. rewrite Hw. naive_solver.
Qed.

(** A connection is taken from the pool. *)
Lemma inv_checkout w gs place i :
  Inv w gs place → g_open (gs i) = None →
  Inv (new_checkout w) (upd i (set_open (Some (checkouts w)) (gs i)) gs) (upd (checkouts w) (Opening i) place).
Proof.
  intros HI Ho. pose proof (inv_fresh _ _ _ HI (checkouts w) (le_n _)) as Hfresh.
  assert (∀ n, place n ≠ Nowhere → n ≠ checkouts w) as Hne by naive_solver.
  set (g' := set_open _ _). assert (∀ j, g_hold (upd i g' gs j) = g_hold (gs j)) as Hh' by (intros j; by upd_simpl).
  assert (∀ j, g_duty (upd i g' gs j) = g_duty (gs j)) as Hd' by (intros j; by upd_simpl).
  destruct HI; constructor; simpl; intros; rewrite ?Hh', ?Hd' in *.
  - upd_simpl; eauto.
  - upd_simpl; eauto.
  - eauto.
  - destruct (inv_lock0 n) as [j Hj]; [done|]. exists j. by rewrite Hh'.
  - eauto.
  - upd_simpl; try done; [|by eauto]. exfalso. by rewrite (inv_open0 i0 (checkouts w)) in Hfresh.
  - rewrite upd_ne; [by eauto|]. apply Hne. by rewrite (inv_duty0 i0 n).
  - apply inv_owed0. upd_simpl; first [done|congruence].
  - rewrite upd_ne; [by eauto|]. apply Hne. by rewrite (inv_map0 id s).
  - apply inv_in0. upd_simpl; first [done|congruence].
  - rewrite inv_ends0. upd_simpl; first [done|congruence].
  - apply (inv_cleared0 n). upd_simpl; first [done|congruence].
  - rewrite upd_ne by lia. apply inv_fresh0. lia.
  - destruct (inv_opened0 id n) as (Hp1 & Hp2 & Hp3); [done|]. by rewrite upd_ne by auto.
  - eauto.
  - upd_simpl; eauto.
  - eauto.
  - destruct (inv_busy0 id s) as [j Hj]; [done..|]. exists j. by upd_simpl.
  - destruct (inv_idle0 id s) as [j Hj]; [done..|]. exists j. by upd_simpl.
Qed.

(** It becomes the connection of a new session. *)
Lemma inv_insert w gs place i id s :
  Inv w gs place → g_open (gs i) = Some (session_conn s) → busy s = false → g_now (gs i) = Some (last_activity s) →
  g_spawn (gs i) = None → opened w !! id = None →
  Inv (open_session id s w) (upd i (set_open None (set_spawn (Some id) (gs i))) gs) (upd (session_conn s) (InMap id) place).
Proof.
  intros HI Ho Hb Hn Hsp Hnew. pose proof (inv_open _ _ _ HI _ _ Ho) as Hplace.
  assert (sessions w !! id = None) as Hs.
  { destruct (sessions w !! id) as [s'|] eqn:E; [|done]. by rewrite (inv_session _ _ _ HI _ _ E) in Hnew. }
  assert (∀ n, place n ≠ Opening i → n ≠ session_conn s) as Hne by (intros n Hp ->; done).
  set (g' := set_open _ _). assert (∀ j, g_hold (upd i g' gs j) = g_hold (gs j)) as Hh' by (intros j; by upd_simpl).
  assert (∀ j, g_duty (upd i g' gs j) = g_duty (gs j)) as Hd' by (intros j; by upd_simpl).
  assert (∀ j, g_claim (upd i g' gs j) = g_claim (gs j)) as Hc' by (intros j; by upd_simpl).
  assert (∀ id' s', <[id := s]> (sessions w) !! id' = Some s' → id' = id ∧ s' = s ∨ id' ≠ id ∧ sessions w !! id' = Some s') as Hins.
  { intros id' s' [[<- <-]|[]]%lookup_insert_Some; auto. }
  destruct HI; constructor; simpl; intros; rewrite ?Hh', ?Hd' in *.
  - upd_simpl; eauto.
  - upd_simpl; eauto.
  - eauto.
  - destruct (inv_lock0 n) as [j Hj]; [done|]. exists j. by rewrite Hh'.
  - eauto.
  - assert (i0 ≠ i ∧ place n = Opening i0) as [Hni Hpl] by (upd_simpl; eauto). rewrite upd_ne; [done|]. intros ->. rewrite Hplace in Hpl. congruence.
  - rewrite upd_ne; [by eauto|]. apply Hne. by rewrite (inv_duty0 i0 n).
  - apply inv_owed0. upd_simpl; first [done|congruence].
  - apply Hins in H as [[-> ->]|[Hid H]]; [by rewrite upd_eq|]. rewrite upd_ne; [by eauto|]. apply Hne. by rewrite (inv_map0 id0 s0).
  - upd_simpl; [exists s; by rewrite lookup_insert_eq|]. destruct (inv_in0 id0 n) as (s' & Hs' & Hn'); [done|]. exists s'.
    rewrite lookup_insert_ne; [done|]. congruence.
  - rewrite inv_ends0. upd_simpl; first [done|congruence].
  - apply (inv_cleared0 n). upd_simpl; first [done|congruence].
  - rewrite upd_ne; [by eauto|]. apply Hne. by rewrite inv_fresh0.
  - apply lookup_insert_Some in H as [[<- <-]|[Hid H]]; [rewrite upd_eq; naive_solver|]. destruct (inv_opened0 id0 n H) as (Hp1 & Hp2 & Hp3).
    rewrite upd_ne; [done|]. apply Hne, Hp2.
  - apply Hins in H as [[-> ->]|[Hid H]]; [by rewrite lookup_insert_eq|]. rewrite lookup_insert_ne by done. eauto.
  - assert (opened w !! id0 = Some n) as Hop by (upd_simpl; eauto). rewrite lookup_insert_ne; [done|]. congruence.
  - apply Hins in H as [[-> ->]|[Hid H]]; eauto.
  - apply Hins in H as [[-> ->]|[Hid H]]; [congruence|]. destruct (inv_busy0 id0 s0) as [j Hj]; [done..|]. exists j. by rewrite Hc'.
  - apply Hins in H as [[-> ->]|[Hid H]]; [exists i; rewrite upd_eq; by left|]. destruct (inv_idle0 id0 s0) as [j Hj]; [done..|]. exists j.
    upd_simpl; [|done]. unfold responsible in *. simpl. rewrite Hsp in Hj. naive_solver.
Qed.

(** COMMIT or ROLLBACK is sent. *)
Lemma inv_finish w gs place i n commit ok :
  Inv w gs place → g_duty (gs i) = Some n →
  Inv (log (SentEnd n commit ok) w) (upd i (set_duty None (gs i)) gs) (upd n Done place).
Proof.
  intros HI Hd. pose proof (inv_duty _ _ _ HI _ _ Hd) as Hplace. assert (∀ m, place m ≠ Owed i → m ≠ n) as Hne by (intros m Hp ->; done).
  set (g' := set_duty _ _). assert (∀ j, g_hold (upd i g' gs j) = g_hold (gs j)) as Hh' by (intros j; by upd_simpl).
  assert (∀ j, g_claim (upd i g' gs j) = g_claim (gs j)) as Hc' by (intros j; by upd_simpl).
  destruct HI; constructor; simpl; intros; rewrite ?Hh' in *.
  - upd_simpl; eauto.
  - upd_simpl; eauto.
  - eauto.
  - destruct (inv_lock0 n0) as [j Hj]; [done|]. exists j. by rewrite Hh'.
  - eauto.
  - assert (place n0 = Opening i0) as Hpl by (upd_simpl; eauto). rewrite upd_ne; [done|]. apply Hne. by rewrite Hpl.
  - assert (i0 ≠ i ∧ place n0 = Owed i0) as [Hni Hpl] by (upd_simpl; eauto). rewrite upd_ne; [done|]. apply Hne. rewrite Hpl. congruence.
  - assert (n0 ≠ n ∧ g_duty (gs i0) = Some n0) as [Hn0 Hd0] by (upd_simpl; eauto). upd_simpl; congruence.
  - rewrite upd_ne; [by eauto|]. apply Hne. by rewrite (inv_map0 id s).
  - apply inv_in0. upd_simpl; first [done|congruence].
  - rewrite ends_snoc, inv_ends0. cbn [is_end]. destruct (Nat.eqb_spec n0 n) as [->|Hn0].
    + rewrite upd_eq, Hplace. by rewrite decide_False, decide_True by done.
    + rewrite upd_ne by done. lia.
  - apply (inv_cleared0 n0). upd_simpl; first [done|congruence].
  - rewrite upd_ne; [by eauto|]. apply Hne. by rewrite inv_fresh0.
  - destruct (inv_opened0 id n0) as (Hp1 & Hp2 & Hp3); [done|]. upd_simpl; naive_solver.
  - eauto.
  - upd_simpl; eauto.
  - eauto.
  - destruct (inv_busy0 id s) as [j Hj]; [done..|]. exists j. by rewrite Hc'.
  - destruct (inv_idle0 id s) as [j Hj]; [done..|]. exists j. by upd_simpl.
Qed.

(** The mutex of a connection is taken, and released. *)
Lemma inv_acquire w gs place i n :
  Inv w gs place → g_hold (gs i) = None → n ∉ locks w →
  Inv (set_locks ({[n]} ∪ locks w) w) (upd i (set_hold (Some n) (gs i)) gs) place.
Proof.
  intros HI Hh Hn. assert (∀ j, g_hold (gs j) ≠ Some n) as Hfree by (intros j Hj; by apply (inv_hold _ _ _ HI) in Hj).
  destruct HI; constructor; simpl; intros.
  all: try first [apply inv_ends0|upd_simpl; eauto; fail].
  - upd_simpl; [set_solver|]. apply elem_of_union. eauto.
  - apply elem_of_union in H as [->%elem_of_singleton|H]; [exists i; by rewrite upd_eq|]. destruct (inv_lock0 n0 H) as [j Hj]. exists j.
    upd_simpl; congruence.
  - upd_simpl; first [done|by eauto|exfalso; by eapply Hfree].
  - destruct (inv_busy0 id s) as [j Hj]; [done..|]. exists j. by upd_simpl.
  - destruct (inv_idle0 id s) as [j Hj]; [done..|]. exists j. by upd_simpl.
Qed.

Lemma inv_release_lock w gs place i n :
  Inv w gs place → g_hold (gs i) = Some n → Inv (set_locks (locks w ∖ {[n]}) w) (upd i (set_hold None (gs i)) gs) place.
Proof.
  intros HI Hh. assert (∀ j, g_hold (gs j) = Some n → j = i) as Honly by (intros j Hj; by apply (inv_excl _ _ _ HI j i n)).
  destruct HI; constructor; simpl; intros.
  all: try first [apply inv_ends0|upd_simpl; eauto; fail].
  - upd_simpl. apply elem_of_difference. split; [by eauto|]. intros ->%elem_of_singleton. naive_solver.
  - apply elem_of_difference in H as [H Hne]. destruct (inv_lock0 n0 H) as [j Hj]. exists j. upd_simpl; [|done].
    exfalso. apply Hne, elem_of_singleton. congruence.
  - destruct (inv_busy0 id s) as [j Hj]; [done..|]. exists j. by upd_simpl.
  - destruct (inv_idle0 id s) as [j Hj]; [done..|]. exists j. by upd_simpl.
Qed.

(** What happens without a handler. *)
Lemma inv_advance w gs place d : Inv w gs place → Inv (advance d w) gs place.
Proof.
  intros []. constructor; simpl; eauto.
  - intros i t Ht. specialize (inv_now0 i t Ht). lia.
  - intros i id d' Hd. specialize (inv_awake0 i id d' Hd). lia.
  - intros id s Hs. specialize (inv_last0 id s Hs). lia.
Qed.

Definition cleared (place : nat → Place) (n : nat) : Place := match place n with InMap _ => Cleared | p => p end.
Lemma inv_clear w gs place : Inv w gs place → Inv (clear_sessions w) gs (cleared place).
Proof.
  intros []. constructor; simpl; eauto; unfold cleared.
  - intros i n Hi. by rewrite (inv_open0 i n).
  - intros i n Hi. by rewrite (inv_duty0 i n).
  - intros i n Hi. apply inv_owed0. by case_match.
  - intros id s. by rewrite lookup_empty.
  - intros id n. by case_match.
  - intros n. rewrite inv_ends0. destruct (place n); repeat case_decide; done.
  - intros n Hf. by rewrite inv_fresh0.
  - intros id n Hop. destruct (inv_opened0 id n Hop) as (H1 & H2 & H3). destruct (place n); naive_solver.
  - intros id s. by rewrite lookup_empty.
  - intros id s. by rewrite lookup_empty.
  - intros id s. by rewrite lookup_empty.
  - intros id s. by rewrite lookup_empty.
Qed.

(** One call. *)
Lemma determined_Some {A} `{EqDecision A} (answer : A * World) a w' : determined answer a = Some w' → answer.1 = a ∧ answer.2 = w'.
Proof. unfold determined. case_bool_decide; naive_solver. Qed.
Lemma guarded_Some b w w' : guarded b w = Some w' → b = true ∧ w = w'.
Proof. destruct b; simpl; naive_solver. Qed.

(** Somebody else watches the session a watcher was spawned for. *)
Definition watched_by_other {B} (gs : nat → Ghost) (i : nat) (call : TxnE B) : Prop :=
  match call with SpawnWatcher id => ∃ j, j ≠ i ∧ g_watch (gs j) = Some (id, Fresh) | _ => True end.

Lemma inv_nothing w gs place i : Inv w gs place → Inv w (upd i (gs i) gs) place.
Proof. intros HI. apply inv_quiet; try done; intros *; [apply (inv_now _ _ _ HI)|apply (inv_peek _ _ _ HI)]. Qed.

Lemma drop_claim_spec id g :
  g_open (drop_claim id g) = g_open g ∧ g_hold (drop_claim id g) = g_hold g ∧ g_duty (drop_claim id g) = g_duty g
  ∧ g_spawn (drop_claim id g) = g_spawn g ∧ g_watch (drop_claim id g) = g_watch g ∧ g_peek (drop_claim id g) = g_peek g
  ∧ g_now (drop_claim id g) = g_now g ∧ (g_claim (drop_claim id g) = g_claim g ∨ g_claim g = Some id)
  ∧ (∀ id', id' ≠ id → g_claim g = Some id' → g_claim (drop_claim id g) = Some id').
Proof. unfold drop_claim. case_bool_decide; [|by auto 10]. simpl. split_and!; try done; [by right|congruence]. Qed.

(** A session that is not in the map is claimed no more. *)
Lemma inv_drop_claim w gs place i id :
  Inv w gs place → sessions w !! id = None → Inv w (upd i (drop_claim id (gs i)) gs) place.
Proof.
  intros HI Hs. destruct (drop_claim_spec id (gs i)) as (H1 & H2 & H3 & H4 & H5 & H6 & H7 & H8 & H9).
  apply inv_quiet; try done.
  - intros id' [s Hs'] Hc. apply H9; [|done]. congruence.
  - rewrite H7. intros t. apply (inv_now _ _ _ HI).
  - rewrite H6. intros id' n. apply (inv_peek _ _ _ HI).
Qed.

Lemma inv_watch_on w gs place i id v v' :
  Inv w gs place → g_watch (gs i) = Some (id, v) → (∀ d, v' = Awake d → (d ≤ now w)%N) →
  (∀ last, (last ≤ now w)%N → responsible (gs i) id last → responsible (set_watch (Some (id, v')) (gs i)) id last) →
  Inv w (upd i (set_watch (Some (id, v')) (gs i)) gs) place.
Proof.
  intros HI Hw Ha Hr. apply inv_same_place; try done.
  - intros t. apply (inv_now _ _ _ HI).
  - intros id' d Hd. simpl in Hd. simplify_eq. by apply Ha.
  - intros id' n. apply (inv_peek _ _ _ HI).
  - intros id' s Hs Hb Hr'. exists i. rewrite upd_eq. destruct (decide (id' = id)) as [->|Hne].
    + apply Hr; [|done]. by eapply (inv_last _ _ _ HI).
    + unfold responsible in *. simpl. rewrite Hw in Hr'. naive_solver.
Qed.

(** A watcher that wakes up and removes nothing was not responsible. *)
Lemma inv_not_expired w gs place i id d :
  Inv w gs place → g_watch (gs i) = Some (id, Awake d) → (expire id w).1 = None →
  Inv w (upd i (set_watch None (gs i)) gs) place.
Proof.
  intros HI Hw He. apply inv_same_place; try done.
  - intros t. apply (inv_now _ _ _ HI).
  - intros id' n. apply (inv_peek _ _ _ HI).
  - intros id' s Hs Hb Hr. exists i. rewrite upd_eq. unfold responsible in *. simpl. rewrite Hw in Hr.
    destruct Hr as [Hr|[Hr|(d' & [Hr|Hr] & Hd)]]; simplify_eq; [by left|]. exfalso.
    pose proof (inv_awake _ _ _ HI _ _ _ Hw). unfold expire in He. rewrite Hs, Hb in He. unfold elapsed in He. simpl in He.
    destruct (TXN_IDLE_TIMEOUT <=? now w - last_activity s)%N eqn:E; [done|]. apply N.leb_gt in E. lia.
Qed.

Lemma inv_claim w gs place i id a w' :
  Inv w gs place → g_claim (gs i) = None → g_duty (gs i) = None → claim id w = (a, w') →
  ∃ place', Inv w' (upd i (after (gs i) (ClaimSession id) a) gs) place'.
Proof.
  intros HI Hc Hd Ha. unfold claim in Ha. destruct (sessions w !! id) as [s|] eqn:Hs; [|simplify_eq; exists place; by apply inv_nothing].
  destruct (busy s) eqn:Hb; [simplify_eq; exists place; by apply inv_nothing|]. case_match; simplify_eq; cbn [after].
  - exists (upd (session_conn s) (Owed i) place). eapply inv_take; try done; by left.
  - exists place. apply inv_touch; simpl; try done. intros id' _. by rewrite Hc.
Qed.

Lemma inv_remove_session w gs place i id r w' :
  Inv w gs place → g_duty (gs i) = None → g_claim (gs i) = None ∨ g_claim (gs i) = Some id → remove id w = (r, w') →
  plausible (gs i) (RemoveSession id) r ∧ ∃ place', Inv w' (upd i (after (gs i) (RemoveSession id) r) gs) place'.
Proof.
  intros HI Hd Hc Hr. unfold remove in Hr. simplify_eq. split.
  { intros s n Hs Hp. apply (inv_session _ _ _ HI) in Hs. apply (inv_peek _ _ _ HI) in Hp. congruence. }
  cbn [after]. destruct (sessions w !! id) as [s|] eqn:Hs; cbn [owe].
  - destruct (drop_claim_spec id (gs i)) as (H1 & H2 & H3 & H4 & H5 & H6 & H7 & H8 & H9).
    exists (upd (session_conn s) (Owed i) place). eapply inv_take; try done. by left.
  - exists place. rewrite delete_id by done. destruct w. by apply inv_drop_claim.
Qed.

Lemma inv_release w gs place i id b w' :
  Inv w gs place → g_claim (gs i) = Some id → g_spawn (gs i) = None → release id w = (b, w') →
  ∃ place', Inv w' (upd i (after (gs i) (ReleaseSession id) b) gs) place'.
Proof.
  intros HI Hc Hsp Hr. exists place. unfold release in Hr. destruct (sessions w !! id) as [s|] eqn:Hs; simplify_eq; cbn [after].
  - apply inv_touch; simpl; try done; [by intros id' Hne; rewrite Hc; intros [=]|by intros id' _; rewrite Hsp].
  - replace (set_claim None (gs i)) with (drop_claim id (gs i)); [by apply inv_drop_claim|]. unfold drop_claim. by rewrite bool_decide_eq_true_2.
Qed.

Lemma inv_expire w gs place i id d r w' :
  Inv w gs place → g_duty (gs i) = None → g_watch (gs i) = Some (id, Awake d) → expire id w = (r, w') →
  ∃ place', Inv w' (upd i (after (gs i) (ExpireSession id) r) gs) place'.
Proof.
  intros HI Hd Hw Hr. cbn [after]. destruct r as [s'|].
  - unfold expire in Hr. destruct (sessions w !! id) as [s|] eqn:Hs; [|done]. case_match; simplify_eq. cbn [owe].
    exists (upd (session_conn s') (Owed i) place). eapply inv_take; try done; [by left|]. right. split; [done|]. by eexists.
  - exists place. cbn [owe]. assert (w' = w) as ->.
    { unfold expire in Hr. repeat case_match; by simplify_eq. }
    eapply inv_not_expired; [done..|]. by rewrite Hr.
Qed.

Lemma inv_call w gs place i B (call : TxnE B) b w' :
  Inv w gs place → allowed (gs i) call → respond call w b = Some w' → watched_by_other gs i call →
  plausible (gs i) call b ∧ ∃ place', Inv w' (upd i (after (gs i) call b) gs) place'.
Proof.
  intros HI. revert b. destruct call; intros b Hal Hres Hother; cbn [respond allowed plausible] in *.
  all: try (simplify_eq; split; [done|]; exists place; by apply inv_nothing).
  all: try (simplify_eq; split; [done|]; exists place; apply inv_log; [by apply inv_nothing|done]).
  all: try (apply determined_Some in Hres as [Hb Hw']; cbn [fst snd] in *).
  - split; [done|]. destruct b as [n|e]; [|simplify_eq; exists place; by apply inv_nothing].
    apply guarded_Some in Hres as [->%Nat.eqb_eq <-]. eexists. by apply inv_checkout.
  - destruct Hal as [Hh Hd]. split; [done|]. simplify_eq. eexists. by apply inv_finish.
  - subst. split; [done|]. exists place. apply inv_quiet; try done; simpl; [by intros t [= <-]|]. intros id n. apply (inv_peek _ _ _ HI).
  - apply guarded_Some in Hres as [Hnew%bool_decide_eq_true <-]. destruct Hal as (Ho & Hb & Hn & Hsp). split; [done|]. eexists. by apply inv_insert.
  - subst. split; [done|]. exists place. cbn [after]. destruct (sessions _ !! id) as [s|] eqn:Hs; [|by apply inv_drop_claim].
    apply inv_quiet; try done; simpl; [intros t; apply (inv_now _ _ _ HI)|]. intros id' n [= <- <-]. by apply (inv_session _ _ _ HI).
  - split; [done|]. destruct (claim id w) as [a w1] eqn:E. simpl in *. subst. destruct Hal. by eapply inv_claim.
  - destruct (remove id w) as [a w1] eqn:E. simpl in *. subst. destruct Hal. by eapply inv_remove_session.
  - split; [done|]. destruct (release id w) as [a w1] eqn:E. simpl in *. subst. destruct Hal. by eapply inv_release.
  - split; [done|]. destruct (expire id w) as [a w1] eqn:E. simpl in *. subst. destruct Hal as [Hd [d Hw]]. by eapply inv_expire.
  - apply guarded_Some in Hres as [Hn%bool_decide_eq_true <-]. split; [done|]. exists place. by apply inv_acquire.
  - simplify_eq. split; [done|]. exists place. by apply inv_release_lock.
  - simplify_eq. split; [done|]. exists place. destruct Hother as (j & Hj & Hw). apply inv_same_place; try done; simpl.
    + intros t. apply (inv_now _ _ _ HI).
    + intros id' d. apply (inv_awake _ _ _ HI).
    + intros id' n. apply (inv_peek _ _ _ HI).
    + intros id' s Hs Hb Hr. unfold responsible in Hr. rewrite Hal in Hr. destruct Hr as [Hr|Hr].
      * simplify_eq. exists j. rewrite upd_ne by done. right. by left.
      * exists i. rewrite upd_eq. by right.
  - subst. split; [done|]. destruct Hal as (-> & id & Hw). exists place. cbn [after]. rewrite Hw. eapply inv_watch_on; [done..|].
    intros last Hl Hr. right. right. eexists. split; [by left|]. lia.
  - apply guarded_Some in Hres as [Hd%N.leb_le <-]. split; [done|]. destruct Hal as (id & Hw). exists place. cbn [after]. rewrite Hw.
    eapply inv_watch_on; [done..|by intros d [= <-]|]. intros last Hl Hr. unfold responsible in *. rewrite Hw in Hr. simpl.
    destruct Hr as [Hr|[Hr|(d & [Hr|Hr] & Hd')]]; simplify_eq; [by left|]. right. right. eauto.
Qed.

(** ** Reachable worlds *)

Section worlds.
Context `{HU : UnicodeCase} `{HT : SqlTokenizer}.

Definition Threads_ok (ts : list (txn Reply)) (gs : nat → Ghost) : Prop :=
  (∀ i p, ts !! i = Some p → fine (λ _, finished) (gs i) p) ∧ (∀ i, ts !! i = None → gs i = idle).
Definition Good (s : World * list (txn Reply)) : Prop := ∃ gs place, Inv s.1 gs place ∧ Threads_ok s.2 gs.

Lemma threads_append ts gs g p : Threads_ok ts gs → fine (λ _, finished) g p → Threads_ok (ts ++ [p]) (upd (List.length ts) g gs).
Proof.
  intros [Hf Hi] Hp. split.
  - intros i q [Hq|[Hge Hq]]%lookup_app_Some; [apply lookup_lt_Some in Hq as Hlt; rewrite upd_ne by lia; by apply Hf|].
    apply list_lookup_singleton_Some in Hq as [Hz <-]. replace i with (List.length ts) by lia. by rewrite upd_eq.
  - intros i Hq. apply lookup_ge_None in Hq. rewrite length_app in Hq. simpl in Hq. rewrite upd_ne by lia. apply Hi, lookup_ge_None. lia.
Qed.

Lemma threads_call ts gs i B (call : TxnE B) k b :
  Threads_ok ts gs → ts !! i = Some (Do call k) → plausible (gs i) call b →
  Threads_ok (<[i := k b]> ts) (upd i (after (gs i) call b) gs).
Proof.
  intros [Hf Hi] Hc Hb. pose proof (lookup_lt_Some _ _ _ Hc) as Hlt. split.
  - intros j q Hq. destruct (decide (j = i)) as [->|Hne].
    + rewrite list_lookup_insert_eq in Hq by done. simplify_eq. rewrite upd_eq. by apply (Hf i _ Hc).
    + rewrite list_lookup_insert_ne in Hq by done. rewrite upd_ne by done. by apply Hf.
  - intros j Hj. apply lookup_ge_None in Hj. rewrite length_insert in Hj. rewrite upd_ne by lia. apply Hi. by apply lookup_ge_None.
Qed.

(** A thread that starts holds nothing. *)
Lemma inv_start w (ts : list (txn Reply)) gs place g :
  Inv w gs place → gs (List.length ts) = idle → g = idle ∨ (∃ id, g = watching id) → Inv w (upd (List.length ts) g gs) place.
Proof.
  intros HI Hi Hg. apply inv_same_place; rewrite ?Hi; try done; try by destruct Hg as [->|[id ->]].
  intros id s _ _ Hr. exfalso. unfold responsible in Hr. naive_solver.
Qed.

Lemma good_start w ts g p :
  Good (w, ts) → fine (λ _, finished) g p → g = idle ∨ (∃ id, g = watching id) →
  ∃ gs place, Inv w gs place ∧ Threads_ok (ts ++ [p]) gs ∧ gs (List.length ts) = g ∧ Good (w, ts ++ [p]).
Proof.
  intros (gs & place & HI & Ht) Hp Hg. pose proof (proj2 Ht (List.length ts) (proj2 (lookup_ge_None _ _) (le_n _))) as Hi.
  exists (upd (List.length ts) g gs), place. split_and!; [by apply inv_start|by apply threads_append|by rewrite upd_eq|].
  eexists _, _. split; [by apply (inv_start w ts gs place g)|by apply threads_append].
Qed.

Lemma good_step s s' : Good s → step s s' → Good s'.
Proof.
  intros HG Hs. destruct Hs as [w ts r|w ts d|w ts|w ts i B call k b w' Hc Hr].
  - destruct (good_start w ts idle (handle r) HG) as (_ & _ & _ & _ & _ & H); [apply fine_handle|by left|done].
  - destruct HG as (gs & place & HI & Ht). exists gs, place. split; [by apply inv_advance|done].
  - destruct HG as (gs & place & HI & Ht). exists gs, (cleared place). split; [by apply inv_clear|done].
  - assert (Hgo : ∀ ts1 gs place, Inv w gs place → Threads_ok ts1 gs → ts1 !! i = Some (Do call k) → watched_by_other gs i call →
              Good (w', <[i := k b]> ts1)).
    { intros ts1 gs place HI Ht Hc1 Ho. destruct (proj1 Ht _ _ Hc1) as [Hal _].
      destruct (inv_call w gs place i B call b w' HI Hal Hr Ho) as [Hp [place' HI']]. eexists _, place'. split; [exact HI'|]. by apply threads_call. }
    assert (Hspawn : ∀ id p, spawned call = [p] → (∀ gs : nat → Ghost, (∃ j, j ≠ i ∧ g_watch (gs j) = Some (id, Fresh)) → watched_by_other gs i call) →
              p = watcher_thread id → Good (w', <[i := k b]> ts ++ spawned call)).
    { intros id p Hsp Ho ->. destruct (good_start w ts (watching id) (watcher_thread id) HG) as (gs & place & HI & Ht & Hlast & _);
        [apply fine_watcher_thread|by right; eexists|].
      pose proof (lookup_lt_Some _ _ _ Hc) as Hlt. rewrite Hsp, <-insert_app_l by done. eapply Hgo; [done..|by rewrite lookup_app_l|].
      apply Ho. exists (List.length ts). split; [lia|]. by rewrite Hlast. }
    destruct call; try (by apply (Hspawn _ _ eq_refl (λ gs H, H) eq_refl));
      (destruct HG as (gs & place & HI & Ht); cbn [spawned]; rewrite app_nil_r; by eapply Hgo).
Qed.

Lemma good_reachable s : reachable s → Good s.
Proof.
  intros Hr. assert (Good initial) as H0.
  { exists (λ _, idle), (λ _, Nowhere). split; [|by split; [intros i p Hp; simpl in Hp|]]. constructor; try done; simpl; intros *; by rewrite ?lookup_empty. }
  unfold reachable in Hr. revert H0. induction Hr as [s|s1 s2 s3 Hs _ IH]; [done|]. intros H1. apply IH. by eapply good_step.
Qed.

(** ** What follows *)

Definition all_returned (ts : list (txn Reply)) : Prop := ∀ p, p ∈ ts → is_running p = false.

(** C7: a manual transaction is ended exactly once. Whatever handlers run at the
    same time, COMMIT or ROLLBACK is sent at most once on the connection of a
    session, and never while the session is in the map; and when every handler
    and watcher has returned, no session is left: each of them was ended, unless
    the program was shut down. *)
Theorem sessions_end_once s id n :
  reachable s → opened s.1 !! id = Some n →
  ends n (sent s.1) ≤ 1
  ∧ (∀ t, sessions s.1 !! id = Some t → session_conn t = n ∧ ends n (sent s.1) = 0)
  ∧ (stopped s.1 = false → all_returned s.2 → sessions s.1 = ∅ ∧ ends n (sent s.1) = 1).
Proof.
  destruct s as [w ts]. intros Hr Hop. destruct (good_reachable _ Hr) as (gs & place & HI & Hf & Hi). simpl in *.
  rewrite (inv_ends _ _ _ HI). split_and!; [by case_decide; lia| |].
  - intros t Ht. pose proof (inv_session _ _ _ HI _ _ Ht). pose proof (inv_map _ _ _ HI _ _ Ht). simplify_eq. split; [done|].
    rewrite decide_False; [done|congruence].
  - intros Hst Hall. assert (∀ i, finished (gs i)) as Hfin.
    { intros i. destruct (ts !! i) as [p|] eqn:Hp; [|by rewrite Hi]. pose proof (Hf i p Hp) as Hp'.
      specialize (Hall p (list_elem_of_lookup_2 _ _ _ Hp)). by destruct p. }
    assert (sessions w = ∅) as Hempty.
    { apply map_empty. intros id'. destruct (sessions w !! id') as [t|] eqn:Ht; [|done]. exfalso. destruct (busy t) eqn:Hb.
      - destruct (inv_busy _ _ _ HI _ _ Ht Hb) as [i Hc]. destruct (Hfin i) as (_ & _ & Hc' & _). congruence.
      - destruct (inv_idle _ _ _ HI _ _ Ht Hb) as [i Hc]. destruct (Hfin i) as (_ & _ & _ & Hs' & Hw'). unfold responsible in Hc. naive_solver. }
    split; [done|]. destruct (inv_opened _ _ _ HI _ _ Hop) as (H1 & H2 & H3). destruct (place n) as [|i|id'|i| |] eqn:Hp; try done.
    + by destruct (H2 i).
    + destruct (inv_in _ _ _ HI _ _ Hp) as (t & Ht & _). by rewrite Hempty, lookup_empty in Ht.
    + apply (inv_owed _ _ _ HI) in Hp. destruct (Hfin i) as (_ & Hd & _). congruence.
    + by rewrite (inv_cleared _ _ _ HI n Hp) in Hst.
Qed.

(** The connection the next call of a handler sends something on. *)
Definition next_conn {A} (p : prog TxnE A) : option nat :=
  match p with
  | Do (SetSearchPath n _) _ | Do (PgExecute n _) _ | Do (PgSelect n _ _) _ | Do (PgStream n _) _ | Do (QueryDrop n _) _
  | Do (QueryIter n _) _ | Do (Finish n _) _ => Some n
  | _ => None
  end.

(** Not every handler waits: a call that takes no mutex is answered, some time
    later if it sleeps. *)
Lemma can_respond w B (call : TxnE B) :
  (∀ n, match call with LockConn m => m = n ∧ n ∈ locks w | _ => False end → False) →
  ∃ d b w', respond call (advance d w) b = Some w'.
Proof.
  intros Hl. assert (∀ (A : Type) `{EqDecision A} (answer : A * World), determined answer answer.1 = Some answer.2) as Hdet.
  { intros A ? answer. unfold determined. by rewrite bool_decide_eq_true_2. }
  destruct call; cbn [respond]; try (exists 0%N; eexists _, _; apply Hdet).
  - by exists 0%N, None, (advance 0 w).
  - by exists 0%N, (Err []), (advance 0 w).
  - by exists 0%N, None, (advance 0 w).
  - by exists 0%N, (Err []), (advance 0 w).
  - exists 0%N, (Err []). by eexists.
  - exists 0%N, (Err []). by eexists.
  - exists 0%N, (Err []). by eexists.
  - exists 0%N, ([], Ok ()). by eexists.
  - exists 0%N, (Ok ()). by eexists.
  - exists 0%N, (Err []). by eexists.
  - exists 0%N, (Ok ()). by eexists.
  - by exists 0%N, None, (advance 0 w).
  - by exists 0%N, None, (advance 0 w).
  - exists 0%N, (fresh (dom (opened w))). eexists. unfold guarded. rewrite bool_decide_eq_true_2; [done|].
    apply not_elem_of_dom. simpl. apply is_fresh.
  - exists 0%N, (). eexists. unfold guarded. rewrite bool_decide_eq_true_2; [done|]. intros Hin. by apply (Hl conn).
  - exists 0%N, (). by eexists.
  - exists 0%N, (). by eexists.
  - exists deadline, (). eexists. unfold guarded. simpl. rewrite (proj2 (N.leb_le _ _)) by lia. done.
  - exists 0%N, (Ok ()). by eexists.
Qed.

(** C30: handlers do not block each other for ever: as long as one of them runs,
    one can make its next call, perhaps after some time; and no two of them use
    the connection of a session at the same time. *)
Theorem handlers_never_stuck s :
  reachable s →
  ((∃ p, p ∈ s.2 ∧ is_running p = true) →
   ∃ d i B (call : TxnE B) k b w', s.2 !! i = Some (Do call k) ∧ respond call (advance d s.1) b = Some w')
  ∧ (∀ id n i j p q, opened s.1 !! id = Some n → s.2 !! i = Some p → s.2 !! j = Some q →
     next_conn p = Some n → next_conn q = Some n → i = j).
Proof.
  destruct s as [w ts]. intros Hr. destruct (good_reachable _ Hr) as (gs & place & HI & Hf & Hi). simpl in *. split.
  - intros (p & Hp & Hrun). apply list_elem_of_lookup in Hp as [i Hp]. destruct p as [a|B call k]; [done|]. clear Hrun.
    assert (∀ j C (call' : TxnE C) k', ts !! j = Some (Do call' k') → (∃ n, g_hold (gs j) = Some n) →
              ∃ d i B (call : TxnE B) k b w', ts !! i = Some (Do call k) ∧ respond call (advance d w) b = Some w') as Hholder.
    { intros j C call' k' Hj [n Hn]. destruct (Hf _ _ Hj) as [Hal _]. destruct (can_respond w C call') as (d & b & w' & Hb).
      - intros m. destruct call'; try done. cbn [allowed] in Hal. congruence.
      - eauto 10. }
    assert ((∃ n, match call with LockConn m => m = n ∧ n ∈ locks w | _ => False end)
            ∨ ∀ n, match call with LockConn m => m = n ∧ n ∈ locks w | _ => False end → False) as [[n Hn]|Hno].
    { destruct call; try (by right). destruct (decide (conn ∈ locks w)); [by left; eexists|right; naive_solver]. }
    + assert (n ∈ locks w) as Hin by (destruct call; naive_solver). destruct (inv_lock _ _ _ HI _ Hin) as [j Hj].
      destruct (ts !! j) as [q|] eqn:Hq; [|by rewrite (Hi j Hq) in Hj]. pose proof (Hf j q Hq) as Hq'. destruct q as [a|C call' k'].
      * destruct Hq' as (Hh & _). congruence.
      * eapply Hholder; eauto.
    + destruct (can_respond w B call Hno) as (d & b & w' & Hb). eauto 10.
  - intros id n i j p q Hop Hp Hq Hnp Hnq. destruct (inv_opened _ _ _ HI _ _ Hop) as (_ & Hno & _).
    assert (∀ i p, ts !! i = Some p → next_conn p = Some n → g_hold (gs i) = Some n) as Huse.
    { intros i' p' Hp' Hn. pose proof (Hf _ _ Hp') as Hfine. destruct p' as [a|B call k]; [done|]. destruct Hfine as [Hal _].
      assert (uses (gs i') n) as [Ho|Hh]; [|by destruct (Hno i'); apply (inv_open _ _ _ HI)|done].
      destruct call; simpl in Hn; simplify_eq; try done. right. apply Hal. }
    eapply (inv_excl _ _ _ HI); eauto.
Qed.

(** ** Schedules *)

Inductive Act : Type := Arrives (r : Request) | Calls (i : nat) | Wait (d : N).

Definition run_act (env : ∀ B, TxnE B → World → B) (a : Act) (s : World * list (txn Reply)) : option (World * list (txn Reply)) :=
  match a with
  | Arrives r => Some (s.1, s.2 ++ [handle r])
  | Wait d => Some (advance d s.1, s.2)
  | Calls i =>
      match s.2 !! i with
      | Some (Do call k) =>
          let b := env _ call s.1 in
          w' ← respond call s.1 b; Some (w', <[i := k b]> s.2 ++ spawned call)
      | _ => None
      end
  end.
Fixpoint run_acts (env : ∀ B, TxnE B → World → B) (l : list Act) (s : World * list (txn Reply)) : option (World * list (txn Reply)) :=
  match l with [] => Some s | a :: l' => s' ← run_act env a s; run_acts env l' s' end.

Lemma run_acts_steps env l s s' : run_acts env l s = Some s' → rtc step s s'.
Proof.
  revert s. induction l as [|a l IH]; intros [w ts] H; simpl in H; [by simplify_eq|]. apply bind_Some in H as ([w1 ts1] & H1 & H).
  eapply rtc_l; [|by apply IH]. clear H IH. destruct a as [r|i|d]; simpl in *; simplify_eq; [constructor| |constructor].
  destruct (ts !! i) as [[a|B call k]|] eqn:Hi; [done| |done]. apply bind_Some in H1 as (w' & Hr & H1). simplify_eq. by econstructor.
Qed.
End worlds.

Section schedule.
(** Drivers that accept every statement but [bad]; the map, the clock and the
    mutexes answer as they do. *)
Definition demo_env (pool : PoolKind) (bad : text) {B} (call : TxnE B) (w : World) : B :=
  match call in TxnE B return B with
  | CatalogDialect _ => None
  | GetOrCreatePool id _ => Ok id
  | LookupPool _ => Some pool
  | GetConn _ => Ok (checkouts w)
  | SetSearchPath _ schema => if text_eqb schema bad then Err (c "no such schema") else Ok 0%Z
  | PgExecute _ sql => if text_eqb sql bad then Err (c "rejected") else Ok 1%Z
  | PgSelect _ _ _ => Ok (rowless_result 0 0)
  | PgStream _ _ => ([], Ok ())
  | QueryDrop _ sql => if text_eqb sql bad then Err {| syntax_error := true; error_text := c "rejected" |} else Ok ()
  | QueryIter _ sql =>
      if text_eqb sql bad then Err (c "rejected")
      else Ok {| iter_columns := []; iter_types := []; iter_affected := 1; iter_stream := Ok None; iter_drop := Ok () |}
  | Finish _ _ => Ok ()
  | Now => now w
  | DbTypeOf _ => None
  | ReadOnlyConfig _ => None
  | InsertSession _ => pretty (size (opened w))
  | PeekSession id => sessions w !! id
  | ClaimSession id => (claim id w).1
  | RemoveSession id => (remove id w).1
  | ReleaseSession id => (release id w).1
  | ExpireSession id => (expire id w).1
  | LockConn _ => ()
  | UnlockConn _ => ()
  | SpawnWatcher _ => ()
  | StartSleep d => (now w + d)%N
  | SleepUntil _ => ()
  | OnBatch _ => Ok ()
  end.
Context `{HU : UnicodeCase} `{HT : SqlTokenizer}.
Definition demo (pool : PoolKind) (bad : text) (l : list Act) : option (World * list (txn Reply)) :=
  run_acts (λ B, @demo_env pool bad B) l initial.

Definition calls (i n : nat) : list Act := replicate n (Calls i).
(** The session "0" is opened by the handler 0; its watcher is the thread 1. *)
Definition open_demo : list Act := Arrives (BeginRequest "db" [] None None) :: calls 0 8.
Definition insert_one : text := c "INSERT INTO t VALUES (1)".


Lemma demo_reachable pool bad l s : demo pool bad l = Some s → reachable s.
Proof. apply run_acts_steps. Qed.

(** A handler that is about to wait for the mutex of the session "0" (thread 2),
    while another one (thread 3) removes the session. *)
Definition rollback_race : list Act :=
  open_demo ++ [Arrives (ExecuteRequest "0" insert_one None); Arrives (RollbackRequest "0")]
  ++ calls 2 5 ++ calls 3 4 ++ calls 2 4.
Definition commit_race : list Act :=
  open_demo ++ [Arrives (ExecuteRequest "0" (insert_one ++ c "; UPDATE missing SET a = 1") None); Arrives (CommitRequest "0")]
  ++ calls 2 7 ++ calls 3 1 ++ calls 2 3 ++ calls 3 3.
Definition start_accepted : Sent := SentSql 0 (c "START TRANSACTION") true.
Definition update_missing : text := c "UPDATE missing SET a = 1".

(** A transaction that is ended while a statement is on its way: a handler
    that took the session before ROLLBACK sends its INSERT after it, outside of
    any transaction, and reports success; and a handler whose second statement
    fails after COMMIT was asked for leaves the first to be committed, although
    it reports that the transaction was rolled back. *)
Theorem ended_under_a_statement :
  (∃ s, reachable s ∧ sent s.1 = [start_accepted; SentEnd 0 false true; SentSql 0 insert_one true]
        ∧ s.2 !! 2 = Some (Ret (Executed (Ok [rowless_result 1 0]))) ∧ s.2 !! 3 = Some (Ret (Ended (Ok (empty_query_result 0)))))
  ∧ ∃ s, reachable s
         ∧ sent s.1 = [start_accepted; SentSql 0 insert_one true; SentSql 0 update_missing false; SentEnd 0 true true]
         ∧ s.2 !! 2 = Some (Ret (Executed (Err (failed_statement 1 (c "Query failed: rejected")))))
         ∧ s.2 !! 3 = Some (Ret (Ended (Ok (empty_query_result 0)))).
Proof.
  split.
  - destruct (demo MysqlPool [] rollback_race) as [s|] eqn:E; [|by vm_compute in E]. exists s. split; [by eapply demo_reachable|].
    vm_compute in E. injection E as <-. split_and!; by vm_compute.
  - destruct (demo MysqlPool update_missing commit_race) as [s|] eqn:E; [|by vm_compute in E]. exists s. split; [by eapply demo_reachable|].
    vm_compute in E. injection E as <-. split_and!; by vm_compute.
Qed.
End schedule.

(** A session that is used, rolled back, and watched until nothing is left. *)
Definition whole_life : list Act :=
  open_demo ++ [Arrives (ExecuteRequest "0" insert_one None); Arrives (RollbackRequest "0")] ++ calls 2 10 ++ calls 3 4
  ++ calls 1 1 ++ calls 4 1 ++ [Wait 300000] ++ calls 1 2 ++ calls 4 2.

(** When the schema cannot be selected, BEGIN was accepted and nothing ends the
    transaction; the connection goes back to a pool that only asks whether it is
    open. *)
Lemma begin_leaves_transaction `{HU : UnicodeCase} `{HT : SqlTokenizer} :
  ∃ s, reachable s ∧ all_returned s.2
       ∧ sent s.1 = [SentSql 0 (c "BEGIN") true; SentSql 0 (c "SET search_path") false]
       ∧ s.2 !! 0 = Some (Ret (Began (Err (c "SET search_path failed: no such schema")))).
Proof.
  destruct (demo PostgresPool (c "missing") (Arrives (BeginRequest "db" [] (Some (c "missing")) None) :: calls 0 6)) as [s|] eqn:E;
    [|by vm_compute in E].
  exists s. split; [by eapply demo_reachable|]. vm_compute in E. injection E as <-. split_and!; [|by vm_compute..].
  intros p Hp. apply list_elem_of_singleton in Hp as ->. done.
Qed.

Lemma sessions_end_once_witness :
  ∃ s : World * list (txn Reply), @reachable ascii_case wordless_tokenizer s ∧ all_returned s.2 ∧ sessions s.1 = ∅ ∧ ends 0 (sent s.1) = 1.
Proof.
  pose proof (λ s, @sessions_end_once ascii_case wordless_tokenizer s "0" 0) as H.
  destruct (@demo ascii_case wordless_tokenizer MysqlPool [] whole_life) as [s|] eqn:E; [|by vm_compute in E].
  specialize (H s (@demo_reachable ascii_case wordless_tokenizer _ _ _ _ E)). exists s. split; [by eapply demo_reachable|].
  vm_compute in E. injection E as <-. match goal with |- all_returned ?ts ∧ _ => assert (all_returned ts) as Hall end.
  { intros p Hp. cbn [snd] in Hp. repeat (apply elem_of_cons in Hp as [->|Hp]; [done|]). by apply not_elem_of_nil in Hp. }
  split; [exact Hall|]. apply H; [by vm_compute|done|exact Hall].
Defined.

Lemma handlers_never_stuck_witness :
  ∃ s : World * list (txn Reply), @reachable ascii_case wordless_tokenizer s ∧ List.length s.2 = 4
  ∧ ∃ d i B (call : TxnE B) k b w', s.2 !! i = Some (Do call k) ∧ respond call (advance d s.1) b = Some w'.
Proof.
  pose proof (λ s, @handlers_never_stuck ascii_case wordless_tokenizer s) as H.
  destruct (@demo ascii_case wordless_tokenizer MysqlPool [] (take 16 rollback_race)) as [s|] eqn:E; [|by vm_compute in E].
  specialize (H s (@demo_reachable ascii_case wordless_tokenizer _ _ _ _ E)). exists s. split; [by eapply demo_reachable|].
  split; [vm_compute in E; by injection E as <-|]. apply H. vm_compute in E. injection E as <-. eexists. split; [by apply elem_of_cons; right; apply elem_of_cons; left|done].
Defined.
