(* ===== verification/Transactions.v ===== *)
(** * Several statements as one transaction (query.rs)

    The paths by which a list of statements is executed as a transaction, one per
    kind of pool, and the deployment of a schema difference over them, with the
    report it gives. What reaches servers, pools and the clock are the calls
    [TxE]; their time limits are part of the answers. *)
From S2P Require Import Prelude RustStr Json SqlText SqlSplit SqlGuard AgentContext PoolErrors QueryTypes Prog.
From S2P Require SqlRisk TwoPhaseCommit.

(** ** Pools (connection.rs) *)

Inductive PoolKind : Type :=
| MysqlPool (bare : bool) | PostgresPool | SqlitePool | RqlitePool | TursoPool | CloudflareD1Pool | RedisPool
| DuckDbWorkerPool | MongoDbPool | ClickHousePool | SqlServerPool | ElasticsearchPool | EasysearchPool | HBasePool
| VectorDbPool | InfluxDbPool | AgentPool | ExternalDriverPool | MessageQueuePool | NacosPool.

Inductive TxPath : Type := TxPg | TxMysql | TxSqlite | TxCloudflareD1 | TxAgent | TxExplicit | TxNone.
#[export] Instance tx_path_eq_dec : EqDecision TxPath.
Proof. solve_decision. Defined.

Definition tx_path (p : PoolKind) : TxPath :=
  match p with
  | PostgresPool => TxPg
  | MysqlPool _ => TxMysql
  | SqlitePool => TxSqlite
  | CloudflareD1Pool => TxCloudflareD1
  | ClickHousePool | RqlitePool | TursoPool | SqlServerPool => TxExplicit
  | AgentPool => TxAgent
  | MessageQueuePool | NacosPool | HBasePool => TxNone
  | DuckDbWorkerPool | RedisPool | MongoDbPool | ElasticsearchPool | EasysearchPool | VectorDbPool | InfluxDbPool
  | ExternalDriverPool => TxNone
  end.

Definition pool_kind_has_transactional_path (p : PoolKind) : bool :=
  match p with
  | PostgresPool | MysqlPool _ | SqlitePool | CloudflareD1Pool | ClickHousePool | RqlitePool | TursoPool | SqlServerPool
  | AgentPool => true
  | MessageQueuePool | NacosPool | HBasePool | DuckDbWorkerPool | RedisPool | MongoDbPool | ElasticsearchPool
  | EasysearchPool | VectorDbPool | InfluxDbPool | ExternalDriverPool => false
  end.

(** ** What a transaction calls *)

(** A statement that is given a limited time, in seconds. *)
Inductive ControlError : Type := TimedOut (seconds : N) | Refused (e : text).
Definition control_text (e : ControlError) : text :=
  match e with TimedOut seconds => c "timed out after " ++ c (pretty seconds) ++ c " seconds" | Refused e => e end.

Inductive TxE : Type → Type :=
| GetOrCreatePool (connection_id : string) (database : option text) : TxE (result string text)
| LookupPool (pool_key : string) : TxE (option PoolKind)
| ReadOnlyConfig (pool_key : string) : TxE (option (string * DatabaseType))
| DbTypeOf (connection_id : string) : TxE (option DatabaseType)
| PgCheckout (pool_key : string) : TxE (result nat text)
| MysqlCheckout (pool_key : string) : TxE (result nat text)
| SetSearchPath (conn : nat) (schema : text) : TxE (result Z text)
| ResetSearchPath (conn : nat) : TxE (result Z text)
| ApplySessionTimeout (pool_key : string) (conn : nat) : TxE (result unit text)
| ApplyCatalog (conn : nat) (connection_id : string) (catalog : option text) (database : text) : TxE (result unit text)
| Control (conn : nat) (sql : text) : TxE (result unit ControlError)
| Exec (conn : nat) (sql : text) : TxE (result Z text)
| DropTransaction (conn : nat) : TxE unit                      (* a dropped tokio_postgres transaction is rolled back *)
| SqliteBatch (sql : text) : TxE (result unit text)            (* execute_batch *)
| SqliteChanges : TxE Z                                        (* changes() *)
| D1Execute (sql : text) : TxE (result QueryResult text)
| AgentTransaction (database : option text) (statements : list text) (schema : option text) : TxE (result QueryResult text)
| SqlForContext (db_type : option DatabaseType) (sql : text) (schema : option text) : TxE text
| DoExecute (pool_key : string) (database : option text) (sql : text) (schema : option text) : TxE (result QueryResult text)
| Elapsed : TxE N
| Dispose (pool_key : string) (disposal : PoolDisposal) : TxE unit
| DetachAgent (pool_key : string) (replace_runtime : bool) : TxE unit
| NewTransactionId : TxE string                                (* a uuid *)
| NowRfc3339 : TxE string.

Abbreviation tx := (prog TxE) (only parsing).

Definition statement_failed (i : nat) (e : text) : text :=
  query_error_with_omitted_sql_context (c "Statement " ++ c (pretty (N.of_nat (i + 1))) ++ c " failed: " ++ e).
Definition begin_failed (e : text) : text := c "Failed to begin transaction: " ++ e.

(** The result of a transaction: the affected rows and the time. *)
Definition affected_result (total : Z) : tx (result QueryResult text) :=
  ms ← perform Elapsed; Ret (Ok (rowless_result total ms)).

(** ** PostgreSQL *)

Fixpoint exec_statements (conn i : nat) (statements : list text) (total : Z) : tx (result Z text) :=
  match statements with
  | [] => Ret (Ok total)
  | sql :: statements' =>
      r ← perform (Exec conn sql);
      match r with
      | Ok affected => exec_statements conn (i + 1) statements' (u64_add total affected)
      | Err e => Ret (Err (statement_failed i e))
      end
  end.

Definition exec_tx_pg_statements (conn : nat) (statements : list text) : tx (result Z text) :=
  r ← perform (Control conn (c "BEGIN"));
  match r with
  | Err e => Ret (Err (begin_failed (control_text e)))
  | Ok _ =>
      r ← exec_statements conn 0 statements 0;
      match r with
      | Err e => _ ← perform (DropTransaction conn); Ret (Err e)
      | Ok total =>
          r ← perform (Control conn (c "COMMIT"));
          Ret (match r with
               | Ok _ => Ok total
               | Err (TimedOut seconds) => Err (c "COMMIT " ++ control_text (TimedOut seconds))
               | Err (Refused e) => Err (c "COMMIT failed: " ++ e)
               end)
      end
  end.

Definition exec_tx_pg_inner (pool_key : string) (statements : list text) (schema : option text) : tx (result QueryResult text) :=
  r ← perform (PgCheckout pool_key);
  match r with
  | Err e => Ret (Err (c "Failed to acquire connection: " ++ e))
  | Ok conn =>
      set ← match schema with
            | None => Ret (Ok 0%Z)
            | Some schema => perform (SetSearchPath conn schema)
            end;
      match set with
      | Err e => Ret (Err (c "SET search_path failed: " ++ e))
      | Ok _ =>
          tx_result ← exec_tx_pg_statements conn statements;
          reset ← match schema with
                  | None => Ret (Ok 0%Z)
                  | Some _ => perform (ResetSearchPath conn)
                  end;
          match tx_result, reset with
          | Ok total, Ok _ => affected_result total
          | Err e, Ok _ => Ret (Err e)
          | Ok _, Err e => Ret (Err (c "PostgreSQL schema.reset cleanup failed: " ++ e))
          | Err e, Err reset_err => Ret (Err (e ++ c "; PostgreSQL schema.reset cleanup failed: " ++ reset_err))
          end
      end
  end.

(** ** MySQL *)

Definition control_after (context : string) (r : result unit ControlError) : result unit text :=
  match r with Ok _ => Ok () | Err e => Err (c context ++ c ": " ++ control_text e) end.

Definition exec_tx_mysql_inner (pool_key connection_id : string) (statements : list text) (catalog : option text)
    (database : text) : tx (result QueryResult text) :=
  r ← perform (MysqlCheckout pool_key);
  match r with
  | Err e => Ret (Err e)
  | Ok conn =>
      r ← perform (ApplySessionTimeout pool_key conn);
      match r with
      | Err e => Ret (Err e)
      | Ok _ =>
          r ← perform (ApplyCatalog conn connection_id catalog database);
          match r with
          | Err e => Ret (Err e)
          | Ok _ =>
              r ← perform (Control conn (c "START TRANSACTION"));
              match control_after "Failed to begin transaction" r with
              | Err e => Ret (Err e)
              | Ok _ =>
                  r ← exec_statements conn 0 statements 0;
                  match r with
                  | Err e => _ ← perform (Control conn (c "ROLLBACK")); Ret (Err e)
                  | Ok total =>
                      r ← perform (Control conn (c "COMMIT"));
                      match control_after "COMMIT failed" r with
                      | Err e => Ret (Err e)
                      | Ok _ => affected_result total
                      end
                  end
              end
          end
      end
  end.

(** ** SQLite *)

Fixpoint sqlite_statements (i : nat) (statements : list text) (total : Z) : tx (result Z text) :=
  match statements with
  | [] => Ret (Ok total)
  | sql :: statements' =>
      r ← perform (SqliteBatch sql);
      match r with
      | Ok _ => changes ← perform SqliteChanges; sqlite_statements (i + 1) statements' (u64_add total changes)
      | Err e => _ ← perform (SqliteBatch (c "ROLLBACK")); Ret (Err (statement_failed i e))
      end
  end.
Definition exec_tx_sqlite_inner (statements : list text) : tx (result QueryResult text) :=
  r ← perform (SqliteBatch (c "BEGIN"));
  match r with
  | Err e => Ret (Err (begin_failed e))
  | Ok _ =>
      r ← sqlite_statements 0 statements 0;
      match r with
      | Err e => Ret (Err e)
      | Ok total =>
          r ← perform (SqliteBatch (c "COMMIT"));
          match r with
          | Err e => Ret (Err (c "COMMIT failed: " ++ e))
          | Ok _ => affected_result total
          end
      end
  end.

(** ** Explicit statements, and none *)

Fixpoint explicit_statements (pool_key : string) (database : option text) (schema : option text) (i : nat)
    (statements : list text) (total : Z) : tx (result Z text) :=
  match statements with
  | [] => Ret (Ok total)
  | sql :: statements' =>
      r ← perform (DoExecute pool_key database sql schema);
      match r with
      | Ok r => explicit_statements pool_key database schema (i + 1) statements' (u64_add total (affected_rows r))
      | Err e =>
          _ ← perform (DoExecute pool_key database (c "ROLLBACK") schema);
          Ret (Err (statement_failed i e))
      end
  end.
Definition exec_tx_explicit_inner (pool_key : string) (database : option text) (statements : list text)
    (schema : option text) : tx (result QueryResult text) :=
  r ← perform (DoExecute pool_key database (c "BEGIN TRANSACTION") schema);
  match r with
  | Err e => Ret (Err (begin_failed e))
  | Ok _ =>
      r ← explicit_statements pool_key database schema 0 statements 0;
      match r with
      | Err e => Ret (Err e)
      | Ok total =>
          r ← perform (DoExecute pool_key database (c "COMMIT") schema);
          match r with
          | Err e => Ret (Err (c "COMMIT failed: " ++ e))
          | Ok _ => affected_result total
          end
      end
  end.

Fixpoint none_statements (pool_key : string) (database : option text) (schema : option text) (i : nat)
    (statements : list text) (total : Z) : tx (result Z text) :=
  match statements with
  | [] => Ret (Ok total)
  | sql :: statements' =>
      r ← perform (DoExecute pool_key database sql schema);
      match r with
      | Ok r => none_statements pool_key database schema (i + 1) statements' (u64_add total (affected_rows r))
      | Err e => Ret (Err (statement_failed i (e ++ c ". No transaction support for this database type.")))
      end
  end.
Definition exec_tx_none_inner (pool_key : string) (database : option text) (statements : list text)
    (schema : option text) : tx (result QueryResult text) :=
  r ← none_statements pool_key database schema 0 statements 0;
  match r with Err e => Ret (Err e) | Ok total => affected_result total end.

(** ** Agents *)

Definition schema_for_execution_context (db_type : option DatabaseType) (schema : option text) : option text :=
  if bool_decide (db_type = Some Iris) then None else schema.
Definition qualifies_unqualified_agent_relations (db_type : option DatabaseType) : bool :=
  bool_decide (db_type = Some Iris) || bool_decide (db_type = Some Kingbase).

Fixpoint rewrite_all (db_type : option DatabaseType) (schema : option text) (statements : list text) : tx (list text) :=
  match statements with
  | [] => Ret []
  | sql :: statements' =>
      sql ← perform (SqlForContext db_type sql schema);
      rest ← rewrite_all db_type schema statements';
      Ret (sql :: rest)
  end.

Definition with_elapsed (r : QueryResult) (ms : N) : QueryResult :=
  mk_query_result (columns r) (column_types r) (column_sortables r) (spatial_columns r) (spatial_values r) (rows r)
    (affected_rows r) ms (truncated r) (session_id r) (has_more r) (elasticsearch_raw_body r).

Definition exec_tx_agent_inner (db_type : option DatabaseType) (database : option text) (statements : list text)
    (schema : option text) : tx (result QueryResult text) :=
  statements ← (if qualifies_unqualified_agent_relations db_type then rewrite_all db_type schema statements else Ret statements);
  r ← perform (AgentTransaction database statements (schema_for_execution_context db_type schema));
  match r with
  | Err e => Ret (Err e)
  | Ok r => ms ← perform Elapsed; Ret (Ok (with_elapsed r ms))
  end.

Section execution.
Context `{HU : UnicodeCase} `{HT : SqlTokenizer} `{HJ : JsonPrinter} `{HR : SqlRisk.RiskClassifier}.

(** ** The whole transaction *)

Definition check_read_only_for_connection_multi (pool_key : string) (statements : list text) : tx (result unit text) :=
  config ← perform (ReadOnlyConfig pool_key);
  Ret (check_all_read_only statements config).

(** [discard_agent_pool_after_error]. *)
Definition discard_agent_pool (pool_key : string) (db_type : option DatabaseType) (error : text) : tx unit :=
  match discard_pool_after_error db_type error with
  | PoolKept => Ret ()
  | PoolRemoved => perform (DetachAgent pool_key false)
  | PoolDetachedWithRuntime => perform (DetachAgent pool_key true)
  end.
Definition discard_pool (pool_key : string) (db_type : option DatabaseType) (error : text) : tx unit :=
  match discard_pool_after_error db_type error with
  | PoolKept => Ret ()
  | disposal => perform (Dispose pool_key disposal)
  end.

Definition run_path (path : TxPath) (pool_key connection_id : string) (database : text) (statements : list text)
    (schema catalog : option text) (db_type : option DatabaseType) : tx (result QueryResult text) :=
  match path with
  | TxPg => exec_tx_pg_inner pool_key statements schema
  | TxMysql => exec_tx_mysql_inner pool_key connection_id statements catalog database
  | TxSqlite => exec_tx_sqlite_inner statements
  | TxCloudflareD1 => perform (D1Execute (join_t (c ";" ++ [10%N]) statements))
  | TxAgent => exec_tx_agent_inner db_type (Some database) statements schema
  | TxExplicit => exec_tx_explicit_inner pool_key (Some database) statements schema
  | TxNone => exec_tx_none_inner pool_key (Some database) statements schema
  end.

Definition execute_statements_in_transaction_on_pool (pool_key connection_id : string) (database : text)
    (statements : list text) (schema catalog : option text) : tx (result QueryResult text) :=
  checked ← check_read_only_for_connection_multi pool_key statements;
  match checked with
  | Err e => Ret (Err e)
  | Ok _ =>
      db_type ← perform (DbTypeOf connection_id);
      pool ← perform (LookupPool pool_key);
      r ← match pool with
          | Some pool => run_path (tx_path pool) pool_key connection_id database statements schema catalog db_type
          | None => Ret (Err (c "Connection not found for transaction"))
          end;
      match r with
      | Ok r => Ret (Ok r)
      | Err e =>
          _ ← (if bool_decide (tx_path <$> pool = Some TxAgent) then discard_agent_pool pool_key db_type e
               else discard_pool pool_key db_type e);
          Ret (Err e)
      end
  end.

Definition execute_statements_in_transaction (connection_id : string) (database : text) (statements : list text)
    (schema catalog : option text) : tx (result QueryResult text) :=
  r ← perform (GetOrCreatePool connection_id (query_pool_database database catalog));
  match r with
  | Err e => Ret (Err (query_error_with_omitted_sql_context e))
  | Ok key => execute_statements_in_transaction_on_pool key connection_id database statements schema catalog
  end.

(** ** Deploying a schema difference *)

Inductive SchemaDiffAtomicity : Type := GuaranteedRollback | PartialEffectsPossible.
#[export] Instance atomicity_eq_dec : EqDecision SchemaDiffAtomicity.
Proof. solve_decision. Defined.
Definition ddl_atomic (a : SchemaDiffAtomicity) : bool := bool_decide (a = GuaranteedRollback).

(** [resolve_for_db(db_type).has_capability(CAP_TRANSACTIONAL_DDL)]: the registry
    of dialects, with the plugins that were loaded. *)
Context (has_transactional_ddl : DatabaseType → bool).

Definition database_supports_transactional_ddl (db_type : DatabaseType) : bool :=
  has_transactional_ddl db_type || bool_decide (db_type ∈ [Sqlite; Rqlite; Turso; CloudflareD1]).

Definition statement_risk (db_type : option DatabaseType) (statement : text) : option SqlRisk.SqlRisk :=
  match db_type with
  | Some db_type =>
      match SqlRisk.classify_sql_risk_for_database (from_chars statement) db_type with Ok risk => Some risk | Err _ => None end
  | None => None
  end.

(** The loop: whether there is DDL; [None]: a statement decides the matter. *)
Fixpoint contains_ddl_of (db_type : option DatabaseType) (statements : list text) (contains_ddl : bool) : option bool :=
  match statements with
  | [] => Some contains_ddl
  | statement :: statements' =>
      match statement_risk db_type statement with
      | Some SqlRisk.Ddl => contains_ddl_of db_type statements' true
      | Some (SqlRisk.Write | SqlRisk.ReadOnly) => contains_ddl_of db_type statements' contains_ddl
      | Some SqlRisk.Transaction | None => None
      end
  end.

Definition classify_schema_diff_atomicity (db_type : option DatabaseType) (statements : list text)
    (has_transactional_path : bool) : SchemaDiffAtomicity :=
  if negb has_transactional_path then PartialEffectsPossible
  else match contains_ddl_of db_type statements false with
       | None => PartialEffectsPossible
       | Some false => GuaranteedRollback
       | Some true =>
           match db_type with
           | Some db_type => if database_supports_transactional_ddl db_type then GuaranteedRollback else PartialEffectsPossible
           | None => PartialEffectsPossible
           end
       end.

(** [str::parse::<usize>] of digits. *)
Definition parse_usize_digits (digits : text) : option N :=
  match digits with
  | [] => None
  | _ =>
      let n := fold_left (λ n x, 10 * n + (x - 48))%N digits 0%N in
      if (n <=? 2 ^ 64 - 1)%N then Some n else None
  end.

Definition executed_count_before_error (error : text) (statement_count : nat) : nat :=
  match strip_prefix_t error (c "Statement ") with
  | None => statement_count
  | Some rest =>
      match parse_usize_digits (span_t is_ascii_digit rest).1 with
      | None => statement_count
      | Some statement_number => N.to_nat (N.min (statement_number - 1) (N.of_nat statement_count))
      end
  end.

Definition schema_diff_failure_outcome (atomicity : SchemaDiffAtomicity) (error : text) (statement_count : nat)
    : TwoPhaseCommit.Status.TransactionStatus * nat :=
  if ddl_atomic atomicity then (TwoPhaseCommit.Status.RolledBack, 0)
  else (TwoPhaseCommit.Status.Mixed, executed_count_before_error error statement_count).

Record SchemaDiffDeployResult : Type := mk_deploy {
  transaction_id : string; status : string; participants : list TwoPhaseCommit.ParticipantInfo; created_at : string;
  updated_at : string; executed_count : nat; statement_count : nat; deploy_error : option text; metadata : Value
}.

(** Blank lines and line comments only. *)
Definition only_comments (s : text) : bool :=
  forallb (λ line, let t := trim_t (chars line) in text_eqb t [] || starts_with_t t (c "--")) (lines (from_chars s)).
Definition parsed_statements (db_type : option DatabaseType) (statements : list text) : list text :=
  List.filter (λ s, negb (text_eqb s []) && negb (only_comments s))
    (trim_t <$> (statements ≫= λ s, statements_of s db_type)).

Definition number_value (n : N) : Value := Number (pretty n).
Definition deploy_metadata (more : list (string * Value)) : Value :=
  Object ([("source", VString "schema_diff_deploy"); ("mode", VString "single_connection_tx")] ++ more).

Definition execute_schema_diff_deploy (connection_id : string) (database : text) (statements : list text)
    (schema : option text) : tx SchemaDiffDeployResult :=
  uuid ← perform NewTransactionId;
  now ← perform NowRfc3339;
  db_type ← perform (DbTypeOf connection_id);
  let tx_id := ("deploy_" +:+ uuid)%string in
  let parsed := parsed_statements db_type statements in
  let participant := TwoPhaseCommit.mk_info "connection" (connection_id +:+ "/" +:+ from_chars database) "database" in
  let report status updated executed error more :=
    mk_deploy tx_id (TwoPhaseCommit.Status.as_str status) [participant] now updated executed (List.length parsed) error
      (deploy_metadata more) in
  if bool_decide (parsed = []) then Ret (report TwoPhaseCommit.Status.Committed now 0 None [])
  else
    key ← match database with
          | [] => Ret (Ok connection_id)
          | _ => perform (GetOrCreatePool connection_id (Some database))
          end;
    match key with
    | Err _ =>
        updated ← perform NowRfc3339;
        Ret (report TwoPhaseCommit.Status.RolledBack updated 0 (Some (c "Connection not available for deploy")) [])
    | Ok pool_key =>
        pool ← perform (LookupPool pool_key);
        let has_transactional_path := match pool with Some p => pool_kind_has_transactional_path p | None => false end in
        let atomicity := classify_schema_diff_atomicity db_type parsed has_transactional_path in
        r ← execute_statements_in_transaction_on_pool pool_key connection_id database parsed schema None;
        updated ← perform NowRfc3339;
        Ret (match r with
             | Ok r =>
                 report TwoPhaseCommit.Status.Committed updated (List.length parsed) None
                   [("affected_rows", Number (pretty (affected_rows r))); ("execution_time_ms", number_value (execution_time_ms r))]
             | Err e =>
                 let '(status, executed) := schema_diff_failure_outcome atomicity e (List.length parsed) in
                 report status updated executed (Some e)
                   [("ddl_atomic", Bool (ddl_atomic atomicity));
                    ("atomicity", VString (match atomicity with
                                           | GuaranteedRollback => "guaranteed_rollback"
                                           | PartialEffectsPossible => "partial_effects_possible"
                                           end));
                    ("error", VString (from_chars e))]
             end)
    end.
End execution.
