(* ===== verification/TxAtomic.v ===== *)
(** * Transactions are all or nothing (query.rs, db/turso_driver.rs)

    What the transactions of Transactions leave in a database: everything or
    nothing, when the connection keeps a transaction open from BEGIN to COMMIT;
    what the report of a deployment says about it; and what becomes of both on
    Turso, whose driver answers BEGIN, COMMIT and ROLLBACK itself. *)
From S2P Require Import Prelude RustStr Json SqlText SqlSplit SqlGuard AgentContext PoolErrors QueryTypes Prog Transactions.
From S2P Require SqlRisk TwoPhaseCommit.

(** ** A connection to a database *)

Inductive StatementKind : Type := BeginsTx | CommitsTx | RollsBackTx | PlainStatement | EndsTx.

(** A database server: how it reads a statement, and what a statement does that
    was accepted, or refused. [EndsTx] are the statements that commit implicitly. *)
Class SqlServerModel : Type := {
  Db : Type;
  kind_of : text → StatementKind;
  effect : text → bool → Db → Db;
  kind_of_begin sql : sql ∈ [c "BEGIN"; c "BEGIN TRANSACTION"; c "START TRANSACTION"] → kind_of sql = BeginsTx;
  kind_of_commit : kind_of (c "COMMIT") = CommitsTx;
  kind_of_rollback : kind_of (c "ROLLBACK") = RollsBackTx
}.

(** ** The Turso driver (db/turso_driver.rs) *)

(** The loop of [split_sql_statements]: [current] is the statement so far. *)
Fixpoint turso_split_loop (in_single in_double : bool) (current l : text) : list text :=
  match l with
  | [] => let last := trim_t (rev current) in if text_eqb last [] || text_eqb last (c ";") then [] else [last]
  | x :: l' =>
      if (x =? SQ)%N && negb in_double then turso_split_loop (negb in_single) in_double (x :: current) l'
      else if (x =? DQ)%N && negb in_single then turso_split_loop in_single (negb in_double) (x :: current) l'
      else if (x =? 59)%N && negb in_single && negb in_double then
        let statement := trim_t (rev current) in
        if text_eqb statement [] then turso_split_loop in_single in_double [] l'
        else statement :: turso_split_loop in_single in_double [] l'
      else turso_split_loop in_single in_double (x :: current) l'
  end.
Definition turso_split_sql_statements (sql : text) : list text :=
  let trimmed := trim_t sql in
  match trimmed with [] => [] | _ => turso_split_loop false false [] trimmed end.

Definition turso_is_tx_control (sql : text) : bool :=
  match turso_split_sql_statements sql with
  | [statement] => starts_with_executable_sql_keyword statement ["BEGIN"; "COMMIT"; "ROLLBACK"; "START"; "END"]
  | _ => false
  end.

(** [execute_query_with_max_rows]: [exec] is the request to the server. *)
Definition turso_execute_query {D} (exec : text → D → result QueryResult text * D) (sql : text) (db : D)
    : result QueryResult text * D :=
  if turso_is_tx_control sql then (Ok (rowless_result 0 0), db) else exec sql db.

Section session.
Context `{HS : SqlServerModel}.

(** What is committed, and the state of the open transaction. *)
Record Session : Type := mk_session { committed : Db; working : option Db }.

Definition run_sql (sql : text) (ok : bool) (s : Session) : Session :=
  match kind_of sql with
  | BeginsTx => if ok then mk_session (committed s) (Some (default (committed s) (working s))) else s
  | CommitsTx => if ok then mk_session (default (committed s) (working s)) None else s
  | RollsBackTx => if ok then mk_session (committed s) None else s
  | PlainStatement =>
      match working s with
      | Some w => mk_session (committed s) (Some (effect sql ok w))
      | None => mk_session (effect sql ok (committed s)) None
      end
  | EndsTx => mk_session (effect sql ok (default (committed s) (working s))) None
  end.

Definition session_event (e : event TxE) (s : Session) : Session :=
  match e with
  | Ev (Control _ sql) r => run_sql sql (accepted r) s
  | Ev (Exec _ sql) r => run_sql sql (accepted r) s
  | Ev (DropTransaction _) _ => run_sql (c "ROLLBACK") true s
  | Ev (SqliteBatch sql) r => run_sql sql (accepted r) s
  | Ev (DoExecute _ _ sql _) r => run_sql sql (accepted r) s
  | _ => s
  end.
Definition replay (t : list (event TxE)) (s : Session) : Session := foldl (λ s e, session_event e s) s t.

(** All statements, one after the other. *)
Definition run_all (statements : list text) (db : Db) : Db := foldl (λ db sql, effect sql true db) db statements.

Lemma replay_snoc t e s : replay (t ++ [e]) s = session_event e (replay t s).
Proof. unfold replay. by rewrite foldl_app. Qed.

Definition plain (sql : text) : Prop := kind_of sql = PlainStatement.

Lemma run_plain sql ok s w : plain sql → working s = Some w → run_sql sql ok s = mk_session (committed s) (Some (effect sql ok w)).
Proof. unfold run_sql. by intros -> ->. Qed.
Lemma run_begin sql s : sql ∈ [c "BEGIN"; c "BEGIN TRANSACTION"; c "START TRANSACTION"] → working s = None →
  run_sql sql true s = mk_session (committed s) (Some (committed s)) ∧ run_sql sql false s = s.
Proof. unfold run_sql. intros H ->. by rewrite kind_of_begin. Qed.
Lemma run_commit s w : working s = Some w →
  run_sql (c "COMMIT") true s = mk_session w None ∧ run_sql (c "COMMIT") false s = s.
Proof. unfold run_sql. intros ->. by rewrite kind_of_commit. Qed.
Lemma run_rollback ok s : committed (run_sql (c "ROLLBACK") ok s) = committed s.
Proof. unfold run_sql. rewrite kind_of_rollback. by destruct ok. Qed.

Lemma replay_plain t e s0 c0 w sql ok :
  plain sql → replay t s0 = mk_session c0 (Some w) → (∀ s, session_event e s = run_sql sql ok s) →
  replay (t ++ [e]) s0 = mk_session c0 (Some (effect sql ok w)).
Proof. intros Hsql Ht He. rewrite replay_snoc, He, Ht. by apply run_plain. Qed.

(** What the statements of a transaction leave. *)
Definition statements_left (c0 w : Db) (statements : list text) (s0 : Session) (r : result Z text) (t : list (event TxE)) : Prop :=
  match r with Ok _ => replay t s0 = mk_session c0 (Some (run_all statements w)) | Err _ => committed (replay t s0) = c0 end.

Lemma exec_statements_left conn i statements total c0 w s0 t :
  Forall plain statements → replay t s0 = mk_session c0 (Some w) →
  holds (exec_statements conn i statements total) (statements_left c0 w statements s0) t.
Proof.
  intros Hp. revert i total w t. induction Hp as [|sql statements Hsql Hp IH]; intros i total w t Ht; [done|].
  cbn [exec_statements]. prog_simpl. intros r.
  pose proof (replay_plain t (Ev (Exec conn sql) r) s0 c0 w sql (accepted r) Hsql Ht (λ _, eq_refl)) as Hr.
  destruct r as [n|e]; [by apply IH|]. cbn [holds statements_left]. by rewrite Hr.
Qed.

Lemma sqlite_statements_left i statements total c0 w s0 t :
  Forall plain statements → replay t s0 = mk_session c0 (Some w) →
  holds (sqlite_statements i statements total) (statements_left c0 w statements s0) t.
Proof.
  intros Hp. revert i total w t. induction Hp as [|sql statements Hsql Hp IH]; intros i total w t Ht; [done|].
  cbn [sqlite_statements]. prog_simpl. intros r.
  pose proof (replay_plain t (Ev (SqliteBatch sql) r) s0 c0 w sql (accepted r) Hsql Ht (λ _, eq_refl)) as Hr.
  destruct r as [n|e]; cbn [holds]; intros b; [apply IH; by rewrite replay_snoc, Hr|]. cbn [statements_left].
  rewrite replay_snoc. cbn [session_event]. by rewrite run_rollback, Hr.
Qed.

Lemma explicit_statements_left key db schema i statements total c0 w s0 t :
  Forall plain statements → replay t s0 = mk_session c0 (Some w) →
  holds (explicit_statements key db schema i statements total) (statements_left c0 w statements s0) t.
Proof.
  intros Hp. revert i total w t. induction Hp as [|sql statements Hsql Hp IH]; intros i total w t Ht; [done|].
  cbn [explicit_statements]. prog_simpl. intros r.
  pose proof (replay_plain t (Ev (DoExecute key db sql schema) r) s0 c0 w sql (accepted r) Hsql Ht (λ _, eq_refl)) as Hr.
  destruct r as [n|e]; cbn [holds]; [by apply IH|]. intros b. cbn [statements_left].
  rewrite replay_snoc. cbn [session_event]. by rewrite run_rollback, Hr.
Qed.

(** ** The paths *)

(** All of the statements are committed, or none of them. *)
Definition all_or_nothing (path : TxPath) (schema : option text) (statements : list text) (s0 : Session)
    (r : result QueryResult text) (t : list (event TxE)) : Prop :=
  let everything := mk_session (run_all statements (committed s0)) None in
  match r with
  | Ok _ => replay t s0 = everything
  | Err _ => committed (replay t s0) = committed s0 ∨ path = TxPg ∧ schema ≠ None ∧ replay t s0 = everything
  end.

Section paths.
Context (statements : list text) (s0 : Session) (Hplain : Forall plain statements) (Hclosed : working s0 = None).

Lemma begin_replay t sql : replay t s0 = s0 → sql ∈ [c "BEGIN"; c "BEGIN TRANSACTION"; c "START TRANSACTION"] →
  run_sql sql true (replay t s0) = mk_session (committed s0) (Some (committed s0)) ∧ run_sql sql false (replay t s0) = s0.
Proof. intros -> Hsql. by apply run_begin. Qed.

Lemma commit_replay t : replay t s0 = mk_session (committed s0) (Some (run_all statements (committed s0))) →
  run_sql (c "COMMIT") true (replay t s0) = mk_session (run_all statements (committed s0)) None
  ∧ committed (run_sql (c "COMMIT") false (replay t s0)) = committed s0.
Proof. intros ->. destruct (run_commit (mk_session (committed s0) (Some (run_all statements (committed s0)))) _ eq_refl) as [-> ->]. done. Qed.

Lemma elapsed_all path schema t total : replay t s0 = mk_session (run_all statements (committed s0)) None →
  holds (affected_result total) (all_or_nothing path schema statements s0) t.
Proof. intros Ht ms. simpl. by rewrite replay_snoc, Ht. Qed.

Definition tx_left (r : result Z text) (t : list (event TxE)) : Prop :=
  match r with
  | Ok _ => replay t s0 = mk_session (run_all statements (committed s0)) None
  | Err _ => committed (replay t s0) = committed s0
  end.

Lemma pg_statements_left conn t : replay t s0 = s0 → holds (exec_tx_pg_statements conn statements) tx_left t.
Proof.
  intros Ht. unfold exec_tx_pg_statements. prog_simpl. intros r. destruct (begin_replay t (c "BEGIN") Ht) as [Hb Hb']; [set_solver|].
  destruct r as [[]|e]; [|cbn [holds tx_left]; by rewrite replay_snoc; cbn [session_event accepted]; rewrite Hb'].
  apply holds_bind. eapply holds_mono; [apply exec_statements_left; [done|by rewrite replay_snoc; cbn [session_event accepted]]|].
  intros [total|e] t1 Ht1; cbn [statements_left] in Ht1; cbn [holds]; intros b.
  - destruct (commit_replay t1 Ht1) as [Hc Hc']. destruct b as [[]|[|]]; cbn [tx_left]; by rewrite replay_snoc.
  - cbn [tx_left]. rewrite replay_snoc. cbn [session_event]. by rewrite run_rollback.
Qed.

Lemma pg_all_or_nothing key schema t : replay t s0 = s0 → holds (exec_tx_pg_inner key statements schema) (all_or_nothing TxPg schema statements s0) t.
Proof.
  intros Ht. unfold exec_tx_pg_inner. prog_simpl. intros r. assert (∀ t r, committed (replay t s0) = committed s0 → all_or_nothing TxPg schema statements s0 (Err r) t) as Herr by by left.
  destruct r as [conn|e]; [|apply Herr; by rewrite replay_snoc, Ht]. apply holds_bind.
  apply (holds_mono _ (λ _ t, replay t s0 = s0)); [destruct schema; [intros b|]; cbn [holds]; by rewrite !replay_snoc, Ht|].
  intros [n|e] t1 Ht1; [|apply Herr; by rewrite Ht1]. apply holds_bind. eapply holds_mono; [by apply pg_statements_left|].
  intros r t2 Hr. apply holds_bind.
  apply (holds_mono _ (λ reset t', tx_left r t' ∧ (schema = None → accepted reset = true))).
  { destruct schema as [schema|]; [intros b|by split]. split; [|done]. destruct r; cbn [tx_left] in *; by rewrite replay_snoc. }
  intros reset t3 [Hr3 Hreset]. destruct r as [total|e], reset as [n'|e']; cbn [tx_left] in Hr3.
  - by apply elapsed_all.
  - right. split_and!; [done| |done]. intros ->. by specialize (Hreset eq_refl).
  - by apply Herr.
  - by apply Herr.
Qed.

Lemma mysql_all_or_nothing key id schema catalog db t :
  replay t s0 = s0 → holds (exec_tx_mysql_inner key id statements catalog db) (all_or_nothing TxMysql schema statements s0) t.
Proof.
  intros Ht. unfold exec_tx_mysql_inner. prog_simpl.
  assert (∀ t r, committed (replay t s0) = committed s0 → all_or_nothing TxMysql schema statements s0 (Err r) t) as Herr by by left.
  intros [conn|e]; [|apply Herr; by rewrite replay_snoc, Ht]. intros [u1|e]; [|apply Herr; by rewrite !replay_snoc, Ht].
  intros [u2|e]; [|apply Herr; by rewrite !replay_snoc, Ht].
  match goal with |- holds _ _ ?u => assert (replay u s0 = s0) as Ht1 by (by rewrite !replay_snoc, Ht); revert Ht1; generalize u end.
  intros t1 Ht1. destruct (begin_replay t1 (c "START TRANSACTION") Ht1) as [Hb Hb']; [set_solver|].
  intros [[]|e]; cbn [control_after]; [|apply Herr; rewrite replay_snoc; cbn [session_event accepted]; by rewrite Hb'].
  apply holds_bind. eapply holds_mono; [apply exec_statements_left; [done|by rewrite replay_snoc; cbn [session_event accepted]]|].
  intros [total|e] t2 Ht2; cbn [statements_left] in Ht2; intros b.
  - destruct (commit_replay t2 Ht2) as [Hc Hc']. destruct b as [[]|e]; cbn [control_after]; [apply elapsed_all; by rewrite replay_snoc|].
    apply Herr. by rewrite replay_snoc.
  - apply Herr. rewrite replay_snoc. cbn [session_event]. by rewrite run_rollback.
Qed.

Lemma sqlite_all_or_nothing schema t :
  replay t s0 = s0 → holds (exec_tx_sqlite_inner statements) (all_or_nothing TxSqlite schema statements s0) t.
Proof.
  intros Ht. unfold exec_tx_sqlite_inner. prog_simpl.
  assert (∀ t r, committed (replay t s0) = committed s0 → all_or_nothing TxSqlite schema statements s0 (Err r) t) as Herr by by left.
  destruct (begin_replay t (c "BEGIN") Ht) as [Hb Hb']; [set_solver|].
  intros [[]|e]; [|apply Herr; rewrite replay_snoc; cbn [session_event accepted]; by rewrite Hb'].
  apply holds_bind. eapply holds_mono; [apply sqlite_statements_left; [done|by rewrite replay_snoc; cbn [session_event accepted]]|].
  intros [total|e] t2 Ht2; cbn [statements_left] in Ht2; [intros b|by apply Herr].
  destruct (commit_replay t2 Ht2) as [Hc Hc']. destruct b as [[]|e]; [apply elapsed_all; by rewrite replay_snoc|].
  apply Herr. by rewrite replay_snoc.
Qed.

Lemma explicit_all_or_nothing key db schema t :
  replay t s0 = s0 → holds (exec_tx_explicit_inner key db statements schema) (all_or_nothing TxExplicit schema statements s0) t.
Proof.
  intros Ht. unfold exec_tx_explicit_inner. prog_simpl.
  assert (∀ t r, committed (replay t s0) = committed s0 → all_or_nothing TxExplicit schema statements s0 (Err r) t) as Herr by by left.
  destruct (begin_replay t (c "BEGIN TRANSACTION") Ht) as [Hb Hb']; [set_solver|].
  intros [r|e]; [|apply Herr; rewrite replay_snoc; cbn [session_event accepted]; by rewrite Hb'].
  apply holds_bind. eapply holds_mono; [apply explicit_statements_left; [done|by rewrite replay_snoc; cbn [session_event accepted]]|].
  intros [total|e] t2 Ht2; cbn [statements_left] in Ht2; [intros b|by apply Herr].
  destruct (commit_replay t2 Ht2) as [Hc Hc']. destruct b as [r'|e]; [apply elapsed_all; by rewrite replay_snoc|].
  apply Herr. by rewrite replay_snoc.
Qed.
End paths.

(** ** The whole transaction *)

(** The paths on which this library begins and ends the transaction itself. *)
Definition own_paths : list TxPath := [TxPg; TxMysql; TxSqlite; TxExplicit].

Section whole.
Context `{HU : UnicodeCase} `{HT : SqlTokenizer} `{HJ : JsonPrinter} `{HR : SqlRisk.RiskClassifier}.

Lemma path_all_or_nothing path key id db statements schema catalog db_type s0 t :
  path ∈ own_paths → Forall plain statements → working s0 = None → replay t s0 = s0 →
  holds (run_path path key id db statements schema catalog db_type) (all_or_nothing path schema statements s0) t.
Proof.
  intros Hpath Hp Hw Ht. unfold own_paths in Hpath. rewrite !elem_of_cons in Hpath.
  destruct Hpath as [->|[->|[->|[->|[]%not_elem_of_nil]]]]; cbn [run_path].
  - by apply pg_all_or_nothing.
  - by apply mysql_all_or_nothing.
  - by apply sqlite_all_or_nothing.
  - by apply explicit_all_or_nothing.
Qed.

(** Every pool that was looked up is of a kind for which the library begins and
    ends transactions. *)
Definition own_pools (t : list (event TxE)) : Prop := ∀ key p, Ev (LookupPool key) (Some p) ∈ t → tx_path p ∈ own_paths.
Lemma own_pools_prefix t t' : t `prefix_of` t' → own_pools t' → own_pools t.
Proof. intros [l ->] H key p Hin. apply (H key). set_solver. Qed.

Definition everything (statements : list text) (s0 : Session) : Session := mk_session (run_all statements (committed s0)) None.

(** Rolled back; or committed, and the search path could not be reset. *)
Definition failed_left (schema : option text) (statements : list text) (s0 s : Session) : Prop :=
  committed s = committed s0 ∨ schema ≠ None ∧ s = everything statements s0.
Definition transaction_left (statements : list text) (schema : option text) (s0 : Session) (r : result QueryResult text)
    (t : list (event TxE)) : Prop :=
  own_pools t →
  match r with
  | Ok _ => replay t s0 = everything statements s0
  | Err _ => failed_left schema statements s0 (replay t s0)
  end.

Lemma on_pool_left key id db statements schema catalog s0 t :
  Forall plain statements → working s0 = None → replay t s0 = s0 →
  holds (execute_statements_in_transaction_on_pool key id db statements schema catalog) (transaction_left statements schema s0) t.
Proof.
  intros Hp Hw Ht. unfold execute_statements_in_transaction_on_pool, check_read_only_for_connection_multi. prog_simpl. intros config.
  destruct (check_all_read_only statements config) as [[]|e]; [|intros _; left; by rewrite replay_snoc, Ht].
  intros db_type pool. change (prog_bind ?p ?f) with (p ≫= f).
  match goal with |- holds _ _ ?u => assert (replay u s0 = s0) as Ht1 by (by rewrite !replay_snoc, Ht); assert (Ev (LookupPool key) pool ∈ u) as Hin by set_solver;
    revert Ht1 Hin; generalize u end.
  intros t1 Ht1 Hin. apply holds_bind'.
  apply (holds_mono _ (λ r t', own_pools t' → match r with Ok _ => replay t' s0 = everything statements s0
                                                         | Err _ => failed_left schema statements s0 (replay t' s0) end)).
  { destruct pool as [p|]; [|intros _; left; by rewrite Ht1].
    destruct (decide (tx_path p ∈ own_paths)) as [Hpath|Hno].
    - eapply holds_mono; [by apply path_all_or_nothing|]. intros [r|e] t2 Hr _; cbn [all_or_nothing] in Hr; [done|].
      destruct Hr as [Hr|(_ & Hs & Hr)]; [by left|by right].
    - eapply holds_mono; [apply holds_grows|]. intros r t2 Hpre Hown. destruct Hno. eapply (own_pools_prefix _ _ Hpre); eauto. }
  intros r t2 Hr Hpre. destruct r as [r|e]; [done|].
  assert (∀ t3, replay t3 s0 = replay t2 s0 → t2 `prefix_of` t3 → transaction_left statements schema s0 (Err e) t3) as Hend.
  { intros t3 H3 Hpre3 Hown. unfold transaction_left in *. rewrite H3. apply Hr. by eapply own_pools_prefix. }
  case_bool_decide; [unfold discard_agent_pool|unfold discard_pool]; destruct (discard_pool_after_error db_type e); cbn [prog_bind holds];
    first [by apply Hend|intros b; apply Hend; [by rewrite replay_snoc|by apply prefix_app_r]].
Qed.
End whole.

Section deploy.
Context `{HU : UnicodeCase} `{HT : SqlTokenizer} `{HJ : JsonPrinter} `{HR : SqlRisk.RiskClassifier}.


Context (has_transactional_ddl : DatabaseType → bool).

(** What a guaranteed rollback relies on: statements that are neither DDL nor
    transaction control leave the transaction open, and so does DDL where it is
    transactional. *)
Class DdlLaw : Prop := {
  risk_keeps_transaction db_type sql risk :
    statement_risk (Some db_type) sql = Some risk → risk ≠ SqlRisk.Transaction →
    (risk = SqlRisk.Ddl → database_supports_transactional_ddl has_transactional_ddl db_type = true) → plain sql
}.
Context `{HD : !DdlLaw}.

Lemma contains_ddl_stays db_type statements b : contains_ddl_of db_type statements true = Some b → b = true.
Proof. induction statements as [|sql statements IH]; simpl; [congruence|]. destruct (statement_risk db_type sql) as [[]|]; naive_solver. Qed.

Lemma contains_ddl_plain db_type statements b b' :
  contains_ddl_of (Some db_type) statements b = Some b' →
  (b' = true → database_supports_transactional_ddl has_transactional_ddl db_type = true) → Forall plain statements.
Proof.
  revert b. induction statements as [|sql statements IH]; intros b Hb Hs; [done|]. cbn [contains_ddl_of] in Hb.
  destruct (statement_risk (Some db_type) sql) as [risk|] eqn:Hr; [|done].
  assert (risk ≠ SqlRisk.Transaction) as Hne by (intros ->; done).
  constructor; [|destruct risk; by eauto]. apply (risk_keeps_transaction db_type sql risk Hr Hne). intros ->.
  apply Hs. by eapply contains_ddl_stays.
Qed.

Lemma guaranteed_plain db_type statements path :
  classify_schema_diff_atomicity has_transactional_ddl db_type statements path = GuaranteedRollback → Forall plain statements.
Proof.
  unfold classify_schema_diff_atomicity. destruct path; [|done]. simpl.
  destruct db_type as [d|]; [|destruct statements; [intros _; constructor|discriminate]]. destruct (contains_ddl_of (Some d) statements false) as [[]|] eqn:E; [|intros _|done].
  - case_match; [|done]. intros _. by eapply contains_ddl_plain.
  - by eapply contains_ddl_plain.
Qed.

Lemma holds_impl {A} (P : Prop) (p : tx A) Q t : (P → holds p Q t) → holds p (λ a t', P → Q a t') t.
Proof. revert t. induction p as [a|B call k IH]; intros t H; [done|]. intros b. apply IH. intros HP. by apply H. Qed.

Lemma executed_count_le error n : executed_count_before_error error n ≤ n.
Proof. unfold executed_count_before_error. repeat case_match; lia. Qed.

(** What a report says. *)
Definition report_true (statements : list text) (schema : option text) (s0 : Session) (report : SchemaDiffDeployResult)
    (parsed : list text) (s : Session) : Prop :=
  statement_count report = List.length parsed ∧ executed_count report ≤ List.length parsed
  ∧ (status report = "rolled_back"%string → executed_count report = 0 ∧ failed_left schema parsed s0 s)
  ∧ (status report = "committed"%string → executed_count report = List.length parsed ∧ deploy_error report = None
       ∧ (Forall plain parsed → s = everything parsed s0))
  ∧ (status report = "mixed"%string →
       ∃ e, deploy_error report = Some e ∧ executed_count report = executed_count_before_error e (List.length parsed)).

Ltac report_cases :=
  unfold report_true; cbn [status executed_count statement_count deploy_error TwoPhaseCommit.Status.as_str];
  split_and!; try reflexivity; try (intros [=]; fail); try apply Nat.le_refl; try apply Nat.le_0_l.

End deploy.
End session.

(** ** How many statements were executed *)

Lemma digit_char_value x : (x < 10)%N → (N_of_ascii (pretty_N_char x) - 48 = x)%N ∧ is_ascii_digit (N_of_ascii (pretty_N_char x)) = true
  ∧ c (String (pretty_N_char x) "") = [N_of_ascii (pretty_N_char x)] ∧ utf8 (String (pretty_N_char x) "") = true.
Proof. intros Hx. destruct x as [|[[[]|[]|]|[[]|[]|]|]]; try done; try lia; repeat (destruct p; try done; try lia). Qed.

(** The digits of a number are read back as the number. *)
Lemma pretty_read_back (n : N) :
  Forall (λ x, is_ascii_digit x = true) (c (pretty n)) ∧ c (pretty n) ≠ []
  ∧ fold_left (λ n x, 10 * n + (x - 48))%N (c (pretty n)) 0%N = n.
Proof.
  assert (∀ x s, Forall (λ x, is_ascii_digit x = true) (c s) →
    Forall (λ x, is_ascii_digit x = true) (c (pretty_N_go x s)) ∧ (x ≠ 0%N ∨ c s ≠ [] → c (pretty_N_go x s) ≠ [])
    ∧ fold_left (λ n x, 10 * n + (x - 48))%N (c (pretty_N_go x s)) 0%N = fold_left (λ n x, 10 * n + (x - 48))%N (c s) x) as Hgo.
  { intros x. induction (N.lt_wf_0 x) as [x _ IH]. intros s Hs. destruct (decide (x = 0)%N) as [->|Hx].
    - rewrite pretty_N_go_0. split_and!; [done|naive_solver|done].
    - rewrite pretty_N_go_step by lia. pose proof (N.mod_lt x 10 ltac:(lia)) as Hm.
      destruct (digit_char_value (x `mod` 10)%N Hm) as (Hv & Hd & Hc & Hu).
      assert (c (String (pretty_N_char (x `mod` 10)) s) = N_of_ascii (pretty_N_char (x `mod` 10)) :: c s) as Hcs.
      { change (String (pretty_N_char (x `mod` 10)) s) with (String (pretty_N_char (x `mod` 10)) "" +:+ s)%string.
        unfold c in *. by rewrite chars_app, Hc. }
      destruct (IH (x `div` 10)%N ltac:(apply N.div_lt; lia) (String (pretty_N_char (x `mod` 10)) s)) as (H1 & H2 & H3).
      { rewrite Hcs. by constructor. }
      split_and!; [done|intros _; apply H2; right; by rewrite Hcs|]. rewrite H3, Hcs. simpl. rewrite Hv. f_equal.
      pose proof (N.div_mod x 10 ltac:(lia)). lia. }
  unfold pretty, pretty_N. case_decide as Hn; [subst; split_and!; by repeat constructor|]. destruct (Hgo n "" ltac:(constructor)) as (H1 & H2 & H3).
  split_and!; [done|apply H2; by left|done].
Qed.

(** The number of the failed statement is read from its error: the statements
    before it were executed. *)
Lemma executed_count_of_statement i e n :
  (N.of_nat i + 1 < 2 ^ 64)%N → executed_count_before_error (statement_failed i e) n = Nat.min i n.
Proof.
  intros Hi. assert (∃ rest, statement_failed i e = c "Statement " ++ c (pretty (N.of_nat (i + 1))) ++ 32%N :: rest) as [rest Hrest].
  { unfold statement_failed, query_error_with_omitted_sql_context. case_match; eexists; rewrite <-?app_assoc; reflexivity. }
  unfold executed_count_before_error. rewrite Hrest. rewrite (strip_prefix_t_app (c "Statement ")).
  destruct (pretty_read_back (N.of_nat (i + 1))) as (Hd & Hne & Hv). set (digits := c (pretty _)) in *.
  assert (span_t is_ascii_digit (digits ++ 32%N :: rest) = (digits, 32%N :: rest)) as ->.
  { clear -Hd. induction Hd as [|x l Hx _ IH]; [done|]. cbn [app span_t]. by rewrite Hx, IH. }
  cbn [fst]. unfold parse_usize_digits. rewrite Hv. destruct digits as [|d l]; [done|].
  destruct (N.of_nat (i + 1) <=? 2 ^ 64 - 1)%N eqn:E; [|apply N.leb_gt in E; lia]. lia.
Qed.

(** What was not executed is counted all the same. *)
Lemma unstarted_counts_all e n :
  executed_count_before_error (begin_failed e) n = n
  ∧ executed_count_before_error (c "Connection not found for transaction") n = n.
Proof. done. Qed.

(** ** On Turso *)

Section turso.
Context `{HU : UnicodeCase} `{HT : SqlTokenizer} `{HJ : JsonPrinter} `{HR : SqlRisk.RiskClassifier}.
Context (has_transactional_ddl : DatabaseType → bool) {D : Type} (exec : text → D → result QueryResult text * D).

(** A connection to Turso over a server that executes statements. *)
Definition turso_handler {B} (call : TxE B) (db : D) : B * D :=
  match call in TxE B return B * D with
  | GetOrCreatePool id _ => (Ok id, db)
  | LookupPool _ => (Some TursoPool, db)
  | ReadOnlyConfig _ => (None, db)
  | DbTypeOf _ => (Some Turso, db)
  | PgCheckout _ => (Err [], db)
  | MysqlCheckout _ => (Err [], db)
  | SetSearchPath _ _ => (Err [], db)
  | ResetSearchPath _ => (Err [], db)
  | ApplySessionTimeout _ _ => (Err [], db)
  | ApplyCatalog _ _ _ _ => (Err [], db)
  | Control _ _ => (Err (Refused []), db)
  | Exec _ _ => (Err [], db)
  | DropTransaction _ => ((), db)
  | SqliteBatch _ => (Err [], db)
  | SqliteChanges => (0%Z, db)
  | D1Execute _ => (Err [], db)
  | AgentTransaction _ _ _ => (Err [], db)
  | SqlForContext _ sql _ => (sql, db)
  | DoExecute _ _ sql _ => turso_execute_query exec sql db
  | Elapsed => (0%N, db)
  | Dispose _ _ => ((), db)
  | DetachAgent _ _ => ((), db)
  | NewTransactionId => ("0"%string, db)
  | NowRfc3339 => ("2024-01-01T00:00:00+00:00"%string, db)
  end.

(** A deployment to Turso is no transaction: its driver answers BEGIN and
    ROLLBACK itself and sends every statement alone, so when the second one fails
    the report says that the script was rolled back and that nothing was executed,
    and the first statement stays in the database. *)
Theorem turso_deploy_not_atomic id db statements schema sql1 sql2 s0 s1 s2 r1 e :
  parsed_statements (Some Turso) statements = [sql1; sql2] →
  turso_is_tx_control sql1 = false → turso_is_tx_control sql2 = false →
  classify_schema_diff_atomicity has_transactional_ddl (Some Turso) [sql1; sql2] true = GuaranteedRollback →
  exec sql1 s0 = (Ok r1, s1) → exec sql2 s1 = (Err e, s2) →
  let '(report, s) := interp (@turso_handler) (execute_schema_diff_deploy has_transactional_ddl id db statements schema) s0 in
  status report = "rolled_back"%string ∧ executed_count report = 0 ∧ statement_count report = 2
  ∧ deploy_error report = Some (statement_failed 1 e) ∧ s = s2.
Proof.
  intros Hp H1 H2 Hg He1 He2. unfold execute_schema_diff_deploy. prog_simpl. cbn [interp turso_handler]. rewrite Hp.
  rewrite bool_decide_eq_false_2 by done. cbv zeta.
  assert (∀ key, interp (@turso_handler) (execute_statements_in_transaction_on_pool key id db [sql1; sql2] schema None) s0
    = (Err (statement_failed 1 e), s2)) as Hpool.
  { intros key. unfold execute_statements_in_transaction_on_pool, check_read_only_for_connection_multi. prog_simpl.
    cbn [interp turso_handler check_all_read_only tx_path run_path prog_bind fmap option_fmap option_map].
    unfold exec_tx_explicit_inner. prog_simpl. cbn [interp turso_handler]. unfold turso_execute_query at 1.
    assert (turso_is_tx_control (c "BEGIN TRANSACTION") = true) as -> by by vm_compute.
    cbn [explicit_statements]. prog_simpl. cbn [interp turso_handler]. unfold turso_execute_query at 1. rewrite H1, He1.
    cbn [explicit_statements]. prog_simpl. cbn [interp turso_handler]. unfold turso_execute_query at 1. rewrite H2, He2.
    cbn [interp prog_bind turso_handler]. unfold turso_execute_query at 1.
    assert (turso_is_tx_control (c "ROLLBACK") = true) as -> by by vm_compute.
    rewrite bool_decide_eq_false_2 by done. unfold discard_pool. destruct (discard_pool_after_error _ _); done. }
  assert (∀ key (k : result QueryResult text → tx SchemaDiffDeployResult),
    interp (@turso_handler) (prog_bind (execute_statements_in_transaction_on_pool key id db [sql1; sql2] schema None) k) s0
    = interp (@turso_handler) (k (Err (statement_failed 1 e))) s2) as Hbind.
  { intros key k. change (prog_bind ?p ?f) with (p ≫= f). by rewrite interp_bind, Hpool. }
  destruct db as [|x db]; cbn [prog_bind interp turso_handler pool_kind_has_transactional_path]; rewrite Hbind;
    cbn [interp turso_handler]; rewrite Hg; done.
Qed.
End turso.

(** ** At work *)

(** A server that keeps the statements it accepted, and what it calls them. *)
Definition demo_kind (sql : text) : StatementKind :=
  if bool_decide (sql ∈ [c "BEGIN"; c "BEGIN TRANSACTION"; c "START TRANSACTION"]) then BeginsTx
  else if text_eqb sql (c "COMMIT") then CommitsTx
  else if text_eqb sql (c "ROLLBACK") then RollsBackTx
  else PlainStatement.
Program Definition demo_server : SqlServerModel :=
  {| Db := list text; kind_of := demo_kind; effect sql ok db := if ok then db ++ [sql] else db |}.
Next Obligation. intros sql H. unfold demo_kind. by rewrite bool_decide_eq_true_2. Qed.
Next Obligation. by vm_compute. Qed.
Next Obligation. by vm_compute. Qed.
Definition demo_classifier : SqlRisk.RiskClassifier :=
  {| SqlRisk.classify_sql_risk_for_database sql _ :=
       if bool_decide (sql ∈ ["BEGIN"; "BEGIN TRANSACTION"; "START TRANSACTION"; "COMMIT"; "ROLLBACK"])
       then Ok SqlRisk.Transaction else Ok SqlRisk.Write |}.

Lemma demo_law : @DdlLaw demo_server demo_classifier (λ _, false).
Proof.
  split. intros db_type sql risk Hr Hne _. unfold plain. cbn [kind_of demo_server]. unfold statement_risk in Hr.
  cbn [SqlRisk.classify_sql_risk_for_database demo_classifier] in Hr. case_bool_decide as Hin; [by simplify_eq|].
  unfold demo_kind. rewrite bool_decide_eq_false_2.
  - unfold text_eqb. rewrite !bool_decide_eq_false_2; [done|intros ->|intros ->]; by apply Hin; vm_compute; set_solver.
  - intros Hs. apply Hin. rewrite !elem_of_cons in Hs. destruct Hs as [->|[->|[->|[]%not_elem_of_nil]]]; vm_compute; set_solver.
Qed.

Definition insert_a : text := c "INSERT INTO a VALUES (1)".
Definition insert_b : text := c "INSERT INTO missing VALUES (1)".
Definition empty_session : @Session demo_server := @mk_session demo_server [] None.



(** A server without the table [missing]. *)
Definition demo_exec (sql : text) (db : list text) : result QueryResult text * list text :=
  if text_eqb sql insert_b then (Err (c "no such table"), db) else (Ok (rowless_result 1 0), db ++ [sql]).

Lemma turso_deploy_not_atomic_witness :
  let '(report, db) := interp (@turso_handler (list text) demo_exec)
    (@execute_schema_diff_deploy ascii_case wordless_tokenizer digit_printer demo_classifier (λ _, false) "db" [] [insert_a; insert_b] None) [] in
  status report = "rolled_back"%string ∧ executed_count report = 0 ∧ db = [insert_a].
Proof.
  pose proof (@turso_deploy_not_atomic ascii_case wordless_tokenizer digit_printer demo_classifier (λ _, false) (list text) demo_exec "db" []
    [insert_a; insert_b] None insert_a insert_b [] [insert_a] [insert_a] (rowless_result 1 0) (c "no such table")) as H.
  destruct (interp _ _ _) as [report db]. destruct H as (H1 & H2 & _ & _ & H3); [by vm_compute..|]. done.
Defined.
