(* ===== verification/StatementRun.v ===== *)
(** * Executing statements (query.rs)

    One statement on the pool of a connection, with the second attempt after a lost
    connection; the DROP DATABASE that leaves the database it drops; and batches of
    statements, with one result and one progress report each: the SQL Server
    batches, the MySQL batch on one connection, and statements one by one. Pools,
    drivers and the cancellation token are the calls [RunE]. *)
From S2P Require Import Prelude RustStr Json SqlText SqlSplit SqlGuard AgentContext PoolErrors QueryTypes Prog.
From S2P Require Transactions.

(** ** Options *)

Inductive QueryExecutionMode : Type := Standard | Simple.
#[export] Instance execution_mode_eq_dec : EqDecision QueryExecutionMode.
Proof. solve_decision. Defined.

Record QueryExecutionOptions : Type := mk_options {
  max_rows : option nat; fetch_size : option nat; page_size : option nat; catalog : option text;
  result_session_id : option string; client_session_id : option string; timeout_secs : option N;
  execution_id : option string; use_transaction : option bool; continue_on_error : bool; execution_mode : QueryExecutionMode
}.
Definition QueryExecutionOptions_default : QueryExecutionOptions :=
  mk_options None None None None None None None None None false Standard.
Definition with_timeout (secs : option N) : QueryExecutionOptions :=
  mk_options None None None None None None secs None None false Standard.

Definition options_for_sequential_statements (options : QueryExecutionOptions) (statement_count : nat)
    (db_type : option DatabaseType) : QueryExecutionOptions :=
  if (statement_count <=? 1) || negb (bool_decide (db_type = Some Kingbase)) || bool_decide (is_Some (result_session_id options))
  then options
  else match page_size options with
       | None => options
       | Some page_size =>
           let page_size := max page_size 1 in
           mk_options (Some (match max_rows options with None => page_size | Some max_rows => min max_rows page_size end))
             (fetch_size options) None (catalog options) (result_session_id options) (client_session_id options)
             (timeout_secs options) (execution_id options) (use_transaction options) (continue_on_error options)
             (execution_mode options)
       end.

(** ** What an execution calls *)

Inductive PoolKind : Type := MysqlPool (bare : bool) | PostgresPool | SqlServerPool (client : nat) | AgentPool (client : nat) | OtherPool.

Inductive RunE : Type → Type :=
| DbTypeOf (connection_id : string) : RunE (option DatabaseType)
| DbTypeOfPool (pool_key : string) : RunE (option DatabaseType)
| GetPool (connection_id : string) (database : option text) (session : option string) : RunE (result string text)
| ReconnectPool (connection_id : string) (database : option text) (session : option string) : RunE (result string text)
| RemovePool (pool_key : string) : RunE unit
| ClosePool (connection_id : string) (database : text) : RunE (result unit text)
| LookupPool (pool_key : string) : RunE (option PoolKind)
| ReadOnlyConfig (pool_key : string) : RunE (option (string * DatabaseType))
| SetPoolKey (execution_id pool_key : string) : RunE unit
| TouchPool (pool_key : string) : RunE unit
| BeginActivity (pool_key : string) : RunE unit
| EndActivity (pool_key : string) : RunE unit                          (* the guard is dropped *)
| IsCanceled : RunE bool                                               (* of a token that is there *)
| DoExecute (pool_key : string) (database : option text) (sql : text) (schema : option text) (cancellable : bool)
    (options : QueryExecutionOptions) : RunE (result QueryResult text)
| TerminateBackends (pool_key : string) (target : text) : RunE (result unit text)
| PgDropDatabase (pool_key : string) (sql : text) (max_rows : option nat) : RunE (result QueryResult text)
| InTransaction (connection_id : string) (database : text) (statements : list text) (schema catalog : option text)
    : RunE (result QueryResult text)                                   (* execute_statements_in_transaction *)
| LockClient (client : nat) : RunE (result unit text)
| UnlockClient (client : nat) : RunE unit
| PoolIsCurrent (pool_key : string) (client : nat) : RunE bool
| SqlServerBatch (client : nat) (batch : text) (simple : bool) (max_rows : option nat) : RunE (result (list QueryResult) text)
| MysqlCheckout (pool_key : string) : RunE (result nat text)
| ApplySessionTimeout (pool_key : string) (conn : nat) (secs : option N) : RunE (result unit text)
| ApplyCatalog (conn : nat) (connection_id : string) (catalog : option text) (database : text) : RunE (result unit text)
| MysqlStatement (conn : nat) (sql : text) (bare : bool) (max_rows : option nat) : RunE (result (list QueryResult) text)
| AgentBatch (client : nat) (database : option text) (statements : list text) (schema : option text) (secs : option N)
    : RunE (result QueryResult text)
| SqlForContext (db_type : option DatabaseType) (sql : text) (schema : option text) : RunE text
| DetachAgent (pool_key : string) (client : nat) (replace_runtime : bool) : RunE unit
| Elapsed : RunE N
| Report (progress : ExecuteMultiProgress) : RunE unit.

Abbreviation runs := (prog RunE) (only parsing).

(** [is_canceled]: without a token nothing is. *)
Definition is_canceled (cancellable : bool) : runs bool := if cancellable then perform IsCanceled else Ret false.

Definition MONGO_SHELL_COMMAND_HINT : text :=
  c "Use MongoDB shell-style commands, for example: db.collection.find({}).limit(100), db.collection.aggregate([]), db.collection.aggregate([], { explain: true }), db.version(), db.collection.countDocuments({}), db.collection.distinct(" ++ [DQ] ++ c "field" ++ [DQ] ++ c "), db.collection.getIndexes(), db.collection.createIndex({...}), or db.collection.insertOne({...}).".

Definition connection_is_mongodb (connection_id : string) : runs bool :=
  db_type ← perform (DbTypeOf connection_id); Ret (bool_decide (db_type = Some MongoDb)).

Definition with_sql_context {A} (r : result A text) : result A text :=
  match r with Ok a => Ok a | Err e => Err (query_error_with_omitted_sql_context e) end.

(** ** DROP DATABASE *)

(** What sqlparser reads: of each statement, when it is a DROP, whether of a
    database, and the parts of each name that are identifiers. *)
Record DropStatement : Type := { drops_database : bool; dropped_names : list (list (option text)) }.
Class DropParser : Type := { parse_drops : text → option (list (option DropStatement)) }.

Definition parse_drop_database_target `{DropParser} (sql : text) : option text :=
  statements ← parse_drops sql;
  match statements with
  | [Some {| drops_database := true; dropped_names := [[part]] |}] => part
  | _ => None
  end.

Section execution.
Context `{HU : UnicodeCase} `{HT : SqlTokenizer} `{HJ : JsonPrinter} `{HP : DropParser}.

Definition postgres_drop_database_target (db_type : option DatabaseType) (sql : text) : option text :=
  if bool_decide (db_type = Some Postgres) then parse_drop_database_target sql else None.
Definition postgres_drop_database_admin_database (target_database : text) : text :=
  if text_eq_ignore_ascii_case target_database (c "postgres") then c "template1" else c "postgres".

(** [if let Some(execution_id)]. *)
Definition set_pool_key (execution_id : option string) (pool_key : string) : runs unit :=
  match execution_id with Some id => perform (SetPoolKey id pool_key) | None => Ret () end.
(** The pool is in use until the guard is dropped. *)
Definition with_activity {A} (pool_key : string) (body : runs A) : runs A :=
  _ ← perform (TouchPool pool_key);
  _ ← perform (BeginActivity pool_key);
  a ← body;
  _ ← perform (EndActivity pool_key);
  Ret a.

Definition check_read_only_for_connection (pool_key : string) (sql : text) : runs (result unit text) :=
  config ← perform (ReadOnlyConfig pool_key);
  Ret (check_all_read_only [sql] config).
Definition check_read_only_for_connection_multi (pool_key : string) (statements : list text) : runs (result unit text) :=
  config ← perform (ReadOnlyConfig pool_key);
  Ret (check_all_read_only statements config).

Definition execute_postgres_drop_database (connection_id : string) (target_database sql : text) (cancellable : bool)
    (options : QueryExecutionOptions) : runs (result QueryResult text) :=
  closed ← perform (ClosePool connection_id target_database);
  match closed with
  | Err e => Ret (Err e)
  | Ok _ =>
      pool ← perform (GetPool connection_id (Some (postgres_drop_database_admin_database target_database)) (client_session_id options));
      match with_sql_context pool with
      | Err e => Ret (Err e)
      | Ok pool_key =>
          _ ← set_pool_key (execution_id options) pool_key;
          with_activity pool_key (
            canceled ← is_canceled cancellable;
            if (canceled : bool) then Ret (Err QUERY_CANCELED)
            else
              checked ← check_read_only_for_connection pool_key sql;
              match checked with
              | Err e => Ret (Err e)
              | Ok _ =>
                  pool ← perform (LookupPool pool_key);
                  match pool with
                  | Some PostgresPool =>
                      terminated ← perform (TerminateBackends pool_key target_database);
                      match terminated with
                      | Err e => Ret (Err e)
                      | Ok _ => perform (PgDropDatabase pool_key sql (max_rows options))
                      end
                  | Some _ => Ret (Err (c "DROP DATABASE reconnect did not create a PostgreSQL connection"))
                  | None => Ret (Err (c "Connection not found"))
                  end
              end)
      end
  end.

(** ** One statement *)

Definition statement_has_executable (db_type : option DatabaseType) (sql : text) : bool :=
  match db_type with
  | None => has_executable_sql_with_options sql SqlDialectProfile_default
  | Some d => has_executable_sql_with_options sql (for_database_type d)
  end.

Definition execute_sql_statement_with_options (connection_id : string) (database sql : text) (schema : option text)
    (cancellable : bool) (options : QueryExecutionOptions) : runs (result QueryResult text) :=
  mongodb ← connection_is_mongodb connection_id;
  if (mongodb : bool) then Ret (Err MONGO_SHELL_COMMAND_HINT)
  else
    db_type ← perform (DbTypeOf connection_id);
    if negb (statement_has_executable db_type sql) then Ret (Ok (empty_query_result 0))
    else match postgres_drop_database_target db_type sql with
    | Some target_database => execute_postgres_drop_database connection_id target_database sql cancellable options
    | None =>
        let pool_database := query_pool_database database (catalog options) in
        pool ← perform (GetPool connection_id pool_database (client_session_id options));
        match with_sql_context pool with
        | Err e => Ret (Err e)
        | Ok pool_key =>
            canceled ← is_canceled cancellable;
            if (canceled : bool) then Ret (Err QUERY_CANCELED)
            else
              r ← perform (DoExecute pool_key (Some database) sql schema cancellable options);
              match r with
              | Ok r => Ret (Ok r)
              | Err e =>
                  match query_pool_error_action db_type sql e with
                  | ReconnectAndRetry =>
                      canceled ← is_canceled cancellable;
                      if (canceled : bool) then Ret (with_sql_context (Err e))
                      else
                        pool ← perform (ReconnectPool connection_id pool_database (client_session_id options));
                        match with_sql_context pool with
                        | Err e => Ret (Err e)
                        | Ok new_key =>
                            r ← perform (DoExecute new_key (Some database) sql schema cancellable options);
                            Ret (with_sql_context r)
                        end
                  | Discard =>
                      _ ← (if served_by_agent db_type then Ret () else perform (RemovePool pool_key));
                      Ret (with_sql_context (Err e))
                  | Keep => Ret (with_sql_context (Err e))
                  end
              end
        end
    end.

(** ** Batches: what they report *)

Definition report_execute_multi_progress (reporting : bool) (i total : nat) (r : QueryResult) (ok : bool) (error : option text)
    : runs unit := if reporting then perform (Report (execute_multi_progress i total r ok error)) else Ret ().

(** ** Batches of SQL Server *)

Definition SQLSERVER_RESET : text :=
  c "SQL Server connection was reset while waiting for the query lock; please retry.".

Fixpoint sqlserver_batches (pool_key : string) (cancellable : bool) (options : QueryExecutionOptions) (batches : list text)
    (all_results : list QueryResult) : runs (result (list QueryResult) text) :=
  match batches with
  | [] => Ret (Ok all_results)
  | batch :: batches' =>
      canceled ← is_canceled cancellable;
      if (canceled : bool) then Ret (Ok (all_results ++ [error_query_result QUERY_CANCELED]))
      else
        pool ← perform (LookupPool pool_key);
        match pool with
        | None => Ret (Err (c "Connection not found"))
        | Some (SqlServerPool client) =>
            locked ← perform (LockClient client);
            match locked with
            | Err err => Ret (Ok (all_results ++ [error_query_result err]))
            | Ok _ =>
                current ← perform (PoolIsCurrent pool_key client);
                if negb current then
                  _ ← perform (UnlockClient client);
                  Ret (Ok (all_results ++ [error_query_result SQLSERVER_RESET]))
                else
                  r ← perform (SqlServerBatch client batch (bool_decide (execution_mode options = Simple)) (max_rows options));
                  _ ← perform (UnlockClient client);
                  match r with
                  | Ok results => sqlserver_batches pool_key cancellable options batches' (all_results ++ results)
                  | Err e =>
                      let action := pool_error_action (Some SqlServer) e in
                      _ ← (if bool_decide (action = Keep) then Ret () else perform (RemovePool pool_key));
                      if should_continue_batch_after_error (continue_on_error options) action
                      then sqlserver_batches pool_key cancellable options batches' (all_results ++ [error_query_result e])
                      else Ret (Ok (all_results ++ [error_query_result e]))
                  end
            end
        | Some _ => Ret (Err (c "Expected SQL Server connection"))
        end
  end.

Definition or_empty (all_results : list QueryResult) : list QueryResult :=
  match all_results with [] => [empty_query_result 0] | _ => all_results end.

Definition execute_multi_sqlserver (pool_key : string) (sql : text) (cancellable : bool) (options : QueryExecutionOptions)
    : runs (result (list QueryResult) text) :=
  let batches := split_sql_batches sql in
  checked ← check_read_only_for_connection_multi pool_key batches;
  match checked with
  | Err e => Ret (Err e)
  | Ok _ =>
      r ← sqlserver_batches pool_key cancellable options batches [];
      match r with
      | Err e => Ret (Err e)
      | Ok all_results => Ret (Ok (or_empty all_results))
      end
  end.

(** ** Batches of MySQL *)

Definition canceled_result : ExecuteMultiResult := execution_error_result (error_query_result QUERY_CANCELED).

(** The loop of [execute_mysql_batch_statements], from statement [i]. *)
Fixpoint mysql_batch (conn : nat) (bare : bool) (options : QueryExecutionOptions) (db_type : option DatabaseType)
    (cancellable reporting : bool) (total i : nat) (statements : list text) (results : list ExecuteMultiResult)
    : runs (list ExecuteMultiResult * option PoolErrorAction) :=
  match statements with
  | [] => Ret (results, None)
  | statement :: statements' =>
      canceled ← is_canceled cancellable;
      if (canceled : bool) then Ret (results ++ [canceled_result], None)
      else
        r ← perform (MysqlStatement conn statement bare (max_rows options));
        match r with
        | Ok statement_results =>
            _ ← match last statement_results with
                | Some r => report_execute_multi_progress reporting i total r true None
                | None => Ret ()
                end;
            mysql_batch conn bare options db_type cancellable reporting total (i + 1) statements'
              (results ++ ((λ r, success_with_index r i) <$> statement_results))
        | Err err =>
            let action := pool_error_action db_type err in
            _ ← report_execute_multi_progress reporting i total (error_query_result err) false (Some err);
            let results := results ++ [execution_error_with_index (error_query_result err) i] in
            if should_continue_batch_after_error (continue_on_error options) action
            then mysql_batch conn bare options db_type cancellable reporting total (i + 1) statements' results
            else Ret (results, Some action)
        end
  end.
Definition execute_mysql_batch_statements (conn : nat) (bare : bool) (options : QueryExecutionOptions)
    (db_type : option DatabaseType) (cancellable reporting : bool) (statements : list text)
    : runs (list ExecuteMultiResult * option PoolErrorAction) :=
  mysql_batch conn bare options db_type cancellable reporting (List.length statements) 0 statements [].

Definition execute_multi_mysql (pool_key connection_id : string) (db_type : option DatabaseType) (bare : bool) (database : text)
    (statements : list text) (cancellable : bool) (options : QueryExecutionOptions) (reporting : bool)
    : runs (result (list ExecuteMultiResult) text) :=
  r ← perform (MysqlCheckout pool_key);
  match r with
  | Err err =>
      _ ← (if negb (bool_decide (pool_error_action db_type err = Keep)) || text_eqb err QUERY_CANCELED
           then perform (RemovePool pool_key) else Ret ());
      Ret (Ok [execution_error_result (error_query_result err)])
  | Ok conn =>
      r ← perform (ApplySessionTimeout pool_key conn (timeout_secs options));
      match r with
      | Err e => Ret (Err e)
      | Ok _ =>
          r ← perform (ApplyCatalog conn connection_id (catalog options) database);
          match r with
          | Err e => Ret (Err e)
          | Ok _ =>
              r ← execute_mysql_batch_statements conn bare options db_type cancellable reporting statements;
              let '(results, error_action) := r in
              _ ← match error_action with
                  | Some (Discard | ReconnectAndRetry) => perform (RemovePool pool_key)
                  | Some Keep | None => Ret ()
                  end;
              Ret (Ok results)
          end
      end
  end.

(** ** Statements one by one *)

(** The loop at the end of [execute_multi_core_with_options_for_client_and_progress]. *)
Fixpoint sequential_statements (connection_id : string) (database : text) (schema : option text) (cancellable : bool)
    (continue : bool) (statement_options : QueryExecutionOptions) (db_type : option DatabaseType) (reporting : bool)
    (total i : nat) (statements : list text) (results : list ExecuteMultiResult) : runs (list ExecuteMultiResult) :=
  match statements with
  | [] => Ret results
  | statement :: statements' =>
      canceled ← is_canceled cancellable;
      if (canceled : bool) then Ret (results ++ [canceled_result])
      else
        r ← execute_sql_statement_with_options connection_id database statement schema cancellable statement_options;
        match r with
        | Ok r =>
            _ ← report_execute_multi_progress reporting i total r true None;
            sequential_statements connection_id database schema cancellable continue statement_options db_type reporting total
              (i + 1) statements' (results ++ [success_with_index r i])
        | Err e =>
            let action := query_pool_error_action db_type statement e in
            _ ← report_execute_multi_progress reporting i total (error_query_result e) false (Some e);
            let results := results ++ [execution_error_with_index (error_query_result e) i] in
            if should_continue_batch_after_error continue action
            then sequential_statements connection_id database schema cancellable continue statement_options db_type reporting
                   total (i + 1) statements' results
            else Ret results
        end
  end.

(** [?], and [vec![result.into()]]. *)
Definition one_result (r : result QueryResult text) : result (list ExecuteMultiResult) text :=
  match r with Ok r => Ok [multi_result_from r] | Err e => Err e end.

Definition is_sqlserver_pool (pool : option PoolKind) : bool := match pool with Some (SqlServerPool _) => true | _ => false end.

(** The statements of a text that are neither one request nor one transaction. *)
Definition execute_batch (pool_key connection_id : string) (database : text) (statements : list text) (schema : option text)
    (cancellable : bool) (options : QueryExecutionOptions) (reporting : bool) (db_type : option DatabaseType)
    : runs (result (list ExecuteMultiResult) text) :=
  if bool_decide (use_transaction options = Some true) && (1 <? List.length statements) then
    r ← perform (InTransaction connection_id database statements schema (catalog options));
    Ret (one_result r)
  else
    pool ← perform (LookupPool pool_key);
    if List.length statements <=? 1 then
      r ← execute_sql_statement_with_options connection_id database (default [] (head statements)) schema cancellable options;
      Ret (one_result r)
    else
      match pool with
      | Some (MysqlPool bare) =>
          checked ← check_read_only_for_connection_multi pool_key statements;
          match checked with
          | Err e => Ret (Err e)
          | Ok _ => execute_multi_mysql pool_key connection_id db_type bare database statements cancellable options reporting
          end
      | _ =>
          let statement_options := options_for_sequential_statements options (List.length statements) db_type in
          results ← sequential_statements connection_id database schema cancellable (continue_on_error options)
                      statement_options db_type reporting (List.length statements) 0 statements [];
          Ret (Ok results)
      end.

Definition execute_multi_core_with_options_for_client_and_progress (connection_id : string) (database sql : text)
    (schema : option text) (cancellable : bool) (options : QueryExecutionOptions) (reporting : bool)
    : runs (result (list ExecuteMultiResult) text) :=
  mongodb ← connection_is_mongodb connection_id;
  if (mongodb : bool) then Ret (Err MONGO_SHELL_COMMAND_HINT)
  else
    pool ← perform (GetPool connection_id (query_pool_database database (catalog options)) (client_session_id options));
    match with_sql_context pool with
    | Err e => Ret (Err e)
    | Ok pool_key =>
        _ ← set_pool_key (execution_id options) pool_key;
        with_activity (A := result (list ExecuteMultiResult) text) pool_key (
          pool ← perform (LookupPool pool_key);
          if is_sqlserver_pool pool then
            r ← execute_multi_sqlserver pool_key sql cancellable options;
            Ret (match (r : result (list QueryResult) text) with Ok results => Ok (multi_result_from <$> results) | Err e => Err e end)
          else
            config_type ← perform (DbTypeOf connection_id);
            if bool_decide (config_type = Some Turso) || bool_decide (config_type = Some CloudflareD1) then
              r ← execute_sql_statement_with_options connection_id database sql schema cancellable options;
              Ret (one_result r)
            else
              db_type ← perform (DbTypeOf connection_id);
              match statements_of sql db_type with
              | [] => Ret (Ok [multi_result_from (empty_query_result 0)])
              | statements => execute_batch pool_key connection_id database statements schema cancellable options reporting db_type
              end)
    end.

(** ** Statements for agents, and of a list *)

Definition is_agent_execute_batch_unsupported (error : text) : bool :=
  let lower := to_lowercase error in
  contains_t lower (c "execute_batch") && (contains_t lower (c "unknown method") || contains_t lower (c "method not found")).

Fixpoint rewrite_statements (db_type : option DatabaseType) (schema : option text) (statements : list text) : runs (list text) :=
  match statements with
  | [] => Ret []
  | sql :: statements' =>
      sql ← perform (SqlForContext db_type sql schema);
      rest ← rewrite_statements db_type schema statements';
      Ret (sql :: rest)
  end.

Definition discard_agent_pool_after_error (pool_key : string) (client : nat) (db_type : option DatabaseType) (error : text) : runs unit :=
  match discard_pool_after_error db_type error with
  | PoolKept => Ret ()
  | PoolRemoved => perform (DetachAgent pool_key client false)
  | PoolDetachedWithRuntime => perform (DetachAgent pool_key client true)
  end.

(** [None]: the agent does not know batches. *)
Definition execute_agent_batch (pool_key connection_id : string) (client : nat) (database : text) (statements : list text)
    (schema : option text) (timeout_secs : option N) : runs (option (result QueryResult text)) :=
  checked ← check_read_only_for_connection_multi pool_key statements;
  match checked with
  | Err e => Ret (Some (Err e))
  | Ok _ =>
      db_type ← perform (DbTypeOfPool pool_key);
      statements ← (if Transactions.qualifies_unqualified_agent_relations db_type then rewrite_statements db_type schema statements
                    else Ret statements);
      r ← perform (AgentBatch client (match trim_t database with [] => None | _ => Some database end) statements
                     (Transactions.schema_for_execution_context db_type schema) timeout_secs);
      match r with
      | Ok r => ms ← perform Elapsed; Ret (Some (Ok (Transactions.with_elapsed r ms)))
      | Err err =>
          if is_agent_execute_batch_unsupported err then Ret None
          else
            db_type ← perform (DbTypeOf connection_id);
            _ ← discard_agent_pool_after_error pool_key client db_type err;
            Ret (Some (Err (query_error_with_omitted_sql_context err)))
      end
  end.

Definition previous_statements (i : nat) (e : text) : text :=
  query_error_with_omitted_sql_context
    (c "Statement " ++ c (pretty (N.of_nat (i + 1))) ++ c " failed: " ++ e ++ c ". Previous " ++ c (pretty (N.of_nat i))
     ++ c " statement(s) may have been committed.").

Fixpoint execute_each (pool_key connection_id : string) (database : text) (schema : option text) (timeout_secs : option N)
    (i : nat) (statements : list text) (total : Z) : runs (result Z text) :=
  match statements with
  | [] => Ret (Ok total)
  | sql :: statements' =>
      r ← perform (DoExecute pool_key (Some database) sql schema false (with_timeout timeout_secs));
      match r with
      | Ok r => execute_each pool_key connection_id database schema timeout_secs (i + 1) statements' (u64_add total (affected_rows r))
      | Err e =>
          db_type ← perform (DbTypeOf connection_id);
          _ ← match pool_error_action db_type e with
              | ReconnectAndRetry =>
                  _ ← perform (ReconnectPool connection_id (match database with [] => None | _ => Some database end) None); Ret ()
              | Discard => if served_by_agent db_type then Ret () else perform (RemovePool pool_key)
              | Keep => Ret ()
              end;
          Ret (Err (previous_statements i e))
      end
  end.

Definition execute_statements (connection_id : string) (database : text) (statements : list text) (schema : option text)
    (timeout_secs : option N) : runs (result QueryResult text) :=
  key ← match database with
        | [] => Ret (Ok connection_id)
        | _ => perform (GetPool connection_id (Some database) None)
        end;
  match with_sql_context key with
  | Err e => Ret (Err e)
  | Ok pool_key =>
      pool ← perform (LookupPool pool_key);
      batch ← match pool with
              | Some (AgentPool client) => execute_agent_batch pool_key connection_id client database statements schema timeout_secs
              | _ => Ret None
              end;
      match batch with
      | Some r => Ret r
      | None =>
          r ← execute_each pool_key connection_id database schema timeout_secs 0 statements 0;
          match r with
          | Err e => Ret (Err e)
          | Ok total => ms ← perform Elapsed; Ret (Ok (rowless_result total ms))
          end
      end
  end.
End execution.
