(* ===== verification/StatementReports.v ===== *)
(** * What batches of statements report (query.rs)

    The programs of StatementRun, whatever databases answer: how often a statement
    is sent, which statements of a batch are sent and what is reported of them,
    and what a list of statements leaves when one of them fails. *)
From S2P Require Import Prelude RustStr Json SqlText SqlSplit SqlGuard AgentContext PoolErrors QueryTypes Prog StatementRun.

(** ** What is sent *)

Abbreviation Answer := (result (list QueryResult) text) (only parsing).
Definition one (r : result QueryResult text) : Answer := match r with Ok r => Ok [r] | Err e => Err e end.

Definition send (e : event RunE) : list (text * Answer) :=
  match e with
  | Ev (DoExecute _ _ sql _ _ _) r => [(sql, one r)]
  | Ev (PgDropDatabase _ sql _) r => [(sql, one r)]
  | Ev (MysqlStatement _ sql _ _) r => [(sql, r)]
  | Ev (SqlServerBatch _ sql _ _) r => [(sql, r)]
  | _ => []
  end.
Definition sends (t : list (event RunE)) : list (text * Answer) := t ≫= send.

Definition report (e : event RunE) : list ExecuteMultiProgress := match e with Ev (Report progress) _ => [progress] | _ => [] end.
Definition reports (t : list (event RunE)) : list ExecuteMultiProgress := t ≫= report.

Lemma run_sends_snoc t e : sends (t ++ [e]) = sends t ++ send e.
Proof. unfold sends. rewrite bind_app. simpl. by rewrite app_nil_r. Qed.
Lemma reports_snoc t e : reports (t ++ [e]) = reports t ++ report e.
Proof. unfold reports. rewrite bind_app. simpl. by rewrite app_nil_r. Qed.

(** What was sent and reported after [t]. *)
Definition since (t t' : list (event RunE)) (l : list (text * Answer)) (p : list ExecuteMultiProgress) : Prop :=
  t ⊆ t' ∧ sends t' = sends t ++ l ∧ reports t' = reports t ++ p.

Lemma since_refl t : since t t [] [].
Proof. unfold since. by rewrite !app_nil_r. Qed.
Lemma since_snoc t0 t e l p : since t0 t l p → since t0 (t ++ [e]) (l ++ send e) (p ++ report e).
Proof. intros (H & Hs & Hp). unfold since. rewrite run_sends_snoc, reports_snoc, Hs, Hp, !app_assoc. split; [set_solver|done]. Qed.
Lemma since_trans t0 t1 t2 l1 l2 p1 p2 : since t0 t1 l1 p1 → since t1 t2 l2 p2 → since t0 t2 (l1 ++ l2) (p1 ++ p2).
Proof. intros (? & Hs1 & Hp1) (? & Hs2 & Hp2). unfold since. rewrite Hs2, Hp2, Hs1, Hp1, !app_assoc. split; [set_solver|done]. Qed.
(** A call that sends and reports nothing. *)
Lemma since_quiet t0 t e l p : send e = [] → report e = [] → since t0 t l p → since t0 (t ++ [e]) l p.
Proof. intros Hs Hp H. apply (since_snoc _ _ e) in H. by rewrite Hs, Hp, !app_nil_r in H. Qed.
Lemma since_sent t0 t e sa l p : send e = [sa] → report e = [] → since t0 t l p → since t0 (t ++ [e]) (l ++ [sa]) p.
Proof. intros Hs Hp H. apply (since_snoc _ _ e) in H. by rewrite Hs, Hp, app_nil_r in H. Qed.
Lemma since_first t0 t e sa p : send e = [sa] → report e = [] → since t0 t [] p → since t0 (t ++ [e]) [sa] p.
Proof. intros Hs Hp H. by apply (since_sent _ _ _ sa _ _ Hs Hp) in H. Qed.
Lemma since_reported t0 t e q l p : send e = [] → report e = [q] → since t0 t l p → since t0 (t ++ [e]) l (p ++ [q]).
Proof. intros Hs Hp H. apply (since_snoc _ _ e) in H. by rewrite Hs, Hp, app_nil_r in H. Qed.
Ltac since_tac := repeat first [apply since_refl | eapply since_first; [reflexivity|reflexivity|] | eapply since_sent; [reflexivity|reflexivity|] | apply since_quiet; [reflexivity|reflexivity|] | eassumption].

(** A call of the trace. *)
Ltac in_trace := first [eassumption | apply elem_of_app; first [right; apply list_elem_of_singleton; reflexivity | left; in_trace]
  | match goal with H : ?t ⊆ ?t' |- _ ∈ ?t' => apply H; in_trace end].

Lemma holds_canceled {A} t0 l p cancellable (f : bool → prog RunE A) Q t :
  since t0 t l p → (∀ canceled t', since t0 t' l p → t ⊆ t' → holds (f canceled) Q t') →
  holds (prog_bind (is_canceled cancellable) f) Q t.
Proof. intros H Hf. destruct cancellable; [intros b; apply Hf; [since_tac|set_solver]|by apply Hf]. Qed.

Section execution.
Context `{HU : UnicodeCase} `{HT : SqlTokenizer} `{HJ : JsonPrinter} `{HP : DropParser}.

(** ** One statement *)

(** How often it was sent for a result: not at all, once, or a second time after
    an answer that reads as a lost connection. *)
Definition statement_sent (db_type : option DatabaseType) (sql : text) (r : result QueryResult text) (l : list (text * Answer)) : Prop :=
  match l with
  | [] => ∀ q, r = Ok q → q = empty_query_result 0
  | [(q, a)] =>
      q = sql ∧ ((∃ a', a = one a' ∧ (r = a' ∨ r = with_sql_context a'))
                 ∨ ∃ e e', a = Err e ∧ r = Err e' ∧ query_pool_error_action db_type sql e = ReconnectAndRetry)
  | [(q1, a1); (q2, a2)] =>
      q1 = sql ∧ q2 = sql ∧ (∃ e, a1 = Err e ∧ query_pool_error_action db_type sql e = ReconnectAndRetry)
      ∧ ∃ a', a2 = one a' ∧ r = with_sql_context a'
  | _ => False
  end.

(** A write is not sent again. *)
Lemma write_sent_once db_type sql r l : is_write_sql sql = true → statement_sent db_type sql r l → List.length l ≤ 1.
Proof.
  intros Hw. destruct l as [|[q1 a1] [|[q2 a2] [|? ?]]]; simpl; try lia. intros (_ & _ & (e & _ & Ha) & _).
  unfold query_pool_error_action in Ha. rewrite Hw in Ha. by destruct (pool_error_action _ _).
Qed.

Definition statement_end (connection_id : string) (sql : text) (t : list (event RunE)) (r : result QueryResult text)
    (t' : list (event RunE)) : Prop :=
  ∃ db_type l, since t t' l [] ∧ statement_sent db_type sql r l ∧ Ev (DbTypeOf connection_id) db_type ∈ t'.

Lemma nothing_sent id sql db_type t t' r :
  since t t' [] [] → Ev (DbTypeOf id) db_type ∈ t' → is_ok r = false ∨ r = Ok (empty_query_result 0) → statement_end id sql t r t'.
Proof. intros H Hin Hr. exists db_type, []. split; [done|]. split; [|done]. intros q ->. by destruct Hr as [|[= ->]]. Qed.

(** What was sent once is answered with the answer. *)
Lemma answered_once id sql db_type t t' a r :
  since t t' [(sql, one a)] [] → Ev (DbTypeOf id) db_type ∈ t' → r = a ∨ r = with_sql_context a → statement_end id sql t r t'.
Proof. intros H Hin Hr. exists db_type, [(sql, one a)]. split; [done|]. split; [|done]. split; [done|]. left. by exists a. Qed.

Ltac nothing := eapply nothing_sent; [since_tac|in_trace|first [by left|by right]].

Lemma drop_database_end id db_type target sql cancellable options t0 t :
  since t0 t [] [] → Ev (DbTypeOf id) db_type ∈ t →
  holds (execute_postgres_drop_database id target sql cancellable options) (statement_end id sql t0) t.
Proof.
  intros H0 Hin. unfold execute_postgres_drop_database, with_activity, set_pool_key. prog_simpl. intros closed.
  destruct closed as [?|e]; [|nothing]. intros pool. destruct pool as [key|e]; cbn [with_sql_context]; [|nothing].
  apply holds_bind. set (rest := λ _ _, _). assert (∀ t, since t0 t [] [] → Ev (DbTypeOf id) db_type ∈ t → rest () t) as Hrest.
  { clear H0 Hin t. intros t H0 Hin. unfold rest. cbn beta. prog_simpl. intros touched begun. apply holds_bind, (holds_canceled t0 [] []); [since_tac|]. intros canceled t1 H1 Hsub1.
    destruct canceled; [intros ended; nothing|]. unfold check_read_only_for_connection. prog_simpl. intros config. destruct (check_all_read_only _ _); [|intros ended; nothing].
    intros pool. destruct pool as [[]|]; try (intros ended; nothing). intros terminated. destruct terminated; [|intros ended; nothing].
    intros r ended. eapply (answered_once _ _ db_type); [since_tac|in_trace|by left]. }
  destruct (execution_id options); [intros b|]; apply Hrest; [since_tac|in_trace|since_tac|in_trace].
Qed.

Lemma statement_ends id database sql schema cancellable options t0 t :
  since t0 t [] [] →
  holds (execute_sql_statement_with_options id database sql schema cancellable options) (statement_end id sql t0) t.
Proof.
  intros H0. unfold execute_sql_statement_with_options, connection_is_mongodb. prog_simpl. intros db_type0.
  destruct (bool_decide _); [nothing|]. intros db_type. destruct (negb _); [nothing|].
  destruct (postgres_drop_database_target _ _) as [target|]; [eapply drop_database_end; [since_tac|in_trace]|].
  intros pool. destruct pool as [key|e]; cbn [with_sql_context]; [|nothing].
  apply (holds_canceled t0 [] []); [since_tac|]. intros canceled t1 H1 Hsub1.
  destruct canceled; [nothing|]. prog_simpl. intros r. destruct r as [r|e]; [eapply answered_once; [since_tac|in_trace|by left]|].
  destruct (query_pool_error_action db_type sql e) eqn:Ha; [eapply (answered_once _ _ _ _ _ (Err e)); [since_tac|in_trace|by right]| |].
  { destruct (served_by_agent db_type); [|intros removed]; (eapply (answered_once _ _ _ _ _ (Err e)); [since_tac|in_trace|by right]). }
  apply (holds_canceled t0 [(sql, Err e)] []); [since_tac|]. intros canceled t2 H2 Hsub2.
  destruct canceled; [eapply (answered_once _ _ _ _ _ (Err e)); [exact H2|in_trace|by right]|]. prog_simpl. intros pool.
  destruct pool as [new_key|e2]; cbn [with_sql_context].
  - intros r. exists db_type, ([(sql, Err e)] ++ [(sql, one r)]). split; [since_tac|]. split; [|in_trace]. simpl.
    split_and!; [done|done|by exists e|by exists r].
  - exists db_type, [(sql, Err e)]. split; [since_tac|]. split; [|in_trace]. split; [done|]. right. by eexists e, _.
Qed.

(** ** A batch *)

(** The results and the progress for the answer to statement [i]. *)
Definition answer_results (i : nat) (a : Answer) : list ExecuteMultiResult :=
  match a with
  | Ok rs => (λ r, success_with_index r i) <$> rs
  | Err e => [execution_error_with_index (error_query_result e) i]
  end.
Definition answer_progress (reporting : bool) (total i : nat) (a : Answer) : list ExecuteMultiProgress :=
  if reporting then
    match a with
    | Ok rs => match last rs with Some r => [execute_multi_progress i total r true None] | None => [] end
    | Err e => [execute_multi_progress i total (error_query_result e) false (Some e)]
    end
  else [].
Fixpoint batch_results (i : nat) (l : list (text * Answer)) : list ExecuteMultiResult :=
  match l with [] => [] | (_, a) :: l' => answer_results i a ++ batch_results (i + 1) l' end.
Fixpoint batch_progress (reporting : bool) (total i : nat) (l : list (text * Answer)) : list ExecuteMultiProgress :=
  match l with [] => [] | (_, a) :: l' => answer_progress reporting total i a ++ batch_progress reporting total (i + 1) l' end.

(** How a batch ends: every statement ran, the last that ran failed, or it was
    cancelled before the next one. *)
Inductive BatchEnd : Type := AllRan | StoppedAtError | CanceledBefore.
Definition end_results (how : BatchEnd) : list ExecuteMultiResult :=
  match how with CanceledBefore => [canceled_result] | _ => [] end.

(** Whether the batch goes on after the answer to a statement. *)
Definition goes_on (continue : bool) (action : text → text → PoolErrorAction) (sa : text * Answer) : bool :=
  match sa.2 with Ok _ => true | Err e => should_continue_batch_after_error continue (action sa.1 e) end.

(** The statements of a batch that ran, with their answers, are a prefix of the
    batch: all but the last let it go on, and the last lets it exactly when the
    end is not the one at an error. *)
Definition batch_ran (go : text * Answer → bool) (statements : list text) (l : list (text * Answer)) (how : BatchEnd) : Prop :=
  l.*1 = take (List.length l) statements
  ∧ match how with
    | AllRan => List.length l = List.length statements ∧ Forall (λ sa, go sa = true) l
    | CanceledBefore => List.length l < List.length statements ∧ Forall (λ sa, go sa = true) l
    | StoppedAtError => ∃ l' sa, l = l' ++ [sa] ∧ Forall (λ sa, go sa = true) l' ∧ go sa = false
    end.

Lemma batch_ran_cons go sql a statements l how :
  go (sql, a) = true → batch_ran go statements l how → batch_ran go (sql :: statements) ((sql, a) :: l) how.
Proof.
  intros Hgo [Hl Hhow]. split; [cbn; by f_equal|]. destruct how; simpl.
  - destruct Hhow. split; [lia|by constructor].
  - destruct Hhow as (l' & sa & -> & Hl' & Hsa). exists ((sql, a) :: l'), sa. split_and!; [done|by constructor|done].
  - destruct Hhow. split; [lia|by constructor].
Qed.
Lemma batch_ran_stop go sql a statements : go (sql, a) = false → batch_ran go (sql :: statements) [(sql, a)] StoppedAtError.
Proof. intros Hgo. split; [done|]. by exists [], (sql, a). Qed.
Lemma batch_ran_canceled go statements : statements ≠ [] → batch_ran go statements [] CanceledBefore.
Proof. intros H. split; [done|]. destruct statements; [done|]. split; [simpl; lia|done]. Qed.

Lemma report_since reporting i total r ok e t0 t l p :
  since t0 t l p →
  holds (report_execute_multi_progress reporting i total r ok e)
    (λ _ t', since t0 t' l (p ++ if reporting then [execute_multi_progress i total r ok e] else [])) t.
Proof.
  intros H. destruct reporting; simpl; [intros b|by rewrite app_nil_r]. by apply since_reported.
Qed.

(** ** MySQL: one connection *)

Definition mysql_batch_end (continue : bool) (db_type : option DatabaseType) (reporting : bool) (total i : nat)
    (statements : list text) (results : list ExecuteMultiResult) (t : list (event RunE))
    (r : list ExecuteMultiResult * option PoolErrorAction) (t' : list (event RunE)) : Prop :=
  ∃ l how, since t t' l (batch_progress reporting total i l)
    ∧ r.1 = results ++ batch_results i l ++ end_results how
    ∧ batch_ran (goes_on continue (λ _, pool_error_action db_type)) statements l how
    ∧ match r.2 with
      | None => how ≠ StoppedAtError
      | Some action => how = StoppedAtError ∧ ∃ l' sql e, l = l' ++ [(sql, Err e)] ∧ action = pool_error_action db_type e
      end.

Lemma mysql_batch_ends conn bare options db_type cancellable reporting total i statements results t :
  holds (mysql_batch conn bare options db_type cancellable reporting total i statements results)
    (mysql_batch_end (continue_on_error options) db_type reporting total i statements results t) t.
Proof.
  revert i results t. induction statements as [|sql statements IH]; intros i results t.
  { exists [], AllRan. simpl. rewrite !app_nil_r. split_and!; [by apply since_refl|done| |done]. by split. }
  cbn [mysql_batch]. prog_simpl. apply (holds_canceled t [] []); [apply since_refl|]. intros canceled t1 H1 _.
  destruct canceled. { exists [], CanceledBefore. split_and!; [done|done| |done]. by apply batch_ran_canceled. }
  prog_simpl. intros r. assert (Hgrow : ∀ t2 p, since t t2 [(sql, r)] p → p = answer_progress reporting total i r →
    goes_on (continue_on_error options) (λ _, pool_error_action db_type) (sql, r) = true →
    holds (mysql_batch conn bare options db_type cancellable reporting total (i + 1) statements (results ++ answer_results i r))
      (mysql_batch_end (continue_on_error options) db_type reporting total i (sql :: statements) results t) t2).
  { intros t2 p H2 -> Hgo. eapply holds_mono; [apply IH|]. intros r' t3 (l & how & H3 & Hr & Hran & Haction).
    exists ((sql, r) :: l), how. split; [exact (since_trans _ _ _ _ _ _ _ H2 H3)|]. split; [rewrite Hr; simpl; by rewrite !app_assoc|].
    split; [by apply batch_ran_cons|]. destruct r'.2 as [action|]; [|done]. destruct Haction as (? & l' & sql' & e' & -> & ?).
    split; [done|]. by exists ((sql, r) :: l'), sql', e'. }
  destruct r as [rs|e].
  - apply holds_bind. destruct (last rs) as [q|] eqn:Hlast.
    + eapply holds_mono; [apply (report_since _ _ _ _ _ _ t); since_tac|]. intros ? t2 H2. eapply Hgrow; [exact H2| |done].
      unfold answer_progress. by rewrite Hlast.
    + eapply Hgrow; [since_tac| |done]. unfold answer_progress. rewrite Hlast. by destruct reporting.
  - apply holds_bind. eapply holds_mono; [apply (report_since _ _ _ _ _ _ t); since_tac|]. intros ? t2 H2. cbv zeta.
    destruct (should_continue_batch_after_error _ _) eqn:Hgo; [eapply Hgrow; [exact H2|reflexivity|exact Hgo]|].
    exists [(sql, Err e)], StoppedAtError. split; [simpl; by rewrite app_nil_r|]. split; [done|].
    split; [by apply batch_ran_stop|]. split; [done|]. by exists [], sql, e.
Qed.

(** ** One by one *)

(** What was sent for the statement and its answer. *)
Definition sent_for (id : string) (t : list (event RunE)) (sa : text * Answer) (chunk : list (text * Answer)) : Prop :=
  ∃ db_type r, sa.2 = one r ∧ statement_sent db_type sa.1 r chunk ∧ Ev (DbTypeOf id) db_type ∈ t
    ∧ (is_write_sql sa.1 = true → List.length chunk ≤ 1).

Lemma sent_for_end id sql t0 t r : statement_end id sql t0 r t → ∃ l, since t0 t l [] ∧ sent_for id t (sql, one r) l.
Proof.
  intros (db_type & l & Hl & Hsent & Hin). exists l. split; [done|]. exists db_type, r. split_and!; [done..|].
  intros Hw. by eapply write_sent_once.
Qed.
Lemma sent_for_mono id t t' sa chunk : t ⊆ t' → sent_for id t sa chunk → sent_for id t' sa chunk.
Proof. intros Hsub (db_type & r & ? & ? & ? & ?). exists db_type, r. split_and!; [done|done|by apply Hsub|done]. Qed.

Definition sequential_end (id : string) (continue : bool) (db_type : option DatabaseType) (reporting : bool) (total i : nat)
    (statements : list text) (results : list ExecuteMultiResult) (t : list (event RunE))
    (r : list ExecuteMultiResult) (t' : list (event RunE)) : Prop :=
  ∃ l how chunks, since t t' (List.concat chunks) (batch_progress reporting total i l)
    ∧ Forall2 (sent_for id t') l chunks
    ∧ r = results ++ batch_results i l ++ end_results how
    ∧ batch_ran (goes_on continue (query_pool_error_action db_type)) statements l how.

Lemma sequential_ends id database schema cancellable continue options db_type reporting total i statements results t :
  holds (sequential_statements id database schema cancellable continue options db_type reporting total i statements results)
    (sequential_end id continue db_type reporting total i statements results t) t.
Proof.
  revert i results t. induction statements as [|sql statements IH]; intros i results t.
  { exists [], AllRan, []. simpl. rewrite !app_nil_r. split; [by apply since_refl|]. split; [constructor|]. split; [done|]. by split. }
  cbn [sequential_statements]. prog_simpl. apply (holds_canceled t [] []); [apply since_refl|]. intros canceled t1 H1 _.
  destruct canceled. { exists [], CanceledBefore, []. split_and!; [done|constructor|done|]. by apply batch_ran_canceled. }
  apply holds_bind. eapply holds_mono; [by apply (statement_ends _ _ _ _ _ _ t)|]. intros r t2 (chunk & H2 & Hsent)%sent_for_end.
  assert (Hgrow : ∀ t3, since t t3 chunk (answer_progress reporting total i (one r)) → t2 ⊆ t3 →
    (goes_on continue (query_pool_error_action db_type) (sql, one r) = true →
     holds (sequential_statements id database schema cancellable continue options db_type reporting total (i + 1) statements
              (results ++ answer_results i (one r)))
       (sequential_end id continue db_type reporting total i (sql :: statements) results t) t3)
    ∧ (goes_on continue (query_pool_error_action db_type) (sql, one r) = false →
       sequential_end id continue db_type reporting total i (sql :: statements) results t (results ++ answer_results i (one r)) t3)).
  { intros t3 H3 Hin. split; intros Hgo.
    - eapply holds_mono; [apply IH|]. intros r' t4 (l & how & chunks & H4 & Hl & Hr & Hran).
      exists ((sql, one r) :: l), how, (chunk :: chunks). split; [exact (since_trans _ _ _ _ _ _ _ H3 H4)|].
      split. { constructor; [|done]. eapply sent_for_mono; [|exact Hsent]. destruct H4 as [Hsub _]. by etrans. }
      split; [rewrite Hr; simpl; by rewrite !app_assoc|by apply batch_ran_cons].
    - exists [(sql, one r)], StoppedAtError, [chunk]. simpl. rewrite !app_nil_r. split; [done|].
      split. { constructor; [|constructor]. by eapply sent_for_mono. }
      split; [done|by apply batch_ran_stop]. }
  destruct r as [q|e].
  - apply holds_bind. eapply holds_mono; [apply holds_and; [by apply (report_since _ _ _ _ _ _ t)|apply holds_grows]|]. intros ? t3 [H3 [l3 ->]].
    apply Hgrow; [exact H3|set_solver|done].
  - cbv zeta. apply holds_bind. eapply holds_mono; [apply holds_and; [by apply (report_since _ _ _ _ _ _ t)|apply holds_grows]|]. intros ? t3 [H3 [l3 ->]].
    destruct (should_continue_batch_after_error _ _) eqn:Hgo; apply Hgrow; solve [exact H3|set_solver|exact Hgo].
Qed.

(** ** SQL Server: whole batches *)

Definition batch_rows (a : Answer) : list QueryResult := match a with Ok rs => rs | Err e => [error_query_result e] end.

(** Why a batch was not sent: cancelled, no lock on the client, or a new client. *)
Definition not_sent (q : QueryResult) : Prop := ∃ e, q = error_query_result e.

Definition sqlserver_end (continue : bool) (batches : list text) (all_results : list QueryResult) (t : list (event RunE))
    (r : result (list QueryResult) text) (t' : list (event RunE)) : Prop :=
  ∃ l, since t t' l [] ∧ l.*1 = take (List.length l) batches
    ∧ match r with
      | Err e => List.length l < List.length batches ∧ e ∈ [c "Connection not found"; c "Expected SQL Server connection"]
      | Ok rows =>
          ∃ how, batch_ran (goes_on continue (λ _, pool_error_action (Some SqlServer))) batches l how
            ∧ match how with
              | CanceledBefore => ∃ e, rows = all_results ++ (l.*2 ≫= batch_rows) ++ [error_query_result e]
              | _ => rows = all_results ++ (l.*2 ≫= batch_rows)
              end
      end.

Lemma sqlserver_ends pool_key cancellable options batches all_results t :
  holds (sqlserver_batches pool_key cancellable options batches all_results)
    (sqlserver_end (continue_on_error options) batches all_results t) t.
Proof.
  revert all_results t. induction batches as [|batch batches IH]; intros all_results t.
  { exists []. split; [apply since_refl|]. split; [done|]. exists AllRan. split; [by split|]. simpl. by rewrite app_nil_r. }
  assert (Hnone : ∀ t1 e, since t t1 [] [] →
    sqlserver_end (continue_on_error options) (batch :: batches) all_results t (Ok (all_results ++ [error_query_result e])) t1).
  { intros t1 e H1. exists []. split; [done|]. split; [done|]. exists CanceledBefore. split; [by apply batch_ran_canceled|]. by exists e. }
  cbn [sqlserver_batches]. prog_simpl. apply (holds_canceled t [] []); [apply since_refl|]. intros canceled t1 H1 _.
  destruct canceled; [by apply Hnone|]. prog_simpl. intros pool.
  assert (Hlost : ∀ t1 e, since t t1 [] [] → e ∈ [c "Connection not found"; c "Expected SQL Server connection"] →
    sqlserver_end (continue_on_error options) (batch :: batches) all_results t (Err e) t1).
  { intros t2 e H2 He. exists []. split; [done|]. split; [done|]. split; [simpl; lia|done]. }
  destruct pool as [[bare| |client|client|]|]; try (apply Hlost; [by since_tac|set_solver]). intros locked.
  destruct locked as [?|e]; [|apply Hnone; by since_tac]. intros current. destruct current; [|intros unlocked; apply Hnone; by since_tac].
  cbn [negb]. intros r unlocked. set (t2 := (_ ++ [_]) ++ [_]).
  assert (H2 : since t t2 [(batch, r)] []) by (unfold t2; by since_tac). clearbody t2. clear Hnone Hlost H1.
  assert (Hgo : ∀ t3, since t2 t3 [] [] → goes_on (continue_on_error options) (λ _, pool_error_action (Some SqlServer)) (batch, r) = true →
    holds (sqlserver_batches pool_key cancellable options batches (all_results ++ batch_rows r))
      (sqlserver_end (continue_on_error options) (batch :: batches) all_results t) t3).
  { intros t3 H3 Hgo. eapply holds_mono; [apply IH|]. intros r' t4 (l & H4 & Hl & Hr). exists ((batch, r) :: l).
    split; [exact (since_trans _ _ _ _ _ _ _ (since_trans _ _ _ _ _ _ _ H2 H3) H4)|]. split; [cbn; by f_equal|].
    destruct r' as [rows|e]; [|simpl; split; [lia|by destruct Hr]]. destruct Hr as (how & Hran & Hrows).
    exists how. split; [by apply batch_ran_cons|]. destruct how; simpl; rewrite <-?app_assoc in *; [done|done|]. destruct Hrows as [e ->].
    exists e. by rewrite <-!app_assoc. }
  destruct r as [rows|e]; [apply Hgo; [apply since_refl|done]|]. cbv zeta. apply holds_bind.
  assert (Hnext : ∀ t3, since t2 t3 [] [] →
    holds (if should_continue_batch_after_error (continue_on_error options) (pool_error_action (Some SqlServer) e)
           then sqlserver_batches pool_key cancellable options batches (all_results ++ [error_query_result e])
           else Ret (Ok (all_results ++ [error_query_result e])))
      (sqlserver_end (continue_on_error options) (batch :: batches) all_results t) t3).
  { intros t3 H3. destruct (should_continue_batch_after_error _ _) eqn:E; [by apply Hgo|].
    exists [(batch, Err e)]. split; [exact (since_trans _ _ _ _ _ _ _ H2 H3)|]. split; [done|].
    exists StoppedAtError. split; [by apply batch_ran_stop|done]. }
  destruct (bool_decide _); [apply Hnext, since_refl|]. intros removed. apply Hnext. by since_tac.
Qed.

(** ** The whole batch *)

Section whole.
Context (id : string) (database sql : text) (schema : option text) (options : QueryExecutionOptions) (reporting : bool).

(** A result that belongs to no statement. *)
Definition of_no_statement (r : result (list ExecuteMultiResult) text) : Prop :=
  match r with
  | Err _ => True
  | Ok results => results = [multi_result_from (empty_query_result 0)] ∨ ∃ e, results = [execution_error_result (error_query_result e)]
  end.

Definition several (statements : list text) : Prop := 1 < List.length statements ∧ use_transaction options ≠ Some true.

(** What was sent and reported for a result, by the ways that a text can take. *)
Inductive batch_done (t : list (event RunE)) : result (list ExecuteMultiResult) text → list (text * Answer) → list ExecuteMultiProgress → Prop :=
| nothing_ran r : of_no_statement r → batch_done t r [] []
| one_request s q l :
    s = sql ∨ (∃ d, statements_of sql d = [s]) → sent_for id t (s, one q) l → batch_done t (one_result q) l []
| one_transaction d q :
    use_transaction options = Some true → 1 < List.length (statements_of sql d) →
    Ev (InTransaction id database (statements_of sql d) schema (catalog options)) q ∈ t → batch_done t (one_result q) [] []
| on_one_connection d l how :
    several (statements_of sql d) → Ev (DbTypeOf id) d ∈ t →
    batch_ran (goes_on (continue_on_error options) (λ _, pool_error_action d)) (statements_of sql d) l how →
    batch_done t (Ok (batch_results 0 l ++ end_results how)) l (batch_progress reporting (List.length (statements_of sql d)) 0 l)
| one_by_one d l chunks how :
    several (statements_of sql d) → Ev (DbTypeOf id) d ∈ t →
    batch_ran (goes_on (continue_on_error options) (query_pool_error_action d)) (statements_of sql d) l how →
    Forall2 (sent_for id t) l chunks →
    batch_done t (Ok (batch_results 0 l ++ end_results how)) (List.concat chunks)
      (batch_progress reporting (List.length (statements_of sql d)) 0 l)
| sqlserver_ran key client l how more :
    Ev (LookupPool key) (Some (SqlServerPool client)) ∈ t →
    batch_ran (goes_on (continue_on_error options) (λ _, pool_error_action (Some SqlServer))) (split_sql_batches sql) l how →
    (how = CanceledBefore → not_sent more) →
    batch_done t (Ok (multi_result_from <$> or_empty ((l.*2 ≫= batch_rows) ++ (match how with CanceledBefore => [more] | _ => [] end)))) l []
| sqlserver_lost key client l e :
    Ev (LookupPool key) (Some (SqlServerPool client)) ∈ t →
    l.*1 = take (List.length l) (split_sql_batches sql) → List.length l < List.length (split_sql_batches sql) →
    batch_done t (Err e) l [].

Definition batch_end (r : result (list ExecuteMultiResult) text) (t : list (event RunE)) : Prop :=
  ∃ l p, since [] t l p ∧ batch_done t r l p.

Lemma batch_done_mono t t' r l p : t ⊆ t' → batch_done t r l p → batch_done t' r l p.
Proof.
  intros Hsub H. destruct H; [by constructor|eapply one_request|eapply one_transaction|eapply on_one_connection|eapply one_by_one
    |eapply sqlserver_ran|eapply sqlserver_lost]; eauto using sent_for_mono.
  eapply Forall2_impl; [done|]. intros. by eapply sent_for_mono.
Qed.
Lemma batch_end_quiet t r e : send e = [] → report e = [] → batch_end r t → batch_end r (t ++ [e]).
Proof.
  intros Hs Hp (l & p & H & Hd). exists l, p. split; [by apply since_quiet|]. eapply batch_done_mono; [|exact Hd]. set_solver.
Qed.
Lemma batch_nothing t r : since [] t [] [] → of_no_statement r → batch_end r t.
Proof. intros H Hr. exists [], []. split; [done|by constructor]. Qed.

Lemma request_end cancellable s t :
  s = sql ∨ (∃ d, statements_of sql d = [s]) → since [] t [] [] →
  holds (execute_sql_statement_with_options id database s schema cancellable options) (λ q t', batch_end (one_result q) t') t.
Proof.
  intros Hs H. eapply holds_mono; [by apply (statement_ends _ _ _ _ _ _ [])|]. intros q t' (l & Hl & Hsent)%sent_for_end.
  exists l, []. split; [done|by eapply one_request].
Qed.

Lemma multi_mysql_end key d bare cancellable t :
  several (statements_of sql d) → Ev (DbTypeOf id) d ∈ t → since [] t [] [] →
  holds (execute_multi_mysql key id d bare database (statements_of sql d) cancellable options reporting) batch_end t.
Proof.
  intros Hs Hd H. unfold execute_multi_mysql. prog_simpl. intros checkout. destruct checkout as [conn|e].
  - intros timeout. destruct timeout; [|apply batch_nothing; [by since_tac|done]]. intros applied.
    destruct applied; [|apply batch_nothing; [by since_tac|done]]. apply holds_bind. unfold execute_mysql_batch_statements.
    set (t1 := (_ ++ _) ++ _). assert (H1 : since [] t1 [] []) by (unfold t1; by since_tac).
    eapply holds_mono; [apply holds_and; [apply mysql_batch_ends|apply holds_grows]|].
    intros [results action] t2 [(l & how & H2 & Hr & Hran & _) [l2 ->]]. simpl in Hr. subst results.
    assert (Hdone : batch_end (Ok (batch_results 0 l ++ end_results how)) (t1 ++ l2)).
    { exists l, (batch_progress reporting (List.length (statements_of sql d)) 0 l). split; [exact (since_trans _ _ _ _ _ _ _ H1 H2)|].
      apply on_one_connection; [done| |done]. unfold t1. set_solver. }
    destruct action as [[]|]; [done|intros removed|intros removed|done]; by apply batch_end_quiet.
  - assert (∀ t', since [] t' [] [] → batch_end (Ok [execution_error_result (error_query_result e)]) t') as Herr.
    { intros t' H'. apply batch_nothing; [done|]. right. by exists e. }
    destruct (_ || _); [intros removed|]; apply Herr; by since_tac.
Qed.

Lemma multi_sqlserver_end key client cancellable t :
  Ev (LookupPool key) (Some (SqlServerPool client)) ∈ t → since [] t [] [] →
  holds (execute_multi_sqlserver key sql cancellable options)
    (λ r t', batch_end (match r with Ok results => Ok (multi_result_from <$> results) | Err e => Err e end) t') t.
Proof.
  intros Hpool H. unfold execute_multi_sqlserver, check_read_only_for_connection_multi. prog_simpl. intros config.
  destruct (check_all_read_only _ _); [|apply batch_nothing; [by since_tac|done]]. apply holds_bind.
  set (t1 := t ++ _). assert (H1 : since [] t1 [] []) by (unfold t1; by since_tac).
  eapply holds_mono; [apply holds_and; [apply sqlserver_ends|apply holds_grows]|].
  intros r t2 [(l & H2 & Hl & Hr) [l2 ->]]. assert (Hsince := since_trans _ _ _ _ _ _ _ H1 H2).
  assert (Hin : Ev (LookupPool key) (Some (SqlServerPool client)) ∈ t1 ++ l2) by (unfold t1; set_solver).
  destruct r as [rows|e].
  - destruct Hr as (how & Hran & Hrows). exists l, []. split; [done|].
    assert (Hran' : ∀ more, (how = CanceledBefore → not_sent more) →
      rows = (l.*2 ≫= batch_rows) ++ (match how with CanceledBefore => [more] | _ => [] end) →
      batch_done (t1 ++ l2) (Ok (multi_result_from <$> or_empty rows)) l []).
    { intros more Hmore ->. by apply (sqlserver_ran _ key client). }
    destruct how; [apply (Hran' (empty_query_result 0)); [done|by rewrite app_nil_r]..|].
    destruct Hrows as [e ->]. apply (Hran' (error_query_result e)); [intros _; by exists e|done].
  - destruct Hr as [Hlen _]. exists l, []. split; [done|]. by eapply sqlserver_lost.
Qed.

Lemma several_end key d cancellable t :
  statements_of sql d ≠ [] → Ev (DbTypeOf id) d ∈ t → since [] t [] [] →
  holds (execute_batch key id database (statements_of sql d) schema cancellable options reporting d) batch_end t.
Proof.
  intros Hne Hd H. unfold execute_batch. destruct (bool_decide _ && _) eqn:Htx.
  { apply andb_prop in Htx as [Hu%bool_decide_eq_true Hlen%Nat.ltb_lt]. prog_simpl. intros q. exists [], [].
    split; [by since_tac|]. by eapply one_transaction; [| |in_trace]. }
  prog_simpl. intros pool. destruct (Nat.leb_spec (List.length (statements_of sql d)) 1) as [Hlen|Hlen].
  { apply holds_bind. eapply holds_mono; [apply request_end; [right|by since_tac]|done]. exists d.
    destruct (statements_of sql d) as [|s [|]]; [done|done|simpl in Hlen; lia]. }
  assert (Hs : several (statements_of sql d)).
  { split; [lia|]. intros Hu. rewrite bool_decide_true in Htx by done. by rewrite (proj2 (Nat.ltb_lt _ _) Hlen) in Htx. }
  assert (Hseq : ∀ o t', t ⊆ t' → since [] t' [] [] →
    holds (prog_bind (sequential_statements id database schema cancellable (continue_on_error options) o d reporting
             (List.length (statements_of sql d)) 0 (statements_of sql d) []) (λ results, Ret (Ok results))) batch_end t').
  { intros o t' Hsub H'. apply holds_bind. eapply holds_mono; [apply holds_and; [apply sequential_ends|apply holds_grows]|].
    intros results t2 [(l & how & chunks & H2 & Hl & -> & Hran) [l2 ->]]. eexists _, _. split; [exact (since_trans _ _ _ _ _ _ _ H' H2)|].
    apply one_by_one; [done|set_solver|done|done]. }
  destruct pool as [[bare| |client|client|]|]; try (apply Hseq; [set_solver|by since_tac]).
  unfold check_read_only_for_connection_multi. prog_simpl. intros config.
  destruct (check_all_read_only _ _); [|apply batch_nothing; [by since_tac|done]]. apply multi_mysql_end; [done|in_trace|by since_tac].
Qed.

(** C15: whatever databases answer, the results and the progress of a script are
    those of what was sent. Its statements are sent in order, a prefix of them,
    each with its own results and index: all of them, or up to the first error at
    which the batch must stop, or until it was cancelled; a statement that was
    sent a second time was no write and its connection had been lost. The other
    ways are one request, one transaction when it was asked for, and whole
    batches for SQL Server. *)
Theorem batch_reports_what_was_sent cancellable :
  holds (execute_multi_core_with_options_for_client_and_progress id database sql schema cancellable options reporting) batch_end [].
Proof.
  unfold execute_multi_core_with_options_for_client_and_progress, connection_is_mongodb, set_pool_key, with_activity.
  prog_simpl. intros mongodb. destruct (bool_decide _); [apply batch_nothing; [by since_tac|done]|]. intros pool.
  destruct pool as [key|e]; cbn [with_sql_context]; [|apply batch_nothing; [by since_tac|done]].
  apply holds_bind. set (rest := λ _ _, _). assert (Hrest : ∀ t, since [] t [] [] → rest () t).
  { intros t H. unfold rest. cbn beta. prog_simpl. intros touched begun pool. apply holds_bind.
    apply (holds_mono _ batch_end); [|intros r t' Hr ended; by apply batch_end_quiet].
    destruct (is_sqlserver_pool pool) eqn:Hpool.
    { destruct pool as [[| |client| |]|]; try done. apply holds_bind.
      eapply holds_mono; [apply (multi_sqlserver_end _ client); [in_trace|by since_tac]|]. intros r t'. by destruct r. }
    prog_simpl. intros config_type. destruct (_ || _).
    { apply holds_bind. eapply holds_mono; [apply request_end; [by left|by since_tac]|done]. }
    prog_simpl. intros db_type. destruct (statements_of sql db_type) as [|s l] eqn:Hss; [apply batch_nothing; [by since_tac|by left]|].
    rewrite <-Hss. apply several_end; [by rewrite Hss|in_trace|by since_tac]. }
  destruct (execution_id options); [intros b|]; apply Hrest; by since_tac.
Qed.
End whole.

(** ** A list of statements *)

Definition ok_answers (statements : list text) (rs : list QueryResult) : list (text * Answer) :=
  zip statements ((λ r, Ok [r]) <$> rs).
Definition affected_sum (total : Z) (rs : list QueryResult) : Z := foldl (λ n r, u64_add n (affected_rows r)) total rs.

Definition each_end (i : nat) (statements : list text) (total : Z) (t : list (event RunE)) (r : result Z text) (t' : list (event RunE)) : Prop :=
  match r with
  | Ok n => ∃ rs, List.length rs = List.length statements ∧ since t t' (ok_answers statements rs) [] ∧ n = affected_sum total rs
  | Err e =>
      ∃ rs sql e', statements !! List.length rs = Some sql
        ∧ since t t' (ok_answers statements rs ++ [(sql, Err e')]) []
        ∧ e = previous_statements (i + List.length rs) e'
  end.

Lemma each_ends key id database schema timeout i statements total t :
  holds (execute_each key id database schema timeout i statements total) (each_end i statements total t) t.
Proof.
  revert i total t. induction statements as [|sql statements IH]; intros i total t; [exists []; split_and!; [done|apply since_refl|done]|].
  cbn [execute_each]. prog_simpl. intros r. destruct r as [q|e].
  - set (t1 := t ++ _). assert (H1 : since t t1 [(sql, Ok [q])] []) by (unfold t1; by since_tac).
    eapply holds_mono; [apply IH|]. intros [n|e] t2; unfold each_end.
    + intros (rs & Hl & H2 & ->). exists (q :: rs). split; [simpl; lia|]. split; [exact (since_trans _ _ _ _ _ _ _ H1 H2)|done].
    + intros (rs & sql' & e' & Hsql & H2 & ->). exists (q :: rs), sql', e'. split; [done|].
      split; [exact (since_trans _ _ _ _ _ _ _ H1 H2)|]. simpl. f_equal. lia.
  - intros db_type. assert (∀ t', since t t' [(sql, Err e)] [] → each_end i (sql :: statements) total t (Err (previous_statements i e)) t') as Hend.
    { intros t' H. exists [], sql, e. split; [done|]. split; [done|]. by rewrite Nat.add_0_r. }
    destruct (pool_error_action _ _); [apply Hend; by since_tac| |intros ?; apply Hend; by since_tac].
    destruct (served_by_agent _); [|intros ?]; apply Hend; by since_tac.
Qed.

(** What a list of statements leaves: the answer of the agent that took them all,
    or the statements that were sent one by one. *)
Definition list_end (statements : list text) (r : result QueryResult text) (t : list (event RunE)) : Prop :=
  match r with
  | Ok q =>
      sends t = [] ∧ (∃ client database sent schema secs a ms, Ev (AgentBatch client database sent schema secs) (Ok a) ∈ t
                        ∧ List.length sent = List.length statements ∧ q = Transactions.with_elapsed a ms)
      ∨ ∃ rs ms, List.length rs = List.length statements ∧ sends t = ok_answers statements rs
          ∧ q = rowless_result (affected_sum 0 rs) ms
  | Err e =>
      sends t = []
      ∨ ∃ rs sql e', statements !! List.length rs = Some sql ∧ sends t = ok_answers statements rs ++ [(sql, Err e')]
          ∧ e = previous_statements (List.length rs) e'
  end.

Definition agent_batch_end (statements : list text) (r : option (result QueryResult text)) (t : list (event RunE)) : Prop :=
  since [] t [] [] ∧ match r with Some r => list_end statements r t | None => True end.

Lemma rewrite_statements_end db_type schema statements t :
  holds (rewrite_statements db_type schema statements) (λ l t', since t t' [] [] ∧ List.length l = List.length statements) t.
Proof.
  revert t. induction statements as [|sql statements IH]; intros t; [by split; [apply since_refl|]|]. cbn [rewrite_statements].
  prog_simpl. intros sql'. apply holds_bind. eapply holds_mono; [apply IH|]. intros l t' [H Hl]. split; [|simpl; lia].
  refine (since_trans _ _ _ [] [] [] [] _ H). by since_tac.
Qed.

Lemma agent_batch_ends key id client database statements schema secs t :
  since [] t [] [] → holds (execute_agent_batch key id client database statements schema secs) (agent_batch_end statements) t.
Proof.
  intros H. assert (Herr : ∀ t' e, since [] t' [] [] → agent_batch_end statements (Some (Err e)) t').
  { intros t' e H'. split; [done|]. left. by destruct H' as (_ & -> & _). }
  unfold execute_agent_batch, check_read_only_for_connection_multi, discard_agent_pool_after_error. prog_simpl. intros config.
  destruct (check_all_read_only _ _); [|apply Herr; by since_tac]. intros db_type. apply holds_bind.
  set (t1 := (_ ++ [_]) ++ [_]). assert (H1 : since [] t1 [] []) by (unfold t1; by since_tac). clearbody t1.
  apply (holds_mono _ (λ l t', since t1 t' [] [] ∧ List.length l = List.length statements)).
  { destruct (Transactions.qualifies_unqualified_agent_relations _); [apply rewrite_statements_end|by split; [apply since_refl|]]. }
  intros sent t2 [H2 Hl]. assert (H3 := since_trans _ _ _ _ _ _ _ H1 H2). simpl in H3. prog_simpl. intros r. destruct r as [answer|e].
  - intros ms. split; [by since_tac|]. left. split; [|exists client; do 6 eexists; split; [in_trace|done]].
    rewrite !run_sends_snoc. by destruct H3 as (_ & -> & _).
  - destruct (is_agent_execute_batch_unsupported e); [split; [by since_tac|done]|]. prog_simpl. intros db_type'.
    destruct (discard_pool_after_error _ _); [|intros ?|intros ?]; apply Herr; by since_tac.
Qed.

End execution.

(** ** A transaction that is lost in the middle of a script *)

(** The pools, statements and answers of [do_execute]. *)
Definition execution (e : event RunE) : list (text * text * bool) :=
  match e with Ev (DoExecute key _ sql _ _ _) r => [(c key, sql, accepted r)] | _ => [] end.
Definition executed (t : list (event RunE)) : list (text * text * bool) := t ≫= execution.
Definition reconnected (e : event RunE) : bool := match e with Ev (ReconnectPool _ _ _) _ => true | _ => false end.

Definition select_a : text := c "SELECT a FROM t".
(** The first pool loses its connection under SELECT; the second works. *)
Definition losing_env : answers_of RunE := λ B call t,
  match call in RunE B return B with
  | DbTypeOf _ => Some Postgres
  | DbTypeOfPool _ => Some Postgres
  | GetPool _ _ _ => Ok (if existsb reconnected t then "new" else "old")%string
  | ReconnectPool _ _ _ => Ok "new"%string
  | RemovePool _ => ()
  | ClosePool _ _ => Ok ()
  | LookupPool _ => Some PostgresPool
  | ReadOnlyConfig _ => None
  | SetPoolKey _ _ => ()
  | TouchPool _ => ()
  | BeginActivity _ => ()
  | EndActivity _ => ()
  | IsCanceled => false
  | DoExecute key _ sql _ _ _ =>
      if String.eqb key "old" && text_eqb sql select_a then Err (c "connection closed") else Ok (rowless_result 0 0)
  | TerminateBackends _ _ => Ok ()
  | PgDropDatabase _ _ _ => Ok (rowless_result 0 0)
  | InTransaction _ _ _ _ _ => Ok (rowless_result 0 0)
  | LockClient _ => Ok ()
  | UnlockClient _ => ()
  | PoolIsCurrent _ _ => true
  | SqlServerBatch _ _ _ _ => Ok []
  | MysqlCheckout _ => Ok 0
  | ApplySessionTimeout _ _ _ => Ok ()
  | ApplyCatalog _ _ _ _ => Ok ()
  | MysqlStatement _ _ _ _ => Ok []
  | AgentBatch _ _ _ _ _ => Ok (rowless_result 0 0)
  | SqlForContext _ sql _ => sql
  | DetachAgent _ _ _ => ()
  | Elapsed => 0%N
  | Report _ => ()
  end.
Definition no_drops : DropParser := {| parse_drops _ := None |}.
Definition transaction_script : text := c "BEGIN; INSERT INTO t VALUES (1); SELECT a FROM t; COMMIT".

(** The SELECT of a transaction is sent again on a new connection after the
    old one was lost, and the script goes on there: COMMIT has nothing to commit,
    the INSERT is lost, and all four statements are reported as successful. *)
Theorem lost_transaction_reported_done :
  let '(r, t) := run losing_env (@execute_multi_core_with_options_for_client_and_progress ascii_case wordless_tokenizer digit_printer
    no_drops "db" (c "app") transaction_script None false QueryExecutionOptions_default false) [] in
  executed t = [(c "old", c "BEGIN", true); (c "old", c "INSERT INTO t VALUES (1)", true); (c "old", select_a, false);
                (c "new", select_a, true); (c "new", c "COMMIT", true)]
  ∧ ∃ results, r = Ok results ∧ List.length results = 4 ∧ Forall (λ x, execution_error x = false) results.
Proof.
  set (p := execute_multi_core_with_options_for_client_and_progress _ _ _ _ _ _ _).
  assert (H1 : executed (run losing_env p []).2 = [(c "old", c "BEGIN", true); (c "old", c "INSERT INTO t VALUES (1)", true);
    (c "old", select_a, false); (c "new", select_a, true); (c "new", c "COMMIT", true)]) by (vm_compute; reflexivity).
  assert (H2 : (run losing_env p []).1 = Ok ((λ i, success_with_index (rowless_result 0 0) i) <$> [0; 1; 2; 3])) by (vm_compute; reflexivity).
  destruct (run losing_env p []) as [r t]. simpl in H1, H2. split; [done|]. subst r. eexists. split_and!; [done|done|by repeat constructor].
Qed.

(** ** SQL Server *)

Definition sqlserver_env : answers_of RunE := λ B call t,
  match call in RunE B return B with
  | LookupPool _ => Some (SqlServerPool 0)
  | call => losing_env _ call t
  end.
Definition in_transaction : QueryExecutionOptions := mk_options None None None None None None None None (Some true) false Standard.

(** A script for which one transaction was asked is one batch without BEGIN on SQL
    Server: the option is not looked at. *)
Lemma sqlserver_ignores_use_transaction :
  sends (run sqlserver_env (@execute_multi_core_with_options_for_client_and_progress ascii_case wordless_tokenizer digit_printer
    no_drops "db" (c "app") (c "INSERT INTO t VALUES (1); INSERT INTO u VALUES (1)") None false in_transaction false) []).2
  = [(c "INSERT INTO t VALUES (1); INSERT INTO u VALUES (1)", Ok [])].
Proof. vm_compute. reflexivity. Qed.
