(* ===== verification/SqlIdent.v ===== *)
(** * Names in SQL (sql_dialect/identifiers.rs, table_select.rs, capabilities.rs)

    How the SQL writers quote a name and qualify a table for a database, with the
    quote a connection reports, and how the text of a where box is stripped of its
    keyword. A reader of quoted names states that a written name is that name.
    percent-encoding's decoder is a parameter. *)
From S2P Require Import Prelude RustStr SqlText GridTypes.

(** [percent_decode_str(value).decode_utf8().ok()]. *)
Class PercentDecoder : Type := { percent_decode : string → option string }.

Definition backtick : ascii := "`".
Definition dquote_c : ascii := ascii_of_nat 34.

(** ** Families (capabilities.rs) *)

Definition is_schema_aware (database_type : DatabaseType) : bool :=
  match database_type with
  | Postgres | SqlServer | Oracle | Redshift | Dameng | Gaussdb | Kwdb | Kingbase | Highgo | Uxdb | Vastbase | Yashandb
  | Oscar | Databricks | SapHana | Teradata | Vertica | Exasol | OpenGauss | OceanbaseOracle | Gbase | Databend | Jdbc
  | H2 | Snowflake | Trino | PrestoSql | Hive | Spark | Db2 | Informix | Tdengine | Xugu | Sqlite | DuckDb | Iris =>
      true
  | _ => false
  end.

Definition uses_single_row_insert_statements (database_type : DatabaseType) : bool :=
  match database_type with Oracle | OceanbaseOracle => true | _ => false end.

Definition table_pagination_strategy (database_type : option DatabaseType) : TablePaginationStrategy :=
  pagination_strategy database_type TablePreview.

(** ** Quoting a name *)

Definition is_simple_informix_identifier (name : string) : bool :=
  match chars name with
  | [] => false
  | first :: rest =>
      (is_ascii_alphabetic first || (first =? 95)%N) &&
      forallb (λ x, is_ascii_alphanumeric x || (x =? 95)%N || (x =? 36)%N) rest
  end.

Definition is_explicitly_quoted_identifier (name : string) : bool :=
  (2 <=? len name) &&
  ((starts_with name dquote && ends_with name dquote)
   || (starts_with name "`" && ends_with name "`")
   || (starts_with name "[" && ends_with name "]")).

Definition is_simple_lower_identifier (name : string) : bool :=
  match chars name with
  | [] => false
  | first :: rest =>
      ((first =? 95)%N || is_ascii_lowercase first) &&
      forallb (λ x, (x =? 95)%N || (x =? 36)%N || is_ascii_lowercase x || is_ascii_digit x) rest
  end.

Definition postgres_reserved_identifiers : list string :=
  ["all"; "analyse"; "analyze"; "and"; "any"; "array"; "as"; "asc"; "asymmetric"; "authorization"; "binary";
   "both"; "case"; "cast"; "check"; "collate"; "collation"; "column"; "concurrently"; "constraint"; "create";
   "cross"; "current_catalog"; "current_date"; "current_role"; "current_schema"; "current_time";
   "current_timestamp"; "current_user"; "default"; "deferrable"; "desc"; "distinct"; "do"; "else"; "end";
   "except"; "false"; "fetch"; "for"; "foreign"; "freeze"; "from"; "full"; "grant"; "group"; "having"; "ilike";
   "in"; "initially"; "inner"; "intersect"; "into"; "is"; "isnull"; "join"; "lateral"; "leading"; "left";
   "like"; "limit"; "localtime"; "localtimestamp"; "natural"; "not"; "notnull"; "null"; "offset"; "on"; "only";
   "or"; "order"; "outer"; "overlaps"; "placing"; "primary"; "references"; "returning"; "right"; "select";
   "session_user"; "similar"; "some"; "symmetric"; "system_user"; "table"; "tablesample"; "then"; "to";
   "trailing"; "true"; "union"; "unique"; "user"; "using"; "variadic"; "verbose"; "when"; "where"; "window";
   "with"].
Definition mysql_only_reserved_identifiers : list string :=
  ["accessible"; "auto_increment"; "change"; "database"; "databases"; "delayed"; "describe"; "div"; "dual";
   "enclosed"; "escaped"; "explain"; "force"; "fulltext"; "high_priority"; "ignore"; "index"; "infile"; "key";
   "keys"; "kill"; "linear"; "lines"; "load"; "lock"; "low_priority"; "master_ssl_verify_server_cert";
   "maxvalue"; "mediumint"; "mod"; "no_write_to_binlog"; "optimize"; "optionally"; "outfile"; "partition";
   "purge"; "range"; "read_write"; "regexp"; "release"; "rename"; "replace"; "require"; "rlike"; "schema";
   "schemas"; "separator"; "show"; "spatial"; "sql_big_result"; "sql_calc_found_rows"; "sql_small_result";
   "ssl"; "starting"; "straight_join"; "terminated"; "tinyint"; "unlock"; "unsigned"; "use"; "utc_date";
   "utc_time"; "utc_timestamp"; "values"; "varbinary"; "varchar"; "write"; "xor"; "zerofill"].
Definition is_postgres_reserved_identifier (name : string) : bool := one_of postgres_reserved_identifiers name.
Definition is_mysql_only_reserved_identifier (name : string) : bool := one_of mysql_only_reserved_identifiers name.

(** [format!("{quote}{}{quote}", name.replace(quote, "{quote}{quote}"))] for a quote of one character. *)
Definition quoted (opening closing : ascii) (name : string) : string :=
  String opening (replace_char closing (String closing (String closing "")) name +:+ String closing "")%string.

Definition quote_table_identifier (database_type : option DatabaseType) (name : string) : string :=
  if match database_type with Some (Gaussdb | OpenGauss) => is_explicitly_quoted_identifier name | _ => false end
  then name
  else match database_type with
       | Some Iotdb => name
       | Some Jdbc => name
       | Some (Mysql | ClickHouse | Doris | Goldendb | StarRocks | ManticoreSearch | Hive | Spark | Databend | Tdengine
              | Access | Bigquery | Questdb) => quoted backtick backtick name
       | Some Informix => if is_simple_informix_identifier name then name else quoted dquote_c dquote_c name
       | Some Neo4j => quoted backtick backtick name
       | Some SqlServer => quoted "[" "]" name
       | _ => quoted dquote_c dquote_c name
       end.

(** With a quote of any length. *)
Definition quoted_with (quote name : string) : string :=
  (quote +:+ replace name quote (quote +:+ quote) +:+ quote)%string.

Definition quote_gaussdb_jdbc_identifier (name identifier_quote : string) : string :=
  if is_explicitly_quoted_identifier name then name
  else
    let quote := trim identifier_quote in
    if is_empty quote then name
    else
      let requires_quote :=
        negb (is_simple_lower_identifier name) || is_postgres_reserved_identifier name
        || (String.eqb quote "`" && is_mysql_only_reserved_identifier name) in
      if negb requires_quote then name else quoted_with quote name.

(** table_select.rs. *)
Definition uses_connection_identifier_quote (database_type : option DatabaseType)
    (identifier_quote : option string) : bool :=
  bool_decide (database_type = Some Kingbase) ||
  (match database_type with Some (Gaussdb | OpenGauss | Postgres) => true | _ => false end
   && bool_decide (is_Some identifier_quote)).

Definition quote_table_data_identifier (database_type : option DatabaseType) (name : string)
    (identifier_quote : option string) : string :=
  if negb (uses_connection_identifier_quote database_type identifier_quote)
  then quote_table_identifier database_type name
  else match identifier_quote with
       | None => quote_table_identifier database_type name
       | Some quote =>
           match database_type with
           | Some (Gaussdb | OpenGauss | Postgres) => quote_gaussdb_jdbc_identifier name quote
           | _ => if is_empty quote then name else quoted_with quote name
           end
       end.

(** ** Qualifying a table *)

Definition SQLSERVER_LINKED_SCHEMA_PREFIX : string := "__dbx_sqlserver_linked__:".
Record SqlServerLinkedSchemaRef : Type := { server : string; linked_catalog : string; linked_schema : string }.

(** [schema.map(str::trim).filter(|schema| !schema.is_empty())]. *)
Definition trimmed_non_empty (s : option string) : option string :=
  match s with Some s => if is_empty (trim s) then None else Some (trim s) | None => None end.

Section Names.
Context `{PercentDecoder}.

Definition decode_linked_schema_part (value : string) : option string := percent_decode value.

Definition parse_sqlserver_linked_schema_ref (schema : string) : option SqlServerLinkedSchemaRef :=
  payload ← strip_prefix schema SQLSERVER_LINKED_SCHEMA_PREFIX;
  let parts := split_char "|" payload in
  server ← parts !! 0 ≫= decode_linked_schema_part;
  catalog ← parts !! 1 ≫= decode_linked_schema_part;
  schema ← parts !! 2 ≫= decode_linked_schema_part;
  if bool_decide (is_Some (parts !! 3)) || is_empty (trim server) || is_empty (trim catalog) || is_empty (trim schema)
  then None
  else Some {| server := server; linked_catalog := catalog; linked_schema := schema |}.

Definition sqlserver_linked_table_name (linked : SqlServerLinkedSchemaRef) (table_name : string) : string :=
  join "." (quote_table_identifier (Some SqlServer) <$>
            [server linked; linked_catalog linked; linked_schema linked; table_name]).

Definition qualified_table_name (database_type : option DatabaseType) (schema : option string) (table_name : string) :
    string :=
  if bool_decide (database_type = Some Iotdb) then
    let table_name := quote_table_identifier database_type table_name in
    match trimmed_non_empty schema with
    | Some schema =>
        if String.eqb table_name schema || starts_with table_name (schema +:+ ".")%string then table_name
        else (quote_table_identifier database_type schema +:+ "." +:+ table_name)%string
    | None => table_name
    end
  else
    let supports_qualifier :=
      match database_type with
      | Some d => is_schema_aware d || match d with Mysql | Goldendb | StarRocks | Doris => true | _ => false end
      | None => false
      end in
    match schema with
    | Some schema =>
        if supports_qualifier && negb (bool_decide (database_type = Some Jdbc)) && negb (is_empty (trim schema)) then
          match (if bool_decide (database_type = Some SqlServer) then parse_sqlserver_linked_schema_ref schema else None)
          with
          | Some linked => sqlserver_linked_table_name linked table_name
          | None =>
              (quote_table_identifier database_type schema +:+ "." +:+
               quote_table_identifier database_type table_name)%string
          end
        else quote_table_identifier database_type table_name
    | None => quote_table_identifier database_type table_name
    end.

Definition catalog_qualified (database_type : option DatabaseType) (catalog : string) (schema database : option string)
    (table_name : string) : string :=
  let middle := match trimmed_non_empty schema with Some schema => Some schema | None => trimmed_non_empty database end in
  let table :=
    match middle with
    | Some middle =>
        (quote_table_identifier database_type middle +:+ "." +:+ quote_table_identifier database_type table_name)%string
    | None => quote_table_identifier database_type table_name
    end in
  (quote_table_identifier database_type catalog +:+ "." +:+ table)%string.

Definition qualified_table_name_with_catalog (database_type : option DatabaseType)
    (catalog schema database : option string) (table_name : string) : string :=
  match trimmed_non_empty catalog, database_type with
  | Some database, Some SqlServer =>
      (quote_table_identifier database_type database +:+ "." +:+
       qualified_table_name database_type schema table_name)%string
  | Some catalog, Some (Doris | StarRocks) =>
      if negb (String.eqb catalog "internal")
      then catalog_qualified database_type catalog schema database table_name
      else qualified_table_name database_type schema table_name
  | _, _ => qualified_table_name database_type schema table_name
  end.

Definition table_data_qualified_table_name (database_type : option DatabaseType) (schema : option string)
    (table_name : string) (identifier_quote : option string) : string :=
  if negb (uses_connection_identifier_quote database_type identifier_quote)
  then qualified_table_name database_type schema table_name
  else
    let table := quote_table_data_identifier database_type table_name identifier_quote in
    match trimmed_non_empty schema with
    | Some schema => (quote_table_data_identifier database_type schema identifier_quote +:+ "." +:+ table)%string
    | None => table
    end.

(** data_grid_sql.rs. *)
Definition data_grid_qualified_table_name (database_type : option DatabaseType) (catalog schema database : option string)
    (table_name : string) (identifier_quote : option string) : string :=
  if uses_connection_identifier_quote database_type identifier_quote
  then table_data_qualified_table_name database_type schema table_name identifier_quote
  else qualified_table_name_with_catalog database_type catalog schema database table_name.
End Names.

(** ** The text of a where box *)

Definition normalize_where_input (where_input : option string) : string :=
  let trimmed := trim (from_chars (trim_end_char 59 (chars (trim (default "" where_input))))) in
  let prefix := from_chars (take 5 (chars trimmed)) in
  if eq_ignore_ascii_case prefix "where" then trim (from_chars (drop 5 (chars trimmed))) else trimmed.

(** ** Reading a name back *)

(** A quoted name after its opening quote: a doubled closing quote is one. *)
Fixpoint read_quoted (closing : ascii) (s : string) : option (string * string) :=
  match s with
  | EmptyString => None
  | String a s1 =>
      if Ascii.eqb a closing then
        match s1 with
        | EmptyString => Some ("", "")
        | String b s2 =>
            if Ascii.eqb b closing
            then prod_map (String closing) id <$> read_quoted closing s2
            else Some ("", s1)
        end
      else prod_map (String a) id <$> read_quoted closing s1
  end.

Definition bare_byte (a : ascii) : bool :=
  let x := N_of_ascii a in is_ascii_alphanumeric x || (x =? 95)%N || (x =? 36)%N.
Fixpoint read_bare (s : string) : string * string :=
  match s with
  | EmptyString => ("", "")
  | String a s' => if bare_byte a then let '(w, rest) := read_bare s' in (String a w, rest) else ("", s)
  end.

Definition read_name (opening closing : ascii) (s : string) : option (string * string) :=
  match s with
  | String a s' =>
      if Ascii.eqb a opening then read_quoted closing s'
      else if bare_byte a then Some (read_bare s) else None
  | EmptyString => None
  end.

(** Names between dots, with fuel for each. *)
Fixpoint read_path (fuel : nat) (opening closing : ascii) (s : string) : option (list string) :=
  match fuel with
  | 0 => None
  | S fuel' =>
      '(name, rest) ← read_name opening closing s;
      match rest with
      | EmptyString => Some [name]
      | String a rest' => if Ascii.eqb a "." then cons name <$> read_path fuel' opening closing rest' else None
      end
  end.

(** The quotes a name of the grid is written with: none for the databases that
    get it bare. *)
Definition delimiters (database_type : option DatabaseType) : option (ascii * ascii) :=
  match database_type with
  | Some (Iotdb | Jdbc) => None
  | Some (Mysql | ClickHouse | Doris | Goldendb | StarRocks | ManticoreSearch | Hive | Spark | Databend | Tdengine
         | Access | Bigquery | Questdb | Neo4j) => Some (backtick, backtick)
  | Some SqlServer => Some ("["%char, "]"%char)
  | _ => Some (dquote_c, dquote_c)
  end.
Definition grid_delimiters (database_type : option DatabaseType) (identifier_quote : option string) :
    option (ascii * ascii) :=
  match identifier_quote with
  | Some quote =>
      if uses_connection_identifier_quote database_type identifier_quote then
        if String.eqb quote "`" then Some (backtick, backtick)
        else if String.eqb quote dquote then Some (dquote_c, dquote_c) else None
      else delimiters database_type
  | None => delimiters database_type
  end.

(** A name that looks quoted is passed as it is to these databases. *)
Definition passed_as_is (database_type : option DatabaseType) (identifier_quote : option string) (name : string) : bool :=
  match database_type with
  | Some (Gaussdb | OpenGauss) => is_explicitly_quoted_identifier name
  | Some Postgres => bool_decide (is_Some identifier_quote) && is_explicitly_quoted_identifier name
  | _ => false
  end.

(** The segments a table is addressed by. *)
Section Paths.
Context `{PercentDecoder}.

Definition schema_path (database_type : option DatabaseType) (schema : option string) (table_name : string) : list string :=
  let qualifies :=
    match database_type with
    | Some d => is_schema_aware d || bool_decide (d ∈ [Mysql; Goldendb; StarRocks; Doris])
    | None => false
    end in
  match schema with
  | Some schema =>
      if qualifies && negb (is_empty (trim schema)) then
        match (if bool_decide (database_type = Some SqlServer) then parse_sqlserver_linked_schema_ref schema else None) with
        | Some linked => [server linked; linked_catalog linked; linked_schema linked; table_name]
        | None => [schema; table_name]
        end
      else [table_name]
  | None => [table_name]
  end.

Definition table_path (database_type : option DatabaseType) (catalog schema database : option string)
    (table_name : string) (identifier_quote : option string) : list string :=
  if uses_connection_identifier_quote database_type identifier_quote
  then option_list (trimmed_non_empty schema) ++ [table_name]
  else match trimmed_non_empty catalog, database_type with
       | Some database, Some SqlServer => database :: schema_path database_type schema table_name
       | Some catalog, Some (Doris | StarRocks) =>
           if String.eqb catalog "internal" then schema_path database_type schema table_name
           else catalog :: option_list (union (trimmed_non_empty schema) (trimmed_non_empty database)) ++ [table_name]
       | _, _ => schema_path database_type schema table_name
       end.
End Paths.

(** ** Lemmas *)

Definition no_start (a : ascii) (s : string) : Prop := match s with String b _ => b ≠ a | EmptyString => True end.

Lemma read_quoted_replace closing name rest :
  no_start closing rest →
  read_quoted closing (replace_char closing (String closing (String closing "")) name +:+ String closing rest) =
  Some (name, rest).
Proof.
  intros Hrest. induction name as [|a name IH]; cbn.
  - rewrite ascii_eqb_refl. destruct rest as [|b rest]; [done|]. cbn in Hrest.
    destruct (Ascii.eqb_spec b closing); [by subst | done].
  - destruct (Ascii.eqb_spec a closing) as [->|Ha]; cbn.
    + rewrite !ascii_eqb_refl. by rewrite IH.
    + destruct (Ascii.eqb_spec a closing); [done|]. by rewrite IH.
Qed.

(** A name is written as [w]: whatever follows it, it reads as the name. *)
Definition follows (closing : ascii) (rest : string) : Prop := no_start closing rest ∧ match rest with String a _ => bare_byte a = false | _ => True end.
Definition written (opening closing : ascii) (w name : string) : Prop :=
  ∀ rest, follows closing rest → read_name opening closing (w +:+ rest) = Some (name, rest).

Lemma written_quoted opening closing name : written opening closing (quoted opening closing name) name.
Proof.
  intros rest [Hrest _]. unfold quoted. cbn. rewrite ascii_eqb_refl.
  rewrite <- string_app_assoc. cbn. by apply read_quoted_replace.
Qed.

Lemma replace_one_char a r s : replace s (String a "") r = replace_char a r s.
Proof.
  unfold replace, len. assert (∀ n, String.length s ≤ n → replace_fuel n (String a "") r s = replace_char a r s) as Hn; [|by apply (Hn (String.length s))].
  induction s as [|b s IH]; intros n Hlen; destruct n as [|n]; cbn in *; try done; try lia.
  destruct (Ascii.eqb_spec a b) as [->|Hab].
  - rewrite ascii_eqb_refl. change (strip_prefix s "") with (strip_prefix ("" +:+ s) ""). rewrite strip_prefix_app.
    rewrite IH; [done | lia].
  - destruct (Ascii.eqb_spec b a); [congruence|]. rewrite IH; [done | lia].
Qed.

Lemma read_bare_all w rest :
  forallb bare_byte (bytes_of w) = true → match rest with String a _ => bare_byte a = false | _ => True end →
  read_bare (w +:+ rest) = (w, rest).
Proof.
  intros Hw Hrest. induction w as [|a w IH]; cbn in *.
  - destruct rest as [|b rest]; [done|]. cbn. by rewrite Hrest.
  - apply andb_prop in Hw as [Ha Hw]. rewrite Ha, IH; done.
Qed.

Lemma written_bare opening closing w :
  w ≠ "" → forallb bare_byte (bytes_of w) = true → bare_byte opening = false → written opening closing w w.
Proof.
  intros Hne Hw Hop rest [_ Hrest]. destruct w as [|a w]; [done|]. unfold read_name. cbn [append].
  pose proof Hw as Hw'. cbn in Hw'. apply andb_prop in Hw' as [Ha _].
  destruct (Ascii.eqb_spec a opening) as [->|]; [congruence|]. rewrite Ha.
  change (String a (w +:+ rest)) with (String a w +:+ rest)%string. by rewrite read_bare_all.
Qed.

Lemma bare_bytes name (f : N → bool) :
  utf8 name = true → (∀ x, f x = true → is_ascii_alphanumeric x || (x =? 95)%N || (x =? 36)%N = true) →
  forallb f (chars name) = true → forallb bare_byte (bytes_of name) = true.
Proof.
  intros Hn Hf Hall.
  assert (Hg : forallb (λ x, is_ascii_alphanumeric x || (x =? 95)%N || (x =? 36)%N) (chars name) = true).
  { rewrite forallb_forall in *. auto. }
  apply (ascii_bytes name _ Hn) in Hg; [exact Hg|]. intros x Hx.
  unfold is_ascii_alphanumeric, is_ascii_alphabetic, is_ascii_lowercase, is_ascii_uppercase, is_ascii_digit in Hx.
  rewrite !orb_true_iff, !andb_true_iff, !N.leb_le, !N.eqb_eq in Hx. lia.
Qed.

(** A name is quoted, or it is a bare word that needs no quotes. *)
Definition name_form (o c : ascii) (name w : string) : Prop :=
  w = quoted o c name ∨ (w = name ∧ name ≠ "" ∧ forallb bare_byte (bytes_of name) = true ∧ bare_byte o = false).

Lemma bare_form f o c name :
  (∀ x, f x = true → is_ascii_alphanumeric x || (x =? 95)%N || (x =? 36)%N = true) →
  utf8 name = true → chars name ≠ [] → forallb f (chars name) = true → bare_byte o = false → name_form o c name name.
Proof.
  intros Hf Hu Hne Hall Ho. right. split; [done|]. split; [by intros ->|]. split; [by eapply bare_bytes | done].
Qed.

Lemma table_name_form d o c name :
  delimiters d = Some (o, c) → passed_as_is d None name = false → utf8 name = true →
  name_form o c name (quote_table_identifier d name).
Proof.
  intros Hd Hp Hu. unfold quote_table_identifier.
  destruct d as [d|]; [|injection Hd as <- <-; by left].
  destruct d; cbn in Hd; try done; cbn in Hp; rewrite ?Hp; try (injection Hd as <- <-; by left).
  injection Hd as <- <-. destruct (is_simple_informix_identifier name) eqn:Hi; [|by left].
  unfold is_simple_informix_identifier in Hi.
  apply (bare_form (λ x, is_ascii_alphanumeric x || (x =? 95)%N || (x =? 36)%N)); [done | done | | | done];
    destruct (chars name) as [|x l]; try done.
  apply andb_prop in Hi as [Hx Hl]. cbn. rewrite Hl, andb_true_r. unfold is_ascii_alphanumeric.
  destruct (is_ascii_alphabetic x), (x =? 95)%N; by rewrite ?orb_true_r.
Qed.

Lemma quoted_with_one a name : quoted_with (String a "") name = quoted a a name.
Proof. unfold quoted_with. by rewrite replace_one_char. Qed.

Lemma connection_name_form a name :
  trim (String a "") = String a "" → bare_byte a = false → is_explicitly_quoted_identifier name = false → utf8 name = true →
  name_form a a name (quote_gaussdb_jdbc_identifier name (String a "")).
Proof.
  intros Ht Hb He Hu. unfold quote_gaussdb_jdbc_identifier. rewrite He, Ht. cbn [is_empty].
  destruct (negb _ || _ || _) eqn:Hr; cbn [negb]; [left; apply quoted_with_one|].
  apply orb_false_elim in Hr as [[Hs%negb_false_iff _]%orb_false_elim _]. unfold is_simple_lower_identifier in Hs.
  apply (bare_form (λ x, (x =? 95)%N || (x =? 36)%N || is_ascii_lowercase x || is_ascii_digit x)); [ | done | | | done].
  - intros y. unfold is_ascii_alphanumeric, is_ascii_alphabetic.
    destruct (is_ascii_lowercase y), (is_ascii_digit y), (y =? 95)%N, (y =? 36)%N; by rewrite ?orb_true_r.
  - by destruct (chars name).
  - destruct (chars name) as [|x l]; [done|]. apply andb_prop in Hs as [Hx Hl]. cbn. rewrite Hl, andb_true_r.
    destruct (is_ascii_lowercase x), (x =? 95)%N; by rewrite ?orb_true_r.
Qed.

Lemma grid_name_form d q o c name :
  grid_delimiters d q = Some (o, c) → passed_as_is d q name = false → utf8 name = true →
  name_form o c name (quote_table_data_identifier d name q).
Proof.
  intros Hd Hp Hu. unfold quote_table_data_identifier, grid_delimiters in *. destruct q as [q|]; cycle 1.
  { destruct (negb _); by apply table_name_form. }
  destruct (uses_connection_identifier_quote d (Some q)) eqn:Hq; cbn [negb]; cycle 1.
  { apply table_name_form; [done | by destruct d as [[]|] | done]. }
  assert (Hone : ∃ a, q = String a "" ∧ (o, c) = (a, a) ∧ trim q = q ∧ bare_byte a = false).
  { destruct (String.eqb_spec q "`") as [->|_].
    - exists backtick. injection Hd as <- <-. by split_and!.
    - destruct (String.eqb_spec q dquote) as [->|_]; [|done]. exists dquote_c. injection Hd as <- <-. by split_and!. }
  destruct Hone as (a & -> & [= -> ->] & Ht & Hb).
  destruct d as [[]|]; try done; try (by apply connection_name_form); left; apply quoted_with_one.
Qed.

(** Every name the grid writes reads as that name. *)
Lemma grid_name_written d q o c name :
  grid_delimiters d q = Some (o, c) → passed_as_is d q name = false → utf8 name = true →
  written o c (quote_table_data_identifier d name q) name.
Proof.
  intros Hd Hp Hu. destruct (grid_name_form d q o c name Hd Hp Hu) as [->|(-> & Hne & Hb & Ho)];
    [apply written_quoted | by apply written_bare].
Qed.

(** A path of written names. *)
Lemma read_path_join o c ws names fuel :
  Forall2 (written o c) ws names → names ≠ [] → c ≠ "."%char → List.length names ≤ fuel →
  read_path fuel o c (join "." ws) = Some names.
Proof.
  intros H Hne Hc. revert fuel. induction H as [|w name ws names Hw H IH]; intros [|fuel] Hf; try done; [cbn in Hf; lia|].
  cbn [read_path]. destruct H as [|w' name' ws names Hw' H].
  - assert (Hr : read_name o c w = Some (name, "")).
    { rewrite <- (string_app_nil_r w). by apply Hw. }
    unfold join. cbn. by rewrite Hr.
  - change (join "." (w :: w' :: ws)) with (w +:+ String "." (join "." (w' :: ws)))%string.
    rewrite Hw by (split; [cbn; congruence | done]). cbn [mbind option_bind].
    change (Ascii.eqb "." ".") with true. cbv beta iota. rewrite IH; [done | done | cbn in *; lia].
Qed.

Lemma written_non_empty o c w name : written o c w name → 1 ≤ len w.
Proof.
  intros Hw. specialize (Hw "" (conj I I)). destruct w; [done|]. unfold len. cbn. lia.
Qed.

Lemma join_len o c ws names : Forall2 (written o c) ws names → List.length names ≤ len (join "." ws).
Proof.
  induction 1 as [|w name ws names Hw H IH]; [cbn; lia|]. pose proof (written_non_empty _ _ _ _ Hw).
  destruct H as [|w' name' ws names Hw' H].
  - unfold join. cbn [String.concat List.length]. lia.
  - change (join "." (w :: w' :: ws)) with (w +:+ ("." +:+ join "." (w' :: ws)))%string.
    rewrite !string_app_length. change (len ".") with 1. cbn [List.length] in *. lia.
Qed.

Lemma delimiters_closing d q o c : grid_delimiters d q = Some (o, c) → c ≠ "."%char.
Proof.
  unfold grid_delimiters. intros H ->. destruct q as [q|].
  - destruct (uses_connection_identifier_quote d (Some q)).
    + destruct (String.eqb q "`"); [done|]. by destruct (String.eqb q dquote).
    + by destruct d as [[]|].
  - by destruct d as [[]|].
Qed.

(** Names as lists of characters that are not empty. *)
Definition read_table (o c : ascii) (s : string) : option (list string) := read_path (len s) o c s.

Section TableNames.
Context `{PercentDecoder}.

Lemma schema_name_joins d schema table_name :
  d ≠ Some Iotdb → d ≠ Some Jdbc →
  qualified_table_name d schema table_name = join "." (quote_table_identifier d <$> schema_path d schema table_name).
Proof.
  intros Hi Hj. unfold qualified_table_name, schema_path. rewrite bool_decide_eq_false_2 by done.
  destruct schema as [schema|]; [|done]. rewrite (bool_decide_eq_false_2 (d = Some Jdbc)) by done.
  rewrite andb_true_r.
  assert (match d with Some d => is_schema_aware d || match d with Mysql | Goldendb | StarRocks | Doris => true | _ => false end
          | None => false end =
          match d with Some d => is_schema_aware d || bool_decide (d ∈ [Mysql; Goldendb; StarRocks; Doris]) | None => false end)
    as -> by (destruct d as [[]|]; vm_compute; done).
  destruct (_ && _); [|done].
  destruct (bool_decide (d = Some SqlServer)) eqn:Hs; [|done]. apply bool_decide_eq_true in Hs as ->.
  by destruct (parse_sqlserver_linked_schema_ref schema).
Qed.

Lemma table_name_joins d catalog schema database table_name q :
  d ≠ Some Iotdb → d ≠ Some Jdbc →
  data_grid_qualified_table_name d catalog schema database table_name q =
  join "." ((λ n, quote_table_data_identifier d n q) <$> table_path d catalog schema database table_name q).
Proof.
  intros Hi Hj. unfold data_grid_qualified_table_name, table_path, table_data_qualified_table_name,
    qualified_table_name_with_catalog, catalog_qualified.
  destruct (uses_connection_identifier_quote d q) eqn:Hq; cbn [negb].
  { by destruct (trimmed_non_empty schema). }
  assert (Hn : ∀ l : list string, (λ n, quote_table_data_identifier d n q) <$> l = quote_table_identifier d <$> l).
  { intros l. apply list_fmap_ext. intros i n _. unfold quote_table_data_identifier. by rewrite Hq. }
  rewrite Hn.
  assert (Hschema := schema_name_joins d schema table_name Hi Hj).
  destruct (trimmed_non_empty catalog) as [cat|]; [|done].
  assert (Hjoin : ∀ (n : string) (l : list string), l ≠ [] → (quote_table_identifier d n +:+ "." +:+ join "." (quote_table_identifier d <$> l))%string =
    join "." (quote_table_identifier d <$> n :: l)).
  { intros n [|x l] Hl; [done|]. done. }
  assert (Hp : schema_path d schema table_name ≠ []).
  { unfold schema_path. destruct schema as [s|]; [|done]. destruct (_ && _); [|done].
    by destruct (if bool_decide _ then _ else _). }
  destruct d as [[]|]; try exact Hschema; cbn beta iota; try (by rewrite Hschema, Hjoin);
    destruct (String.eqb cat "internal"); cbn [negb]; try exact Hschema;
    destruct (trimmed_non_empty schema), (trimmed_non_empty database); done.
Qed.

(** C22: The name the grid writes for a table reads, quote by quote, as exactly the
    catalog, schema and table it was given, whatever characters they hold: no name
    ends its quotes, and two tables never share a name. The databases that get names
    bare are left out, and so are the names that already look quoted where those are
    passed on as they are. *)
Theorem table_name_reads_back d catalog schema database table_name q o c :
  grid_delimiters d q = Some (o, c) →
  Forall (λ n, passed_as_is d q n = false ∧ utf8 n = true) (table_path d catalog schema database table_name q) →
  read_table o c (data_grid_qualified_table_name d catalog schema database table_name q) =
  Some (table_path d catalog schema database table_name q).
Proof.
  intros Hd Hn.
  assert (d ≠ Some Iotdb ∧ d ≠ Some Jdbc) as [Hi Hj] by (split; intros ->; by destruct q).
  rewrite table_name_joins by done. set (path := table_path _ _ _ _ _ _) in *.
  assert (HF : Forall2 (written o c) ((λ n, quote_table_data_identifier d n q) <$> path) path).
  { clear -Hd Hn. induction Hn as [|n path [Hp Hu] _ IH]; [constructor|]. constructor; [|exact IH].
    by eapply grid_name_written. }
  unfold read_table. apply read_path_join; [done | | by eapply delimiters_closing | by eapply join_len].
  unfold path, table_path, schema_path.
  destruct (uses_connection_identifier_quote d q); [by destruct (trimmed_non_empty schema)|].
  assert (Hs : schema_path d schema table_name ≠ []).
  { unfold schema_path. destruct schema as [s|]; [|done]. destruct (_ && _); [|done].
    by destruct (if bool_decide _ then _ else _). }
  destruct (trimmed_non_empty catalog) as [cat|]; [|done].
  destruct d as [[]|]; try done; by destruct (String.eqb cat "internal").
Qed.
End TableNames.

(** A decoder for texts without escapes. *)
Definition plain_decoder : PercentDecoder := {| percent_decode := Some |}.

(** A schema and a table that hold quotes and dots. *)
Lemma table_name_reads_back_witness :
  let schema := ("my" +:+ dquote +:+ "s")%string in
  read_table dquote_c dquote_c
    (@data_grid_qualified_table_name plain_decoder (Some Postgres) None (Some schema) None "a.b" None) =
  Some [schema; "a.b"].
Proof.
  apply (@table_name_reads_back plain_decoder (Some Postgres) None (Some ("my" +:+ dquote +:+ "s")%string) None "a.b" None
           dquote_c dquote_c); [reflexivity|].
  apply (bool_decide_eq_true_1 _). vm_compute. reflexivity.
Defined.

(** Two databases get a name that looks quoted as it is, and with the quote of a
    connection so does Postgres: what such a name holds is read as SQL. *)
Example quoted_name_passed :
  let name := ("[a]; DROP TABLE b; --]")%string in
  (∀ d, d ∈ [Gaussdb; OpenGauss] → quote_table_identifier (Some d) name = name) ∧
  quote_table_data_identifier (Some Postgres) name (Some dquote) = name.
Proof.
  split; [|reflexivity]. intros d Hd. apply elem_of_cons in Hd as [->|Hd]; [reflexivity|].
  apply list_elem_of_singleton in Hd as ->. reflexivity.
Qed.
