(* ===== verification/SqlScan.v ===== *)
(** * Reading a statement by its quotes

    A scanner of SQL as a database reads it, byte by byte: text literals, whose
    backslashes escape or not, quoted names, and what is outside of both, where only
    the bytes of keywords, names, numbers and punctuation may stand and a comment or
    a second statement is an error. The writers' theorems say that what they write
    is accepted, whatever the cells and the names hold. *)
From S2P Require Import Prelude RustStr Json F64 SqlText GridTypes.

(** How a database reads quotes. *)
Record Lexer : Type := { backslash_escapes : bool; opening : ascii; closing : ascii }.

(** The byte before, outside of quotes. *)
Inductive before : Type := Plain | Dash | Word | Escape.
Inductive scan_state : Type :=
| Out (b : before)
| InText (escapes skip : bool)
| AfterText (escapes : bool)
| InName
| AfterName
| Done.

#[export] Instance scan_state_eq_dec : EqDecision scan_state.
Proof. intros x y. unfold Decision. decide equality; try apply bool_dec; decide equality. Defined.

Definition word_byte (a : ascii) : bool :=
  let x := N_of_ascii a in is_ascii_alphanumeric x || (x =? 95)%N || (x =? 36)%N.
(** Space, line feed and [( ) { } , . : = < > +]; a bracket where it opens no name. *)
Definition punctuation_byte (a : ascii) : bool :=
  bool_decide (N_of_ascii a ∈ [32; 10; 40; 41; 123; 125; 44; 46; 58; 61; 60; 62; 43; 91; 93]%N).
Definition quote_byte : ascii := "'".

Section Scan.
Variable x : Lexer.

Definition step_outside (b : before) (a : ascii) : option scan_state :=
  if Ascii.eqb a quote_byte then Some (InText (backslash_escapes x || match b with Escape => true | _ => false end) false)
  else if Ascii.eqb a (opening x) then Some InName
  else if Ascii.eqb a ";" then Some Done
  else if Ascii.eqb a "-" then match b with Dash => None | _ => Some (Out Dash) end
  else if Ascii.eqb a "E" then Some (Out match b with Word | Escape => Word | _ => Escape end)
  else if word_byte a then Some (Out Word)
  else if punctuation_byte a then Some (Out Plain)
  else None.

Definition scan_step (st : scan_state) (a : ascii) : option scan_state :=
  match st with
  | Out b => step_outside b a
  | InText escapes true => Some (InText escapes false)
  | InText escapes false =>
      if Ascii.eqb a quote_byte then Some (AfterText escapes)
      else Some (InText escapes (escapes && Ascii.eqb a "\"))
  | AfterText escapes => if Ascii.eqb a quote_byte then Some (InText escapes false) else step_outside Plain a
  | InName => Some (if Ascii.eqb a (closing x) then AfterName else InName)
  | AfterName => if Ascii.eqb a (closing x) then Some InName else step_outside Word a
  | Done => None
  end.

Fixpoint scan (st : scan_state) (s : string) : option scan_state :=
  match s with
  | EmptyString => Some st
  | String a s' => st' ← scan_step st a; scan st' s'
  end.

Definition outside (st : scan_state) : Prop := match st with Out _ | AfterText _ | AfterName => True | _ => False end.

(** A piece of a statement closes what it opens; a gap also ends what comes
    before it; a statement is one statement. *)
Definition piece (w : string) : Prop := ∃ st, scan (Out Plain) w = Some st ∧ outside st.
Definition gap (w : string) : Prop := ∀ st, outside st → scan st w = Some (Out Plain).
Definition one_statement (w : string) : Prop := ∃ st, scan (Out Plain) w = Some st ∧ (outside st ∨ st = Done).

Lemma scan_app st a b : scan st (a +:+ b) = scan st a ≫= λ st', scan st' b.
Proof.
  revert st. induction a as [|y a IH]; intros st; [done|]. cbn.
  destruct (scan_step st y) as [st'|]; [|done]. cbn. apply IH.
Qed.

Lemma piece_gap_piece w g w' : piece w → gap g → piece w' → piece (w +:+ g +:+ w').
Proof.
  intros (st & Hw & Hst) Hg (st' & Hw' & Hst'). exists st'. split; [|done].
  rewrite scan_app, Hw. cbn. rewrite scan_app, Hg by done. exact Hw'.
Qed.
Lemma piece_gap w g : piece w → gap g → piece (w +:+ g).
Proof.
  intros (st & Hw & Hst) Hg. exists (Out Plain). split; [|done]. rewrite scan_app, Hw. cbn. by apply Hg.
Qed.
Lemma gap_piece g w : gap g → piece w → piece (g +:+ w).
Proof.
  intros Hg (st & Hw & Hst). exists st. split; [|done]. by rewrite scan_app, Hg.
Qed.
Lemma gap_piece_gap g w g' : gap g → piece w → gap g' → gap (g +:+ w +:+ g').
Proof.
  intros Hg (st & Hw & Hst) Hg' st' Hst'. rewrite scan_app, Hg by done. cbn. rewrite scan_app, Hw. cbn. by apply Hg'.
Qed.
Lemma gap_app g g' : gap g → gap g' → gap (g +:+ g').
Proof. intros Hg Hg' st Hst. rewrite scan_app, Hg by done. cbn. by apply Hg'. Qed.

Lemma piece_join sep ws : gap sep → Forall piece ws → piece (join sep ws).
Proof.
  intros Hsep H. induction H as [|w ws Hw H IH]; [by exists (Out Plain)|].
  destruct ws as [|w' ws]; [exact Hw|].
  change (join sep (w :: w' :: ws)) with (w +:+ sep +:+ join sep (w' :: ws))%string. by apply piece_gap_piece.
Qed.

Lemma piece_statement w : piece w → one_statement w.
Proof. intros (st & Hw & Hst). exists st. auto. Qed.
Lemma step_end st : opening x ≠ ";"%char → closing x ≠ ";"%char → outside st → scan_step st ";" = Some Done.
Proof.
  intros Ho Hc Hst.
  assert (∀ b, step_outside b ";" = Some Done) as Hb.
  { intros b. unfold step_outside. change (Ascii.eqb ";" quote_byte) with false. cbv beta iota.
    by destruct (Ascii.eqb_spec ";" (opening x)). }
  destruct st as [b| |e| | |]; try done; unfold scan_step; [apply Hb | | ].
  { change (Ascii.eqb ";" quote_byte) with false. apply (Hb Plain). }
  destruct (Ascii.eqb_spec ";" (closing x)); [congruence | apply (Hb Word)].
Qed.
Lemma piece_ended w : opening x ≠ ";"%char → closing x ≠ ";"%char → piece w → one_statement (w +:+ ";").
Proof.
  intros Ho Hc (st & Hw & Hst). exists Done. split; [|by right]. rewrite scan_app, Hw. cbn [mbind option_bind scan].
  by rewrite step_end.
Qed.

(** ** Texts *)

(** A text that stays inside a literal. *)
Definition inside (escapes : bool) (w : string) : Prop := scan (InText escapes false) w = Some (InText escapes false).

Lemma text_inside_app escapes a b : inside escapes a → inside escapes b → inside escapes (a +:+ b).
Proof. unfold inside. intros Ha Hb. by rewrite scan_app, Ha. Qed.

Definition no_backslash (s : string) : Prop := Forall (λ a, a ≠ "\"%char) (bytes_of s).

Lemma inside_quotes_doubled escapes s : escapes = false ∨ no_backslash s → inside escapes (replace_char quote_byte "''" s).
Proof.
  intros Hs. induction s as [|a s IH]; [done|].
  assert (Hs' : escapes = false ∨ no_backslash s) by (destruct Hs as [|Hs]; [by left | right; by inversion Hs]).
  cbn [replace_char]. destruct (Ascii.eqb_spec a quote_byte) as [->|Ha].
  - by apply (text_inside_app escapes "''"); [|apply IH].
  - change (String a (replace_char quote_byte "''" s)) with (String a "" +:+ replace_char quote_byte "''" s)%string.
    apply text_inside_app; [|by apply IH]. unfold inside. cbn. destruct (Ascii.eqb_spec a quote_byte); [done|].
    destruct Hs as [->|Hs]; [done|]. inversion Hs as [|? ? Hb Hs2]; subst.
    destruct (Ascii.eqb_spec a "\"); [done|]. by rewrite andb_false_r.
Qed.

Lemma inside_both_doubled escapes s : inside escapes (replace_char quote_byte "''" (replace_char "\" "\\" s)).
Proof.
  induction s as [|a s IH]; [done|]. cbn [replace_char]. destruct (Ascii.eqb_spec a "\") as [->|Hb].
  - cbn. by apply (text_inside_app escapes "\\"); [destruct escapes | apply IH].
  - cbn [replace_char]. destruct (Ascii.eqb_spec a quote_byte) as [->|Ha].
    + by apply (text_inside_app escapes "''"); [|apply IH].
    + match goal with |- inside _ (String a ?r) => change (inside escapes (String a "" +:+ r)%string) end.
      apply text_inside_app; [|by apply IH]. unfold inside. cbn. destruct (Ascii.eqb_spec a quote_byte); [done|].
      destruct (Ascii.eqb_spec a "\"); [done|]. by rewrite andb_false_r.
Qed.

Lemma inside_escaped s : inside true (replace_char quote_byte "\'" (replace_char "\" "\\" s)).
Proof.
  induction s as [|a s IH]; [done|]. cbn [replace_char]. destruct (Ascii.eqb_spec a "\") as [->|Hb].
  - cbn. by apply (text_inside_app true "\\"); [|apply IH].
  - cbn [replace_char]. destruct (Ascii.eqb_spec a quote_byte) as [->|Ha].
    + by apply (text_inside_app true "\'"); [|apply IH].
    + match goal with |- inside _ (String a ?r) => change (inside true (String a "" +:+ r)%string) end.
      apply text_inside_app; [|by apply IH]. unfold inside. cbn. destruct (Ascii.eqb_spec a quote_byte); [done|].
      by destruct (Ascii.eqb_spec a "\").
Qed.

(** A text without quotes and backslashes. *)
Definition plain_text (s : string) : bool := bytes_all (λ y, negb (y =? 39)%N && negb (y =? 92)%N) s.

Lemma inside_plain escapes s : plain_text s = true → inside escapes s.
Proof.
  unfold plain_text, bytes_all. induction s as [|a s IH]; [done|]. cbn. intros [Ha Hs]%andb_prop.
  unfold inside in *. cbn. destruct (Ascii.eqb_spec a quote_byte) as [->|_]; [done|].
  destruct (Ascii.eqb_spec a "\") as [->|_]; [done|]. rewrite andb_false_r. by apply IH.
Qed.

(** A literal opened outside of quotes. *)
Lemma scan_literal b w :
  inside (backslash_escapes x || match b with Escape => true | _ => false end) w →
  scan (Out b) ("'" +:+ w +:+ "'") = Some (AfterText (backslash_escapes x || match b with Escape => true | _ => false end)).
Proof. intros Hw. cbn. by rewrite scan_app, Hw. Qed.

Lemma piece_literal w : inside (backslash_escapes x) w → piece ("'" +:+ w +:+ "'").
Proof.
  intros Hw. eexists. split; [apply (scan_literal Plain); by rewrite orb_false_r | done].
Qed.

(** ** Names *)

Lemma inside_name name :
  scan InName (replace_char (closing x) (String (closing x) (String (closing x) "")) name) = Some InName.
Proof.
  induction name as [|a name IH]; [done|]. cbn [replace_char]. destruct (Ascii.eqb_spec a (closing x)) as [->|Ha].
  - rewrite scan_app. cbn. rewrite ascii_eqb_refl. cbn. rewrite ascii_eqb_refl. exact IH.
  - cbn. destruct (Ascii.eqb_spec a (closing x)); [done|]. exact IH.
Qed.

Lemma piece_name name :
  opening x ≠ quote_byte →
  piece (String (opening x) (replace_char (closing x) (String (closing x) (String (closing x) "")) name +:+ String (closing x) "")).
Proof.
  intros Ho. exists AfterName. split; [|done]. cbn. unfold step_outside.
  destruct (Ascii.eqb_spec (opening x) quote_byte); [done|]. rewrite ascii_eqb_refl. cbn.
  rewrite scan_app, inside_name. cbn. by rewrite ascii_eqb_refl.
Qed.

(** ** Words and numbers *)

(** What stands between pieces: its first byte is no part of what comes before,
    its last one is punctuation. *)
Definition plain_byte (a : ascii) : bool := negb (Ascii.eqb a (opening x)) && (word_byte a || punctuation_byte a).
Definition gap_ok (g : string) : bool :=
  match bytes_of g with a :: _ => punctuation_byte a && negb (Ascii.eqb a (closing x)) | [] => false end
  && forallb plain_byte (bytes_of g)
  && match last (bytes_of g) with Some a => punctuation_byte a | None => false end.

Lemma punctuation_step b a :
  Ascii.eqb a (opening x) = false → punctuation_byte a = true → step_outside b a = Some (Out Plain).
Proof.
  intros Ho Ha. assert (Hq : Ascii.eqb a quote_byte = false ∧ Ascii.eqb a ";" = false ∧ Ascii.eqb a "-" = false ∧
    Ascii.eqb a "E" = false ∧ word_byte a = false).
  { clear Ho. destruct a as [[] [] [] [] [] [] [] []]; vm_compute in Ha; first [discriminate Ha | vm_compute; auto]. }
  destruct Hq as (H1 & H2 & H3 & H4 & H5). unfold step_outside. by rewrite H1, Ho, H2, H3, H4, H5, Ha.
Qed.

Lemma plain_step b a : plain_byte a = true → ∃ b', step_outside b a = Some (Out b') ∧ (b' = Plain ↔ punctuation_byte a = true).
Proof.
  unfold plain_byte. intros [Ho%negb_true_iff Ha]%andb_prop. destruct (punctuation_byte a) eqn:Hp.
  - exists Plain. split; [by apply punctuation_step | done].
  - rewrite orb_false_r in Ha. unfold step_outside. rewrite Ho, Ha.
    destruct (Ascii.eqb_spec a quote_byte) as [->|_]; [done|]. destruct (Ascii.eqb_spec a ";") as [->|_]; [done|].
    destruct (Ascii.eqb_spec a "-") as [->|_]; [done|].
    destruct (Ascii.eqb a "E"); [|by exists Word]. destruct b; eexists; by split.
Qed.

Lemma scan_plain b w :
  forallb plain_byte (bytes_of w) = true →
  ∃ b', scan (Out b) w = Some (Out b') ∧
        (match last (bytes_of w) with Some a => punctuation_byte a = true | None => b = Plain end → b' = Plain).
Proof.
  revert b. induction w as [|a w IH]; intros b; [by exists b|]. cbn. intros [Ha Hw]%andb_prop.
  destruct (plain_step b a Ha) as (b1 & -> & Hb). cbn. destruct (IH b1 Hw) as (b2 & -> & Hb2). exists b2. split; [done|].
  intros Hl. apply Hb2. fold (bytes_of w) in *. destruct (bytes_of w) as [|a' l] eqn:Hbw; [by apply Hb|].
  change (last (a :: a' :: l)) with (last (a' :: l)) in Hl.
    destruct (last (a' :: l)) eqn:He; [exact Hl | by apply last_None in He].
Qed.

Lemma gap_intro g : gap_ok g = true → gap g.
Proof.
  unfold gap_ok. intros [[Ha Hg]%andb_prop Hl]%andb_prop st Hst. destruct g as [|a g]; [done|]. cbn [bytes_of list_ascii_of_string] in Ha.
  apply andb_prop in Ha as [Ha Hc%negb_true_iff].
  assert (Hs : scan st (String a g) = scan (Out Plain) (String a g)).
  { pose proof Hg as Hg'. cbn in Hg'. apply andb_prop in Hg' as [[Ho%negb_true_iff _]%andb_prop _].
    cbn [scan]. assert (scan_step st a = Some (Out Plain)) as ->; [|cbn [scan_step]; by rewrite punctuation_step].
    destruct st as [b| |e| | |]; try done; cbn [scan_step]; [by apply punctuation_step | | rewrite Hc; by apply punctuation_step].
    destruct (Ascii.eqb_spec a quote_byte) as [->|_]; [done|]. by apply punctuation_step. }
  rewrite Hs. destruct (scan_plain Plain (String a g) Hg) as (b & Hb & Hp). rewrite Hb. do 2 f_equal. apply Hp.
  by destruct (last (bytes_of (String a g))).
Qed.

(** What stands first, and what stands last. *)
Definition lead_ok (g : string) : bool :=
  forallb plain_byte (bytes_of g) && match last (bytes_of g) with Some a => punctuation_byte a | None => false end.
Definition tail_ok (g : string) : bool :=
  match bytes_of g with a :: _ => punctuation_byte a && negb (Ascii.eqb a (closing x)) | [] => false end
  && forallb plain_byte (bytes_of g).

Lemma lead_piece g w : lead_ok g = true → piece w → piece (g +:+ w).
Proof.
  unfold lead_ok. intros [Hg Hl]%andb_prop (st & Hw & Hst). exists st. split; [|done].
  destruct (scan_plain Plain g Hg) as (b & Hb & Hp). rewrite scan_app, Hb. cbn. rewrite Hp; [done|].
  by destruct (last (bytes_of g)).
Qed.

Lemma piece_tail w g : piece w → tail_ok g = true → piece (w +:+ g).
Proof.
  unfold tail_ok. intros (st & Hw & Hst) [Ha Hg]%andb_prop. destruct g as [|a g]; [done|].
  cbn [bytes_of list_ascii_of_string] in Ha. apply andb_prop in Ha as [Ha Hc].
  destruct (scan_plain Plain g) as (b & Hb & _).
  { cbn in Hg. by apply andb_prop in Hg as [_ Hg]. }
  exists (Out b). split; [|done]. rewrite scan_app, Hw. cbn [mbind option_bind].
  change (String a g) with (String a "" +:+ g)%string. rewrite scan_app.
  assert (gap (String a "")) as Hgap.
  { apply gap_intro. unfold gap_ok. cbn. rewrite Ha, Hc. cbn. cbn in Hg. apply andb_prop in Hg as [Hg _]. by rewrite Hg. }
  by rewrite Hgap.
Qed.

Lemma piece_plain w : forallb plain_byte (bytes_of w) = true → piece w.
Proof. intros Hw. destruct (scan_plain Plain w Hw) as (b & Hb & _). by exists (Out b). Qed.

Lemma scan_word a w :
  word_byte (opening x) = false → word_byte a = true →
  scan (Out Plain) (String a w) = scan (Out (if Ascii.eqb a "E" then Escape else Word)) w.
Proof.
  intros Ho Ha. assert (step_outside Plain a = Some (Out (if Ascii.eqb a "E" then Escape else Word))) as Hs.
  { unfold step_outside. destruct (Ascii.eqb_spec a quote_byte) as [->|_]; [done|].
    destruct (Ascii.eqb_spec a (opening x)) as [->|_]; [congruence|]. destruct (Ascii.eqb_spec a ";") as [->|_]; [done|].
    destruct (Ascii.eqb_spec a "-") as [->|_]; [done|]. rewrite Ha. by destruct (Ascii.eqb a "E"). }
  cbn [scan scan_step]. by rewrite Hs.
Qed.

(** No two dashes in a row. *)
Fixpoint no_comment (dash : bool) (l : list N) : bool :=
  match l with
  | [] => true
  | y :: l' => if (y =? 45)%N then negb dash && no_comment true l' else no_comment false l'
  end.

Lemma no_comment_app d a b : a ≠ [] → Forall (λ y, y ≠ 45%N) a → no_comment d (a ++ b) = no_comment false b.
Proof.
  intros Hne H. revert d Hne. induction H as [|y a Hy H IH]; intros d Hne; [done|]. cbn.
  destruct (N.eqb_spec y 45); [done|]. destruct a; [done|]. by apply IH.
Qed.

Lemma piece_number w :
  is_numeric_char (N_of_ascii (opening x)) = false → forallb (λ a, is_numeric_char (N_of_ascii a)) (bytes_of w) = true →
  no_comment false (N_of_ascii <$> bytes_of w) = true → piece w.
Proof.
  intros Ho Hw Hn.
  assert (H : ∀ b, no_comment (match b with Dash => true | _ => false end) (N_of_ascii <$> bytes_of w) = true →
    ∃ b', scan (Out b) w = Some (Out b')); [|destruct (H Plain Hn) as [b Hb]; by exists (Out b)].
  clear Hn. induction w as [|a w IH]; intros b; [by exists b|]. cbn in Hw. apply andb_prop in Hw as [Ha Hw].
  cbn. fold (bytes_of w). specialize (IH Hw). unfold step_outside.
  destruct (Ascii.eqb_spec a (opening x)) as [->|_]; [congruence|].
  assert (Hx : (a = "-"%char) ∨ (N_of_ascii a ≠ 45%N ∧ a ≠ "-"%char ∧ a ≠ quote_byte ∧ a ≠ ";"%char ∧ (a = "E"%char ∨ word_byte a = true ∨ punctuation_byte a = true))).
  { clear IH Ho Hw. destruct a as [[] [] [] [] [] [] [] []]; vm_compute in Ha; first [discriminate Ha | by left | right; vm_compute; intuition congruence]. }
  destruct Hx as [->|(Hne & Hd & Hq & Hs & Hx)].
  - change (N_of_ascii "-" =? 45)%N with true. change (Ascii.eqb "-" quote_byte) with false. cbn.
    destruct b; cbn; try discriminate; intros Hn; by apply (IH Dash).
  - destruct (N.eqb_spec (N_of_ascii a) 45); [done|]. destruct (Ascii.eqb_spec a quote_byte); [done|].
    destruct (Ascii.eqb_spec a ";"); [done|]. destruct (Ascii.eqb_spec a "-"); [done|]. intros Hn.
    destruct (Ascii.eqb a "E") eqn:He.
    + destruct b; (apply (IH Word) || apply (IH Escape)); exact Hn.
    + destruct (word_byte a) eqn:Hwb; [by apply (IH Word)|]. destruct Hx as [->|[?|Hp]]; [done | done|].
      rewrite Hp. by apply (IH Plain).
Qed.
End Scan.

(** ** Numeric texts hold no comment *)

Definition number_text (w : string) : bool :=
  forallb (λ a, is_numeric_char (N_of_ascii a)) (bytes_of w) && no_comment false (N_of_ascii <$> bytes_of w).

Lemma take_digits_app l v n :
  ∃ ds, l = ds ++ (take_digits l v n).2 ∧ (take_digits l v n).1.2 = n + List.length ds ∧ Forall (λ y, y ≠ 45%N) ds.
Proof.
  revert v n. induction l as [|y l IH]; intros v n; [exists []; cbn; split_and!; [done | lia | constructor]|].
  cbn [take_digits]. destruct ((48 <=? y)%N && (y <=? 57)%N) eqn:Hy.
  - destruct (IH (v * 10 + (Z.of_N y - 48))%Z (S n)) as (ds & Hl & Hn & Hds). exists (y :: ds). split_and!.
    + cbn. by rewrite <- Hl.
    + rewrite Hn. cbn. lia.
    + constructor; [|done]. intros ->. done.
  - exists []. cbn. split_and!; [done | lia | constructor].
Qed.

Lemma take_sign_comment l : no_comment true (take_sign l).2 = true → no_comment false l = true.
Proof.
  intros H. destruct l as [|y l]; [done|].
  destruct (N.eqb_spec y 43) as [->|H1]; [|destruct (N.eqb_spec y 45) as [->|H2]].
  - cbn in *. destruct l as [|z l]; [done|]. cbn in *. by destruct (z =? 45)%N.
  - exact H.
  - assert ((take_sign (y :: l)).2 = y :: l) as Hs.
    { unfold take_sign. destruct y as [|p]; [done|]. do 6 (destruct p as [p|p|]; try done). }
    rewrite Hs in H. cbn in *. by destruct (y =? 45)%N.
Qed.

Lemma no_comment_lower d l : no_comment d (ascii_lower <$> l) = no_comment d l.
Proof.
  revert d. induction l as [|y l IH]; intros d; [done|]. cbn. rewrite !IH.
  assert ((ascii_lower y =? 45)%N = (y =? 45)%N) as ->; [|done].
  unfold ascii_lower. destruct ((65 <=? y)%N && (y <=? 90)%N) eqn:Hy; [|done].
  apply andb_prop in Hy as [Hy%N.leb_le _]. destruct (N.eqb_spec y 45), (N.eqb_spec (y + 32) 45); lia.
Qed.

Lemma parse_exponent_comment l e : parse_exponent l = Some e → no_comment true l = true.
Proof.
  destruct l as [|y l]; [done|]. cbn [parse_exponent]. destruct ((y =? 101)%N || (y =? 69)%N) eqn:Hy; [|done].
  destruct (take_sign l) as [neg l'] eqn:Hs. destruct (take_digits l' 0 0) as [[e' n] rest] eqn:Hd. intros He.
  cbn. destruct (N.eqb_spec y 45) as [->|_]; [done|]. apply take_sign_comment. rewrite Hs. cbn.
  destruct (take_digits_app l' 0 0) as (ds & Hl & Hn & Hds). rewrite Hd in Hl, Hn. cbn in Hl, Hn.
  destruct n as [|n]; [done|]. destruct rest; [|done]. rewrite Hl, no_comment_app; [done | | done]. by destruct ds.
Qed.

Lemma f64_parse_comment l v : f64_parse l = Some v → f64_is_finite v = true → no_comment false l = true.
Proof.
  unfold f64_parse. destruct (take_sign l) as [neg l1] eqn:Hs. intros Hp Hfin. apply take_sign_comment. rewrite Hs. cbn.
  assert (Hlow : no_comment true l1 = no_comment true (ascii_lower <$> l1)) by (by rewrite no_comment_lower).
  clear Hs. rename l1 into m.
  assert (Hnum : (let '(i, ni, l) := take_digits m 0 0 in
    let '(m, nf, l) := match l with 46%N :: l' => take_digits l' i 0 | _ => (i, 0, l) end in
    match ni + nf with 0 => None | _ => e ← parse_exponent l; Some (f64_of_decimal neg m (e - Z.of_nat nf)) end) = Some v →
    no_comment true m = true).
  { destruct (take_digits_app m 0 0) as (ds & Hm & Hn & Hds).
    destruct (take_digits m 0 0) as [[i ni] r] eqn:Hd. cbn in Hm, Hn. subst ni.
    assert (Hr : ∀ d, (ds = [] → d = true) → (ds ≠ [] → d = false) → no_comment d r = true → no_comment true m = true).
    { intros d H0 H1 Hr. rewrite Hm. destruct ds as [|y ds]; [specialize (H0 eq_refl); by subst d|].
      rewrite no_comment_app by done. specialize (H1 ltac:(done)). by subst d. }
    assert (Hcase : (∃ r', r = 46%N :: r') ∨ (∀ r', r ≠ 46%N :: r')).
    { destruct r as [|z r]; [by right|]. destruct (decide (z = 46%N)) as [->|Hz]; [left; eauto | right; congruence]. }
    destruct Hcase as [[r' ->]|Hdot].
    - destruct (take_digits_app r' i 0) as (ds' & Hm' & Hn' & Hds').
      destruct (take_digits r' i 0) as [[m' nf] rest] eqn:Hd'. cbn in Hm', Hn'. subst nf. intros He.
      assert (no_comment true rest = true).
      { destruct (_ + _); [done|]. destruct (parse_exponent rest) eqn:Hx; [|done]. by eapply parse_exponent_comment. }
      apply (Hr (match ds with [] => true | _ => false end)); [by intros -> | by destruct ds |]. cbn.
      rewrite Hm'. destruct ds' as [|y ds'].
      + cbn. destruct rest as [|z rest]; [done|]. cbn in *. by destruct (z =? 45)%N.
      + rewrite no_comment_app by done. destruct rest as [|z rest]; [done|]. cbn in *. by destruct (z =? 45)%N.
    - assert (match r with 46%N :: l' => take_digits l' i 0 | _ => (i, 0, r) end = (i, 0, r)) as ->.
      { destruct r as [|z r]; [done|]. destruct (decide (z = 46%N)) as [->|Hz]; [by destruct (Hdot r)|].
        destruct z as [|p]; [done|]. do 6 (destruct p as [p|p|]; try done). }
      destruct (decide (ds = [])) as [->|Hne]; [done|]. destruct ds as [|y ds]; [done|]. intros He.
      assert (no_comment true r = true).
      { destruct (parse_exponent r) eqn:Hx; [|done]. by eapply parse_exponent_comment. }
      apply (Hr false); [done | done |]. destruct r as [|z r]; [done|]. cbn in *. by destruct (z =? 45)%N. }
  revert Hp Hlow. generalize (ascii_lower <$> m). intros low Hp Hlow.
  repeat (match type of Hp with match ?z with _ => _ end = _ => is_var z; destruct z end;
          try exact (Hnum Hp); try exact Hlow).
Qed.

Lemma numeric_char_ascii y : is_numeric_char y = true → (y < 128)%N.
Proof.
  unfold is_numeric_char, is_ascii_digit. rewrite !orb_true_iff, !andb_true_iff, !N.leb_le, !N.eqb_eq. lia.
Qed.

Lemma numeric_literal_text s : utf8 s = true → is_numeric_literal s = true → number_text s = true.
Proof.
  intros Hu. unfold is_numeric_literal. destruct (_ || _); [done|].
  destruct (f64_parse (chars s)) as [v|] eqn:Hp; [|done]. intros [[Hfin Hall]%andb_prop _]%andb_prop.
  unfold number_text. rewrite (ascii_bytes s is_numeric_char) by (done || exact numeric_char_ascii).
  rewrite <- (ascii_chars s is_numeric_char) by (done || exact numeric_char_ascii). by eapply f64_parse_comment.
Qed.
