(* ===== verification/SqlTemporal.v ===== *)
(** * Dates and times in SQL literals (data_grid_sql.rs, sqlserver_temporal.rs)

    How the text of a cell is recognised as a date and time, by its bytes, and
    rewritten for MySQL, TDengine, SQL Server and Oracle. A slice off a character
    boundary panics: the functions that slice a text they have not looked at return
    an [option], whose [None] is the panic. chrono is a parameter. *)
From S2P Require Import Prelude RustStr Json F64 SqlText GridTypes.

(** What the program uses of chrono: parsing a date and time by a format, adding
    microseconds, printing to the second, the milliseconds of the second, and the
    offsets of the local time zone in seconds. *)
Class Chrono : Type := {
  NaiveDateTime : Type;
  parse_from_str : string → string → option NaiveDateTime;
  checked_add_microseconds : NaiveDateTime → Z → option NaiveDateTime;
  format_datetime : NaiveDateTime → string → string;
  timestamp_subsec_millis : NaiveDateTime → nat;
  earliest_local_offset : NaiveDateTime → option Z;
  local_offset_now : Z
}.

(** The decimal digits that start a text: each is one byte. *)
Definition leading_digits (s : string) : nat := List.length (span_t is_ascii_digit (chars s)).1.
Definition all_digits (s : string) : bool := bytes_all is_ascii_digit s.
(** [{:02}] of a number that is not negative. *)
Definition pad2 (n : nat) : string := if n <? 10 then ("0" +:+ pretty n)%string else pretty n.
Fixpoint repeat_string (n : nat) (s : string) : string := match n with 0 => "" | S n' => (s +:+ repeat_string n' s)%string end.

(** ** RFC 3339 *)

Record Rfc3339Parts : Type := { date : string; time : string; fraction : option string; zone : string }.

Definition is_timezone_offset (value : string) : bool :=
  (len value =? 6) && (byte_is value 0 "+" || byte_is value 0 "-") && byte_is value 3 ":"
  && digit_at value 1 && digit_at value 2 && digit_at value 4 && digit_at value 5.

Definition rfc3339_tail (date time rest : string) : option Rfc3339Parts :=
  parts ← match strip_prefix rest "." with
          | Some rest =>
              let digit_count := leading_digits rest in
              if (digit_count =? 0) || (9 <? digit_count) then None
              else Some (Some ("." +:+ take_bytes digit_count rest)%string, skip_bytes digit_count rest)
          | None => Some (None, rest)
          end;
  let '(fraction, zone) := parts in
  if String.eqb zone "Z" || String.eqb zone "z" || is_timezone_offset zone
  then Some {| date := date; time := time; fraction := fraction; zone := zone |}
  else None.

Definition regex_like_rfc3339 (text : string) : option (option Rfc3339Parts) :=
  if (len text <? 20) || negb (byte_is text 4 "-") || negb (byte_is text 7 "-") then Some None
  else if negb (byte_is text 10 "T" || byte_is text 10 " ") then Some None
  else if negb (byte_is text 13 ":") || negb (byte_is text 16 ":") then Some None
  else
    date ← slice text 0 10;
    time ← slice text 11 19;
    rest ← slice_from text 19;
    Some (rfc3339_tail date time rest).

(** ** MySQL *)

Definition normalize_mysql_fractional_seconds (fraction : option string) : string :=
  match fraction with
  | Some fraction => if 7 <? len fraction then take_bytes 7 fraction else fraction
  | None => ""
  end.

Definition temporal_column_kind (data_type : option string) : option string :=
  let base := before_any [40; 58; 32]%N (to_ascii_lowercase (trim (default "" data_type))) in
  if String.eqb base "date" then Some "date"
  else if String.eqb base "time" then Some "time"
  else if one_of ["datetime"; "timestamp"] base then Some "datetime"
  else None.
Definition is_temporal_column_type (data_type : string) : bool :=
  bool_decide (is_Some (temporal_column_kind (Some data_type))).

Definition mysql_temporal_text (captures : Rfc3339Parts) (data_type : option string) : string :=
  let kind := temporal_column_kind data_type in
  if bool_decide (kind = Some "date") then date captures
  else if bool_decide (kind = Some "time")
  then (time captures +:+ normalize_mysql_fractional_seconds (fraction captures))%string
  else (date captures +:+ " " +:+ time captures +:+ normalize_mysql_fractional_seconds (fraction captures))%string.

Definition format_mysql_temporal_literal_text (text : string) (data_type : option string) : option string :=
  captures ← regex_like_rfc3339 text;
  Some (match captures with Some captures => mysql_temporal_text captures data_type | None => text end).

(** ** Oracle *)

Inductive OracleTemporalKind : Type := ODate | OTimestamp | OTimestampWithTimeZone.

Definition oracle_temporal_column_kind (data_type : string) : option OracleTemporalKind :=
  let lower := to_ascii_lowercase (trim data_type) in
  let base := before_any [40; 32]%N lower in
  if String.eqb base "date" then Some ODate
  else if String.eqb base "timestamp" then
    if contains lower "with time zone" || contains lower "with local time zone" then Some OTimestampWithTimeZone
    else Some OTimestamp
  else None.

Definition oracle_timestamp_format_mask (has_fraction : bool) : string :=
  if has_fraction then "YYYY-MM-DD HH24:MI:SS.FF" else "YYYY-MM-DD HH24:MI:SS".

Definition oracle_timezone_suffix (zone : string) : string := if eq_ignore_ascii_case zone "z" then "+00:00" else zone.

Definition oracle_temporal_parts_are_midnight (parts : Rfc3339Parts) : bool :=
  String.eqb (time parts) "00:00:00" &&
  match fraction parts with
  | Some fraction => forallb (λ x, (x =? 48)%N) (drop_while (N.eqb 46) (chars fraction))
  | None => true
  end.

Definition regex_like_local_datetime (text : string) : option (option Rfc3339Parts) :=
  if (len text <? 10) || negb (byte_is text 4 "-") || negb (byte_is text 7 "-") then Some None
  else
    date ← slice text 0 10;
    if len text =? 10 then Some (Some {| date := date; time := "00:00:00"; fraction := None; zone := "" |})
    else if negb (byte_is text 10 "T" || byte_is text 10 " ") then Some None
    else if (len text <? 19) || negb (byte_is text 13 ":") || negb (byte_is text 16 ":") then Some None
    else
      time ← slice text 11 19;
      rest ← slice_from text 19;
      Some (match strip_prefix rest "." with
            | Some rest =>
                let digit_count := leading_digits rest in
                if (digit_count =? 0) || (9 <? digit_count) || negb (digit_count =? len rest) then None
                else Some {| date := date; time := time; fraction := Some ("." +:+ take_bytes digit_count rest)%string;
                             zone := "" |}
            | None =>
                if is_empty rest then Some {| date := date; time := time; fraction := None; zone := "" |} else None
            end).

Definition regex_like_oracle_temporal (text : string) : option (option Rfc3339Parts) :=
  parts ← regex_like_rfc3339 text;
  match parts with
  | Some parts => Some (Some parts)
  | None => regex_like_local_datetime text
  end.

Definition oracle_temporal_literal (kind : OracleTemporalKind) (parts : Rfc3339Parts) : string :=
  let fraction' := default "" (fraction parts) in
  let datetime := (date parts +:+ " " +:+ time parts +:+ fraction')%string in
  let mask := oracle_timestamp_format_mask (contains datetime ".") in
  match kind with
  | ODate =>
      if oracle_temporal_parts_are_midnight parts then ("DATE '" +:+ date parts +:+ "'")%string
      else ("TO_DATE('" +:+ date parts +:+ " " +:+ time parts +:+ "', 'YYYY-MM-DD HH24:MI:SS')")%string
  | OTimestamp => ("TO_TIMESTAMP('" +:+ datetime +:+ "', '" +:+ mask +:+ "')")%string
  | OTimestampWithTimeZone =>
      if is_empty (zone parts) then ("TO_TIMESTAMP('" +:+ datetime +:+ "', '" +:+ mask +:+ "')")%string
      else ("TO_TIMESTAMP_TZ('" +:+ datetime +:+ " " +:+ oracle_timezone_suffix (zone parts) +:+ "', '" +:+ mask +:+
            " TZH:TZM')")%string
  end.

Definition format_oracle_temporal_literal (text : string) (data_type : option string) : option (option string) :=
  match data_type ≫= oracle_temporal_column_kind with
  | None => Some None
  | Some kind =>
      parts ← regex_like_oracle_temporal text;
      Some (option_map (oracle_temporal_literal kind) parts)
  end.

(** ** TDengine *)

Definition parse_tdengine_timestamp (text : string) : option (option (string * string * option string)) :=
  if len text <? 19 then Some None
  else if negb (byte_is text 4 "-") || negb (byte_is text 7 "-") || negb (byte_is text 10 " ") then Some None
  else if negb (byte_is text 13 ":") || negb (byte_is text 16 ":") then Some None
  else
    date ← slice text 0 10;
    time ← slice text 11 19;
    rest ← slice_from text 19;
    Some (if is_empty rest then Some (date, time, None)
          else fraction ← strip_prefix rest ".";
               if is_empty fraction || (9 <? len fraction) || negb (all_digits fraction) then None
               else Some (date, time, Some ("." +:+ fraction)%string)).

Definition normalize_fractional_seconds (fraction : option string) : string :=
  match fraction with
  | Some fraction =>
      if 4 <=? len fraction then take_bytes 4 fraction
      else (fraction +:+ repeat_string (4 - List.length (chars fraction)) "0")%string
  | None => ".000"
  end.

Section Clock.
Context `{Chrono}.

Definition local_timezone_offset_suffix (text : string) : string :=
  let naive := parse_from_str (replace_char " " "T" text) "%Y-%m-%dT%H:%M:%S%.f" in
  let offset_minutes := Z.quot (default local_offset_now (naive ≫= earliest_local_offset)) (-60) in
  let sign := if (offset_minutes <=? 0)%Z then "+" else "-" in
  let magnitude := Z.to_nat (Z.abs offset_minutes) in
  (sign +:+ pad2 (magnitude / 60) +:+ ":" +:+ pad2 (magnitude mod 60))%string.

Definition format_tdengine_timestamp_literal_text (text : string) : option string :=
  parsed ← parse_tdengine_timestamp text;
  Some (match parsed with
        | Some (date, time, fraction) =>
            (date +:+ "T" +:+ time +:+ normalize_fractional_seconds fraction +:+ local_timezone_offset_suffix text)%string
        | None => text
        end).
End Clock.

(** ** SQL Server (sqlserver_temporal.rs) *)

Inductive SqlServerTemporalKind : Type :=
| SDate | STime (scale : nat) | SSmallDateTime | SDateTime | SDateTime2 (scale : nat) | SDateTimeOffset (scale : nat).

(** [str::parse::<u8>()]. *)
Definition digits_value (l : list N) : N := fold_left (λ n x, n * 10 + (x - 48))%N l 0%N.
Definition parse_u8 (s : string) : option nat :=
  let l := match chars s with 43%N :: ((_ :: _) as rest) => rest | l => l end in
  match l with
  | [] => None
  | _ => if forallb is_ascii_digit l && (digits_value l <=? 255)%N then Some (N.to_nat (digits_value l)) else None
  end.

Fixpoint find_byte (a : ascii) (s : string) : option nat :=
  match s with
  | EmptyString => None
  | String b s' => if Ascii.eqb b a then Some 0 else S <$> find_byte a s'
  end.

Definition temporal_scale (column_type : string) : option nat :=
  start ← find_byte "(" column_type;
  let rest := skip_bytes (start + 1) column_type in
  close ← find_byte ")" rest;
  scale ← parse_u8 (trim (take_bytes close rest));
  Some (scale `min` 7).

Definition sqlserver_temporal_kind (column_type : string) : option SqlServerTemporalKind :=
  let lower := to_ascii_lowercase (trim column_type) in
  let base := before_any [40; 32; 9; 10]%N lower in
  if one_of ["date"; "daten"] base then Some SDate
  else if String.eqb base "smalldatetime" then Some SSmallDateTime
  else if one_of ["datetime"; "datetimen"] base then Some SDateTime
  else if String.eqb base "datetime4" then Some SSmallDateTime
  else if String.eqb base "datetime2" then Some (SDateTime2 (default 7 (temporal_scale lower)))
  else if one_of ["time"; "timen"] base then Some (STime (default 7 (temporal_scale lower)))
  else if one_of ["datetimeoffset"; "datetimeoffsetn"] base then Some (SDateTimeOffset (default 7 (temporal_scale lower)))
  else None.

Record SqlServerTemporalParts : Type := { s_date : string; s_time : string; s_offset : option string }.

Definition is_date_prefix (bytes : string) : bool :=
  (10 <=? len bytes) && byte_is bytes 4 "-" && byte_is bytes 7 "-"
  && forallb (digit_at bytes) [0; 1; 2; 3] && forallb (digit_at bytes) [5; 6] && forallb (digit_at bytes) [8; 9].

(** The slices are behind bytes that were seen to be ASCII. *)
Definition split_time_and_offset (value : string) : option (string * option string) :=
  if len value <? 8 then None
  else if negb (byte_is value 2 ":") || negb (byte_is value 5 ":") then None
  else if negb (forallb (digit_at value) [0; 1]) || negb (forallb (digit_at value) [3; 4])
          || negb (forallb (digit_at value) [6; 7]) then None
  else
    end_ ← (if byte_is value 8 "." then
              let digits := leading_digits (skip_bytes 9 value) in
              if digits =? 0 then None else Some (9 + digits)
            else Some 8);
    let time := take_bytes end_ value in
    let suffix := trim (skip_bytes end_ value) in
    if is_empty suffix then Some (time, None)
    else if eq_ignore_ascii_case suffix "z" then Some (time, Some "+00:00")
    else if is_timezone_offset suffix then Some (time, Some suffix)
    else None.

Definition parse_sqlserver_temporal (value : string) : option SqlServerTemporalParts :=
  let trimmed := trim value in
  if (10 <=? len trimmed) && is_date_prefix trimmed then
    let date := take_bytes 10 trimmed in
    let rest := trim_start (skip_bytes 10 trimmed) in
    let rest := if starts_with rest "T" || starts_with rest "t" then trim_start (skip_bytes 1 rest) else rest in
    if is_empty rest then Some {| s_date := date; s_time := "00:00:00"; s_offset := None |}
    else
      '(time, offset) ← split_time_and_offset rest;
      Some {| s_date := date; s_time := time; s_offset := offset |}
  else
    '(time, offset) ← split_time_and_offset trimmed;
    Some {| s_date := "1900-01-01"; s_time := time; s_offset := offset |}.

Definition split_once (a : ascii) (s : string) : option (string * string) :=
  i ← find_byte a s; Some (take_bytes i s, skip_bytes (i + 1) s).

Definition format_sqlserver_time_text (value : string) (scale : nat) : string :=
  let '(base, fraction) := default (value, "") (split_once "." value) in
  if scale =? 0 then base
  else
    let digits := take scale (span_t is_ascii_digit (chars fraction)).1 in
    let digits := digits ++ replicate (scale - List.length digits) 48%N in
    if forallb (λ x, (x =? 48)%N) digits then base else (base +:+ "." +:+ from_chars digits)%string.

Section SqlServer.
Context `{Chrono}.

(** [{millis:03}]. *)
Definition pad3 (n : nat) : string :=
  if n <? 10 then ("00" +:+ pretty n)%string else if n <? 100 then ("0" +:+ pretty n)%string else pretty n.

Definition format_sqlserver_datetime_display (value : NaiveDateTime) : string :=
  let rounded := default value (checked_add_microseconds value 500) in
  let base := format_datetime rounded "%Y-%m-%d %H:%M:%S" in
  let millis := timestamp_subsec_millis rounded in
  if millis =? 0 then base else (base +:+ "." +:+ pad3 millis)%string.

Definition format_sqlserver_datetime_parts (date time : string) : string :=
  let value := (date +:+ " " +:+ time)%string in
  match parse_from_str value "%Y-%m-%d %H:%M:%S%.f" with
  | Some value => format_sqlserver_datetime_display value
  | None => (date +:+ " " +:+ format_sqlserver_time_text time 3)%string
  end.

Definition normalize_sqlserver_temporal_literal (value : string) (column_type : option string) : option string :=
  kind ← column_type ≫= sqlserver_temporal_kind;
  parts ← parse_sqlserver_temporal value;
  match kind with
  | SDate => Some (s_date parts)
  | STime scale => Some (format_sqlserver_time_text (s_time parts) scale)
  | SSmallDateTime => Some (s_date parts +:+ " " +:+ format_sqlserver_time_text (s_time parts) 0)%string
  | SDateTime => Some (format_sqlserver_datetime_parts (s_date parts) (s_time parts))
  | SDateTime2 scale => Some (s_date parts +:+ " " +:+ format_sqlserver_time_text (s_time parts) scale)%string
  | SDateTimeOffset scale =>
      offset ← s_offset parts;
      Some (s_date parts +:+ " " +:+ format_sqlserver_time_text (s_time parts) scale +:+ offset)%string
  end.
End SqlServer.

Example parse_u8_sign : parse_u8 "+7" = Some 7 ∧ parse_u8 "+" = None ∧ parse_u8 "256" = None.
Proof. vm_compute. done. Qed.

(** A clock that knows no dates, for texts that hold none. *)
Definition no_clock : Chrono :=
  {| NaiveDateTime := unit; parse_from_str _ _ := None; checked_add_microseconds _ _ := None; format_datetime _ _ := "";
     timestamp_subsec_millis _ := 0; earliest_local_offset _ := None; local_offset_now := 0%Z |}.

(** Only the separators of a date are looked at: the digits may be anything. *)
Example unchecked_oracle_date :
  format_oracle_temporal_literal "1'||-01-02" (Some "DATE") = Some (Some "DATE '1'||-01-02'").
Proof. vm_compute. reflexivity. Qed.

(** A text whose tenth byte is inside a character stops the save. *)
Example slice_panics :
  regex_like_local_datetime (from_chars [50; 48; 50; 52; 45; 48; 49; 45; 49; 233]%N) = None ∧
  parse_tdengine_timestamp (from_chars ([50; 48; 50; 52; 45; 48; 49; 45; 48; 49; 32; 49; 50; 58; 48; 48; 58; 48]%N ++ [233]%N)) = None.
Proof. vm_compute. done. Qed.
