(* ===== verification/GridLiteral.v ===== *)
(** * Cells as SQL literals (data_grid_sql.rs, transfer.rs)

    How the grid writes a cell in a statement, for every kind of database and
    column: numbers, truth values, bits, bytes, geometries, arrays, dates and
    quoted texts. [None] is a panic. serde_json's printer and parser, its parser of
    numbers and chrono are parameters. *)
From S2P Require Import Prelude RustStr Json F64 SqlText AgentContext GridTypes SqlScan SqlTemporal.

(** [text.parse::<serde_json::Number>().ok()]: the number keeps a token. *)
Class JsonNumbers : Type := { parse_number : string → option string }.

Definition quote_c : ascii := "'".
Definition backslash_c : ascii := "\".
Definition backslash : string := "\".
Definition quote : string := "'".
Definition lbrace : string := "{".
Definition rbrace : string := "}".

(** [replace('\\', "\\\\")] and [replace('\'', "''")]. *)
Definition double_backslashes (s : string) : string := replace_char backslash_c "\\" s.
Definition double_quotes (s : string) : string := replace_char quote_c "''" s.

(** ** Arrays (transfer.rs) *)

Section Printer.
Context `{JsonPrinter}.

(** [serde_json::to_string(o).unwrap_or_default()]. *)
Definition object_text (fields : list (string * Value)) : string := default "" (result_ok (to_json (Object fields))).

Definition pg_element_text (s : string) : string :=
  (dquote +:+ replace_char (ascii_of_nat 34) (backslash +:+ dquote) (double_backslashes s) +:+ dquote)%string.

Fixpoint format_pg_array_element (val : Value) : string :=
  match val with
  | Null => "NULL"
  | Array arr =>
      match arr with
      | [] => (lbrace +:+ rbrace)%string
      | _ => (lbrace +:+ join "," (List.map format_pg_array_element arr) +:+ rbrace)%string
      end
  | VString s => pg_element_text s
  | Number n => n
  | Bool b => if b then "true" else "false"
  | Object o => pg_element_text (object_text o)
  end.

Definition format_pg_array_sql_literal (arr : list Value) : string :=
  match arr with
  | [] => "'{}'"
  | _ =>
      let inner := (lbrace +:+ join "," (List.map format_pg_array_element arr) +:+ rbrace)%string in
      (quote +:+ double_quotes (double_backslashes inner) +:+ quote)%string
  end.

Fixpoint format_ch_array_element (val : Value) : string :=
  match val with
  | Null => "NULL"
  | Array arr =>
      match arr with
      | [] => "[]"
      | _ => ("[" +:+ join "," (List.map format_ch_array_element arr) +:+ "]")%string
      end
  | VString s => (quote +:+ double_quotes (double_backslashes s) +:+ quote)%string
  | Number n => n
  | Bool b => if b then "true" else "false"
  | Object o => (quote +:+ double_quotes (double_backslashes (object_text o)) +:+ quote)%string
  end.

Definition format_ch_array_sql_literal (arr : list Value) : string :=
  match arr with
  | [] => "[]"
  | _ => ("[" +:+ join "," (List.map format_ch_array_element arr) +:+ "]")%string
  end.

Definition postgres_json_array_element_type (database_type : option DatabaseType)
    (column_info : option DataGridColumnInfo) : option string :=
  if bool_decide (database_type ≠ Some Postgres) then None
  else
    column ← column_info;
    let data_type := to_ascii_lowercase (trim (data_type column)) in
    if one_of ["json[]"; "_json"] data_type then Some "json"
    else if one_of ["jsonb[]"; "_jsonb"] data_type then Some "jsonb"
    else None.

Definition postgres_json_element (element_type : string) (value : Value) : string :=
  match value with
  | Null => "NULL"
  | _ =>
      let json :=
        match value with
        | VString text =>
            match parse_json text with Some value => value_to_string value | None => value_to_string (VString text) end
        | _ => value_to_string value
        end in
      ("E'" +:+ double_quotes (double_backslashes json) +:+ "'::" +:+ element_type)%string
  end.
Definition format_postgres_json_array_sql_literal (arr : list Value) (element_type : string) : string :=
  match arr with
  | [] => ("ARRAY[]::" +:+ element_type +:+ "[]")%string
  | _ => ("ARRAY[" +:+ join ", " (postgres_json_element element_type <$> arr) +:+ "]")%string
  end.

(** ** Texts for typed columns *)

Definition format_mysql_binary_literal_text (text : string) : option string :=
  let trimmed := trim text in
  hex ← strip_prefix trimmed "0x";
  if bytes_all hexdigit hex then Some (if is_empty hex then "X''" else trimmed) else None.

Definition format_oracle_raw_literal_text (text : string) : option string :=
  hex ← strip_prefix text "0x";
  if (len hex mod 2 =? 0) && bytes_all hexdigit hex then Some ("HEXTORAW('" +:+ hex +:+ "')")%string
  else None.

Definition is_bit (x : N) : bool := (x =? 48)%N || (x =? 49)%N.
(** The outer [None] is the panic of the slice. *)
Definition format_mysql_bit_literal_text (text : string) : option (option string) :=
  let trimmed := trim text in
  if eq_ignore_ascii_case trimmed "true" then Some (Some "1")
  else if eq_ignore_ascii_case trimmed "false" then Some (Some "0")
  else if all_digits trimmed && negb (is_empty trimmed) then
    Some (Some (if len trimmed =? 1 then trimmed
                else if bytes_all is_bit trimmed then ("b'" +:+ trimmed +:+ "'")%string
                else trimmed))
  else
    let lower := to_ascii_lowercase trimmed in
    if starts_with lower "b'" && ends_with trimmed "'" then
      bits ← slice trimmed 2 (len trimmed - 1);
      Some (if negb (is_empty bits) && bytes_all is_bit bits then Some ("b'" +:+ bits +:+ "'")%string else None)
    else Some None.

Section Numbers.
Context `{JsonNumbers}.

Definition manticore_typed_attribute_value (text : string) (column_info : option DataGridColumnInfo) : option Value :=
  column ← column_info;
  let data_type := to_ascii_lowercase (data_type column) in
  if is_boolean_type data_type None && eq_ignore_ascii_case text "true" then Some (Bool true)
  else if is_boolean_type data_type None && eq_ignore_ascii_case text "false" then Some (Bool false)
  else if is_numeric_type data_type && is_numeric_literal text then Number <$> parse_number text
  else None.
End Numbers.

(** ** Quoted texts *)

Definition national_literal (segment : string) : string := ("N'" +:+ double_quotes segment +:+ "'")%string.
Definition flush_segment (segment : string) : list string := if is_empty segment then [] else [national_literal segment].
(** A line break is one byte and ends the segment before it. *)
Fixpoint unicode_literal_parts (text segment : string) : list string :=
  match text with
  | EmptyString => flush_segment segment
  | String a text' =>
      if Ascii.eqb a "013" then flush_segment segment ++ "NCHAR(13)" :: unicode_literal_parts text' ""
      else if Ascii.eqb a "010" then flush_segment segment ++ "NCHAR(10)" :: unicode_literal_parts text' ""
      else unicode_literal_parts text' (segment +:+ String a "")
  end.
Definition format_sqlserver_unicode_literal (text : string) : string :=
  match unicode_literal_parts text "" with [] => "N''" | parts => join " + " parts end.

Section Literals.
Context `{Chrono, JsonNumbers}.

(** The text that is quoted: dates rewritten for the database. *)
Definition grid_literal_text (text : string) (database_type : option DatabaseType)
    (column_info : option DataGridColumnInfo) : option string :=
  if bool_decide (database_type = Some Tdengine) then format_tdengine_timestamp_literal_text text
  else if bool_decide (database_type = Some SqlServer)
  then Some (default text (normalize_sqlserver_temporal_literal text (data_type <$> column_info)))
  else if is_mysql_datetime_literal_database database_type
          && match column_info with Some column => is_temporal_column_type (data_type column) | None => true end
  then format_mysql_temporal_literal_text text (data_type <$> column_info)
  else Some text.

Definition quote_literal_text (literal_text : string) (database_type : option DatabaseType) : string :=
  if bool_decide (database_type = Some Postgres) && contains literal_text backslash
  then ("E'" +:+ double_quotes (double_backslashes literal_text) +:+ "'")%string
  else if bool_decide (database_type = Some SqlServer) then format_sqlserver_unicode_literal literal_text
  else
    let escaped_text :=
      if bool_decide (database_type = Some Neo4j) then replace_char quote_c (backslash +:+ quote) (double_backslashes literal_text)
      else if is_sqlite_literal_database database_type then double_quotes literal_text
      else double_quotes (double_backslashes literal_text) in
    (quote +:+ escaped_text +:+ quote)%string.

Definition format_bool_literal (value : bool) (database_type : option DatabaseType)
    (column_info : option DataGridColumnInfo) : string :=
  if is_bit_literal_column database_type column_info || bool_decide (database_type = Some SqlServer)
  then if value then "1" else "0"
  else if value then "TRUE" else "FALSE".

(** The literal of a text, from the branch for binary columns on. A typed
    Manticore value is a truth value or a number. *)
Definition format_text_literal (text : string) (database_type : option DatabaseType)
    (column_info : option DataGridColumnInfo) : option string :=
  match (if is_mysql_binary_literal_column database_type column_info then format_mysql_binary_literal_text text else None) with
  | Some literal => Some literal
  | None =>
  match (if is_oracle_raw_literal_column database_type column_info then format_oracle_raw_literal_text text else None) with
  | Some literal => Some literal
  | None =>
  if match column_info with Some column => is_numeric_type (data_type column) | None => false end && is_numeric_literal text
  then Some text
  else
  match (if bool_decide (database_type = Some ManticoreSearch) then manticore_typed_attribute_value text column_info else None) with
  | Some (Bool value) => Some (format_bool_literal value database_type column_info)
  | Some (Number token) => Some token
  | _ =>
  if is_empty text then Some (if bool_decide (database_type = Some SqlServer) then "N''" else "''")
  else if is_mysql_geometry_literal_database database_type
          && match column_info with Some column => is_geometry_column_type (data_type column) | None => false end
  then Some ("ST_GeomFromText('" +:+ double_quotes (double_backslashes text) +:+ "')")%string
  else
    temporal ← (if is_oracle_temporal_literal_database database_type
                then format_oracle_temporal_literal text (data_type <$> column_info) else Some None);
    match temporal with
    | Some literal => Some literal
    | None =>
        literal_text ← grid_literal_text text database_type column_info;
        Some (quote_literal_text literal_text database_type)
    end
  end end end.

Definition format_grid_sql_literal (value : Value) (database_type : option DatabaseType)
    (column_info : option DataGridColumnInfo) : option string :=
  match value with
  | Null => Some "NULL"
  | Bool value => Some (format_bool_literal value database_type column_info)
  | Number token => Some token
  | Array arr =>
      Some (match postgres_json_array_element_type database_type column_info with
            | Some element_type => format_postgres_json_array_sql_literal arr element_type
            | None =>
                match database_type with
                | Some (ClickHouse | Databend) => format_ch_array_sql_literal arr
                | _ => format_pg_array_sql_literal arr
                end
            end)
  | VString text =>
      bit ← (if is_mysql_bit_literal_column database_type column_info then format_mysql_bit_literal_text text else Some None);
      match bit with
      | Some literal => Some literal
      | None => format_text_literal text database_type column_info
      end
  | Object fields => format_text_literal (value_to_string value) database_type column_info
  end.

(** ** Saving a cell *)

Definition empty_string_saves_as_null (value : Value) (column_info : option DataGridColumnInfo) : bool :=
  bool_decide (as_str value = Some "") &&
  match column_info with
  | Some column => is_nullable column && negb (is_textual_column_type (data_type column))
  | None => false
  end.

Definition format_grid_save_sql_literal (value : Value) (database_type : option DatabaseType)
    (column_info : option DataGridColumnInfo) : option string :=
  if empty_string_saves_as_null value column_info then Some "NULL"
  else format_grid_sql_literal value database_type column_info.

Definition mysql_json_predicate_literal (literal : string) (database_type : option DatabaseType)
    (column_info : option DataGridColumnInfo) : string :=
  if bool_decide (database_type = Some Mysql)
     && match column_info with Some column => eq_ignore_ascii_case (trim (data_type column)) "json" | None => false end
  then ("CAST(" +:+ literal +:+ " AS JSON)")%string
  else literal.

Definition is_json_column (column_info : option DataGridColumnInfo) : bool :=
  match column_info with
  | Some column =>
      let dt := trim (data_type column) in eq_ignore_ascii_case dt "json" || eq_ignore_ascii_case dt "jsonb"
  | None => false
  end.

Definition format_grid_copy_insert_sql_literal (value : Value) (database_type : option DatabaseType)
    (column_info : option DataGridColumnInfo) : option string :=
  temporal ← match as_str value with
             | Some text =>
                 if is_oracle_temporal_literal_database database_type
                 then format_oracle_temporal_literal text (data_type <$> column_info) else Some None
             | None => Some None
             end;
  match temporal, value with
  | Some literal, _ => Some literal
  | None, (Array _ | Object _) =>
      if is_json_column column_info then
        let json_text := value_to_string value in
        string_literal ← format_grid_sql_literal (VString json_text) database_type column_info;
        Some (mysql_json_predicate_literal string_literal database_type column_info)
      else format_grid_sql_literal value database_type column_info
  | None, _ => format_grid_sql_literal value database_type column_info
  end.
End Literals.
End Printer.

(** ** Every literal is closed *)

(** How a database reads what the grid writes for it: SQLite's family and SQL Server
    take a backslash as it is, Neo4j escapes with it, and for the others it may be
    either. Brackets quote names in SQL Server only. *)
Definition reads_grid (database_type : option DatabaseType) (x : Lexer) : Prop :=
  match database_type with
  | Some (Sqlite | Rqlite | Turso | CloudflareD1 | SqlServer) => backslash_escapes x = false
  | Some Neo4j => backslash_escapes x = true
  | _ => True
  end ∧
  match database_type with
  | Some SqlServer => (opening x, closing x) = ("["%char, "]"%char)
  | _ => (opening x, closing x) = ("`"%char, "`"%char) ∨ (opening x, closing x) = (ascii_of_nat 34, ascii_of_nat 34)
  end.

Definition backtick_lexer : Lexer := {| backslash_escapes := false; opening := "`"; closing := "`" |}.
Definition dquote_lexer : Lexer := {| backslash_escapes := false; opening := ascii_of_nat 34; closing := ascii_of_nat 34 |}.
Definition bracket_lexer : Lexer := {| backslash_escapes := false; opening := "["; closing := "]" |}.

Lemma reads_grid_cases d x (P : Lexer → Prop) :
  reads_grid d x → (∀ y, opening y = opening x → closing y = closing x → P y → P x) →
  (d = Some SqlServer → P bracket_lexer) → (d ≠ Some SqlServer → P backtick_lexer ∧ P dquote_lexer) → P x.
Proof.
  intros [_ Hq] HP Hb Hr.
  assert (d = Some SqlServer ∧ (opening x, closing x) = ("["%char, "]"%char) ∨ d ≠ Some SqlServer ∧
    ((opening x, closing x) = ("`"%char, "`"%char) ∨ (opening x, closing x) = (ascii_of_nat 34, ascii_of_nat 34))) as Hc
    by (destruct d as [[]|]; auto).
  destruct Hc as [[-> [= Ho Hc]]|[Hd [[= Ho Hc]|[= Ho Hc]]]].
  - apply (HP bracket_lexer); auto.
  - apply (HP backtick_lexer); [done | done |]. by apply Hr.
  - apply (HP dquote_lexer); [done | done |]. by apply Hr.
Qed.

(** What stands between pieces, for every database, and where no bracket quotes a name. *)
Definition gap_all (g : string) : bool := gap_ok backtick_lexer g && gap_ok dquote_lexer g && gap_ok bracket_lexer g.
Definition gap_most (g : string) : bool := gap_ok backtick_lexer g && gap_ok dquote_lexer g.

Lemma gap_ok_names g x y : opening y = opening x → closing y = closing x → gap_ok y g = true → gap_ok x g = true.
Proof. unfold gap_ok, plain_byte. by intros -> ->. Qed.

Lemma gap_of d x g : reads_grid d x → gap_all g = true → gap x g.
Proof.
  intros Hx [[H1 H2]%andb_prop H3]%andb_prop. apply gap_intro. apply (reads_grid_cases d x (λ x, gap_ok x g = true) Hx); auto.
  intros y. apply gap_ok_names.
Qed.
Lemma gap_of_most d x g : reads_grid d x → d ≠ Some SqlServer → gap_most g = true → gap x g.
Proof.
  intros Hx Hd [H1 H2]%andb_prop. apply gap_intro. apply (reads_grid_cases d x (λ x, gap_ok x g = true) Hx); [|done|auto].
  intros y. apply gap_ok_names.
Qed.

(** What stands first and last in a statement. *)
Definition lead_all (g : string) : bool := lead_ok backtick_lexer g && lead_ok dquote_lexer g && lead_ok bracket_lexer g.
Definition tail_all (g : string) : bool := tail_ok backtick_lexer g && tail_ok dquote_lexer g && tail_ok bracket_lexer g.

Lemma lead_of d x g w : reads_grid d x → lead_all g = true → piece x w → piece x (g +:+ w).
Proof.
  intros Hx [[H1 H2]%andb_prop H3]%andb_prop. apply lead_piece. apply (reads_grid_cases d x (λ x, lead_ok x g = true) Hx); auto.
  intros y. unfold lead_ok, plain_byte. by intros ->.
Qed.
Lemma tail_of d x w g : reads_grid d x → piece x w → tail_all g = true → piece x (w +:+ g).
Proof.
  intros Hx Hw [[H1 H2]%andb_prop H3]%andb_prop. apply piece_tail; [done|].
  apply (reads_grid_cases d x (λ x, tail_ok x g = true) Hx); auto.
  intros y. unfold tail_ok, plain_byte. by intros -> ->.
Qed.
Lemma between d x w g w' : reads_grid d x → piece x w → gap_all g = true → piece x w' → piece x (w +:+ g +:+ w').
Proof. intros Hx Hw Hg Hw'. apply piece_gap_piece; [done | by eapply gap_of | done]. Qed.

(** The numbers of a cell are numbers and its texts are UTF-8. *)
Section Cells.
Context `{JsonPrinter}.
Fixpoint cell_ok (v : Value) : bool :=
  match v with
  | Number token => number_text token
  | VString s => utf8 s
  | Array l => forallb cell_ok l
  | Object _ => utf8 (value_to_string v)
  | _ => true
  end.

Definition cell_text (v : Value) : option string :=
  match v with VString s => Some s | Object _ => Some (value_to_string v) | _ => None end.

(** The cell is written as an Oracle date or timestamp when it looks like one. *)
Definition writes_temporal (d : option DatabaseType) (ci : option DataGridColumnInfo) : bool :=
  is_oracle_temporal_literal_database d
  && match (data_type <$> ci) ≫= oracle_temporal_column_kind with Some _ => true | None => false end.
Definition temporal_plain (d : option DatabaseType) (ci : option DataGridColumnInfo) (v : Value) : bool :=
  negb (writes_temporal d ci) || match cell_text v with Some text => plain_text text | None => true end.

(** serde_json keeps the text of a number. *)
Definition numbers_ok `{JsonNumbers} : Prop := ∀ t token, parse_number t = Some token → number_text token = true.

Lemma reads_not_number d x : reads_grid d x → is_numeric_char (N_of_ascii (opening x)) = false.
Proof.
  intros Hx. apply (reads_grid_cases d x (λ x, is_numeric_char (N_of_ascii (opening x)) = false) Hx); [|done..].
  by intros y ->.
Qed.
Lemma reads_not_quote d x : reads_grid d x → opening x ≠ quote_byte.
Proof.
  intros Hx. apply (reads_grid_cases d x (λ x, opening x ≠ quote_byte) Hx); [|done..]. by intros y ->.
Qed.
Lemma reads_not_word d x : reads_grid d x → word_byte (opening x) = false.
Proof.
  intros Hx. apply (reads_grid_cases d x (λ x, word_byte (opening x) = false) Hx); [|done..]. by intros y ->.
Qed.
End Cells.

Section Closed.
Context `{JsonPrinter, Chrono, JsonNumbers}.
Variables (d : option DatabaseType) (x : Lexer).
Hypothesis Hx : reads_grid d x.

Lemma plain_word w : forallb word_byte (bytes_of w) = true → piece x w.
Proof.
  intros Hw. apply piece_plain. rewrite forallb_forall in *. intros a Ha. specialize (Hw a Ha).
  unfold plain_byte. rewrite Hw. cbn. rewrite andb_true_r.
  destruct (Ascii.eqb_spec a (opening x)) as [->|_]; [|done]. by rewrite (reads_not_word d x Hx) in Hw.
Qed.

Lemma piece_numeric w : number_text w = true → piece x w.
Proof. intros [Hw Hn]%andb_prop. apply piece_number; [by eapply reads_not_number | done | done]. Qed.

Lemma bool_literal_piece b ci : piece x (format_bool_literal b d ci).
Proof. unfold format_bool_literal. destruct (_ || _), b; by apply plain_word. Qed.

Lemma both_doubled_piece s : piece x (quote +:+ double_quotes (double_backslashes s) +:+ quote).
Proof. apply piece_literal, inside_both_doubled. Qed.

Lemma pg_array_piece arr : piece x (format_pg_array_sql_literal arr).
Proof. destruct arr; [|apply both_doubled_piece]. apply (piece_literal _ (lbrace +:+ rbrace)). by destruct (backslash_escapes x). Qed.

Hint Resolve piece_numeric bool_literal_piece both_doubled_piece : pieces.

Lemma bracketed_piece w : d ≠ Some SqlServer → piece x w → piece x ("[" +:+ w +:+ "]").
Proof.
  intros Hd Hw. apply gap_piece; [by eapply gap_of_most | apply piece_gap; [done | by eapply gap_of_most]].
Qed.

Lemma ch_element_piece v : d ≠ Some SqlServer → cell_ok v = true → piece x (format_ch_array_element v).
Proof.
  intros Hd. induction v as [|b|t|s|l IH|m IH] using value_ind'; intros Hv; cbn [format_ch_array_element].
  - by apply plain_word.
  - destruct b; by apply plain_word.
  - by apply piece_numeric.
  - apply both_doubled_piece.
  - assert (Forall (piece x) (List.map format_ch_array_element l)) as Hl.
    { cbn in Hv. induction IH as [|v l Hp _ IH]; [constructor|]. cbn in Hv. apply andb_prop in Hv as [Hv Hvl].
      constructor; auto. }
    assert (piece x (join "," (List.map format_ch_array_element l))) as Hj.
    { apply piece_join; [by eapply gap_of | done]. }
    destruct l; exact (bracketed_piece _ Hd Hj).
  - apply both_doubled_piece.
Qed.

Lemma ch_array_piece arr : d ≠ Some SqlServer → forallb cell_ok arr = true → piece x (format_ch_array_sql_literal arr).
Proof. intros Hd Ha. by apply (ch_element_piece (Array arr)). Qed.

(** A literal that says that backslashes escape. *)
Lemma escape_literal_piece s : piece x ("E'" +:+ double_quotes (double_backslashes s) +:+ "'").
Proof.
  unfold piece.
  change ("E'" +:+ double_quotes (double_backslashes s) +:+ "'")%string
    with (String "E" ("'" +:+ double_quotes (double_backslashes s) +:+ "'"))%string.
  rewrite scan_word by (done || by eapply reads_not_word). change (Ascii.eqb "E" "E") with true. cbv beta iota.
  rewrite (scan_literal x Escape) by apply inside_both_doubled. by eexists.
Qed.

Lemma json_array_piece arr element_type :
  d ≠ Some SqlServer → forallb word_byte (bytes_of element_type) = true →
  piece x (format_postgres_json_array_sql_literal arr element_type).
Proof.
  intros Hd Ht. destruct arr as [|v arr]; cbn [format_postgres_json_array_sql_literal].
  - change ("ARRAY[]::" +:+ element_type +:+ "[]")%string with ("ARRAY" +:+ ("[]::" +:+ element_type +:+ "[]"))%string.
    apply piece_gap; [by apply plain_word|]. apply gap_piece_gap; [by eapply gap_of_most | by apply plain_word | by eapply gap_of_most].
  - match goal with |- context [join ", " ?l] => assert (Hl : Forall (piece x) l) end.
    { apply Forall_forall. intros w (v' & -> & _)%list_elem_of_fmap. unfold postgres_json_element.
      destruct v'; [by apply plain_word|..];
      match goal with |- piece x ("E'" +:+ ?t +:+ "'::" +:+ ?e) =>
        replace ("E'" +:+ t +:+ "'::" +:+ e)%string with (("E'" +:+ t +:+ "'") +:+ "::" +:+ e)%string
          by (by rewrite <- !string_app_assoc) end;
      (apply piece_gap_piece; [apply escape_literal_piece | by eapply gap_of | by apply plain_word]). }
    change ("ARRAY[" +:+ ?w)%string with ("ARRAY" +:+ ("[" +:+ w))%string.
    apply piece_gap_piece; [by apply plain_word | by eapply gap_of_most |].
    apply piece_gap; [|by eapply gap_of_most]. apply piece_join; [by eapply gap_of | done].
Qed.

(** ** Texts *)

Lemma national_literal_piece s : backslash_escapes x = false → piece x (national_literal s).
Proof.
  intros Hb. exists (AfterText false). split; [|done]. unfold national_literal.
  change ("N'" +:+ double_quotes s +:+ "'")%string with (String "N" ("'" +:+ double_quotes s +:+ "'"))%string.
  rewrite scan_word by (done || by eapply reads_not_word). change (Ascii.eqb "N" "E") with false. cbv beta iota.
  rewrite (scan_literal x Word); rewrite Hb; [done|]. apply inside_quotes_doubled. by left.
Qed.

Lemma national_parts_pieces text segment :
  backslash_escapes x = false → Forall (piece x) (unicode_literal_parts text segment).
Proof.
  intros Hb.
  assert (Hf : ∀ s, Forall (piece x) (flush_segment s)).
  { intros s. unfold flush_segment. destruct (is_empty s); [constructor|]. constructor; [|constructor].
    by apply national_literal_piece. }
  revert segment. induction text as [|a text IH]; intros segment; cbn [unicode_literal_parts]; [done|].
  assert (Hn : piece x "NCHAR(13)" ∧ piece x "NCHAR(10)").
  { split.
    - change "NCHAR(13)"%string with ("NCHAR" +:+ "(" +:+ "13" +:+ ")")%string.
      apply piece_gap_piece; [by apply plain_word | by eapply gap_of |]. apply piece_gap; [by apply plain_word | by eapply gap_of].
    - change "NCHAR(10)"%string with ("NCHAR" +:+ "(" +:+ "10" +:+ ")")%string.
      apply piece_gap_piece; [by apply plain_word | by eapply gap_of |]. apply piece_gap; [by apply plain_word | by eapply gap_of]. }
  destruct (Ascii.eqb a "013"); [|destruct (Ascii.eqb a "010")]; [apply Forall_app; split; [done | constructor; [tauto | done]]..|done].
Qed.

Lemma quoted_text_piece text : piece x (quote_literal_text text d).
Proof.
  unfold quote_literal_text. destruct (bool_decide (d = Some Postgres) && contains text backslash); [apply escape_literal_piece|].
  destruct (bool_decide (d = Some SqlServer)) eqn:Hs.
  - apply bool_decide_eq_true in Hs. unfold format_sqlserver_unicode_literal.
    assert (Hb : backslash_escapes x = false) by (destruct Hx as [Hx' _]; by rewrite Hs in Hx').
    pose proof (national_parts_pieces text "" Hb) as Hp. destruct (unicode_literal_parts text "") as [|p ps].
    + by apply (national_literal_piece "").
    + apply piece_join; [by eapply gap_of | exact Hp].
  - destruct (bool_decide (d = Some Neo4j)) eqn:Hn.
    { apply bool_decide_eq_true in Hn. apply piece_literal. destruct Hx as [Hx' _]. rewrite Hn in Hx'. rewrite Hx'.
      apply inside_escaped. }
    destruct (is_sqlite_literal_database d) eqn:Hq; [|apply both_doubled_piece].
    apply piece_literal, inside_quotes_doubled. left. destruct Hx as [Hx' _]. by destruct d as [[]|].
Qed.

Lemma word_gap_piece w g w' : forallb word_byte (bytes_of w) = true → gap_all g = true → piece x w' → piece x (w +:+ g +:+ w').
Proof. intros Hw Hg Hw'. apply piece_gap_piece; [by apply plain_word | by eapply gap_of | done]. Qed.

(** [f('text')]. *)
Lemma call_piece f arg : forallb word_byte (bytes_of f) = true → piece x arg → piece x (f +:+ "(" +:+ arg +:+ ")").
Proof. intros Hf Ha. apply word_gap_piece; [done | done |]. apply piece_gap; [done | by eapply gap_of]. Qed.

Lemma plain_literal_piece s : plain_text s = true → piece x (quote +:+ s +:+ quote).
Proof. intros Hs. by apply piece_literal, inside_plain. Qed.

(** A word and a literal: [b'..'], [X'..']. *)
Lemma tagged_piece a s :
  word_byte a = true → a ≠ "E"%char → plain_text s = true → piece x (String a (quote +:+ s +:+ quote)).
Proof.
  intros Ha He Hs. exists (AfterText (backslash_escapes x)). split; [|done].
  rewrite scan_word by (done || by eapply reads_not_word). destruct (Ascii.eqb_spec a "E"); [done|].
  pose proof (scan_literal x Word s (inside_plain x _ _ Hs)) as Hl. by rewrite orb_false_r in Hl.
Qed.

Lemma call_text_piece f s :
  forallb word_byte (bytes_of f) = true → inside x (backslash_escapes x) s → piece x (f +:+ "('" +:+ s +:+ "')").
Proof.
  intros Hf Hs. replace (f +:+ "('" +:+ s +:+ "')")%string with (f +:+ "(" +:+ (quote +:+ s +:+ quote) +:+ ")")%string.
  - apply call_piece; [done | by apply piece_literal].
  - cbn. by rewrite <- string_app_assoc.
Qed.

Lemma hexdigit_word y : hexdigit y = true → is_ascii_alphanumeric y = true.
Proof.
  unfold hexdigit, is_ascii_alphanumeric, is_ascii_alphabetic, is_ascii_lowercase, is_ascii_uppercase, is_ascii_digit.
  rewrite !orb_true_iff, !andb_true_iff, !N.leb_le. lia.
Qed.
Lemma alphanumeric_plain y : is_ascii_alphanumeric y = true → negb (y =? 39)%N && negb (y =? 92)%N = true.
Proof.
  unfold is_ascii_alphanumeric, is_ascii_alphabetic, is_ascii_lowercase, is_ascii_uppercase, is_ascii_digit.
  rewrite !orb_true_iff, !andb_true_iff, !N.leb_le, !negb_true_iff, !N.eqb_neq. lia.
Qed.
Lemma words_all s : bytes_all is_ascii_alphanumeric s = true → forallb word_byte (bytes_of s) = true.
Proof.
  unfold bytes_all. rewrite !forallb_forall. intros Hs a Ha. unfold word_byte. by rewrite Hs.
Qed.
Lemma bit_alphanumeric y : is_bit y = true → is_ascii_alphanumeric y = true.
Proof. unfold is_bit. intros [->%N.eqb_eq | ->%N.eqb_eq]%orb_prop; done. Qed.
Lemma digit_alphanumeric y : is_ascii_digit y = true → is_ascii_alphanumeric y = true.
Proof. unfold is_ascii_alphanumeric. intros ->. apply orb_true_r. Qed.

Lemma binary_piece text w : format_mysql_binary_literal_text text = Some w → piece x w.
Proof.
  unfold format_mysql_binary_literal_text. destruct (strip_prefix (trim text) "0x") as [hex|] eqn:Hp; [|done].
  apply strip_prefix_Some in Hp. cbn [mbind option_bind]. destruct (bytes_all hexdigit hex) eqn:Hh; [|done]. intros [= <-].
  destruct (is_empty hex); [by apply (tagged_piece "X" "")|]. rewrite Hp. apply plain_word, words_all.
  rewrite bytes_all_app. apply andb_true_intro. split; [done|]. eapply bytes_all_impl; [apply hexdigit_word | done].
Qed.

Lemma raw_piece text w : format_oracle_raw_literal_text text = Some w → piece x w.
Proof.
  unfold format_oracle_raw_literal_text. destruct (strip_prefix text "0x") as [hex|] eqn:Hp; [|done].
  cbn [mbind option_bind]. destruct (_ && bytes_all hexdigit hex) eqn:Hh; [|done]. apply andb_prop in Hh as [_ Hh].
  intros [= <-]. apply (call_text_piece "HEXTORAW" hex); [done|]. apply inside_plain. eapply bytes_all_impl; [|exact Hh].
  intros y Hy. by apply alphanumeric_plain, hexdigit_word.
Qed.

Lemma bit_piece text w : format_mysql_bit_literal_text text = Some (Some w) → piece x w.
Proof.
  unfold format_mysql_bit_literal_text. set (trimmed := trim text).
  assert (Hb : ∀ bits, bytes_all is_bit bits = true → piece x ("b'" +:+ bits +:+ "'")).
  { intros bits Hbits. apply (tagged_piece "b"); [done | done |]. eapply bytes_all_impl; [|exact Hbits].
    intros y Hy. by apply alphanumeric_plain, bit_alphanumeric. }
  destruct (eq_ignore_ascii_case trimmed "true"); [intros [= <-]; by apply plain_word|].
  destruct (eq_ignore_ascii_case trimmed "false"); [intros [= <-]; by apply plain_word|].
  destruct (all_digits trimmed && _) eqn:Hd.
  - apply andb_prop in Hd as [Hd _].
    assert (piece x trimmed) by (apply plain_word, words_all; eapply bytes_all_impl; [apply digit_alphanumeric | exact Hd]).
    destruct (len trimmed =? 1); [by intros [= <-]|]. destruct (bytes_all is_bit trimmed) eqn:Hbits; intros [= <-]; [by apply Hb | done].
  - destruct (starts_with _ _ && _); [|done]. destruct (slice trimmed 2 (len trimmed - 1)) as [bits|]; [|done]. cbn.
    destruct (negb (is_empty bits) && bytes_all is_bit bits) eqn:Hbits; [|done]. apply andb_prop in Hbits as [_ Hbits].
    intros [= <-]. by apply Hb.
Qed.

(** ** Oracle's dates, of texts without quotes and backslashes *)

Definition parts_plain (p : Rfc3339Parts) : Prop :=
  plain_text (date p) = true ∧ plain_text (time p) = true ∧ plain_text (default "" (fraction p)) = true ∧
  plain_text (zone p) = true.

Lemma rfc3339_plain text p : plain_text text = true → regex_like_rfc3339 text = Some (Some p) → parts_plain p.
Proof.
  intros Ht. unfold regex_like_rfc3339. destruct (_ || _ || _); [done|]. destruct (negb _); [done|]. destruct (_ || _); [done|].
  destruct (slice text 0 10) as [dt|] eqn:Hs1; [|done]. destruct (slice text 11 19) as [tm|] eqn:Hs2; [|done].
  destruct (slice_from text 19) as [rest|] eqn:Hs3; [|done]. cbn [mbind option_bind].
  apply slice_Some in Hs1. apply slice_Some in Hs2. apply slice_from_Some in Hs3.
  assert (Hd : plain_text dt = true) by (subst; by apply bytes_all_substring).
  assert (Hm : plain_text tm = true) by (subst; by apply bytes_all_substring).
  assert (Hr : plain_text rest = true) by (subst; by apply bytes_all_substring). clear Hs1 Hs2 Hs3.
  unfold rfc3339_tail. destruct (strip_prefix rest ".") as [r|] eqn:Hs.
  - pose proof (bytes_all_strip _ _ _ _ Hs Hr) as Hr'. destruct (_ || _); [done|]. cbn [mbind option_bind].
    destruct (_ || _); [|done]. intros [= <-]. split; [done | split; [done | split; [|by apply bytes_all_substring]]].
    exact (bytes_all_substring _ _ _ _ Hr').
  - cbn [mbind option_bind]. destruct (_ || _); [|done]. by intros [= <-].
Qed.

Lemma local_plain text p : plain_text text = true → regex_like_local_datetime text = Some (Some p) → parts_plain p.
Proof.
  intros Ht. unfold regex_like_local_datetime. destruct (_ || _ || _); [done|].
  destruct (slice text 0 10) as [dt|] eqn:Hs1; [|done]. cbn [mbind option_bind]. apply slice_Some in Hs1.
  assert (Hd : plain_text dt = true) by (subst; by apply bytes_all_substring).
  destruct (len text =? 10); [by intros [= <-]|]. destruct (negb _); [done|]. destruct (_ || _); [done|].
  destruct (slice text 11 19) as [tm|] eqn:Hs2; [|done]. destruct (slice_from text 19) as [rest|] eqn:Hs3; [|done].
  cbn [mbind option_bind]. apply slice_Some in Hs2. apply slice_from_Some in Hs3.
  assert (Hm : plain_text tm = true) by (subst; by apply bytes_all_substring).
  assert (Hr : plain_text rest = true) by (subst; by apply bytes_all_substring).
  destruct (strip_prefix rest ".") as [r|] eqn:Hs.
  - pose proof (bytes_all_strip _ _ _ _ Hs Hr) as Hr'. destruct (_ || _); [done|]. intros [= <-]. split; [done | split; [done | split; [|done]]].
    exact (bytes_all_substring _ _ _ _ Hr').
  - destruct (is_empty rest); [|done]. by intros [= <-].
Qed.

Lemma call2_piece f a m :
  forallb word_byte (bytes_of f) = true → plain_text a = true → plain_text m = true →
  piece x (f +:+ "('" +:+ a +:+ "', '" +:+ m +:+ "')").
Proof.
  intros Hf Ha Hm.
  replace (f +:+ "('" +:+ a +:+ "', '" +:+ m +:+ "')")%string
    with (f +:+ "(" +:+ ((quote +:+ a +:+ quote) +:+ ", " +:+ (quote +:+ m +:+ quote)) +:+ ")")%string.
  - apply call_piece; [done|].
    apply (piece_gap_piece x (quote +:+ a +:+ quote) ", " (quote +:+ m +:+ quote));
      [by apply plain_literal_piece | by eapply gap_of | by apply plain_literal_piece].
  - cbn. rewrite <- !string_app_assoc. cbn. rewrite <- ?string_app_assoc. done.
Qed.

Lemma oracle_parts_piece kind p : parts_plain p → piece x (oracle_temporal_literal kind p).
Proof.
  intros (Hd & Ht & Hf & Hz). unfold oracle_temporal_literal.
  assert (Hdt : plain_text (date p +:+ " " +:+ time p +:+ default "" (fraction p)) = true).
  { unfold plain_text in *. by rewrite !bytes_all_app, Hd, Ht, Hf. }
  assert (Hmask : ∀ b, plain_text (oracle_timestamp_format_mask b) = true) by (by intros []).
  destruct kind.
  - destruct (oracle_temporal_parts_are_midnight p).
    + change ("DATE '" +:+ date p +:+ "'")%string with ("DATE" +:+ " " +:+ (quote +:+ date p +:+ quote))%string.
      apply word_gap_piece; [done | done | by apply plain_literal_piece].
    + pose proof (call2_piece "TO_DATE" (date p +:+ " " +:+ time p) "YYYY-MM-DD HH24:MI:SS" eq_refl) as Hc.
      rewrite <- !string_app_assoc in Hc. apply Hc; [|done]. unfold plain_text in *. by rewrite !bytes_all_app, Hd, Ht.
  - by apply (call2_piece "TO_TIMESTAMP").
  - destruct (is_empty (zone p)); [by apply (call2_piece "TO_TIMESTAMP")|].
    set (dt := (date p +:+ " " +:+ time p +:+ default "" (fraction p))%string) in *.
    pose proof (call2_piece "TO_TIMESTAMP_TZ" (dt +:+ " " +:+ oracle_timezone_suffix (zone p))
      (oracle_timestamp_format_mask (contains dt ".") +:+ " TZH:TZM") eq_refl) as Hc.
    rewrite <- !string_app_assoc in Hc. rewrite <- ?string_app_assoc. apply Hc; unfold plain_text in *; rewrite !bytes_all_app.
    + rewrite Hdt. cbn. unfold oracle_timezone_suffix. by destruct (eq_ignore_ascii_case (zone p) "z").
    + by rewrite Hmask.
Qed.

Lemma oracle_piece text dt w :
  plain_text text = true → format_oracle_temporal_literal text dt = Some (Some w) → piece x w.
Proof.
  intros Ht. unfold format_oracle_temporal_literal. destruct (dt ≫= oracle_temporal_column_kind) as [kind|]; [|done].
  unfold regex_like_oracle_temporal. destruct (regex_like_rfc3339 text) as [[p|]|] eqn:Hr; [| |done]; cbn.
  - intros [= <-]. apply oracle_parts_piece. by eapply rfc3339_plain.
  - destruct (regex_like_local_datetime text) as [[p|]|] eqn:Hl; [|done|done]. cbn. intros [= <-].
    apply oracle_parts_piece. by eapply local_plain.
Qed.

Lemma text_literal_piece text ci w :
  numbers_ok → utf8 text = true → (writes_temporal d ci = true → plain_text text = true) →
  format_text_literal text d ci = Some w → piece x w.
Proof.
  intros Hnum Hu Hpl. unfold format_text_literal.
  destruct (if is_mysql_binary_literal_column d ci then _ else None) as [lit|] eqn:Hb.
  { destruct (is_mysql_binary_literal_column d ci); [|done]. intros [= <-]. by eapply binary_piece. }
  destruct (if is_oracle_raw_literal_column d ci then _ else None) as [lit|] eqn:Hr.
  { destruct (is_oracle_raw_literal_column d ci); [|done]. intros [= <-]. by eapply raw_piece. }
  destruct (_ && is_numeric_literal text) eqn:Hn.
  { apply andb_prop in Hn as [_ Hn]. intros [= <-]. apply piece_numeric. by apply numeric_literal_text. }
  destruct (if bool_decide (d = Some ManticoreSearch) then _ else None) as [typed|] eqn:Hm.
  { destruct (bool_decide (d = Some ManticoreSearch)); [|done].
    assert (Ht : (∃ b, typed = Bool b) ∨ (∃ t, typed = Number t ∧ number_text t = true)).
    { unfold manticore_typed_attribute_value in Hm. destruct ci as [ci|]; [|done]. cbn [mbind option_bind] in Hm.
      destruct (_ && eq_ignore_ascii_case text "true"); [injection Hm as <-; eauto|].
      destruct (_ && eq_ignore_ascii_case text "false"); [injection Hm as <-; eauto|].
      destruct (is_numeric_type _ && _) in Hm; [|done]. destruct (parse_number text) as [t|] eqn:Hp; [|done]. injection Hm as <-.
      right. exists t. split; [done|]. by eapply Hnum. }
    destruct Ht as [[b ->]|(t & -> & Ht)]; intros [= <-]; [apply bool_literal_piece | by apply piece_numeric]. }
  destruct (is_empty text).
  { intros [= <-]. destruct (bool_decide (d = Some SqlServer)); [by apply (tagged_piece "N" "") | by apply (plain_literal_piece "")]. }
  destruct (is_mysql_geometry_literal_database d && _).
  { intros [= <-]. by apply (call_text_piece "ST_GeomFromText"); [|apply inside_both_doubled]. }
  destruct (if is_oracle_temporal_literal_database d then _ else Some None) as [[lit|]|] eqn:Ho; [| |done]; cbn [mbind option_bind].
  - destruct (is_oracle_temporal_literal_database d) eqn:Hod; [|done]. intros [= <-]. eapply oracle_piece; [|exact Ho].
    apply Hpl. unfold writes_temporal. rewrite Hod. unfold format_oracle_temporal_literal in Ho.
    by destruct ((data_type <$> ci) ≫= oracle_temporal_column_kind).
  - destruct (grid_literal_text text d ci) as [t|]; [|done]. cbn. intros [= <-]. apply quoted_text_piece.
Qed.
End Closed.

(** Whatever a cell holds, the literal the grid writes for it closes every quote
    it opens and holds, outside of its quotes, neither a second statement nor a
    comment nor the start of a name, as the database reads it: a cell cannot escape
    from its literal. The dates and timestamps of Oracle are left out where the text
    itself holds a quote or a backslash: they are copied into the literal. *)
Lemma grid_literal_closed `{JsonPrinter, Chrono, JsonNumbers} d x v ci w :
  reads_grid d x → numbers_ok → cell_ok v = true → temporal_plain d ci v = true →
  format_grid_sql_literal v d ci = Some w → piece x w.
Proof.
  intros Hx Hnum Hv Hpl. destruct v as [|b|t|s|l|m]; cbn [format_grid_sql_literal].
  - intros [= <-]. by apply (plain_word d).
  - intros [= <-]. by apply bool_literal_piece.
  - intros [= <-]. by apply (piece_numeric d).
  - unfold temporal_plain in Hpl. cbn in Hpl, Hv.
    destruct (if is_mysql_bit_literal_column d ci then _ else Some None) as [[lit|]|] eqn:Hb; [| |done]; cbn [mbind option_bind].
    + destruct (is_mysql_bit_literal_column d ci); [|done]. intros [= <-]. by eapply (bit_piece d).
    + apply (text_literal_piece d x Hx); [done | done |]. intros Hw. by rewrite Hw in Hpl.
  - intros [= <-]. cbn in Hv. destruct (postgres_json_array_element_type d ci) as [e|] eqn:He.
    + unfold postgres_json_array_element_type in He. destruct (bool_decide (d ≠ Some Postgres)) eqn:Hd; [done|].
      apply bool_decide_eq_false in Hd. apply (json_array_piece d x Hx); [intros ->; by apply Hd|].
      destruct ci as [ci|]; [|done]. cbn in He. destruct (one_of _ _); [by injection He as <-|].
      destruct (one_of _ _); [by injection He as <- | done].
    + destruct d as [[]|]; first [by apply pg_array_piece | by apply (ch_array_piece _ x Hx)].
  - unfold temporal_plain in Hpl. cbn [cell_text] in Hpl. apply (text_literal_piece d x Hx); [done | exact Hv |].
    intros Hw. by rewrite Hw in Hpl.
Qed.

(** A printer without line breaks and escapes of control characters, and no parser. *)
Fixpoint print_value (v : Value) : string :=
  match v with
  | Null => "null"
  | Bool b => if b then "true" else "false"
  | Number token => token
  | VString s => pg_element_text s
  | Array l => ("[" +:+ join "," (List.map print_value l) +:+ "]")%string
  | Object l =>
      (lbrace +:+ join "," (List.map (λ f : string * Value, pg_element_text f.1 +:+ ":" +:+ print_value f.2)%string l) +:+ rbrace)%string
  end.
Definition plain_printer : JsonPrinter :=
  {| to_json v := Ok (print_value v); to_json_pretty v := Ok (print_value v); value_to_string := print_value;
     parse_json _ := None |}.

(** Numbers are kept as they are written. *)
Definition plain_numbers : JsonNumbers := {| parse_number t := if number_text t then Some t else None |}.
Lemma plain_numbers_ok : @numbers_ok plain_numbers.
Proof. intros t token. cbn. destruct (number_text t) eqn:Ht; [by intros [= <-] | done]. Qed.

(** A quote after [b] that ends the text stops the save. *)
Example bit_text_panics : format_mysql_bit_literal_text "b'" = None.
Proof. vm_compute. reflexivity. Qed.

(** Backslashes of an element are doubled twice in a literal that does not escape. *)
Example array_backslashes :
  @format_pg_array_sql_literal plain_printer [VString "a\b"] = ("'{" +:+ dquote +:+ "a\\\\b" +:+ dquote +:+ "}'")%string.
Proof. vm_compute. reflexivity. Qed.

(** The type test splits the values of an enum too. *)
Example enum_is_numeric :
  is_numeric_type "enum('int','text')" = true ∧ is_bit_column_type "enum('bit','byte')" = true.
Proof. vm_compute. done. Qed.
