(* ===== verification/GridReadBack.v ===== *)
(** * Literals of the grid read back

    A reader of the text literals a database knows, and that it gives the text of a
    cell back from what the grid writes for it. *)
From S2P Require Import Prelude RustStr Json F64 SqlText AgentContext GridTypes SqlScan SqlTemporal GridLiteral.

(** ** The reader *)

Definition unescape (a : ascii) : ascii :=
  if Ascii.eqb a "n" then "010"%char else if Ascii.eqb a "r" then "013"%char
  else if Ascii.eqb a "t" then "009"%char else if Ascii.eqb a "0" then "000"%char else a.

Definition cons_first (a : ascii) (p : string * string) : string * string := (String a p.1, p.2).

(** The text after an opening quote, and what follows the closing one. *)
Fixpoint read_text (escapes : bool) (s : string) : option (string * string) :=
  match s with
  | EmptyString => None
  | String a s1 =>
      if Ascii.eqb a quote_byte then
        match s1 with
        | EmptyString => Some ("", "")
        | String b s2 =>
            if Ascii.eqb b quote_byte then cons_first quote_byte <$> read_text escapes s2 else Some ("", s1)
        end
      else if escapes && Ascii.eqb a "\" then
        match s1 with
        | EmptyString => None
        | String b s2 => cons_first (unescape b) <$> read_text escapes s2
        end
      else cons_first a <$> read_text escapes s1
  end.

(** SQL Server: national literals and line breaks by their code, added. *)
Definition read_part (s : string) : option (string * string) :=
  match strip_prefix s "NCHAR(13)", strip_prefix s "NCHAR(10)" with
  | Some rest, _ => Some (carriage_return, rest)
  | None, Some rest => Some (newline, rest)
  | None, None => strip_prefix s "N'" ≫= read_text false
  end.
Fixpoint read_sum (fuel : nat) (s : string) : option string :=
  match fuel with
  | 0 => None
  | S fuel' =>
      '(first, rest) ← read_part s;
      match rest with
      | EmptyString => Some first
      | _ => rest ← strip_prefix rest " + "; append first <$> read_sum fuel' rest
      end
  end.

(** A literal to its end, where [escapes] says whether backslashes escape in one
    that does not say it itself. *)
Definition read_literal (escapes : bool) (s : string) : option string :=
  match s with
  | String "'" s' => '(text, rest) ← read_text escapes s'; if is_empty rest then Some text else None
  | String "E" (String "'" s') => '(text, rest) ← read_text true s'; if is_empty rest then Some text else None
  | _ => read_sum (len s) s
  end.

(** ** What the writers double *)

Definition ends_text (rest : string) : Prop := match rest with String a _ => a ≠ quote_byte | EmptyString => True end.

Lemma read_closing escapes rest : ends_text rest → read_text escapes (String quote_byte rest) = Some ("", rest).
Proof.
  intros Hr. cbn [read_text]. rewrite ascii_eqb_refl. destruct rest as [|a rest]; [done|].
  destruct (Ascii.eqb_spec a quote_byte); [done|reflexivity].
Qed.

Lemma read_plain_char escapes a s :
  a ≠ quote_byte → (escapes = true → a ≠ "\"%char) →
  read_text escapes (String a s) = cons_first a <$> read_text escapes s.
Proof.
  intros Ha Hb. cbn [read_text]. destruct (Ascii.eqb_spec a quote_byte); [done|].
  destruct escapes; [|done]. destruct (Ascii.eqb_spec a "\"); [by destruct Hb | done].
Qed.

Lemma contains_backslash a t : contains (String a t) backslash = false → a ≠ "\"%char ∧ contains t backslash = false.
Proof.
  cbn [contains]. intros [Hs Hb]%orb_false_elim. split; [|done]. intros ->.
  assert (starts_with (String "\" t) backslash = true) by (apply starts_with_iff; by exists t). congruence.
Qed.

Lemma read_double_quotes escapes t rest :
  (escapes = true → contains t backslash = false) → ends_text rest →
  read_text escapes (double_quotes t +:+ String quote_byte rest) = Some (t, rest).
Proof.
  intros Hb Hr. unfold double_quotes. induction t as [|a t IH]; [by apply read_closing|].
  assert (Hb' : escapes = true → a ≠ "\"%char ∧ contains t backslash = false).
  { intros He. specialize (Hb He). by apply contains_backslash. }
  cbn [replace_char]. destruct (Ascii.eqb_spec a quote_c) as [->|Ha].
  - cbn. rewrite IH by (intros He; by apply Hb'). done.
  - cbn [append]. rewrite read_plain_char; [|done | intros He; by apply Hb'].
    rewrite IH by (intros He; by apply Hb'). done.
Qed.

Lemma read_both_doubled t rest :
  ends_text rest → read_text true (double_quotes (double_backslashes t) +:+ String quote_byte rest) = Some (t, rest).
Proof.
  intros Hr. unfold double_quotes, double_backslashes. induction t as [|a t IH]; [by apply read_closing|].
  cbn [replace_char]. destruct (Ascii.eqb_spec a backslash_c) as [->|Hb].
  - cbn in *. by rewrite IH.
  - cbn [replace_char]. destruct (Ascii.eqb_spec a quote_c) as [->|Ha]; [cbn in *; by rewrite IH|].
    cbn [append]. rewrite read_plain_char by done. by rewrite IH.
Qed.

Lemma read_escaped t rest :
  ends_text rest →
  read_text true (replace_char quote_c (backslash +:+ quote) (double_backslashes t) +:+ String quote_byte rest) = Some (t, rest).
Proof.
  intros Hr. unfold double_backslashes. induction t as [|a t IH]; [by apply read_closing|].
  cbn [replace_char]. destruct (Ascii.eqb_spec a backslash_c) as [->|Hb].
  - cbn in *. by rewrite IH.
  - cbn [replace_char]. destruct (Ascii.eqb_spec a quote_c) as [->|Ha]; [cbn in *; by rewrite IH|].
    cbn [append]. rewrite read_plain_char by done. by rewrite IH.
Qed.

(** Where backslashes do not escape, they are read twice. *)
Lemma read_doubled_plain t rest :
  ends_text rest →
  read_text false (double_quotes (double_backslashes t) +:+ String quote_byte rest) = Some (double_backslashes t, rest).
Proof. intros Hr. by apply read_double_quotes. Qed.

Lemma double_backslashes_none t : contains t backslash = false → double_backslashes t = t.
Proof.
  unfold double_backslashes. induction t as [|a t IH]; [done|]. intros [Ha Hb]%contains_backslash. cbn [replace_char].
  destruct (Ascii.eqb_spec a backslash_c); [done|]. by rewrite IH.
Qed.

(** ** SQL Server *)

(** A part of a sum reads as a text. *)
Definition part (w t : string) : Prop := ∀ rest, ends_text rest → read_part (w +:+ rest) = Some (t, rest).

Lemma national_part segment : part (national_literal segment) segment.
Proof.
  intros rest Hr. unfold national_literal, read_part.
  replace (("N'" +:+ double_quotes segment +:+ "'") +:+ rest)%string
    with ("N'" +:+ (double_quotes segment +:+ String quote_byte rest))%string by (cbn; by rewrite <- string_app_assoc).
  rewrite strip_prefix_app. cbn [mbind option_bind]. rewrite read_double_quotes by done. done.
Qed.

Lemma break_parts : part "NCHAR(13)" carriage_return ∧ part "NCHAR(10)" newline.
Proof.
  split; intros rest _; unfold read_part; [by rewrite strip_prefix_app|].
  change (strip_prefix ("NCHAR(10)" +:+ rest) "NCHAR(13)") with (@None string). by rewrite strip_prefix_app.
Qed.

Lemma flush_parts segment : ∃ ts, Forall2 part (flush_segment segment) ts ∧ String.concat "" ts = segment.
Proof.
  unfold flush_segment. destruct segment as [|a segment]; [by exists []|]. exists [String a segment].
  split; [constructor; [apply national_part | constructor] | done].
Qed.

Lemma concat_cons a (l : list string) : String.concat "" (a :: l) = (a +:+ String.concat "" l)%string.
Proof. destruct l as [|b l]; [by rewrite string_app_nil_r | done]. Qed.
Lemma concat_app (l l' : list string) : String.concat "" (l ++ l') = (String.concat "" l +:+ String.concat "" l')%string.
Proof.
  induction l as [|a l IH]; [done|]. rewrite <- app_comm_cons, !concat_cons, IH. apply string_app_assoc.
Qed.

Lemma unicode_parts text segment :
  ∃ ts, Forall2 part (unicode_literal_parts text segment) ts ∧ String.concat "" ts = (segment +:+ text)%string.
Proof.
  revert segment. induction text as [|a text IH]; intros segment; cbn [unicode_literal_parts].
  { rewrite string_app_nil_r. apply flush_parts. }
  assert (Hbreak : ∀ w t, part w (String t "") →
    ∃ ts, Forall2 part (flush_segment segment ++ w :: unicode_literal_parts text "") ts ∧
          String.concat "" ts = (segment +:+ String t text)%string).
  { intros w t Hw. destruct (flush_parts segment) as (ts & Hts & Hc), (IH "") as (ts' & Hts' & Hc').
    exists (ts ++ String t "" :: ts'). split; [by (apply Forall2_app; [|constructor])|].
    change (String t "" :: ts') with ([String t ""] ++ ts'). by rewrite !concat_app, Hc, Hc'. }
  destruct (Ascii.eqb_spec a "013") as [->|_]; [apply Hbreak, break_parts|].
  destruct (Ascii.eqb_spec a "010") as [->|_]; [apply Hbreak, break_parts|].
  destruct (IH (segment +:+ String a "")%string) as (ts & Hts & Hc). exists ts. split; [done|].
  by rewrite Hc, <- string_app_assoc.
Qed.

Lemma read_sum_join ps ts fuel :
  Forall2 part ps ts → ps ≠ [] → List.length ps ≤ fuel → read_sum fuel (join " + " ps) = Some (String.concat "" ts).
Proof.
  intros H. revert fuel. induction H as [|p t ps ts Hp H IH]; intros [|fuel] Hne Hf; try done; [cbn in Hf; lia|].
  cbn [read_sum]. destruct H as [|p' t' ps ts Hp' H].
  - pose proof (Hp "" I) as Hr. rewrite string_app_nil_r in Hr. unfold join. cbn [String.concat]. rewrite Hr. done.
  - change (join " + " (p :: p' :: ps)) with (p +:+ (" + " +:+ join " + " (p' :: ps)))%string.
    rewrite Hp by done. cbn [mbind option_bind]. rewrite strip_prefix_app.
    cbn [mbind option_bind append]. rewrite IH; [done | done | cbn in *; lia].
Qed.

Lemma join_parts_len ps ts : Forall2 part ps ts → List.length ps ≤ len (join " + " ps).
Proof.
  induction 1 as [|p t ps ts Hp H IH]; [cbn; lia|].
  assert (1 ≤ len p) by (destruct p; [by specialize (Hp "" I) | unfold len; cbn; lia]).
  destruct H as [|p' t' ps ts Hp' H]; [unfold join; cbn [String.concat List.length]; lia|].
  change (join " + " (p :: p' :: ps)) with (p +:+ (" + " +:+ join " + " (p' :: ps)))%string.
  rewrite !string_app_length. change (len " + ") with 3. cbn [List.length] in *. lia.
Qed.

Lemma read_sqlserver escapes text : read_literal escapes (format_sqlserver_unicode_literal text) = Some text.
Proof.
  unfold format_sqlserver_unicode_literal. destruct (unicode_parts text "") as (ts & Hts & Hc). cbn in Hc. subst text.
  set (text := String.concat "" ts) in *. destruct (unicode_literal_parts text "") as [|p ps] eqn:He.
  { inversion Hts; subst. done. }
  assert (Hl : read_literal escapes (join " + " (p :: ps)) = read_sum (len (join " + " (p :: ps))) (join " + " (p :: ps))).
  { assert (∃ r, join " + " (p :: ps) = String "N" r) as [r ->]; [|done].
    inversion Hts as [|? t ? ts' Hp Hps]; subst. clear -Hp.
    assert (∃ r, p = String "N" r) as [r ->].
    { specialize (Hp "" I). rewrite string_app_nil_r in Hp. unfold read_part in Hp.
      destruct (strip_prefix p "NCHAR(13)") as [r|] eqn:H1; [by apply strip_prefix_Some in H1 as ->; eexists|].
      destruct (strip_prefix p "NCHAR(10)") as [r|] eqn:H2; [by apply strip_prefix_Some in H2 as ->; eexists|].
      destruct (strip_prefix p "N'") as [r|] eqn:H3; [by apply strip_prefix_Some in H3 as ->; eexists | done]. }
    destruct ps as [|p' ps]; [by exists r|]. by eexists. }
  rewrite Hl. apply read_sum_join; [done | done |]. by eapply join_parts_len.
Qed.

(** ** Text cells *)

(** The database reads the literals of the grid as they are meant: SQLite's family
    takes a backslash as it is, Neo4j escapes with it, Postgres and SQL Server get
    literals that say it, and the others escape with it, or the text holds none. *)
Definition reads_text (d : option DatabaseType) (escapes : bool) (text : string) : Prop :=
  match d with
  | Some (Sqlite | Rqlite | Turso | CloudflareD1) => escapes = false
  | Some SqlServer => True
  | Some Postgres => True
  | Some Neo4j => escapes = true
  | _ => escapes = true ∨ contains text backslash = false
  end.

Lemma both_doubled_end text : read_text true (double_quotes (double_backslashes text) +:+ "'") = Some (text, "").
Proof. exact (read_both_doubled text "" I). Qed.
Lemma escaped_end text :
  read_text true (replace_char quote_c (backslash +:+ quote) (double_backslashes text) +:+ "'") = Some (text, "").
Proof. exact (read_escaped text "" I). Qed.
Lemma quotes_end escapes text :
  (escapes = true → contains text backslash = false) → read_text escapes (double_quotes text +:+ "'") = Some (text, "").
Proof. intros He. exact (read_double_quotes escapes text "" He I). Qed.

Lemma read_quoted_both escapes text :
  escapes = true ∨ contains text backslash = false →
  read_literal escapes (quote +:+ double_quotes (double_backslashes text) +:+ quote) = Some text.
Proof.
  intros He. unfold quote. cbn [append read_literal].
  assert (read_text escapes (double_quotes (double_backslashes text) +:+ "'") = Some (text, "")) as ->; [|done].
  destruct escapes; [apply both_doubled_end|]. destruct He as [|He]; [done|].
  rewrite double_backslashes_none by done. by apply quotes_end.
Qed.

Lemma quoted_text_reads d escapes text :
  reads_text d escapes text → read_literal escapes (quote_literal_text text d) = Some text.
Proof.
  intros He. unfold quote_literal_text. destruct (bool_decide (d = Some Postgres)) eqn:Hp; cbn [andb].
  { destruct (contains text backslash) eqn:Hc.
    - cbn [append read_literal]. by rewrite both_doubled_end.
    - apply bool_decide_eq_true in Hp as ->. apply read_quoted_both. by right. }
  destruct (bool_decide (d = Some SqlServer)) eqn:Hq; [apply read_sqlserver|].
  destruct (bool_decide (d = Some Neo4j)) eqn:Hn.
  { apply bool_decide_eq_true in Hn as ->. cbn in He. subst escapes. unfold quote at 1 3. cbn [append read_literal].
    by rewrite escaped_end. }
  destruct (is_sqlite_literal_database d) eqn:Hs.
  - assert (escapes = false) as -> by (by destruct d as [[]|]). unfold quote. cbn [append read_literal].
    by rewrite quotes_end.
  - apply read_quoted_both.
    destruct d as [[]|]; first [exact He | discriminate Hs | vm_compute in Hp; discriminate Hp
                               | vm_compute in Hq; discriminate Hq | vm_compute in Hn; discriminate Hn].
Qed.

Section ReadBack.
Context `{JsonPrinter, Chrono, JsonNumbers}.

(** A branch for a typed column writes the text some other way. *)
Definition typed_text (d : option DatabaseType) (ci : option DataGridColumnInfo) (text : string) : bool :=
  is_mysql_bit_literal_column d ci || is_mysql_binary_literal_column d ci || is_oracle_raw_literal_column d ci
  || (match ci with Some column => is_numeric_type (data_type column) | None => false end && is_numeric_literal text)
  || (bool_decide (d = Some ManticoreSearch) && bool_decide (is_Some (manticore_typed_attribute_value text ci)))
  || (is_mysql_geometry_literal_database d
      && match ci with Some column => is_geometry_column_type (data_type column) | None => false end)
  || writes_temporal d ci.


(** Where backslashes do not escape, the other databases read each one twice. *)
Lemma backslashes_read_twice d text :
  match d with Some (Oracle | OceanbaseOracle | DuckDb | H2 | Db2 | Kingbase | Dameng) => true | _ => false end = true →
  read_literal false (quote_literal_text text d) = Some (double_backslashes text).
Proof.
  intros Hd. unfold quote_literal_text.
  assert (bool_decide (d = Some Postgres) = false ∧ bool_decide (d = Some SqlServer) = false ∧
          bool_decide (d = Some Neo4j) = false ∧ is_sqlite_literal_database d = false) as (-> & -> & -> & ->) by (by destruct d as [[]|]).
  cbn [andb]. unfold quote. cbn [append read_literal]. by rewrite quotes_end.
Qed.
End ReadBack.

