(* ===== verification/GridRows.v ===== *)
(** * Rows of the grid in SQL (data_grid_sql.rs)

    The options of a save, the columns a result is saved to, and the predicates
    that find a row. [None] of a text is a panic. *)
From S2P Require Import Prelude RustStr Json F64 SqlText AgentContext GridTypes SqlIdent SqlTemporal GridLiteral.

Record DataGridTableMeta : Type := {
  catalog : option string; database : option string; schema : option string; table_name : string;
  primary_keys : list string; meta_columns : option (list DataGridColumnInfo)
}.

(** [columns] of the source is [grid_columns] here. *)
Record DataGridSaveStatementOptions : Type := {
  database_type : option DatabaseType; identifier_quote : option string; table_meta : DataGridTableMeta;
  grid_columns : list string; source_columns : option (list (option string)); rows : list (list Value);
  dirty_rows : list (nat * list (nat * Value)); deleted_rows : list nat; new_rows : list (list Value)
}.

Definition columns_of (meta : DataGridTableMeta) : list DataGridColumnInfo := default [] (meta_columns meta).

(** ** Lists *)

Fixpoint position {A} (f : A → bool) (l : list A) : option nat :=
  match l with
  | [] => None
  | a :: l' => if f a then Some 0 else S <$> position f l'
  end.

(** [iter.enumerate().filter_map(..)]: the columns that have a name, with the cell of the row. *)
Definition present_columns (columns : list (option string)) (row : list Value) : list (string * Value) :=
  omap (λ p : nat * option string, (λ column, (column, default Null (row !! p.1))) <$> p.2) (imap pair columns).

(** [iter.map(f).collect::<Vec<_>>().join(separator)]. *)
Definition joined {A} (separator : string) (f : A → option string) (l : list A) : option string :=
  join separator <$> mapM f l.

(** ** The columns of a save *)

(** [columns.iter().find]/[filter]: an exact name first, else the only one that differs in case. *)
Definition unique_column_info_match (columns : list DataGridColumnInfo) (name : string) : option DataGridColumnInfo :=
  match List.find (λ column, String.eqb (ci_name column) name) columns with
  | Some column => Some column
  | None =>
      let normalized := normalize_column_name name in
      match List.filter (λ column, String.eqb (normalize_column_name (ci_name column)) normalized) columns with
      | [first] => Some first
      | _ => None
      end
  end.

Definition strip_suffix (s p : string) : option string :=
  if ends_with s p then Some (take_bytes (len s - len p) s) else None.

Fixpoint unquote_with (quotes : list (string * string)) (component : string) : option string :=
  match quotes with
  | [] => Some component
  | (opening, closing) :: quotes' =>
      if starts_with component opening || ends_with component closing then
        inner ← strip_prefix component opening;
        inner ← strip_suffix inner closing;
        Some (replace inner (closing +:+ closing)%string closing)
      else unquote_with quotes' component
  end.
Definition unquote_identifier_component (component : string) : option string :=
  if is_empty component then None else unquote_with [("`", "`"); (dquote, dquote); ("[", "]")] component.

(** The characters left, the closing quote that is awaited, the characters of the
    component so far (last first) and whether a component came before. *)
Fixpoint component_loop (l : list N) (quote : option N) (component : list N) (seen : bool) : option string :=
  match l with
  | [] =>
      if bool_decide (is_Some quote) || negb seen then None
      else unquote_identifier_component (trim (from_chars (rev component)))
  | x :: l1 =>
      match quote with
      | Some end_quote =>
          if (x =? end_quote)%N then
            match l1 with
            | y :: l2 =>
                if (y =? end_quote)%N then component_loop l2 quote (y :: x :: component) seen
                else component_loop l1 None (x :: component) seen
            | [] => component_loop l1 None (x :: component) seen
            end
          else component_loop l1 quote (x :: component) seen
      | None =>
          if (x =? 96)%N || (x =? 34)%N then component_loop l1 (Some x) (x :: component) seen
          else if (x =? 91)%N then component_loop l1 (Some 93%N) (x :: component) seen
          else if (x =? 46)%N then
            if is_empty (trim (from_chars (rev component))) then None else component_loop l1 None [] true
          else component_loop l1 None (x :: component) seen
      end
  end.
Definition last_qualified_identifier_component (name : string) : option string := component_loop (chars name) None [] false.

Definition resolve_hive_target_column (table_meta : DataGridTableMeta) (result_column : string) : string :=
  match meta_columns table_meta with
  | None => result_column
  | Some columns =>
      match unique_column_info_match columns result_column with
      | Some column => ci_name column
      | None =>
          match last_qualified_identifier_component result_column with
          | None => result_column
          | Some unqualified =>
              match unique_column_info_match columns unqualified with
              | Some column => ci_name column
              | None => result_column
              end
          end
      end
  end.

Definition effective_columns (options : DataGridSaveStatementOptions) : list (option string) :=
  let columns :=
    match source_columns options with
    | Some source_columns =>
        if List.length source_columns =? List.length (grid_columns options) then source_columns
        else Some <$> grid_columns options
    | None => Some <$> grid_columns options
    end in
  if bool_decide (database_type options ≠ Some Hive) then columns
  else fmap (M := option) (resolve_hive_target_column (table_meta options)) <$> columns.

Definition find_column_index (database_type : option DatabaseType) (columns : list (option string)) (target : string) :
    option nat :=
  match position (λ column, bool_decide (column = Some target)) columns with
  | Some index => Some index
  | None =>
      match database_type with
      | Some (Goldendb | Kingbase | Tdengine | Hive) =>
          let normalized_target := normalize_column_name target in
          let matches := λ column : option string, String.eqb (default "" (normalize_column_name <$> column)) normalized_target in
          first ← position matches columns;
          if existsb matches (drop (S first) columns) then None else Some first
      | _ => None
      end
  end.

(** ** Predicates *)

Definition uses_mysql_binary_text_predicate (database_type : option DatabaseType) (value : Value)
    (column_info : option DataGridColumnInfo) : bool :=
  bool_decide (database_type = Some Mysql) && bool_decide (is_Some (as_str value))
  && match column_info with Some column => is_textual_column_type (data_type column) | None => false end.

(** [rsplit('.').next()]: what follows the last dot. *)
Definition after_last_dot (s : string) : string := List.last (split_char "." s) "".

Definition postgres_keyless_json_predicate (database_type : option DatabaseType) (ident literal : string)
    (column_info : option DataGridColumnInfo) : option string :=
  if negb (is_postgres_like_pattern_database database_type) then None
  else
    column ← column_info;
    let normalized := to_ascii_lowercase (trim (data_type column)) in
    let data_type := trim_matches 34 (after_last_dot normalized) in
    if String.eqb data_type "json" then Some (ident +:+ "::text = " +:+ literal +:+ "::text")%string
    else if String.eqb data_type "jsonb" then Some (ident +:+ " = " +:+ literal +:+ "::jsonb")%string
    else None.

Definition data_grid_identifier (database_type : option DatabaseType) (name : string) (identifier_quote : option string) :
    string := quote_table_data_identifier database_type name identifier_quote.

Definition predicate_ident (database_type : option DatabaseType) (name : string) (identifier_quote : option string) : string :=
  if is_oracle_row_id database_type (Some name) then "ROWIDTOCHAR(ROWID)"
  else data_grid_identifier database_type name identifier_quote.

Section Rows.
Context `{JsonPrinter, Chrono, JsonNumbers}.

(** The right-hand side of both predicates, once the literal is written. *)
Definition literal_predicate (database_type : option DatabaseType) (ident literal : string)
    (column_info : option DataGridColumnInfo) (use_binary_text_comparison : bool) : string :=
  match (if use_binary_text_comparison then postgres_keyless_json_predicate database_type ident literal column_info else None)
  with
  | Some predicate => predicate
  | None => (ident +:+ " = " +:+ mysql_json_predicate_literal literal database_type column_info)%string
  end.

Definition build_column_predicate (database_type : option DatabaseType) (column : string) (value : Value)
    (column_info : option DataGridColumnInfo) (use_binary_text_comparison : bool) (identifier_quote : option string) :
    option string :=
  let ident := predicate_ident database_type column identifier_quote in
  if bool_decide (value = Null) then Some (ident +:+ " IS NULL")%string
  else if use_binary_text_comparison && uses_mysql_binary_text_predicate database_type value column_info then
    literal ← format_grid_sql_literal value database_type column_info;
    Some ("BINARY " +:+ ident +:+ " = " +:+ literal)%string
  else
    literal ← format_grid_sql_literal value database_type column_info;
    Some (literal_predicate database_type ident literal column_info use_binary_text_comparison).

Definition build_save_column_predicate (database_type : option DatabaseType) (column : string) (value : Value)
    (column_info : option DataGridColumnInfo) (use_binary_text_comparison : bool) (identifier_quote : option string) :
    option string :=
  let ident := predicate_ident database_type column identifier_quote in
  if bool_decide (value = Null) || empty_string_saves_as_null value column_info then Some (ident +:+ " IS NULL")%string
  else if use_binary_text_comparison && uses_mysql_binary_text_predicate database_type value column_info then
    literal ← format_grid_save_sql_literal value database_type column_info;
    Some ("BINARY " +:+ ident +:+ " = " +:+ literal)%string
  else
    literal ← format_grid_save_sql_literal value database_type column_info;
    Some (literal_predicate database_type ident literal column_info use_binary_text_comparison).

Definition build_row_where (database_type : option DatabaseType) (columns : list (option string)) (row : list Value)
    (column_info : list DataGridColumnInfo) (identifier_quote : option string) : option string :=
  joined " AND "
    (λ p, build_column_predicate database_type p.1 p.2 (column_info_for column_info p.1) true identifier_quote)
    (List.filter (λ p, negb (is_oracle_row_id database_type (Some p.1))) (present_columns columns row)).

Definition build_save_row_where (database_type : option DatabaseType) (columns : list (option string)) (row : list Value)
    (column_info : list DataGridColumnInfo) (identifier_quote : option string) : option string :=
  joined " AND "
    (λ p, build_save_column_predicate database_type p.1 p.2 (column_info_for column_info p.1) true identifier_quote)
    (List.filter (λ p, negb (is_oracle_row_id database_type (Some p.1))) (present_columns columns row)).

(** The cell of a row under a primary key; the key that is not among the columns
    has none. *)
Definition primary_key_value (database_type : option DatabaseType) (columns : list (option string)) (row : list Value)
    (primary_key : string) : Value :=
  default Null (find_column_index database_type columns primary_key ≫= λ index, row !! index).

Definition build_primary_key_where (database_type : option DatabaseType) (primary_keys : list string)
    (columns : list (option string)) (row : list Value) (column_info : list DataGridColumnInfo)
    (identifier_quote : option string) : option string :=
  if bool_decide (primary_keys = []) && uses_keyless_row_predicate database_type
  then build_row_where database_type columns row column_info identifier_quote
  else joined " AND "
         (λ primary_key,
            build_column_predicate database_type primary_key (primary_key_value database_type columns row primary_key)
              (column_info_for column_info primary_key) false identifier_quote)
         primary_keys.
End Rows.

(** ** Statements *)

Definition data_grid_statement (database_type : option DatabaseType) (sql : string) : string :=
  if bool_decide (database_type = Some ManticoreSearch) then sql else (sql +:+ ";")%string.

Definition data_grid_update_sql (database_type : option DatabaseType) (table sets where_clause : string) : string :=
  if bool_decide (database_type = Some ClickHouse)
  then ("ALTER TABLE " +:+ table +:+ " UPDATE " +:+ sets +:+ " WHERE " +:+ where_clause)%string
  else ("UPDATE " +:+ table +:+ " SET " +:+ sets +:+ " WHERE " +:+ where_clause)%string.

Definition data_grid_delete_sql (database_type : option DatabaseType) (table where_clause : string) : string :=
  if bool_decide (database_type = Some ClickHouse)
  then ("ALTER TABLE " +:+ table +:+ " DELETE WHERE " +:+ where_clause)%string
  else ("DELETE FROM " +:+ table +:+ " WHERE " +:+ where_clause)%string.

(** A change of some cells of a row: the cells past its end are not changed. *)
Definition changed_row (row : list Value) (changes : list (nat * Value)) : list Value :=
  fold_left (λ row change, <[change.1 := change.2]> row) changes row.
