(* ===== verification/GridBatch.v ===== *)
(** * MySQL statements in batches (data_grid_sql.rs)

    How the predicates of updates and deletes, and the tuples of inserts, are put
    together in statements of at most 500 rows and about 256 KiB, and that nothing is
    lost on the way. *)
From S2P Require Import Prelude RustStr.

(** ** Batches *)

Definition MYSQL_DATA_GRID_BATCH_MAX_ROWS : nat := 500.
Definition MYSQL_DATA_GRID_BATCH_TARGET_SQL_BYTES : N := 256 * 1024.

Definition bytes_len (s : string) : N := N.of_nat (len s).

Definition part_bytes (wrap_multiple_parts : bool) (part : string) : N :=
  (bytes_len part + (if wrap_multiple_parts then 2 else 0))%N.
Definition joined_batch_sql_len (prefix : string) (current : list string) (next separator : string)
    (wrap_multiple_parts : bool) : N :=
  match current with
  | [] => (bytes_len prefix + bytes_len next + 1)%N
  | first :: others =>
      let single := bool_decide (others = []) && wrap_multiple_parts in
      let current_bytes :=
        if single then bytes_len first
        else (foldr N.add 0 (part_bytes wrap_multiple_parts <$> current)
              + bytes_len separator * N.of_nat (List.length current - 1))%N in
      let existing_adjustment := if single then 2%N else 0%N in
      (bytes_len prefix + current_bytes + existing_adjustment + bytes_len separator
       + part_bytes wrap_multiple_parts next + 1)%N
  end.

Definition mysql_joined_batch_statement (prefix : string) (parts : list string) (separator : string)
    (wrap_multiple_parts : bool) : string :=
  let body :=
    if bool_decide (List.length parts = 1) || negb wrap_multiple_parts then join separator parts
    else join separator ((λ part, ("(" +:+ part +:+ ")")%string) <$> parts) in
  (prefix +:+ body +:+ ";")%string.

Definition starts_batch (prefix : string) (batch : list string) (part separator : string) (wrap_multiple_parts : bool) : bool :=
  negb (bool_decide (batch = [])) &&
  ((MYSQL_DATA_GRID_BATCH_MAX_ROWS <=? List.length batch)
   || (MYSQL_DATA_GRID_BATCH_TARGET_SQL_BYTES <? joined_batch_sql_len prefix batch part separator wrap_multiple_parts)%N).

(** The statements for [parts], after those in [batch]. *)
Fixpoint mysql_batch_loop (prefix separator : string) (wrap_multiple_parts : bool) (parts batch : list string) : list string :=
  match parts with
  | [] =>
      match batch with [] => [] | _ => [mysql_joined_batch_statement prefix batch separator wrap_multiple_parts] end
  | part :: parts' =>
      if starts_batch prefix batch part separator wrap_multiple_parts
      then mysql_joined_batch_statement prefix batch separator wrap_multiple_parts
           :: mysql_batch_loop prefix separator wrap_multiple_parts parts' [part]
      else mysql_batch_loop prefix separator wrap_multiple_parts parts' (batch ++ [part])
  end.
Definition mysql_joined_batches (prefix : string) (parts : list string) (separator : string) (wrap_multiple_parts : bool) :
    list string := mysql_batch_loop prefix separator wrap_multiple_parts parts [].
Definition mysql_predicate_batches (prefix : string) (predicates : list string) : list string :=
  mysql_joined_batches prefix predicates " OR " true.
Definition mysql_values_insert_batches (table columns : string) (value_tuples : list string) : list string :=
  mysql_joined_batches ("INSERT INTO " +:+ table +:+ " (" +:+ columns +:+ ") VALUES ")%string value_tuples ", " false.

(** ** The length that is counted is the length of the statement *)

Definition total (l : list N) : N := foldr N.add 0%N l.

Lemma bytes_len_app a b : bytes_len (a +:+ b) = (bytes_len a + bytes_len b)%N.
Proof. unfold bytes_len. rewrite string_app_length. lia. Qed.

Lemma bytes_total_app a b : total (a ++ b) = (total a + total b)%N.
Proof. unfold total. induction a as [|x a IH]; cbn; [done|]. rewrite IH. lia. Qed.

Lemma bytes_len_join separator parts :
  bytes_len (join separator parts) =
  (total (bytes_len <$> parts) + bytes_len separator * N.of_nat (List.length parts - 1))%N.
Proof.
  induction parts as [|part parts IH]; [unfold join, bytes_len, len, total; cbn; lia|].
  destruct parts as [|part' parts]; [unfold join, total; cbn; lia|].
  change (join separator (part :: part' :: parts)) with (part +:+ (separator +:+ join separator (part' :: parts)))%string.
  rewrite !bytes_len_app, IH. cbn [fmap list_fmap total foldr List.length]. lia.
Qed.

Lemma parts_total wrap parts :
  total (part_bytes wrap <$> parts) =
  total (bytes_len <$> (if wrap then (λ part, ("(" +:+ part +:+ ")")%string) <$> parts else parts)).
Proof.
  unfold total. induction parts as [|part parts IH]; [by destruct wrap|]. destruct wrap; cbn in *; rewrite IH; unfold part_bytes; [|lia].
  change (String "(" (part +:+ ")")) with ("(" +:+ (part +:+ ")"))%string.
  rewrite !bytes_len_app. change (bytes_len "(") with 1%N. change (bytes_len ")") with 1%N. lia.
Qed.

Lemma joined_batch_len prefix batch part separator wrap :
  bytes_len (mysql_joined_batch_statement prefix (batch ++ [part]) separator wrap) =
  joined_batch_sql_len prefix batch part separator wrap.
Proof.
  unfold mysql_joined_batch_statement. rewrite !bytes_len_app. change (bytes_len ";") with 1%N.
  destruct batch as [|first others].
  { cbn [app List.length]. rewrite bool_decide_eq_true_2 by done. unfold join. cbn [orb String.concat joined_batch_sql_len]. lia. }
  assert (bool_decide (List.length ((first :: others) ++ [part]) = 1) = false) as ->.
  { apply bool_decide_eq_false. rewrite length_app. cbn. lia. }
  cbn [orb]. unfold joined_batch_sql_len.
  assert (Hbody : bytes_len (if negb wrap then join separator ((first :: others) ++ [part])
      else join separator ((λ part, ("(" +:+ part +:+ ")")%string) <$> (first :: others) ++ [part])) =
    (total (part_bytes wrap <$> (first :: others)) + part_bytes wrap part + bytes_len separator * N.of_nat (List.length (first :: others)))%N).
  { pose proof (parts_total wrap ((first :: others) ++ [part])) as Ht. rewrite fmap_app, bytes_total_app in Ht.
    cbn [fmap list_fmap total foldr] in Ht. rewrite N.add_0_r in Ht.
    destruct wrap; cbn [negb]; rewrite bytes_len_join, ?length_fmap, length_app; rewrite <- Ht;
      cbn [List.length fmap list_fmap total foldr]; lia. }
  rewrite Hbody. fold (total (part_bytes wrap <$> first :: others)).
  destruct (bool_decide (others = [])) eqn:Ho; cbn [andb]; [|cbn [List.length]; lia].
  apply bool_decide_eq_true in Ho as ->. destruct wrap; cbn; unfold part_bytes; lia.
Qed.

(** ** The batches *)

(** A batch of at most 500 parts, whose statement is at most 256 KiB unless it
    holds a single one. *)
Definition bounded (prefix separator : string) (wrap : bool) (batch : list string) : Prop :=
  batch ≠ [] ∧ List.length batch ≤ MYSQL_DATA_GRID_BATCH_MAX_ROWS ∧
  (List.length batch = 1 ∨
   (bytes_len (mysql_joined_batch_statement prefix batch separator wrap) ≤ MYSQL_DATA_GRID_BATCH_TARGET_SQL_BYTES)%N).

Lemma batch_loop_batches prefix separator wrap parts batch :
  (batch = [] ∨ bounded prefix separator wrap batch) →
  ∃ batches, mysql_batch_loop prefix separator wrap parts batch =
             (λ b, mysql_joined_batch_statement prefix b separator wrap) <$> batches ∧
             List.concat batches = batch ++ parts ∧ Forall (bounded prefix separator wrap) batches.
Proof.
  revert batch. induction parts as [|part parts IH]; intros batch Hb; cbn [mysql_batch_loop].
  { destruct batch as [|first others]; [by exists []|]. exists [first :: others]. cbn. rewrite app_nil_r.
    split_and!; [done | done |]. constructor; [|constructor]. by destruct Hb. }
  destruct (starts_batch prefix batch part separator wrap) eqn:Hs.
  - destruct (IH [part]) as (batches & -> & Hc & HF).
    { right. split; [done|]. split; [unfold MYSQL_DATA_GRID_BATCH_MAX_ROWS; cbn; lia | by left]. }
    exists (batch :: batches). cbn. rewrite Hc. split_and!; [done | done |]. constructor; [|done].
    destruct Hb as [->|Hb]; [done | exact Hb].
  - destruct (IH (batch ++ [part])) as (batches & -> & Hc & HF).
    { right. split; [by destruct batch|]. unfold starts_batch in Hs. destruct batch as [|first others].
      { split; [unfold MYSQL_DATA_GRID_BATCH_MAX_ROWS; cbn; lia | by left]. }
      cbn [bool_decide negb andb] in Hs. rewrite bool_decide_eq_false_2 in Hs by done.
      apply orb_false_elim in Hs as [Hn%Nat.leb_gt Hl%N.ltb_ge]. rewrite length_app. split; [cbn in *; lia|].
      right. by rewrite joined_batch_len. }
    exists batches. rewrite Hc, <- app_assoc. by split_and!.
Qed.

Lemma joined_batches_partition prefix separator wrap parts :
  ∃ batches, mysql_joined_batches prefix parts separator wrap =
             (λ b, mysql_joined_batch_statement prefix b separator wrap) <$> batches ∧
             List.concat batches = parts ∧ Forall (bounded prefix separator wrap) batches.
Proof. apply (batch_loop_batches prefix separator wrap parts []). by left. Qed.
