(* ===== verification/GridStores.v ===== *)
(** * Saving to Neo4j and TDengine (data_grid_neo4j_sql.rs, data_grid_tdengine_sql.rs)

    The statements of a save and of its undoing for the two stores that do not take
    the relational ones, and what TDengine's rows must have. *)
From S2P Require Import Prelude RustStr Json F64 SqlText AgentContext GridTypes SqlIdent SqlTemporal GridLiteral GridRows.

Section Stores.
Context `{JsonPrinter, Chrono, JsonNumbers, PercentDecoder}.
Variable o : DataGridSaveStatementOptions.

Definition quote_ident (database_type : option DatabaseType) (name : string) : string :=
  quote_table_identifier database_type name.

(** [f] of the rows that are there. *)
Fixpoint for_rows (l : list nat) (f : list Value → option (list string)) : option (list string) :=
  match l with
  | [] => Some []
  | row_index :: l' =>
      match rows o !! row_index with
      | None => for_rows l' f
      | Some row => statements ← f row; rest ← for_rows l' f; Some (statements ++ rest)
      end
  end.
Fixpoint for_changes (l : list (nat * list (nat * Value)))
    (f : list Value → list (nat * Value) → option (list string)) : option (list string) :=
  match l with
  | [] => Some []
  | (row_index, changes) :: l' =>
      match rows o !! row_index with
      | None => for_changes l' f
      | Some row => statements ← f row changes; rest ← for_changes l' f; Some (statements ++ rest)
      end
  end.
Definition for_all (l : list (list Value)) (f : list Value → option (list string)) : option (list string) :=
  @List.concat string <$> mapM f l.

(** ** Neo4j *)

Definition neo4j_literal (value : Value) : option string := format_grid_sql_literal value (Some Neo4j) None.
Definition is_element_id (column : string) : bool := is_neo4j_element_id (Some Neo4j) (Some column).
Definition neo4j_label : string := quote_ident (Some Neo4j) (table_name (table_meta o)).

Definition neo4j_element_id_predicate (columns : list string) (row : list Value) : option string :=
  let value := default Null (position (λ column, String.eqb column DBX_NEO4J_ELEMENT_ID_COLUMN) columns ≫= λ i, row !! i) in
  literal ← neo4j_literal value; Some ("elementId(n) = " +:+ literal)%string.

(** The columns and cells of a row, without the element id. *)
Definition neo4j_cells (row : list Value) : list (string * Value) :=
  imap (λ index column, (column, default Null (row !! index))) (grid_columns o).

Definition neo4j_row_property_where (row : list Value) : option string :=
  joined " AND "
    (λ p, let ident := ("n." +:+ quote_ident (Some Neo4j) p.1)%string in
          if bool_decide (p.2 = Null) then Some (ident +:+ " IS NULL")%string
          else literal ← neo4j_literal p.2; Some (ident +:+ " = " +:+ literal)%string)
    (List.filter (λ p, negb (is_element_id p.1)) (neo4j_cells row)).

Definition neo4j_props (row : list Value) : option string :=
  joined ", "
    (λ p, literal ← neo4j_literal p.2; Some (quote_ident (Some Neo4j) p.1 +:+ ": " +:+ literal)%string)
    (List.filter (λ p, negb (is_element_id p.1) && negb (bool_decide (p.2 = Null))) (neo4j_cells row)).

Definition neo4j_create (row : list Value) : option (list string) :=
  props ← neo4j_props row;
  Some [if is_empty props then ("CREATE (n:" +:+ neo4j_label +:+ ");")%string
        else ("CREATE (n:" +:+ neo4j_label +:+ " " +:+ lbrace +:+ props +:+ rbrace +:+ ");")%string].

Definition neo4j_delete (row : list Value) : option (list string) :=
  predicate ← neo4j_element_id_predicate (grid_columns o) row;
  Some [("MATCH (n:" +:+ neo4j_label +:+ ") WHERE " +:+ predicate +:+ " DETACH DELETE n;")%string].

(** The changed columns that have a name, with the value that is written. *)
Definition neo4j_changes (value : nat * Value → Value) (changes : list (nat * Value)) : list (string * Value) :=
  omap (λ change : nat * Value,
    column ← grid_columns o !! change.1;
    if is_element_id column then None else Some (column, value change)) changes.
Definition neo4j_set (value : nat * Value → Value) (row : list Value) (changes : list (nat * Value)) : option (list string) :=
  sets ← joined ", "
    (λ p, literal ← neo4j_literal p.2; Some ("n." +:+ quote_ident (Some Neo4j) p.1 +:+ " = " +:+ literal)%string)
    (neo4j_changes value changes);
  if is_empty sets then Some []
  else predicate ← neo4j_element_id_predicate (grid_columns o) row;
       Some [("MATCH (n:" +:+ neo4j_label +:+ ") WHERE " +:+ predicate +:+ " SET " +:+ sets +:+ ";")%string].

Definition build_neo4j_data_grid_save_statements : option (list string) :=
  updates ← for_changes (dirty_rows o) (λ row changes, neo4j_set snd row changes);
  deletes ← for_rows (deleted_rows o) neo4j_delete;
  inserts ← for_all (new_rows o) neo4j_create;
  Some (updates ++ deletes ++ inserts).

Definition neo4j_delete_matching (row : list Value) : option (list string) :=
  where_clause ← neo4j_row_property_where row;
  Some [if is_empty where_clause then ("MATCH (n:" +:+ neo4j_label +:+ ") DETACH DELETE n;")%string
        else ("MATCH (n:" +:+ neo4j_label +:+ ") WHERE " +:+ where_clause +:+ " DETACH DELETE n;")%string].

Definition build_neo4j_data_grid_rollback_statements : option (list string) :=
  deletes ← for_all (new_rows o) neo4j_delete_matching;
  inserts ← for_rows (deleted_rows o) neo4j_create;
  updates ← for_changes (dirty_rows o) (λ row changes, neo4j_set (λ change, default Null (row !! change.1)) row changes);
  Some (deletes ++ inserts ++ updates).

(** ** TDengine *)

Definition is_tbname (column : string) : bool := eq_ignore_ascii_case column DBX_TDENGINE_TBNAME_COLUMN.
Definition requires_tbname : bool := existsb is_tbname (primary_keys (table_meta o)).

Definition tdengine_row_primary_keys : list string :=
  List.filter (λ primary_key, negb (is_tbname primary_key)) (primary_keys (table_meta o)).
Definition has_tdengine_composite_primary_key : bool := 1 <? List.length tdengine_row_primary_keys.

Definition tdengine_row_identity_error : string :=
  "TDengine row editing requires all row identifier columns in the result.".
Definition tdengine_row_identity_readonly_error : string := "TDengine row identifier columns cannot be edited.".
Definition tdengine_composite_key_delete_error : string := "TDengine tables with composite keys do not support row deletion.".
Definition tdengine_insert_identity_error : string := "TDengine STABLE inserts require a child table name (tbname).".

Definition named_tbname (column : option string) : bool :=
  match column with Some column => is_tbname column | None => false end.

Definition tdengine_tbname_value (save_columns : list (option string)) (row : list Value) : option string :=
  index ← position named_tbname save_columns;
  value ← row !! index;
  match value with
  | Null => None
  | VString value => Some value
  | _ => Some (value_to_string value)
  end.
Definition tbname_missing (save_columns : list (option string)) (row : list Value) : bool :=
  match tdengine_tbname_value save_columns row with Some tbname => is_empty (trim tbname) | None => true end.

Definition tdengine_tag_columns (columns : option (list DataGridColumnInfo)) : list string :=
  (λ column, to_ascii_lowercase (ci_name column)) <$>
  List.filter (λ column, contains (to_ascii_lowercase (default "" (extra column))) "tag") (default [] columns).

Definition tdengine_can_insert_column (column table_name : string) (tbname : option string) (tag_columns : list string) : bool :=
  let normalized := to_ascii_lowercase column in
  let target_is_child_table := match tbname with Some tbname => String.eqb tbname table_name | None => true end in
  if negb target_is_child_table then true
  else if String.eqb normalized DBX_TDENGINE_TBNAME_COLUMN then false
  else negb (bool_decide (normalized ∈ tag_columns)).

Definition build_tdengine_insert_statement (save_columns : list (option string)) (row : list Value) : option (list string) :=
  let tbname := tdengine_tbname_value save_columns row in
  let table := qualified_table_name (Some Tdengine) (schema (table_meta o)) (table_name (table_meta o)) in
  let tag_columns := tdengine_tag_columns (meta_columns (table_meta o)) in
  let insert_pairs :=
    List.filter (λ p, tdengine_can_insert_column p.1 (table_name (table_meta o)) tbname tag_columns)
      (List.filter (λ p, negb (bool_decide (p.2 = Null))) (present_columns save_columns row)) in
  if bool_decide (insert_pairs = []) then Some []
  else
    let columns := join ", " ((λ p : string * Value, quote_ident (Some Tdengine) p.1) <$> insert_pairs) in
    values ← joined ", " (λ p, format_grid_sql_literal p.2 (Some Tdengine) None) insert_pairs;
    Some [("INSERT INTO " +:+ table +:+ " (" +:+ columns +:+ ") VALUES (" +:+ values +:+ ");")%string].

Definition build_tdengine_delete_statement (save_columns : list (option string)) (row : list Value) : option (list string) :=
  if has_tdengine_composite_primary_key then Some []
  else
    let table_name := default (table_name (table_meta o)) (tdengine_tbname_value save_columns row) in
    where_clause ← build_primary_key_where (Some Tdengine) tdengine_row_primary_keys save_columns row
                     (columns_of (table_meta o)) None;
    if is_empty where_clause then Some []
    else
      let table := qualified_table_name (Some Tdengine) (schema (table_meta o)) table_name in
      Some [data_grid_statement (Some Tdengine) (data_grid_delete_sql (Some Tdengine) table where_clause)].

Definition build_tdengine_data_grid_save_statements : option (list string) :=
  let save_columns := effective_columns o in
  let has_tbname := existsb named_tbname save_columns in
  updates ← (if has_tbname || negb requires_tbname
             then for_changes (dirty_rows o) (λ row changes, build_tdengine_insert_statement save_columns (changed_row row changes))
             else Some []);
  deletes ← for_rows (deleted_rows o) (build_tdengine_delete_statement save_columns);
  inserts ← for_all (new_rows o) (build_tdengine_insert_statement save_columns);
  Some (updates ++ deletes ++ inserts).

Definition build_tdengine_data_grid_rollback_statements : option (list string) :=
  if has_tdengine_composite_primary_key && negb (bool_decide (new_rows o = [])) then Some []
  else
    let save_columns := effective_columns o in
    deletes ← for_all (new_rows o) (build_tdengine_delete_statement save_columns);
    inserts ← for_rows (deleted_rows o) (build_tdengine_insert_statement save_columns);
    updates ← for_changes (dirty_rows o) (λ row _, build_tdengine_insert_statement save_columns row);
    Some (deletes ++ inserts ++ updates).

Definition validate_tdengine_inserted_rows : option string :=
  if bool_decide (database_type o ≠ Some Tdengine) || bool_decide (new_rows o = []) then None
  else if negb requires_tbname then None
  else if existsb (tbname_missing (effective_columns o)) (new_rows o) then Some tdengine_insert_identity_error
  else None.

(** The first of the rows named that is not there or has no identity. *)
Fixpoint tdengine_identity_loop (save_columns : list (option string)) (l : list nat) : option string :=
  match l with
  | [] => None
  | row_index :: l' =>
      match rows o !! row_index with
      | None => Some tdengine_row_identity_error
      | Some row =>
          if (requires_tbname && tbname_missing save_columns row)
             || existsb (λ primary_key,
                  bool_decide (primary_key_value (database_type o) save_columns row primary_key = Null))
                  tdengine_row_primary_keys
          then Some tdengine_row_identity_error
          else tdengine_identity_loop save_columns l'
      end
  end.

Definition validate_tdengine_existing_rows : option string :=
  if bool_decide (database_type o ≠ Some Tdengine) || (bool_decide (deleted_rows o = []) && bool_decide (dirty_rows o = []))
  then None
  else if has_tdengine_composite_primary_key && negb (bool_decide (deleted_rows o = []))
  then Some tdengine_composite_key_delete_error
  else
    let save_columns := effective_columns o in
    if (requires_tbname && negb (existsb named_tbname save_columns))
       || bool_decide (tdengine_row_primary_keys = [])
       || existsb (λ primary_key, bool_decide (find_column_index (database_type o) save_columns primary_key = None))
            tdengine_row_primary_keys
    then Some tdengine_row_identity_error
    else if existsb (λ dirty : nat * list (nat * Value),
              existsb (λ change : nat * Value,
                match save_columns !! change.1 with
                | Some (Some column) => existsb (λ primary_key, eq_ignore_ascii_case primary_key column) (primary_keys (table_meta o))
                | _ => false
                end) dirty.2) (dirty_rows o)
    then Some tdengine_row_identity_readonly_error
    else tdengine_identity_loop save_columns (deleted_rows o ++ (dirty_rows o).*1).
End Stores.
