(* ===== verification/GridSave.v ===== *)
(** * Saving the data grid (data_grid_sql.rs)

    What a save refuses, the statements it runs and the statements that undo them,
    with MySQL's statements put together in batches. [None] is a panic. *)
From S2P Require Import Prelude RustStr Json F64 SqlText AgentContext GridTypes SqlIdent SqlTemporal GridLiteral GridRows GridBatch GridStores.

(** ** What a save refuses *)

Definition null_write_error (column : string) : string :=
  ("Column " +:+ dquote +:+ column +:+ dquote +:+ " does not allow NULL.")%string.
Definition clickhouse_no_mutable_columns_error : string :=
  "ClickHouse primary or partition key columns cannot be updated. Change a non-key column before saving.".

Definition is_null_write_to_not_null_column (database_type : option DatabaseType) (not_null_columns : list string)
    (column : option string) (value : Value) : bool :=
  match column with
  | None => false
  | Some column =>
      if is_oracle_row_id database_type (Some column) || is_neo4j_element_id database_type (Some column) then false
      else bool_decide (value = Null) && bool_decide (normalize_column_name column ∈ not_null_columns)
  end.

Definition grid_value_is_empty (value : Value) : bool := bool_decide (value = Null) || bool_decide (as_str value = Some "").

(** [slice.get(i).and_then(|c| c.as_deref())]. *)
Definition column_at (columns : list (option string)) (index : nat) : option string := mjoin (columns !! index).

Section Save.
Context `{JsonPrinter, Chrono, JsonNumbers, PercentDecoder}.
Variable o : DataGridSaveStatementOptions.
Abbreviation d := (database_type o).
Abbreviation q := (identifier_quote o).
Abbreviation column_info := (columns_of (table_meta o)).
Abbreviation keys := (primary_keys (table_meta o)).
Abbreviation save_columns := (effective_columns o).

Definition format_key_value_for_message (value : Value) : string :=
  match value with
  | Null => "NULL"
  | VString value => (dquote +:+ replace_char (ascii_of_nat 34) (backslash +:+ dquote) value +:+ dquote)%string
  | _ => value_to_string value
  end.

Definition primary_key_value_key (primary_key_indexes : list nat) (row : list Value) : option string :=
  let values := (λ index, default Null (row !! index)) <$> primary_key_indexes in
  if existsb (λ value, bool_decide (value = Null)) values then None else result_ok (to_json (Array values)).

Definition duplicate_primary_key_error (primary_key_indexes : list nat) (row : list Value) (matches_existing_row : bool) : string :=
  let key_summary :=
    join ", " (zip_with (λ primary_key index,
      (primary_key +:+ " = " +:+ format_key_value_for_message (default Null (row !! index)))%string) keys primary_key_indexes) in
  let source := if matches_existing_row then "the existing primary key" else "another new row's primary key" in
  ("New row duplicates " +:+ source +:+ " (" +:+ key_summary +:+ "). Change the key before saving.")%string.

Definition primary_key_indexes : list (option nat) := find_column_index d save_columns <$> keys.

Fixpoint inserted_key_loop (indexes : list nat) (existing_keys new_keys : list string) (l : list (list Value)) : option string :=
  match l with
  | [] => None
  | row :: l' =>
      match primary_key_value_key indexes row with
      | None => inserted_key_loop indexes existing_keys new_keys l'
      | Some key =>
          if bool_decide (key ∈ existing_keys) || bool_decide (key ∈ new_keys)
          then Some (duplicate_primary_key_error indexes row (bool_decide (key ∈ existing_keys)))
          else inserted_key_loop indexes existing_keys (new_keys ++ [key]) l'
      end
  end.

Definition validate_inserted_primary_keys : option string :=
  if bool_decide (keys = []) || bool_decide (new_rows o = []) then None
  else match mapM (λ index, index) primary_key_indexes with
       | None => None
       | Some indexes =>
           let existing_keys := omap (primary_key_value_key indexes) (rows o) in
           inserted_key_loop indexes existing_keys [] (new_rows o)
       end.

Fixpoint existing_key_loop (indexes : list nat) (l : list nat) : option string :=
  match l with
  | [] => None
  | row_index :: l' =>
      match rows o !! row_index with
      | None => existing_key_loop indexes l'
      | Some row =>
          match List.find (λ p : string * nat, bool_decide (default Null (row !! p.2) = Null)) (zip keys indexes) with
          | Some (primary_key, _) =>
              Some ("Cannot safely update or delete rows because primary key column " +:+ dquote +:+ primary_key +:+ dquote +:+
                    " has no value in the query result. Refresh or rerun the query before saving.")%string
          | None => existing_key_loop indexes l'
          end
      end
  end.

Definition validate_existing_row_primary_keys : option string :=
  if bool_decide (keys = []) || (bool_decide (dirty_rows o = []) && bool_decide (deleted_rows o = [])) then None
  else
    let missing_primary_keys :=
      omap (λ p : string * option nat, match p.2 with None => Some p.1 | Some _ => None end) (zip keys primary_key_indexes) in
    if negb (bool_decide (missing_primary_keys = [])) then
      Some ("Cannot safely update or delete rows because the query result does not include every primary key column (missing: "
            +:+ join ", " missing_primary_keys +:+ "). Refresh or rerun the query before saving.")%string
    else existing_key_loop (omap (λ index, index) primary_key_indexes) ((dirty_rows o).*1 ++ deleted_rows o).

Definition validate_oracle_keyless_lob_predicate : option string :=
  if negb (uses_oracle_row_id d) || negb (bool_decide (keys = []))
     || (bool_decide (dirty_rows o = []) && bool_decide (deleted_rows o = [])) then None
  else if negb (existsb (λ column, is_oracle_lob_type (data_type column)) column_info) then None
  else Some ("Cannot safely update or delete this Oracle-compatible row because the table has LOB columns but no primary key "
             +:+ "or ROWID identifier.")%string.

Definition primary_key_set : list string := normalize_column_name <$> keys.

Definition has_mutable_column (changes : list (nat * Value)) : bool :=
  existsb (λ change : nat * Value,
    match column_at save_columns change.1 with
    | None => false
    | Some column =>
        negb (is_grid_update_omitted_column d (column_info_for column_info column) (Some column) primary_key_set)
    end) changes.
Definition validate_clickhouse_mutable_updates : option string :=
  if bool_decide (d ≠ Some ClickHouse) || bool_decide (dirty_rows o = []) then None
  else
    let has_clickhouse_key_metadata :=
      negb (bool_decide (primary_key_set = []))
      || existsb (λ column, is_clickhouse_partition_key_column d (Some column)) column_info in
    if negb has_clickhouse_key_metadata then None
    else if existsb (λ dirty : nat * list (nat * Value),
              negb (bool_decide (dirty.2 = [])) && negb (has_mutable_column dirty.2)) (dirty_rows o)
    then Some clickhouse_no_mutable_columns_error
    else None.

Definition not_null_columns : list string :=
  (λ column, normalize_column_name (ci_name column)) <$>
  List.filter (λ column,
    negb (is_nullable column) && bool_decide (column_default column = None) && negb (is_auto_generated_column column)
    && negb (is_non_identity_generated_column (Some column)) && negb (is_oracle_row_id d (Some (ci_name column)))) column_info.

(** The first of the cells that writes NULL where it is not allowed. *)
Definition null_write (cells : list (option string * Value)) : option string :=
  (λ cell : option string * Value, null_write_error (default "" cell.1)) <$>
  List.find (λ cell : option string * Value, is_null_write_to_not_null_column d not_null_columns cell.1 cell.2) cells.

Definition dirty_cells : list (option string * Value) :=
  List.concat ((λ dirty : nat * list (nat * Value),
    (λ change : nat * Value, (column_at save_columns change.1, change.2)) <$> dirty.2) <$> dirty_rows o).
Definition new_cells : list (option string * Value) :=
  List.concat ((λ row : list Value,
    (λ index, (column_at save_columns index, default Null (row !! index))) <$> seq 0 (List.length (grid_columns o))) <$> new_rows o).

Definition validate_null_writes : option string :=
  if bool_decide (not_null_columns = []) then None
  else match null_write dirty_cells with
       | Some error => Some error
       | None => if bool_decide (d ≠ Some Mysql) then null_write new_cells else None
       end.

(** The first that refuses. *)
Fixpoint first_error (l : list (option string)) : option string :=
  match l with [] => None | Some error :: _ => Some error | None :: l' => first_error l' end.
Definition validate_data_grid_save : option string :=
  first_error [validate_tdengine_inserted_rows o; validate_inserted_primary_keys; validate_tdengine_existing_rows o;
               validate_existing_row_primary_keys; validate_oracle_keyless_lob_predicate;
               validate_clickhouse_mutable_updates; validate_null_writes].

(** ** The statements of a save *)

Definition supports_mysql_data_grid_batch : bool := bool_decide (d = Some Mysql) && negb (bool_decide (keys = [])).

Definition table : string :=
  data_grid_qualified_table_name d (catalog (table_meta o)) (schema (table_meta o)) (database (table_meta o))
    (table_name (table_meta o)) q.

Definition row_where (row : list Value) : option string :=
  build_primary_key_where d keys save_columns row column_info q.

(** The columns a change writes, with the value of each. *)
Definition written_changes (key_set : list string) (changes : list (nat * Value)) : list (string * (nat * Value)) :=
  omap (λ change : nat * Value,
    column ← column_at save_columns change.1;
    if is_grid_update_omitted_column d (column_info_for column_info column) (Some column) key_set then None
    else Some (column, change)) changes.
Definition update_sets (changes : list (nat * Value)) : option string :=
  joined ", "
    (λ p : string * (nat * Value),
      literal ← format_grid_save_sql_literal p.2.2 d (column_info_for column_info p.1);
      Some (data_grid_identifier d p.1 q +:+ " = " +:+ literal)%string)
    (written_changes primary_key_set changes).

Definition update_batches (sets : string) (predicates : list string) : list string :=
  mysql_predicate_batches ("UPDATE " +:+ table +:+ " SET " +:+ sets +:+ " WHERE ")%string predicates.

(** The updates left, with the assignments and the predicates of the batch so far. *)
Fixpoint update_loop (l : list (nat * list (nat * Value))) (pending : option string) (predicates : list string) :
    option (list string) :=
  match l with
  | [] => Some (match pending with Some sets => update_batches sets predicates | None => [] end)
  | (row_index, changes) :: l' =>
      match rows o !! row_index with
      | None => update_loop l' pending predicates
      | Some row =>
          sets ← update_sets changes;
          if is_empty sets then update_loop l' pending predicates
          else
            where_clause ← row_where row;
            if supports_mysql_data_grid_batch then
              match pending with
              | Some current =>
                  if String.eqb current sets then update_loop l' (Some sets) (predicates ++ [where_clause])
                  else rest ← update_loop l' (Some sets) [where_clause]; Some (update_batches current predicates ++ rest)
              | None => update_loop l' (Some sets) (predicates ++ [where_clause])
              end
            else
              rest ← update_loop l' pending predicates;
              Some (data_grid_statement d (data_grid_update_sql d table sets where_clause) :: rest)
      end
  end.

Definition delete_statements : option (list string) :=
  predicates ← mapM row_where (omap (λ row_index, rows o !! row_index) (deleted_rows o));
  Some (if supports_mysql_data_grid_batch
        then match predicates with
             | [] => []
             | _ => mysql_predicate_batches ("DELETE FROM " +:+ table +:+ " WHERE ")%string predicates
             end
        else (λ where_clause, data_grid_statement d (data_grid_delete_sql d table where_clause)) <$> predicates).

Definition build_hive_values_insert (row : list Value) (save_literals skip_all_null : bool) : option (option string) :=
  let target_columns := if bool_decide (column_info = []) then omap (λ column, column) save_columns else ci_name <$> column_info in
  if bool_decide (target_columns = []) then Some None
  else
    let values := (λ column, (column, primary_key_value (Some Hive) save_columns row column)) <$> target_columns in
    if skip_all_null && forallb (λ p : string * Value, bool_decide (p.2 = Null)) values then Some None
    else
      values ← joined ", "
        (λ p : string * Value,
          let info := column_info_for column_info p.1 in
          if save_literals then format_grid_save_sql_literal p.2 d info else format_grid_sql_literal p.2 d info) values;
      Some (Some ("INSERT INTO TABLE " +:+ table +:+ " VALUES (" +:+ values +:+ ")")%string).
Definition hive_insert (row : list Value) (save_literals skip_all_null : bool) : option (list string) :=
  statement ← build_hive_values_insert row save_literals skip_all_null;
  Some (match statement with Some statement => [data_grid_statement d statement] | None => [] end).

(** The columns and values of a new row. *)
Definition insert_pairs (row : list Value) : list (string * Value) :=
  List.filter (λ p, negb (bool_decide (p.2 = Null)))
    (List.filter (λ p, negb (is_grid_insert_omitted_column d (column_info_for column_info p.1) (Some p.1) false))
       (List.filter (λ p,
          negb (match column_info_for column_info p.1 with Some column => is_auto_generated_column column | None => false end)
          || negb (grid_value_is_empty p.2)) (present_columns save_columns row))).

Definition pairs_columns (pairs : list (string * Value)) : string :=
  join ", " ((λ p : string * Value, data_grid_identifier d p.1 q) <$> pairs).
Definition insert_statement (row : list Value) : option (list string) :=
  if bool_decide (d = Some Hive) then hive_insert row true true
  else
    match insert_pairs row with
    | [] =>
        Some (if bool_decide (d = Some Mysql)
              then [data_grid_statement d ("INSERT INTO " +:+ table +:+ " () VALUES ()")%string] else [])
    | pairs =>
        values ← joined ", " (λ p : string * Value, format_grid_save_sql_literal p.2 d (column_info_for column_info p.1)) pairs;
        Some [data_grid_statement d
                ("INSERT INTO " +:+ table +:+ " (" +:+ pairs_columns pairs +:+ ") VALUES (" +:+ values +:+ ")")%string]
    end.

Definition build_data_grid_save_statements : option (list string) :=
  if bool_decide (d = Some Neo4j) then build_neo4j_data_grid_save_statements o
  else if bool_decide (d = Some Tdengine) then build_tdengine_data_grid_save_statements o
  else
    updates ← update_loop (dirty_rows o) None [];
    deletes ← delete_statements;
    inserts ← for_all (new_rows o) insert_statement;
    Some (updates ++ deletes ++ inserts).

(** ** The statements that undo a save *)

(** The predicate that finds a row MySQL has inserted; none where a key is made by
    the database. *)
Definition mysql_key_unknown (row : list Value) (primary_key : string) : bool :=
  match position (λ column, bool_decide (column = Some primary_key)) save_columns with
  | None => true
  | Some index =>
      let value := default Null (row !! index) in
      let info := column_info_for column_info primary_key in
      bool_decide (value = Null) || empty_string_saves_as_null value info
      || match info with Some column => is_auto_generated_column column | None => false end
      || match info with Some column => is_non_identity_generated_column (Some column) | None => false end
  end.
Definition build_mysql_insert_rollback_where (row : list Value) : option (option string) :=
  if bool_decide (keys = []) then Some None
  else if existsb (mysql_key_unknown row) keys then Some None
  else Some <$> row_where row.

Definition undo_insert (row : list Value) : option (list string) :=
  where_clause ←
    (if bool_decide (d = Some Mysql) then build_mysql_insert_rollback_where row
     else where_clause ← build_save_row_where d save_columns row column_info q;
          Some (if is_empty where_clause then None else Some where_clause));
  Some (match where_clause with
        | Some where_clause => [data_grid_statement d ("DELETE FROM " +:+ table +:+ " WHERE " +:+ where_clause)%string]
        | None => []
        end).

(** A deleted row that is inserted again: its columns and its values. *)
Definition reinserted (row : list Value) : option (string * string) :=
  let pairs :=
    List.filter (λ p, negb (is_grid_insert_omitted_column d (column_info_for column_info p.1) (Some p.1) false))
      (present_columns save_columns row) in
  values ← joined ", " (λ p : string * Value, format_grid_sql_literal p.2 d (column_info_for column_info p.1)) pairs;
  Some (pairs_columns pairs, values).

Definition insert_batches (columns : string) (tuples : list string) : list string :=
  mysql_values_insert_batches table columns tuples.
Fixpoint reinsert_loop (l : list nat) (pending : option string) (tuples : list string) : option (list string) :=
  match l with
  | [] => Some (match pending with Some columns => insert_batches columns tuples | None => [] end)
  | row_index :: l' =>
      match rows o !! row_index with
      | None => reinsert_loop l' pending tuples
      | Some row =>
          if bool_decide (d = Some Hive) then
            statements ← hive_insert row false false;
            rest ← reinsert_loop l' pending tuples;
            Some (statements ++ rest)
          else
            '(columns, values) ← reinserted row;
            if supports_mysql_data_grid_batch then
              let tuple := ("(" +:+ values +:+ ")")%string in
              match pending with
              | Some current =>
                  if String.eqb current columns then reinsert_loop l' (Some columns) (tuples ++ [tuple])
                  else rest ← reinsert_loop l' (Some columns) [tuple]; Some (insert_batches current tuples ++ rest)
              | None => reinsert_loop l' (Some columns) (tuples ++ [tuple])
              end
            else
              rest ← reinsert_loop l' pending tuples;
              Some (data_grid_statement d
                      ("INSERT INTO " +:+ table +:+ " (" +:+ columns +:+ ") VALUES (" +:+ values +:+ ")")%string :: rest)
      end
  end.

Definition undo_update (row : list Value) (changes : list (nat * Value)) : option (list string) :=
  let after_row := changed_row row changes in
  let writable_changes := written_changes [] changes in
  sets ← joined ", "
    (λ p : string * (nat * Value),
      literal ← format_grid_sql_literal (default Null (row !! p.2.1)) d (column_info_for column_info p.1);
      Some (data_grid_identifier d p.1 q +:+ " = " +:+ literal)%string) writable_changes;
  if is_empty sets then Some []
  else
    first ← build_primary_key_where d keys save_columns after_row column_info q;
    others ← mapM (λ p : string * (nat * Value),
      build_save_column_predicate d p.1 p.2.2 (column_info_for column_info p.1) true q) writable_changes;
    let predicates := List.filter (λ part, negb (is_empty part)) (first :: others) in
    Some [data_grid_statement d
            ("UPDATE " +:+ table +:+ " SET " +:+ sets +:+ " WHERE " +:+ join " AND " predicates)%string].

Definition build_data_grid_rollback_statements : option (list string) :=
  if bool_decide (d = Some Neo4j) then build_neo4j_data_grid_rollback_statements o
  else if bool_decide (d = Some Tdengine) then build_tdengine_data_grid_rollback_statements o
  else if bool_decide (d = Some ClickHouse) then Some []
  else
    deletes ← for_all (new_rows o) undo_insert;
    inserts ← reinsert_loop (deleted_rows o) None [];
    updates ← for_changes o (dirty_rows o) undo_update;
    Some (deletes ++ inserts ++ updates).

(** ** The preparation *)

Definition data_grid_save_execution_schema : option string :=
  match d with Some (Neo4j | Oracle) => None | _ => schema (table_meta o) end.
End Save.

Record DataGridSavePreparation : Type := {
  validation_error : option string; statements : list string; rollback_statements : list string;
  execution_schema : option string
}.

Definition prepare_data_grid_save `{JsonPrinter, Chrono, JsonNumbers, PercentDecoder}
    (options : DataGridSaveStatementOptions) : option DataGridSavePreparation :=
  match validate_data_grid_save options with
  | Some error =>
      Some {| validation_error := Some error; statements := []; rollback_statements := [];
              execution_schema := data_grid_save_execution_schema options |}
  | None =>
      statements ← build_data_grid_save_statements options;
      rollback_statements ← build_data_grid_rollback_statements options;
      Some {| validation_error := None; statements := statements; rollback_statements := rollback_statements;
              execution_schema := data_grid_save_execution_schema options |}
  end.

Definition normalize_data_grid_save_error (database_type : option DatabaseType) (error : string) : string :=
  if bool_decide (database_type = Some Hive)
     && (contains error "Attempt to do update or delete" || contains error "Error 10294")
  then ("Hive UPDATE/DELETE are not enabled for this table or server. Add rows with INSERT, or enable ACID transactional "
        +:+ "tables in Hive before editing/deleting existing rows.")%string
  else error.

(** ** Rows are found by their whole key *)

Section Accepted.
Context `{JsonPrinter, Chrono, JsonNumbers, PercentDecoder}.
Variable o : DataGridSaveStatementOptions.
Abbreviation d := (database_type o).
Abbreviation q := (identifier_quote o).
Abbreviation column_info := (columns_of (table_meta o)).
Abbreviation keys := (primary_keys (table_meta o)).
Abbreviation save_columns := (effective_columns o).

Lemma accepted_validations :
  validate_data_grid_save o = None →
  validate_inserted_primary_keys o = None ∧ validate_existing_row_primary_keys o = None ∧ validate_null_writes o = None.
Proof.
  unfold validate_data_grid_save. cbn [first_error].
  destruct (validate_tdengine_inserted_rows o), (validate_inserted_primary_keys o), (validate_tdengine_existing_rows o),
    (validate_existing_row_primary_keys o), (validate_oracle_keyless_lob_predicate o),
    (validate_clickhouse_mutable_updates o), (validate_null_writes o); done.
Qed.

Lemma missing_none (ks : list string) (f : string → option nat) :
  omap (λ p : string * option nat, match p.2 with None => Some p.1 | Some _ => None end) (zip ks (f <$> ks)) = [] →
  Forall (λ k, is_Some (f k)) ks ∧
  zip ks (omap (λ index, index) (f <$> ks)) = (λ k, (k, default 0 (f k))) <$> ks.
Proof.
  induction ks as [|k ks IH]; [by split|]. cbn. destruct (f k) as [i|] eqn:Hk; [|done]. cbn. intros [HF Hz]%IH.
  split; [by constructor; [rewrite Hk; eauto|]|]. by rewrite Hz.
Qed.

Lemma existing_loop_none indexes l row_index row :
  existing_key_loop o indexes l = None → row_index ∈ l → rows o !! row_index = Some row →
  Forall (λ p : string * nat, default Null (row !! p.2) ≠ Null) (zip keys indexes).
Proof.
  induction l as [|i l IH]; intros Hl Hi Hrow; [by apply elem_of_nil in Hi|]. cbn [existing_key_loop] in Hl.
  destruct (rows o !! i) as [r|] eqn:Hr.
  - destruct (List.find _ (zip keys indexes)) as [[k i']|] eqn:Hf; [done|].
    apply elem_of_cons in Hi as [->|Hi]; [|by apply IH]. rewrite Hrow in Hr. injection Hr as ->.
    apply Forall_forall. intros p Hp Hn. apply list_elem_of_In in Hp. pose proof (List.find_none _ _ Hf p Hp) as Hp'. cbn in Hp'.
    by rewrite bool_decide_eq_true_2 in Hp'.
  - apply elem_of_cons in Hi as [->|Hi]; [congruence | by apply IH].
Qed.

Lemma accepted_keys_present row_index row :
  validate_data_grid_save o = None → row_index ∈ (dirty_rows o).*1 ++ deleted_rows o → rows o !! row_index = Some row →
  Forall (λ key, primary_key_value d save_columns row key ≠ Null) keys.
Proof.
  intros (_ & Hv & _)%accepted_validations Hi Hrow. unfold validate_existing_row_primary_keys in Hv.
  destruct (decide (keys = [])) as [->|Hk]; [constructor|]. rewrite (bool_decide_eq_false_2 (keys = [])) in Hv by done.
  assert (bool_decide (dirty_rows o = []) && bool_decide (deleted_rows o = []) = false) as Hd.
  { apply andb_false_iff. destruct (dirty_rows o); [right | by left]. destruct (deleted_rows o); [|done].
    by apply elem_of_nil in Hi. }
  rewrite Hd in Hv. cbn [orb] in Hv. unfold primary_key_indexes in Hv.
  destruct (bool_decide (omap _ _ = [])) eqn:Hm; cbn [negb] in Hv; [|done]. apply bool_decide_eq_true in Hm.
  apply missing_none in Hm as [HF Hz]. apply (existing_loop_none _ _ _ _ Hv Hi) in Hrow. rewrite Hz in Hrow.
  apply Forall_forall. intros k Hin. destruct (proj1 (Forall_forall _ _) HF k Hin) as [i Hki].
  unfold primary_key_value. rewrite Hki. apply (proj1 (Forall_forall _ _) Hrow (k, i)).
  apply list_elem_of_fmap. exists k. by rewrite Hki.
Qed.

Lemma joined_ext {A} separator (f g : A → option string) l :
  Forall (λ a, f a = g a) l → joined separator f l = joined separator g l.
Proof.
  intros Hl. unfold joined. f_equal. induction Hl as [|a l Ha Hl IH]; [done|]. cbn. by rewrite Ha, IH.
Qed.


(** ** New rows have keys of their own *)

Lemma inserted_loop_none indexes existing new l :
  inserted_key_loop o indexes existing new l = None → NoDup new →
  NoDup (new ++ omap (primary_key_value_key indexes) l) ∧
  Forall (λ key, key ∉ existing) (omap (primary_key_value_key indexes) l).
Proof.
  revert new. induction l as [|row l IH]; intros new Hl Hn; cbn in *; [by rewrite app_nil_r|].
  destruct (primary_key_value_key indexes row) as [key|] eqn:Hkey; [|by apply IH].
  destruct (bool_decide (key ∈ existing)) eqn:He; [done|]. destruct (bool_decide (key ∈ new)) eqn:Hnew; [done|].
  cbn [orb] in Hl. apply bool_decide_eq_false in He, Hnew.
  destruct (IH (new ++ [key]) Hl) as [Hnd HF].
  { apply NoDup_app. split_and!; [done | | apply NoDup_singleton]. intros x Hx ->%list_elem_of_singleton. done. }
  cbn. rewrite <- app_assoc in Hnd. split; [exact Hnd | by constructor].
Qed.

(** In a save that is accepted, the keys of the new rows are pairwise distinct and
    none of them is the key of a row of the result, where the result has every key
    column and the keys have no NULL. *)
Theorem accepted_new_keys_distinct indexes :
  validate_data_grid_save o = None → keys ≠ [] → mapM (λ index, index) (primary_key_indexes o) = Some indexes →
  NoDup (omap (primary_key_value_key indexes) (new_rows o)) ∧
  Forall (λ key, key ∉ omap (primary_key_value_key indexes) (rows o)) (omap (primary_key_value_key indexes) (new_rows o)).
Proof.
  intros (Hv & _ & _)%accepted_validations Hk Hm. unfold validate_inserted_primary_keys in Hv.
  rewrite (bool_decide_eq_false_2 (keys = [])) in Hv by done. cbn [orb] in Hv.
  destruct (bool_decide (new_rows o = [])) eqn:Hn.
  { apply bool_decide_eq_true in Hn. rewrite Hn. split; [constructor | constructor]. }
  rewrite Hm in Hv. apply (inserted_loop_none _ _ [] _ Hv). constructor.
Qed.
End Accepted.

(** ** Batches hold every row, in order *)

Section Batches.
Context `{JsonPrinter, Chrono, JsonNumbers, PercentDecoder}.
Variable o : DataGridSaveStatementOptions.

(** One write for each row: its assignments and its predicate. *)
Fixpoint update_writes (l : list (nat * list (nat * Value))) : option (list (string * string)) :=
  match l with
  | [] => Some []
  | (row_index, changes) :: l' =>
      match rows o !! row_index with
      | None => update_writes l'
      | Some row =>
          sets ← update_sets o changes;
          if is_empty sets then update_writes l'
          else where_clause ← row_where o row; rest ← update_writes l'; Some ((sets, where_clause) :: rest)
      end
  end.

Definition update_batch (g : string * list string) : string :=
  mysql_joined_batch_statement ("UPDATE " +:+ table o +:+ " SET " +:+ g.1 +:+ " WHERE ")%string g.2 " OR " true.
Definition delete_batch (g : list string) : string :=
  mysql_joined_batch_statement ("DELETE FROM " +:+ table o +:+ " WHERE ")%string g " OR " true.
Definition bounded_update (g : string * list string) : Prop :=
  bounded ("UPDATE " +:+ table o +:+ " SET " +:+ g.1 +:+ " WHERE ")%string " OR " true g.2.
Definition expand (groups : list (string * list string)) : list (string * string) :=
  List.concat ((λ g : string * list string, pair g.1 <$> g.2) <$> groups).

Lemma update_batches_groups sets predicates :
  ∃ groups, update_batches o sets predicates = update_batch <$> groups ∧ expand groups = pair sets <$> predicates ∧
            Forall bounded_update groups.
Proof.
  destruct (joined_batches_partition ("UPDATE " +:+ table o +:+ " SET " +:+ sets +:+ " WHERE ")%string " OR " true predicates)
    as (batches & Hb & Hc & HF).
  exists (pair sets <$> batches). unfold update_batches, mysql_predicate_batches. rewrite Hb, <- list_fmap_compose.
  split; [done|]. split.
  - unfold expand. rewrite <- list_fmap_compose. rewrite <- Hc. clear.
    induction batches as [|b batches IH]; [done|]. cbn. by rewrite IH, fmap_app.
  - apply Forall_fmap. exact HF.
Qed.

Lemma update_loop_groups l pending predicates stmts :
  supports_mysql_data_grid_batch o = true → (pending = None → predicates = []) →
  update_loop o l pending predicates = Some stmts →
  ∃ writes groups, update_writes l = Some writes ∧ stmts = update_batch <$> groups ∧
    expand groups = (match pending with Some sets => pair sets <$> predicates | None => [] end) ++ writes ∧
    Forall bounded_update groups.
Proof.
  intros Hs. revert pending predicates stmts.
  induction l as [|[i changes] l IH]; intros pending predicates stmts Hp; cbn [update_loop update_writes].
  - intros [= <-]. destruct pending as [sets|].
    + destruct (update_batches_groups sets predicates) as (groups & -> & He & HF). exists [], groups. rewrite He, app_nil_r. auto.
    + exists [], []. auto.
  - destruct (rows o !! i) as [row|]; [|by apply IH]. destruct (update_sets o changes) as [sets|]; [|done].
    cbn [mbind option_bind]. destruct (is_empty sets); [by apply IH|].
    destruct (row_where o row) as [w|]; [|done]. cbn [mbind option_bind]. rewrite Hs.
    assert (Hsame : ∀ ps, (match pending with Some current => current = sets | None => True end) → ps = predicates ++ [w] →
      update_loop o l (Some sets) ps = Some stmts →
      ∃ writes groups, (rest ← update_writes l; Some ((sets, w) :: rest)) = Some writes ∧ stmts = update_batch <$> groups ∧
        expand groups = (match pending with Some sets => pair sets <$> predicates | None => [] end) ++ writes ∧
        Forall bounded_update groups).
    { intros ps Hcur -> Hl. apply IH in Hl as (writes & groups & Hw & -> & He & HF); [|done].
      exists ((sets, w) :: writes), groups. rewrite Hw, He, fmap_app. cbn [mbind option_bind].
      repeat (split; [done|]). split; [|done]. rewrite <- app_assoc. f_equal.
      destruct pending as [current|]; [by subst | by rewrite (Hp eq_refl)]. }
    destruct pending as [current|]; [|by apply Hsame].
    destruct (String.eqb_spec current sets) as [->|Hne]; [by apply Hsame|].
    destruct (update_loop o l (Some sets) [w]) as [rest|] eqn:Hl; [|done]. cbn [mbind option_bind]. intros [= <-].
    apply IH in Hl as (writes & groups & Hw & -> & He & HF); [|done].
    destruct (update_batches_groups current predicates) as (groups' & -> & He' & HF').
    exists ((sets, w) :: writes), (groups' ++ groups). rewrite Hw, fmap_app. cbn [mbind option_bind].
    split; [done|]. split; [done|]. split; [|by apply Forall_app].
    unfold expand in *. rewrite fmap_app, List.concat_app, He', He. done.
Qed.

(** C6: MySQL's batches change what the rows change one by one: the statements of a
    save are updates, deletes and inserts in this order, each update and delete holds
    rows that follow each other, and read one after the other they hold exactly one
    predicate for every changed row (with its own assignments) and every deleted row,
    none lost, doubled or moved. A statement holds at most 500 rows and 256 KiB, or a
    single row. *)
Theorem mysql_save_in_batches stmts :
  supports_mysql_data_grid_batch o = true → build_data_grid_save_statements o = Some stmts →
  ∃ updates deletes inserts update_groups delete_groups,
    update_writes (dirty_rows o) = Some updates ∧
    mapM (row_where o) (omap (λ row_index, rows o !! row_index) (deleted_rows o)) = Some deletes ∧
    for_all (new_rows o) (insert_statement o) = Some inserts ∧
    stmts = (update_batch <$> update_groups) ++ (delete_batch <$> delete_groups) ++ inserts ∧
    expand update_groups = updates ∧ List.concat delete_groups = deletes ∧
    Forall bounded_update update_groups ∧
    Forall (bounded ("DELETE FROM " +:+ table o +:+ " WHERE ")%string " OR " true) delete_groups.
Proof.
  intros Hs. unfold build_data_grid_save_statements.
  assert (bool_decide (database_type o = Some Neo4j) = false ∧ bool_decide (database_type o = Some Tdengine) = false) as [-> ->].
  { unfold supports_mysql_data_grid_batch in Hs. apply andb_prop in Hs as [Hd _]. apply bool_decide_eq_true in Hd. by rewrite Hd. }
  destruct (update_loop o (dirty_rows o) None []) as [updates|] eqn:Hu; [|done].
  apply update_loop_groups in Hu as (writes & groups & Hw & -> & He & HF); [|done | done]. cbn [mbind option_bind app] in *.
  unfold delete_statements. rewrite Hs. destruct (mapM (row_where o) _) as [deletes|] eqn:Hd; [|done]. cbn [mbind option_bind].
  destruct (for_all (new_rows o) (insert_statement o)) as [inserts|]; [|done]. cbn [mbind option_bind]. intros [= <-].
  destruct (joined_batches_partition ("DELETE FROM " +:+ table o +:+ " WHERE ")%string " OR " true deletes)
    as (batches & Hb & Hc & HB).
  exists writes, deletes, inserts, groups, batches. split; [done|]. split; [done|]. split; [done|].
  split; [|done]. do 2 f_equal. destruct deletes; exact Hb.
Qed.
End Batches.

(** ** A save of three rows *)

Definition text_column (name : string) (key : bool) : DataGridColumnInfo :=
  {| ci_name := name; data_type := "varchar(20)"; is_nullable := negb key; is_primary_key := key; column_default := None;
     extra := None |}.
Definition orders_save (d : option DatabaseType) : DataGridSaveStatementOptions :=
  {| database_type := d; identifier_quote := None;
     table_meta := {| catalog := None; database := None; schema := Some "shop"; table_name := "orders"; primary_keys := ["id"];
                      meta_columns := Some [text_column "id" true; text_column "note" false] |};
     grid_columns := ["id"; "note"]; source_columns := None;
     rows := [[VString "1"; VString "a"]; [VString "2"; Null]; [VString "3"; VString "it's"]];
     dirty_rows := [(0, [(1, VString "x'; --")]); (1, [(1, VString "x'; --")])]; deleted_rows := [2];
     new_rows := [[VString "4"; Null]] |}.

Section Sample.
#[local] Instance sample_printer : JsonPrinter := plain_printer.
#[local] Instance sample_clock : Chrono := no_clock.
#[local] Instance sample_numbers : JsonNumbers := plain_numbers.
#[local] Instance sample_decoder : PercentDecoder := plain_decoder.

Example orders_statements :
  (statements <$> prepare_data_grid_save (orders_save (Some Mysql))) = Some
    ["UPDATE `shop`.`orders` SET `note` = 'x''; --' WHERE (`id` = '1') OR (`id` = '2');";
     "DELETE FROM `shop`.`orders` WHERE `id` = '3';"; "INSERT INTO `shop`.`orders` (`id`) VALUES ('4');"] ∧
  (rollback_statements <$> prepare_data_grid_save (orders_save (Some Mysql))) = Some
    ["DELETE FROM `shop`.`orders` WHERE `id` = '4';";
     "INSERT INTO `shop`.`orders` (`id`, `note`) VALUES ('3', 'it''s');";
     "UPDATE `shop`.`orders` SET `note` = 'a' WHERE `id` = '1' AND BINARY `note` = 'x''; --';";
     "UPDATE `shop`.`orders` SET `note` = NULL WHERE `id` = '2' AND BINARY `note` = 'x''; --';"].
Proof. vm_compute. done. Qed.


Lemma mysql_save_in_batches_witness :
  ∃ deletes inserts update_groups delete_groups,
    mapM (row_where (orders_save (Some Mysql))) [[VString "3"; VString "it's"]] = Some deletes ∧
    expand update_groups = [("`note` = 'x''; --'", "`id` = '1'"); ("`note` = 'x''; --'", "`id` = '2'")] ∧
    default [] (build_data_grid_save_statements (orders_save (Some Mysql))) =
      (update_batch (orders_save (Some Mysql)) <$> update_groups) ++ (delete_batch (orders_save (Some Mysql)) <$> delete_groups)
      ++ inserts.
Proof.
  destruct (mysql_save_in_batches (orders_save (Some Mysql)) (default [] (build_data_grid_save_statements (orders_save (Some Mysql)))))
    as (updates & deletes & inserts & ug & dg & Hu & Hd & _ & Hs & He & _); [vm_compute; reflexivity | vm_compute; reflexivity |].
  exists deletes, inserts, ug, dg. split; [exact Hd|]. split; [|exact Hs].
  rewrite He. apply (inj Some). rewrite <- Hu. vm_compute. reflexivity.
Defined.

(** A node created without properties is undone by deleting every node of its label. *)
Example neo4j_undo_deletes_label :
  build_data_grid_rollback_statements
    {| database_type := Some Neo4j; identifier_quote := None; table_meta := table_meta (orders_save None);
       grid_columns := [DBX_NEO4J_ELEMENT_ID_COLUMN]; source_columns := None; rows := []; dirty_rows := []; deleted_rows := [];
       new_rows := [[Null]] |} = Some ["MATCH (n:`orders`) DETACH DELETE n;"].
Proof. vm_compute. reflexivity. Qed.

(** A TDengine cell changed to NULL is not in the statement of the save. *)
Example tdengine_null_not_written :
  let o := {| database_type := Some Tdengine; identifier_quote := None;
     table_meta := {| catalog := None; database := None; schema := None; table_name := "meter"; primary_keys := ["ts"];
                      meta_columns := None |};
     grid_columns := ["ts"; "v"]; source_columns := None; rows := [[Number "1700000000000"; Number "5"]];
     dirty_rows := [(0, [(1, Null)])]; deleted_rows := []; new_rows := [] |} in
  validate_data_grid_save o = None ∧
  build_data_grid_save_statements o = Some ["INSERT INTO `meter` (`ts`) VALUES (1700000000000);"].
Proof. vm_compute. done. Qed.

(** The key that Postgres makes for a new row is not known: what undoes the insert
    looks for a NULL key and finds no row. *)
Example generated_key_not_undone :
  undo_insert {| database_type := Some Postgres; identifier_quote := None;
     table_meta := {| catalog := None; database := None; schema := None; table_name := "orders"; primary_keys := ["id"];
                      meta_columns := Some [{| ci_name := "id"; data_type := "integer"; is_nullable := false;
                         is_primary_key := true; column_default := Some "nextval('orders_id_seq')"; extra := None |};
                         text_column "note" false] |};
     grid_columns := ["id"; "note"]; source_columns := None; rows := []; dirty_rows := []; deleted_rows := [];
     new_rows := [[Null; VString "n"]] |} [Null; VString "n"] =
  Some [("DELETE FROM " +:+ dquote +:+ "orders" +:+ dquote +:+ " WHERE " +:+ dquote +:+ "id" +:+ dquote +:+ " IS NULL AND "
         +:+ dquote +:+ "note" +:+ dquote +:+ " = 'n';")%string].
Proof. vm_compute. reflexivity. Qed.
End Sample.
