(* ===== verification/GridSafe.v ===== *)
(** * Every statement of a save is one statement

    The statements that save a grid and the ones that undo it, read by the quotes of
    their database: whatever the cells and the names hold, each is a single
    statement with all of its quotes closed and no comment. *)
From S2P Require Import Prelude RustStr Json F64 SqlText AgentContext GridTypes SqlIdent SqlScan SqlTemporal GridLiteral GridRows GridBatch GridStores GridSave.

(** All the cells of a save. *)
Definition save_cells (o : DataGridSaveStatementOptions) : list Value :=
  List.concat (rows o) ++ List.concat (new_rows o) ++ List.concat ((λ dirty : nat * list (nat * Value), dirty.2.*2) <$> dirty_rows o).

(** The names a save writes: its columns and its keys, and the segments of its table. *)
Definition save_names `{PercentDecoder} (o : DataGridSaveStatementOptions) : list string :=
  omap (λ column, column) (effective_columns o) ++ primary_keys (table_meta o)
  ++ table_path (database_type o) (catalog (table_meta o)) (schema (table_meta o)) (database (table_meta o))
       (table_name (table_meta o)) (identifier_quote o).

(** ** Parts *)

Section Parts.
Context `{JsonPrinter, Chrono, JsonNumbers}.
Variables (d : option DatabaseType) (x : Lexer).

(** What a cell must be: its numbers numbers and its texts UTF-8; for Oracle, a text
    without quotes and backslashes. *)
Definition grid_value_ok (v : Value) : Prop :=
  cell_ok v = true ∧
  (is_oracle_temporal_literal_database d = true → match cell_text v with Some text => plain_text text = true | None => True end).
(** And a name: UTF-8, and not one that is passed on as it is. *)
Definition grid_name_ok (q : option string) (name : string) : Prop := passed_as_is d q name = false ∧ utf8 name = true.
Abbreviation value_ok := (grid_value_ok).

Hypothesis Hx : reads_grid d x.
Hypothesis Hnum : numbers_ok.

Lemma grid_null_ok : grid_value_ok Null.
Proof. by split. Qed.

Lemma grid_literal_safe v ci w : grid_value_ok v → format_grid_sql_literal v d ci = Some w → piece x w.
Proof.
  intros [Hv Ho]. apply (grid_literal_closed d x); [done | done | done |]. unfold temporal_plain, writes_temporal.
  destruct (is_oracle_temporal_literal_database d); [|done]. specialize (Ho eq_refl).
  destruct (cell_text v); [rewrite Ho; apply orb_true_r | apply orb_true_r].
Qed.

Lemma grid_save_literal_safe v ci w : grid_value_ok v → format_grid_save_sql_literal v d ci = Some w → piece x w.
Proof.
  intros Hv. unfold format_grid_save_sql_literal. destruct (empty_string_saves_as_null v ci); [|by apply grid_literal_safe].
  some_is. by apply (plain_word d x Hx).
Qed.

Lemma grid_form_piece name w : name_form (opening x) (closing x) name w → piece x w.
Proof.
  intros [->|(-> & _ & Hw & _)]; [|by apply (plain_word d x Hx)].
  apply piece_name. by eapply reads_not_quote.
Qed.

Lemma grid_equals_safe ident w : piece x ident → piece x w → piece x (ident +:+ " = " +:+ w).
Proof. intros Hi Hw. by eapply between. Qed.

Lemma grid_is_null_safe ident : piece x ident → piece x (ident +:+ " IS NULL").
Proof. intros Hi. by eapply tail_of. Qed.

Lemma grid_joined_safe {A} separator (f : A → option string) l w :
  gap_all separator = true → (∀ a v, a ∈ l → f a = Some v → piece x v) → joined separator f l = Some w → piece x w.
Proof.
  intros Hs Hf. unfold joined. destruct (mapM f l) as [ws|] eqn:Hm; [|done]. some_is.
  apply piece_join; [by eapply gap_of|]. apply mapM_Some in Hm. clear -Hm Hf.
  induction Hm as [|a v l ws Ha Hm IH]; [constructor|]. constructor.
  - apply (Hf a); [by left | done].
  - apply IH. intros a' v' Ha'. apply Hf. by right.
Qed.

Lemma grid_fmap_safe {A} separator (f : A → string) l :
  gap_all separator = true → (∀ a, a ∈ l → piece x (f a)) → piece x (join separator (f <$> l)).
Proof.
  intros Hs Hf. apply piece_join; [by eapply gap_of|]. apply Forall_fmap, Forall_forall. auto.
Qed.

Lemma grid_ended w : piece x w → one_statement x (w +:+ ";").
Proof.
  apply piece_ended.
  - apply (reads_grid_cases d x (λ x, opening x ≠ ";"%char) Hx); [by intros y -> | done | done].
  - apply (reads_grid_cases d x (λ x, closing x ≠ ";"%char) Hx); [by intros y _ -> | done | done].
Qed.

Lemma grid_parenthesised_safe w : piece x w → piece x ("(" +:+ w +:+ ")").
Proof. intros Hw. eapply (lead_of d x "("); [done | done|]. by eapply tail_of. Qed.
End Parts.

Section Safe.
Context `{JsonPrinter, Chrono, JsonNumbers, PercentDecoder}.
Variables (o : DataGridSaveStatementOptions) (x : Lexer).
Abbreviation d := (database_type o).
Abbreviation q := (identifier_quote o).
Abbreviation column_info := (columns_of (table_meta o)).
Abbreviation keys := (primary_keys (table_meta o)).
Abbreviation save_columns := (effective_columns o).
Abbreviation value_ok := (grid_value_ok d).
Abbreviation name_ok := (grid_name_ok d q).

Hypothesis Hx : reads_grid d x.
Hypothesis Hdel : grid_delimiters d q = Some (opening x, closing x).
Hypothesis Hnum : numbers_ok.
Hypothesis Hnames : Forall name_ok (save_names o).
Hypothesis Hcells : Forall value_ok (save_cells o).


Abbreviation literal_safe := (grid_literal_safe d x Hx Hnum).
Abbreviation save_literal_safe := (grid_save_literal_safe d x Hx Hnum).
Abbreviation form_piece := (grid_form_piece d x Hx).
Abbreviation equals_safe := (grid_equals_safe d x Hx).
Abbreviation is_null_safe := (grid_is_null_safe d x Hx).
Abbreviation joined_safe := (grid_joined_safe d x Hx).
Abbreviation fmap_safe := (grid_fmap_safe d x Hx).
Abbreviation ended := (grid_ended d x Hx).
Abbreviation parenthesised_safe := (grid_parenthesised_safe d x Hx).
Abbreviation null_ok := (grid_null_ok d).

(** ** Pieces *)

Lemma ident_safe name : name_ok name → piece x (data_grid_identifier d name q).
Proof. intros [Hp Hu]. eapply form_piece, grid_name_form; done. Qed.

Lemma predicate_ident_safe name : name_ok name → piece x (predicate_ident d name q).
Proof.
  intros Hn. unfold predicate_ident. destruct (is_oracle_row_id d (Some name)); [|by apply ident_safe].
  by apply (call_piece d x Hx "ROWIDTOCHAR" "ROWID"); [|apply (plain_word d x Hx)].
Qed.

Lemma json_literal_safe literal ci : piece x literal → piece x (mysql_json_predicate_literal literal d ci).
Proof.
  intros Hl. unfold mysql_json_predicate_literal. destruct (_ && _); [|done].
  change ("CAST(" +:+ literal +:+ " AS JSON)")%string with ("CAST(" +:+ (literal +:+ " AS JSON)"))%string.
  eapply lead_of; [done | done |]. by eapply tail_of.
Qed.

Lemma literal_predicate_safe ident literal ci binary :
  piece x ident → piece x literal → piece x (literal_predicate d ident literal ci binary).
Proof.
  intros Hi Hl. unfold literal_predicate.
  assert (Hdefault : piece x (ident +:+ " = " +:+ mysql_json_predicate_literal literal d ci)).
  { apply equals_safe; [done | by apply json_literal_safe]. }
  destruct binary; [|done]. unfold postgres_keyless_json_predicate. destruct (negb _); [done|].
  destruct ci as [ci|]; [|done]. cbn [mbind option_bind].
  destruct (String.eqb _ "json").
  { eapply between; [done | done | done |]. by eapply tail_of. }
  destruct (String.eqb _ "jsonb"); [|done]. eapply between; [done | done | done |]. by eapply tail_of.
Qed.

Lemma predicate_safe name v ci binary w :
  name_ok name → value_ok v → build_column_predicate d name v ci binary q = Some w → piece x w.
Proof.
  intros Hn Hv. unfold build_column_predicate. pose proof (predicate_ident_safe name Hn) as Hi.
  destruct (bool_decide (v = Null)); [some_is; by apply is_null_safe|].
  destruct (format_grid_sql_literal v d ci) as [l|] eqn:Hl; [|by destruct (_ && _)].
  pose proof (literal_safe v ci l Hv Hl) as Hp. cbn [mbind option_bind]. destruct (_ && _); some_is.
  - eapply lead_of; [done | done | by apply equals_safe].
  - by apply literal_predicate_safe.
Qed.

Lemma save_predicate_safe name v ci binary w :
  name_ok name → value_ok v → build_save_column_predicate d name v ci binary q = Some w → piece x w.
Proof.
  intros Hn Hv. unfold build_save_column_predicate. pose proof (predicate_ident_safe name Hn) as Hi.
  destruct (_ || _); [some_is; by apply is_null_safe|].
  destruct (format_grid_save_sql_literal v d ci) as [l|] eqn:Hl; [|by destruct (_ && _)].
  pose proof (save_literal_safe v ci l Hv Hl) as Hp. cbn [mbind option_bind]. destruct (_ && _); some_is.
  - eapply lead_of; [done | done | by apply equals_safe].
  - by apply literal_predicate_safe.
Qed.

(** ** Lists of pieces *)

Definition row_ok (row : list Value) : Prop := Forall value_ok row.

Lemma cell_default row i : row_ok row → value_ok (default Null (row !! i)).
Proof.
  intros Hr. destruct (row !! i) as [v|] eqn:Hv; [|exact null_ok]. by eapply Forall_lookup_1.
Qed.

Lemma present_ok columns row name v : row_ok row → (name, v) ∈ present_columns columns row → Some name ∈ columns ∧ value_ok v.
Proof.
  unfold present_columns. intros Hr ([i c] & Hc & Hp)%list_elem_of_omap. cbn in Hp.
  destruct c as [c|]; [|done]. injection Hp as <- <-. apply elem_of_lookup_imap in Hc as (j & c' & [= -> ->] & Hc).
  split; [by eapply list_elem_of_lookup_2 | by apply cell_default].
Qed.

Lemma column_ok name : Some name ∈ save_columns → name_ok name.
Proof.
  intros Hn. apply (proj1 (Forall_forall _ _) Hnames). apply elem_of_app. left. apply list_elem_of_omap. by exists (Some name).
Qed.
Lemma key_ok name : name ∈ keys → name_ok name.
Proof. intros Hn. apply (proj1 (Forall_forall _ _) Hnames). apply elem_of_app. right. apply elem_of_app. by left. Qed.

Lemma row_row_ok i row : rows o !! i = Some row → row_ok row.
Proof.
  intros Hr. apply Forall_forall. intros v Hv. apply (proj1 (Forall_forall _ _) Hcells). apply elem_of_app. left.
  apply list_elem_of_In, in_concat. exists row. split; apply list_elem_of_In; [by eapply list_elem_of_lookup_2 | done].
Qed.
Lemma new_row_ok row : row ∈ new_rows o → row_ok row.
Proof.
  intros Hr. apply Forall_forall. intros v Hv. apply (proj1 (Forall_forall _ _) Hcells).
  apply elem_of_app. right. apply elem_of_app. left.
  apply list_elem_of_In, in_concat. exists row. by split; apply list_elem_of_In.
Qed.
Lemma changes_ok i changes : (i, changes) ∈ dirty_rows o → Forall (λ change : nat * Value, value_ok change.2) changes.
Proof.
  intros Hc. apply Forall_forall. intros change Hv. apply (proj1 (Forall_forall _ _) Hcells).
  apply elem_of_app. right. apply elem_of_app. right. apply list_elem_of_In, in_concat. exists (changes.*2). split; apply list_elem_of_In.
  - apply list_elem_of_fmap. by exists (i, changes).
  - apply list_elem_of_fmap. by exists change.
Qed.
Lemma changed_row_ok row changes :
  row_ok row → Forall (λ change : nat * Value, value_ok change.2) changes → row_ok (changed_row row changes).
Proof.
  unfold changed_row. intros Hr Hc. revert row Hr. induction Hc as [|c changes Hc _ IH]; intros row Hr; [done|].
  cbn. apply IH. by apply Forall_insert.
Qed.

(** ** The predicates of rows *)

Lemma filtered {A} (f : A → bool) l a : a ∈ List.filter f l → a ∈ l ∧ f a = true.
Proof. rewrite !list_elem_of_In, List.filter_In. done. Qed.

Lemma row_where_safe row w : row_ok row → row_where o row = Some w → piece x w.
Proof.
  intros Hr. unfold row_where, build_primary_key_where. destruct (_ && _).
  - apply joined_safe; [done|]. intros [name v] p [Hp _]%filtered. apply present_ok in Hp as [Hn Hv]; [|done].
    apply predicate_safe; [by apply column_ok | done].
  - apply joined_safe; [done|]. intros name p Hn. apply predicate_safe; [by apply key_ok|].
    unfold primary_key_value. destruct (find_column_index d save_columns name) as [i|]; [by apply cell_default | exact null_ok].
Qed.

Lemma save_row_where_safe row w : row_ok row → build_save_row_where d save_columns row column_info q = Some w → piece x w.
Proof.
  intros Hr. unfold build_save_row_where. apply joined_safe; [done|].
  intros [name v] p [Hp _]%filtered. apply present_ok in Hp as [Hn Hv]; [|done].
  apply save_predicate_safe; [by apply column_ok | done].
Qed.

Lemma column_at_ok index name : column_at save_columns index = Some name → name_ok name.
Proof.
  unfold column_at. intros Hn. apply column_ok. destruct (save_columns !! index) as [c|] eqn:Hc; [|done].
  cbn in Hn. subst c. by eapply list_elem_of_lookup_2.
Qed.

Lemma written_ok key_set changes name change :
  Forall (λ change : nat * Value, value_ok change.2) changes →
  (name, change) ∈ written_changes o key_set changes → name_ok name ∧ value_ok change.2.
Proof.
  intros Hc (change' & Hin & Hw)%list_elem_of_omap. cbn in Hw.
  destruct (column_at save_columns change'.1) as [c|] eqn:Hcol; [|done]. cbn in Hw.
  destruct (is_grid_update_omitted_column _ _ _ _); [done|]. injection Hw as <- <-.
  split; [by eapply column_at_ok | exact (proj1 (Forall_forall _ _) Hc change' Hin)].
Qed.

Lemma update_sets_safe changes w :
  Forall (λ change : nat * Value, value_ok change.2) changes → update_sets o changes = Some w → piece x w.
Proof.
  intros Hc. apply joined_safe; [done|]. intros [name change] p Hp. apply (written_ok _ _ _ _ Hc) in Hp as [Hn Hv]. cbn [fst snd].
  destruct (format_grid_save_sql_literal change.2 d _) as [l|] eqn:Hl; [|done]. cbn [mbind option_bind]. some_is.
  apply equals_safe; [by apply ident_safe | by eapply save_literal_safe].
Qed.

(** ** The table *)

Lemma not_bare : d ≠ Some Iotdb ∧ d ≠ Some Jdbc.
Proof. split; intros E; rewrite E in Hdel; by destruct q. Qed.

Lemma table_safe : piece x (table o).
Proof.
  unfold table. destruct not_bare as [Hi Hj]. rewrite table_name_joins by done.
  apply fmap_safe; [done|]. intros n Hn. apply ident_safe. apply (proj1 (Forall_forall _ _) Hnames).
  apply elem_of_app. right. apply elem_of_app. by right.
Qed.

(** ** Statements *)

Lemma statement_safe sql : piece x sql → one_statement x (data_grid_statement d sql).
Proof.
  intros Hs. unfold data_grid_statement. destruct (bool_decide _); [by apply piece_statement | by apply ended].
Qed.

Lemma update_sql_safe sets w : piece x sets → piece x w → piece x (data_grid_update_sql d (table o) sets w).
Proof.
  intros Hs Hw. unfold data_grid_update_sql. destruct (bool_decide (d = Some ClickHouse));
    (eapply lead_of; [done | done|]; eapply between; [done | apply table_safe | done|]; by eapply between).
Qed.
Lemma delete_sql_safe w : piece x w → piece x (data_grid_delete_sql d (table o) w).
Proof.
  intros Hw. unfold data_grid_delete_sql. destruct (bool_decide (d = Some ClickHouse));
    (eapply lead_of; [done | done|]; eapply between; [done | apply table_safe | done | done]).
Qed.

(** What leads to a piece. *)
Definition leading (prefix : string) : Prop := ∀ w, piece x w → piece x (prefix +:+ w).

Lemma batch_safe prefix parts separator wrap :
  leading prefix → gap_all separator = true → Forall (piece x) parts →
  one_statement x (mysql_joined_batch_statement prefix parts separator wrap).
Proof.
  intros Hp Hs HF. unfold mysql_joined_batch_statement. rewrite string_app_assoc. apply ended, Hp.
  destruct (_ || _).
  - apply piece_join; [by eapply gap_of | done].
  - apply piece_join; [by eapply gap_of|]. apply Forall_fmap. eapply Forall_impl; [exact HF|].
    intros w Hw. by apply parenthesised_safe.
Qed.

Lemma batches_safe prefix parts separator wrap :
  leading prefix → gap_all separator = true → Forall (piece x) parts →
  Forall (one_statement x) (mysql_joined_batches prefix parts separator wrap).
Proof.
  intros Hp Hs HF. destruct (joined_batches_partition prefix separator wrap parts) as (batches & -> & Hc & _).
  apply Forall_fmap, Forall_forall. intros b Hb. apply batch_safe; [done | done |].
  apply Forall_forall. intros w Hw. apply (proj1 (Forall_forall _ _) HF). rewrite <- Hc.
  apply list_elem_of_In, in_concat. exists b. by split; apply list_elem_of_In.
Qed.

Lemma update_batches_safe sets predicates :
  piece x sets → Forall (piece x) predicates → Forall (one_statement x) (update_batches o sets predicates).
Proof.
  intros Hs HF. apply batches_safe; [|done | done]. intros w Hw.
  replace (("UPDATE " +:+ table o +:+ " SET " +:+ sets +:+ " WHERE ") +:+ w)%string
    with ("UPDATE " +:+ (table o +:+ " SET " +:+ (sets +:+ " WHERE " +:+ w)))%string.
  - eapply lead_of; [done | done|]. eapply between; [done | apply table_safe | done|]. by eapply between.
  - by rewrite <- !string_app_assoc.
Qed.

Lemma update_loop_safe l pending predicates stmts :
  (∀ i changes, (i, changes) ∈ l → Forall (λ change : nat * Value, value_ok change.2) changes) →
  match pending with Some sets => piece x sets | None => True end → Forall (piece x) predicates →
  update_loop o l pending predicates = Some stmts → Forall (one_statement x) stmts.
Proof.
  revert pending predicates stmts. induction l as [|[i changes] l IH]; intros pending predicates stmts Hl Hp HF; cbn [update_loop].
  - some_is. destruct pending; [by apply update_batches_safe | constructor].
  - assert (Hl' : ∀ i changes, (i, changes) ∈ l → Forall (λ change : nat * Value, value_ok change.2) changes).
    { intros i' c' Hin. apply (Hl i'). by right. }
    specialize (Hl i changes ltac:(by left)).
    destruct (rows o !! i) as [row|] eqn:Hrow; [|by apply IH].
    destruct (update_sets o changes) as [sets|] eqn:Hsets; [|done]. cbn [mbind option_bind].
    destruct (is_empty sets); [by apply IH|]. destruct (row_where o row) as [w|] eqn:Hw; [|done]. cbn [mbind option_bind].
    apply update_sets_safe in Hsets; [|done]. apply row_where_safe in Hw; [|by eapply row_row_ok].
    assert (Hps : Forall (piece x) (predicates ++ [w])) by (apply Forall_app; split; [done | by constructor]).
    assert (Hone : Forall (piece x) [w]) by (by constructor).
    destruct (supports_mysql_data_grid_batch o).
    + destruct pending as [current|]; [|by apply IH]. destruct (String.eqb current sets); [by apply IH|].
      destruct (update_loop o l (Some sets) [w]) as [rest|] eqn:Hrest; [|done]. cbn [mbind option_bind]. some_is.
      apply Forall_app. split; [by apply update_batches_safe | exact (IH (Some sets) _ _ Hl' Hsets Hone Hrest)].
    + destruct (update_loop o l pending predicates) as [rest|] eqn:Hrest; [|done]. cbn [mbind option_bind]. some_is.
      constructor; [by apply statement_safe, update_sql_safe | exact (IH pending _ _ Hl' Hp HF Hrest)].
Qed.

Lemma mapM_pieces {A} (f : A → option string) l ws :
  (∀ a v, a ∈ l → f a = Some v → piece x v) → mapM f l = Some ws → Forall (piece x) ws.
Proof.
  intros Hf Hm. apply mapM_Some in Hm. induction Hm as [|a v l ws Ha Hm IH]; [constructor|]. constructor.
  - apply (Hf a); [by left | done].
  - apply IH. intros a' v' Ha'. apply Hf. by right.
Qed.

Lemma delete_statements_safe stmts : delete_statements o = Some stmts → Forall (one_statement x) stmts.
Proof.
  unfold delete_statements. destruct (mapM (row_where o) _) as [ws|] eqn:Hm; [|done]. cbn [mbind option_bind]. some_is.
  assert (Hws : Forall (piece x) ws).
  { eapply mapM_pieces; [|exact Hm]. intros row w (i & _ & Hrow)%list_elem_of_omap. apply row_where_safe. by eapply row_row_ok. }
  destruct (supports_mysql_data_grid_batch o).
  - assert (Forall (one_statement x) (mysql_predicate_batches ("DELETE FROM " +:+ table o +:+ " WHERE ") ws)).
    { apply batches_safe; [|done | done]. intros w Hw. 
      replace (("DELETE FROM " +:+ table o +:+ " WHERE ") +:+ w)%string
        with ("DELETE FROM " +:+ (table o +:+ " WHERE " +:+ w))%string by (by rewrite <- !string_app_assoc).
      eapply lead_of; [done | done|]. eapply between; [done | apply table_safe | done | done]. }
    by destruct ws.
  - apply Forall_fmap. eapply Forall_impl; [exact Hws|]. intros w Hw. by apply statement_safe, delete_sql_safe.
Qed.

(** ** Inserts *)

Lemma insert_sql_safe columns values :
  piece x columns → piece x values →
  piece x ("INSERT INTO " +:+ table o +:+ " (" +:+ columns +:+ ") VALUES (" +:+ values +:+ ")").
Proof.
  intros Hc Hv. eapply lead_of; [done | done|]. eapply between; [done | apply table_safe | done|].
  eapply between; [done | done | done|]. by eapply tail_of.
Qed.

Lemma pairs_columns_safe pairs : (∀ p, p ∈ pairs → name_ok p.1) → piece x (pairs_columns o pairs).
Proof. intros Hp. apply fmap_safe; [done|]. intros p Hin. by apply ident_safe, Hp. Qed.

Lemma insert_pairs_ok row p : row_ok row → p ∈ insert_pairs o row → name_ok p.1 ∧ value_ok p.2.
Proof.
  intros Hr. unfold insert_pairs. intros [Hp _]%filtered. apply filtered in Hp as [Hp _]. apply filtered in Hp as [Hp _].
  destruct p as [name v]. apply present_ok in Hp as [Hn Hv]; [|done]. split; [by apply column_ok | done].
Qed.

Lemma hive_insert_safe row save_literals skip stmts :
  row_ok row → hive_insert o row save_literals skip = Some stmts → Forall (one_statement x) stmts.
Proof.
  intros Hr. unfold hive_insert, build_hive_values_insert.
  destruct (bool_decide (_ = [])); [cbn; some_is; constructor|]. destruct (skip && _); [cbn; some_is; constructor|].
  match goal with |- context [joined ", " ?f ?l] => destruct (joined ", " f l) as [values|] eqn:Hj; [|done] end.
  cbn [mbind option_bind]. some_is. constructor; [|constructor]. apply statement_safe.
  eapply lead_of; [done | done|]. eapply between; [done | apply table_safe | done|]. eapply tail_of; [done | | done].
  revert Hj. apply joined_safe; [done|]. intros [name v] w (name' & [= -> ->] & Hn)%list_elem_of_fmap. cbn [fst snd].
  assert (Hv : value_ok (primary_key_value (Some Hive) save_columns row name')).
  { unfold primary_key_value. destruct (find_column_index (Some Hive) save_columns name'); [by apply cell_default | exact null_ok]. }
  destruct save_literals; [by apply save_literal_safe | by apply literal_safe].
Qed.

Lemma insert_statement_safe row stmts : row_ok row → insert_statement o row = Some stmts → Forall (one_statement x) stmts.
Proof.
  intros Hr. unfold insert_statement. destruct (bool_decide (d = Some Hive)); [by apply hive_insert_safe|].
  destruct (insert_pairs o row) as [|p pairs] eqn:Hp.
  - some_is. destruct (bool_decide (d = Some Mysql)); [|constructor]. constructor; [|constructor].
    apply statement_safe. eapply lead_of; [done | done|]. eapply tail_of; [done | apply table_safe | done].
  - assert (Hok : ∀ p', p' ∈ p :: pairs → name_ok p'.1 ∧ value_ok p'.2).
    { rewrite <- Hp. intros p'. by apply insert_pairs_ok. }
    destruct (joined ", " _ (p :: pairs)) as [values|] eqn:Hv; [|done]. cbn [mbind option_bind]. some_is.
    constructor; [|constructor]. apply statement_safe, insert_sql_safe.
    + apply pairs_columns_safe. intros p' Hin. by apply Hok.
    + revert Hv. apply joined_safe; [done|]. intros p' w Hin. apply save_literal_safe. by apply Hok.
Qed.

Lemma for_all_safe f l stmts :
  (∀ row s, row ∈ l → f row = Some s → Forall (one_statement x) s) → for_all l f = Some stmts → Forall (one_statement x) stmts.
Proof.
  intros Hf. unfold for_all. destruct (mapM f l) as [ss|] eqn:Hm; [|done]. cbn. some_is. apply mapM_Some in Hm.
  induction Hm as [|a v l ss Ha Hm IH]; [constructor|]. cbn. apply Forall_app. split; [by eapply Hf; [left|]|].
  apply IH. intros row s Hin. apply Hf. by right.
Qed.

(** ** Undoing *)

Lemma for_changes_safe f l stmts :
  (∀ i changes row s, (i, changes) ∈ l → rows o !! i = Some row → f row changes = Some s → Forall (one_statement x) s) →
  for_changes o l f = Some stmts → Forall (one_statement x) stmts.
Proof.
  revert stmts. induction l as [|[i changes] l IH]; intros stmts Hf; cbn [for_changes]; [some_is; constructor|].
  assert (Hf' : ∀ i changes row s, (i, changes) ∈ l → rows o !! i = Some row → f row changes = Some s → Forall (one_statement x) s).
  { intros i' c' row s Hin. apply Hf. by right. }
  destruct (rows o !! i) as [row|] eqn:Hrow; [|by apply IH].
  destruct (f row changes) as [s|] eqn:Hs; [|done]. cbn [mbind option_bind].
  destruct (for_changes o l f) as [rest|]; [|done]. cbn [mbind option_bind]. some_is.
  apply Forall_app. split; [|by apply IH]. by eapply Hf; [left|..].
Qed.

Lemma for_rows_safe f l stmts :
  (∀ i row s, rows o !! i = Some row → f row = Some s → Forall (one_statement x) s) →
  for_rows o l f = Some stmts → Forall (one_statement x) stmts.
Proof.
  intros Hf. revert stmts. induction l as [|i l IH]; intros stmts; cbn [for_rows]; [some_is; constructor|].
  destruct (rows o !! i) as [row|] eqn:Hrow; [|by apply IH]. destruct (f row) as [s|] eqn:Hs; [|done]. cbn [mbind option_bind].
  destruct (for_rows o l f) as [rest|]; [|done]. cbn [mbind option_bind]. some_is.
  apply Forall_app. split; [by eapply Hf | by apply IH].
Qed.

Lemma undo_insert_safe row stmts : row_ok row → undo_insert o row = Some stmts → Forall (one_statement x) stmts.
Proof.
  intros Hr. unfold undo_insert.
  destruct (if bool_decide (d = Some Mysql) then _ else _) as [w|] eqn:Hw; [|done]. cbn [mbind option_bind]. some_is.
  destruct w as [w|]; [|constructor]. constructor; [|constructor]. apply statement_safe.
  assert (piece x w).
  { destruct (bool_decide (d = Some Mysql)).
    - unfold build_mysql_insert_rollback_where in Hw. destruct (bool_decide (keys = [])); [done|].
      destruct (existsb _ _); [done|]. destruct (row_where o row) as [w'|] eqn:Hrw; [|done]. cbn in Hw. injection Hw as <-.
      by eapply row_where_safe.
    - destruct (build_save_row_where _ _ _ _ _) as [w'|] eqn:Hrw; [|done]. cbn in Hw. destruct (is_empty w'); [done|].
      injection Hw as <-. by eapply save_row_where_safe. }
  eapply lead_of; [done | done|]. eapply between; [done | apply table_safe | done | done].
Qed.

Lemma reinserted_safe row columns values :
  row_ok row → reinserted o row = Some (columns, values) → piece x columns ∧ piece x values.
Proof.
  intros Hr. unfold reinserted. set (pairs := List.filter _ _).
  assert (Hok : ∀ p, p ∈ pairs → name_ok p.1 ∧ value_ok p.2).
  { intros [name v] [Hp _]%filtered. apply present_ok in Hp as [Hn Hv]; [|done]. split; [by apply column_ok | done]. }
  clearbody pairs. destruct (joined ", " _ pairs) as [vs|] eqn:Hj; [|done]. cbn [mbind option_bind]. intros E.
  apply (inj Some) in E. assert (columns = pairs_columns o pairs ∧ values = vs) as [-> ->] by (by injection E). split.
  - apply pairs_columns_safe. intros p Hin. by apply Hok.
  - revert Hj. apply joined_safe; [done|]. intros p w Hin. apply literal_safe. by apply Hok.
Qed.

Lemma insert_batches_safe columns tuples :
  piece x columns → Forall (piece x) tuples → Forall (one_statement x) (insert_batches o columns tuples).
Proof.
  intros Hc HF. apply batches_safe; [|done | done]. intros w Hw.
  replace (("INSERT INTO " +:+ table o +:+ " (" +:+ columns +:+ ") VALUES ") +:+ w)%string
    with ("INSERT INTO " +:+ (table o +:+ " (" +:+ (columns +:+ ") VALUES " +:+ w)))%string
    by (by rewrite <- !string_app_assoc).
  eapply lead_of; [done | done|]. eapply between; [done | apply table_safe | done|]. by eapply between.
Qed.

Lemma reinsert_loop_safe l pending tuples stmts :
  match pending with Some columns => piece x columns | None => True end → Forall (piece x) tuples →
  reinsert_loop o l pending tuples = Some stmts → Forall (one_statement x) stmts.
Proof.
  revert pending tuples stmts. induction l as [|i l IH]; intros pending tuples stmts Hp HF; cbn [reinsert_loop].
  - some_is. destruct pending; [by apply insert_batches_safe | constructor].
  - destruct (rows o !! i) as [row|] eqn:Hrow; [|by apply IH]. pose proof (row_row_ok _ _ Hrow) as Hr.
    destruct (bool_decide (d = Some Hive)).
    { destruct (hive_insert o row false false) as [s|] eqn:Hs; [|done]. cbn [mbind option_bind].
      destruct (reinsert_loop o l pending tuples) as [rest|] eqn:Hrest; [|done]. cbn [mbind option_bind]. some_is.
      apply Forall_app. split; [by eapply hive_insert_safe | exact (IH pending _ _ Hp HF Hrest)]. }
    destruct (reinserted o row) as [[columns values]|] eqn:Hre; [|done]. cbn [mbind option_bind].
    apply reinserted_safe in Hre as [Hc Hv]; [|done].
    assert (Htuple : piece x ("(" +:+ values +:+ ")")) by (by apply parenthesised_safe).
    assert (Hts : Forall (piece x) (tuples ++ [("(" +:+ values +:+ ")")%string])) by (apply Forall_app; split; [done | by constructor]).
    assert (Hone : Forall (piece x) [("(" +:+ values +:+ ")")%string]) by (by constructor).
    destruct (supports_mysql_data_grid_batch o).
    + destruct pending as [current|]; [|by apply IH]. destruct (String.eqb current columns); [by apply IH|].
      destruct (reinsert_loop o l (Some columns) _) as [rest|] eqn:Hrest; [|done]. cbn [mbind option_bind]. some_is.
      apply Forall_app. split; [by apply insert_batches_safe | exact (IH (Some columns) _ _ Hc Hone Hrest)].
    + destruct (reinsert_loop o l pending tuples) as [rest|] eqn:Hrest; [|done]. cbn [mbind option_bind]. some_is.
      constructor; [by apply statement_safe, insert_sql_safe | exact (IH pending _ _ Hp HF Hrest)].
Qed.

Lemma undo_update_safe row changes stmts :
  row_ok row → Forall (λ change : nat * Value, value_ok change.2) changes →
  undo_update o row changes = Some stmts → Forall (one_statement x) stmts.
Proof.
  intros Hr Hc. unfold undo_update.
  match goal with |- context [joined ", " ?f ?l] => destruct (joined ", " f l) as [sets|] eqn:Hj; [|done] end.
  cbn [mbind option_bind]. destruct (is_empty sets); [some_is; constructor|].
  change (build_primary_key_where d keys save_columns (changed_row row changes) column_info q)
    with (row_where o (changed_row row changes)).
  destruct (row_where o (changed_row row changes)) as [first|] eqn:Hf; [|done]. cbn [mbind option_bind].
  match goal with |- context [mapM ?f ?l] => destruct (mapM f l) as [others|] eqn:Ho; [|done] end.
  cbn [mbind option_bind]. some_is. constructor; [|constructor]. apply statement_safe.
  eapply lead_of; [done | done|]. eapply between; [done | apply table_safe | done|]. eapply between; [done | | done|].
  - revert Hj. apply joined_safe; [done|]. intros [name change] w Hin. apply (written_ok _ _ _ _ Hc) in Hin as [Hn _]. cbn [fst snd].
    destruct (format_grid_sql_literal (default Null (row !! change.1)) d _) as [l|] eqn:Hl; [|done]. cbn [mbind option_bind]. some_is.
    apply equals_safe; [by apply ident_safe | by eapply literal_safe; [apply cell_default|]].
  - apply piece_join; [by eapply gap_of|]. apply Forall_forall. intros w [Hw _]%filtered.
    assert (HF : Forall (piece x) (first :: others)); [|exact (proj1 (Forall_forall _ _) HF w Hw)].
    constructor; [by eapply row_where_safe; [apply changed_row_ok|]|].
    eapply mapM_pieces; [|exact Ho]. intros [name change] w' Hin. apply (written_ok _ _ _ _ Hc) in Hin as [Hn Hv].
    by apply save_predicate_safe.
Qed.

(** ** Neo4j *)

Lemma neo4j_literal_safe v w : d = Some Neo4j → value_ok v → neo4j_literal v = Some w → piece x w.
Proof. unfold neo4j_literal. intros Hd. rewrite <- Hd. apply literal_safe. Qed.

Lemma backtick_name_safe name : (d = Some Neo4j ∨ d = Some Tdengine) → piece x (quoted backtick backtick name).
Proof.
  intros Hd. assert (opening x = backtick ∧ closing x = backtick) as [Ho Hc].
  { destruct Hd as [Hd|Hd]; rewrite Hd in Hdel; destruct q; by injection Hdel. }
  rewrite <- Ho at 1. rewrite <- Hc. apply piece_name. by eapply reads_not_quote.
Qed.
Lemma neo4j_name_safe name : d = Some Neo4j → piece x (quote_ident (Some Neo4j) name).
Proof. intros Hd. apply backtick_name_safe. by left. Qed.

Lemma neo4j_predicate_safe row w :
  d = Some Neo4j → row_ok row → neo4j_element_id_predicate (grid_columns o) row = Some w → piece x w.
Proof.
  intros Hd Hr. unfold neo4j_element_id_predicate.
  match goal with |- context [neo4j_literal ?v] => destruct (neo4j_literal v) as [l|] eqn:Hl; [|done] end.
  cbn [mbind option_bind]. some_is. apply (equals_safe "elementId(n)").
  - by apply (call_piece d x Hx "elementId" "n"); [|apply (plain_word d x Hx)].
  - eapply neo4j_literal_safe; [done | | exact Hl].
    destruct (position _ (grid_columns o)) as [i|]; [by apply cell_default | exact null_ok].
Qed.

Lemma neo4j_cells_ok row p : row_ok row → p ∈ neo4j_cells o row → value_ok p.2.
Proof. intros Hr (i & c & -> & _)%elem_of_lookup_imap. by apply cell_default. Qed.

Lemma neo4j_member_safe name w : d = Some Neo4j → piece x w → piece x ("n." +:+ quote_ident (Some Neo4j) name +:+ " = " +:+ w).
Proof. intros Hd Hw. eapply lead_of; [done | done|]. apply equals_safe; [by apply neo4j_name_safe | done]. Qed.

Lemma neo4j_props_safe row w : d = Some Neo4j → row_ok row → neo4j_props o row = Some w → piece x w.
Proof.
  intros Hd Hr. apply joined_safe; [done|]. intros p v [Hp _]%filtered.
  destruct (neo4j_literal p.2) as [l|] eqn:Hl; [|done]. cbn [mbind option_bind]. some_is.
  eapply between; [done | by apply neo4j_name_safe | done |]. eapply neo4j_literal_safe; [done | | exact Hl].
  by eapply neo4j_cells_ok.
Qed.

Lemma neo4j_create_safe row s : d = Some Neo4j → row_ok row → neo4j_create o row = Some s → Forall (one_statement x) s.
Proof.
  intros Hd Hr. unfold neo4j_create. destruct (neo4j_props o row) as [props|] eqn:Hp; [|done]. cbn [mbind option_bind]. some_is.
  apply neo4j_props_safe in Hp; [|done | done]. constructor; [|constructor]. destruct (is_empty props).
  - change ");"%string with (")" +:+ ";")%string. rewrite string_app_assoc, string_app_assoc. apply ended.
    rewrite <- string_app_assoc. eapply lead_of; [done | done|]. eapply tail_of; [done | by apply neo4j_name_safe | done].
  - replace ("CREATE (n:" +:+ neo4j_label o +:+ " " +:+ lbrace +:+ props +:+ rbrace +:+ ");")%string
      with (("CREATE (n:" +:+ (neo4j_label o +:+ (" " +:+ lbrace) +:+ (props +:+ (rbrace +:+ ")")))) +:+ ";")%string.
    + apply ended. eapply lead_of; [done | done|]. eapply between; [done | by apply neo4j_name_safe | done|]. by eapply tail_of.
    + rewrite <- !string_app_assoc. reflexivity.
Qed.

Lemma neo4j_match_safe w rest :
  d = Some Neo4j → piece x w → tail_all rest = true →
  one_statement x ("MATCH (n:" +:+ neo4j_label o +:+ ") WHERE " +:+ w +:+ rest +:+ ";").
Proof.
  intros Hd Hw Ht.
  replace ("MATCH (n:" +:+ neo4j_label o +:+ ") WHERE " +:+ w +:+ rest +:+ ";")%string
    with (("MATCH (n:" +:+ (neo4j_label o +:+ ") WHERE " +:+ (w +:+ rest))) +:+ ";")%string.
  - apply ended. eapply lead_of; [done | done|]. eapply between; [done | by apply neo4j_name_safe | done|]. by eapply tail_of.
  - by rewrite <- !string_app_assoc.
Qed.

Lemma neo4j_delete_safe row s : d = Some Neo4j → row_ok row → neo4j_delete o row = Some s → Forall (one_statement x) s.
Proof.
  intros Hd Hr. unfold neo4j_delete. destruct (neo4j_element_id_predicate _ row) as [w|] eqn:Hw; [|done].
  cbn [mbind option_bind]. some_is. constructor; [|constructor].
  apply (neo4j_match_safe w " DETACH DELETE n"); [done | by eapply neo4j_predicate_safe | done].
Qed.

Lemma neo4j_set_safe value row changes s :
  d = Some Neo4j → row_ok row → (∀ change, change ∈ changes → value_ok (value change)) →
  neo4j_set o value row changes = Some s → Forall (one_statement x) s.
Proof.
  intros Hd Hr Hv. unfold neo4j_set.
  match goal with |- context [joined ", " ?f ?l] => destruct (joined ", " f l) as [sets|] eqn:Hj; [|done] end.
  cbn [mbind option_bind]. destruct (is_empty sets); [some_is; constructor|].
  destruct (neo4j_element_id_predicate _ row) as [w|] eqn:Hw; [|done]. cbn [mbind option_bind]. some_is.
  constructor; [|constructor]. apply neo4j_predicate_safe in Hw; [|done | done].
  assert (Hsets : piece x sets).
  { revert Hj. apply joined_safe; [done|]. intros [name v] l (change & Hin & Hc)%list_elem_of_omap. cbn in Hc.
    destruct (grid_columns o !! change.1) as [c|]; [|done]. cbn in Hc. destruct (is_element_id c); [done|]. injection Hc as <- <-.
    cbn [fst snd]. destruct (neo4j_literal (value change)) as [lit|] eqn:Hl; [|done]. cbn [mbind option_bind]. some_is.
    apply neo4j_member_safe; [done|]. by eapply neo4j_literal_safe; [|apply Hv|]. }
  replace ("MATCH (n:" +:+ neo4j_label o +:+ ") WHERE " +:+ w +:+ " SET " +:+ sets +:+ ";")%string
    with (("MATCH (n:" +:+ (neo4j_label o +:+ ") WHERE " +:+ (w +:+ " SET " +:+ sets))) +:+ ";")%string
    by (by rewrite <- !string_app_assoc).
  apply ended. eapply lead_of; [done | done|]. eapply between; [done | by apply neo4j_name_safe | done|]. by eapply between.
Qed.

Lemma neo4j_delete_matching_safe row s :
  d = Some Neo4j → row_ok row → neo4j_delete_matching o row = Some s → Forall (one_statement x) s.
Proof.
  intros Hd Hr. unfold neo4j_delete_matching. destruct (neo4j_row_property_where o row) as [w|] eqn:Hw; [|done].
  cbn [mbind option_bind]. some_is. constructor; [|constructor]. destruct (is_empty w).
  - replace ("MATCH (n:" +:+ neo4j_label o +:+ ") DETACH DELETE n;")%string
      with (("MATCH (n:" +:+ (neo4j_label o +:+ ") DETACH DELETE n")) +:+ ";")%string by (by rewrite <- !string_app_assoc).
    apply ended. eapply lead_of; [done | done|]. eapply tail_of; [done | by apply neo4j_name_safe | done].
  - apply (neo4j_match_safe w " DETACH DELETE n"); [done | | done]. revert Hw. apply joined_safe; [done|].
    intros p v [Hp _]%filtered. cbn beta zeta. destruct (bool_decide (p.2 = Null)).
    + some_is. apply is_null_safe. eapply (lead_of d x "n."); [done | done | by apply neo4j_name_safe].
    + destruct (neo4j_literal p.2) as [l|] eqn:Hl; [|done]. cbn [mbind option_bind]. some_is.
      rewrite <- string_app_assoc. apply neo4j_member_safe; [done|].
      eapply neo4j_literal_safe; [done | by eapply neo4j_cells_ok | exact Hl].
Qed.

(** ** TDengine *)

Lemma tdengine_table_safe s name : d = Some Tdengine → piece x (qualified_table_name (Some Tdengine) s name).
Proof.
  intros Hd. rewrite schema_name_joins by done. apply fmap_safe; [done|]. intros n _.
  change (quote_table_identifier (Some Tdengine) n) with (quoted backtick backtick n). apply backtick_name_safe. by right.
Qed.

Lemma tdengine_insert_safe row s :
  d = Some Tdengine → row_ok row → build_tdengine_insert_statement o save_columns row = Some s → Forall (one_statement x) s.
Proof.
  intros Hd Hr. unfold build_tdengine_insert_statement. set (pairs := List.filter _ _).
  assert (Hok : ∀ p, p ∈ pairs → value_ok p.2).
  { intros [name v] [Hp _]%filtered. apply filtered in Hp as [Hp _]. by apply present_ok in Hp as [_ Hv]. }
  clearbody pairs. cbn zeta. destruct (bool_decide (pairs = [])); [some_is; constructor|].
  destruct (joined ", " _ pairs) as [values|] eqn:Hj; [|done]. cbn [mbind option_bind]. some_is. constructor; [|constructor].
  assert (Hvalues : piece x values).
  { revert Hj. apply joined_safe; [done|]. intros p w Hin. rewrite <- Hd. apply literal_safe. by apply Hok. }
  match goal with |- one_statement x ("INSERT INTO " +:+ ?t +:+ " (" +:+ ?c +:+ ") VALUES (" +:+ values +:+ ");") =>
    replace ("INSERT INTO " +:+ t +:+ " (" +:+ c +:+ ") VALUES (" +:+ values +:+ ");")%string
      with (("INSERT INTO " +:+ (t +:+ " (" +:+ (c +:+ ") VALUES (" +:+ (values +:+ ")")))) +:+ ";")%string
      by (rewrite <- !string_app_assoc; reflexivity) end.
  apply ended. eapply lead_of; [done | done|]. eapply between; [done | by apply tdengine_table_safe | done|].
  eapply between; [done | | done | by eapply tail_of].
  apply fmap_safe; [done|]. intros p _. apply backtick_name_safe. by right.
Qed.

Lemma tdengine_delete_safe row s :
  d = Some Tdengine → row_ok row → build_tdengine_delete_statement o save_columns row = Some s → Forall (one_statement x) s.
Proof.
  intros Hd Hr. unfold build_tdengine_delete_statement. destruct (has_tdengine_composite_primary_key o); [some_is; constructor|].
  cbn zeta. destruct (build_primary_key_where (Some Tdengine) _ _ row _ None) as [w|] eqn:Hw; [|done]. cbn [mbind option_bind].
  destruct (is_empty w); [some_is; constructor|]. some_is. constructor; [|constructor]. rewrite <- Hd at 1. apply statement_safe.
  unfold data_grid_delete_sql. rewrite bool_decide_eq_false_2 by done.
  eapply lead_of; [done | done|]. eapply between; [done | by apply tdengine_table_safe | done|].
  revert Hw. unfold build_primary_key_where. rewrite andb_false_r. apply joined_safe; [done|]. intros name p [Hn _]%filtered.
  assert (build_column_predicate (Some Tdengine) name (primary_key_value (Some Tdengine) save_columns row name)
            (column_info_for column_info name) false None =
          build_column_predicate d name (primary_key_value d save_columns row name) (column_info_for column_info name) false q) as ->.
  { by rewrite Hd. }
  apply predicate_safe; [by apply key_ok|].
  unfold primary_key_value. destruct (find_column_index d save_columns name) as [i|]; [by apply cell_default | exact null_ok].
Qed.

(** ** All the statements *)

Lemma update_changes_ok i changes row :
  (i, changes) ∈ dirty_rows o → rows o !! i = Some row → row_ok (changed_row row changes).
Proof. intros Hin Hrow. apply changed_row_ok; [by eapply row_row_ok | by eapply changes_ok]. Qed.

Lemma save_statements_safe stmts : build_data_grid_save_statements o = Some stmts → Forall (one_statement x) stmts.
Proof.
  unfold build_data_grid_save_statements. destruct (bool_decide (d = Some Neo4j)) eqn:Hn.
  { apply bool_decide_eq_true in Hn. unfold build_neo4j_data_grid_save_statements.
    destruct (for_changes o (dirty_rows o) _) as [us|] eqn:Hu; [|done]. cbn [mbind option_bind].
    destruct (for_rows o (deleted_rows o) _) as [ds|] eqn:Hd; [|done]. cbn [mbind option_bind].
    destruct (for_all (new_rows o) _) as [is'|] eqn:Hi; [|done]. cbn [mbind option_bind]. some_is.
    apply Forall_app. split; [|apply Forall_app; split].
    - revert Hu. apply for_changes_safe. intros i changes row s Hin Hrow. apply neo4j_set_safe; [done | by eapply row_row_ok |].
      intros change Hc. exact (proj1 (Forall_forall _ _) (changes_ok _ _ Hin) change Hc).
    - revert Hd. apply for_rows_safe. intros i row s Hrow. apply neo4j_delete_safe; [done | by eapply row_row_ok].
    - revert Hi. apply for_all_safe. intros row s Hin. apply neo4j_create_safe; [done | by apply new_row_ok]. }
  destruct (bool_decide (d = Some Tdengine)) eqn:Ht.
  { apply bool_decide_eq_true in Ht. unfold build_tdengine_data_grid_save_statements.
    match goal with |- context [mbind _ ?u] => destruct u as [us|] eqn:Hu; [|done] end. cbn [mbind option_bind].
    destruct (for_rows o (deleted_rows o) _) as [ds|] eqn:Hd; [|done]. cbn [mbind option_bind].
    destruct (for_all (new_rows o) _) as [is'|] eqn:Hi; [|done]. cbn [mbind option_bind]. some_is.
    apply Forall_app. split; [|apply Forall_app; split].
    - destruct (_ || _); [|injection Hu as <-; constructor]. revert Hu. apply for_changes_safe.
      intros i changes row s Hin Hrow. apply tdengine_insert_safe; [done | by eapply update_changes_ok].
    - revert Hd. apply for_rows_safe. intros i row s Hrow. apply tdengine_delete_safe; [done | by eapply row_row_ok].
    - revert Hi. apply for_all_safe. intros row s Hin. apply tdengine_insert_safe; [done | by apply new_row_ok]. }
  destruct (update_loop o (dirty_rows o) None []) as [us|] eqn:Hu; [|done]. cbn [mbind option_bind].
  destruct (delete_statements o) as [ds|] eqn:Hd; [|done]. cbn [mbind option_bind].
  destruct (for_all (new_rows o) (insert_statement o)) as [is'|] eqn:Hi; [|done]. cbn [mbind option_bind]. some_is.
  apply Forall_app. split; [|apply Forall_app; split].
  - revert Hu. apply update_loop_safe; [apply changes_ok | done | constructor].
  - by apply delete_statements_safe.
  - revert Hi. apply for_all_safe. intros row s Hin. apply insert_statement_safe. by apply new_row_ok.
Qed.

Lemma rollback_statements_safe stmts : build_data_grid_rollback_statements o = Some stmts → Forall (one_statement x) stmts.
Proof.
  unfold build_data_grid_rollback_statements. destruct (bool_decide (d = Some Neo4j)) eqn:Hn.
  { apply bool_decide_eq_true in Hn. unfold build_neo4j_data_grid_rollback_statements.
    destruct (for_all (new_rows o) _) as [ds|] eqn:Hd; [|done]. cbn [mbind option_bind].
    destruct (for_rows o (deleted_rows o) _) as [is'|] eqn:Hi; [|done]. cbn [mbind option_bind].
    destruct (for_changes o (dirty_rows o) _) as [us|] eqn:Hu; [|done]. cbn [mbind option_bind]. some_is.
    apply Forall_app. split; [|apply Forall_app; split].
    - revert Hd. apply for_all_safe. intros row s Hin. apply neo4j_delete_matching_safe; [done | by apply new_row_ok].
    - revert Hi. apply for_rows_safe. intros i row s Hrow. apply neo4j_create_safe; [done | by eapply row_row_ok].
    - revert Hu. apply for_changes_safe. intros i changes row s Hin Hrow. pose proof (row_row_ok _ _ Hrow) as Hr.
      apply neo4j_set_safe; [done | done |]. intros change Hc. by apply cell_default. }
  destruct (bool_decide (d = Some Tdengine)) eqn:Ht.
  { apply bool_decide_eq_true in Ht. unfold build_tdengine_data_grid_rollback_statements.
    destruct (_ && _); [some_is; constructor|]. cbn zeta.
    destruct (for_all (new_rows o) _) as [ds|] eqn:Hd; [|done]. cbn [mbind option_bind].
    destruct (for_rows o (deleted_rows o) _) as [is'|] eqn:Hi; [|done]. cbn [mbind option_bind].
    destruct (for_changes o (dirty_rows o) _) as [us|] eqn:Hu; [|done]. cbn [mbind option_bind]. some_is.
    apply Forall_app. split; [|apply Forall_app; split].
    - revert Hd. apply for_all_safe. intros row s Hin. apply tdengine_delete_safe; [done | by apply new_row_ok].
    - revert Hi. apply for_rows_safe. intros i row s Hrow. apply tdengine_insert_safe; [done | by eapply row_row_ok].
    - revert Hu. apply for_changes_safe. intros i changes row s Hin Hrow. apply tdengine_insert_safe; [done | by eapply row_row_ok]. }
  destruct (bool_decide (d = Some ClickHouse)); [some_is; constructor|].
  destruct (for_all (new_rows o) (undo_insert o)) as [ds|] eqn:Hd; [|done]. cbn [mbind option_bind].
  destruct (reinsert_loop o (deleted_rows o) None []) as [is'|] eqn:Hi; [|done]. cbn [mbind option_bind].
  destruct (for_changes o (dirty_rows o) (undo_update o)) as [us|] eqn:Hu; [|done]. cbn [mbind option_bind]. some_is.
  apply Forall_app. split; [|apply Forall_app; split].
  - revert Hd. apply for_all_safe. intros row s Hin. apply undo_insert_safe. by apply new_row_ok.
  - revert Hi. by apply reinsert_loop_safe.
  - revert Hu. apply for_changes_safe. intros i changes row s Hin Hrow.
    apply undo_update_safe; [by eapply row_row_ok | by eapply changes_ok].
Qed.
End Safe.

(** C4: Whatever the cells, the column names and the table name hold, every statement
    the grid sends to save its changes and every statement it keeps to undo them is
    read by the database as one statement: every literal and every quoted name is
    closed, nothing of a cell or of a name is read outside of its quotes, no comment
    starts and no second statement follows. The databases that get names bare, names
    that already look quoted where those are passed on as they are, and Oracle cells
    that hold a quote or a backslash are left out. *)
Theorem save_statements_are_single `{JsonPrinter, Chrono, JsonNumbers, PercentDecoder} o x p :
  reads_grid (database_type o) x →
  grid_delimiters (database_type o) (identifier_quote o) = Some (opening x, closing x) →
  numbers_ok → Forall (grid_name_ok (database_type o) (identifier_quote o)) (save_names o) → Forall (grid_value_ok (database_type o)) (save_cells o) →
  prepare_data_grid_save o = Some p →
  Forall (one_statement x) (statements p) ∧ Forall (one_statement x) (rollback_statements p).
Proof.
  intros Hx Hdel Hnum Hnames Hcells. unfold prepare_data_grid_save.
  destruct (validate_data_grid_save o); [intros [= <-]; by split|].
  destruct (build_data_grid_save_statements o) as [stmts|] eqn:Hs; [|done]. cbn [mbind option_bind].
  destruct (build_data_grid_rollback_statements o) as [rolls|] eqn:Hr; [|done]. cbn [mbind option_bind]. intros [= <-].
  split; [by eapply save_statements_safe | by eapply rollback_statements_safe].
Qed.

Lemma save_statements_are_single_witness :
  let o := orders_save (Some Postgres) in
  ∃ p, @prepare_data_grid_save plain_printer no_clock plain_numbers plain_decoder o = Some p ∧
       List.length (statements p) = 4 ∧ Forall (one_statement dquote_lexer) (statements p) ∧
       Forall (one_statement dquote_lexer) (rollback_statements p).
Proof.
  destruct (@prepare_data_grid_save plain_printer no_clock plain_numbers plain_decoder (orders_save (Some Postgres))) as [p|] eqn:Hp;
    [|vm_compute in Hp; discriminate Hp].
  exists p. split; [exact Hp|]. split.
  - assert (List.length <$> (statements <$> Some p) = Some 4) as Hl by (rewrite <- Hp; vm_compute; reflexivity). by injection Hl.
  - apply (@save_statements_are_single plain_printer no_clock plain_numbers plain_decoder (orders_save (Some Postgres)) dquote_lexer p);
      [by split; [|right] | reflexivity | exact plain_numbers_ok | | | exact Hp].
    + unfold grid_name_ok. apply (bool_decide_eq_true_1 _). vm_compute. reflexivity.
    + unfold grid_value_ok. repeat constructor; done.
Defined.
