(* ===== verification/GridFilter.v ===== *)
(** * Filters of the data grid (data_grid_sql.rs)

    The conditions a column is filtered by, the statement that lists the values of a
    column, the one that counts rows, and copies of rows as UPDATE or INSERT.
    [None] inside is a condition the grid does not write, [None] outside a panic. *)
From S2P Require Import Prelude RustStr Json F64 SqlText AgentContext GridTypes SqlIdent SqlTemporal GridLiteral GridRows.

(** ** Values to compare with *)

Definition unwrap_matching_quotes (text : string) : string :=
  match chars text, last (chars text) with
  | first :: _, Some final =>
      if (2 <=? len text) && (((first =? 39) && (final =? 39))%N || ((first =? 34) && (final =? 34))%N)
      then String.substring 1 (len text - 2) text
      else text
  | _, _ => ""
  end.

Definition column_filter_ref (database_type : option DatabaseType) (column_name : string) (identifier_quote : option string) :
    string :=
  let quoted := data_grid_identifier database_type column_name identifier_quote in
  if bool_decide (database_type = Some Neo4j) then ("n." +:+ quoted)%string else quoted.

Definition column_like_filter_ref (database_type : option DatabaseType) (column_name : string)
    (column_info : option DataGridColumnInfo) (identifier_quote : option string) : string :=
  let column := column_filter_ref database_type column_name identifier_quote in
  if is_postgres_like_pattern_database database_type
     && match column_info with Some info => negb (is_textual_column_type (data_type info)) | None => true end
  then (column +:+ "::text")%string else column.

Inductive DataGridContextFilterMode : Type :=
| Equals | NotEquals | IsNull | IsNotNull | Like | NotLike | LessThan | GreaterThan | In_ | NotIn | Between | NotBetween.

Definition supports_data_grid_context_filter_mode (database_type : option DatabaseType) (mode : DataGridContextFilterMode) : bool :=
  match database_type, mode with
  | Some (InfluxDb | Cassandra | Jdbc), (In_ | NotIn | Between | NotBetween) => false
  | _, _ => true
  end.

Definition membership (column operator : string) (literals : list string) : string :=
  (column +:+ " " +:+ operator +:+ " (" +:+ join ", " literals +:+ ")")%string.
Definition build_membership_predicate (column : string) (literals : list string) (database_type : option DatabaseType)
    (negated : bool) : option string :=
  if bool_decide (literals = []) then None
  else if bool_decide (database_type = Some Neo4j) then
    let predicate := (column +:+ " IN [" +:+ join ", " literals +:+ "]")%string in
    Some (if negated then ("NOT (" +:+ predicate +:+ ")")%string else predicate)
  else
    let operator := if negated then "NOT IN" else "IN" in
    if bool_decide (database_type ≠ Some Oracle) || (List.length literals <=? 1000)
    then Some (membership column operator literals)
    else
      let joiner := if negated then " AND " else " OR " in
      Some ("(" +:+ join joiner (membership column operator <$> chunks 1000 literals) +:+ ")")%string.

Section Filters.
Context `{JsonPrinter, Chrono, JsonNumbers}.

Definition value_to_filter_text (value : Value) : string :=
  match value with VString value => value | Null => "" | _ => value_to_string value end.

Definition parse_typed_filter_value (text : string) (database_type : option DatabaseType)
    (column_info : option DataGridColumnInfo) : Value :=
  let unquoted := unwrap_matching_quotes text in
  let data_type := match column_info with Some column => to_ascii_lowercase (data_type column) | None => "" end in
  if is_boolean_type data_type database_type && eq_ignore_ascii_case unquoted "true" then Bool true
  else if is_boolean_type data_type database_type && eq_ignore_ascii_case unquoted "false" then Bool false
  else if (is_numeric_type data_type || is_empty data_type) && is_numeric_literal unquoted then
    match parse_number unquoted with Some number => Number number | None => VString unquoted end
  else VString unquoted.

(** The literals of the values that are not NULL, each once, and whether there was a NULL. *)
Fixpoint distinct_literals (values : list Value) (database_type : option DatabaseType)
    (column_info : option DataGridColumnInfo) (has_null : bool) (literals : list string) : option (bool * list string) :=
  match values with
  | [] => Some (has_null, literals)
  | value :: values' =>
      if bool_decide (value = Null) then distinct_literals values' database_type column_info true literals
      else
        literal ← format_grid_sql_literal value database_type column_info;
        distinct_literals values' database_type column_info has_null
          (if bool_decide (literal ∈ literals) then literals else literals ++ [literal])
  end.

Definition build_data_grid_context_membership_filter_condition (column : string) (values : list Value)
    (database_type : option DatabaseType) (column_info : option DataGridColumnInfo) (negated : bool) : option (option string) :=
  if bool_decide (values = []) then Some None
  else
    '(has_null, literals) ← distinct_literals values database_type column_info false [];
    let membership := build_membership_predicate column literals database_type negated in
    Some (if negated then
            match membership with
            | Some membership => Some ("(" +:+ column +:+ " IS NOT NULL AND " +:+ membership +:+ ")")%string
            | None => if (has_null : bool) then Some (column +:+ " IS NOT NULL")%string else None
            end
          else
            match membership with
            | Some membership =>
                Some (if (has_null : bool) then ("(" +:+ column +:+ " IS NULL OR " +:+ membership +:+ ")")%string else membership)
            | None => if (has_null : bool) then Some (column +:+ " IS NULL")%string else None
            end).

Definition build_data_grid_context_range_filter_condition (column : string) (start_value : Value) (end_value : option Value)
    (database_type : option DatabaseType) (column_info : option DataGridColumnInfo) (negated : bool) : option (option string) :=
  match end_value with
  | None => Some None
  | Some end_value =>
      if bool_decide (start_value = Null) || bool_decide (end_value = Null) then Some None
      else
        start ← format_grid_sql_literal start_value database_type column_info;
        end_ ← format_grid_sql_literal end_value database_type column_info;
        Some (Some (if bool_decide (database_type = Some Neo4j) then
                if negated
                then ("(" +:+ column +:+ " < " +:+ start +:+ " OR " +:+ column +:+ " > " +:+ end_ +:+ ")")%string
                else ("(" +:+ column +:+ " >= " +:+ start +:+ " AND " +:+ column +:+ " <= " +:+ end_ +:+ ")")%string
              else
                let operator := if negated then "NOT BETWEEN" else "BETWEEN" in
                (column +:+ " " +:+ operator +:+ " " +:+ start +:+ " AND " +:+ end_)%string))
  end.

Record DataGridContextFilterConditionOptions : Type := {
  f_database_type : option DatabaseType; f_identifier_quote : option string; f_column_name : string;
  mode : DataGridContextFilterMode; f_value : Value; f_values : list Value; f_end_value : option Value;
  f_column_info : option DataGridColumnInfo
}.

Definition build_data_grid_context_filter_condition (options : DataGridContextFilterConditionOptions) : option (option string) :=
  let d := f_database_type options in
  let info := f_column_info options in
  if negb (supports_data_grid_context_filter_mode d (mode options)) then Some None
  else
    let column := column_filter_ref d (f_column_name options) (f_identifier_quote options) in
    let like_column := column_like_filter_ref d (f_column_name options) info (f_identifier_quote options) in
    let value := f_value options in
    let compared (operator : string) :=
      literal ← format_grid_sql_literal value d info;
      Some (Some (column +:+ operator +:+ literal)%string) in
    let like (operator : string) :=
      literal ← format_grid_sql_literal (VString ("%" +:+ value_to_filter_text value +:+ "%")%string) d None;
      Some (Some (like_column +:+ operator +:+ literal)%string) in
    match mode options with
    | IsNull => Some (Some (column +:+ " IS NULL")%string)
    | IsNotNull => Some (Some (column +:+ " IS NOT NULL")%string)
    | Equals => if bool_decide (value = Null) then Some (Some (column +:+ " IS NULL")%string) else compared " = "
    | NotEquals => if bool_decide (value = Null) then Some (Some (column +:+ " IS NOT NULL")%string) else compared " <> "
    | Like => like " LIKE "
    | NotLike => like " NOT LIKE "
    | LessThan => compared " < "
    | GreaterThan => compared " > "
    | In_ => build_data_grid_context_membership_filter_condition column (f_values options) d info false
    | NotIn => build_data_grid_context_membership_filter_condition column (f_values options) d info true
    | Between => build_data_grid_context_range_filter_condition column value (f_end_value options) d info false
    | NotBetween => build_data_grid_context_range_filter_condition column value (f_end_value options) d info true
    end.

Definition build_data_grid_column_value_filter_condition (database_type : option DatabaseType)
    (identifier_quote : option string) (column_name : string) (column_info : option DataGridColumnInfo) (raw_value : string) :
    option (option string) :=
  let text := trim raw_value in
  if is_empty text then Some None
  else
    let column := column_filter_ref database_type column_name identifier_quote in
    if eq_ignore_ascii_case text "null" then Some (Some (column +:+ " IS NULL")%string)
    else
      let value := parse_typed_filter_value text database_type column_info in
      literal ← format_grid_sql_literal value database_type column_info;
      Some (Some (column +:+ " = " +:+ literal)%string).

Definition build_data_grid_column_values_filter_condition (database_type : option DatabaseType)
    (identifier_quote : option string) (column_name : string) (column_info : option DataGridColumnInfo) (values : list Value) :
    option (option string) :=
  if bool_decide (values = []) then Some None
  else
    let column := column_filter_ref database_type column_name identifier_quote in
    '(has_null, literals) ← distinct_literals values database_type column_info false [];
    let predicates :=
      (if (has_null : bool) then [(column +:+ " IS NULL")%string] else []) ++
      match literals with
      | [literal] => [(column +:+ " = " +:+ literal)%string]
      | _ => option_list (build_membership_predicate column literals database_type false)
      end in
    Some (match predicates with
          | [] => None
          | [predicate] => Some predicate
          | _ => Some ("(" +:+ join " OR " predicates +:+ ")")%string
          end).

(** ** The values of a column, and the count of rows *)

Record DataGridColumnDistinctValuesSqlOptions : Type := {
  v_database_type : option DatabaseType; v_identifier_quote : option string; v_catalog : option string;
  v_database : option string; v_schema : option string; v_table_name : string; v_column_name : string;
  v_column_info : option DataGridColumnInfo; where_input : option string; search_value : option string;
  limit : option nat; include_counts : bool
}.

Definition DATA_GRID_COLUMN_DISTINCT_VALUES_DEFAULT_LIMIT : nat := 1000.
Definition DATA_GRID_COLUMN_DISTINCT_VALUES_MAX_LIMIT : nat := 1000.
Definition data_grid_column_distinct_values_limit (limit : option nat) : nat :=
  let n := default DATA_GRID_COLUMN_DISTINCT_VALUES_DEFAULT_LIMIT limit in
  if n <? 1 then 1 else if DATA_GRID_COLUMN_DISTINCT_VALUES_MAX_LIMIT <? n then DATA_GRID_COLUMN_DISTINCT_VALUES_MAX_LIMIT else n.

Definition data_grid_column_distinct_values_search_predicate (o : DataGridColumnDistinctValuesSqlOptions) :
    option (option string) :=
  let d := v_database_type o in
  match trim <$> search_value o with
  | None => Some None
  | Some search =>
      if is_empty search then Some None
      else if negb (match v_column_info o with Some column => is_textual_column_type (data_type column) | None => true end)
              && negb (is_postgres_like_pattern_database d) then
        let column := column_filter_ref d (v_column_name o) (v_identifier_quote o) in
        let value := parse_typed_filter_value search d (v_column_info o) in
        literal ← format_grid_sql_literal value d (v_column_info o);
        Some (Some (column +:+ " = " +:+ literal)%string)
      else
        let column := column_like_filter_ref d (v_column_name o) (v_column_info o) (v_identifier_quote o) in
        literal ← format_grid_sql_literal (VString ("%" +:+ search +:+ "%")%string) d None;
        Some (Some (column +:+ " LIKE " +:+ literal)%string)
  end.

Definition where_of (predicates : list string) : string :=
  match predicates with [] => "" | _ => (" WHERE " +:+ join " AND " predicates)%string end.

Definition build_neo4j_data_grid_column_distinct_values_sql (o : DataGridColumnDistinctValuesSqlOptions) : option string :=
  let limit := pretty (data_grid_column_distinct_values_limit (limit o)) in
  let label := quote_table_identifier (Some Neo4j) (v_table_name o) in
  let column := column_filter_ref (Some Neo4j) (v_column_name o) None in
  let predicate := normalize_where_input (where_input o) in
  search ← match trimmed_non_empty (search_value o) with
           | Some search =>
               literal ← format_grid_sql_literal (VString search) (Some Neo4j) None;
               Some [("toString(" +:+ column +:+ ") CONTAINS " +:+ literal)%string]
           | None => Some []
           end;
  let where_clause := where_of ((if is_empty predicate then [] else [predicate]) ++ search) in
  Some (if include_counts o
        then ("MATCH (n:" +:+ label +:+ ")" +:+ where_clause +:+ " RETURN " +:+ column
              +:+ " AS dbx_value, count(*) AS dbx_count ORDER BY dbx_count DESC, dbx_value LIMIT " +:+ limit)%string
        else ("MATCH (n:" +:+ label +:+ ")" +:+ where_clause +:+ " RETURN DISTINCT " +:+ column
              +:+ " AS dbx_value ORDER BY dbx_value LIMIT " +:+ limit)%string).

Definition build_data_grid_column_distinct_values_sql `{PercentDecoder} (o : DataGridColumnDistinctValuesSqlOptions) :
    option string :=
  let d := v_database_type o in
  if bool_decide (d = Some Neo4j) then build_neo4j_data_grid_column_distinct_values_sql o
  else
    let rows := data_grid_column_distinct_values_limit (limit o) in
    let limit := pretty rows in
    let table := data_grid_qualified_table_name d (v_catalog o) (v_schema o) (v_database o) (v_table_name o) (v_identifier_quote o) in
    let column := column_filter_ref d (v_column_name o) (v_identifier_quote o) in
    let predicate := normalize_where_input (where_input o) in
    search ← data_grid_column_distinct_values_search_predicate o;
    let where_clause :=
      where_of ((if is_empty predicate then [] else [("(" +:+ predicate +:+ ")")%string]) ++ option_list search) in
    let select_list :=
      if include_counts o then (column +:+ " AS dbx_value, COUNT(*) AS dbx_count")%string else (column +:+ " AS dbx_value")%string in
    let order_by := if include_counts o then " ORDER BY dbx_count DESC, dbx_value" else " ORDER BY dbx_value" in
    let from_clause := (" FROM " +:+ table +:+ where_clause +:+ " GROUP BY " +:+ column +:+ order_by)%string in
    Some (match table_pagination_strategy d with
          | SqlServerTop => ("SELECT TOP (" +:+ limit +:+ ") " +:+ select_list +:+ from_clause)%string
          | IrisTop => ("SELECT TOP " +:+ limit +:+ " " +:+ select_list +:+ from_clause)%string
          | InformixFirst => ("SELECT FIRST " +:+ limit +:+ " " +:+ select_list +:+ from_clause)%string
          | FirebirdRows => ("SELECT " +:+ select_list +:+ from_clause +:+ " " +:+ firebird_rows_clause rows 0)%string
          | Db2FetchFirst | FetchFirst =>
              ("SELECT " +:+ select_list +:+ from_clause +:+ " FETCH FIRST " +:+ limit +:+ " ROWS ONLY")%string
          | Rownum => ("SELECT * FROM (SELECT " +:+ select_list +:+ from_clause +:+ ") WHERE ROWNUM <= " +:+ limit)%string
          | AgentMaxRows | Unbounded => ("SELECT " +:+ select_list +:+ from_clause)%string
          | QuestDbLimit | LimitOffset => ("SELECT " +:+ select_list +:+ from_clause +:+ " LIMIT " +:+ limit)%string
          end).
End Filters.

Definition build_data_grid_count_sql `{PercentDecoder} (database_type : option DatabaseType)
    (catalog schema database : option string) (table_name : string) (where_input identifier_quote : option string) : string :=
  let table := data_grid_qualified_table_name database_type catalog schema database table_name identifier_quote in
  let predicate := normalize_where_input where_input in
  let where_clause := if is_empty predicate then "" else (" WHERE (" +:+ predicate +:+ ")")%string in
  ("SELECT COUNT(*) AS cnt FROM " +:+ table +:+ where_clause)%string.

Definition build_hive_table_properties_sql `{PercentDecoder} (schema : option string) (table_name property_name : string) : string :=
  let table := qualified_table_name (Some Hive) schema table_name in
  ("SHOW TBLPROPERTIES " +:+ table +:+ " ('" +:+ double_quotes property_name +:+ "')")%string.

(** ** Copies of rows *)

Definition effective_copy_columns (source_columns : option (list (option string))) (columns : list string) :
    list (option string) :=
  match source_columns with
  | Some source_columns => if List.length source_columns =? List.length columns then source_columns else Some <$> columns
  | None => Some <$> columns
  end.

Definition supports_relational_copy_predicates (database_type : option DatabaseType) : bool :=
  match database_type with Some (Neo4j | Tdengine | MongoDb) => false | _ => true end.

Definition copy_column_info (column_info : list DataGridColumnInfo) (column : string) (fallback_type : option string) :
    option DataGridColumnInfo :=
  match column_info_for column_info column with
  | Some info => Some info
  | None =>
      (λ data_type, {| ci_name := column; data_type := data_type; is_nullable := true; is_primary_key := false;
                       column_default := None; extra := None |}) <$> fallback_type
  end.

Record DataGridCopyUpdateStatementOptions : Type := {
  u_database_type : option DatabaseType; u_table_meta : DataGridTableMeta; u_columns : list string;
  u_source_columns : option (list (option string)); u_rows : list (list Value)
}.

Inductive DataGridCopyInsertMode : Type := Merged | RowByRow.
Record DataGridCopyInsertStatementOptions : Type := {
  i_database_type : option DatabaseType; i_table_meta : option DataGridTableMeta; i_columns : list string;
  column_types : option (list (option string)); i_source_columns : option (list (option string)); i_rows : list (list Value);
  exclude_primary_keys : bool; include_computed_columns : bool; insert_mode : DataGridCopyInsertMode
}.

(** The columns that have a name, with their index. *)
Definition named_indexes (columns : list (option string)) : list (string * nat) :=
  omap (λ p : nat * option string, (λ column, (column, p.1)) <$> p.2) (imap pair columns).

Section Copies.
Context `{JsonPrinter, Chrono, JsonNumbers, PercentDecoder}.

Definition copy_update_sets (d : option DatabaseType) (column_info : list DataGridColumnInfo)
    (writable : list (string * nat)) (row : list Value) : option string :=
  joined ", "
    (λ p : string * nat,
      literal ← format_grid_sql_literal (default Null (row !! p.2)) d (column_info_for column_info p.1);
      Some (data_grid_identifier d p.1 None +:+ " = " +:+ literal)%string) writable.
Definition copy_update_where (d : option DatabaseType) (column_info : list DataGridColumnInfo)
    (keys : list (string * nat)) (row : list Value) : option string :=
  joined " AND "
    (λ p : string * nat,
      build_column_predicate d p.1 (default Null (row !! p.2)) (column_info_for column_info p.1) false None) keys.

(** A row whose key has a NULL is not copied. *)
Definition copy_update_row (d : option DatabaseType) (table : string) (column_info : list DataGridColumnInfo)
    (keys writable : list (string * nat)) (row : list Value) : option (list string) :=
  if existsb (λ p : string * nat, bool_decide (default Null (row !! p.2) = Null)) keys then Some []
  else
    sets ← copy_update_sets d column_info writable row;
    if is_empty sets then Some []
    else
      where_clause ← copy_update_where d column_info keys row;
      Some [data_grid_statement d (data_grid_update_sql d table sets where_clause)].

Definition build_data_grid_copy_update_statements (o : DataGridCopyUpdateStatementOptions) : option (list string) :=
  let d := u_database_type o in
  let meta := u_table_meta o in
  if negb (supports_relational_copy_predicates d) then Some []
  else if bool_decide (primary_keys meta = []) then Some []
  else
    let save_columns := effective_copy_columns (u_source_columns o) (u_columns o) in
    let column_info := columns_of meta in
    match mapM (find_column_index d save_columns) (primary_keys meta) with
    | None => Some []
    | Some indexes =>
        let primary_key_set := normalize_column_name <$> primary_keys meta in
        let writable :=
          List.filter (λ p : string * nat, negb (is_oracle_row_id d (Some p.1)))
            (List.filter (λ p : string * nat, negb (bool_decide (normalize_column_name p.1 ∈ primary_key_set)))
               (named_indexes save_columns)) in
        if bool_decide (writable = []) then Some []
        else
          let table :=
            data_grid_qualified_table_name d (catalog meta) (schema meta) (database meta) (table_name meta) None in
          @List.concat string <$>
            mapM (copy_update_row d table column_info (zip (primary_keys meta) indexes) writable) (u_rows o)
    end.

Definition copy_insert_tuple (d : option DatabaseType) (columns : list (string * nat * option DataGridColumnInfo))
    (row : list Value) : option string :=
  values ← joined ", "
    (λ p : string * nat * option DataGridColumnInfo,
      format_grid_copy_insert_sql_literal (default Null (row !! p.1.2)) d p.2) columns;
  Some ("(" +:+ values +:+ ")")%string.

Definition build_data_grid_copy_insert_statement (o : DataGridCopyInsertStatementOptions) : option (option string) :=
  let d := i_database_type o in
  let save_columns := effective_copy_columns (i_source_columns o) (i_columns o) in
  let column_info := match i_table_meta o with Some meta => columns_of meta | None => [] end in
  let primary_key_set : list string := match i_table_meta o with Some meta => normalize_column_name <$> primary_keys meta | None => [] end in
  let insertable_columns :=
    List.filter (λ p : string * nat * option DataGridColumnInfo,
        negb (is_grid_insert_omitted_column d p.2 (Some p.1.1) (include_computed_columns o)))
      ((λ p : string * nat,
          (p, copy_column_info column_info p.1 (types ← column_types o; mjoin (types !! p.2)))) <$> named_indexes save_columns) in
  let insert_columns :=
    List.filter (λ p : string * nat * option DataGridColumnInfo,
        negb (exclude_primary_keys o) || negb (bool_decide (normalize_column_name p.1.1 ∈ primary_key_set))) insertable_columns in
  if bool_decide (List.length insert_columns = 0) || bool_decide (i_rows o = []) then Some None
  else
    let table :=
      match i_table_meta o with
      | None => "table_name"
      | Some meta => qualified_table_name_with_catalog d (catalog meta) (schema meta) (database meta) (table_name meta)
      end in
    let columns := join ", " ((λ p : string * nat * option DataGridColumnInfo, quote_table_identifier d p.1.1) <$> insert_columns) in
    let into := ("INSERT INTO " +:+ table +:+ " (" +:+ columns +:+ ") VALUES")%string in
    value_rows ← mapM (copy_insert_tuple d insert_columns) (i_rows o);
    Some (Some
      (if match insert_mode o with RowByRow => true | Merged => false end
          || match d with Some d => uses_single_row_insert_statements d | None => false end
       then join newline ((λ values, (into +:+ " " +:+ values +:+ ";")%string) <$> value_rows)
       else (into +:+ (if Nat.eqb (List.length value_rows) 1 then " " else newline) +:+ join ("," +:+ newline)%string value_rows +:+ ";")%string)).
End Copies.

(** ** What a membership filter selects *)

(** Conditions on one column, as SQL reads them: a comparison with NULL is unknown. *)
Inductive Condition : Type :=
| CIsNull
| CNotNull
| CIn (negated : bool) (literals : list string)
| CAny (l : list Condition)
| CAll (l : list Condition).

Fixpoint render_condition (column : string) (c : Condition) : string :=
  match c with
  | CIsNull => (column +:+ " IS NULL")%string
  | CNotNull => (column +:+ " IS NOT NULL")%string
  | CIn negated literals => membership column (if negated then "NOT IN" else "IN") literals
  | CAny l => ("(" +:+ join " OR " (List.map (render_condition column) l) +:+ ")")%string
  | CAll l => ("(" +:+ join " AND " (List.map (render_condition column) l) +:+ ")")%string
  end.

Definition or3 (a b : option bool) : option bool :=
  match a, b with Some true, _ | _, Some true => Some true | Some false, Some false => Some false | _, _ => None end.
Definition and3 (a b : option bool) : option bool :=
  match a, b with Some false, _ | _, Some false => Some false | Some true, Some true => Some true | _, _ => None end.

(** The cell is NULL, or it equals what one literal denotes. *)
Fixpoint holds (cell : option string) (c : Condition) : option bool :=
  match c with
  | CIsNull => Some (bool_decide (cell = None))
  | CNotNull => Some (bool_decide (cell ≠ None))
  | CIn negated literals => (λ v, xorb negated (bool_decide (v ∈ literals))) <$> cell
  | CAny l => foldr or3 (Some false) (List.map (holds cell) l)
  | CAll l => foldr and3 (Some true) (List.map (holds cell) l)
  end.

(** The most literals of one list. *)
Fixpoint widest (c : Condition) : nat :=
  match c with
  | CIn _ literals => List.length literals
  | CAny l | CAll l => foldr Nat.max 0 (List.map widest l)
  | _ => 0
  end.

Lemma any_holds (l : list (option bool)) : foldr or3 (Some false) l = Some true ↔ Some true ∈ l.
Proof.
  induction l as [|a l IH]; [split; [done | by intros ?%elem_of_nil]|]. cbn. rewrite elem_of_cons, <- IH.
  destruct a as [[]|], (foldr or3 (Some false) l) as [[]|]; cbn; naive_solver.
Qed.
Lemma all_hold (l : list (option bool)) : foldr and3 (Some true) l = Some true ↔ Forall (λ a, a = Some true) l.
Proof.
  induction l as [|a l IH]; [by split|]. cbn. rewrite Forall_cons, <- IH.
  destruct a as [[]|], (foldr and3 (Some true) l) as [[]|]; cbn; naive_solver.
Qed.

Lemma render_and column c :
  ("(" +:+ column +:+ " IS NOT NULL AND " +:+ render_condition column c +:+ ")")%string =
  render_condition column (CAll [CNotNull; c]).
Proof. cbn. f_equal. rewrite <- !string_app_assoc. reflexivity. Qed.
Lemma render_or column c :
  ("(" +:+ column +:+ " IS NULL OR " +:+ render_condition column c +:+ ")")%string =
  render_condition column (CAny [CIsNull; c]).
Proof. cbn. f_equal. rewrite <- !string_app_assoc. reflexivity. Qed.

Section Membership.
Context `{JsonPrinter, Chrono, JsonNumbers}.
Variables (d : option DatabaseType) (ci : option DataGridColumnInfo).

(** A literal that some value of the list is written as. *)
Definition listed (values : list Value) (literal : string) : Prop :=
  ∃ v, v ∈ values ∧ v ≠ Null ∧ format_grid_sql_literal v d ci = Some literal.

Lemma distinct_literals_listed values hn0 l0 hn l :
  distinct_literals values d ci hn0 l0 = Some (hn, l) →
  (hn = true ↔ hn0 = true ∨ Null ∈ values) ∧ (∀ literal, literal ∈ l ↔ literal ∈ l0 ∨ listed values literal).
Proof.
  revert hn0 l0. induction values as [|v values IH]; intros hn0 l0; cbn [distinct_literals].
  { intros [= -> ->]. split.
    - split; [auto | by intros [?|?%elem_of_nil]].
    - intros literal. split; [auto|]. by intros [?|(v & ?%elem_of_nil & _)]. }
  destruct (bool_decide (v = Null)) eqn:Hv.
  - apply bool_decide_eq_true in Hv as ->. intros [Hn Hl]%IH. split.
    + rewrite Hn, elem_of_cons. naive_solver.
    + intros literal. rewrite Hl. split; (intros [?|(v & Hv & Hne & Hf)]; [by left | right; exists v]).
      * split; [by right | done].
      * apply elem_of_cons in Hv as [->|Hv]; done.
  - apply bool_decide_eq_false in Hv. destruct (format_grid_sql_literal v d ci) as [lit|] eqn:Hlit; [|done].
    cbn [mbind option_bind]. intros [Hn Hl]%IH. split.
    + rewrite Hn, elem_of_cons. split; [naive_solver|]. intros [?|[?|?]]; [by left | congruence | by right].
    + intros literal. rewrite Hl.
      assert (Hadd : literal ∈ (if bool_decide (lit ∈ l0) then l0 else l0 ++ [lit]) ↔ literal ∈ l0 ∨ literal = lit).
      { destruct (bool_decide (lit ∈ l0)) eqn:Hin.
        - apply bool_decide_eq_true in Hin. naive_solver.
        - by rewrite elem_of_app, list_elem_of_singleton. }
      rewrite Hadd. split.
      * intros [[?| ->]|(v' & Hv' & Hne & Hf)]; [by left | right; exists v; split_and!; [by left | done | done] |].
        right. exists v'. split_and!; [by right | done | done].
      * intros [?|(v' & [->|Hv']%elem_of_cons & Hne & Hf)]; [tauto | left; right; congruence |].
        right. exists v'. by split_and!.
Qed.

Lemma distinct_literals_written values hn0 l0 r v :
  distinct_literals values d ci hn0 l0 = Some r → v ∈ values → v ≠ Null → ∃ literal, format_grid_sql_literal v d ci = Some literal.
Proof.
  revert hn0 l0. induction values as [|v' values IH]; intros hn0 l0; [by intros _ ?%elem_of_nil|]. cbn [distinct_literals].
  destruct (bool_decide (v' = Null)) eqn:Hv'.
  - apply bool_decide_eq_true in Hv' as ->. intros Hr [->|Hv]%elem_of_cons Hne; [done | by eapply IH].
  - destruct (format_grid_sql_literal v' d ci) as [lit|] eqn:Hlit; [|done]. cbn [mbind option_bind].
    intros Hr [->|Hv]%elem_of_cons Hne; [by exists lit | by eapply IH].
Qed.

Lemma membership_condition column literals negated :
  d ≠ Some Neo4j → literals ≠ [] →
  ∃ c, build_membership_predicate column literals d negated = Some (render_condition column c) ∧
       (∀ cell, holds cell c = Some true ↔ ∃ v, cell = Some v ∧ if negated then v ∉ literals else v ∈ literals) ∧
       (d = Some Oracle → widest c ≤ 1000).
Proof.
  intros Hd Hne. unfold build_membership_predicate. rewrite (bool_decide_eq_false_2 (literals = [])) by done.
  rewrite (bool_decide_eq_false_2 (d = Some Neo4j)) by done.
  assert (Hin : ∀ l cell, holds cell (CIn negated l) = Some true ↔ ∃ v, cell = Some v ∧ if negated then v ∉ l else v ∈ l).
  { intros l cell. cbn. destruct cell as [v|]; cbn; [|split; [done | by intros (? & ? & _)]].
    destruct (decide (v ∈ l)) as [Hv|Hv]; [rewrite bool_decide_eq_true_2 by done | rewrite bool_decide_eq_false_2 by done];
      destruct negated; cbn; naive_solver. }
  destruct (bool_decide (d ≠ Some Oracle) || (List.length literals <=? 1000)) eqn:Hone.
  - exists (CIn negated literals). split; [by destruct negated|]. split; [apply Hin|]. intros ->. cbn.
    apply orb_true_iff in Hone as [Ho|Ho%Nat.leb_le]; [|done]. by apply bool_decide_eq_true in Ho.
  - clear Hone. pose proof (chunks_concat 1000 literals ltac:(lia)) as Hc.
    pose proof (chunks_width 1000 literals) as Hw. revert Hc Hw. generalize (chunks 1000 literals). intros cs Hc Hw.
    assert (Hwide : foldr Nat.max 0 (List.map widest (CIn negated <$> cs)) ≤ 1000).
    { clear Hc. induction Hw as [|c cs Hcw _ IH]; [cbn; lia|]. cbn in *. lia. }
    assert (Hmem : ∀ v, v ∈ literals ↔ ∃ c, c ∈ cs ∧ v ∈ c).
    { intros v. rewrite <- Hc, list_elem_of_In, in_concat. split; intros (c & Hc1 & Hc2); exists c; by rewrite !list_elem_of_In in *. }
    assert (Hr : ∀ column, List.map (render_condition column) (CIn negated <$> cs) =
                           membership column (if negated then "NOT IN" else "IN") <$> cs).
    { intros col. clear. induction cs as [|c cs IH]; [done|]. cbn. by f_equal. }
    destruct negated.
    + exists (CAll (CIn true <$> cs)). split; [cbn [render_condition]; by rewrite Hr|]. split; [|done].
      intros cell. cbn [holds]. rewrite all_hold.
      assert (Hall : Forall (λ a, a = Some true) (List.map (holds cell) (CIn true <$> cs)) ↔ Forall (λ c, holds cell (CIn true c) = Some true) cs).
      { clear. induction cs as [|c cs IH]; [by split|]. cbn. rewrite !Forall_cons. by rewrite IH. }
      rewrite Hall. destruct cs as [|c0 cs]; [by rewrite <- Hc in Hne|]. split.
      * intros HF. pose proof (Forall_inv HF) as H0'. apply Hin in H0' as (v & -> & _). exists v. split; [done|].
        intros Hv. apply Hmem in Hv as (c & Hcs & Hv). apply (proj1 (Forall_forall _ _) HF) in Hcs.
        apply Hin in Hcs as (v' & [= <-] & Hno). done.
      * intros (v & -> & Hv). apply Forall_forall. intros c Hcs. apply Hin. exists v. split; [done|]. intros Hvc. apply Hv, Hmem. by exists c.
    + exists (CAny (CIn false <$> cs)). split; [cbn [render_condition]; by rewrite Hr|]. split; [|done].
      intros cell. cbn [holds]. rewrite any_holds.
      assert (Hany : Some true ∈ List.map (holds cell) (CIn false <$> cs) ↔ ∃ c, c ∈ cs ∧ holds cell (CIn false c) = Some true).
      { rewrite list_elem_of_In, in_map_iff. split.
        - intros (c & Hh & Hcs). apply list_elem_of_In, list_elem_of_fmap in Hcs as (c' & -> & Hc'). by exists c'.
        - intros (c & Hcs & Hh). exists (CIn false c). split; [done|]. apply list_elem_of_In, list_elem_of_fmap. by exists c. }
      rewrite Hany. split.
      * intros (c & Hcs & (v & -> & Hv)%Hin). exists v. split; [done|]. apply Hmem. by exists c.
      * intros (v & -> & (c & Hcs & Hv)%Hmem). exists c. split; [done|]. apply Hin. by exists v.
Qed.

(** C23: The filter for a list of values keeps exactly the rows it names: a row whose
    cell equals a value of the list, or is NULL where NULL is in the list; the negated
    filter keeps the rows whose cell is not NULL and equals no value of the list. Every
    list that has a value gives a condition, and where Oracle allows no more than 1000
    values in a list the condition is split into such lists and selects the same rows. *)
Theorem membership_filter_selects column values negated r :
  d ≠ Some Neo4j → values ≠ [] →
  build_data_grid_context_membership_filter_condition column values d ci negated = Some r →
  ∃ c, r = Some (render_condition column c) ∧
    (∀ cell, holds cell c = Some true ↔
       if negated then ∃ v, cell = Some v ∧ ¬ listed values v
       else (cell = None ∧ Null ∈ values) ∨ ∃ v, cell = Some v ∧ listed values v) ∧
    (d = Some Oracle → widest c ≤ 1000).
Proof.
  intros Hd Hne. unfold build_data_grid_context_membership_filter_condition.
  rewrite (bool_decide_eq_false_2 (values = [])) by done.
  destruct (distinct_literals values d ci false []) as [[hn l]|] eqn:Hl; [|done]. cbn [mbind option_bind]. some_is.
  pose proof (distinct_literals_written _ _ _ _ (hd Null values) Hl) as Hwritten.
  apply distinct_literals_listed in Hl as [Hn Hl].
  assert (Hlist : ∀ v, v ∈ l ↔ listed values v) by (intros v; rewrite Hl; split; [by intros [?%elem_of_nil|?] | by right]).
  assert (Hnull : hn = true ↔ Null ∈ values) by (rewrite Hn; split; [by intros [?|?] | by right]). clear Hl Hn.
  destruct (decide (l = [])) as [->|Hnel].
  - assert (Hno : ∀ v, ¬ listed values v) by (intros v Hv; by apply Hlist, elem_of_nil in Hv).
    cbn [build_membership_predicate bool_decide]. unfold build_membership_predicate. rewrite bool_decide_eq_true_2 by done.
    destruct hn.
    + destruct negated; [exists CNotNull | exists CIsNull]; (split; [done|]; split; [|cbn; lia]); intros [v|]; cbn; naive_solver.
    + exfalso. destruct values as [|v values]; [done|]. cbn in Hwritten. destruct (decide (v = Null)) as [->|Hv].
      * assert (false = true); [|done]. apply Hnull. by left.
      * destruct (Hwritten ltac:(by left) Hv) as [lit Hlit]. apply (Hno lit). exists v. split; [by left | done].
  - destruct (membership_condition column l negated Hd Hnel) as (c & -> & Hc & Hw).
    destruct negated.
    + exists (CAll [CNotNull; c]). split; [f_equal; apply render_and|]. split; [|cbn; intros Ho; specialize (Hw Ho); lia].
      intros cell. cbn [holds List.map]. rewrite all_hold, !Forall_cons, Hc. cbn. setoid_rewrite Hlist. destruct cell; naive_solver.
    + destruct hn.
      * exists (CAny [CIsNull; c]). split; [f_equal; apply render_or|]. split; [|cbn; intros Ho; specialize (Hw Ho); lia].
        intros cell. cbn [holds List.map]. rewrite any_holds, !elem_of_cons, elem_of_nil.
        assert (Some true = holds cell c ↔ holds cell c = Some true) as -> by (split; congruence).
        rewrite Hc. cbn. setoid_rewrite Hlist. destruct cell; naive_solver.
      * exists c. split; [done|]. split; [|done]. intros cell. rewrite Hc. setoid_rewrite Hlist.
        split; [naive_solver|]. intros [[_ Hv]|Hv]; [|done]. by apply Hnull in Hv.
Qed.
End Membership.

(** A list with NULL, for a text column. *)
Lemma membership_filter_selects_witness :
  let values := [VString "a"; Null; VString "it's"; VString "a"] in
  let r := @build_data_grid_context_membership_filter_condition plain_printer no_clock plain_numbers "c" values (Some Mysql) None false in
  r = Some (Some "(c IS NULL OR c IN ('a', 'it''s'))") ∧
  ∃ c, mjoin r = Some (render_condition "c" c) ∧
    (∀ cell, holds cell c = Some true ↔ (cell = None ∧ Null ∈ values) ∨
       ∃ v, cell = Some v ∧ @listed plain_printer no_clock plain_numbers (Some Mysql) None values v).
Proof.
  split; [vm_compute; reflexivity|].
  destruct (@membership_filter_selects plain_printer no_clock plain_numbers (Some Mysql) None "c"
              [VString "a"; Null; VString "it's"; VString "a"] false (Some "(c IS NULL OR c IN ('a', 'it''s'))"))
    as (c & Hr & Hc & _); [done | done | vm_compute; reflexivity |].
  exists c. split; [|exact Hc]. rewrite <- Hr. vm_compute. reflexivity.
Defined.
