(* ===== verification/GridSync.v ===== *)
(** * Statements of a synchronisation, written by the grid (data_compare.rs, data_grid_sql.rs)

    DataCompare leaves open how a table, a column and a cell are written. Here they
    are written as the code writes them, with the names of SqlIdent and the literals
    of GridLiteral, and every statement of a synchronisation is a single one. *)
From S2P Require Import Prelude RustStr Json F64 SqlText AgentContext GridTypes DataCompare SqlIdent SqlScan SqlTemporal GridLiteral GridRows GridSafe.

(** The writer of the comparison. Where a literal panics nothing is written at all;
    the empty text stands for it. *)
Definition grid_writer `{JsonPrinter, Chrono, JsonNumbers, PercentDecoder} : DataCompare.SqlWriter := {|
  DataCompare.qualified_table_name := SqlIdent.qualified_table_name;
  DataCompare.quote_table_identifier := SqlIdent.quote_table_identifier;
  DataCompare.format_data_grid_sql_literal value d ci := default "" (format_grid_sql_literal value d ci)
|}.

Section Sync.
Context `{JsonPrinter, Chrono, JsonNumbers, PercentDecoder}.
#[local] Existing Instance grid_writer.
Variables (o : GenerateDataSyncSqlOptions) (x : Lexer).
Abbreviation d := (DataCompare.database_type o).
Abbreviation name_ok := (grid_name_ok d None).
Abbreviation value_ok := (grid_value_ok d).

Hypothesis Hx : reads_grid d x.
Hypothesis Hdel : delimiters d = Some (opening x, closing x).
Hypothesis Hnum : numbers_ok.

(** ** The statements *)

Definition condition_ok (condition : KeyCondition) : Prop := Forall (λ p : string * Value, name_ok p.1 ∧ value_ok p.2) condition.
Definition assigned_ok (e : Assigned) : Prop :=
  match e with
  | ToLiteral v => value_ok v
  | ToCase cases => Forall (λ p : KeyCondition * Value, condition_ok p.1 ∧ value_ok p.2) cases
  end.
Definition statement_ok (s : SyncStatement) : Prop :=
  match s with
  | InsertDefaults => True
  | Insert columns rows => Forall name_ok columns ∧ Forall (Forall value_ok) rows
  | Update assignments conditions =>
      Forall (λ a : string * Assigned, name_ok a.1 ∧ assigned_ok a.2) assignments ∧ Forall condition_ok conditions
  | Delete conditions => Forall condition_ok conditions
  end.

Lemma column_piece column : name_ok column → piece x (quoted_column o column).
Proof.
  intros [Hp Hu]. apply (grid_form_piece d x Hx column). by apply table_name_form.
Qed.

Lemma literal_piece column v : value_ok v → piece x (literal_of o column v).
Proof.
  intros Hv. unfold literal_of. cbn [format_data_grid_sql_literal grid_writer].
  destruct (format_grid_sql_literal v d _) as [w|] eqn:Hw; [by eapply grid_literal_safe | by apply (plain_word d)].
Qed.

Lemma joined_piece {A} separator (f : A → string) (P : A → Prop) l :
  gap_all separator = true → Forall P l → (∀ a, P a → piece x (f a)) → piece x (join separator (f <$> l)).
Proof.
  intros Hs Hl Hf. apply (grid_fmap_safe d x Hx); [done|]. intros a Ha. apply Hf. by eapply (proj1 (Forall_forall _ _) Hl).
Qed.

Lemma condition_piece condition : condition_ok condition → piece x (condition_text o condition).
Proof.
  intros Hc. eapply joined_piece; [done | exact Hc|]. intros [column v] [Hn Hv].
  by apply (grid_equals_safe d x Hx); [apply column_piece | apply literal_piece].
Qed.

Lemma conditions_piece conditions : Forall condition_ok conditions → piece x (conditions_text o conditions).
Proof.
  intros Hc. unfold conditions_text.
  assert (piece x (join " OR " ((λ condition, "(" +:+ condition_text o condition +:+ ")")%string <$> conditions))) as Hj.
  { eapply joined_piece; [done | exact Hc|]. intros condition Hok.
    by apply (grid_parenthesised_safe d x Hx), condition_piece. }
  destruct Hc as [|c [|c' conditions] Hc _]; [done | by apply condition_piece | done].
Qed.

Lemma assignment_piece a : name_ok a.1 ∧ assigned_ok a.2 → piece x (assignment_text o a).
Proof.
  destruct a as [column [v|cases]]; unfold assignment_text; cbv beta iota; intros [Hn He]; cbn [fst snd assigned_ok] in Hn, He;
    pose proof (column_piece _ Hn) as Hc.
  - by apply (grid_equals_safe d x Hx); [|apply literal_piece].
  - eapply between; [done | done | done|]. eapply between; [done | | done|].
    + eapply joined_piece; [done | exact He|]. intros [condition v] [Hok Hv].
      eapply (lead_of d x "WHEN "); [done | done|]. eapply between; [done | by apply condition_piece | done | by apply literal_piece].
    + by eapply tail_of.
Qed.

Lemma render_safe table s : piece x table → statement_ok s → one_statement x (render o table s).
Proof.
  intros Ht. destruct s as [|columns rows|assignments conditions|conditions]; cbn [statement_ok render].
  - intros _. rewrite string_app_assoc. change " DEFAULT VALUES;" with (" DEFAULT VALUES" +:+ ";")%string.
    rewrite string_app_assoc. apply (grid_ended d x Hx). rewrite <- string_app_assoc.
    eapply lead_of; [done | done|]. by eapply tail_of.
  - intros [Hc Hr]. rewrite !string_app_assoc. apply (grid_ended d x Hx). rewrite <- !string_app_assoc.
    eapply lead_of; [done | done|]. eapply between; [done | done | done|]. eapply between; [done | | done|].
    + eapply joined_piece; [done | exact Hc | exact column_piece].
    + eapply joined_piece; [done | exact Hr|]. intros row Hrow. apply (grid_parenthesised_safe d x Hx).
      apply piece_join; [by eapply gap_of|]. revert columns Hc. induction Hrow as [|v row Hv Hrow IH]; intros [|c columns] Hc;
        try constructor; [by apply literal_piece|]. apply IH. by inversion Hc.
  - intros [Ha Hc]. rewrite !string_app_assoc. apply (grid_ended d x Hx). rewrite <- !string_app_assoc.
    eapply lead_of; [done | done|]. eapply between; [done | done | done|]. eapply between; [done | | done|].
    + eapply joined_piece; [done | exact Ha | exact assignment_piece].
    + by apply conditions_piece.
  - intros Hc. rewrite !string_app_assoc. apply (grid_ended d x Hx). rewrite <- !string_app_assoc.
    eapply lead_of; [done | done|]. eapply between; [done | done | done|]. by apply conditions_piece.
Qed.

(** ** The statements of a difference *)

Definition cells_ok (m : gmap string Value) : Prop := map_Forall (λ _ v, value_ok v) m.
Definition diff_ok : Prop :=
  Forall (λ row, cells_ok (values row)) (added (diff o)) ∧
  Forall (λ row, cells_ok (modified_key_values row) ∧ Forall (λ c, name_ok (column c) ∧ value_ok (source c)) (changes row))
    (modified (diff o)) ∧
  Forall (λ row, cells_ok (row_key_values row)) (removed (diff o)).
(** The columns, and the segments of the table. *)
Definition sync_names : list string :=
  sync_columns o ++ sync_key_columns o ++ schema_path d (DataCompare.schema o) (DataCompare.table_name o).

Hypothesis Hnames : Forall name_ok sync_names.
Hypothesis Hdiff : diff_ok.

Lemma cell_of m column : cells_ok m → value_ok (default Null (m !! column)).
Proof.
  intros Hm. destruct (m !! column) as [v|] eqn:Hv; [exact (Hm column v Hv) | apply grid_null_ok].
Qed.

Lemma where_ok key_values : cells_ok key_values → condition_ok (where_by_key o key_values).
Proof.
  intros Hk. apply Forall_fmap, Forall_forall. intros column Hin. split; [|by apply cell_of].
  apply (proj1 (Forall_forall _ _) Hnames). unfold sync_names. rewrite !elem_of_app. tauto.
Qed.

Lemma columns_ok f : Forall name_ok (List.filter f (sync_columns o)).
Proof.
  apply Forall_forall. intros column Hin. apply (proj1 (Forall_forall _ _) Hnames).
  apply list_elem_of_In, List.filter_In in Hin as [Hin%list_elem_of_In _]. unfold sync_names. rewrite elem_of_app. tauto.
Qed.

Lemma insert_size : 0 < DATA_SYNC_INSERT_BATCH_SIZE.
Proof. unfold DATA_SYNC_INSERT_BATCH_SIZE. lia. Qed.
Lemma condition_size : 0 < DATA_SYNC_CONDITION_BATCH_SIZE.
Proof. unfold DATA_SYNC_CONDITION_BATCH_SIZE. lia. Qed.

(** What holds of every item holds of those of a slice. *)
Lemma chunk_Forall {A} (P : A → Prop) n l ck : 0 < n → Forall P l → ck ∈ chunks n l → Forall P ck.
Proof.
  intros Hn Hl Hck. apply Forall_forall. intros a Ha. by eapply (proj1 (Forall_forall _ _) Hl), elem_of_chunk.
Qed.

Lemma inserts_ok : Forall statement_ok (insert_statements o).
Proof.
  destruct Hdiff as [Ha _]. unfold insert_statements. pose proof (columns_ok (λ column, negb (generated o column))) as Hc.
  revert Hc. generalize (List.filter (λ column, negb (generated o column)) (sync_columns o)). intros cols Hc.
  destruct cols as [|c cols]; [by apply Forall_fmap, Forall_true|].
  apply Forall_fmap, Forall_forall. intros ck Hck. split; [exact Hc|].
  apply (chunk_Forall _ _ _ _ insert_size Ha) in Hck.
  apply Forall_fmap. eapply Forall_impl; [exact Hck|]. intros row Hrow. cbn beta.
  apply Forall_fmap, Forall_true. intros column. by apply cell_of.
Qed.

Abbreviation modified_ok := (λ row, cells_ok (modified_key_values row) ∧
  Forall (λ c, name_ok (column c) ∧ value_ok (source c)) (changes row)).

Lemma single_update_ok row : modified_ok row → statement_ok (single_update_statement o row).
Proof.
  intros [Hk Hc]. split; [|by constructor; [apply where_ok|]].
  apply Forall_fmap, Forall_forall. intros change Hin. apply list_elem_of_In, List.filter_In in Hin as [Hin%list_elem_of_In _].
  exact (proj1 (Forall_forall _ _) Hc change Hin).
Qed.

Lemma change_of_ok column_name row change : modified_ok row → change_of column_name row = Some change → value_ok (source change).
Proof.
  intros [_ Hc] Hf%List.find_some. destruct Hf as [Hin%list_elem_of_In _].
  apply (proj1 (Forall_forall _ _) Hc change Hin).
Qed.

Lemma update_chunk_ok chunk : Forall modified_ok chunk → Forall statement_ok (update_chunk o chunk).
Proof.
  intros Hck. unfold update_chunk. 
  assert (Hmany : ∀ cols, Forall name_ok cols → statement_ok (Update
    ((λ column_name, (column_name, ToCase (omap (λ row, change ← change_of column_name row;
        Some (where_by_key o (modified_key_values row), source change)) chunk))) <$> cols)
    ((λ row, where_by_key o (modified_key_values row)) <$> chunk))).
  { intros cols Hcols. split.
    - apply Forall_fmap. eapply Forall_impl; [exact Hcols|]. intros column Hn. split; [exact Hn|]. cbn.
      apply Forall_forall. intros [condition v] (row & Hin & Hrow)%list_elem_of_omap.
      pose proof (proj1 (Forall_forall _ _) Hck row Hin) as Hok.
      cbn beta in Hrow. destruct (change_of column row) as [change|] eqn:Hch; [|done]. cbn in Hrow. injection Hrow as <- <-.
      split; [by apply where_ok, Hok | exact (change_of_ok _ _ _ Hok Hch)].
    - apply Forall_fmap. eapply Forall_impl; [exact Hck|]. intros row [Hk _]. by apply (where_ok (modified_key_values row)). }
  pose proof (λ f, Hmany _ (columns_ok f)) as Hcols.
  destruct Hck as [|row [|row' chunk] Hrow Hck]; cbn zeta.
  - destruct (List.filter _ _) eqn:Hf; [constructor|]. rewrite <- Hf. constructor; [apply Hcols | constructor].
  - constructor; [by apply single_update_ok | constructor].
  - destruct (List.filter _ _) eqn:Hf; [constructor|]. rewrite <- Hf. constructor; [apply Hcols | constructor].
Qed.

Lemma sync_statements_ok : Forall statement_ok (sync_statements_of o).
Proof.
  destruct Hdiff as (_ & Hm & Hr). apply Forall_app. split; [exact inserts_ok|]. apply Forall_app. split.
  - apply Forall_forall. intros s (chunk & Hs & Hck)%list_elem_of_bind.
    eapply (proj1 (Forall_forall _ _) (update_chunk_ok chunk _)); [exact Hs]. Unshelve.
    eapply chunk_Forall; [exact condition_size | | exact Hck].
    apply Forall_forall. intros row Hin. apply list_elem_of_In, List.filter_In in Hin as [Hin%list_elem_of_In _].
    exact (proj1 (Forall_forall _ _) Hm row Hin).
  - apply Forall_fmap, Forall_forall. intros chunk Hck.
    apply (chunk_Forall _ _ _ _ condition_size Hr) in Hck.
    apply Forall_fmap. eapply Forall_impl; [exact Hck|]. intros row Hrow. by apply where_ok.
Qed.

Lemma table_piece : piece x (qualified_table_name d (DataCompare.schema o) (DataCompare.table_name o)).
Proof.
  cbn [DataCompare.qualified_table_name grid_writer].
  rewrite schema_name_joins by (intros Hd; rewrite Hd in Hdel; discriminate Hdel).
  apply (joined_piece _ _ name_ok); [done | | exact column_piece].
  apply Forall_app in Hnames as [_ [_ Hp]%Forall_app]. exact Hp.
Qed.

Lemma sync_texts_single : Forall (one_statement x) (generate_data_sync_statements o).
Proof.
  unfold generate_data_sync_statements, generate_insert_sync_statements, generate_update_sync_statements,
    generate_delete_sync_statements. cbn zeta. rewrite <- !fmap_app. apply Forall_fmap.
  eapply Forall_impl; [exact sync_statements_ok|]. intros s Hs. by apply render_safe; [apply table_piece|].
Qed.
End Sync.

(** C20: Every statement of a data synchronisation, written with the names and the
    literals the program writes, is read by the database as one statement, whatever
    the cells of the source, the columns and the table hold: a cell of the compared
    database cannot run SQL in the other. The databases that get names bare, names
    that look quoted where those are passed on, and Oracle cells with a quote or a
    backslash are left out. *)
Theorem sync_statements_are_single `{JsonPrinter, Chrono, JsonNumbers, PercentDecoder} o x :
  reads_grid (DataCompare.database_type o) x → delimiters (DataCompare.database_type o) = Some (opening x, closing x) →
  numbers_ok → Forall (grid_name_ok (DataCompare.database_type o) None) (sync_names o) → diff_ok o →
  Forall (one_statement x) (@generate_data_sync_statements grid_writer o).
Proof. intros. by apply sync_texts_single. Qed.

(** A row to insert whose text closes the literal, and a row to delete. *)
Definition sample_sync : GenerateDataSyncSqlOptions :=
  {| DataCompare.table_name := "orders"; DataCompare.schema := Some "shop"; sync_columns := ["id"; "no`te"];
     sync_key_columns := ["id"]; column_info := [];
     diff := {| added := [{| key := "1"; row_key_values := {["id" := Number "1"]};
                             values := <["id" := Number "1"]> {["no`te" := VString "a\'); DROP TABLE b; --"]} |}];
                removed := [{| key := "2"; row_key_values := {["id" := Number "2"]}; values := ∅ |}]; modified := [] |};
     DataCompare.database_type := Some Mysql |}.
Definition mysql_lexer : Lexer := {| backslash_escapes := true; opening := "`"; closing := "`" |}.

Lemma sync_statements_are_single_witness :
  let written := @generate_data_sync_statements
    (@grid_writer plain_printer no_clock plain_numbers plain_decoder) sample_sync in
  written = ["INSERT INTO `shop`.`orders` (`id`, `no``te`) VALUES (1, 'a\\''); DROP TABLE b; --');";
             "DELETE FROM `shop`.`orders` WHERE `id` = 2;"] ∧
  Forall (one_statement mysql_lexer) written.
Proof.
  split; [vm_compute; reflexivity|].
  apply (@sync_statements_are_single plain_printer no_clock plain_numbers plain_decoder sample_sync mysql_lexer);
    [by split; [|left] | reflexivity | exact plain_numbers_ok | | ].
  - unfold grid_name_ok. apply (bool_decide_eq_true_1 _). vm_compute. reflexivity.
  - assert (∀ v, @cell_ok plain_printer v = true → @grid_value_ok plain_printer (DataCompare.database_type sample_sync) v) as Hv by (intros v Hv; by split).
    split; [|split; [constructor|]]; (constructor; [|constructor]); cbn.
    + apply map_Forall_insert_2; [by apply Hv|]. apply map_Forall_singleton. by apply Hv.
    + apply map_Forall_singleton. by apply Hv.
Defined.
