(* ===== verification/TableSelect.v ===== *)
(** * The rows a table preview shows (sql_dialect/table_select.rs)

    The SELECT of a page of a table for every database, and a reading of its paging
    clauses: the pages of a table are its rows in slices, and which databases get
    another page than the one asked for. The sums of an offset and a limit are
    taken to be below [2^64]. *)
From S2P Require Import Prelude RustStr ListIndex SqlText GridTypes SqlIdent.

Record TableSelectSqlOptions : Type := {
  q_database_type : option DatabaseType; q_schema : option string; q_table_name : string; q_columns : list string;
  q_order_columns : list string; q_limit : nat
}.
Record TableDataSelectSqlOptions : Type := {
  p_database_type : option DatabaseType; p_identifier_quote : option string; p_schema : option string;
  p_table_name : string; p_catalog : option string; p_database : option string; p_table_type : option string;
  p_primary_keys : list string; p_columns : list string; p_fallback_order_columns : list string;
  p_order_by : option string; p_limit : option nat; p_offset : option nat; p_where_input : option string;
  p_include_row_id : bool
}.

(** ** Columns *)

Definition is_view_table_type (table_type : option string) : bool :=
  match table_type with Some value => contains (to_ascii_uppercase value) "VIEW" | None => false end.

Definition quoted_table_columns_or_star (database_type : option DatabaseType) (columns : list string) : string :=
  match columns with [] => "*" | _ => join ", " (quote_table_identifier database_type <$> columns) end.

Definition is_tdengine_tbname (database_type : option DatabaseType) (name : string) : bool :=
  bool_decide (database_type = Some Tdengine) && eq_ignore_ascii_case name DBX_TDENGINE_TBNAME_COLUMN.

Definition tdengine_should_include_tbname (database_type : option DatabaseType) (table_type : option string) : bool :=
  if bool_decide (database_type ≠ Some Tdengine) then false
  else match table_type with
       | Some value => one_of ["STABLE"; "SUPER TABLE"; "SUPERTABLE"] (to_ascii_uppercase (trim value))
       | None => false
       end.

(** [ident AS ident]. *)
Definition aliased_column (database_type : option DatabaseType) (column : string) : string :=
  let ident := quote_table_identifier database_type column in (ident +:+ " AS " +:+ ident)%string.

Definition build_select_columns (database_type : option DatabaseType) (columns : list string)
    (include_tdengine_tbname : bool) : string :=
  let named := λ column, eq_ignore_ascii_case column DBX_TDENGINE_TBNAME_COLUMN in
  if bool_decide (columns = []) then
    if bool_decide (database_type = Some Tdengine) && include_tdengine_tbname
    then (DBX_TDENGINE_TBNAME_COLUMN +:+ ", *")%string else "*"
  else if bool_decide (database_type = Some Tdengine) then
    let tdengine_columns :=
      (if include_tdengine_tbname && negb (existsb named columns) then [DBX_TDENGINE_TBNAME_COLUMN] else [])
      ++ List.filter (λ column, include_tdengine_tbname || negb (named column)) columns in
    if bool_decide (tdengine_columns = []) then "*"
    else join ", " ((λ column, if is_tdengine_tbname database_type column then DBX_TDENGINE_TBNAME_COLUMN
                               else aliased_column database_type column) <$> tdengine_columns)
  else if bool_decide (database_type ≠ Some Hive) then "*"
  else join ", " (aliased_column database_type <$> columns).

(** ** Pages of the databases that have a form of their own *)

Definition informix_row_limit_clause (limit offset : nat) : string :=
  if 0 <? offset then ("SKIP " +:+ pretty offset +:+ " FIRST " +:+ pretty limit)%string else ("FIRST " +:+ pretty limit)%string.

Definition build_rownum_table_select_sql (table where_clause order inner_select_columns outer_select_columns : string)
    (limit offset : nat) : string :=
  let inner_select := ("SELECT " +:+ inner_select_columns +:+ " FROM " +:+ table +:+ where_clause +:+ order)%string in
  if offset =? 0
  then ("SELECT " +:+ outer_select_columns +:+ " FROM (" +:+ inner_select +:+ ") WHERE ROWNUM <= " +:+ pretty limit)%string
  else
    let row_number_alias := quote_table_identifier (Some Oracle) "__dbx_row_num" in
    ("SELECT " +:+ outer_select_columns +:+ " FROM (SELECT dbx_inner.*, ROWNUM AS " +:+ row_number_alias +:+ " FROM ("
     +:+ inner_select +:+ ") dbx_inner WHERE ROWNUM <= " +:+ pretty (offset + limit) +:+ ") WHERE " +:+ row_number_alias
     +:+ " > " +:+ pretty offset)%string.

Definition build_sqlserver_table_select_sql (table where_clause order_by : string) (columns : list string)
    (limit offset : nat) : string :=
  let columns_sql := quoted_table_columns_or_star (Some SqlServer) columns in
  let order := if String.eqb order_by "(SELECT NULL)" then "" else (" ORDER BY " +:+ order_by)%string in
  if offset =? 0
  then ("SELECT TOP (" +:+ pretty limit +:+ ") " +:+ columns_sql +:+ " FROM " +:+ table +:+ where_clause +:+ order)%string
  else
    let page_alias := quote_table_identifier (Some SqlServer) "dbx_page" in
    let row_number_alias := quote_table_identifier (Some SqlServer) "__dbx_row_num" in
    ("WITH " +:+ page_alias +:+ " AS (SELECT " +:+ columns_sql +:+ ", ROW_NUMBER() OVER (ORDER BY " +:+ order_by +:+ ") AS "
     +:+ row_number_alias +:+ " FROM " +:+ table +:+ where_clause +:+ ") SELECT " +:+ columns_sql +:+ " FROM " +:+ page_alias
     +:+ " WHERE " +:+ row_number_alias +:+ " > " +:+ pretty offset +:+ " AND " +:+ row_number_alias +:+ " <= "
     +:+ pretty (offset + limit) +:+ " ORDER BY " +:+ row_number_alias)%string.

Definition build_db2_table_select_page_sql (table where_clause : string) (order_by : option string) (columns : list string)
    (limit offset : nat) : string :=
  let columns_sql := quoted_table_columns_or_star (Some Db2) columns in
  let inner_columns :=
    match columns with
    | [] => "dbx_t.*"
    | _ => join ", " ((λ column, "dbx_t." +:+ quote_table_identifier (Some Db2) column)%string <$> columns)
    end in
  let order := match order_by with Some order_by => ("ORDER BY " +:+ order_by)%string | None => "" end in
  let row_number := quote_table_identifier (Some Db2) "__dbx_row_num" in
  ("SELECT " +:+ columns_sql +:+ " FROM (SELECT " +:+ inner_columns +:+ ", ROW_NUMBER() OVER (" +:+ order +:+ ") AS "
   +:+ row_number +:+ " FROM " +:+ table +:+ " dbx_t" +:+ where_clause +:+ ") dbx_page WHERE " +:+ row_number +:+ " > "
   +:+ pretty offset +:+ " AND " +:+ row_number +:+ " <= " +:+ pretty (offset + limit) +:+ " ORDER BY " +:+ row_number)%string.

Definition build_questdb_table_select_sql (table where_clause order_by : string) (columns : list string)
    (limit offset : nat) : string :=
  let columns_sql := quoted_table_columns_or_star (Some Questdb) columns in
  let select := ("SELECT " +:+ columns_sql +:+ " FROM " +:+ table +:+ where_clause +:+ order_by)%string in
  if offset =? 0 then (select +:+ " LIMIT " +:+ pretty limit)%string
  else (select +:+ " LIMIT " +:+ pretty offset +:+ ", " +:+ pretty (offset + limit))%string.

(** ** The preview of a table *)

(** [.filter(|offset| *offset > 0).map(..).unwrap_or_default()]. *)
Definition offset_text (before : string) (offset : option nat) (after : string) : string :=
  match offset with
  | Some offset => if 0 <? offset then (before +:+ pretty offset +:+ after)%string else ""
  | None => ""
  end.
(** [.filter(|order| !order.trim().is_empty())]. *)
Definition non_blank_text (s : option string) : option string :=
  match s with Some s => if is_empty (trim s) then None else Some s | None => None end.
Definition order_clause (order_by : option string) : string :=
  match order_by with Some order_by => (" ORDER BY " +:+ order_by)%string | None => "" end.

Section Preview.
Context `{PercentDecoder}.

Definition build_count_table_sql (database_type : option DatabaseType) (schema : option string) (table_name : string) :
    string := ("SELECT COUNT(*) AS row_count FROM " +:+ qualified_table_name database_type schema table_name)%string.

Definition build_neo4j_table_select_sql (o : TableDataSelectSqlOptions) (limit : nat) : string :=
  let label := quote_table_identifier (Some Neo4j) (p_table_name o) in
  let predicate := normalize_where_input (p_where_input o) in
  let where_clause := if is_empty predicate then "" else (" WHERE " +:+ predicate)%string in
  let returned_columns :=
    match p_columns o with
    | [] => "n"
    | columns =>
        join ", " ((λ column, let ident := quote_table_identifier (Some Neo4j) column in
                              "n." +:+ ident +:+ " AS " +:+ ident)%string <$> columns)
    end in
  let returns :=
    ("elementId(n) AS " +:+ quote_table_identifier (Some Neo4j) DBX_NEO4J_ELEMENT_ID_COLUMN +:+ ", " +:+ returned_columns)%string in
  ("MATCH (n:" +:+ label +:+ ")" +:+ where_clause +:+ " RETURN " +:+ returns +:+ order_clause (non_blank_text (p_order_by o))
   +:+ offset_text " SKIP " (p_offset o) "" +:+ " LIMIT " +:+ pretty limit +:+ ";")%string.

Variable o : TableDataSelectSqlOptions.
Abbreviation d := (p_database_type o).

Definition preview_table : string :=
  if uses_connection_identifier_quote d (p_identifier_quote o)
  then table_data_qualified_table_name d (p_schema o) (p_table_name o) (p_identifier_quote o)
  else qualified_table_name_with_catalog d (p_catalog o) (p_schema o) (p_database o) (p_table_name o).
Definition preview_where : string :=
  let predicate := normalize_where_input (p_where_input o) in
  if is_empty predicate then "" else (" WHERE (" +:+ predicate +:+ ")")%string.
Definition preview_order_by : option string :=
  match non_blank_text (p_order_by o) with
  | Some order_by => Some order_by
  | None => if bool_decide (d = Some InfluxDb) then Some "time DESC" else None
  end.
Definition include_oracle_row_id : bool :=
  p_include_row_id o && uses_oracle_row_id d && negb (is_view_table_type (p_table_type o)).
Definition oracle_view_first_page : bool :=
  bool_decide (d = Some Oracle) && is_view_table_type (p_table_type o) && (default 0 (p_offset o) =? 0).
Definition preview_columns : string :=
  if include_oracle_row_id
  then ("ROWIDTOCHAR(t.ROWID) AS " +:+ dquote +:+ DBX_ROWID_COLUMN +:+ dquote +:+ ", t.*")%string
  else build_select_columns d (p_columns o) (tdengine_should_include_tbname d (p_table_type o)).
Definition rownum_select_columns : string := quoted_table_columns_or_star d (p_columns o).
Definition page_select_columns : string :=
  if include_oracle_row_id then
    match p_columns o with
    | [] => "*"
    | _ => (dquote +:+ DBX_ROWID_COLUMN +:+ dquote +:+ ", " +:+ rownum_select_columns)%string
    end
  else rownum_select_columns.
Definition table_alias : string := if include_oracle_row_id then (preview_table +:+ " t")%string else preview_table.

(** [{table_alias}{where_clause}{order}]. *)
Definition source_rows : string := (table_alias +:+ preview_where +:+ order_clause preview_order_by)%string.

Definition build_table_data_select_sql : string :=
  let limit := default 100 (p_limit o) in
  let offset := default 0 (p_offset o) in
  if bool_decide (d = Some Neo4j) then build_neo4j_table_select_sql o limit
  else
    match table_pagination_strategy d with
    | IrisTop => ("SELECT TOP " +:+ pretty limit +:+ " " +:+ preview_columns +:+ " FROM " +:+ source_rows)%string
    | InformixFirst =>
        ("SELECT " +:+ informix_row_limit_clause limit offset +:+ " " +:+ preview_columns +:+ " FROM " +:+ source_rows)%string
    | FirebirdRows =>
        ("SELECT " +:+ preview_columns +:+ " FROM " +:+ source_rows +:+ " " +:+ firebird_rows_clause limit offset)%string
    | Db2FetchFirst =>
        if 0 <? offset
        then build_db2_table_select_page_sql table_alias preview_where preview_order_by (p_columns o) limit offset
        else ("SELECT " +:+ preview_columns +:+ " FROM " +:+ source_rows +:+ offset_text " OFFSET " (p_offset o) " ROWS"
              +:+ " FETCH FIRST " +:+ pretty limit +:+ " ROWS ONLY")%string
    | FetchFirst =>
        ("SELECT " +:+ preview_columns +:+ " FROM " +:+ source_rows +:+ offset_text " OFFSET " (p_offset o) " ROWS"
         +:+ " FETCH FIRST " +:+ pretty limit +:+ " ROWS ONLY")%string
    | Rownum =>
        if oracle_view_first_page then ("SELECT " +:+ page_select_columns +:+ " FROM " +:+ source_rows)%string
        else build_rownum_table_select_sql table_alias preview_where (order_clause preview_order_by)
               (if include_oracle_row_id then preview_columns else rownum_select_columns) page_select_columns limit offset
    | Unbounded => ("SELECT " +:+ preview_columns +:+ " FROM " +:+ source_rows)%string
    | SqlServerTop =>
        build_sqlserver_table_select_sql table_alias preview_where (default "(SELECT NULL)" preview_order_by) (p_columns o)
          limit offset
    | QuestDbLimit =>
        build_questdb_table_select_sql table_alias preview_where (order_clause preview_order_by) (p_columns o) limit offset
    | AgentMaxRows => ("SELECT " +:+ preview_columns +:+ " FROM " +:+ source_rows +:+ ";")%string
    | LimitOffset =>
        ("SELECT " +:+ preview_columns +:+ " FROM " +:+ source_rows +:+ " LIMIT " +:+ pretty limit
         +:+ offset_text " OFFSET " (p_offset o) "" +:+ ";")%string
    end.
End Preview.

Definition build_table_select_sql `{PercentDecoder} (o : TableSelectSqlOptions) : string :=
  let d := q_database_type o in
  let table := qualified_table_name d (q_schema o) (q_table_name o) in
  let select_columns := quoted_table_columns_or_star d (q_columns o) in
  let order_by :=
    match q_order_columns o with
    | [] => ""
    | columns => (" ORDER BY " +:+ join ", " ((λ column, quote_table_identifier d column +:+ " ASC")%string <$> columns))%string
    end in
  let limit := pretty (q_limit o) in
  let from := (select_columns +:+ " FROM " +:+ table +:+ order_by)%string in
  match table_pagination_strategy d with
  | IrisTop => ("SELECT TOP " +:+ limit +:+ " " +:+ from)%string
  | InformixFirst => ("SELECT FIRST " +:+ limit +:+ " " +:+ from)%string
  | FirebirdRows => ("SELECT " +:+ from +:+ " " +:+ firebird_rows_clause (q_limit o) 0)%string
  | Rownum => build_rownum_table_select_sql table "" order_by select_columns select_columns (q_limit o) 0
  | Db2FetchFirst | FetchFirst => ("SELECT " +:+ from +:+ " FETCH FIRST " +:+ limit +:+ " ROWS ONLY")%string
  | SqlServerTop => ("SELECT TOP (" +:+ limit +:+ ") " +:+ from)%string
  | AgentMaxRows => ("SELECT " +:+ from +:+ ";")%string
  | Unbounded => ("SELECT " +:+ from)%string
  | QuestDbLimit | LimitOffset => ("SELECT " +:+ from +:+ " LIMIT " +:+ limit +:+ ";")%string
  end.

(** ** What the paging clauses select *)

(** The paging clause of a SELECT, by its meaning. *)
Inductive Page : Type :=
| EveryRow
| FirstRows (n : nat)                (* TOP n, FIRST n, ROWS n, FETCH FIRST n, LIMIT n, ROWNUM <= n *)
| SkipFirst (skip n : nat)           (* SKIP s FIRST n, OFFSET s FETCH FIRST n, LIMIT n OFFSET s, SKIP s LIMIT n *)
| RowsTo (first final : nat)         (* ROWS first TO final, counted from 1 *)
| RownumAfter (after upto : nat)     (* ROWNUM <= upto inside, its number > after outside *)
| NumberedRows (after upto : nat)    (* ROW_NUMBER() > after and <= upto *)
| LimitBounds (lo hi : nat).         (* QuestDB's LIMIT lo, hi: after the first lo rows, up to row hi *)

(** The rows whose number, counted from [i + 1], satisfies [f]. *)
Fixpoint rows_where {A} (f : nat → bool) (i : nat) (l : list A) : list A :=
  match l with
  | [] => []
  | a :: l' => if f (S i) then a :: rows_where f (S i) l' else rows_where f (S i) l'
  end.

Definition page_rows {A} (p : Page) (l : list A) : list A :=
  match p with
  | EveryRow => l
  | FirstRows n => take n l
  | SkipFirst skip n => take n (drop skip l)
  | RowsTo first final => rows_where (λ i, (first <=? i) && (i <=? final)) 0 l
  | RownumAfter after upto => rows_where (λ i, after <? i) 0 (take upto l)
  | NumberedRows after upto => rows_where (λ i, (after <? i) && (i <=? upto)) 0 l
  | LimitBounds lo hi => take (hi - lo) (drop lo l)
  end.

(** The clause each strategy uses. *)
Definition page_of (strategy : TablePaginationStrategy) (limit offset : nat) : Page :=
  match strategy with
  | IrisTop => FirstRows limit
  | Unbounded | AgentMaxRows => EveryRow
  | _ =>
      if offset =? 0 then FirstRows limit
      else match strategy with
           | FirebirdRows => RowsTo (offset + 1) (offset + limit)
           | Db2FetchFirst | SqlServerTop => NumberedRows offset (offset + limit)
           | Rownum => RownumAfter offset (offset + limit)
           | QuestDbLimit => LimitBounds offset (offset + limit)
           | _ => SkipFirst offset limit
           end
  end.
(** The strategies that know where a page starts. *)
Definition pages_rows (strategy : TablePaginationStrategy) : bool :=
  match strategy with IrisTop | Unbounded | AgentMaxRows => false | _ => true end.

(** ** Slices of the rows *)

Lemma rows_where_ext {A} (f g : nat → bool) i (l : list A) : (∀ j, f j = g j) → rows_where f i l = rows_where g i l.
Proof. intros Hfg. revert i. induction l as [|a l IH]; intros i; [done|]. cbn. by rewrite Hfg, IH. Qed.

Lemma rows_after {A} after i (l : list A) : rows_where (λ j, after <? j) i l = drop (after - i) l.
Proof.
  revert i. induction l as [|a l IH]; intros i; cbn [rows_where]; [by rewrite drop_nil|].
  destruct (Nat.ltb_spec after (S i)).
  - replace (after - i) with 0 by lia. rewrite IH. replace (after - S i) with 0 by lia. by rewrite !drop_0.
  - rewrite IH. by replace (after - i) with (S (after - S i)) by lia.
Qed.

Lemma rows_upto {A} lo hi i (l : list A) : lo ≤ i → rows_where (λ j, (lo <? j) && (j <=? hi)) i l = take (hi - i) l.
Proof.
  revert i. induction l as [|a l IH]; intros i Hi; cbn [rows_where]; [by rewrite take_nil|].
  rewrite IH by lia. replace (lo <? S i) with true by (symmetry; apply Nat.ltb_lt; lia).
  destruct (Nat.leb_spec (S i) hi); cbn [andb].
  - by replace (hi - i) with (S (hi - S i)) by lia.
  - replace (hi - i) with 0 by lia. by replace (hi - S i) with 0 by lia.
Qed.

Lemma rows_between {A} lo hi i (l : list A) :
  i ≤ lo → lo ≤ hi → rows_where (λ j, (lo <? j) && (j <=? hi)) i l = take (hi - lo) (drop (lo - i) l).
Proof.
  revert i. induction l as [|a l IH]; intros i Hi Hh; [cbn; by rewrite drop_nil, take_nil|].
  destruct (decide (i = lo)) as [->|Hne].
  - rewrite rows_upto by lia. by replace (lo - lo) with 0 by lia.
  - cbn [rows_where]. replace (lo <? S i) with false by (symmetry; apply Nat.ltb_ge; lia). cbn [andb].
    rewrite IH by lia. by replace (lo - i) with (S (lo - S i)) by lia.
Qed.

Lemma page_slice {A} strategy limit offset (l : list A) :
  pages_rows strategy = true → page_rows (page_of strategy limit offset) l = take limit (drop offset l).
Proof.
  intros Hs. assert (H0 : offset = 0 → take limit l = take limit (drop offset l)) by (by intros ->).
  destruct strategy; try discriminate Hs; unfold page_of;
    (destruct (Nat.eqb_spec offset 0) as [Ho|Ho]; [by apply H0|]); cbn [page_rows]; try reflexivity.
  - rewrite rows_between by lia. rewrite Nat.sub_0_r. do 2 f_equal. lia.
  - rewrite rows_between by lia. rewrite Nat.sub_0_r. do 2 f_equal. lia.
  - rewrite (rows_where_ext _ (λ j, (offset <? j) && (j <=? offset + limit))).
    + rewrite rows_between by lia. rewrite Nat.sub_0_r. do 2 f_equal. lia.
    + intros j. f_equal. apply eq_true_iff_eq. rewrite Nat.leb_le, Nat.ltb_lt. lia.
  - rewrite rows_after, Nat.sub_0_r, take_drop_commute. done.
  - do 2 f_equal. lia.
Qed.

Lemma chunks_lookup {A} n k (l : list A) : 0 < n → default [] (chunks n l !! k) = take n (drop (k * n) l).
Proof.
  intros Hn. unfold chunks. assert (List.length l ≤ List.length l) as Hf by done. revert Hf.
  generalize (List.length l) at 2 3 as fuel. intros fuel. revert k l. induction fuel as [|fuel IH]; intros k l Hl.
  - destruct l; [|cbn in Hl; lia]. by rewrite drop_nil, take_nil.
  - destruct l as [|a l]; [by rewrite drop_nil, take_nil|]. cbn [chunks_fuel]. destruct k as [|k]; [done|].
    cbn [lookup list_lookup]. rewrite IH by (rewrite length_drop; cbn in *; lia).
    by rewrite drop_drop.
Qed.

(** ** Numbers in a text *)

Lemma pretty_all_digits (n : nat) : all_digits (pretty n) = true.
Proof.
  assert (∀ x s, all_digits s = true → all_digits (pretty_N_go x s) = true) as Hgo.
  { intros x. induction (N.lt_wf_0 x) as [x _ IH]. intros s Hs. destruct (decide (x = 0)%N) as [->|].
    - by rewrite pretty_N_go_0.
    - rewrite pretty_N_go_step by lia. apply IH; [apply N.div_lt; lia|]. cbn [all_digits]. rewrite Hs, andb_true_r.
      unfold pretty_N_char. by repeat case_match. }
  unfold pretty, pretty_nat, pretty, pretty_N. case_decide; [done|]. by apply Hgo.
Qed.

(** A number ends where the digits do. *)
Lemma pretty_split (a b : nat) x y :
  no_digit x → no_digit y → (pretty a +:+ x = pretty b +:+ y)%string → a = b ∧ x = y.
Proof.
  intros Hx Hy E. apply (f_equal span_digits) in E.
  rewrite !span_digits_app in E by (done || apply pretty_all_digits). injection E as E1 E2. split; [|done].
  by apply (inj pretty) in E1.
Qed.

Lemma pretty_end (a b : nat) y : no_digit y → pretty a = (pretty b +:+ y)%string → a = b ∧ y = "".
Proof.
  intros Hy E. rewrite <-(string_app_nil_r (pretty a)) in E. by apply pretty_split in E as [-> <-].
Qed.

Fixpoint last_char (s : string) : option ascii :=
  match s with String a "" => Some a | String _ s' => last_char s' | EmptyString => None end.
Lemma last_char_app a x s : last_char (a +:+ String x s)%string = last_char (String x s).
Proof. induction a as [|b a IH]; [done|]. change ((String b a +:+ String x s)%string) with (String b (a +:+ String x s)%string).
  rewrite <-IH. by destruct a. Qed.

(** Takes equal texts apart from the front. *)
Ltac peel H :=
  repeat first
    [ apply string_app_inv_head in H
    | apply pretty_split in H as [? H]; [|done..]
    | apply pretty_end in H as [? H]; [|done]
    | symmetry in H; apply pretty_end in H as [? H]; [|done]
    | apply (inj pretty) in H ];
  subst; try reflexivity; try discriminate H.

(** ** The text of a page *)

(** How a dialect reads the SELECT of a preview: the text is that of the preview's
    rows, and the numbers of its paging clause make the page. *)
Section Reads.
Context `{PercentDecoder}.
Variable o : TableDataSelectSqlOptions.
Abbreviation d := (p_database_type o).
Abbreviation strategy := (table_pagination_strategy d).

(** [table WHERE .. ORDER BY ..] behind its columns, and inside a count of rows. *)
Definition plain_rows : string := (preview_columns o +:+ " FROM " +:+ source_rows o)%string.
Definition inner_rows : string :=
  ((if include_oracle_row_id o then preview_columns o else rownum_select_columns o) +:+ " FROM " +:+ source_rows o)%string.
Definition oracle_number : string := quote_table_identifier (Some Oracle) "__dbx_row_num".
Definition match_nodes : string :=
  ("MATCH (n:" +:+ quote_table_identifier (Some Neo4j) (p_table_name o) +:+ ")"
   +:+ (let predicate := normalize_where_input (p_where_input o) in
        if is_empty predicate then "" else (" WHERE " +:+ predicate)%string)
   +:+ " RETURN elementId(n) AS " +:+ quote_table_identifier (Some Neo4j) DBX_NEO4J_ELEMENT_ID_COLUMN +:+ ", "
   +:+ match p_columns o with
       | [] => "n"
       | columns =>
           join ", " ((λ column, "n." +:+ quote_table_identifier (Some Neo4j) column +:+ " AS "
                                 +:+ quote_table_identifier (Some Neo4j) column)%string <$> columns)
       end
   +:+ order_clause (non_blank_text (p_order_by o)))%string.
(** The rows SQL Server and Db2 number. *)
Definition sqlserver_numbered : string :=
  let columns := quoted_table_columns_or_star (Some SqlServer) (p_columns o) in
  let page := quote_table_identifier (Some SqlServer) "dbx_page" in
  ("WITH " +:+ page +:+ " AS (SELECT " +:+ columns +:+ ", ROW_NUMBER() OVER (ORDER BY "
   +:+ default "(SELECT NULL)" (preview_order_by o) +:+ ") AS " +:+ quote_table_identifier (Some SqlServer) "__dbx_row_num"
   +:+ " FROM " +:+ table_alias o +:+ preview_where o +:+ ") SELECT " +:+ columns +:+ " FROM " +:+ page)%string.
Definition db2_numbered : string :=
  let columns := quoted_table_columns_or_star (Some Db2) (p_columns o) in
  let inner :=
    match p_columns o with
    | [] => "dbx_t.*"
    | _ => join ", " ((λ column, "dbx_t." +:+ quote_table_identifier (Some Db2) column)%string <$> p_columns o)
    end in
  let order := match preview_order_by o with Some order_by => ("ORDER BY " +:+ order_by)%string | None => "" end in
  ("SELECT " +:+ columns +:+ " FROM (SELECT " +:+ inner +:+ ", ROW_NUMBER() OVER (" +:+ order +:+ ") AS "
   +:+ quote_table_identifier (Some Db2) "__dbx_row_num" +:+ " FROM " +:+ table_alias o +:+ " dbx_t" +:+ preview_where o
   +:+ ") dbx_page")%string.
Definition sqlserver_rows : string :=
  let over := default "(SELECT NULL)" (preview_order_by o) in
  (quoted_table_columns_or_star (Some SqlServer) (p_columns o) +:+ " FROM " +:+ table_alias o +:+ preview_where o
   +:+ (if String.eqb over "(SELECT NULL)" then "" else " ORDER BY " +:+ over))%string.
Definition questdb_rows : string :=
  (quoted_table_columns_or_star (Some Questdb) (p_columns o) +:+ " FROM " +:+ source_rows o)%string.

(** [.. WHERE number > after AND number <= upto ORDER BY number]. *)
Definition numbered_between (number : string) (after upto : nat) : string :=
  (" WHERE " +:+ number +:+ " > " +:+ pretty after +:+ " AND " +:+ number +:+ " <= " +:+ pretty upto +:+ " ORDER BY " +:+ number)%string.

Inductive reads : string → Page → Prop :=
| reads_agent : strategy = AgentMaxRows → reads ("SELECT " +:+ plain_rows +:+ ";") EveryRow
| reads_all : strategy = Unbounded → reads ("SELECT " +:+ plain_rows) EveryRow
| reads_top n : strategy = IrisTop → reads ("SELECT TOP " +:+ pretty n +:+ " " +:+ plain_rows) (FirstRows n)
| reads_first n : strategy = InformixFirst → reads ("SELECT FIRST " +:+ pretty n +:+ " " +:+ plain_rows) (FirstRows n)
| reads_skip skip n : strategy = InformixFirst →
    reads ("SELECT SKIP " +:+ pretty skip +:+ " FIRST " +:+ pretty n +:+ " " +:+ plain_rows) (SkipFirst skip n)
| reads_rows n : strategy = FirebirdRows → reads ("SELECT " +:+ plain_rows +:+ " ROWS " +:+ pretty n) (FirstRows n)
| reads_rows_to first final : strategy = FirebirdRows →
    reads ("SELECT " +:+ plain_rows +:+ " ROWS " +:+ pretty first +:+ " TO " +:+ pretty final) (RowsTo first final)
| reads_fetch n : strategy = FetchFirst ∨ strategy = Db2FetchFirst →
    reads ("SELECT " +:+ plain_rows +:+ " FETCH FIRST " +:+ pretty n +:+ " ROWS ONLY") (FirstRows n)
| reads_offset_fetch skip n : strategy = FetchFirst →
    reads ("SELECT " +:+ plain_rows +:+ " OFFSET " +:+ pretty skip +:+ " ROWS FETCH FIRST " +:+ pretty n +:+ " ROWS ONLY")
      (SkipFirst skip n)
| reads_limit n : strategy = LimitOffset → d ≠ Some Neo4j →
    reads ("SELECT " +:+ plain_rows +:+ " LIMIT " +:+ pretty n +:+ ";") (FirstRows n)
| reads_limit_offset skip n : strategy = LimitOffset → d ≠ Some Neo4j →
    reads ("SELECT " +:+ plain_rows +:+ " LIMIT " +:+ pretty n +:+ " OFFSET " +:+ pretty skip +:+ ";") (SkipFirst skip n)
| reads_neo4j n : d = Some Neo4j → reads (match_nodes +:+ " LIMIT " +:+ pretty n +:+ ";") (FirstRows n)
| reads_neo4j_skip skip n : d = Some Neo4j →
    reads (match_nodes +:+ " SKIP " +:+ pretty skip +:+ " LIMIT " +:+ pretty n +:+ ";") (SkipFirst skip n)
| reads_questdb n : strategy = QuestDbLimit →
    reads ("SELECT " +:+ questdb_rows +:+ " LIMIT " +:+ pretty n) (FirstRows n)
| reads_questdb_bounds lo hi : strategy = QuestDbLimit →
    reads ("SELECT " +:+ questdb_rows +:+ " LIMIT " +:+ pretty lo +:+ ", " +:+ pretty hi) (LimitBounds lo hi)
| reads_rownum n : strategy = Rownum →
    reads ("SELECT " +:+ page_select_columns o +:+ " FROM (SELECT " +:+ inner_rows +:+ ") WHERE ROWNUM <= " +:+ pretty n)
      (FirstRows n)
| reads_rownum_after after upto : strategy = Rownum →
    reads ("SELECT " +:+ page_select_columns o +:+ " FROM (SELECT dbx_inner.*, ROWNUM AS " +:+ oracle_number +:+ " FROM (SELECT "
           +:+ inner_rows +:+ ") dbx_inner WHERE ROWNUM <= " +:+ pretty upto +:+ ") WHERE " +:+ oracle_number +:+ " > "
           +:+ pretty after)
      (RownumAfter after upto)
| reads_sqlserver n : strategy = SqlServerTop → reads ("SELECT TOP (" +:+ pretty n +:+ ") " +:+ sqlserver_rows) (FirstRows n)
| reads_sqlserver_numbers after upto : strategy = SqlServerTop →
    reads (sqlserver_numbered +:+ numbered_between (quote_table_identifier (Some SqlServer) "__dbx_row_num") after upto)
      (NumberedRows after upto)
| reads_db2_numbers after upto : strategy = Db2FetchFirst →
    reads (db2_numbered +:+ numbered_between (quote_table_identifier (Some Db2) "__dbx_row_num") after upto)
      (NumberedRows after upto).

(** The same preview, of [limit] rows from [offset]. *)
Definition page_request (limit offset : nat) : TableDataSelectSqlOptions := {|
  p_database_type := p_database_type o; p_identifier_quote := p_identifier_quote o; p_schema := p_schema o;
  p_table_name := p_table_name o; p_catalog := p_catalog o; p_database := p_database o; p_table_type := p_table_type o;
  p_primary_keys := p_primary_keys o; p_columns := p_columns o; p_fallback_order_columns := p_fallback_order_columns o;
  p_order_by := p_order_by o; p_limit := Some limit; p_offset := Some offset; p_where_input := p_where_input o;
  p_include_row_id := p_include_row_id o
|}.

(** ** A text is read as one page only *)

Lemma inner_rows_head : strategy = Rownum → ∃ a s, inner_rows = String a s ∧ a ≠ "d"%char.
Proof.
  intros Hs. unfold inner_rows, preview_columns. destruct (include_oracle_row_id o); [by eexists _, _|].
  unfold rownum_select_columns, quoted_table_columns_or_star. destruct (p_columns o) as [|column l]; [by eexists _, _|].
  assert (∃ s, quote_table_identifier d column = String dquote_c s) as [s Hq].
  { unfold quote_table_identifier. destruct d as [t|]; [|by eexists]. destruct t; try discriminate Hs; by eexists. }
  rewrite fmap_cons, Hq. destruct l as [|column' l]; by eexists _, _.
Qed.

Ltac other_strategy :=
  repeat match goal with H : _ ∨ _ |- _ => destruct H as [H|H] end;
  match goal with
  | H : strategy = _, H' : strategy = _ |- _ => rewrite H in H'; discriminate H'
  | H : d = Some Neo4j, H' : strategy = _ |- _ => rewrite H in H'; discriminate H'
  | H : d = Some Neo4j, H' : d ≠ Some Neo4j |- _ => by destruct (H' H)
  end.

Lemma fetch_not_numbered (n after upto : nat) (a b : string) :
  (a +:+ " FETCH FIRST " +:+ pretty n +:+ " ROWS ONLY")%string
  ≠ (b +:+ numbered_between (quote_table_identifier (Some Db2) "__dbx_row_num") after upto)%string.
Proof.
  intros E. apply (f_equal last_char) in E. revert E. unfold numbered_between. rewrite !string_app_assoc.
  rewrite (last_char_app _ " "). change (quote_table_identifier (Some Db2) "__dbx_row_num") with (dquote +:+ "__dbx_row_num" +:+ String dquote_c "")%string.
  rewrite !string_app_assoc, (last_char_app _ dquote_c). discriminate.
Qed.

Lemma rownum_not_after (n after upto : nat) : strategy = Rownum →
  (inner_rows +:+ ") WHERE ROWNUM <= " +:+ pretty n)%string
  ≠ ("dbx_inner.*, ROWNUM AS " +:+ oracle_number +:+ " FROM (SELECT " +:+ inner_rows +:+ ") dbx_inner WHERE ROWNUM <= "
     +:+ pretty upto +:+ ") WHERE " +:+ oracle_number +:+ " > " +:+ pretty after)%string.
Proof. intros Hs E. destruct (inner_rows_head Hs) as (a & s & Hi & Ha). rewrite Hi in E. injection E as -> _. done. Qed.

Lemma reads_same t1 t2 p1 p2 : reads t1 p1 → reads t2 p2 → t1 = t2 → p1 = p2.
Proof.
  intros H1 H2 E. destruct H1, H2; try (exfalso; other_strategy);
    try (unfold numbered_between in E; peel E; fail); exfalso.
  - rewrite string_app_assoc in E. by apply fetch_not_numbered in E.
  - peel E. by apply (string_app_inv_head " FROM (SELECT "), rownum_not_after in E.
  - symmetry in E. peel E. by apply (string_app_inv_head " FROM (SELECT "), rownum_not_after in E.
  - symmetry in E. rewrite string_app_assoc in E. by apply fetch_not_numbered in E.
Qed.

(** ** Every page is read as the one asked for *)

Lemma offset_text_some before n after :
  offset_text before (Some n) after = if n =? 0 then "" else (before +:+ pretty n +:+ after)%string.
Proof. by destruct n. Qed.

(** The text is the one of [constructor], up to the bracketing of its pieces. *)
Tactic Notation "text_of" uconstr(constructor) :=
  match goal with |- reads _ ?page => refine (eq_ind _ (λ text, reads text page) constructor _ _) end;
  unfold match_nodes, plain_rows, inner_rows, questdb_rows, sqlserver_rows, sqlserver_numbered, db2_numbered,
    numbered_between, source_rows;
  rewrite <-?string_app_assoc, ?string_app_nil_r; reflexivity.

Lemma neo4j_page_reads n skip : d = Some Neo4j →
  reads (build_table_data_select_sql (page_request n skip)) (page_of strategy n skip).
Proof.
  intros Hd. rewrite Hd. unfold build_table_data_select_sql, build_neo4j_table_select_sql.
  cbn [page_request p_database_type p_limit p_offset default p_columns p_table_name p_where_input p_order_by].
  rewrite bool_decide_eq_true_2 by done. unfold id. rewrite offset_text_some.
  change (table_pagination_strategy (Some Neo4j)) with LimitOffset. unfold page_of.
  destruct (skip =? 0); [text_of (reads_neo4j n Hd)|text_of (reads_neo4j_skip skip n Hd)].
Qed.

Lemma page_reads n skip : oracle_view_first_page (page_request n skip) = false →
  reads (build_table_data_select_sql (page_request n skip)) (page_of strategy n skip).
Proof.
  intros Hv. destruct (decide (d = Some Neo4j)) as [Hd|Hd]; [by apply neo4j_page_reads|].
  unfold build_table_data_select_sql. cbn [page_request p_database_type p_limit p_offset default].
  rewrite bool_decide_eq_false_2 by done. unfold id.
  change (source_rows (page_request n skip)) with (source_rows o).
  change (preview_columns (page_request n skip)) with (preview_columns o).
  change (page_select_columns (page_request n skip)) with (page_select_columns o).
  change (rownum_select_columns (page_request n skip)) with (rownum_select_columns o).
  change (include_oracle_row_id (page_request n skip)) with (include_oracle_row_id o).
  change (table_alias (page_request n skip)) with (table_alias o).
  change (preview_where (page_request n skip)) with (preview_where o).
  change (preview_order_by (page_request n skip)) with (preview_order_by o).
  change (p_columns (page_request n skip)) with (p_columns o).
  assert (skip = 0 ∨ 0 <? skip = true ∧ (skip =? 0) = false) as Hskip by (rewrite Nat.ltb_lt, Nat.eqb_neq; lia).
  destruct strategy eqn:Hs; unfold page_of; try (destruct Hskip as [->|[Hpos Hne]]);
    unfold informix_row_limit_clause, firebird_rows_clause, build_db2_table_select_page_sql, build_sqlserver_table_select_sql,
      build_rownum_table_select_sql, build_questdb_table_select_sql;
    rewrite ?offset_text_some, ?Hne, ?Hpos, ?Hv; cbn [Nat.eqb Nat.ltb Nat.leb].
  - text_of (reads_limit n Hs Hd).
  - text_of (reads_limit_offset skip n Hs Hd).
  - text_of (reads_fetch n (or_introl Hs)).
  - text_of (reads_offset_fetch skip n Hs).
  - text_of (reads_fetch n (or_intror Hs)).
  - text_of (reads_db2_numbers skip (skip + n) Hs).
  - text_of (reads_sqlserver n Hs).
  - text_of (reads_sqlserver_numbers skip (skip + n) Hs).
  - text_of (reads_top n Hs).
  - text_of (reads_top n Hs).
  - text_of (reads_first n Hs).
  - text_of (reads_skip skip n Hs).
  - text_of (reads_rows n Hs).
  - text_of (reads_rows_to (skip + 1) (skip + n) Hs).
  - text_of (reads_rownum n Hs).
  - text_of (reads_rownum_after skip (skip + n) Hs).
  - text_of (reads_questdb n Hs).
  - text_of (reads_questdb_bounds skip (skip + n) Hs).
  - text_of (reads_all Hs).
  - text_of (reads_all Hs).
  - text_of (reads_agent Hs).
  - text_of (reads_agent Hs).
Qed.
End Reads.

(** Oscar and OceanBase page views like tables, Oracle leaves the first page of a
    view without a bound. *)
Lemma oracle_view_first_page_unbounded `{PercentDecoder} o :
  oracle_view_first_page o = true →
  build_table_data_select_sql o = ("SELECT " +:+ page_select_columns o +:+ " FROM " +:+ source_rows o)%string.
Proof.
  intros Hv. assert (p_database_type o = Some Oracle) as Hd.
  { unfold oracle_view_first_page in Hv. apply andb_true_iff in Hv as [[Hd _]%andb_true_iff _]. by apply bool_decide_eq_true in Hd. }
  unfold build_table_data_select_sql. by rewrite Hv, Hd.
Qed.

(** On IRIS and through a JDBC agent every page is the first one: the offset is not in the text. *)
Lemma offset_ignored `{PercentDecoder} o n skip :
  pages_rows (table_pagination_strategy (p_database_type o)) = false →
  build_table_data_select_sql (page_request o n skip) = build_table_data_select_sql (page_request o n 0).
Proof.
  intros Hs. unfold build_table_data_select_sql. cbn [page_request p_database_type p_limit p_offset default].
  rewrite bool_decide_eq_false_2 by (intros Hd; by rewrite Hd in Hs). by destruct (table_pagination_strategy _).
Qed.


Definition sample_preview (d : DatabaseType) : TableDataSelectSqlOptions := {|
  p_database_type := Some d; p_identifier_quote := None; p_schema := Some "DB2INST1"; p_table_name := "ORDERS"; p_catalog := None;
  p_database := None; p_table_type := Some "VIEW"; p_primary_keys := []; p_columns := ["ID"; "AMOUNT"];
  p_fallback_order_columns := []; p_order_by := Some "ID DESC"; p_limit := None; p_offset := None;
  p_where_input := Some " WHERE amount > 10 "; p_include_row_id := true
|}.

#[local] Existing Instance plain_decoder.

Example db2_page : build_table_data_select_sql (page_request (sample_preview Db2) 50 100)
  = replace ("SELECT 'ID', 'AMOUNT' FROM (SELECT dbx_t.'ID', dbx_t.'AMOUNT', ROW_NUMBER() OVER (ORDER BY ID DESC) AS '__dbx_row_num'"
     +:+ " FROM 'DB2INST1'.'ORDERS' dbx_t WHERE (amount > 10)) dbx_page WHERE '__dbx_row_num' > 100 AND '__dbx_row_num' <= 150"
     +:+ " ORDER BY '__dbx_row_num'") "'" dquote.
Proof. vm_compute. reflexivity. Qed.

