(* ===== verification/TableExport.v ===== *)
(** * The CSV export of a table, with the SELECTs it sends (csv_export.rs)

    TextExport's export over the SELECT builder of TableSelect: what is in the file, and which
    databases the export never ends for. The query that a connection runs
    (execute_sql_statement_with_options) is a parameter. *)
From S2P Require Import Prelude RustStr Json TextExport SqlText GridTypes SqlIdent TableSelect.

Section export.
Context `{PercentDecoder} (json_pieces : Value → list string).

(** A connection runs a statement and returns at most so many rows. *)
Definition Server : Type := TableCsvExportOptions → string → nat → result (list string * list (list Value)) string.

(** The options of the SELECT of one page. *)
Definition export_request (o : TableCsvExportOptions) (t : DatabaseType) (size offset : nat) : TableDataSelectSqlOptions := {|
  p_database_type := Some t; p_identifier_quote := None; p_schema := schema o; p_table_name := table_name o; p_catalog := None;
  p_database := None; p_table_type := None; p_primary_keys := []; p_columns := columns o; p_fallback_order_columns := [];
  p_order_by := None; p_limit := Some size; p_offset := Some offset; p_where_input := None; p_include_row_id := false
|}.
Definition select_page (server : Server) (o : TableCsvExportOptions) (t : DatabaseType) (size offset : nat) :
    result (list string * list (list Value)) string :=
  server o (build_table_data_select_sql (export_request o t size offset)) size.
Definition effective_page_size (o : TableCsvExportOptions) : nat := Nat.max (default TABLE_DATA_EXPORT_PAGE_SIZE (page_size o)) 1.

Variables (server : Server) (o : TableCsvExportOptions) (t : DatabaseType) (cols : list string) (table : list (list Value)).
Abbreviation size := (effective_page_size o).
Abbreviation strategy := (table_pagination_strategy (Some t)).
Abbreviation empty_file := {| content := ""; faults := [] |}.

(** The server of a table reads the text of every page it is sent in one of the ways its
    dialect has, and answers with the rows this selects, as many as were asked for at most. *)
Definition answers : Prop := ∀ offset, let text := build_table_data_select_sql (export_request o t size offset) in
  ∃ p, reads (export_request o t 0 0) text p ∧ server o text size = Ok (cols, take size (page_rows p table)).

Hypothesis Hanswers : answers.

Lemma size_pos : 0 < size.
Proof. unfold effective_page_size. lia. Qed.

Lemma page_answer offset :
  select_page server o t size offset = Ok (cols, take size (page_rows (page_of strategy size offset) table)).
Proof.
  destruct (Hanswers offset) as (p & Hp & E). unfold select_page. rewrite E. do 4 f_equal.
  assert (oracle_view_first_page (page_request (export_request o t 0 0) size offset) = false) as Hv.
  { unfold oracle_view_first_page. cbn [export_request page_request p_table_type is_view_table_type]. by rewrite andb_false_r. }
  exact (reads_same _ _ _ _ _ Hp (page_reads (export_request o t 0 0) size offset Hv) eq_refl).
Qed.

Lemma slice_answer offset :
  pages_rows strategy = true → select_page server o t size offset = Ok (cols, take size (drop offset table)).
Proof. intros Hs. rewrite page_answer, page_slice by done. by rewrite take_idemp. Qed.

Lemma first_answer offset : pages_rows strategy = false → select_page server o t size offset = Ok (cols, take size table).
Proof.
  intros Hs. rewrite page_answer. destruct strategy; try discriminate Hs; cbn [page_of page_rows]; by rewrite ?take_idemp.
Qed.

(** A last page ends the export whatever the next pages are. *)
Lemma short_page page page' fuel offset exported wrote d rows :
  page o t size offset = page' o t size offset → page' o t size offset = Ok (cols, rows) → List.length rows < size →
  export_pages (DatabaseType := DatabaseType) json_pieces page (S fuel) o t size offset exported wrote d
  = export_pages json_pieces page' (S fuel) o t size offset exported wrote d.
Proof.
  intros Hp Hp' Hl. cbn [export_pages]. rewrite Hp, Hp'. apply Nat.ltb_lt in Hl. by rewrite Hl.
Qed.

(** Full pages keep it running. *)
Lemma full_pages rows fuel : List.length rows = size → rows_ok rows = true →
  (∀ offset, select_page server o t size offset = Ok (cols, rows)) → ∀ offset exported wrote c,
  export_pages json_pieces (select_page server) fuel o t size offset exported wrote {| content := c; faults := [] |} = None.
Proof.
  intros Hl Hok Hpage. induction fuel as [|fuel IH]; intros offset exported wrote c; [done|]. cbn [export_pages].
  rewrite Hpage, write_header, Hl. pose proof size_pos.
  rewrite (proj2 (Nat.eqb_neq size 0)) by lia. rewrite write_rows_ok by done. by rewrite (proj2 (Nat.ltb_ge size size)) by lia.
Qed.

Lemma same_loop page page' fuel (configs : gmap string DatabaseType) create :
  configs !! connection_id o = Some t →
  (∀ d, export_pages json_pieces page fuel o t size 0 0 false d = export_pages json_pieces page' fuel o t size 0 0 false d) →
  export_table_data_csv_core json_pieces configs create page fuel o
  = export_table_data_csv_core json_pieces configs create page' fuel o.
Proof.
  intros Hc E. unfold export_table_data_csv_core, connection_database_type. rewrite Hc.
  destruct (create (file_path o)) as [d|]; [|done]. destruct (write_all bom d) as [[] d']; [|done].
  unfold effective_page_size in E. by rewrite E.
Qed.
End export.

(** A connection that answers [pages] pages of the statements it knows with rows of a table. *)
Definition paging_server `{PercentDecoder} (t : DatabaseType) (cols : list string) (table : list (list Value)) (pages : nat) : Server :=
  λ o text size,
    match List.find (λ offset, String.eqb text (build_table_data_select_sql (export_request o t size offset))) (seq 0 pages) with
    | Some offset => Ok (cols, take size (page_rows (page_of (table_pagination_strategy (Some t)) size offset) table))
    | None => Ok (cols, [])
    end.

Lemma export_page_reads `{PercentDecoder} (o : TableCsvExportOptions) t size offset :
  reads (export_request o t 0 0) (build_table_data_select_sql (export_request o t size offset))
    (page_of (table_pagination_strategy (Some t)) size offset).
Proof.
  apply (page_reads (export_request o t 0 0) size offset). unfold oracle_view_first_page.
  cbn [export_request page_request p_table_type is_view_table_type]. by rewrite andb_false_r.
Qed.

Lemma paging_server_answers `{PercentDecoder} (o : TableCsvExportOptions) t cols table pages :
  0 < pages → List.length table ≤ pages → answers (paging_server t cols table pages) o t cols table.
Proof.
  intros H0 Hl offset. exists (page_of (table_pagination_strategy (Some t)) (effective_page_size o) offset).
  split; [apply export_page_reads|]. unfold paging_server. destruct (List.find _ _) as [k|] eqn:Hf.
  - apply List.find_some in Hf as [_ Hf%String.eqb_eq].
    by rewrite (reads_same _ _ _ _ _ (export_page_reads _ _ _ _) (export_page_reads _ _ _ _) Hf).
  - pose proof (List.find_none _ _ Hf) as Hnone. cbv beta in Hnone. do 2 f_equal.
    destruct (pages_rows (table_pagination_strategy (Some t))) eqn:Hs.
    + rewrite page_slice, drop_ge by (done || (apply Nat.nlt_ge; intros Hlt;
        specialize (Hnone offset ltac:(apply in_seq; lia)); by rewrite String.eqb_refl in Hnone)).
      by rewrite !take_nil.
    + specialize (Hnone 0 ltac:(apply in_seq; lia)).
      change (export_request o t (effective_page_size o) offset) with (page_request (export_request o t 0 0) (effective_page_size o) offset) in Hnone.
      by rewrite offset_ignored, String.eqb_refl in Hnone.
Qed.


#[local] Existing Instance plain_decoder.
Definition sample_table : list (list Value) := sample_rows ++ sample_rows.
Definition new_file (_ : string) : result Disk string := Ok {| content := ""; faults := [] |}.
Definition sample_connection (t : DatabaseType) : Server := paging_server t ["a"; "b"; "c"] sample_table 5.

