(* ===== verification/StatementRanges.v ===== *)
(** * The statement at the cursor (sql.rs)

    The ranges of the statements of a script, cut again at blank lines, and the one
    the cursor is in. Offsets count characters; [None] is a panic: a slice whose
    start is behind its end. *)
From S2P Require Import Prelude RustStr SqlText SqlSplit QueryTypes.

Record SqlStatementRange : Type := { range_text : text; range_start : nat; range_end : nat }.

(** [&sql[a..b]]. *)
Definition sub (sql : text) (a b : nat) : text := take (b - a) (drop a sql).
Definition slice (sql : text) (a b : nat) : option text :=
  if (a <=? b) && (b <=? List.length sql) then Some (sub sql a b) else None.
(** [rfind('\n').map_or(0, |pos| pos + 1)] of what is before [i]. *)
Definition line_start_before (sql : text) (i : nat) : nat := List.length (before_last_line (take i sql)).

Section Ranges.
Context `{SqlTokenizer} (p : SqlDialectProfile) (sql : text).

Definition push_statement_range (ranges : list SqlStatementRange) (start end_ : nat) : option (list SqlStatementRange) :=
  statement ← slice sql start end_;
  Some (match executable_sql_bounds statement p with
        | None => ranges
        | Some executable =>
            let statement_end := start + List.length (trim_end_t statement) in
            ranges ++ [{| range_text := executable; range_start := statement_end - List.length executable;
                          range_end := statement_end |}]
        end).

(** The variables of the loop. *)
Record RangeState : Type := {
  ranges : list SqlStatementRange; start : nat; single : bool; double : bool; tick : bool; line_comment : bool;
  block_comment : bool; dollar_tag : option text; delimiter : option text; postgres_routine : bool
}.
Definition in_quotes (s : RangeState) : bool := single s || double s || tick s.
Definition with_quotes (sq dq bt : bool) (s : RangeState) : RangeState :=
  {| ranges := ranges s; start := start s; single := sq; double := dq; tick := bt; line_comment := line_comment s;
     block_comment := block_comment s; dollar_tag := dollar_tag s; delimiter := delimiter s;
     postgres_routine := postgres_routine s |}.
Definition with_comments (line block : bool) (s : RangeState) : RangeState :=
  {| ranges := ranges s; start := start s; single := single s; double := double s; tick := tick s; line_comment := line;
     block_comment := block; dollar_tag := dollar_tag s; delimiter := delimiter s; postgres_routine := postgres_routine s |}.
Definition with_tag (tag : option text) (routine : bool) (s : RangeState) : RangeState :=
  {| ranges := ranges s; start := start s; single := single s; double := double s; tick := tick s;
     line_comment := line_comment s; block_comment := block_comment s; dollar_tag := tag; delimiter := delimiter s;
     postgres_routine := routine |}.
(** A statement is behind: the next one starts at [i]. *)
Definition restart (rs : list SqlStatementRange) (i : nat) (d : option text) (s : RangeState) : RangeState :=
  {| ranges := rs; start := i; single := single s; double := double s; tick := tick s; line_comment := line_comment s;
     block_comment := block_comment s; dollar_tag := dollar_tag s; delimiter := d; postgres_routine := false |}.

(** A semicolon at [i] that can end a statement. *)
Definition at_semicolon (i : nat) (s : RangeState) : option RangeState :=
  let before := sub sql (start s) i in
  let here := sub sql (start s) (i + 1) in
  let ends end_ := rs ← push_statement_range (ranges s) (start s) end_; Some (restart rs (i + 1) (delimiter s) s) in
  if supports_mysql_routine_blocks p && starts_with_mysql_routine_block before then
    if mysql_routine_block_is_complete here then ends i else Some s
  else if supports_oracle_plsql_blocks p && negb (postgres_routine s) && starts_with_oracle_plsql_block before then
    if oracle_plsql_block_is_complete here then ends (i + 1) else Some s
  else if supports_hana_do_blocks p && starts_with_hana_do_block before then
    if hana_do_block_is_complete here then ends (i + 1) else Some s
  else ends i.

(** The end of a line at [i], outside quotes and comments: [Some (Some s)] starts again behind it. *)
Definition at_newline (i : nat) (s : RangeState) : option (option RangeState) :=
  let line_start := line_start_before sql i in
  let line := trim_t (sub sql line_start i) in
  if supports_slash_line_block_delimiter p && text_eqb line (c "/") then
    rs ← push_statement_range (ranges s) (start s) line_start;
    Some (Some (restart rs (i + 1) (delimiter s) s))
  else
    match (if supports_custom_delimiter_commands p then parse_delimiter_command line else None) with
    | None => Some None
    | Some new_delimiter =>
        before ← slice sql (start s) line_start;
        rs ← (if has_executable_sql_with_options (trim_t before) p then push_statement_range (ranges s) (start s) line_start
              else Some (ranges s));
        Some (Some (restart rs (i + 1) (if text_eqb new_delimiter (c ";") then None else Some new_delimiter) s))
    end.

(** The [match ch], at [i]. *)
Definition at_char (ch : N) (i : nat) (s : RangeState) : option RangeState :=
  let '(sq, dq, bt) := (single s, double s, tick s) in
  if (ch =? SQ)%N && negb dq && negb bt && negb (bool_decide (last (take i sql) = Some 92%N))
  then Some (with_quotes (negb sq) dq bt s)
  else if (ch =? DQ)%N && negb sq && negb bt then Some (with_quotes sq (negb dq) bt s)
  else if (ch =? BT)%N && negb sq && negb dq then Some (with_quotes sq dq (negb bt) s)
  else if (ch =? 59)%N && negb (in_quotes s || bool_decide (is_Some (delimiter s))
                                || supports_custom_delimiter_commands p && on_delimiter_line (sub sql (start s) i))
  then at_semicolon i s
  else
    match delimiter s with
    | Some d =>
        if negb (in_quotes s) && ends_with_t (sub sql (start s) (i + 1)) d
        then rs ← push_statement_range (ranges s) (start s) (i + 1 - List.length d); Some (restart rs (i + 1) (delimiter s) s)
        else Some s
    | None => Some s
    end.

(** One turn at [i], where the text [rest] begins: the state and how far it goes. *)
Definition range_step (i : nat) (ch : N) (rest : text) (s : RangeState) : option (RangeState * nat) :=
  let next := head rest in
  match dollar_tag s with
  | Some tag =>
      if starts_with_t (ch :: rest) tag then Some (with_tag None (postgres_routine s) s, List.length tag) else Some (s, 1)
  | None =>
      if line_comment s then Some (with_comments (negb (ch =? 10)%N) (block_comment s) s, 1)
      else if block_comment s then
        if (ch =? 42)%N && bool_decide (next = Some 47%N) then Some (with_comments false false s, 2) else Some (s, 1)
      else
        let code := negb (in_quotes s) in
        let plain :=
          newline ← (if code && (ch =? 10)%N then at_newline i s else Some None);
          match newline with
          | Some s' => Some (s', 1)
          | None => s' ← at_char ch i s; Some (s', 1)
          end in
        if code && (ch =? 45)%N && bool_decide (next = Some 45%N) then Some (with_comments true false s, 2)
        else if code && supports_hash_line_comments p && (ch =? 35)%N then Some (with_comments true false s, 1)
        else if code && (ch =? 47)%N && bool_decide (next = Some 42%N) then Some (with_comments false true s, 2)
        else
          match (if code && supports_dollar_quoted_strings p then dollar_quote_tag_at_str (ch :: rest) else None) with
          | Some tag =>
              if bool_decide (delimiter s = None) && negb (on_delimiter_line (sub sql (start s) i)) then
                Some (with_tag (Some tag)
                        (postgres_routine s || supports_postgres_dollar_quoted_routines p
                         && starts_with_postgres_dollar_quoted_routine_prefix (sub sql (start s) i)) s, List.length tag)
              else plain
          | None => plain
          end
  end.

(** Every turn goes at least one character on, so the length is enough fuel. *)
Fixpoint range_loop (fuel : nat) (i : nat) (s : RangeState) : option RangeState :=
  match fuel, drop i sql with
  | S fuel', ch :: rest => '(s', n) ← range_step i ch rest s; range_loop fuel' (i + n) s'
  | _, _ => Some s
  end.

Definition initial_ranges : RangeState :=
  {| ranges := []; start := 0; single := false; double := false; tick := false; line_comment := false;
     block_comment := false; dollar_tag := None; delimiter := None; postgres_routine := false |}.

Definition split_sql_statement_ranges_with_options : option (list SqlStatementRange) :=
  s ← range_loop (List.length sql) 0 initial_ranges;
  let trimmed := trim_t (drop (start s) sql) in
  let last := trim_t (last_line trimmed) in
  let up_to_last_line :=
    if existsb (N.eqb 10) (drop (start s) sql)
    then push_statement_range (ranges s) (start s) (start s + List.length (before_last_line (drop (start s) sql)))
    else Some (ranges s) in
  if supports_custom_delimiter_commands p && bool_decide (is_Some (parse_delimiter_command last)) then up_to_last_line
  else if supports_slash_line_block_delimiter p && text_eqb last (c "/") then up_to_last_line
  else push_statement_range (ranges s) (start s) (List.length sql).

(** ** Blank lines *)

Definition starts_with_soft_statement_keyword (rest : text) : bool :=
  (supports_hana_do_blocks p && starts_with_executable_sql_keyword_with_options rest ["DO"] p)
  || starts_with_executable_sql_keyword_with_options rest
       ["CREATE"; "ALTER"; "DROP"; "INSERT"; "UPDATE"; "DELETE"; "MERGE"; "REPLACE"; "TRUNCATE"; "GRANT"; "REVOKE"; "COMMENT";
        "EXPLAIN"; "SHOW"; "DESCRIBE"; "USE"; "SET"; "CALL"; "EXEC"; "EXECUTE"; "BEGIN"; "COMMIT"; "ROLLBACK"; "DECLARE";
        "ANALYZE"; "VACUUM"; "PRAGMA"; "REFRESH"; "COPY"] p.

Record BlankState : Type := {
  bl_ranges : list SqlStatementRange; current_start : nat; line_start : nat; line_has_text : bool; blank_line_run : nat;
  scanner : SqlScanner
}.

(** One character of the statement, at [idx]. *)
Definition blank_step (end_ idx : nat) (s : BlankState) : option BlankState :=
  match drop idx sql with
  | [] => Some s
  | ch :: _ =>
      let scanner' := scanner_step p (scanner s) (drop idx sql) in
      if (ch =? 10)%N then
        Some {| bl_ranges := bl_ranges s; current_start := current_start s; line_start := idx + 1; line_has_text := false;
                blank_line_run := if negb (line_has_text s) && negb (is_masked (scanner s)) then S (blank_line_run s) else 0;
                scanner := scanner' |}
      else if negb (line_has_text s) && negb (is_whitespace ch) then
        let cut := (2 <=? blank_line_run s) && negb (is_masked (scanner s))
                   && has_executable_sql_with_options (sub sql (current_start s) (line_start s)) p
                   && starts_with_soft_statement_keyword (sub sql (line_start s) end_) in
        rs ← (if cut then push_statement_range (bl_ranges s) (current_start s) (line_start s) else Some (bl_ranges s));
        Some {| bl_ranges := rs; current_start := if cut then line_start s else current_start s; line_start := line_start s;
                line_has_text := true; blank_line_run := 0; scanner := scanner' |}
      else
        Some {| bl_ranges := bl_ranges s; current_start := current_start s; line_start := line_start s;
                line_has_text := line_has_text s; blank_line_run := blank_line_run s; scanner := scanner' |}
  end.

Definition split_statement_range_at_blank_lines (statement : SqlStatementRange) : option (list SqlStatementRange) :=
  if supports_oracle_plsql_blocks p && starts_with_oracle_plsql_block (range_text statement) then Some [statement]
  else if supports_hana_do_blocks p && starts_with_hana_do_block (range_text statement) then Some [statement]
  else
    let '(a, b) := (range_start statement, range_end statement) in
    s ← foldl (λ s idx, s ← s; blank_step b idx s)
          (Some {| bl_ranges := []; current_start := a; line_start := a; line_has_text := false; blank_line_run := 0;
                   scanner := SqlScanner_new |}) (seq a (b - a));
    rs ← push_statement_range (bl_ranges s) (current_start s) b;
    Some (match rs with [] => [statement] | _ => rs end).

(** ** At the cursor *)

Definition cursor_has_sql_after_cursor_on_line (cursor : nat) : bool :=
  existsb (λ x, negb (is_whitespace x)) (span_t (λ x, negb (x =? 10)%N) (drop cursor sql)).1.

(** The first range that the cursor is in, at or before; the range before that one
    when the cursor is in front of it. *)
Fixpoint range_at (cursor : nat) (previous : option SqlStatementRange) (l : list SqlStatementRange) : option SqlStatementRange :=
  match l with
  | [] => previous
  | r :: l' =>
      if (range_start r <? cursor) && (cursor <? range_end r) then Some r
      else if cursor =? range_start r then
        if cursor_has_sql_after_cursor_on_line cursor then Some r else Some (default r previous)
      else if cursor <? range_start r then Some (default r previous)
      else range_at cursor (Some r) l'
  end.
Definition find_statement_text_in_ranges (l : list SqlStatementRange) (cursor : nat) : option text :=
  range_text <$> range_at cursor None l.

Definition statement_text_at_cursor (statement : SqlStatementRange) (cursor : nat) : option text :=
  soft_ranges ← split_statement_range_at_blank_lines statement;
  Some (default (range_text statement) (find_statement_text_in_ranges soft_ranges cursor)).

(** [ch.len_utf16()]. *)
Definition len_utf16 (x : N) : nat := if (x <? 65536)%N then 1 else 2.
Fixpoint utf16_loop (offset seen index : nat) (l : text) : nat :=
  match l with
  | [] => index
  | x :: l' =>
      if offset <=? seen then index
      else if offset <? seen + len_utf16 x then index + 1
      else utf16_loop offset (seen + len_utf16 x) (index + 1) l'
  end.
Definition utf16_offset_to_byte_index (offset : nat) : nat := utf16_loop offset 0 0 sql.

Definition find_statement_at_cursor_with_options (cursor_pos : nat) : option text :=
  statements ← split_sql_statement_ranges_with_options;
  let cursor := utf16_offset_to_byte_index cursor_pos in
  match range_at cursor None statements with
  | Some statement => statement_text_at_cursor statement cursor
  | None => Some (trim_t sql)
  end.
End Ranges.

Definition find_statement_at_cursor `{SqlTokenizer} (sql : text) (cursor_pos : nat) : option text :=
  find_statement_at_cursor_with_options SqlDialectProfile_default sql cursor_pos.

(** ** Ranges are what they say *)

(** From [lo] to [hi]: one behind the other, each with its text, none empty. *)
Fixpoint exact (sql : text) (lo hi : nat) (rs : list SqlStatementRange) : Prop :=
  match rs with
  | [] => lo ≤ hi
  | r :: rs' =>
      lo ≤ range_start r ∧ slice sql (range_start r) (range_end r) = Some (range_text r) ∧ range_text r ≠ []
      ∧ exact sql (range_end r) hi rs'
  end.

Lemma exact_grows sql lo hi hi' rs : exact sql lo hi rs → hi ≤ hi' → exact sql lo hi' rs.
Proof. revert lo. induction rs as [|r rs IH]; cbn; [lia|]. naive_solver. Qed.

Lemma exact_snoc sql lo mid hi rs r :
  exact sql lo mid rs → mid ≤ range_start r → slice sql (range_start r) (range_end r) = Some (range_text r) →
  range_text r ≠ [] → range_end r ≤ hi → exact sql lo hi (rs ++ [r]).
Proof.
  revert lo. induction rs as [|r' rs IH]; cbn; intros lo Hrs Hmid Hs Ht He.
  - split_and!; [lia|done..|done].
  - destruct Hrs as (H1 & H2 & H3 & H4). split_and!; [done..|]. by apply IH.
Qed.

Lemma slice_bound sql a b t : slice sql a b = Some t → b ≤ List.length sql.
Proof. unfold slice. destruct (Nat.leb_spec b (List.length sql)); [done|]. by rewrite andb_false_r. Qed.

Lemma exact_bounded sql lo hi rs : exact sql lo hi rs → lo ≤ List.length sql → exact sql lo (List.length sql) rs.
Proof.
  revert lo. induction rs as [|r rs IH]; intros lo H Hlo; [done|]. destruct H as (H1 & H2 & H3 & H4).
  apply slice_bound in H2 as Hb. split_and!; try done. by apply IH.
Qed.

Lemma text_slice_Some sql a b t : slice sql a b = Some t → a ≤ b ∧ b ≤ List.length sql ∧ t = sub sql a b ∧ List.length t = b - a.
Proof.
  unfold slice, sub. destruct (Nat.leb_spec a b); [|done]. destruct (Nat.leb_spec b (List.length sql)); [|done].
  intros [= <-]. split_and!; [done..|]. rewrite length_take, length_drop. lia.
Qed.

Lemma span_split (f : N → bool) l : l = (span_t f l).1 ++ (span_t f l).2.
Proof.
  induction l as [|x l IH]; [done|]. cbn [span_t]. destruct (f x); [|done].
  destruct (span_t f l) as [a b]. cbn in *. by f_equal.
Qed.

Lemma trim_end_t_prefix l : trim_end_t l `prefix_of` l.
Proof.
  unfold trim_end_t. destruct (drop_while_suffix is_whitespace (rev l)) as [k Hk]. exists (rev k).
  by rewrite <-rev_app_distr, <-Hk, rev_involutive.
Qed.

(** A part of a slice. *)
Lemma slice_part sql a k m rest whole :
  slice sql a (a + List.length whole) = Some whole → whole = k ++ m ++ rest →
  slice sql (a + List.length k) (a + List.length k + List.length m) = Some m.
Proof.
  intros (_ & Hb & Hw & _)%text_slice_Some ->. rewrite !length_app in Hb. unfold slice.
  rewrite (proj2 (Nat.leb_le _ _)), (proj2 (Nat.leb_le _ _)) by lia. cbn [andb]. f_equal. unfold sub in *.
  replace (a + List.length k + List.length m - (a + List.length k)) with (List.length m) by lia.
  rewrite <-drop_drop. rewrite !length_app in Hw.
  replace (a + (List.length k + (List.length m + List.length rest)) - a) with (List.length k + (List.length m + List.length rest)) in Hw by lia.
  apply (f_equal (drop (List.length k))) in Hw. rewrite drop_app_length, <-take_drop_commute in Hw.
  apply (f_equal (take (List.length m))) in Hw. rewrite take_app_length, take_take in Hw.
  by replace (List.length m `min` (List.length m + List.length rest)) with (List.length m) in Hw by lia.
Qed.

Lemma trimmed_slice sql : ∃ a b, slice sql a b = Some (trim_t sql).
Proof.
  destruct (drop_while_suffix is_whitespace sql) as [k Hk]. destruct (trim_end_t_prefix (trim_start_t sql)) as [rest Hr].
  exists (0 + List.length k), (0 + List.length k + List.length (trim_t sql)).
  apply (slice_part sql 0 k (trim_t sql) rest sql).
  - unfold slice, sub. rewrite Nat.leb_refl. cbn [andb Nat.leb]. rewrite drop_0. f_equal. apply take_ge. lia.
  - unfold trim_t. by rewrite <-Hr.
Qed.

Section Exact.
Context `{SqlTokenizer} (p : SqlDialectProfile) (sql : text).

Lemma push_exact lo rs rs' start end_ :
  push_statement_range p sql rs start end_ = Some rs' → exact sql lo start rs → exact sql lo end_ rs' ∧ start ≤ end_.
Proof.
  unfold push_statement_range. destruct (slice sql start end_) as [statement|] eqn:Hs; [|done].
  apply text_slice_Some in Hs as Hfull. destruct Hfull as (Hle & Hb & Heq & Hlen). cbn [mbind option_bind].
  destruct (executable_sql_bounds statement p) as [executable|] eqn:He; intros E%(inj Some) Hrs;
    [|subst; split; [by eapply exact_grows|done]]. subst rs'. split; [|done].
  unfold executable_sql_bounds, leading_executable_sql_with_options in He.
  destruct (leading_loop_suffix (List.length (trim_end_t statement)) (supports_hash_line_comments p) (trim_end_t statement)) as [k Hk].
  destruct (trim_end_t_prefix statement) as [rest Hr].
  destruct (leading_loop _ _ _) as [|x l] eqn:Hl; [done|]. injection He as <-.
  assert (statement = k ++ (x :: l) ++ rest) as Hst by (by rewrite app_assoc, <-Hk).
  assert (start + List.length (trim_end_t statement) = start + List.length k + List.length (x :: l)) as Hend
    by (rewrite Hk, length_app; lia).
  eapply exact_snoc; [exact Hrs|..]; cbn [range_start range_end range_text]; rewrite ?Hend.
  - lia.
  - replace (start + List.length k + List.length (x :: l) - List.length (x :: l)) with (start + List.length k) by lia.
    eapply slice_part; [|exact Hst]. rewrite Hlen. replace (start + (end_ - start)) with end_ by lia. exact Hs.
  - done.
  - apply (f_equal (@List.length N)) in Hst. rewrite !length_app in Hst. lia.
Qed.

(** The loop at [i]. *)
Definition ranges_before (i : nat) (s : RangeState) : Prop := exact sql 0 (start s) (ranges s) ∧ start s ≤ i.

Lemma restart_before rs end_ i d s : exact sql 0 end_ rs → end_ ≤ i → ranges_before i (restart rs i d s).
Proof. intros He Hi. split; [|done]. by eapply exact_grows. Qed.

Lemma push_restart s start_ end_ i d rs s' :
  push_statement_range p sql (ranges s) start_ end_ = Some rs → exact sql 0 start_ (ranges s) → end_ ≤ i →
  s' = restart rs i d s → ranges_before i s'.
Proof. intros Hp Hr Hi ->. apply push_exact with (lo := 0) in Hp as [Hp _]; [|done]. by eapply restart_before. Qed.

Lemma before_later i j s : ranges_before i s → i ≤ j → ranges_before j s.
Proof. intros [? ?] ?. split; [done|lia]. Qed.

Lemma at_semicolon_before i s s' : ranges_before i s → at_semicolon p sql i s = Some s' → ranges_before (i + 1) s'.
Proof.
  intros [Hr Hs] E. unfold at_semicolon in E.
  assert (Hends : ∀ end_, end_ ≤ i + 1 →
    (rs ← push_statement_range p sql (ranges s) (start s) end_; Some (restart rs (i + 1) (delimiter s) s)) = Some s' →
    ranges_before (i + 1) s').
  { intros end_ He H'. destruct (push_statement_range p sql (ranges s) (start s) end_) as [rs|] eqn:Hp; [|discriminate H']. apply (inj Some) in H'.
    eapply push_restart; [exact Hp|exact Hr|exact He|by symmetry]. }
  assert (ranges_before (i + 1) s) by (split; [done|lia]).
  repeat (match type of E with (if ?b then _ else _) = _ => destruct b end);
    first [by apply (inj Some) in E as <- | eapply Hends; [|exact E]; lia].
Qed.

Lemma line_start_le i : line_start_before sql i ≤ i.
Proof.
  unfold line_start_before, before_last_line. rewrite length_rev.
  pose proof (f_equal (@List.length N) (span_split (λ x, negb (x =? 10)%N) (rev (take i sql)))) as H'.
  rewrite length_app, length_rev, length_take in H'. lia.
Qed.

Lemma at_newline_before i s s' : ranges_before i s → at_newline p sql i s = Some (Some s') → ranges_before (i + 1) s'.
Proof.
  intros [Hr Hs] E. pose proof (line_start_le i) as Hl. unfold at_newline in E. destruct (_ && text_eqb _ _).
  - destruct (push_statement_range _ _ _ _ _) as [rs|] eqn:Hp; [|discriminate E]. apply (inj Some), (inj Some) in E.
    eapply push_restart; [exact Hp|exact Hr| |by symmetry]. lia.
  - destruct (if supports_custom_delimiter_commands p then _ else _) as [d|]; [|discriminate E].
    destruct (slice sql (start s) _) as [before|] eqn:Hsl; [|discriminate E]. cbn [mbind option_bind] in E.
    destruct (has_executable_sql_with_options _ _).
    + destruct (push_statement_range _ _ _ _ _) as [rs|] eqn:Hp; [|discriminate E]. apply (inj Some), (inj Some) in E.
      eapply push_restart; [exact Hp|exact Hr| |by symmetry]. lia.
    + apply (inj Some), (inj Some) in E as <-. eapply restart_before; [exact Hr|lia].
Qed.

Lemma at_char_before ch i s s' : ranges_before i s → at_char p sql ch i s = Some s' → ranges_before (i + 1) s'.
Proof.
  intros Hb E. assert (ranges_before (i + 1) s) as Hb' by (apply (before_later i); [done|lia]). unfold at_char in E.
  repeat (match type of E with (if ?b then _ else _) = _ => destruct b end);
    try (apply (inj Some) in E as <-; exact Hb'); [by eapply at_semicolon_before|].
  destruct (delimiter s) as [d|]; [|by apply (inj Some) in E as <-]. destruct (_ && ends_with_t _ _); [|by apply (inj Some) in E as <-].
  destruct (push_statement_range _ _ _ _ _) as [rs|] eqn:Hp; [|discriminate E]. apply (inj Some) in E. destruct Hb as [Hr _].
  eapply push_restart; [exact Hp|exact Hr| |by symmetry]. lia.
Qed.

Lemma range_step_before i ch rest s s' n :
  ranges_before i s → range_step p sql i ch rest s = Some (s', n) → ranges_before (i + n) s'.
Proof.
  intros Hb E. assert (Hlater : ∀ s0, ranges s0 = ranges s → start s0 = start s → ranges_before (i + n) s0).
  { intros s0 H1 H2. apply (before_later i); [|lia]. destruct Hb. by split; rewrite ?H1, H2. }
  unfold range_step in E. destruct (dollar_tag s).
  { destruct (starts_with_t _ _); apply (inj Some) in E; injection E as <- _; by apply Hlater. }
  destruct (line_comment s); [apply (inj Some) in E; injection E as <- _; by apply Hlater|].
  destruct (block_comment s); [destruct (_ && _); apply (inj Some) in E; injection E as <- _; by apply Hlater|].
  assert (Hplain : (newline ← (if negb (in_quotes s) && (ch =? 10)%N then at_newline p sql i s else Some None);
                    match newline with Some s' => Some (s', 1) | None => s' ← at_char p sql ch i s; Some (s', 1) end) = Some (s', n) →
                   ranges_before (i + n) s').
  { destruct (if negb (in_quotes s) && (ch =? 10)%N then _ else _) as [[s1|]|] eqn:Hn; cbn [mbind option_bind]; [| |discriminate].
    - intros H'. apply (inj Some) in H'. injection H' as <- <-. destruct (_ && _); [|done]. by eapply at_newline_before.
    - destruct (at_char p sql ch i s) as [s1|] eqn:Hc; [|discriminate]. intros H'. apply (inj Some) in H'. injection H' as <- <-.
      by eapply at_char_before. }
  repeat (match type of E with (if ?b then _ else _) = _ => destruct b end);
    try (apply (inj Some) in E; injection E as <- _; by apply Hlater).
  destruct (if negb (in_quotes s) && supports_dollar_quoted_strings p then _ else _); [|by apply Hplain].
  destruct (_ && negb _); [|by apply Hplain]. apply (inj Some) in E; injection E as <- _; by apply Hlater.
Qed.

Lemma range_loop_before fuel i s s' :
  ranges_before i s → range_loop p sql fuel i s = Some s' → exact sql 0 (start s') (ranges s').
Proof.
  revert i s. induction fuel as [|fuel IH]; intros i s Hb E; cbn [range_loop] in E; [by apply (inj Some) in E as <-; apply Hb|].
  destruct (drop i sql) as [|ch rest]; [by apply (inj Some) in E as <-; apply Hb|].
  destruct (range_step p sql i ch rest s) as [[s1 n]|] eqn:Hs; [|discriminate E].
  eapply (IH (i + n) s1); [|exact E]. by eapply range_step_before.
Qed.

Lemma blank_step_exact lo end_ idx s s' :
  exact sql lo (current_start s) (bl_ranges s) → blank_step p sql end_ idx s = Some s' →
  exact sql lo (current_start s') (bl_ranges s').
Proof.
  intros He E. unfold blank_step in E. destruct (drop idx sql) as [|ch rest]; [by apply (inj Some) in E as <-|].
  destruct (ch =? 10)%N; [by apply (inj Some) in E as <-|].
  destruct (negb (line_has_text s) && negb (is_whitespace ch)); [|by apply (inj Some) in E as <-].
  destruct (_ && starts_with_soft_statement_keyword _ _); [|by apply (inj Some) in E as <-].
  destruct (push_statement_range p sql (bl_ranges s) (current_start s) (line_start s)) as [rs|] eqn:Hp; [|discriminate E].
  apply (inj Some) in E as <-. cbn. by eapply push_exact in Hp as [Hp _].
Qed.

Lemma blank_steps_exact lo end_ idxs s s' :
  exact sql lo (current_start s) (bl_ranges s) →
  foldl (λ s idx, s ← s; blank_step p sql end_ idx s) (Some s) idxs = Some s' →
  exact sql lo (current_start s') (bl_ranges s').
Proof.
  assert (Hnone : ∀ l, foldl (λ s idx, s ← s; blank_step p sql end_ idx s) None l = None) by (induction l; done).
  revert s. induction idxs as [|idx idxs IH]; intros s He E; [by apply (inj Some) in E as <-|]. cbn [foldl mbind option_bind] in E.
  destruct (blank_step p sql end_ idx s) as [s1|] eqn:Hs; [|by rewrite Hnone in E].
  apply (IH s1); [|exact E]. by eapply blank_step_exact.
Qed.

Lemma one_exact r : slice sql (range_start r) (range_end r) = Some (range_text r) → range_text r ≠ [] →
  exact sql (range_start r) (range_end r) [r].
Proof. intros Hs Ht. cbn. split_and!; done || lia. Qed.

Lemma soft_ranges_exact r soft :
  slice sql (range_start r) (range_end r) = Some (range_text r) → range_text r ≠ [] →
  split_statement_range_at_blank_lines p sql r = Some soft → exact sql (range_start r) (range_end r) soft.
Proof.
  intros Hs Ht E. unfold split_statement_range_at_blank_lines in E.
  destruct (supports_oracle_plsql_blocks p && _); [by apply (inj Some) in E as <-; apply one_exact|].
  destruct (supports_hana_do_blocks p && _); [by apply (inj Some) in E as <-; apply one_exact|].
  destruct (foldl _ _ _) as [s|] eqn:Hf; [|discriminate E]. cbn [mbind option_bind] in E.
  destruct (push_statement_range p sql (bl_ranges s) (current_start s) (range_end r)) as [rs|] eqn:Hp; [|discriminate E].
  apply (inj Some) in E. eapply blank_steps_exact with (lo := range_start r) in Hf; [|cbn; lia].
  eapply push_exact in Hp as [Hp _]; [|exact Hf]. destruct rs; subst; [by apply one_exact|done].
Qed.

Lemma exact_in lo hi rs r : exact sql lo hi rs → r ∈ rs →
  slice sql (range_start r) (range_end r) = Some (range_text r) ∧ range_text r ≠ [] ∧ lo ≤ range_start r ∧ range_end r ≤ hi.
Proof.
  revert lo. induction rs as [|r' rs IH]; intros lo H0 Hr; [by apply not_elem_of_nil in Hr|].
  destruct H0 as (H1 & H2 & H3 & H4). apply elem_of_cons in Hr as [->|Hr].
  - split_and!; try done. clear -H4. revert H4. generalize (range_end r') as a.
    induction rs as [|r rs IH]; cbn; [done|]. intros a (Ha & (Hle & _)%text_slice_Some & _ & Hrest). specialize (IH _ Hrest). lia.
  - destruct (IH _ H4 Hr) as (? & ? & ? & ?). apply text_slice_Some in H2 as [? _]. split_and!; try done. lia.
Qed.

Lemma range_at_in cursor previous l r : range_at sql cursor previous l = Some r → r ∈ l ∨ previous = Some r.
Proof.
  revert previous. induction l as [|r' l IH]; intros previous E; cbn [range_at] in E; [by right|].
  assert (Hd : Some (default r' previous) = Some r → r ∈ r' :: l ∨ previous = Some r).
  { destruct previous; intros [= <-]; [by right|left; by left]. }
  repeat (match type of E with (if ?b then _ else _) = _ => destruct b end; try (by apply Hd); try (injection E as <-; left; by left)).
  apply IH in E as [E|[= <-]]; [left; by right|left; by left].
Qed.
End Exact.

(** C39: The ranges of a script's statements, and the parts of a statement between blank lines, hold exactly
    the text of the script at their offsets; they follow each other without overlapping,
    none is empty, and a part lies within its statement: the statement found
    at a cursor is a piece of the script. *)
Theorem statement_ranges_exact `{SqlTokenizer} p sql rs :
  split_sql_statement_ranges_with_options p sql = Some rs →
  exact sql 0 (List.length sql) rs ∧
  (∀ r soft, r ∈ rs → split_statement_range_at_blank_lines p sql r = Some soft → exact sql (range_start r) (range_end r) soft) ∧
  (∀ cursor found, find_statement_at_cursor_with_options p sql cursor = Some found →
     ∃ a b, slice sql a b = Some found).
Proof.
  intros Hrs. assert (exact sql 0 (List.length sql) rs) as Hexact.
  { unfold split_sql_statement_ranges_with_options in Hrs.
    destruct (range_loop p sql (List.length sql) 0 initial_ranges) as [s|] eqn:Hl; [|discriminate Hrs]. cbn [mbind option_bind] in Hrs.
    apply range_loop_before in Hl; [|by split; cbn; lia].
    assert (Hpush : ∀ end_ rs, push_statement_range p sql (ranges s) (start s) end_ = Some rs → exact sql 0 (List.length sql) rs).
    { intros end_ rs' Hp. eapply push_exact in Hp as [Hp _]; [|exact Hl]. eapply exact_bounded; [exact Hp|lia]. }
    repeat (match type of Hrs with (if ?b then _ else _) = _ => destruct b end); try (by eapply Hpush);
      apply (inj Some) in Hrs as <-; eapply exact_bounded; try exact Hl; lia. }
  split; [done|]. split.
  - intros r soft Hr Hsoft. destruct (exact_in _ _ _ _ _ Hexact Hr) as (Hs & Ht & _). by eapply soft_ranges_exact.
  - intros cursor found Hf. unfold find_statement_at_cursor_with_options in Hf. rewrite Hrs in Hf. cbn [mbind option_bind] in Hf.
    destruct (range_at _ _ _ rs) as [r|] eqn:Hr.
    + apply range_at_in in Hr as [Hr|Hr]; [|discriminate Hr]. destruct (exact_in _ _ _ _ _ Hexact Hr) as (Hs & Ht & _).
      unfold statement_text_at_cursor in Hf.
      destruct (split_statement_range_at_blank_lines p sql r) as [soft|] eqn:Hsoft; [|discriminate Hf].
      cbn [mbind option_bind] in Hf. apply (inj Some) in Hf as <-. unfold find_statement_text_in_ranges.
      destruct (range_at _ _ _ soft) as [r'|] eqn:Hr'; [|by eexists _, _].
      apply range_at_in in Hr' as [Hr'|Hr']; [|discriminate Hr'].
      pose proof (soft_ranges_exact p sql r soft Hs Ht Hsoft) as He. destruct (exact_in _ _ _ _ _ He Hr') as (Hs' & _).
      by eexists _, _.
    + apply (inj Some) in Hf as <-. apply trimmed_slice.
Qed.

#[local] Instance no_tokens : SqlTokenizer := {| tokenize _ _ := None |}.
Definition sample_script : text :=
  c "-- first" ++ [10%N] ++ c "select 'a;b';" ++ [10%N] ++ c "select 2" ++ [10%N; 10%N; 10%N] ++ c "drop table t".
Definition sample_ranges : list SqlStatementRange :=
  [{| range_text := c "select 'a;b'"; range_start := 9; range_end := 21 |};
   {| range_text := drop 23 sample_script; range_start := 23; range_end := 46 |}].

Lemma statement_ranges_exact_witness :
  split_sql_statement_ranges_with_options SqlDialectProfile_default sample_script = Some sample_ranges ∧
  exact sample_script 0 46 sample_ranges.
Proof.
  assert (E : split_sql_statement_ranges_with_options SqlDialectProfile_default sample_script = Some sample_ranges)
    by (vm_compute; reflexivity).
  split; [exact E|]. apply (statement_ranges_exact SqlDialectProfile_default sample_script sample_ranges). exact E.
Defined.

(** A second DELIMITER line that sets the delimiter there is ends at its delimiter, and the slice
    of what is before the line starts behind it. *)
Lemma delimiter_twice_panics :
  find_statement_at_cursor (c "DELIMITER //" ++ [10%N] ++ c "DELIMITER //" ++ [10%N]) 0 = None.
Proof. vm_compute. reflexivity. Qed.
