(* ===== verification/QuerySql.v ===== *)
(** * Paging, counting and sorting a query (query_result_sql.rs)

    The SQL that shows a page of the result of a user's SELECT, counts its rows or
    sorts it: the statement is found, its words outside parentheses, quotes and
    comments are looked at, and a clause is added. What sqlparser says of a query
    is a parameter ([QueryParser]). Offsets count characters, [None] is a panic;
    sums of offsets and limits are taken to be below [2^64]. *)
From S2P Require Import Prelude RustStr SqlText SqlSplit GridTypes SqlIdent StatementRanges.

(** ** What the code asks of sqlparser *)

Inductive QueryDialect : Type := GenericDialect | MsSqlQueryDialect | ClickHouseDialect.
Inductive SelectItem : Type :=
| UnnamedIdentifier (value : text) | UnnamedCompound (parts : list text) | UnnamedOther
| ExprWithAlias (alias : text) | ExprWithAliases | QualifiedWildcard | Wildcard.
Record SelectQuery : Type := {
  has_distinct : bool; has_group_by : bool; has_having : bool; projection : list SelectItem;
  from_joins : list bool   (* of each table of FROM, whether it has joins *)
}.
Record ParsedQuery : Type := { select_body : option SelectQuery; has_order_by : bool; has_settings : bool }.
(** [Parser::parse_sql]: [None] is an error, [Some None] a statement that is no query. *)
Class QueryParser : Type := { parse_queries : QueryDialect → text → option (list (option ParsedQuery)) }.

(** [char::is_alphanumeric]: on ASCII the letters and digits. *)
Class UnicodeAlphanumeric : Type := {
  is_alphanumeric : N → bool;
  is_alphanumeric_ascii x : (x < 128)%N → is_alphanumeric x = is_ascii_alphanumeric x
}.

(** ** Words outside quotes, comments and parentheses *)

(** What follows the quote that closes the text [l]. *)
Fixpoint skip_sql_quoted (quote : N) (l : text) : text :=
  match l with
  | [] => []
  | x :: l1 =>
      if (x =? quote)%N then
        match l1 with
        | y :: l2 => if (y =? quote)%N then skip_sql_quoted quote l2 else l1
        | [] => []
        end
      else if (quote =? SQ)%N && (x =? 92)%N then match l1 with _ :: l2 => skip_sql_quoted quote l2 | [] => [] end
      else skip_sql_quoted quote l1
  end.
Fixpoint skip_sql_bracket_identifier (l : text) : text :=
  match l with
  | [] => []
  | x :: l1 =>
      if (x =? 93)%N then
        match l1 with y :: l2 => if (y =? 93)%N then skip_sql_bracket_identifier l2 else l1 | [] => [] end
      else skip_sql_bracket_identifier l1
  end.
Definition is_quote (x : N) : bool := (x =? SQ)%N || (x =? DQ)%N || (x =? BT)%N.
Definition is_sql_token_start (x : N) : bool := is_ascii_alphabetic x || (x =? 95)%N.
Definition is_sql_token_part (x : N) : bool := is_ascii_alphanumeric x || (x =? 95)%N || (x =? 36)%N || (x =? 35)%N.

Record SqlWord : Type := { word_text : text; word_start : nat }.

(** [total]: the length of the whole text, [l] what is left of it. Every turn drops a
    character at least. *)
Fixpoint token_loop (fuel depth total : nat) (l : text) : list SqlWord :=
  match fuel, l with
  | S n, x :: l1 =>
      let next := head l1 in
      if (x =? 45)%N && bool_decide (next = Some 45%N) then token_loop n depth total (skip_to_newline (List.tl l1))
      else if (x =? 47)%N && bool_decide (next = Some 42%N)
      then token_loop n depth total (default [] (after_block_comment (List.tl l1)))
      else if is_quote x then token_loop n depth total (skip_sql_quoted x l1)
      else if (x =? 91)%N then token_loop n depth total (skip_sql_bracket_identifier l1)
      else if (x =? 40)%N then token_loop n (S depth) total l1
      else if (x =? 41)%N then token_loop n (Nat.pred depth) total l1
      else if (depth =? 0) && is_sql_token_start x then
        let '(word, rest) := span_t is_sql_token_part l1 in
        {| word_text := to_ascii_uppercase_c <$> x :: word; word_start := total - List.length l |} :: token_loop n depth total rest
      else token_loop n depth total l1
  | _, _ => []
  end.
Definition top_level_sql_tokens (sql : text) : list SqlWord := token_loop (List.length sql) 0 (List.length sql) sql.

Definition is_keyword_word (keyword : string) (w : SqlWord) : bool := text_eqb (word_text w) (c keyword).
Definition has_word (keyword : string) (words : list SqlWord) : bool := existsb (is_keyword_word keyword) words.
(** [windows(2).any(..)]. *)
Fixpoint has_words (a b : string) (words : list SqlWord) : bool :=
  match words with
  | x :: words' => match words' with y :: _ => is_keyword_word a x && is_keyword_word b y | [] => false end || has_words a b words'
  | [] => false
  end.
(** The words behind the first [keyword]. *)
Fixpoint words_behind (keyword : string) (words : list SqlWord) : option (list SqlWord) :=
  match words with
  | [] => None
  | w :: words' => if is_keyword_word keyword w then Some words' else words_behind keyword words'
  end.
Fixpoint words_before (keyword : string) (words : list SqlWord) : list SqlWord :=
  match words with
  | [] => []
  | w :: words' => if is_keyword_word keyword w then [] else w :: words_before keyword words'
  end.
Definition top_level_select_tokens_before_from (sql : text) : list SqlWord :=
  match words_behind "SELECT" (top_level_sql_tokens sql) with None => [] | Some words => words_before "FROM" words end.

Definition has_top_level_limit (sql : text) : bool := has_word "LIMIT" (top_level_sql_tokens sql).
Definition has_top_level_rownum (sql : text) : bool := has_word "ROWNUM" (top_level_sql_tokens sql).
Definition has_top_level_fetch_first (sql : text) : bool := has_words "FETCH" "FIRST" (top_level_sql_tokens sql).
Definition has_top_level_offset_fetch_next (sql : text) : bool :=
  has_word "OFFSET" (top_level_sql_tokens sql) && has_words "FETCH" "NEXT" (top_level_sql_tokens sql).
Definition has_top_level_select_top (sql : text) : bool := has_word "TOP" (top_level_select_tokens_before_from sql).
Definition has_top_level_select_distinct (sql : text) : bool := has_word "DISTINCT" (top_level_select_tokens_before_from sql).
Definition has_top_level_for_xml (sql : text) : bool := has_words "FOR" "XML" (top_level_sql_tokens sql).
Definition first_or_skip (sql : text) : bool :=
  existsb (λ w, is_keyword_word "FIRST" w || is_keyword_word "SKIP" w) (top_level_select_tokens_before_from sql).
Definition has_top_level_informix_row_limit (sql : text) : bool := has_top_level_limit sql || first_or_skip sql.
Definition has_top_level_firebird_row_limit (sql : text) : bool :=
  has_top_level_fetch_first sql || has_word "ROWS" (top_level_sql_tokens sql) || first_or_skip sql.
Definition has_top_level_select_into (sql : text) : bool :=
  match words_behind "SELECT" (top_level_sql_tokens sql) with None => false | Some words => has_word "INTO" words end.
(** The last ORDER that BY follows. *)
Fixpoint last_order_by (words : list SqlWord) : option nat :=
  match words with
  | w :: words' =>
      match last_order_by words' with
      | Some start => Some start
      | None => match words' with
                | next :: _ => if is_keyword_word "ORDER" w && is_keyword_word "BY" next then Some (word_start w) else None
                | [] => None
                end
      end
  | [] => None
  end.
Definition find_top_level_trailing_order_by (sql : text) : option nat := last_order_by (top_level_sql_tokens sql).

(** ** The statement *)

(** [len()]: bytes. *)
Definition bytes_len (l : text) : nat := list_sum (len_utf8 <$> l).
(** [trim().trim_end_matches(';').trim()]. *)
Definition trim_statement (l : text) : text := trim_t (trim_end_char 59 (trim_t l)).
Definition upper (l : text) : text := to_ascii_uppercase_c <$> l.
Definition trim_start_char (x : N) (l : text) : text := drop_while (N.eqb x) l.

Fixpoint comments_loop (fuel : nat) (l : text) : text :=
  let l := trim_start_t l in
  match fuel with
  | 0 => l
  | S n =>
      match l with
      | 45%N :: 45%N :: r => comments_loop n (skip_to_newline r)
      | 47%N :: 42%N :: r => comments_loop n (default [] (after_block_comment r))
      | _ => l
      end
  end.
Definition strip_leading_statement_comments (sql : text) : text := comments_loop (List.length sql) sql.

Definition single_statement_matches_base_sql (statement base_sql : text) : bool :=
  let normalized_statement := trim_statement statement in
  let normalized_base := trim_statement base_sql in
  (bytes_len normalized_statement =? bytes_len normalized_base)
  || text_eqb normalized_statement (trim_statement (strip_leading_statement_comments normalized_base)).

Definition starts_with_cte (sql : text) : bool :=
  starts_with_t (upper (trim_start_t (trim_start_char 59 (trim_start_t sql)))) (c "WITH").

Definition is_with_main_statement_keyword (w : SqlWord) : bool :=
  existsb (λ k, is_keyword_word k w) ["SELECT"; "INSERT"; "UPDATE"; "DELETE"; "MERGE"].
Definition cte_main_statement_is_select (sql : text) : bool :=
  match words_behind "WITH" (top_level_sql_tokens sql) with
  | None => false
  | Some words =>
      let words := match words with w :: words' => if is_keyword_word "RECURSIVE" w then words' else words | [] => [] end in
      match List.find is_with_main_statement_keyword words with Some w => is_keyword_word "SELECT" w | None => false end
  end.

Section Statements.
Context `{SqlTokenizer}.

(** [find_statement_at_cursor(base_sql, 0).trim().trim_end_matches(';').trim()]. *)
Definition first_statement (base_sql : text) : option text := trim_statement <$> find_statement_at_cursor base_sql 0.

(** [None] is a panic, [Some None] the error. *)
Definition single_selectable_statement (original_sql : text) : option (option text) :=
  let base_sql := trim_t original_sql in
  if bool_decide (base_sql = []) then Some None
  else
    statement ← first_statement base_sql;
    Some (
      if bool_decide (statement = []) then None
      else if negb (single_statement_matches_base_sql statement base_sql) then None
      else
        let up := upper (strip_leading_statement_comments (trim_start_t (trim_start_char 59 statement))) in
        if starts_with_t up (c "WITH") && negb (cte_main_statement_is_select statement) then None
        else if negb (starts_with_t up (c "WITH")) && negb (starts_with_t up (c "SELECT")) then None
        else if has_top_level_select_into statement then None
        else Some statement).

Definition single_statement_error_reason (original_sql : text) : option string :=
  let base_sql := trim_t original_sql in
  if bool_decide (base_sql = []) then Some "empty"
  else
    statement ← first_statement base_sql;
    Some (if bool_decide (statement = []) then "empty"
          else if negb (bytes_len statement =? bytes_len (trim_t (trim_end_char 59 base_sql))) then "multi"
          else "not_select").
End Statements.

(** ** Adding a clause *)

(** Whether a comment that a line end closes is open behind the line. *)
Fixpoint open_comment_loop (fuel : nat) (l : text) : bool :=
  match fuel, l with
  | S n, x :: l1 =>
      let next := head l1 in
      if is_quote x then open_comment_loop n (skip_sql_quoted x l1)
      else if (x =? 91)%N then open_comment_loop n (skip_sql_bracket_identifier l1)
      else if (x =? 47)%N && bool_decide (next = Some 42%N)
      then open_comment_loop n (default [] (after_block_comment (List.tl l1)))
      else if (x =? 45)%N && bool_decide (next = Some 45%N) then true
      else if (x =? 35)%N then true
      else open_comment_loop n l1
  | _, _ => false
  end.
Definition line_has_open_line_comment (line : text) : bool := open_comment_loop (List.length line) line.
Definition is_line_break (x : N) : bool := (x =? 10)%N || (x =? 13)%N.
(** The text behind the last line break. *)
Definition final_line (sql : text) : text := rev (span_t (λ x, negb (is_line_break x)) (rev sql)).1.
Definition sql_suffix_needs_newline (sql : text) : bool := line_has_open_line_comment (final_line sql).

Definition statement_for_sql_suffix (statement : text) : text :=
  let trimmed := trim_end_t statement in
  if sql_suffix_needs_newline trimmed then trimmed ++ [10%N] else trimmed.
Definition append_sql_suffix (statement suffix : text) : text :=
  let separator := if sql_suffix_needs_newline statement then [10%N] else c " " in
  trim_end_t statement ++ separator ++ trim_start_t suffix.
Definition derived_table_sql (prefix : string) (statement suffix : text) : text :=
  c prefix ++ c " (" ++ statement_for_sql_suffix statement ++ c ") " ++ suffix.

Definition digits (n : nat) : text := c (pretty n).
Definition alias_for (database_type : option DatabaseType) (name : string) : text :=
  c (quote_table_identifier database_type name).

(** [statement[..6]], [statement[6..]] of a statement of six bytes or more. *)
Fixpoint split_at_byte (n : nat) (l : text) : option (text * text) :=
  match n, l with
  | 0, _ => Some ([], l)
  | _, [] => None
  | _, x :: l' =>
      if len_utf8 x <=? n then '(a, b) ← split_at_byte (n - len_utf8 x) l'; Some (x :: a, b) else None
  end.
(** What follows a SELECT at the start; [None] is a panic. *)
Definition behind_select (statement : text) : option (option text) :=
  if bytes_len statement <? 6 then Some None
  else '(a, b) ← split_at_byte 6 statement; Some (if text_eq_ignore_ascii_case a (c "SELECT") then Some b else None).

Definition strip_sql_server_select_modifier (rest : text) (modifier : string) : option (text * text) :=
  let trimmed := trim_start_t rest in
  let leading := take (List.length rest - List.length trimmed) rest in
  let n := List.length (c modifier) in
  if (n <=? List.length trimmed) && text_eq_ignore_ascii_case (take n trimmed) (c modifier) then
    let after_modifier := drop n trimmed in
    if match after_modifier with x :: _ => is_sql_token_part x | [] => false end then None else Some (leading, after_modifier)
  else None.

(** [SELECT .. modifier row_limit ..]: the first of the modifiers that is there. *)
Fixpoint limit_behind_select (modifiers : list string) (row_limit rest : text) : text :=
  match modifiers with
  | [] => c "SELECT " ++ row_limit ++ rest
  | m :: modifiers' =>
      match strip_sql_server_select_modifier rest m with
      | Some (leading, after_modifier) => c "SELECT" ++ leading ++ c m ++ c " " ++ row_limit ++ after_modifier
      | None => limit_behind_select modifiers' row_limit rest
      end
  end.

Definition add_informix_first_limit (statement : text) (limit offset : nat) : option text :=
  if has_top_level_informix_row_limit statement then Some (statement ++ c ";")
  else
    let row_limit := if 0 <? offset then c "SKIP " ++ digits offset ++ c " FIRST " ++ digits limit else c "FIRST " ++ digits limit in
    rest ← behind_select statement;
    Some (match rest with
          | Some rest => limit_behind_select ["DISTINCT"; "UNIQUE"; "ALL"] row_limit rest ++ c ";"
          | None => c "SELECT " ++ row_limit ++ c " * FROM (" ++ statement ++ c ") dbx_page;"
          end).

Definition add_iris_top_limit (statement : text) (limit : nat) : option text :=
  if has_top_level_select_top statement then Some (statement ++ c ";")
  else
    rest ← behind_select statement;
    Some (match rest with
          | Some rest => c "SELECT TOP " ++ digits limit ++ rest ++ c ";"
          | None => c "SELECT TOP " ++ digits limit ++ c " * FROM (" ++ statement ++ c ") dbx_page;"
          end).

Definition add_outer_standard_limit (statement : text) (database_type : option DatabaseType) (limit offset : nat)
    (order_sql : text) : text :=
  derived_table_sql "SELECT * FROM" statement
    (alias_for database_type "dbx_page" ++ order_sql ++ c " LIMIT " ++ digits limit ++ c " OFFSET " ++ digits offset ++ c ";").

Definition add_questdb_limit (statement : text) (limit offset : nat) : text :=
  if has_top_level_limit statement then
    if 0 <? offset then add_outer_standard_limit statement (Some Questdb) limit offset [] else statement ++ c ";"
  else if 0 <? offset
  then append_sql_suffix statement (c "LIMIT " ++ digits offset ++ c ", " ++ digits (offset + limit) ++ c ";")
  else append_sql_suffix statement (c "LIMIT " ++ digits limit ++ c ";").

(** [parse::<usize>()] of the digits at the start. *)
Definition digits_number (l : text) : N := foldl (λ n x, (n * 10 + (x - 48))%N) 0%N l.
Definition parse_usize_literal (l : text) : option (N * text) :=
  let '(number, rest) := span_t is_ascii_digit l in
  match number with
  | [] => None
  | _ => if (digits_number number <? 2 ^ 64)%N then Some (digits_number number, rest) else None
  end.
Definition parse_standard_limit_row_count (l : text) : option N :=
  '(first, rest) ← parse_usize_literal (trim_start_t l);
  match trim_start_t rest with
  | 44%N :: rest' => fst <$> parse_usize_literal (trim_start_t rest')
  | _ => Some first
  end.
Definition top_level_limit_row_count (sql : text) : option N :=
  w ← List.find (is_keyword_word "LIMIT") (top_level_sql_tokens sql);
  parse_standard_limit_row_count (drop (word_start w + List.length (word_text w)) sql).

Definition add_fetch_first_limit (statement : text) (limit offset : nat) : text :=
  let fetch := c " FETCH FIRST " ++ digits limit ++ c " ROWS ONLY;" in
  if has_top_level_fetch_first statement then
    if 0 <? offset
    then derived_table_sql "SELECT * FROM" statement
           (alias_for None "dbx_page" ++ c " OFFSET " ++ digits offset ++ c " ROWS" ++ fetch)
    else statement ++ c ";"
  else append_sql_suffix statement ((if 0 <? offset then c " OFFSET " ++ digits offset ++ c " ROWS" else []) ++ fetch).

Definition add_firebird_rows_limit (statement : text) (limit offset : nat) : text :=
  if has_top_level_firebird_row_limit statement then statement ++ c ";"
  else append_sql_suffix statement (c (firebird_rows_clause limit offset) ++ c ";").

Definition quoted_row_num : text := c (dquote +:+ "__dbx_row_num" +:+ dquote).
Definition add_rownum_limit (statement : text) (limit offset : nat) : text :=
  if has_top_level_rownum statement then statement ++ c ";"
  else if offset =? 0 then derived_table_sql "SELECT * FROM" statement (c "WHERE ROWNUM <= " ++ digits limit ++ c ";")
  else
    let inner := c "SELECT dbx_inner.*, ROWNUM AS " ++ quoted_row_num ++ c " FROM ("
                 ++ statement_for_sql_suffix statement ++ c ") dbx_inner WHERE ROWNUM <= " ++ digits (offset + limit) in
    c "SELECT * FROM (" ++ inner ++ c ") WHERE " ++ quoted_row_num ++ c " > " ++ digits offset ++ c ";".

Definition format_positional_order_by (column_count : nat) : text :=
  if column_count =? 0 then [] else c " ORDER BY " ++ join_t (c ", ") (digits <$> seq 1 column_count).

Section Clauses.
Context `{UnicodeCase, QueryParser}.

Definition is_qualified_identifier_part (sql : text) (w : SqlWord) : bool :=
  bool_decide (head (trim_start_t (rev (take (word_start w) sql))) = Some 46%N)
  || bool_decide (head (trim_start_t (drop (word_start w + List.length (word_text w)) sql)) = Some 46%N).

Definition clickhouse_settings_clause_index (statement : text) : option nat :=
  match parse_queries ClickHouseDialect statement with
  | Some [Some q] =>
      if negb (has_settings q) then None
      else word_start <$> List.find (λ w, is_keyword_word "SETTINGS" w && negb (is_qualified_identifier_part statement w))
                            (rev (top_level_sql_tokens statement))
  | _ => word_start <$> List.find (λ w, is_keyword_word "SETTINGS" w && negb (is_qualified_identifier_part statement w))
                          (rev (top_level_sql_tokens statement))
  end.

Definition add_clickhouse_limit (statement limit_sql : text) : text :=
  let limit_sql := trim_t limit_sql in
  match clickhouse_settings_clause_index statement with
  | Some index =>
      trim_end_t (take index statement) ++ c " " ++ limit_sql ++ c " " ++ trim_start_t (drop index statement) ++ c ";"
  | None => append_sql_suffix statement (limit_sql ++ c ";")
  end.

Definition add_standard_limit (statement : text) (database_type : option DatabaseType) (limit offset : nat)
    (dedup_projection_count : option nat) : text :=
  let order_sql := match dedup_projection_count with Some n => format_positional_order_by n | None => [] end in
  if has_top_level_limit statement then
    if negb (bool_decide (order_sql = [])) then add_outer_standard_limit statement database_type limit offset order_sql
    else if (0 <? offset) || match top_level_limit_row_count statement with
                             | Some row_count => (N.of_nat limit <? row_count)%N
                             | None => false
                             end
    then add_outer_standard_limit statement database_type limit offset []
    else statement ++ c ";"
  else
    let offset_sql := if 0 <? offset then c " OFFSET " ++ digits offset else [] in
    let limit_sql := order_sql ++ c " LIMIT " ++ digits limit ++ offset_sql in
    if bool_decide (database_type = Some ClickHouse) then add_clickhouse_limit statement limit_sql
    else append_sql_suffix statement (limit_sql ++ c ";").

Definition dedup_projection_count_without_order_by (sql : text) : option nat :=
  match parse_queries GenericDialect sql with
  | Some [Some q] =>
      if has_order_by q then None
      else
        select ← select_body q;
        if negb (has_distinct select) && negb (has_group_by select) && negb (has_having select) then None
        else match projection select with [Wildcard] => None | items => Some (List.length items) end
  | _ => None
  end.

(** ** SQL Server *)

Definition sql_server_derived_projection_name (item : SelectItem) : option text :=
  match item with
  | ExprWithAlias alias => Some alias
  | UnnamedIdentifier value => match value with 64%N :: _ => None | _ => Some value end
  | UnnamedCompound parts => last parts
  | UnnamedOther | ExprWithAliases | QualifiedWildcard | Wildcard => None
  end.
Fixpoint names_differ (seen : list text) (items : list SelectItem) : bool :=
  match items with
  | [] => true
  | item :: items' =>
      match sql_server_derived_projection_name item with
      | None => false
      | Some name => negb (existsb (text_eqb (to_lowercase name)) seen) && names_differ (to_lowercase name :: seen) items'
      end
  end.
Definition sql_server_derived_table_projection_safe (statement : text) : bool :=
  match parse_queries MsSqlQueryDialect statement with
  | Some [Some q] =>
      match select_body q with
      | None => false
      | Some select =>
          match projection select with
          | [Wildcard] => match from_joins select with [joins] => negb joins | _ => false end
          | items => names_differ [] items
          end
      end
  | _ => false
  end.
End Clauses.

(** The keyword at [i], as a word. *)
Definition sql_keyword_at (sql : text) (i : nat) (keyword : string) : bool :=
  let n := List.length (c keyword) in
  let rest := drop i sql in
  (n <=? List.length rest) && text_eq_ignore_ascii_case (take n rest) (c keyword)
  && negb (from_option is_sql_token_part false (last (take i sql)))
  && negb (from_option is_sql_token_part false (head (drop n rest))).
Definition skip_sql_keyword (sql : text) (i : nat) (keyword : string) : option nat :=
  if sql_keyword_at sql i keyword then Some (i + List.length (c keyword)) else None.
Definition position (sql rest : text) : nat := List.length sql - List.length rest.
Definition skip_sql_whitespace (sql : text) (i : nat) : nat := position sql (trim_start_t (drop i sql)).

(** [skip_sql_parenthesized]: what follows the parenthesis that closes the first one. *)
Fixpoint skip_sql_parenthesized (fuel depth : nat) (l : text) : text :=
  match fuel, l with
  | S n, x :: l1 =>
      if is_quote x then skip_sql_parenthesized n depth (skip_sql_quoted x l1)
      else if (x =? 91)%N then skip_sql_parenthesized n depth (skip_sql_bracket_identifier l1)
      else if (x =? 40)%N then skip_sql_parenthesized n (S depth) l1
      else if (x =? 41)%N then if Nat.pred depth =? 0 then l1 else skip_sql_parenthesized n (Nat.pred depth) l1
      else skip_sql_parenthesized n depth l1
  | _, _ => []
  end.

Definition skip_sqlserver_top_clause (sql : text) (i : nat) : nat :=
  let cursor := skip_sql_whitespace sql i in
  let rest := drop cursor sql in
  let cursor :=
    if bool_decide (head rest = Some 40%N) then position sql (skip_sql_parenthesized (List.length rest) 0 rest)
    else position sql (span_t (λ x, negb (is_whitespace x) && negb (x =? 44)%N) rest).2 in
  let cursor := skip_sql_whitespace sql cursor in
  let cursor := match skip_sql_keyword sql cursor "PERCENT" with Some next => skip_sql_whitespace sql next | None => cursor end in
  match skip_sql_keyword sql cursor "WITH" with
  | Some next =>
      match skip_sql_keyword sql (skip_sql_whitespace sql next) "TIES" with
      | Some after_ties => skip_sql_whitespace sql after_ties
      | None => cursor
      end
  | None => cursor
  end.

(** The comma or FROM that ends the first item, from [i] on. *)
Fixpoint projection_end_loop (fuel depth : nat) (sql : text) (i : nat) : option nat :=
  match fuel, drop i sql with
  | S n, x :: l1 =>
      if is_quote x then projection_end_loop n depth sql (position sql (skip_sql_quoted x l1))
      else if (x =? 91)%N then projection_end_loop n depth sql (position sql (skip_sql_bracket_identifier l1))
      else if (x =? 40)%N then projection_end_loop n (S depth) sql (i + 1)
      else if (x =? 41)%N then projection_end_loop n (Nat.pred depth) sql (i + 1)
      else if (depth =? 0) && ((x =? 44)%N || sql_keyword_at sql i "FROM") then Some i
      else projection_end_loop n depth sql (i + 1)
  | _, _ => None
  end.
Definition find_first_projection_end (sql : text) (start : nat) : option nat := projection_end_loop (List.length sql) 0 sql start.

(** [part.part]: words and names in brackets. *)
Fixpoint order_projection_loop (fuel : nat) (expect_part saw_part : bool) (l : text) : bool :=
  match fuel, l with
  | S n, x :: l1 =>
      if is_whitespace x then false
      else if (x =? 46)%N then if expect_part then false else order_projection_loop n true saw_part l1
      else if (x =? 91)%N then
        if negb expect_part then false
        else
          let rest := skip_sql_bracket_identifier l1 in
          if List.length l1 <=? List.length rest then false else order_projection_loop n false true rest
      else if is_sql_token_start x then
        if negb expect_part then false else order_projection_loop n false true (span_t is_sql_token_part l1).2
      else false
  | _, _ => saw_part && negb expect_part
  end.
Definition is_simple_sqlserver_order_projection (projection : text) : bool :=
  if bool_decide (projection = []) || text_eqb projection (c "*") then false
  else order_projection_loop (List.length projection) true false projection.

Fixpoint last_part_loop (fuel : nat) (part l : text) : text :=
  match fuel, l with
  | S n, x :: l1 =>
      if (x =? 91)%N then last_part_loop n part (skip_sql_bracket_identifier l1)
      else if (x =? 46)%N then last_part_loop n l1 l1
      else last_part_loop n part l1
  | _, _ => part
  end.
Definition last_sqlserver_identifier_part (projection : text) : text :=
  trim_t (last_part_loop (List.length projection) projection projection).

Definition sql_server_derived_order_column_from_projection (projection : text) : option text :=
  if negb (is_simple_sqlserver_order_projection projection) then None
  else
    let last_part := last_sqlserver_identifier_part projection in
    if starts_with_t last_part (c "[") then Some last_part
    else Some (c (quote_table_identifier (Some SqlServer) (from_chars last_part))).

(** [None] is a panic. *)
Definition first_simple_sqlserver_projection_order_column (statement : text) : option (option text) :=
  let sql := strip_leading_statement_comments (trim_t statement) in
  rest ← behind_select sql;
  Some (match rest with
        | None => None
        | Some _ =>
            let index := skip_sql_whitespace sql 6 in
            let index :=
              match skip_sql_keyword sql index "DISTINCT" with
              | Some next => skip_sql_whitespace sql next
              | None => match skip_sql_keyword sql index "ALL" with Some next => skip_sql_whitespace sql next | None => index end
              end in
            let index := match skip_sql_keyword sql index "TOP" with Some next => skip_sqlserver_top_clause sql next | None => index end in
            let projection_start := skip_sql_whitespace sql index in
            projection_end ← find_first_projection_end sql projection_start;
            sql_server_derived_order_column_from_projection (trim_t (sub sql projection_start projection_end))
        end).
Definition sql_server_default_pagination_order (statement : text) : option text :=
  order ← first_simple_sqlserver_projection_order_column statement; Some (default (c "(SELECT NULL)") order).

Definition row_num : text := c "[__dbx_row_num]".
(** [SELECT .. WHERE row > offset AND row <= end ..] over the numbered rows of [source]. *)
Definition numbered_page (row_number_order source : text) (limit offset : nat) : text :=
  c "SELECT * FROM (SELECT dbx_page_source.*, ROW_NUMBER() OVER (" ++ row_number_order ++ c ") AS " ++ row_num ++ c " FROM ("
  ++ source ++ c ") dbx_page_source) dbx_page WHERE " ++ row_num ++ c " > " ++ digits offset ++ c " AND " ++ row_num ++ c " <= "
  ++ digits (offset + limit) ++ c " ORDER BY " ++ row_num ++ c ";".

Definition add_sql_server_existing_top_pagination (statement : text) (limit offset : nat) : option text :=
  order ← sql_server_default_pagination_order statement;
  let row_number_order := c "ORDER BY " ++ order in
  Some (if offset =? 0
        then c "SELECT TOP (" ++ digits limit ++ c ") * FROM (" ++ statement ++ c ") [dbx_page] " ++ row_number_order ++ c ";"
        else numbered_page row_number_order statement limit offset).

Definition add_sql_server_top (sql : text) (limit : nat) : option text :=
  if has_top_level_select_top sql || has_top_level_offset_fetch_next sql then Some sql
  else
    rest ← behind_select sql;
    Some (match rest with
          | Some rest =>
              let top := c "TOP (" ++ digits limit ++ c ")" in
              match strip_sql_server_select_modifier rest "DISTINCT" with
              | Some (leading, after_modifier) => c "SELECT" ++ leading ++ c "DISTINCT " ++ top ++ after_modifier
              | None =>
                  match strip_sql_server_select_modifier rest "ALL" with
                  | Some (leading, after_modifier) => c "SELECT" ++ leading ++ c "ALL " ++ top ++ after_modifier
                  | None => c "SELECT " ++ top ++ rest
                  end
              end
          | None => c "SELECT TOP (" ++ digits limit ++ c ") * FROM (" ++ sql ++ c ") [dbx_page]"
          end).

Section Building.
Context `{SqlTokenizer, UnicodeCase, QueryParser, UnicodeAlphanumeric}.

(** [Some None]: the page cannot be made. *)
Definition add_sql_server_offset_fetch (statement : text) (limit offset : nat) : option (option text) :=
  if has_top_level_offset_fetch_next statement then Some (if offset =? 0 then Some statement else None)
  else if has_top_level_select_top statement then
    if sql_server_derived_table_projection_safe statement
    then Some <$> add_sql_server_existing_top_pagination statement limit offset
    else Some None
  else
    let order_by_index := find_top_level_trailing_order_by statement in
    if bool_decide (order_by_index = None) && has_top_level_select_distinct statement
    then (if offset =? 0 then Some <$> add_sql_server_top statement limit else Some None)
    else if offset =? 0 then Some <$> add_sql_server_top statement limit
    else
      let statement_without_order :=
        match order_by_index with Some index => trim_end_t (take index statement) | None => statement end in
      if negb (sql_server_derived_table_projection_safe statement_without_order) then Some None
      else
        let row_number_order :=
          match order_by_index with Some index => trim_t (drop index statement) | None => c "ORDER BY (SELECT NULL)" end in
        Some (Some (numbered_page row_number_order statement_without_order limit offset)).

Definition statement_for_order_insensitive_derived_table (statement : text) : text :=
  match find_top_level_trailing_order_by statement with
  | None => statement
  | Some order_by => trim_end_t (take order_by statement)
  end.
Definition iris_statement_for_derived_table (statement : text) : text := statement_for_order_insensitive_derived_table statement.
Definition sql_server_statement_for_derived_table (statement : text) : text :=
  if has_top_level_select_top statement || has_top_level_for_xml statement then statement
  else statement_for_order_insensitive_derived_table statement.

(** ** The three rewritings *)

(** [QuerySqlBuildResult]: the SQL, or the reason. *)
Abbreviation QuerySqlBuildResult := (result text string).

Definition unsupported_pagination_type (database_type : option DatabaseType) : bool :=
  match database_type with Some (Neo4j | MongoDb | Redis) => true | _ => false end.
Definition is_elastic (database_type : option DatabaseType) : bool :=
  match database_type with Some (Elasticsearch | Easysearch) => true | _ => false end.

(** The statement of the text, or the reason why it has no page. *)
Definition selectable_or_reason (original_sql : text) : option QuerySqlBuildResult :=
  selectable ← single_selectable_statement original_sql;
  match selectable with
  | Some statement => Some (Ok statement)
  | None => reason ← single_statement_error_reason original_sql; Some (Err reason)
  end.

Definition paginated_statement (original_sql statement : text) (database_type : option DatabaseType) (limit offset : nat) :
    option QuerySqlBuildResult :=
  match pagination_strategy database_type UserQuery with
  | SqlServerTop =>
      page ← add_sql_server_offset_fetch statement limit offset;
      Some (match page with Some sql => Ok sql | None => Err "unsupported" end)
  | QuestDbLimit => Some (Ok (add_questdb_limit statement limit offset))
  | InformixFirst => Ok <$> add_informix_first_limit statement limit offset
  | FirebirdRows => Some (Ok (add_firebird_rows_limit statement limit offset))
  | Db2FetchFirst | FetchFirst => Some (Ok (add_fetch_first_limit statement limit offset))
  | Rownum => Some (Ok (add_rownum_limit statement limit offset))
  | AgentMaxRows | Unbounded => Some (Ok (statement ++ c ";"))
  | IrisTop => Ok <$> add_iris_top_limit statement limit
  | LimitOffset =>
      Some (Ok (add_standard_limit statement database_type limit offset (dedup_projection_count_without_order_by original_sql)))
  end.

Definition build_paginated_query_sql (original_sql : text) (database_type : option DatabaseType) (limit offset : nat) :
    option QuerySqlBuildResult :=
  selectable ← selectable_or_reason original_sql;
  match selectable with
  | Err reason => Some (Err reason)
  | Ok statement =>
      let safe_limit := Nat.max limit 1 in
      if unsupported_pagination_type database_type then Some (Err "unsupported")
      else if is_elastic database_type then
        Some (if has_top_level_limit statement then Err "unsupported"
              else Ok (statement ++ c " LIMIT " ++ digits safe_limit ++ c " OFFSET " ++ digits offset ++ c ";"))
      else paginated_statement original_sql statement database_type safe_limit offset
  end.

Definition build_count_query_sql (original_sql : text) (database_type : option DatabaseType) : option QuerySqlBuildResult :=
  selectable ← selectable_or_reason original_sql;
  Some (match selectable with
        | Err reason => Err reason
        | Ok statement =>
            if unsupported_pagination_type database_type || is_elastic database_type
               || (bool_decide (database_type = Some SqlServer) && negb (sql_server_derived_table_projection_safe statement))
            then Err "unsupported"
            else
              let wrapped_sql :=
                match database_type with
                | Some SqlServer => sql_server_statement_for_derived_table statement
                | Some Iris => iris_statement_for_derived_table statement
                | _ => statement
                end in
              Ok (derived_table_sql "SELECT COUNT(*) AS dbx_total_rows FROM" wrapped_sql
                    (alias_for database_type "dbx_count" ++ c ";"))
        end).

Definition fallback_alias (index : nat) : text := c "column_" ++ digits (index + 1).
(** [split_whitespace()]. *)
Definition whitespace_words (l : text) : list text := List.filter (λ w, negb (bool_decide (w = []))) (split_t is_whitespace l []).
Definition normalize_alias_base (column : text) (index : nat) : text :=
  let compact := join_t (c "_") (whitespace_words column) in
  let safe := (λ x, if is_alphanumeric x || (x =? 95)%N || (x =? 36)%N then x else 95%N) <$> compact in
  let safe := trim_end_char 95 (trim_start_char 95 safe) in
  if bool_decide (safe = []) then fallback_alias index else safe.
(** [seen] holds the bases of the columns before. *)
Fixpoint aliases_loop (seen : list text) (index : nat) (columns : list text) : list text :=
  match columns with
  | [] => []
  | column :: columns' =>
      let base := normalize_alias_base column index in
      let count := S (List.length (List.filter (text_eqb base) seen)) in
      (if count =? 1 then base else base ++ c "_" ++ digits count) :: aliases_loop (base :: seen) (S index) columns'
  end.
Definition build_derived_column_aliases (result_columns : list text) : list text := aliases_loop [] 0 result_columns.

Inductive QuerySortDirection : Type := Asc | Desc.
Definition as_sql (d : QuerySortDirection) : text := match d with Asc => c "ASC" | Desc => c "DESC" end.
Record SortedQuerySqlOptions : Type := {
  sort_sql : text; sort_database_type : option DatabaseType; result_columns : list text; column_index : nat; sort_column : text;
  direction : QuerySortDirection
}.

Definition uses_derived_column_aliases (database_type : option DatabaseType) : bool :=
  match database_type with
  | Some (Mysql | ClickHouse | Doris | Sqlite | DuckDb | Dameng | Oracle | OceanbaseOracle) => false
  | _ => true
  end.
Fixpoint position_of (x : text) (l : list text) : option nat :=
  match l with [] => None | y :: l' => if text_eqb y x then Some 0 else S <$> position_of x l' end.
Definition sort_reference (o : SortedQuerySqlOptions) : text :=
  let aliases := build_derived_column_aliases (result_columns o) in
  let sort_alias :=
    if uses_derived_column_aliases (sort_database_type o) then
      match aliases !! column_index o with
      | Some alias => alias
      | None => default (fallback_alias (column_index o))
                  (i ← position_of (sort_column o) (result_columns o); aliases !! i)
      end
    else default (sort_column o) (result_columns o !! column_index o) in
  let use_sort_ordinal :=
    negb (uses_derived_column_aliases (sort_database_type o))
    && match sort_database_type o with Some (Dameng | Oracle | OceanbaseOracle) => true | _ => false end
    && match result_columns o !! column_index o with
       | Some column => 1 <? List.length (List.filter (text_eq_ignore_ascii_case column) (result_columns o))
       | None => false
       end in
  if use_sort_ordinal then digits (column_index o + 1)
  else c (quote_table_identifier (sort_database_type o) (from_chars sort_alias)).

Definition build_sorted_query_sql (o : SortedQuerySqlOptions) : option QuerySqlBuildResult :=
  let base_sql := trim_t (sort_sql o) in
  if bool_decide (base_sql = []) then Some (Err "empty")
  else
    statement ← first_statement base_sql;
    Some (
      if bool_decide (statement = []) then Err "empty"
      else if negb (bytes_len statement =? bytes_len (trim_t (trim_end_char 59 base_sql))) then Err "multi"
      else if starts_with_t (upper (trim_start_t statement)) (c "WITH") then Err "with"
      else if negb (starts_with_t (upper (trim_start_t statement)) (c "SELECT")) then Err "not_select"
      else
        let wrapped_statement :=
          if bool_decide (sort_database_type o = Some SqlServer) then sql_server_statement_for_derived_table statement
          else statement in
        let order := c " ORDER BY " ++ sort_reference o ++ c " " ++ as_sql (direction o) ++ c ";" in
        if uses_derived_column_aliases (sort_database_type o) then
          let alias_list :=
            join_t (c ", ") ((λ alias, c (quote_table_identifier (sort_database_type o) (from_chars alias)))
                               <$> build_derived_column_aliases (result_columns o)) in
          Ok (c "SELECT * FROM (" ++ wrapped_statement ++ c ") t(" ++ alias_list ++ c ")" ++ order)
        else Ok (c "SELECT * FROM (" ++ wrapped_statement ++ c ") t" ++ order)).

(** ** The plan of an execution *)

Record QueryPagination : Type := { page_limit_of : nat; page_offset_of : nat; session_id : option text }.
Record QueryPaginationExecutionPlanOptions : Type := {
  plan_sql : text; query_base_sql : text; plan_database_type : option DatabaseType; pagination : QueryPagination;
  use_agent_cursor : bool; first_page_uses_actual_sql : bool
}.
Record QueryPaginationExecutionPlan : Type := {
  sql_to_execute : text; page_sql : option text; page_limit : option nat; page_offset : option nat; count_sql : option text;
  use_agent_result_session : bool
}.

Definition build_query_pagination_execution_plan (o : QueryPaginationExecutionPlanOptions) :
    option QueryPaginationExecutionPlan :=
  let limit := page_limit_of (pagination o) in
  let offset := page_offset_of (pagination o) in
  counted ← build_count_query_sql (query_base_sql o) (plan_database_type o);
  let count := match counted with Ok sql => Some sql | Err _ => None end in
  let plan sql page at_page session :=
    {| sql_to_execute := sql; page_sql := page; page_limit := if at_page : bool then Some limit else None;
       page_offset := if at_page then Some offset else None; count_sql := count; use_agent_result_session := session |} in
  if bool_decide (is_Some (session_id (pagination o))) then Some (plan (plan_sql o) None true true)
  else if bool_decide (plan_database_type o = Some SqlServer) && starts_with_cte (query_base_sql o)
  then Some (plan (plan_sql o) None false false)
  else
    let can_use_first_page_cursor := use_agent_cursor o && (offset =? 0) in
    let cursor_sql :=
      if negb (first_page_uses_actual_sql o) && text_eqb (plan_sql o) (query_base_sql o) then query_base_sql o else plan_sql o in
    if can_use_first_page_cursor && negb (bool_decide (plan_database_type o = Some Kingbase))
    then Some (plan cursor_sql None true true)
    else
      paginated ← build_paginated_query_sql (plan_sql o) (plan_database_type o) limit offset;
      Some (match paginated with
            | Ok sql => plan sql (Some sql) true false
            | Err _ => if can_use_first_page_cursor then plan cursor_sql None true true else plan (plan_sql o) None false false
            end).
End Building.
