(* ===== verification/QueryPages.v ===== *)
(** * What a page of a query selects

    A lexer of SQL that follows a text character by character, and what QuerySql
    adds to a statement: where the clause of a page is read as SQL, which rows it
    selects; and the statements whose clause ends up in a comment. *)
From S2P Require Import Prelude RustStr SqlText SqlSplit GridTypes SqlIdent TableSelect StatementRanges QuerySql.

(** ** Reading SQL *)

Inductive Quote : Type := SingleQuote | DoubleQuote | Backtick | Bracket.
Definition closing (q : Quote) : N :=
  match q with SingleQuote => 39 | DoubleQuote => 34 | Backtick => 96 | Bracket => 93 end.

(** What differs between databases. *)
Record Lexis : Type := {
  hash_comments : bool; escapes : Quote → bool; (* whether a backslash escapes what follows it *)
  brackets : bool                                (* whether [name] is a name *)
}.
Inductive LexState : Type :=
| InCode | BehindDash | BehindSlash
| InLine | InBlock | BehindStar
| Inside (q : Quote) | Escaped (q : Quote) | BehindQuote (q : Quote).

Definition code_step (v : Lexis) (x : N) : LexState :=
  if (x =? 45)%N then BehindDash
  else if (x =? 47)%N then BehindSlash
  else if hash_comments v && (x =? 35)%N then InLine
  else if (x =? 39)%N then Inside SingleQuote
  else if (x =? 34)%N then Inside DoubleQuote
  else if (x =? 96)%N then Inside Backtick
  else if brackets v && (x =? 91)%N then Inside Bracket
  else InCode.
Definition sql_lex_step (v : Lexis) (s : LexState) (x : N) : LexState :=
  match s with
  | InCode => code_step v x
  | BehindDash => if (x =? 45)%N then InLine else code_step v x
  | BehindSlash => if (x =? 42)%N then InBlock else code_step v x
  | InLine => if (x =? 10)%N then InCode else InLine
  | InBlock => if (x =? 42)%N then BehindStar else InBlock
  | BehindStar => if (x =? 47)%N then InCode else if (x =? 42)%N then BehindStar else InBlock
  | Inside q => if (x =? closing q)%N then BehindQuote q else if escapes v q && (x =? 92)%N then Escaped q else Inside q
  | Escaped q => Inside q
  | BehindQuote q => if (x =? closing q)%N then Inside q else code_step v x
  end.
Definition lex (v : Lexis) (s : LexState) (l : text) : LexState := foldl (sql_lex_step v) s l.

(** Outside quotes and comments: a space makes it [InCode]. *)
Definition in_code (s : LexState) : bool :=
  match s with InCode | BehindDash | BehindSlash | BehindQuote _ => true | _ => false end.

Lemma lex_app v s a b : lex v s (a ++ b) = lex v (lex v s a) b.
Proof. apply foldl_app. Qed.

Lemma space_ends v s x : in_code s = true → x ∈ [32%N; 10%N] → sql_lex_step v s x = InCode.
Proof.
  intros Hs Hx. destruct s as [| | | | | | | |q]; try discriminate Hs; set_unfold in Hx;
    destruct Hx as [->|[->|[]]]; try destruct q; cbn; by destruct (hash_comments v), (brackets v).
Qed.

Lemma line_stays v l : 10%N ∉ l → lex v InLine l = InLine.
Proof.
  induction l as [|x l IH]; [done|]. intros Hx. apply not_elem_of_cons in Hx as [Hx Hl]. cbn.
  destruct (N.eqb_spec x 10); [by subst|]. by apply IH.
Qed.

(** ** The code's scan of a line against the lexer *)

Section Line.
Context (v : Lexis).

(** A line the scan and every lexer agree on: no backslash, and brackets only where they are quotes. *)
Definition plain_line (l : text) : Prop := 92%N ∉ l ∧ (brackets v = false → 91%N ∉ l).

Lemma plain_cons x l : plain_line (x :: l) → plain_line l.
Proof. unfold plain_line. set_solver. Qed.

(** What the scan skips ends where the lexer is in code again. *)
Lemma quoted_skipped x q l : x = closing q → x ≠ 93%N → 92%N ∉ l →
  lex v (Inside q) l = InLine → lex v InCode (skip_sql_quoted x l) = InLine.
Proof.
  intros Hq Hx. remember (List.length l) as n eqn:Hn. revert l Hn. induction (lt_wf n) as [n _ IH]. intros l -> Hb H.
  destruct l as [|y l]; [discriminate H|]. apply not_elem_of_cons in Hb as [Hy Hb]. cbn [skip_sql_quoted].
  assert ((y =? 92)%N = false) as Hy' by (by apply N.eqb_neq). rewrite Hy', andb_false_r.
  change (lex v (sql_lex_step v (Inside q) y) l = InLine) in H. cbn [sql_lex_step] in H. rewrite Hy', andb_false_r, <-Hq in H.
  destruct (N.eqb_spec y x) as [->|Hne]; [|by apply (IH (List.length l)); [cbn; lia|..]].
  destruct l as [|z l]; [discriminate H|]. change (lex v (sql_lex_step v (BehindQuote q) z) l = InLine) in H. cbn [sql_lex_step] in H.
  rewrite <-Hq in H. destruct (N.eqb_spec z x) as [->|Hz]; [|exact H].
  apply (IH (List.length l)); [cbn; lia|done| |exact H]. set_solver.
Qed.

Lemma bracket_skipped l : lex v (Inside Bracket) l = InLine → 92%N ∉ l → lex v InCode (skip_sql_bracket_identifier l) = InLine.
Proof.
  remember (List.length l) as n eqn:Hn. revert l Hn. induction (lt_wf n) as [n _ IH]. intros l -> H Hb.
  destruct l as [|y l]; [discriminate H|]. apply not_elem_of_cons in Hb as [Hy Hb]. cbn [skip_sql_bracket_identifier].
  change (lex v (sql_lex_step v (Inside Bracket) y) l = InLine) in H. cbn [sql_lex_step closing] in H.
  rewrite (proj2 (N.eqb_neq y 92)), andb_false_r in H by done.
  destruct (N.eqb_spec y 93) as [->|Hne]; [|by apply (IH (List.length l)); [cbn; lia|..]].
  destruct l as [|z l]; [discriminate H|]. change (lex v (sql_lex_step v (BehindQuote Bracket) z) l = InLine) in H. cbn [sql_lex_step closing] in H.
  destruct (N.eqb_spec z 93) as [->|Hz]; [|exact H]. apply (IH (List.length l)); [cbn; lia|done|exact H|set_solver].
Qed.

Lemma comment_skipped l : lex v InBlock l = InLine → lex v InCode (default [] (after_block_comment l)) = InLine.
Proof.
  induction l as [|x l IH]; [discriminate|]. intros H. change (lex v (sql_lex_step v InBlock x) l = InLine) in H. cbn [sql_lex_step] in H.
  cbn [after_block_comment]. destruct l as [|y l]; [by destruct (x =? 42)%N|].
  destruct (N.eqb_spec x 42) as [->|Hx]; cbn [andb]; [|by apply IH].
  change (lex v (sql_lex_step v BehindStar y) l = InLine) in H. cbn [sql_lex_step] in H.
  destruct (N.eqb_spec y 47) as [->|Hy]; [exact H|]. apply IH.
  change (lex v (sql_lex_step v InBlock y) l = InLine). cbn [sql_lex_step]. by destruct (y =? 42)%N.
Qed.

Lemma skip_sql_quoted_suffix x l : skip_sql_quoted x l `suffix_of` l.
Proof.
  remember (List.length l) as n eqn:Hn. revert l Hn. induction (lt_wf n) as [n _ IH]. intros l ->.
  assert (Hi : ∀ l', List.length l' < List.length l → skip_sql_quoted x l' `suffix_of` l') by (intros l' Hl'; by apply (IH _ Hl')).
  destruct l as [|y l]; [done|]. cbn [skip_sql_quoted].
  repeat (case_match; try done); simplify_eq/=;
    first [apply suffix_nil | by eexists [_] | apply suffix_cons_r, suffix_cons_r, Hi; cbn; lia
          | apply suffix_cons_r, Hi; cbn; lia].
Qed.
Lemma skip_bracket_suffix l : skip_sql_bracket_identifier l `suffix_of` l.
Proof.
  remember (List.length l) as n eqn:Hn. revert l Hn. induction (lt_wf n) as [n _ IH]. intros l ->.
  assert (Hi : ∀ l', List.length l' < List.length l → skip_sql_bracket_identifier l' `suffix_of` l')
    by (intros l' Hl'; by apply (IH _ Hl')).
  destruct l as [|y l]; [done|]. cbn [skip_sql_bracket_identifier].
  repeat (case_match; try done); simplify_eq/=;
    first [apply suffix_nil | by eexists [_] | apply suffix_cons_r, suffix_cons_r, Hi; cbn; lia
          | apply suffix_cons_r, Hi; cbn; lia].
Qed.
Lemma after_comment_suffix l : default [] (after_block_comment l) `suffix_of` l.
Proof.
  induction l as [|x l IH]; [done|]. cbn [after_block_comment]. destruct l as [|y l]; [apply suffix_nil|].
  destruct ((x =? 42)%N && (y =? 47)%N); [by repeat apply suffix_cons_r|]. by apply suffix_cons_r.
Qed.

Lemma plain_suffix a l : a `suffix_of` l → plain_line l → plain_line a.
Proof. intros [k ->] [H1 H2]. split; [set_solver|]. intros Hb. specialize (H2 Hb). set_solver. Qed.

(** Where the lexer is in a comment that goes to the end of the line, the scan says so. *)
Lemma open_comment_found fuel l :
  List.length l ≤ fuel → plain_line l → lex v InCode l = InLine → open_comment_loop fuel l = true.
Proof.
  revert l. induction fuel as [|fuel IH]; intros l Hl Hp H; [destruct l; [discriminate H|cbn in Hl; lia]|].
  destruct l as [|x l]; [discriminate H|]. cbn [open_comment_loop].
  assert (Hrest : ∀ r, r `suffix_of` l → lex v InCode r = InLine → open_comment_loop fuel r = true).
  { intros r Hr. apply IH; [apply suffix_length in Hr; cbn in Hl; lia|].
    by apply (plain_suffix r (x :: l)); [apply suffix_cons_r|]. }
  change (lex v (code_step v x) l = InLine) in H. destruct Hp as [Hb Hk]. unfold code_step in H.
  destruct (is_quote x) eqn:Hq.
  { apply Hrest; [apply skip_sql_quoted_suffix|]. unfold is_quote, SQ, DQ, BT in Hq.
    assert (x = 39 ∨ x = 34 ∨ x = 96)%N as [-> | [-> | ->]] by (rewrite !orb_true_iff, !N.eqb_eq in Hq; tauto);
      cbn in H; rewrite ?andb_false_r in H; eapply quoted_skipped; try exact H; (done || set_solver). }
  unfold is_quote, SQ, DQ, BT in Hq. apply orb_false_iff in Hq as [[H39 H34]%orb_false_iff H96].
  rewrite H39, H34, H96 in H.
  destruct (N.eqb_spec x 91) as [->|H91].
  { cbn in H. rewrite andb_false_r in H. destruct (brackets v) eqn:Hbr; cbn [andb] in H.
    - apply Hrest; [apply skip_bracket_suffix|]. apply bracket_skipped; [done|set_solver].
    - exfalso. apply (Hk eq_refl). set_solver. }
  rewrite andb_false_r in H. destruct (N.eqb_spec x 47) as [->|H47].
  { cbn [N.eqb Pos.eqb] in H. cbn [andb]. destruct l as [|y l]; [discriminate H|].
    change (lex v (sql_lex_step v BehindSlash y) l = InLine) in H. cbn [sql_lex_step] in H. cbn [head List.tl].
    destruct (N.eqb_spec y 42) as [->|Hy].
    - rewrite bool_decide_eq_true_2 by done.
      apply Hrest; [apply suffix_cons_r, after_comment_suffix|]. by apply comment_skipped.
    - rewrite bool_decide_eq_false_2 by congruence. by apply Hrest. }
  cbn [andb]. destruct (N.eqb_spec x 45) as [->|H45].
  { destruct l as [|y l]; [discriminate H|]. change (lex v (sql_lex_step v BehindDash y) l = InLine) in H. cbn [sql_lex_step] in H.
    cbn [head andb]. destruct (N.eqb_spec y 45) as [->|Hy]; [by rewrite bool_decide_eq_true_2|].
    rewrite bool_decide_eq_false_2 by congruence. by apply Hrest. }
  cbn [andb]. destruct (x =? 35)%N; [done|]. rewrite andb_false_r in H. by apply Hrest.
Qed.
End Line.

(** ** A clause behind a statement *)

Definition before_final_line (sql : text) : text := rev (span_t (λ x, negb (is_line_break x)) (rev sql)).2.

(** A statement whose last line starts outside quotes and comments, and which ends
    outside quotes and in no comment but one that the line ends. *)
Definition settled (v : Lexis) (statement : text) : Prop :=
  lex v InCode (before_final_line statement) = InCode ∧ plain_line v (final_line statement) ∧
  (in_code (lex v InCode statement) = true ∨ lex v InCode statement = InLine).

Lemma lines_split sql : sql = before_final_line sql ++ final_line sql.
Proof. unfold before_final_line, final_line. by rewrite <-rev_app_distr, <-span_split, rev_involutive. Qed.

Lemma clause_in_code v statement suffix :
  trim_end_t statement = statement → settled v statement →
  ∃ space, append_sql_suffix statement suffix = statement ++ [space] ++ trim_start_t suffix ∧
           lex v InCode (statement ++ [space]) = InCode.
Proof.
  intros Ht (Hbefore & Hline & Hend). unfold append_sql_suffix. rewrite Ht.
  assert (sql_suffix_needs_newline statement = false → in_code (lex v InCode statement) = true) as Hn.
  { intros Hfalse. destruct Hend as [He|He]; [done|]. exfalso.
    pose proof (lines_split statement) as Hs. rewrite Hs, lex_app, Hbefore in He.
    unfold sql_suffix_needs_newline, line_has_open_line_comment in Hfalse.
    by rewrite (open_comment_found v _ _ (reflexivity _) Hline He) in Hfalse. }
  destruct (sql_suffix_needs_newline statement).
  - exists 10%N. split; [done|]. rewrite lex_app. destruct Hend as [He|He]; [|by rewrite He].
    by apply space_ends; [|set_solver].
  - exists 32%N. split; [done|]. rewrite lex_app. apply space_ends; [by apply Hn|set_solver].
Qed.

(** How a dialect reads the clause of a page. *)
Inductive clause_reads : TablePaginationStrategy → text → Page → Prop :=
| clause_limit order n : order = [] ∨ (∃ items, order = c "ORDER BY " ++ items ++ c " ") →
    clause_reads LimitOffset (order ++ c "LIMIT " ++ digits n ++ c ";") (FirstRows n)
| clause_limit_offset order n skip : order = [] ∨ (∃ items, order = c "ORDER BY " ++ items ++ c " ") →
    clause_reads LimitOffset (order ++ c "LIMIT " ++ digits n ++ c " OFFSET " ++ digits skip ++ c ";") (SkipFirst skip n)
| clause_questdb n : clause_reads QuestDbLimit (c "LIMIT " ++ digits n ++ c ";") (FirstRows n)
| clause_questdb_bounds lo hi :
    clause_reads QuestDbLimit (c "LIMIT " ++ digits lo ++ c ", " ++ digits hi ++ c ";") (LimitBounds lo hi)
| clause_fetch strategy n : strategy ∈ [FetchFirst; Db2FetchFirst] →
    clause_reads strategy (c "FETCH FIRST " ++ digits n ++ c " ROWS ONLY;") (FirstRows n)
| clause_offset_fetch strategy n skip : strategy ∈ [FetchFirst; Db2FetchFirst] →
    clause_reads strategy (c "OFFSET " ++ digits skip ++ c " ROWS FETCH FIRST " ++ digits n ++ c " ROWS ONLY;") (SkipFirst skip n)
| clause_rows n : clause_reads FirebirdRows (c "ROWS " ++ digits n ++ c ";") (FirstRows n)
| clause_rows_to first final :
    clause_reads FirebirdRows (c "ROWS " ++ digits first ++ c " TO " ++ digits final ++ c ";") (RowsTo first final).

(** The databases that put the clause of a page behind the statement. *)
Definition appends_clause (database_type : option DatabaseType) : bool :=
  negb (unsupported_pagination_type database_type) && negb (is_elastic database_type)
  && negb (bool_decide (database_type = Some ClickHouse))
  && match pagination_strategy database_type UserQuery with
     | LimitOffset | QuestDbLimit | FetchFirst | Db2FetchFirst | FirebirdRows => true
     | _ => false
     end.
(** The statement bounds its rows itself. *)
Definition bounds_itself (database_type : option DatabaseType) (statement : text) : bool :=
  match pagination_strategy database_type UserQuery with
  | LimitOffset | QuestDbLimit => has_top_level_limit statement
  | FetchFirst | Db2FetchFirst => has_top_level_fetch_first statement
  | FirebirdRows => has_top_level_firebird_row_limit statement
  | _ => false
  end.

Lemma trim_end_again l : trim_end_t (trim_t l) = trim_t l.
Proof.
  unfold trim_t, trim_end_t. rewrite rev_involutive. f_equal. generalize (rev (trim_start_t l)) as r.
  induction r as [|x r IH]; [done|]. cbn [drop_while]. destruct (is_whitespace x) eqn:E; [done|]. cbn [drop_while]. by rewrite E.
Qed.

Lemma selectable_trimmed `{SqlTokenizer} sql statement :
  single_selectable_statement sql = Some (Some statement) → trim_end_t statement = statement.
Proof.
  unfold single_selectable_statement, first_statement. destruct (bool_decide _); [done|].
  destruct (find_statement_at_cursor _ _) as [found|]; [|done]. cbn [fmap option_fmap option_map mbind option_bind].
  intros E%(inj Some).
  repeat (match type of E with (if ?b then _ else _) = _ => destruct b end; try discriminate E);
    apply (inj Some) in E as <-; apply trim_end_again.
Qed.

Lemma trim_word (l : text) x : is_whitespace x = false → trim_start_t (32%N :: x :: l) = x :: l.
Proof. intros Hx. unfold trim_start_t. cbn [drop_while]. by rewrite Hx. Qed.

Section Pages.
Context `{SqlTokenizer, UnicodeCase, QueryParser}.

Lemma positional_order n :
  format_positional_order_by n = [] ∨ ∃ items, format_positional_order_by n = c " ORDER BY " ++ items.
Proof. unfold format_positional_order_by. destruct (n =? 0); [by left|]. right. by eexists. Qed.

Lemma limit_clause_reads n limit offset :
  let order := match n with Some n => format_positional_order_by n | None => [] end in
  ∃ p, clause_reads LimitOffset
         (trim_start_t (order ++ c " LIMIT " ++ digits limit ++ (if 0 <? offset then c " OFFSET " ++ digits offset else []) ++ c ";")) p ∧
       p = if offset =? 0 then FirstRows limit else SkipFirst offset limit.
Proof.
  intros order. eexists. split; [|done].
  assert (order = [] ∨ ∃ items, order = c " ORDER BY " ++ items) as Horder
    by (destruct n as [n|]; [apply positional_order|by left]).
  assert (∃ front : text, (front = [] ∨ ∃ items, front = c "ORDER BY " ++ items ++ c " ") ∧
    ∀ tail, trim_start_t (order ++ c " LIMIT " ++ tail) = front ++ c "LIMIT " ++ tail) as (front & Hfront & Htail).
  { destruct Horder as [-> | [items ->]]; [by exists []; split; [left|]|].
    exists (c "ORDER BY " ++ items ++ c " "). split; [right; by exists items|]. intros tail.
    change (c " LIMIT " ++ tail) with (c " " ++ c "LIMIT " ++ tail). rewrite <-!app_assoc. reflexivity. }
  rewrite Htail. destruct offset as [|offset].
  - change (0 <? 0) with false. cbn [Nat.eqb]. apply (clause_limit front), Hfront.
  - change (0 <? S offset) with true. cbn [Nat.eqb]. rewrite <-app_assoc. apply (clause_limit_offset front), Hfront.
Qed.

Lemma first_or_skip_rows {A} limit offset (l : list A) :
  page_rows (if offset =? 0 then FirstRows limit else SkipFirst offset limit) l = take limit (drop offset l).
Proof. destruct (Nat.eqb_spec offset 0) as [->|]; done. Qed.

Lemma rows_text n : c ("ROWS " +:+ pretty n) = c "ROWS " ++ digits n.
Proof. unfold c, digits. by rewrite chars_app. Qed.
Lemma rows_to_text first final :
  c ("ROWS " +:+ pretty first +:+ " TO " +:+ pretty final) = c "ROWS " ++ digits first ++ c " TO " ++ digits final.
Proof. unfold c, digits. rewrite !chars_app; [done|done|apply utf8_pretty|done]. Qed.

Lemma skip_cases offset : offset = 0 ∨ 0 <? offset = true ∧ (offset =? 0) = false.
Proof. destruct offset; [by left|by right]. Qed.

Lemma appended_page sql statement d limit offset :
  appends_clause d = true → bounds_itself d statement = false →
  ∃ suffix, paginated_statement sql statement d limit offset = Some (Ok (append_sql_suffix statement suffix)) ∧
  ∃ p, clause_reads (pagination_strategy d UserQuery) (trim_start_t suffix) p ∧
       ∀ A (l : list A), page_rows p l = take limit (drop offset l).
Proof.
  unfold appends_clause, bounds_itself, paginated_statement. intros [[[_ _]%andb_true_iff Hch]%andb_true_iff Hs]%andb_true_iff Hb.
  destruct (pagination_strategy d UserQuery); try discriminate Hs.
  - unfold add_standard_limit. rewrite Hb. apply negb_true_iff in Hch. rewrite Hch. eexists. split; [done|].
    destruct (limit_clause_reads (dedup_projection_count_without_order_by sql) limit offset) as (p & Hp & E).
    exists p. rewrite <-!app_assoc. split; [exact Hp|]. intros A l. rewrite E. apply first_or_skip_rows.
  - unfold add_fetch_first_limit. rewrite Hb. eexists. split; [done|]. destruct (skip_cases offset) as [-> | [Hp _]].
    + eexists. split; [apply (clause_fetch FetchFirst); set_solver|done].
    + rewrite Hp. exists (SkipFirst offset limit). rewrite <-!app_assoc.
      split; [apply (clause_offset_fetch FetchFirst limit offset); set_solver|done].
  - unfold add_fetch_first_limit. rewrite Hb. eexists. split; [done|]. destruct (skip_cases offset) as [-> | [Hp _]].
    + eexists. split; [apply (clause_fetch Db2FetchFirst); set_solver|done].
    + rewrite Hp. exists (SkipFirst offset limit). rewrite <-!app_assoc.
      split; [apply (clause_offset_fetch Db2FetchFirst limit offset); set_solver|done].
  - unfold add_firebird_rows_limit. rewrite Hb. eexists. split; [done|]. unfold firebird_rows_clause.
    destruct (skip_cases offset) as [-> | [Hp Hne]].
    + change (0 <? 0) with false. cbv iota. rewrite rows_text. eexists. split; [apply clause_rows|done].
    + rewrite Hp. exists (RowsTo (offset + 1) (offset + limit)). rewrite rows_to_text, <-!app_assoc. split; [apply clause_rows_to|].
      intros A l. pose proof (page_slice FirebirdRows limit offset l eq_refl) as E. unfold page_of in E. by rewrite Hne in E.
  - unfold add_questdb_limit. rewrite Hb. destruct (skip_cases offset) as [-> | [Hp _]].
    + eexists. split; [done|]. eexists. split; [apply clause_questdb|done].
    + rewrite Hp. eexists. split; [done|]. eexists. split; [apply clause_questdb_bounds|]. intros A l. cbn [page_rows]. do 2 f_equal. lia.
Qed.

End Pages.

(** ** Concrete queries *)

#[local] Instance no_tokenizer : SqlTokenizer := {| tokenize _ _ := None |}.
#[local] Instance no_parser : QueryParser := {| parse_queries _ _ := None |}.
#[local] Existing Instance ascii_case.
Definition postgres : Lexis := {| hash_comments := false; escapes _ := false; brackets := false |}.
Definition commented : text := c "SELECT id FROM t -- newest".


(** The text [a], behind which everything is in a comment. *)
Definition swallowed (v : Lexis) (page a b : text) : Prop := page = a ++ b ∧ lex v InCode a = InLine ∧ 10%N ∉ b.

(** A text over two lines, or a backslash in a text: the scan of the last line takes the
    comment behind it for a part of the text, and the clause of the page becomes a part of the comment. *)
Definition two_lines : text := c "SELECT * FROM t WHERE b = 'first" ++ [10%N] ++ c "second' -- latest".
Definition backslash : text := c "SELECT * FROM t WHERE p = 'c:\' -- latest".
Lemma clause_in_comment :
  (∃ page, build_paginated_query_sql two_lines (Some Postgres) 100 0 = Some (Ok page) ∧
           swallowed postgres page two_lines (c " LIMIT 100;")) ∧
  (∃ page, build_paginated_query_sql backslash (Some Postgres) 100 0 = Some (Ok page) ∧
           swallowed postgres page backslash (c " LIMIT 100;")).
Proof.
  split; eexists; (split; [vm_compute; reflexivity|]); (split; [vm_compute; reflexivity|]);
    (split; [vm_compute; reflexivity|]); vm_compute; set_solver.
Qed.

(** Sorting, and the later pages of SQL Server, put the statement in parentheses with what
    follows a trailing comment on its line. *)
#[local] Instance one_table : QueryParser := {| parse_queries _ _ :=
  Some [Some {| select_body := Some {| has_distinct := false; has_group_by := false; has_having := false;
                                       projection := [UnnamedIdentifier (c "id")]; from_joins := [false] |};
                has_order_by := false; has_settings := false |}] |}.
#[local] Instance ascii_alphanumeric : UnicodeAlphanumeric := {| is_alphanumeric := is_ascii_alphanumeric; is_alphanumeric_ascii _ _ := eq_refl |}.
Definition sort_by_id : SortedQuerySqlOptions :=
  {| sort_sql := commented; sort_database_type := Some Mysql; result_columns := [c "id"]; column_index := 0; sort_column := c "id";
     direction := Asc |}.
Lemma rest_in_comment :
  (∃ sql, build_sorted_query_sql sort_by_id = Some (Ok sql) ∧
          swallowed postgres sql (c "SELECT * FROM (" ++ commented) (c ") t ORDER BY `id` ASC;")) ∧
  (∃ page a b, build_paginated_query_sql commented (Some SqlServer) 100 100 = Some (Ok page) ∧ b ≠ [] ∧
               swallowed postgres page (a ++ commented) b).
Proof.
  split.
  - eexists. split; [vm_compute; reflexivity|]. split; [vm_compute; reflexivity|]. split; [vm_compute; reflexivity|]. vm_compute. set_solver.
  - eexists _, (c "SELECT * FROM (SELECT dbx_page_source.*, ROW_NUMBER() OVER (ORDER BY (SELECT NULL)) AS [__dbx_row_num] FROM ("),
      (c ") dbx_page_source) dbx_page WHERE [__dbx_row_num] > 100 AND [__dbx_row_num] <= 200 ORDER BY [__dbx_row_num];").
    split; [vm_compute; reflexivity|]. split; [done|]. split; [vm_compute; reflexivity|]. split; [vm_compute; reflexivity|]. vm_compute. set_solver.
Qed.

(** A WITH whose name starts with a character of two bytes or more: its bytes before the sixth are no text. *)
Lemma cte_name_panics :
  build_paginated_query_sql (c "WITH é AS (SELECT 1) SELECT * FROM é") (Some Informix) 100 0 = None.
Proof. vm_compute. reflexivity. Qed.

(** The number that tells a second column from the first makes it the name of a third. *)
Lemma aliases_collide : build_derived_column_aliases [c "a"; c "a"; c "a_2"] = [c "a"; c "a_2"; c "a_2"].
Proof. vm_compute. reflexivity. Qed.
